(* ===== verification/_CoqProject ===== *)
-Q . S2P
Prelude.v
Kmu.v
CtaDispatcher.v
Dll.v
MemAlloc.v
VmTypes.v
CmdProc.v
CpHost.v
Rvc.v
Decode.v
RvcSpec.v
RvcProofs.v
Scoreboard.v
Sched.v
Barrier.v
Wctl.v
Simt.v
Alu.v
SchedProofs.v
Vm.v
VmProofs.v
VmMaps.v
VmDevice.v
MemTypes.v
Mmu.v
MmuProofs.v
SimKernel.v
SimKernelProofs.v
Amo.v
Cache.v
CacheWorld.v
AmoProofs.v
CacheAddr.v
CacheSets.v
CacheInv.v
CacheOps.v
CacheProofs.v
CacheTheorems.v
LsuTypes.v
Fetch.v
Coalescer.v
CoalescerRound.v
LsuPath.v
CoalescerMem.v
CoalescerInv.v
CoalescerProofs.v
Lsu.v
LsuValues.v
LsuPack.v
LsuProofs.v
Operands.v
OperandsProofs.v
PackedLoad.v
