(* ===== verification/Prelude.v ===== *)
(** * A verification library for the GRXGPU G100 simulator and runtime

    The G100 is a RISC-V GPU.  Its repository holds a cycle-level simulator
    ([src/sim/simx], with shared parts in [src/sim/common]), the host runtime
    ([src/sw/runtime]) and headers both use ([src/sw/common]).  An application
    submits commands through the runtime; the command processor of the device
    fetches them from a ring in host memory, copies data, writes device
    registers and starts launches; the kernel management unit walks the grid and
    hands CTAs to the cores; in a core the dispatcher gives warps to the
    scheduler, instructions are fetched, decompressed, decoded, checked by the
    scoreboard and executed; the load/store unit packs the lanes of a warp, the
    switch splits them between local memory and the data cache, the coalescer
    merges lanes of one line, and the requests pass the MMU and the caches on
    their way to the memory.  All parts of the simulator exchange packets over
    the channels of a small event kernel.

    ** Parts and files

    Host side.
    - [Dll], [MemAlloc]: [sw/common/mem_alloc.h], the allocator of device
      memory, with the heap of its intrusive lists explicit.
    - [VmTypes]: [sw/common/vm_types.h], page-table entries and addresses.
    - [Vm], [VmProofs], [VmMaps]: [sw/runtime/common/vm.cpp], the page-table
      manager, on two allocators of [MemAlloc].
    - [CpHost]: [sw/runtime/common/device.cpp] (initialisation and submission),
      [caps.h] and the register channel of [sw/runtime/simx/vortex.cpp].
    - [CtaDispatcher.prepare_kernel_launch_params]: [sw/runtime/common/utils.cpp].

    Between host and device.
    - [CmdProc]: [sim/common/cmd_processor.cpp]; the device behind it is an
      abstract state reached through the record [Hooks].
    - [VmDevice]: the page tables as the manager pushes them to the device, and
      the walk of the command processor over them.

    Device.
    - [Kmu]: [sim/simx/kmu/kmu.cpp].  [CtaDispatcher]:
      [sim/simx/cta_dispatcher.cpp], which sees the KMU through the class
      [CtaSource].
    - [Sched], [SchedProofs]: [sim/simx/scheduler.cpp].  [Barrier]:
      [sim/simx/barrier_unit.cpp] and the barrier of [processor.cpp].  [Wctl],
      [Simt]: [sim/simx/wctl_unit.cpp] and what its split/join stack is for.
    - [Rvc], [RvcSpec], [RvcProofs]: [sim/simx/decompressor.cpp].  [Fetch]: the
      fetch stage of [sim/simx/core.cpp] around it.  [Decode]:
      [sim/simx/decode.cpp].  [Scoreboard]: [sim/simx/scoreboard.cpp] with the
      issue and commit steps of [core.cpp].  [Operands], [OperandsProofs]:
      [sim/simx/opc_unit.cpp], [operands.cpp] and [sequencer.cpp];
      [PackedLoad]: the packed loads the sequencer expands.  [Alu]:
      [sim/simx/alu_unit.cpp].
    - [MemTypes]: packets of [sim/simx/types.h].  [Mmu], [MmuProofs]:
      [sim/simx/mem/mmu_tlb.cpp] and [mmu.cpp].
    - [Amo], [AmoProofs]: [sim/simx/amo].  [Cache]: the bank of
      [sim/simx/mem/cache.cpp].  [CacheWorld]: a bank between a core and the
      memory of [sim/simx/mem/memory.cpp].  [CacheAddr], [CacheSets],
      [CacheInv], [CacheOps], [CacheProofs], [CacheTheorems]: its proof.
    - [LsuTypes]: warp-wide packets and the table of outstanding requests of
      [sim/simx/types.h].  [Lsu], [LsuValues], [LsuPack], [LsuProofs]: one
      block of [sim/simx/lsu_unit.cpp].  [LsuPath]: [lsu_mem_adapter.cpp],
      [local_mem_switch.cpp] and the banks of [local_mem.cpp] in
      [sim/simx/mem].  [Coalescer], [CoalescerRound], [CoalescerMem],
      [CoalescerInv], [CoalescerProofs]: [sim/simx/mem/mem_coalescer.cpp].
    - [SimKernel], [SimKernelProofs]: [sim/common/simobject.h] and
      [sw/common/ringqueue.h].

    This file holds the integers of fixed width, bit and byte lemmas, tactics
    and hint databases that the others share.

    ** How the code is modelled

    A class is a [Record] with the fields of the class, a method a function on
    it with the name of the method, an enum an [Inductive].  Unsigned integers
    are [Z] with the wrap-around written at every operation that can leave the
    range; signed overflow is two's complement.  A failed assertion,
    [std::abort], a null or dangling pointer, an index out of range and a shift
    by the width or more are [None]; an error code is a value.  A stall is an
    unchanged state.  Hash maps are [gmap]s, vectors are lists.  Preprocessor
    choices are arguments.  Trace output is left out.

    What is outside the sources is a parameter: the device behind the command
    processor, the backend of the runtime, the random numbers of the address
    randomisation, the source of CTAs.  Timing that belongs to other parts
    (when the memory answers, when a queue is drained) is left open: the
    theorems quantify over every interleaving of the steps.

    ** What is proved

    - Memory allocator: no sequence of operations touches a dead block or fails
      an assertion, and allocations stay disjoint, inside the capacity and
      exactly counted, as long as no allocation asks for more than the capacity
      and no reservation starts below the base (where the code hands out memory
      it does not have); [allocate] and [release] refine an allocator on sets of
      regions.
    - Page tables: an update with valid, readable flags, with room for its
      tables and no table at the place of the superpage, changes exactly one
      page of the translation;
      initialisation maps exactly the identity ranges; a mapped buffer is
      reached byte for byte by host and device alike; the MMU terminates every
      walk with the translation of the manager or a page fault, and under any
      traffic forwards every request once, translated.
    - Commands: a line of commands runs as a sequential interpreter runs it,
      submission of one immediate command returns with the device in that
      state, encoding and decoding
      are inverse, a launch in flight blocks every later effect, chunked DMA is
      one copy.
    - Launch: the grid walk visits every block once; slots, thread indices and
      the local-memory regions of CTAs that fit are exact; the scheduler never
      fails an assertion when only emitted instructions are released.
    - Execution: the compressed instructions of the C table reach the pipeline
      as their base instruction; the fetch stage delivers every trace once with
      the instruction at its PC, also across lines; the integer unit computes
      the values of the instruction set for the register and immediate opcodes;
      the register files of a lane are one table of registers;
      split/join gives every thread its own path within the bounded stack;
      barriers hold and release exactly the waiters; the scoreboard keeps one
      owner per busy register.
    - Load/store path: a load returns the value of the instruction set and a
      store changes exactly the bytes of its access; merging the lanes of a port
      does not change what memory or registers see, so that the requests of a
      port for an aligned store of a warp are the stores of the port's threads
      in order, and those of all ports the stores of all threads in order when
      threads of different ports store to different bytes (the ports are not
      ordered, [LsuPack.WarpStoreDemo.ports_reorder_stores]); a load gives every
      thread the value at its own address; whatever the back-pressure and the
      order of answers, the coalescer sends every lane set once and answers
      every lane once with its own data, and the load/store unit keeps every
      trace whose accesses stay in a block in exactly one place and commits it
      when its last lane is answered.
    - Memory system: a write-back cache bank answers as the memory serving the
      requests in arrival order, in every interleaving, and cannot fail an
      assertion while it holds no more requests than MSHR entries; when idle and
      clean the memory holds the result; atomic operations are those of the A
      extension; reservations are exact.
    - Simulation kernel: every packet arrives exactly its delay after it was
      sent, in order, and no assertion of channels, wheel and queues can fail.

    Defects found on the way are theorems as well, for instance
    [CacheTheorems.CacheDemo.wt_load_overtakes_store] and
    [CacheTheorems.CacheDemo.mshr_overflow_aborts] (cache),
    [MmuProofs.mmu_satp_keeps_walk], [SimKernelProofs.kernel_reset_leaks],
    [VmDevice.vm_map_collision], [CpHost.cp_poll_never_returns],
    [Fetch.FetchDemo.fetch_retry_corrupts], [CtaDispatcher.cd_oversize_region]
    and [Alu.jalr_keeps_bit0].

    ** Bounds and fuel

    Loops whose bound is in the data are structural.  The others take fuel, and
    the theorems show that it is enough: list walks of the allocator take the
    number of live blocks; the walk of a page table takes the number of levels;
    the DMA loop takes the number of bytes; draining the fetch stage takes five
    cycles per trace in it; a packed load takes one step per element; the
    search for an active beat of the load/store unit takes the entries left;
    a request of the coalescer takes at most as many rounds as a group of a
    port has lanes; the flush walk of a cache takes the
    number of sets, ways and sectors; immediate events of the kernel take the
    number of channels on a route, which exist because routes are acyclic; a
    polling loop takes the number of reads, and the submission theorem shows
    that the first read ends it.  Width hypotheses (fewer than 2^64 requests,
    an MSHR below 2^16 entries, a device below the wrap of its addresses) are
    the widths of the counters in the sources.

    ** Not modelled

    Floating point, tensor, texture, raster, output-merger and ray-tracing units
    (softfloat, or host floating point); the pipeline stages of the core other
    than fetch, the dispatchers and arbiters, the tensor-core client of the
    load/store unit, the wrapper around the cache banks, cache clusters, the
    crossbars and the DRAM model (timing and wiring over the channels); the
    fragment work distributor and asynchronous traps of the scheduler; the vector, tensor, DMA and graphics opcodes of the decoder;
    the queue threads, events, modules and reports of the runtime; the FPGA and
    RTL backends (vendor drivers, generated code); the vendored JSON library;
    the kernel library and software graphics (inline assembly, floating point).

    The transparency theorem of the cache is about loads and stores of a
    write-back bank: write-through banks do not satisfy it (see above), and
    atomic operations that pass through a bank are modelled but not part of it. *)

From Stdlib Require Export ZArith Lia Btauto.
From stdpp Require Export base list gmap option.
From coqutil Require Export Datatypes.RecordSettersUsingExistingGetters.

#[export] Set Default Proof Using "Type".

Open Scope Z_scope.

Abbreviation last := list.last.
Abbreviation head := list.head.

(** ** Machine integers

    A [w]-bit unsigned value is a [Z] in [0, 2^w); every arithmetic operation
    of the sources that can leave that range is followed by [wrap]. *)

Definition wrap (w z : Z) : Z := z mod 2 ^ w.

#[global] Arguments wrap : simpl never.

(** Two's complement reading of the low [w] bits. *)
Definition sint (w z : Z) : Z :=
  if wrap w z <? 2 ^ (w - 1) then wrap w z else wrap w z - 2 ^ w.

Definition in_u (w z : Z) : Prop := 0 <= z < 2 ^ w.

Abbreviation u8 := (wrap 8).
Abbreviation u16 := (wrap 16).
Abbreviation u32 := (wrap 32).
Abbreviation u64 := (wrap 64).

Definition b2z (b : bool) : Z := if b then 1 else 0.

(** ** Rewrite and hint databases of the library *)

Create HintDb grx.
Create Rewrite HintDb grx_rw.

Ltac invc H := inversion H; subst; clear H.

Ltac bool_hyps :=
  repeat match goal with
  | H : _ && _ = true |- _ => apply andb_true_iff in H; destruct H
  | H : _ || _ = false |- _ => apply orb_false_iff in H; destruct H
  | H : negb _ = true |- _ => apply negb_true_iff in H
  | H : negb _ = false |- _ => apply negb_false_iff in H
  | H : (_ <? _) = true |- _ => apply Z.ltb_lt in H
  | H : (_ <? _) = false |- _ => apply Z.ltb_ge in H
  | H : (_ <=? _) = true |- _ => apply Z.leb_le in H
  | H : (_ <=? _) = false |- _ => apply Z.leb_gt in H
  | H : (_ =? _) = true |- _ => apply Z.eqb_eq in H
  | H : (_ =? _) = false |- _ => apply Z.eqb_neq in H
  end.

(** Evaluate projections of record updates. *)
Ltac zcbn :=
  cbn -[Z.add Z.sub Z.mul Z.div Z.modulo Z.pow Z.land Z.lor Z.lxor Z.lnot Z.shiftl Z.shiftr
        Z.eqb Z.ltb Z.leb Z.gtb Z.geb Z.to_nat Z.of_nat wrap sint] in *.
Ltac rproj := zcbn; unfold const in *; zcbn.

(** Evaluate record updates everywhere (few updates of small records only). *)
Ltac rsimp := cbv [set const] in *; zcbn.

(** Case analysis on the condition of the outermost [if] of the goal. *)
Ltac case_if :=
  match goal with
  | |- context [if ?b then _ else _] =>
      lazymatch b with context [if _ then _ else _] => fail | _ => idtac end;
      destruct b eqn:?; bool_hyps
  end.

Lemma pow2_pos w : 0 <= w -> 0 < 2 ^ w.
Proof. intros. apply Z.pow_pos_nonneg; lia. Qed.

Lemma wrap_range w z : 0 <= w -> in_u w (wrap w z).
Proof. intros. apply Z.mod_pos_bound, pow2_pos; lia. Qed.

Lemma wrap_small w z : in_u w z -> wrap w z = z.
Proof. apply Z.mod_small. Qed.

Lemma wrap_wrap w z : wrap w (wrap w z) = wrap w z.
Proof. apply Z.mod_mod_divide. exists 1. lia. Qed.

Lemma wrap_add_l w a b : wrap w (wrap w a + b) = wrap w (a + b).
Proof. apply Zplus_mod_idemp_l. Qed.

Lemma wrap_add_r w a b : wrap w (a + wrap w b) = wrap w (a + b).
Proof. apply Zplus_mod_idemp_r. Qed.

Lemma wrap_sub_l w a b : wrap w (wrap w a - b) = wrap w (a - b).
Proof. apply Zminus_mod_idemp_l. Qed.

Lemma wrap_sub_r w a b : wrap w (a - wrap w b) = wrap w (a - b).
Proof. apply Zminus_mod_idemp_r. Qed.

Lemma wrap_mul_l w a b : wrap w (wrap w a * b) = wrap w (a * b).
Proof. apply Zmult_mod_idemp_l. Qed.

Lemma wrap_mul_r w a b : wrap w (a * wrap w b) = wrap w (a * b).
Proof. apply Zmult_mod_idemp_r. Qed.

#[export] Hint Resolve wrap_range : grx.

Lemma sint_range w z : 0 < w -> - 2 ^ (w - 1) <= sint w z < 2 ^ (w - 1).
Proof.
  intros Hw. unfold sint. pose proof (wrap_range w z ltac:(lia)) as [? ?].
  assert (2 ^ w = 2 * 2 ^ (w - 1)).
  { rewrite <- Z.pow_succ_r by lia. f_equal. lia. }
  case_if; lia.
Qed.

Lemma wrap_sint w z : 0 <= w -> wrap w (sint w z) = wrap w z.
Proof.
  intros. unfold sint. case_if; [apply wrap_wrap|].
  unfold wrap at 1. rewrite <- (Z_mod_plus_full _ 1 (2 ^ w)).
  replace (_ - _ + _) with (wrap w z) by lia. apply wrap_wrap.
Qed.

Lemma sint_wrap w z : sint w (wrap w z) = sint w z.
Proof. unfold sint. by rewrite wrap_wrap. Qed.

(** A signed value in range is its own two's complement reading. *)
Lemma sint_small w z : 0 < w -> - 2 ^ (w - 1) <= z < 2 ^ (w - 1) -> sint w z = z.
Proof.
  intros Hw [? ?].
  assert (E : 2 ^ w = 2 * 2 ^ (w - 1)).
  { rewrite <- Z.pow_succ_r by lia. f_equal. lia. }
  unfold sint. destruct (Z_lt_le_dec z 0).
  - assert (W : wrap w z = z + 2 ^ w).
    { unfold wrap. rewrite <- (Z_mod_plus_full z 1), Z.mul_1_l. apply Z.mod_small. lia. }
    rewrite W. case_if; lia.
  - rewrite wrap_small by (unfold in_u; lia). case_if; lia.
Qed.

(** ** Bits *)

Lemma testbit_wrap w z i :
  0 <= w -> 0 <= i -> Z.testbit (wrap w z) i = (i <? w) && Z.testbit z i.
Proof.
  intros. unfold wrap. destruct (Z.ltb_spec i w).
  - by rewrite Z.mod_pow2_bits_low by lia.
  - by rewrite Z.mod_pow2_bits_high by lia.
Qed.

Lemma testbit_in_u w z i : 0 <= w -> in_u w z -> w <= i -> Z.testbit z i = false.
Proof.
  intros. rewrite <- (wrap_small w z) by done.
  rewrite testbit_wrap by lia. destruct (Z.ltb_spec i w); [lia|done].
Qed.

Lemma land_ones_wrap w z : 0 <= w -> Z.land z (Z.ones w) = wrap w z.
Proof. intros. apply Z.land_ones; lia. Qed.

Lemma lor_in_u w a b : 0 <= w -> in_u w a -> in_u w b -> in_u w (Z.lor a b).
Proof.
  intros Hw Ha Hb. split.
  - apply Z.lor_nonneg. unfold in_u in *. lia.
  - assert (E : Z.lor a b = wrap w (Z.lor a b)); [|rewrite E; by apply wrap_range].
    apply Z.bits_inj'; intros i Hi. rewrite testbit_wrap by lia.
    destruct (Z.ltb_spec i w); [done|].
    rewrite Z.lor_spec, !(testbit_in_u w) by (done || lia). done.
Qed.

Lemma land_in_u_l w a b : 0 <= w -> in_u w a -> in_u w (Z.land a b).
Proof.
  intros Hw Ha. split.
  - apply Z.land_nonneg. unfold in_u in *. lia.
  - assert (E : Z.land a b = wrap w (Z.land a b)); [|rewrite E; by apply wrap_range].
    apply Z.bits_inj'; intros i Hi. rewrite testbit_wrap by lia.
    destruct (Z.ltb_spec i w); [done|].
    rewrite Z.land_spec, (testbit_in_u w a) by (done || lia). done.
Qed.

Lemma land_in_u_r w a b : 0 <= w -> in_u w b -> in_u w (Z.land a b).
Proof. intros. rewrite Z.land_comm. by apply land_in_u_l. Qed.

Lemma lxor_in_u w a b : 0 <= w -> in_u w a -> in_u w b -> in_u w (Z.lxor a b).
Proof.
  intros Hw Ha Hb. split.
  - apply Z.lxor_nonneg. unfold in_u in *. lia.
  - assert (E : Z.lxor a b = wrap w (Z.lxor a b)); [|rewrite E; by apply wrap_range].
    apply Z.bits_inj'; intros i Hi. rewrite testbit_wrap by lia.
    destruct (Z.ltb_spec i w); [done|].
    rewrite Z.lxor_spec, !(testbit_in_u w) by (done || lia). done.
Qed.

Lemma shiftr_in_u w n a : 0 <= n -> 0 <= w -> in_u w a -> in_u w (Z.shiftr a n).
Proof.
  intros. rewrite Z.shiftr_div_pow2 by lia. unfold in_u in *.
  pose proof (pow2_pos n ltac:(lia)). split; [apply Z.div_pos; lia|].
  apply Z.div_lt_upper_bound; nia.
Qed.

Lemma lor_add_disjoint a b : Z.land a b = 0 -> Z.lor a b = a + b.
Proof. intros. rewrite <- Z.lxor_lor by done. symmetry. by apply Z.add_nocarry_lxor. Qed.

#[export] Hint Resolve lor_in_u land_in_u_l lxor_in_u shiftr_in_u : grx.

(** Bitwise equality of two expressions built from the operations below: the
    index is compared with every shift and width that occurs. *)
Ltac testbits :=
  repeat match goal with
  | |- context [Z.testbit (Z.lor ?a ?b) ?i] => rewrite (Z.lor_spec a b i)
  | |- context [Z.testbit (Z.land ?a ?b) ?i] => rewrite (Z.land_spec a b i)
  | |- context [Z.testbit (Z.lxor ?a ?b) ?i] => rewrite (Z.lxor_spec a b i)
  | |- context [Z.testbit (Z.shiftl ?a ?n) ?i] => rewrite (Z.shiftl_spec a n i) by lia
  | |- context [Z.testbit (Z.shiftr ?a ?n) ?i] => rewrite (Z.shiftr_spec a n i) by lia
  | |- context [Z.testbit (wrap ?w ?a) ?i] => rewrite (testbit_wrap w a i) by lia
  | |- context [Z.testbit (Z.ones ?n) ?i] => rewrite (Z.testbit_ones_nonneg n i) by lia
  | |- context [Z.testbit (Z.lnot ?a) ?i] => rewrite (Z.lnot_spec a i) by lia
  | |- context [Z.testbit 0 ?i] => rewrite (Z.bits_0 i)
  end.

Ltac kill_high :=
  repeat match goal with
  | H : in_u ?w ?x |- context [Z.testbit ?x ?i] =>
      rewrite (testbit_in_u w x i) by (exact H || lia)
  | |- context [Z.testbit ?x ?i] => rewrite (Z.testbit_neg_r x i) by lia
  end.

Ltac split_index :=
  match goal with
  | |- context [?a <? ?b] => destruct (Z.ltb_spec a b); try lia
  end.

Ltac zbits :=
  apply Z.bits_inj'; intros ?i ?Hi; testbits;
  repeat split_index; kill_high;
  rewrite ?andb_true_r, ?andb_false_r, ?andb_true_l, ?andb_false_l, ?orb_false_r, ?orb_false_l;
  try reflexivity; try (f_equal; lia); try btauto.

(** ** 64-bit registers written as two 32-bit halves *)

Definition lo32 (v : Z) : Z := Z.land v 0xFFFFFFFF.
Definition hi32 (v : Z) : Z := Z.shiftr v 32.
Definition set_lo32 (v x : Z) : Z := Z.lor (Z.land v 0xFFFFFFFF00000000) x.
Definition set_hi32 (v x : Z) : Z := Z.lor (Z.land v 0x00000000FFFFFFFF) (u64 (Z.shiftl x 32)).

Lemma testbit_hi_mask i : 0 <= i ->
  Z.testbit 0xFFFFFFFF00000000 i = (negb (i <? 32)) && (i <? 64).
Proof.
  intros. change 0xFFFFFFFF00000000 with (Z.shiftl (Z.ones 32) 32).
  rewrite Z.shiftl_spec by lia. destruct (Z.ltb_spec i 32).
  - by rewrite Z.testbit_neg_r by lia.
  - rewrite Z.testbit_ones_nonneg by lia. repeat split_index; done.
Qed.

Ltac half_bits :=
  unfold lo32, hi32, set_lo32, set_hi32;
  change 0xFFFFFFFF with (Z.ones 32);
  apply Z.bits_inj'; intros ?i ?Hi; testbits;
  rewrite ?testbit_hi_mask by lia; repeat split_index; simpl; kill_high;
  rewrite ?andb_true_r, ?andb_false_r, ?orb_false_r, ?orb_false_l;
  try reflexivity; try (f_equal; lia).

Lemma lo32_set_lo32 v x : in_u 32 x -> lo32 (set_lo32 v x) = x.
Proof. intros. half_bits. Qed.
Lemma hi32_set_lo32 v x : in_u 64 v -> in_u 32 x -> hi32 (set_lo32 v x) = hi32 v.
Proof. intros. half_bits. Qed.
Lemma hi32_set_hi32 v x : in_u 32 x -> hi32 (set_hi32 v x) = x.
Proof. intros. half_bits. Qed.
Lemma lo32_set_hi32 v x : in_u 32 x -> lo32 (set_hi32 v x) = lo32 v.
Proof. intros. half_bits. Qed.
Lemma set_halves v x y : in_u 32 x -> in_u 32 y ->
  set_hi32 (set_lo32 v x) y = y * 2 ^ 32 + x.
Proof.
  intros Hx Hy. rewrite <- Z.shiftl_mul_pow2 by lia.
  rewrite <- lor_add_disjoint.
  - half_bits.
  - apply Z.bits_inj'; intros i Hi. testbits.
    destruct (Z.ltb_spec i 32); kill_high; auto using andb_false_r.
Qed.
(** Writing back both halves of a 64-bit value over anything restores it. *)
Lemma set_halves_id v w : in_u 64 w -> set_hi32 (set_lo32 v (lo32 w)) (hi32 w) = w.
Proof.
  intros Hw.
  assert (in_u 32 (lo32 w)).
  { unfold lo32. apply land_in_u_r; [lia|]. unfold in_u. lia. }
  assert (in_u 32 (hi32 w)).
  { unfold hi32, in_u in *. rewrite Z.shiftr_div_pow2 by lia. split; [apply Z.div_pos; lia|].
    apply Z.div_lt_upper_bound; lia. }
  rewrite set_halves by done. unfold lo32, hi32. change 0xFFFFFFFF with (Z.ones 32).
  rewrite Z.land_ones, Z.shiftr_div_pow2 by lia.
  pose proof (Z.div_mod w (2 ^ 32) ltac:(lia)). lia.
Qed.
Lemma set_lo32_range v x : in_u 32 x -> in_u 64 (set_lo32 v x).
Proof.
  intros. unfold set_lo32. apply lor_in_u; [lia| |unfold in_u in *; lia].
  apply land_in_u_r; [lia|]. unfold in_u. lia.
Qed.
Lemma set_hi32_range v x : in_u 64 (set_hi32 v x).
Proof.
  unfold set_hi32. apply lor_in_u; [lia| |apply wrap_range; lia].
  apply land_in_u_r; [lia|]. unfold in_u. lia.
Qed.

#[export] Hint Resolve set_lo32_range set_hi32_range : grx.
#[export] Hint Rewrite lo32_set_lo32 hi32_set_lo32 hi32_set_hi32 lo32_set_hi32
  using (solve [eauto with grx]) : grx_rw.

(** ** Bytes, little endian *)

Definition is_byte (b : Z) : Prop := in_u 8 b.

(** [v |= (uint64_t)line[o + i] << (8 * i)], low byte first. *)
Fixpoint le_word (bs : list Z) : Z :=
  match bs with
  | [] => 0
  | b :: bs' => Z.lor b (Z.shiftl (le_word bs') 8)
  end.

(** [line[o + i] = (uint8_t)((v >> (8 * i)) & 0xff)], low byte first. *)
Fixpoint le_bytes (n : nat) (v : Z) : list Z :=
  match n with
  | O => []
  | S n' => Z.land v 0xff :: le_bytes n' (Z.shiftr v 8)
  end.

Lemma length_le_bytes n v : length (le_bytes n v) = n.
Proof. revert v. induction n; intros; simpl; auto. Qed.

Lemma le_bytes_is_byte n v : Forall is_byte (le_bytes n v).
Proof.
  revert v. induction n; intros; simpl; constructor; auto.
  apply land_in_u_r; [lia|]. unfold in_u. lia.
Qed.

Lemma le_word_le_bytes n v : le_word (le_bytes n v) = wrap (8 * Z.of_nat n) v.
Proof.
  revert v. induction n as [|n IH]; intros v; simpl le_bytes; simpl le_word.
  - unfold wrap. by rewrite Z.mod_1_r.
  - rewrite IH. change 0xff with (Z.ones 8).
    replace (8 * Z.of_nat (S n)) with (8 + 8 * Z.of_nat n) by lia.
    assert (Hw : 0 <= 8 * Z.of_nat n) by lia. clear IH.
    revert Hw. generalize (8 * Z.of_nat n). intros w Hw.
    apply Z.bits_inj'; intros i Hi.
    destruct (Z.ltb_spec i 8); testbits; kill_high; repeat split_index;
      rewrite ?Z.sub_add; btauto.
Qed.

Lemma le_word_range bs : Forall is_byte bs -> in_u (8 * Z.of_nat (length bs)) (le_word bs).
Proof.
  induction 1 as [|b bs Hb Hbs IH]; [unfold in_u; simpl; lia|].
  simpl le_word. cbn [length].
  replace (8 * Z.of_nat (S (length bs))) with (8 + 8 * Z.of_nat (length bs)) by lia.
  assert (0 <= 8 * Z.of_nat (length bs)) by lia.
  revert IH H. generalize (8 * Z.of_nat (length bs)). intros w IH Hw.
  pose proof (pow2_pos w Hw).
  apply lor_in_u; [lia| |].
  - unfold is_byte, in_u in *. rewrite Z.pow_add_r by lia. nia.
  - rewrite Z.shiftl_mul_pow2 by lia. unfold in_u in *. rewrite Z.pow_add_r by lia. nia.
Qed.

Lemma le_bytes_le_word bs : Forall is_byte bs -> le_bytes (length bs) (le_word bs) = bs.
Proof.
  induction 1 as [|b bs Hb Hbs IH]; [done|].
  cbn [length le_word le_bytes]. change 0xff with (Z.ones 8). unfold is_byte in Hb. f_equal.
  - apply Z.bits_inj'; intros i Hi. testbits. repeat split_index; kill_high; btauto.
  - etrans; [|exact IH]. f_equal.
    apply Z.bits_inj'; intros i Hi. testbits. kill_high.
    rewrite orb_false_l. f_equal. lia.
Qed.

Lemma le_bytes_lookup n v k : (k < n)%nat -> le_bytes n v !! k = Some (Z.land (Z.shiftr v (8 * Z.of_nat k)) 0xFF).
Proof.
  revert v k. induction n as [|n IH]; intros v [|k] H; [lia|lia| |].
  - cbn [le_bytes]. by rewrite Z.shiftr_0_r.
  - cbn [le_bytes]. change ((?x :: ?l) !! S k) with (l !! k). rewrite IH by lia. do 2 f_equal. rewrite Z.shiftr_shiftr by lia. f_equal. lia.
Qed.

(** ** Counters in mixed radix *)

Lemma succ_mod_wrap i c : 0 < c -> i mod c + 1 = c ->
  (i + 1) mod c = 0 /\ (i + 1) / c = i / c + 1.
Proof.
  intros Hc H. pose proof (Z.div_mod i c ltac:(lia)) as E.
  replace (i + 1) with (0 + (i / c + 1) * c) by lia.
  rewrite Z_mod_plus_full, Z_div_plus_full by lia.
  rewrite Z.mod_0_l, Z.div_0_l by lia. lia.
Qed.

Lemma succ_mod_next i c : 0 < c -> i mod c + 1 <> c ->
  (i + 1) mod c = i mod c + 1 /\ (i + 1) / c = i / c.
Proof.
  intros Hc H. pose proof (Z.div_mod i c ltac:(lia)) as E.
  pose proof (Z.mod_pos_bound i c Hc) as [? ?].
  replace (i + 1) with ((i mod c + 1) + (i / c) * c) by lia.
  rewrite Z_mod_plus_full, Z_div_plus_full by lia.
  rewrite Z.mod_small, Z.div_small by lia. lia.
Qed.

Lemma mod_digit d q c : 0 < c -> 0 <= d < c -> (d + c * q) mod c = d.
Proof. intros. rewrite Z.mul_comm, Z_mod_plus_full. apply Z.mod_small. lia. Qed.

Lemma div_digit d q c : 0 < c -> 0 <= d < c -> (d + c * q) / c = q.
Proof. intros. rewrite Z.mul_comm, Z_div_plus_full, Z.div_small; lia. Qed.

Lemma digit_range d q c n : 0 <= d < c -> 0 <= q < n -> 0 <= d + c * q < c * n.
Proof. nia. Qed.

Lemma div_range i c n : 0 < c -> 0 <= i < c * n -> 0 <= i / c < n.
Proof. intros. split; [apply Z.div_pos; lia|]. apply Z.div_lt_upper_bound; lia. Qed.

Lemma last_digit d q c n : 0 <= d < c -> 0 <= q < n ->
  d + c * q + 1 = c * n <-> d + 1 = c /\ q + 1 = n.
Proof.
  intros. split; [|intros [<- <-]; ring]. intros E.
  assert (q + 1 = n) by nia. split; [nia|done].
Qed.

(** ** Filters *)

Lemma filter_ext_in {A} (P1 P2 : A -> Prop) {D1 : forall x, Decision (P1 x)} {D2 : forall x, Decision (P2 x)} (l : list A) :
  (forall x, x ∈ l -> P1 x <-> P2 x) -> filter P1 l = filter P2 l.
Proof.
  induction l as [|x l IH]; intros H; [done|]. rewrite !filter_cons, IH by (intros y Hy; apply H; by right).
  pose proof (H x ltac:(left)). destruct (decide (P1 x)), (decide (P2 x)); (done || tauto).
Qed.

Lemma filter_all {A} (P1 : A -> Prop) {D1 : forall x, Decision (P1 x)} (l : list A) : (forall x, x ∈ l -> P1 x) -> filter P1 l = l.
Proof.
  induction l as [|x l IH]; intros H; [done|]. rewrite filter_cons, decide_True by (apply H; left). f_equal. apply IH. intros y Hy. apply H. by right.
Qed.

Lemma filter_none {A} (P1 : A -> Prop) {D1 : forall x, Decision (P1 x)} (l : list A) : (forall x, x ∈ l -> ~ P1 x) -> filter P1 l = [].
Proof.
  induction l as [|x l IH]; intros H; [done|]. rewrite filter_cons, decide_False by (apply H; left). apply IH. intros y Hy. apply H. by right.
Qed.

(** ** Occurrence counts *)

Fixpoint countZ (s : Z) (l : list Z) : Z :=
  match l with
  | [] => 0
  | x :: l => b2z (x =? s) + countZ s l
  end.

Lemma countZ_bounds s l : 0 <= countZ s l <= Z.of_nat (length l).
Proof. induction l as [|x l IH]; cbn [countZ length]; [lia|]. destruct (x =? s); cbn [b2z]; lia. Qed.

Lemma countZ_insert s l i x y : l !! i = Some x ->
  countZ s (<[i := y]> l) = countZ s l - b2z (x =? s) + b2z (y =? s).
Proof.
  revert i. induction l as [|z l IH]; intros [|i] H; cbn in H; simplify_eq; cbn [countZ]; [cbn; lia|].
  change (<[S i := y]> (z :: l)) with (z :: <[i := y]> l). cbn [countZ]. rewrite (IH i H). lia.
Qed.

Lemma countZ_pos s l i : l !! i = Some s -> 0 < countZ s l.
Proof.
  revert i. induction l as [|z l IH]; intros [|i] H; cbn in *; simplify_eq.
  - rewrite Z.eqb_refl. pose proof (countZ_bounds s l). cbn. lia.
  - specialize (IH i H). destruct (z =? s); cbn; lia.
Qed.

Lemma countZ_replicate s n x : x <> s -> countZ s (replicate n x) = 0.
Proof. intros H. induction n; cbn; [done|]. apply Z.eqb_neq in H. by rewrite H, IHn. Qed.

(** Adding [a] to a mixed-radix number, one digit at a time. *)
Lemma add_digit j a cin c : 0 < c -> 0 <= cin <= 1 ->
  let s := j mod c + a mod c + cin in
  let carry := s >=? c in
  (j + a + cin) mod c = (if carry then s - c else s) /\
  (j + a + cin) / c = j / c + a / c + b2z carry.
Proof.
  intros Hc Hi. cbn zeta. pose proof (Z.div_mod j c ltac:(lia)) as Ej. pose proof (Z.div_mod a c ltac:(lia)) as Ea.
  pose proof (Z.mod_pos_bound j c Hc). pose proof (Z.mod_pos_bound a c Hc).
  destruct (Z.geb_spec (j mod c + a mod c + cin) c); cbn [b2z].
  - replace (j + a + cin) with ((j mod c + a mod c + cin - c) + c * (j / c + a / c + 1)) by lia.
    rewrite mod_digit, div_digit by lia. lia.
  - replace (j + a + cin) with ((j mod c + a mod c + cin) + c * (j / c + a / c)) by lia.
    rewrite mod_digit, div_digit by lia. lia.
Qed.

Lemma b2z_range b : 0 <= b2z b <= 1.
Proof. destruct b; cbn; lia. Qed.

#[export] Hint Resolve b2z_range : grx.

(** ** Alignment *)

Lemma align_down w m x : 0 <= m -> 0 <= w -> in_u w x ->
  Z.land x (wrap w (Z.lnot (2 ^ m - 1))) = x - x mod 2 ^ m.
Proof.
  intros Hm Hw Hx. replace (2 ^ m - 1) with (Z.ones m) by (rewrite Z.ones_equiv; lia).
  assert (E : Z.land x (wrap w (Z.lnot (Z.ones m))) = Z.ldiff x (Z.ones m)).
  { apply Z.bits_inj'; intros i Hi. rewrite Z.land_spec, testbit_wrap, Z.ldiff_spec, Z.lnot_spec by lia.
    destruct (Z.ltb_spec i w); [done|]. by rewrite (testbit_in_u w x i) by done. }
  rewrite E, Z.ldiff_ones_r, Z.shiftr_div_pow2, Z.shiftl_mul_pow2 by lia.
  pose proof (pow2_pos m Hm). pose proof (Z.div_mod x (2 ^ m) ltac:(lia)). lia.
Qed.

(** [(x + a - 1) & ~(a - 1)] is the least multiple of [a] not below [x]. *)
Lemma align_up w m x : 0 <= m -> 0 <= w -> 0 <= x -> x + 2 ^ m - 1 < 2 ^ w ->
  let y := Z.land (wrap w (x + 2 ^ m - 1)) (wrap w (Z.lnot (2 ^ m - 1))) in
  y mod 2 ^ m = 0 /\ x <= y < x + 2 ^ m.
Proof.
  intros Hm Hw Hx Hlt. pose proof (pow2_pos m Hm). cbn zeta.
  rewrite wrap_small by (unfold in_u; lia). rewrite align_down by (unfold in_u; lia).
  set (z := x + 2 ^ m - 1). pose proof (Z.mod_pos_bound z (2 ^ m) ltac:(lia)).
  split; [|lia]. rewrite Zminus_mod_idemp_r, Z.sub_diag. apply Z.mod_0_l. lia.
Qed.
