(* ===== verification/Kmu.v ===== *)
(** * Kernel Management Unit

    [sim/simx/kmu/kmu.{h,cpp}]: the unit that holds the kernel descriptor
    written through the DCR bus and walks the grid, handing out one CTA per
    [step].  The walk is a six-digit odometer: the offset inside a cluster is
    the fast half and the cluster origin the slow half.  The theorems show
    that the incremental walk visits every block of the grid exactly once,
    cluster by cluster, and stops. *)

From S2P Require Import Prelude.

Record vec3 := Vec3 { vx : Z; vy : Z; vz : Z }.

#[export] Instance vec3_eq_dec : EqDecision vec3.
Proof. solve_decision. Defined.

Definition vec3_map2 (f : Z -> Z -> Z) (a b : vec3) : vec3 :=
  Vec3 (f (vx a) (vx b)) (f (vy a) (vy b)) (f (vz a) (vz b)).

Definition zero3 : vec3 := Vec3 0 0 0.
Definition one3 : vec3 := Vec3 1 1 1.

(** [struct kmu_req_t] *)
Record kmu_req_t := {
  req_PC : Z;
  req_entry : Z;
  req_param : Z;
  req_cta_id : Z;
  req_block_idx : vec3;
  req_block_dim : vec3;
  req_grid_dim : vec3;
  req_lmem_size : Z;
  req_block_size : Z;
  req_warp_step : vec3;
  req_cluster_dim : vec3;
  req_is_first_of_cluster : bool
}.

(** [class Kmu] *)
Record Kmu := {
  PC_ : Z;
  entry_ : Z;
  param_ : Z;
  block_dim_ : vec3;
  grid_dim_ : vec3;
  lmem_size_ : Z;
  block_size_ : Z;
  warp_step_ : vec3;
  cluster_dim_ : vec3;
  running_ : bool;
  cta_id_ : Z;
  group_origin_ : vec3;
  intra_offset_ : vec3
}.

Definition Kmu_init : Kmu := {|
  PC_ := 0; entry_ := 0; param_ := 0;
  block_dim_ := one3; grid_dim_ := one3;
  lmem_size_ := 0; block_size_ := 0;
  warp_step_ := one3; cluster_dim_ := one3;
  running_ := false; cta_id_ := 0;
  group_origin_ := zero3; intra_offset_ := zero3
|}.

Definition kmu_on_reset (k : Kmu) : Kmu :=
  k <| running_ := false |> <| cta_id_ := 0 |>
    <| group_origin_ := zero3 |> <| intra_offset_ := zero3 |>.

(** The DCR addresses of [VX_types.h]. *)
Definition VX_DCR_KMU_STATE_BEGIN := 0x010.
Definition VX_DCR_KMU_STARTUP_ADDR0 := 0x010.
Definition VX_DCR_KMU_STARTUP_ADDR1 := 0x011.
Definition VX_DCR_KMU_KERNEL_ENTRY0 := 0x012.
Definition VX_DCR_KMU_KERNEL_ENTRY1 := 0x013.
Definition VX_DCR_KMU_STARTUP_ARG0 := 0x014.
Definition VX_DCR_KMU_STARTUP_ARG1 := 0x015.
Definition VX_DCR_KMU_BLOCK_DIM_X := 0x016.
Definition VX_DCR_KMU_BLOCK_DIM_Y := 0x017.
Definition VX_DCR_KMU_BLOCK_DIM_Z := 0x018.
Definition VX_DCR_KMU_GRID_DIM_X := 0x019.
Definition VX_DCR_KMU_GRID_DIM_Y := 0x01A.
Definition VX_DCR_KMU_GRID_DIM_Z := 0x01B.
Definition VX_DCR_KMU_LMEM_SIZE := 0x01C.
Definition VX_DCR_KMU_BLOCK_SIZE := 0x01D.
Definition VX_DCR_KMU_WARP_STEP_X := 0x01E.
Definition VX_DCR_KMU_WARP_STEP_Y := 0x01F.
Definition VX_DCR_KMU_WARP_STEP_Z := 0x020.
Definition VX_DCR_KMU_CLUSTER_DIM_X := 0x021.
Definition VX_DCR_KMU_CLUSTER_DIM_Y := 0x022.
Definition VX_DCR_KMU_CLUSTER_DIM_Z := 0x023.
Definition VX_DCR_KMU_STATE_END := 0x024.

Definition kmu_dcr_write (k : Kmu) (addr value : Z) : Kmu :=
  if addr =? VX_DCR_KMU_STARTUP_ADDR0 then k <| PC_ ::= fun v => set_lo32 v value |>
  else if addr =? VX_DCR_KMU_STARTUP_ADDR1 then k <| PC_ ::= fun v => set_hi32 v value |>
  else if addr =? VX_DCR_KMU_KERNEL_ENTRY0 then k <| entry_ ::= fun v => set_lo32 v value |>
  else if addr =? VX_DCR_KMU_KERNEL_ENTRY1 then k <| entry_ ::= fun v => set_hi32 v value |>
  else if addr =? VX_DCR_KMU_STARTUP_ARG0 then k <| param_ ::= fun v => set_lo32 v value |>
  else if addr =? VX_DCR_KMU_STARTUP_ARG1 then k <| param_ ::= fun v => set_hi32 v value |>
  else if addr =? VX_DCR_KMU_BLOCK_DIM_X then k <| block_dim_ ::= fun v => v <| vx := value |> |>
  else if addr =? VX_DCR_KMU_BLOCK_DIM_Y then k <| block_dim_ ::= fun v => v <| vy := value |> |>
  else if addr =? VX_DCR_KMU_BLOCK_DIM_Z then k <| block_dim_ ::= fun v => v <| vz := value |> |>
  else if addr =? VX_DCR_KMU_GRID_DIM_X then k <| grid_dim_ ::= fun v => v <| vx := value |> |>
  else if addr =? VX_DCR_KMU_GRID_DIM_Y then k <| grid_dim_ ::= fun v => v <| vy := value |> |>
  else if addr =? VX_DCR_KMU_GRID_DIM_Z then k <| grid_dim_ ::= fun v => v <| vz := value |> |>
  else if addr =? VX_DCR_KMU_LMEM_SIZE then k <| lmem_size_ := value |>
  else if addr =? VX_DCR_KMU_BLOCK_SIZE then k <| block_size_ := value |>
  else if addr =? VX_DCR_KMU_WARP_STEP_X then k <| warp_step_ ::= fun v => v <| vx := value |> |>
  else if addr =? VX_DCR_KMU_WARP_STEP_Y then k <| warp_step_ ::= fun v => v <| vy := value |> |>
  else if addr =? VX_DCR_KMU_WARP_STEP_Z then k <| warp_step_ ::= fun v => v <| vz := value |> |>
  else if addr =? VX_DCR_KMU_CLUSTER_DIM_X then k <| cluster_dim_ ::= fun v => v <| vx := value |> |>
  else if addr =? VX_DCR_KMU_CLUSTER_DIM_Y then k <| cluster_dim_ ::= fun v => v <| vy := value |> |>
  else if addr =? VX_DCR_KMU_CLUSTER_DIM_Z then k <| cluster_dim_ ::= fun v => v <| vz := value |> |>
  else k.

Definition kmu_start (k : Kmu) : Kmu :=
  let run := (block_size_ k >? 0)
    && (vx (grid_dim_ k) >? 0) && (vy (grid_dim_ k) >? 0) && (vz (grid_dim_ k) >? 0)
    && (vx (cluster_dim_ k) >? 0) && (vy (cluster_dim_ k) >? 0) && (vz (cluster_dim_ k) >? 0) in
  let k := k <| running_ := run |> in
  if run then
    k <| cta_id_ := 0 |> <| group_origin_ := zero3 |> <| intra_offset_ := zero3 |>
  else k.

Definition kmu_launch_delegated (k : Kmu) : bool :=
  negb ((negb (vx (grid_dim_ k) =? 0)) && (negb (vy (grid_dim_ k) =? 0))
        && (negb (vz (grid_dim_ k) =? 0))).

(** The request filled from the current counters. *)
Definition kmu_req (k : Kmu) : kmu_req_t := {|
  req_PC := PC_ k; req_entry := entry_ k; req_param := param_ k;
  req_cta_id := cta_id_ k;
  req_block_idx := vec3_map2 (fun a b => u32 (a + b)) (group_origin_ k) (intra_offset_ k);
  req_block_dim := block_dim_ k; req_grid_dim := grid_dim_ k;
  req_lmem_size := lmem_size_ k; req_block_size := block_size_ k;
  req_warp_step := warp_step_ k; req_cluster_dim := cluster_dim_ k;
  req_is_first_of_cluster :=
    (vx (intra_offset_ k) =? 0) && (vy (intra_offset_ k) =? 0) && (vz (intra_offset_ k) =? 0)
|}.

(** Advance of [group_origin_] once a cluster is complete. *)
Definition kmu_next_origin (k : Kmu) : Kmu :=
  let o := group_origin_ k in let c := cluster_dim_ k in let g := grid_dim_ k in
  let ox := u32 (vx o + vx c) in
  if ox =? vx g then
    let o := o <| vx := 0 |> in
    let oy := u32 (vy o + vy c) in
    if oy =? vy g then
      let o := o <| vy := 0 |> in
      let oz := u32 (vz o + vz c) in
      if oz =? vz g then
        k <| group_origin_ := o <| vz := 0 |> |> <| running_ := false |>
      else k <| group_origin_ := o <| vz := oz |> |>
    else k <| group_origin_ := o <| vy := oy |> |>
  else k <| group_origin_ := o <| vx := ox |> |>.

(** Advance of the counters: the intra-cluster offset first. *)
Definition kmu_advance (k : Kmu) : Kmu :=
  let k := k <| cta_id_ ::= fun n => u32 (n + 1) |> in
  let i := intra_offset_ k in let c := cluster_dim_ k in
  if negb (u32 (vx i + 1) =? vx c) then
    k <| intra_offset_ := i <| vx ::= fun n => u32 (n + 1) |> |>
  else
    let i := i <| vx := 0 |> in
    if negb (u32 (vy i + 1) =? vy c) then
      k <| intra_offset_ := i <| vy ::= fun n => u32 (n + 1) |> |>
    else
      let i := i <| vy := 0 |> in
      if negb (u32 (vz i + 1) =? vz c) then
        k <| intra_offset_ := i <| vz ::= fun n => u32 (n + 1) |> |>
      else kmu_next_origin (k <| intra_offset_ := i <| vz := 0 |> |>).

(** [Kmu::step]: [None] is the [false] return, which leaves [*req] alone. *)
Definition kmu_step (k : Kmu) : option (kmu_req_t * Kmu) :=
  if running_ k then Some (kmu_req k, kmu_advance k) else None.

(** The issue loop: call [step] until it returns [false] or [fuel] runs out. *)
Fixpoint kmu_run (fuel : nat) (k : Kmu) : list kmu_req_t * Kmu :=
  match fuel with
  | O => ([], k)
  | S f =>
      match kmu_step k with
      | None => ([], k)
      | Some (r, k') => let '(rs, k'') := kmu_run f k' in (r :: rs, k'')
      end
  end.

(** ** Reference: the grid enumerated by a linear index *)

Definition in_grid (g b : vec3) : Prop :=
  0 <= vx b < vx g /\ 0 <= vy b < vy g /\ 0 <= vz b < vz g.

Definition volume (v : vec3) : Z := vx v * vy v * vz v.

(** Position [i] of an [X]-fastest enumeration of a box of extents [r]. *)
Definition unrank (r : vec3) (i : Z) : vec3 :=
  Vec3 (i mod vx r) (i / vx r mod vy r) (i / vx r / vy r).

Definition rank (r v : vec3) : Z := vx v + vx r * (vy v + vy r * vz v).

Definition pos3 (v : vec3) : Prop := 0 < vx v /\ 0 < vy v /\ 0 < vz v.

Lemma unrank_range r i : pos3 r -> 0 <= i < volume r -> in_grid r (unrank r i).
Proof.
  intros (Hx & Hy & Hz) Hi. unfold volume in Hi.
  assert (0 <= i / vx r < vy r * vz r) by (apply div_range; lia).
  assert (0 <= i / vx r / vy r < vz r) by (apply div_range; lia).
  unfold in_grid; cbn. pose proof (Z.mod_pos_bound i (vx r) Hx).
  pose proof (Z.mod_pos_bound (i / vx r) (vy r) Hy). lia.
Qed.

Lemma rank_unrank r i : pos3 r -> rank r (unrank r i) = i.
Proof.
  intros (Hx & Hy & Hz). unfold rank; cbn.
  pose proof (Z.div_mod i (vx r) ltac:(lia)).
  pose proof (Z.div_mod (i / vx r) (vy r) ltac:(lia)). lia.
Qed.

Lemma rank_range r v : pos3 r -> in_grid r v -> 0 <= rank r v < volume r.
Proof.
  intros (Hx & Hy & Hz) (Bx & By & Bz). unfold rank, volume.
  rewrite <- Z.mul_assoc. apply digit_range; [done|]. by apply digit_range.
Qed.

Lemma unrank_rank r v : pos3 r -> in_grid r v -> unrank r (rank r v) = v.
Proof.
  intros (Hx & Hy & Hz) (Bx & By & Bz). destruct v as [x y z]. unfold unrank, rank; cbn in *.
  by rewrite !div_digit, !mod_digit by done.
Qed.

(** The two halves of the walk: the offset in the cluster and the cluster. *)
Definition walk_intra (c : vec3) (i : Z) : vec3 := unrank c (i mod volume c).
Definition walk_origin (c n : vec3) (i : Z) : vec3 :=
  vec3_map2 Z.mul c (unrank n (i / volume c)).
Definition walk_block (c n : vec3) (i : Z) : vec3 :=
  vec3_map2 Z.add (walk_origin c n i) (walk_intra c i).

(** A launchable descriptor: the runtime only submits grids whose every
    dimension is a multiple of the cluster dimension. *)
Definition launchable (k : Kmu) (n : vec3) : Prop :=
  0 < block_size_ k /\ pos3 (cluster_dim_ k) /\ pos3 n /\
  grid_dim_ k = vec3_map2 Z.mul (cluster_dim_ k) n /\
  in_u 32 (vx (grid_dim_ k)) /\ in_u 32 (vy (grid_dim_ k)) /\ in_u 32 (vz (grid_dim_ k)).

(** The counters after [i] steps. *)
Definition kmu_at (k : Kmu) (n : vec3) (i : Z) : Kmu :=
  k <| running_ := true |> <| cta_id_ := u32 i |>
    <| group_origin_ := walk_origin (cluster_dim_ k) n i |>
    <| intra_offset_ := walk_intra (cluster_dim_ k) i |>.

Definition total_ctas (k : Kmu) (n : vec3) : Z := volume (cluster_dim_ k) * volume n.

Lemma volume_pos r : pos3 r -> 0 < volume r.
Proof. intros (?&?&?). unfold volume. nia. Qed.

(** Successor with carry in a box. *)
Definition succ3 (r v : vec3) : vec3 * bool :=
  if vx v + 1 =? vx r then
    if vy v + 1 =? vy r then
      if vz v + 1 =? vz r then (zero3, true) else (Vec3 0 0 (vz v + 1), false)
    else (Vec3 0 (vy v + 1) (vz v), false)
  else (Vec3 (vx v + 1) (vy v) (vz v), false).

Lemma rank_last r v : pos3 r -> in_grid r v ->
  rank r v + 1 = volume r <-> vx v + 1 = vx r /\ vy v + 1 = vy r /\ vz v + 1 = vz r.
Proof.
  intros (Hx & Hy & Hz) (Bx & By & Bz). unfold rank, volume. rewrite <- Z.mul_assoc.
  rewrite last_digit by auto using digit_range. by rewrite last_digit.
Qed.

Lemma succ3_unrank r i : pos3 r -> 0 <= i < volume r ->
  succ3 r (unrank r i) = if i + 1 =? volume r then (zero3, true) else (unrank r (i + 1), false).
Proof.
  intros Hr Hi. pose proof Hr as (Hx & Hy & Hz).
  pose proof (rank_last r _ Hr (unrank_range r i Hr Hi)) as HL.
  rewrite rank_unrank in HL by done. unfold succ3; cbn in *.
  assert (HE : (i + 1 =? volume r) = (i mod vx r + 1 =? vx r) &&
    ((i / vx r mod vy r + 1 =? vy r) && (i / vx r / vy r + 1 =? vz r))).
  { apply eq_true_iff_eq. by rewrite !andb_true_iff, !Z.eqb_eq. }
  rewrite HE. unfold unrank.
  destruct (Z.eqb_spec (i mod vx r + 1) (vx r)) as [Ex|Ex]; cbn.
  - destruct (succ_mod_wrap i (vx r) Hx Ex) as [-> ->].
    destruct (Z.eqb_spec (i / vx r mod vy r + 1) (vy r)) as [Ey|Ey]; cbn.
    + destruct (succ_mod_wrap (i / vx r) (vy r) Hy Ey) as [-> ->]. by case_if.
    + by destruct (succ_mod_next (i / vx r) (vy r) Hy Ey) as [-> ->].
  - by destruct (succ_mod_next i (vx r) Hx Ex) as [-> ->].
Qed.

Lemma walk_intra_range c i : pos3 c -> in_grid c (walk_intra c i).
Proof.
  intros Hc. apply unrank_range; [done|]. by apply Z.mod_pos_bound, volume_pos.
Qed.

Lemma kmu_advance_intra k : in_u 32 (vx (cluster_dim_ k)) -> in_u 32 (vy (cluster_dim_ k)) ->
  in_u 32 (vz (cluster_dim_ k)) -> in_grid (cluster_dim_ k) (intra_offset_ k) ->
  kmu_advance k =
    let '(v, carry) := succ3 (cluster_dim_ k) (intra_offset_ k) in
    let k' := k <| cta_id_ ::= fun n => u32 (n + 1) |> <| intra_offset_ := v |> in
    if carry then kmu_next_origin k' else k'.
Proof.
  intros Cx Cy Cz (Bx & By & Bz). destruct k as [? ? ? ? ? ? ? ? [cx cy cz] ? ? ? [x y z]].
  unfold kmu_advance, succ3, in_u in *; rsimp.
  rewrite (wrap_small 32 (x + 1)), (wrap_small 32 (y + 1)), (wrap_small 32 (z + 1))
    by (unfold in_u; lia).
  destruct (x + 1 =? cx); [|done]. destruct (y + 1 =? cy); [|done].
  by destruct (z + 1 =? cz).
Qed.

Lemma kmu_next_origin_spec k n u : launchable k n ->
  in_grid n u -> group_origin_ k = vec3_map2 Z.mul (cluster_dim_ k) u ->
  kmu_next_origin k =
    let '(v, carry) := succ3 n u in
    let k' := k <| group_origin_ := vec3_map2 Z.mul (cluster_dim_ k) v |> in
    if carry then k' <| running_ := false |> else k'.
Proof.
  intros (_ & (Cx & Cy & Cz) & _ & Hg & Gx & Gy & Gz) (Bx & By & Bz) Ho.
  rewrite Hg in Gx, Gy, Gz. cbn in Gx, Gy, Gz. unfold kmu_next_origin.
  destruct k as [? ? ? ? ? ? ? ? [cx cy cz] ? ? ? ?]. cbn in *. subst.
  destruct n as [nx ny nz]; destruct u as [ux uy uz]. unfold in_u, succ3 in *; rsimp.
  assert (E : forall c w m, 0 < c -> 0 <= w < m -> 0 <= c * m < 2 ^ 32 ->
    u32 (c * w + c) = c * (w + 1)).
  { intros. rewrite wrap_small; [lia|]. unfold in_u. nia. }
  assert (Q : forall c w m, 0 < c -> (c * w =? c * m) = (w =? m)).
  { intros. destruct (Z.eqb_spec w m); [subst; apply Z.eqb_refl|]. apply Z.eqb_neq. nia. }
  rewrite (E cx ux nx), (E cy uy ny), (E cz uz nz), !Q by lia.
  unfold zero3. destruct (ux + 1 =? nx); [|done].
  destruct (uy + 1 =? ny); [destruct (uz + 1 =? nz)|];
    unfold vec3_map2; cbn; by rewrite ?Z.mul_0_r.
Qed.

Lemma launchable_dims k n : launchable k n ->
  in_u 32 (vx (cluster_dim_ k)) /\ in_u 32 (vy (cluster_dim_ k)) /\ in_u 32 (vz (cluster_dim_ k)).
Proof.
  intros (_ & (Cx & Cy & Cz) & (Nx & Ny & Nz) & Hg & Gx & Gy & Gz).
  rewrite Hg in Gx, Gy, Gz. unfold in_u in *; cbn in *. nia.
Qed.

(** One step of the odometer is one step of the linear index. *)
Lemma kmu_advance_at k n i : launchable k n -> 0 <= i < total_ctas k n ->
  kmu_advance (kmu_at k n i) =
    if i + 1 =? total_ctas k n
    then (kmu_at k n (i + 1)) <| running_ := false |> <| group_origin_ := zero3 |>
    else kmu_at k n (i + 1).
Proof.
  intros HL Hi. destruct (launchable_dims _ _ HL) as (Dx & Dy & Dz).
  pose proof HL as (_ & HC & HN & _). pose proof (volume_pos _ HC) as HV.
  unfold total_ctas in *. set (V := volume (cluster_dim_ k)) in *.
  assert (HO : 0 <= i / V < volume n) by (by apply div_range).
  rewrite kmu_advance_intra by (try done; by apply walk_intra_range).
  cbn [kmu_at]. unfold kmu_at at 1 2. rsimp.
  unfold walk_intra at 1. fold V. rewrite succ3_unrank by (done || by apply Z.mod_pos_bound).
  fold V. destruct (Z.eqb_spec (i mod V + 1) V) as [EI|EI].
  - destruct (succ_mod_wrap i V HV EI) as [Mi Di].
    rewrite (kmu_next_origin_spec _ n (unrank n (i / V))); [|done|by apply unrank_range|done].
    rewrite succ3_unrank by done.
    assert (HE : (i + 1 =? V * volume n) = (i / V + 1 =? volume n)).
    { pose proof (Z.div_mod i V ltac:(lia)). apply eq_true_iff_eq. rewrite !Z.eqb_eq. nia. }
    rewrite HE. unfold kmu_at, walk_origin, walk_intra. fold V. rewrite Mi, Di.
    destruct (i / V + 1 =? volume n); rsimp; rewrite wrap_add_l; unfold zero3, vec3_map2; cbn; rewrite ?Z.mul_0_r;
      unfold unrank; rewrite ?Z.mod_0_l, ?Z.div_0_l, ?Z.mod_0_l, ?Z.div_0_l by (unfold pos3 in *; lia);
      reflexivity.
  - destruct (succ_mod_next i V HV EI) as [Mi Di].
    assert (HE : (i + 1 =? V * volume n) = false).
    { pose proof (Z.div_mod i V ltac:(lia)). pose proof (Z.mod_pos_bound i V HV).
      apply Z.eqb_neq. nia. }
    rewrite HE. unfold kmu_at, walk_origin, walk_intra. fold V. rewrite Mi, Di. rsimp.
    by rewrite wrap_add_l.
Qed.

Lemma kmu_start_at k n : launchable k n -> kmu_start k = kmu_at k n 0.
Proof.
  intros (Hb & (Cx & Cy & Cz) & (Nx & Ny & Nz) & Hg & _).
  unfold kmu_start. rewrite Hg. cbn [vx vy vz vec3_map2].
  assert (G : forall z, 0 < z -> (z >? 0) = true) by (intros; apply Z.gtb_lt; lia).
  rewrite !G by nia. unfold kmu_at, walk_origin, walk_intra, zero3, vec3_map2. rsimp.
  assert (V : 0 < volume (cluster_dim_ k)) by by apply volume_pos.
  rewrite Z.mod_0_l, !Z.div_0_l, !Z.mod_0_l, !Z.mul_0_r by lia. done.
Qed.

Lemma kmu_req_at k n i : launchable k n -> 0 <= i < total_ctas k n ->
  req_block_idx (kmu_req (kmu_at k n i)) = walk_block (cluster_dim_ k) n i /\
  in_grid (grid_dim_ k) (walk_block (cluster_dim_ k) n i).
Proof.
  intros (_ & HC & HN & Hg & Gx & Gy & Gz) Hi. rewrite Hg in *.
  pose proof (walk_intra_range _ i HC) as (Ix & Iy & Iz).
  assert (HO : in_grid n (unrank n (i / volume (cluster_dim_ k)))).
  { apply unrank_range; [done|]. apply div_range; [by apply volume_pos|done]. }
  destruct HO as (Ox & Oy & Oz).
  unfold kmu_req, walk_block, walk_origin. cbn -[unrank walk_intra]. unfold in_grid.
  unfold const, walk_origin, vec3_map2, in_u in *; cbn [vx vy vz] in *.
  assert (D : forall q d c m, 0 <= d < c -> 0 <= q < m -> 0 <= c * q + d < c * m) by nia.
  pose proof (D _ _ _ _ Ix Ox). pose proof (D _ _ _ _ Iy Oy). pose proof (D _ _ _ _ Iz Oz).
  rewrite !wrap_small by (unfold in_u; lia). done.
Qed.

(** The requests issued from index [i] on. *)
Lemma kmu_run_at k n : launchable k n -> forall m i fuel,
  Z.of_nat m = total_ctas k n - i -> 0 <= i -> (m <= fuel)%nat -> (0 < m)%nat ->
  (kmu_run fuel (kmu_at k n i)).1 = map (fun j => kmu_req (kmu_at k n j)) (seqZ i (Z.of_nat m))
  /\ running_ (kmu_run fuel (kmu_at k n i)).2 = false.
Proof.
  intros HL. induction m as [|m IH]; intros i fuel Hm Hi Hf H0; [lia|].
  destruct fuel as [|fuel]; [lia|].
  cbn [kmu_run]. unfold kmu_step. cbn [kmu_at running_ set const].
  change (running_ (kmu_at k n i)) with true. cbn iota.
  rewrite kmu_advance_at by (done || lia).
  rewrite (seqZ_cons i (Z.of_nat (S m))) by lia.
  replace (Z.pred (Z.of_nat (S m))) with (Z.of_nat m) by lia.
  replace (Z.succ i) with (i + 1) by lia. cbn [map].
  destruct (Z.eqb_spec (i + 1) (total_ctas k n)) as [E|E].
  - assert (m = 0%nat) as -> by lia. destruct fuel; done.
  - destruct (IH (i + 1) fuel ltac:(lia) ltac:(lia) ltac:(lia) ltac:(lia)) as [H1 H2].
    destruct (kmu_run fuel (kmu_at k n (i + 1))) as [rs k'']. cbn in *. by rewrite H1.
Qed.

(** Inverse of [walk_block]. *)
Definition walk_index (c n b : vec3) : Z :=
  rank c (vec3_map2 Z.modulo b c) + volume c * rank n (vec3_map2 Z.div b c).

Lemma walk_index_block c n i : pos3 c -> pos3 n ->
  walk_index c n (walk_block c n i) = i.
Proof.
  intros HC HN. pose proof (walk_intra_range c i HC) as HI. pose proof HI as (Ix & Iy & Iz).
  pose proof HC as (Cx & Cy & Cz).
  unfold walk_index, walk_block, walk_origin.
  assert (E1 : vec3_map2 Z.modulo (vec3_map2 Z.add (vec3_map2 Z.mul c (unrank n (i / volume c)))
    (walk_intra c i)) c = walk_intra c i).
  { destruct (walk_intra c i) as [x y z] eqn:E. unfold vec3_map2; cbn [vx vy vz] in *.
    rewrite !(Z.add_comm (_ * _)), !mod_digit; done. }
  assert (E2 : vec3_map2 Z.div (vec3_map2 Z.add (vec3_map2 Z.mul c (unrank n (i / volume c)))
    (walk_intra c i)) c = unrank n (i / volume c)).
  { destruct (walk_intra c i) as [x y z] eqn:E. destruct (unrank n (i / volume c)).
    unfold vec3_map2; cbn [vx vy vz] in *.
    rewrite !(Z.add_comm (_ * _)), !div_digit; done. }
  rewrite E1, E2. unfold walk_intra. rewrite !rank_unrank by done.
  rewrite (Z.div_mod i (volume c)) at 3; [lia|]. pose proof (volume_pos c HC). lia.
Qed.

Lemma walk_block_index c n b : pos3 c -> pos3 n -> in_grid (vec3_map2 Z.mul c n) b ->
  0 <= walk_index c n b < volume c * volume n /\ walk_block c n (walk_index c n b) = b.
Proof.
  intros HC HN (Bx & By & Bz). cbn in Bx, By, Bz. pose proof HC as (Cx & Cy & Cz).
  assert (R1 : in_grid c (vec3_map2 Z.modulo b c)).
  { unfold in_grid; cbn. auto using Z.mod_pos_bound. }
  assert (R2 : in_grid n (vec3_map2 Z.div b c)).
  { unfold in_grid; cbn. auto using div_range. }
  pose proof (rank_range _ _ HC R1) as L1. pose proof (rank_range _ _ HN R2) as L2.
  unfold walk_index. split; [by apply digit_range|].
  unfold walk_block, walk_origin, walk_intra.
  rewrite mod_digit, div_digit by (done || by apply volume_pos).
  rewrite !unrank_rank by done. destruct b as [x y z]. unfold vec3_map2; cbn.
  by rewrite <- !Z.div_mod by lia.
Qed.

Lemma walk_intra_zero c i : pos3 c ->
  ((vx (walk_intra c i) =? 0) && (vy (walk_intra c i) =? 0) && (vz (walk_intra c i) =? 0))
  = (i mod volume c =? 0).
Proof.
  intros HC. pose proof HC as (Cx & Cy & Cz). pose proof (volume_pos c HC) as HV.
  pose proof (rank_unrank c (i mod volume c) HC) as HR.
  pose proof (walk_intra_range c i HC) as (Ix & Iy & Iz).
  unfold walk_intra in *. set (u := unrank c (i mod volume c)) in *. unfold rank in HR.
  apply eq_true_iff_eq. rewrite !andb_true_iff, !Z.eqb_eq. rewrite <- HR. nia.
Qed.

Lemma kmu_run_start k n fuel : launchable k n -> total_ctas k n <= Z.of_nat fuel ->
  (kmu_run fuel (kmu_start k)).1 =
    map (fun j => kmu_req (kmu_at k n j)) (seqZ 0 (total_ctas k n))
  /\ running_ (kmu_run fuel (kmu_start k)).2 = false.
Proof.
  intros HL Hf. pose proof HL as (_ & HC & HN & _).
  assert (0 < total_ctas k n).
  { pose proof (volume_pos _ HC). pose proof (volume_pos _ HN). unfold total_ctas. nia. }
  rewrite (kmu_start_at k n HL).
  pose proof (kmu_run_at k n HL (Z.to_nat (total_ctas k n)) 0 fuel) as HR.
  rewrite Z2Nat.id in HR by lia. apply HR; lia.
Qed.

(** C20 (functional): a launched kernel whose grid is a multiple of its cluster
    dimensions is walked completely: after [volume grid] calls of [step] the
    unit has stopped, every block of the grid has been issued, none twice and
    none outside the grid. *)
Theorem kmu_visits_every_block_once k n fuel :
  launchable k n -> volume (grid_dim_ k) <= Z.of_nat fuel ->
  let '(reqs, k') := kmu_run fuel (kmu_start k) in
  running_ k' = false /\
  Z.of_nat (length reqs) = volume (grid_dim_ k) /\
  NoDup (map req_block_idx reqs) /\
  (forall b, b ∈ map req_block_idx reqs <-> in_grid (grid_dim_ k) b).
Proof.
  intros HL Hf. pose proof HL as (_ & HC & HN & Hg & _).
  assert (HT : volume (grid_dim_ k) = total_ctas k n).
  { rewrite Hg. unfold total_ctas, volume; cbn. ring. }
  rewrite HT in *. destruct (kmu_run_start k n fuel HL Hf) as [H1 H2].
  destruct (kmu_run fuel (kmu_start k)) as [reqs k']; cbn [fst snd] in *. subst reqs.
  assert (HM : map req_block_idx (map (fun j => kmu_req (kmu_at k n j)) (seqZ 0 (total_ctas k n)))
    = map (walk_block (cluster_dim_ k) n) (seqZ 0 (total_ctas k n))).
  { rewrite map_map. apply map_ext_in. intros j Hj.
    apply list_elem_of_In, elem_of_seqZ in Hj. apply kmu_req_at; [done|lia]. }
  split; [done|]. rewrite HM. split_and!.
  - rewrite length_map, length_seqZ. pose proof (volume_pos _ HC). pose proof (volume_pos _ HN).
    unfold total_ctas. nia.
  - apply NoDup_fmap_2_strong; [|apply NoDup_seqZ]. intros i j _ _ E.
    by rewrite <- (walk_index_block (cluster_dim_ k) n i), E, walk_index_block.
  - intros b. change (map ?f ?l) with (f <$> l). rewrite list_elem_of_fmap. split.
    + intros (i & -> & Hi). apply elem_of_seqZ in Hi. apply kmu_req_at; [done|lia].
    + rewrite Hg. intros Hb. destruct (walk_block_index _ _ _ HC HN Hb) as [HR E].
      exists (walk_index (cluster_dim_ k) n b). split; [done|].
      apply elem_of_seqZ. unfold total_ctas. lia.
Qed.

(** CTAs of one cluster are issued back to back: the [i]-th
    request carries [is_first_of_cluster] exactly when [i] is a multiple of the
    cluster volume, and the cluster it belongs to depends only on the quotient. *)
Theorem kmu_clusters_contiguous k n fuel i r :
  launchable k n -> volume (grid_dim_ k) <= Z.of_nat fuel ->
  (kmu_run fuel (kmu_start k)).1 !! i = Some r ->
  let K := volume (cluster_dim_ k) in
  req_is_first_of_cluster r = (Z.of_nat i mod K =? 0) /\
  vec3_map2 Z.div (req_block_idx r) (cluster_dim_ k) = unrank n (Z.of_nat i / K).
Proof.
  intros HL Hf Hr. pose proof HL as (_ & HC & HN & Hg & _).
  assert (HT : volume (grid_dim_ k) = total_ctas k n).
  { rewrite Hg. unfold total_ctas, volume; cbn. ring. }
  rewrite HT in *. destruct (kmu_run_start k n fuel HL Hf) as [H1 _]. rewrite H1 in Hr.
  change (map ?f ?l) with (f <$> l) in Hr.
  apply list_lookup_fmap_Some in Hr as (j & -> & Hj).
  apply lookup_seqZ in Hj as [-> Hlt]. rewrite Z.add_0_l.
  cbn zeta. split.
  - apply (walk_intra_zero (cluster_dim_ k) (Z.of_nat i) HC).
  - rewrite (proj1 (kmu_req_at k n (Z.of_nat i) HL ltac:(lia))).
    pose proof (walk_intra_range _ (Z.of_nat i) HC) as (Ix & Iy & Iz).
    pose proof HC as (Cx & Cy & Cz). unfold walk_block, walk_origin.
    destruct (unrank n _) as [a b c]. destruct (walk_intra _ _) as [x y z].
    unfold vec3_map2; cbn [vx vy vz] in *.
    rewrite !(Z.add_comm (_ * _)), !div_digit; done.
Qed.

(** A 4x2x1 grid of 2x1x1 clusters. *)
Definition kmu_sample : Kmu :=
  Kmu_init <| block_size_ := 8 |> <| grid_dim_ := Vec3 4 2 1 |> <| cluster_dim_ := Vec3 2 1 1 |>.

Lemma kmu_sample_launchable : launchable kmu_sample (Vec3 2 2 1).
Proof. unfold launchable, pos3, in_u; cbn. repeat split; lia. Qed.

Lemma kmu_visits_every_block_once_witness :
  launchable kmu_sample (Vec3 2 2 1) /\
  map req_block_idx (kmu_run 8 (kmu_start kmu_sample)).1 =
    [Vec3 0 0 0; Vec3 1 0 0; Vec3 2 0 0; Vec3 3 0 0; Vec3 0 1 0; Vec3 1 1 0; Vec3 2 1 0; Vec3 3 1 0] /\
  let '(reqs, k') := kmu_run 8 (kmu_start kmu_sample) in
  running_ k' = false /\
  Z.of_nat (length reqs) = volume (grid_dim_ kmu_sample) /\
  NoDup (map req_block_idx reqs) /\
  (forall b, b ∈ map req_block_idx reqs <-> in_grid (grid_dim_ kmu_sample) b).
Proof.
  split; [exact kmu_sample_launchable|]. split; [vm_compute; reflexivity|].
  apply (kmu_visits_every_block_once kmu_sample (Vec3 2 2 1) 8);
    [exact kmu_sample_launchable|vm_compute; discriminate].
Defined.

Lemma kmu_clusters_contiguous_witness :
  exists r, (kmu_run 8 (kmu_start kmu_sample)).1 !! 3%nat = Some r /\
  req_is_first_of_cluster r = false /\
  (req_is_first_of_cluster r = (Z.of_nat 3 mod volume (cluster_dim_ kmu_sample) =? 0) /\
   vec3_map2 Z.div (req_block_idx r) (cluster_dim_ kmu_sample) =
     unrank (Vec3 2 2 1) (Z.of_nat 3 / volume (cluster_dim_ kmu_sample))).
Proof.
  eexists. split; [vm_compute; reflexivity|]. split; [reflexivity|].
  apply (kmu_clusters_contiguous kmu_sample (Vec3 2 2 1) 8 3);
    [exact kmu_sample_launchable|vm_compute; discriminate|vm_compute; reflexivity].
Defined.

(** ** Programming the descriptor *)

(** The register values a launch writes for a descriptor [d]. *)
Definition kmu_program (d : Kmu) : list (Z * Z) := [
  (VX_DCR_KMU_STARTUP_ADDR0, lo32 (PC_ d)); (VX_DCR_KMU_STARTUP_ADDR1, hi32 (PC_ d));
  (VX_DCR_KMU_KERNEL_ENTRY0, lo32 (entry_ d)); (VX_DCR_KMU_KERNEL_ENTRY1, hi32 (entry_ d));
  (VX_DCR_KMU_STARTUP_ARG0, lo32 (param_ d)); (VX_DCR_KMU_STARTUP_ARG1, hi32 (param_ d));
  (VX_DCR_KMU_BLOCK_DIM_X, vx (block_dim_ d)); (VX_DCR_KMU_BLOCK_DIM_Y, vy (block_dim_ d));
  (VX_DCR_KMU_BLOCK_DIM_Z, vz (block_dim_ d));
  (VX_DCR_KMU_GRID_DIM_X, vx (grid_dim_ d)); (VX_DCR_KMU_GRID_DIM_Y, vy (grid_dim_ d));
  (VX_DCR_KMU_GRID_DIM_Z, vz (grid_dim_ d));
  (VX_DCR_KMU_LMEM_SIZE, lmem_size_ d); (VX_DCR_KMU_BLOCK_SIZE, block_size_ d);
  (VX_DCR_KMU_WARP_STEP_X, vx (warp_step_ d)); (VX_DCR_KMU_WARP_STEP_Y, vy (warp_step_ d));
  (VX_DCR_KMU_WARP_STEP_Z, vz (warp_step_ d));
  (VX_DCR_KMU_CLUSTER_DIM_X, vx (cluster_dim_ d)); (VX_DCR_KMU_CLUSTER_DIM_Y, vy (cluster_dim_ d));
  (VX_DCR_KMU_CLUSTER_DIM_Z, vz (cluster_dim_ d))].

Definition kmu_dcr_writes (k : Kmu) (ws : list (Z * Z)) : Kmu :=
  fold_left (fun k w => kmu_dcr_write k w.1 w.2) ws k.

Lemma kmu_dcr_write_outside k addr value :
  addr < VX_DCR_KMU_STATE_BEGIN \/ VX_DCR_KMU_STATE_END <= addr ->
  kmu_dcr_write k addr value = k.
Proof.
  intros H. unfold kmu_dcr_write, VX_DCR_KMU_STATE_BEGIN, VX_DCR_KMU_STATE_END in *.
  repeat match goal with
  | |- context [addr =? ?c] =>
      let E := fresh in destruct (Z.eqb_spec addr c) as [E|E]; [exfalso; unfold c in E; lia|clear E]
  end. done.
Qed.

(** Writing a descriptor register by register, from any prior
    state, installs exactly that descriptor (both halves of the 64-bit words
    included) and leaves the progression counters alone; a following [reset]
    clears the counters and keeps the descriptor. *)
Theorem kmu_program_roundtrip k d :
  in_u 64 (PC_ d) -> in_u 64 (entry_ d) -> in_u 64 (param_ d) ->
  kmu_dcr_writes k (kmu_program d) =
    d <| running_ := running_ k |> <| cta_id_ := cta_id_ k |>
      <| group_origin_ := group_origin_ k |> <| intra_offset_ := intra_offset_ k |>
  /\ kmu_on_reset (kmu_dcr_writes k (kmu_program d)) = kmu_on_reset d.
Proof.
  intros HP HE HA.
  assert (E : kmu_dcr_writes k (kmu_program d) =
    d <| running_ := running_ k |> <| cta_id_ := cta_id_ k |>
      <| group_origin_ := group_origin_ k |> <| intra_offset_ := intra_offset_ k |>).
  { destruct d as [P E A [bx by' bz] [gx gy gz] l bs [wx wy wz] [cx cy cz] ? ? ? ?].
    destruct k as [? ? ? [? ? ?] [? ? ?] ? ? [? ? ?] [? ? ?] ? ? ? ?]. cbn in HP, HE, HA.
    cbv -[set_lo32 set_hi32 lo32 hi32].
    by rewrite !set_halves_id. }
  split; [done|]. rewrite E. destruct d. reflexivity.
Qed.

Lemma kmu_program_roundtrip_witness :
  let d := kmu_sample <| PC_ := 0x180000000 |> in
  kmu_dcr_writes Kmu_init (kmu_program d) = d /\
  kmu_on_reset (kmu_dcr_writes Kmu_init (kmu_program d)) = kmu_on_reset d.
Proof.
  cbn zeta.
  destruct (kmu_program_roundtrip Kmu_init (kmu_sample <| PC_ := 0x180000000 |>)) as [H1 H2];
    [unfold in_u; rsimp; lia .. |].
  split; [rewrite H1; reflexivity|exact H2].
Defined.
