(* ===== verification/CtaDispatcher.v ===== *)
(** * CTA dispatcher

    [sim/simx/cta_dispatcher.{h,cpp}] and the launch geometry of
    [sw/runtime/common/utils.cpp]: the per-core unit that takes CTAs from the
    kernel management unit, gives each an LMEM slot, and hands out one warp per
    call.  The KMU is seen through the class [CtaSource].  The theorems show
    the slot accounting exact over every interleaving of dispatches and warp
    exits, the LMEM regions inside the capacity, and the incremental thread
    index equal to the division of the linear thread number. *)

From S2P Require Import Prelude Kmu.

(** What the dispatcher relies on in the unit that hands out CTAs: a call
    returns a request of a non-empty block, or nothing. *)
Class CtaSource (K : Type) := {
  src_next : K -> option (kmu_req_t * K);
  src_running : K -> bool;
  src_ok : K -> Prop;
  src_next_ok k r k' : src_ok k -> src_next k = Some (r, k') ->
    src_ok k' /\ 0 < req_block_size r < 2 ^ 31
}.

(** [struct cta_warp_record_t] *)
Record cta_warp_record_t := {
  rec_do_init : bool;
  rec_PC : Z;
  rec_entry : Z;
  rec_tmask : list bool;
  rec_mscratch : Z;
  rec_cta_id : Z;
  rec_cta_rank : Z;
  rec_cta_size : Z;
  rec_thread_idx : vec3;
  rec_block_idx : vec3;
  rec_block_dim : vec3;
  rec_grid_dim : vec3;
  rec_param : Z;
  rec_lmem_addr : Z;
  rec_cluster_size : Z
}.

(** [class CtaDispatcher]; the [core_] and [kmu_] pointers are arguments of the
    operations that use them. *)
Record CtaDispatcher := {
  num_threads_ : Z;
  num_warps_ : Z;
  lmem_base_ : Z;
  lmem_capacity_ : Z;
  slot_rem_warps_ : list Z;
  wid_to_slot_ : list Z;
  tail_slot_ : Z;
  has_cta_ : bool;
  cur_slot_ : Z;
  cta_ : kmu_req_t;
  cta_size_ : Z;
  rank_ : Z;
  block_size_rem_ : Z;
  thread_idx_ : vec3;
  lmem_addr_ : Z;
  has_pending_ : bool;
  pending_cta_ : kmu_req_t;
  cur_kernel_pc_ : Z;
  warp_init_mask_ : list bool
}.

(** ** Host side: the launch geometry *)

(** [prepare_kernel_launch_params]: effective block, block size, warp step. *)
Definition prepare_kernel_launch_params (threads_per_warp num_warps : Z) (ndim : nat)
    (block_dim : option vec3) : vec3 * Z * vec3 :=
  let auto_block_dim := Vec3 threads_per_warp num_warps 1 in
  let src := default auto_block_dim block_dim in
  let eff := Vec3 (if (0 <? ndim)%nat then vx src else 1)
                  (if (1 <? ndim)%nat then vy src else 1)
                  (if (2 <? ndim)%nat then vz src else 1) in
  let block_size := fold_left (fun acc d => u32 (acc * d)) (take ndim [vx eff; vy eff; vz eff]) 1 in
  (eff, block_size,
   Vec3 (threads_per_warp mod vx eff)
        (threads_per_warp / vx eff mod vy eff)
        (threads_per_warp / u32 (vx eff * vy eff) mod vz eff)).

Section Dispatcher.
Context (XLEN : Z) (MEM_BLOCK_SIZE : Z).
Context {K : Type} `{!CtaSource K}.

(** A request record nobody has filled yet. *)
Definition no_req : kmu_req_t := {|
  req_PC := 0; req_entry := 0; req_param := 0; req_cta_id := 0;
  req_block_idx := zero3; req_block_dim := zero3; req_grid_dim := zero3;
  req_lmem_size := 0; req_block_size := 0; req_warp_step := zero3;
  req_cluster_dim := zero3; req_is_first_of_cluster := false |}.

Definition CtaDispatcher_init (num_threads num_warps lmem_base lmem_log_size : Z) : CtaDispatcher := {|
  num_threads_ := num_threads; num_warps_ := num_warps;
  lmem_base_ := lmem_base; lmem_capacity_ := u32 (Z.shiftl 1 lmem_log_size);
  slot_rem_warps_ := replicate (Z.to_nat num_warps) 0;
  wid_to_slot_ := replicate (Z.to_nat num_warps) num_warps;
  tail_slot_ := 0; has_cta_ := false; cur_slot_ := 0; cta_ := no_req;
  cta_size_ := 0; rank_ := 0; block_size_rem_ := 0; thread_idx_ := zero3; lmem_addr_ := 0;
  has_pending_ := false; pending_cta_ := no_req; cur_kernel_pc_ := 0;
  warp_init_mask_ := replicate (Z.to_nat num_warps) false |}.

Definition cd_on_reset (d : CtaDispatcher) : CtaDispatcher :=
  d <| has_cta_ := false |> <| has_pending_ := false |> <| tail_slot_ := 0 |>
    <| slot_rem_warps_ := replicate (Z.to_nat (num_warps_ d)) 0 |>
    <| wid_to_slot_ := replicate (Z.to_nat (num_warps_ d)) (num_warps_ d) |>
    <| warp_init_mask_ := replicate (Z.to_nat (num_warps_ d)) false |>
    <| cur_kernel_pc_ := 0 |>.

Definition usable_slots (d : CtaDispatcher) (stride : Z) : Z :=
  if stride =? 0 then num_warps_ d
  else
    let fit := lmem_capacity_ d / stride in
    let fit := if fit >? num_warps_ d then num_warps_ d else fit in
    if fit =? 0 then 1 else fit.

(** LMEM pitch of a request: its size rounded up to a memory block. *)
Definition cta_stride (r : kmu_req_t) : Z :=
  Z.land (u32 (req_lmem_size r + MEM_BLOCK_SIZE - 1)) (u32 (Z.lnot (MEM_BLOCK_SIZE - 1))).

(** [slot_rem_warps_[i] == 0]; the vector has one entry per warp. *)
Definition slot_free (d : CtaDispatcher) (i : Z) : bool :=
  match slot_rem_warps_ d !! Z.to_nat i with Some n => n =? 0 | None => false end.

(** The window of slots a request needs: first slot and number of slots. *)
Definition slot_window (base max_slots : Z) (r : kmu_req_t) : Z * Z :=
  if req_is_first_of_cluster r then
    let k := u32 (u32 (vx (req_cluster_dim r) * vy (req_cluster_dim r)) * vz (req_cluster_dim r)) in
    let k := if k =? 0 then 1 else k in
    let base := if u32 (base + k) >? max_slots then 0 else base in
    let k := if k >? max_slots then max_slots else k in
    (base, k)
  else (base, 1).

(** Accept the pending CTA into slot [base]; a change of kernel PC resets the
    warp initialization states first. *)
Definition cd_accept (d : CtaDispatcher) (base stride max_slots : Z) : CtaDispatcher :=
  let r := pending_cta_ d in
  let same_kernel := req_PC r =? cur_kernel_pc_ d in
  let size := u32 (req_block_size r + num_threads_ d - 1) / num_threads_ d in
  {| num_threads_ := num_threads_ d; num_warps_ := num_warps_ d;
     lmem_base_ := lmem_base_ d; lmem_capacity_ := lmem_capacity_ d;
     slot_rem_warps_ := <[Z.to_nat base := size]> (slot_rem_warps_ d);
     wid_to_slot_ := wid_to_slot_ d;
     tail_slot_ := u32 (base + 1) mod max_slots;
     has_cta_ := true; cur_slot_ := base; cta_ := r;
     cta_size_ := size; rank_ := 0; block_size_rem_ := req_block_size r;
     thread_idx_ := zero3; lmem_addr_ := u64 (lmem_base_ d + base * stride);
     has_pending_ := false; pending_cta_ := r;
     cur_kernel_pc_ := if same_kernel then cur_kernel_pc_ d else wrap XLEN (req_PC r);
     warp_init_mask_ :=
       if same_kernel then warp_init_mask_ d
       else replicate (Z.to_nat (num_warps_ d)) false |}.

(** Slot admission of the pending CTA: [true] when it was accepted. *)
Definition cd_admit (d : CtaDispatcher) : CtaDispatcher * bool :=
  let stride := cta_stride (pending_cta_ d) in
  let max_slots := usable_slots d stride in
  let d := if tail_slot_ d >=? max_slots then d <| tail_slot_ := 0 |> else d in
  let '(base, k) := slot_window (tail_slot_ d) max_slots (pending_cta_ d) in
  if forallb (slot_free d) (seqZ base k) then (cd_accept d base stride max_slots, true)
  else (d, false).

(** [next_warp]: the record of the current rank, and the advanced state. *)
Definition next_warp (d : CtaDispatcher) (do_init : bool) : option (cta_warp_record_t * CtaDispatcher) :=
  if negb (has_cta_ d) then None
  else
    let r := cta_ d in let t := thread_idx_ d in
    let active := if block_size_rem_ d >=? num_threads_ d then num_threads_ d else block_size_rem_ d in
    let rec := {|
      rec_do_init := do_init;
      rec_PC := wrap XLEN (req_PC r); rec_entry := wrap XLEN (req_entry r);
      rec_tmask := map (fun l => l <? active) (seqZ 0 (num_threads_ d));
      rec_mscratch := wrap XLEN (req_param r);
      rec_cta_id := cur_slot_ d; rec_cta_rank := rank_ d; rec_cta_size := cta_size_ d;
      rec_thread_idx := t; rec_block_idx := req_block_idx r;
      rec_block_dim := req_block_dim r; rec_grid_dim := req_grid_dim r;
      rec_param := req_param r; rec_lmem_addr := lmem_addr_ d;
      rec_cluster_size :=
        u32 (u32 (vx (req_cluster_dim r) * vy (req_cluster_dim r)) * vz (req_cluster_dim r)) |} in
    let next_x := u32 (vx t + vx (req_warp_step r)) in
    let wrap_x := next_x >=? vx (req_block_dim r) in
    let next_y := u32 (vy t + vy (req_warp_step r) + b2z wrap_x) in
    let wrap_y := next_y >=? vy (req_block_dim r) in
    let t' := Vec3 (if wrap_x then u32 (next_x - vx (req_block_dim r)) else next_x)
                   (if wrap_y then u32 (next_y - vy (req_block_dim r)) else next_y)
                   (u32 (vz t + vz (req_warp_step r) + b2z wrap_y)) in
    let rk := u32 (rank_ d + 1) in
    Some (rec,
      d <| thread_idx_ := t' |> <| block_size_rem_ := u32 (block_size_rem_ d - active) |>
        <| rank_ := rk |>
        <| has_cta_ := negb (rk >=? cta_size_ d) |>).

(** Lowest-index warp that is not active. *)
Fixpoint first_free (active : list bool) : option nat :=
  match active with
  | [] => None
  | false :: _ => Some 0%nat
  | true :: l => S <$> first_free l
  end.

(** The first half of [step]: make sure a CTA is in flight. *)
Definition cd_fetch (d : CtaDispatcher) (kmu : K) : CtaDispatcher * K * bool :=
  if has_cta_ d then (d, kmu, true)
  else if has_pending_ d then let '(d, ok) := cd_admit d in (d, kmu, ok)
  else match src_next kmu with
  | None => (d, kmu, false)
  | Some (r, kmu) =>
      let '(d, ok) := cd_admit (d <| pending_cta_ := r |> <| has_pending_ := true |>) in
      (d, kmu, ok)
  end.

(** [CtaDispatcher::step]: [None] is the [false] return. *)
Definition cd_step (d : CtaDispatcher) (active_warps : list bool) (kmu : K)
    : CtaDispatcher * K * option (nat * cta_warp_record_t) :=
  let '(d, kmu, ok) := cd_fetch d kmu in
  if negb ok then (d, kmu, None)
  else match first_free active_warps with
  | None => (d, kmu, None)
  | Some wid =>
      match next_warp d (negb (default false (warp_init_mask_ d !! wid))) with
      | None => (d, kmu, None)
      | Some (rec, d) =>
          (d <| warp_init_mask_ ::= fun l => <[wid := true]> l |>
             <| wid_to_slot_ ::= fun l => <[wid := cur_slot_ d]> l |>, kmu, Some (wid, rec))
      end
  end.

(** [CtaDispatcher::warp_done]: [None] is a failed assertion. *)
Definition warp_done (d : CtaDispatcher) (wid : nat) : option CtaDispatcher :=
  let slot := default (num_warps_ d) (wid_to_slot_ d !! wid) in
  if slot >=? num_warps_ d then Some d
  else
    let d := d <| wid_to_slot_ ::= fun l => <[wid := num_warps_ d]> l |> in
    let rem := default 0 (slot_rem_warps_ d !! Z.to_nat slot) in
    if rem >? 0
    then Some (d <| slot_rem_warps_ ::= fun l => <[Z.to_nat slot := u32 (rem - 1)]> l |>)
    else None.

Definition cd_running (d : CtaDispatcher) (kmu : K) : bool :=
  has_cta_ d || has_pending_ d || src_running kmu.

End Dispatcher.

#[export] Program Instance kmu_source : CtaSource Kmu := {
  src_next := kmu_step;
  src_running := running_;
  src_ok k := 0 < block_size_ k < 2 ^ 31
}.
Next Obligation.
  intros k r k' Hok H. unfold kmu_step in H. destruct (running_ k); [|done].
  injection H as <- <-. split; [|exact Hok].
  unfold kmu_advance, kmu_next_origin. rsimp. repeat case_if; exact Hok.
Qed.

(** ** Slot accounting *)

Section Accounting.
Context (XLEN : Z) (MEM_BLOCK_SIZE : Z).
Context {K : Type} `{!CtaSource K}.

(** Warps of the current CTA that are still to be dispatched into slot [s]. *)
Definition undispatched (d : CtaDispatcher) (s : Z) : Z :=
  if has_cta_ d && (cur_slot_ d =? s) then cta_size_ d - rank_ d else 0.

Record cd_inv (d : CtaDispatcher) : Prop := {
  cd_nt : 0 < num_threads_ d < 2 ^ 31;
  cd_nw : 0 < num_warps_ d < 2 ^ 31;
  cd_len_rem : length (slot_rem_warps_ d) = Z.to_nat (num_warps_ d);
  cd_len_wid : length (wid_to_slot_ d) = Z.to_nat (num_warps_ d);
  cd_tail : 0 <= tail_slot_ d;
  cd_cap : 0 <= lmem_capacity_ d;
  cd_cur : has_cta_ d = true ->
    0 <= rank_ d < cta_size_ d /\ cta_size_ d <= 2 ^ 31 /\ 0 <= cur_slot_ d < num_warps_ d;
  cd_lmem : has_cta_ d = true ->
    cur_slot_ d < usable_slots d (cta_stride MEM_BLOCK_SIZE (cta_ d)) /\
    lmem_addr_ d = u64 (lmem_base_ d + cur_slot_ d * cta_stride MEM_BLOCK_SIZE (cta_ d));
  cd_pend : has_pending_ d = true -> 0 < req_block_size (pending_cta_ d) < 2 ^ 31;
  cd_wid : forall w s, wid_to_slot_ d !! w = Some s -> 0 <= s <= num_warps_ d;
  cd_rem : forall s, 0 <= s < num_warps_ d ->
    slot_rem_warps_ d !! Z.to_nat s = Some (countZ s (wid_to_slot_ d) + undispatched d s)
}.

(** Every warp that occupies a slot is active in the scheduler. *)
Definition occupied_active (d : CtaDispatcher) (active : list bool) : Prop :=
  length active = Z.to_nat (num_warps_ d) /\
  forall w s, wid_to_slot_ d !! w = Some s -> s < num_warps_ d -> active !! w = Some true.

Lemma usable_slots_range d stride : 0 < num_warps_ d -> 0 <= lmem_capacity_ d -> 0 <= stride ->
  1 <= usable_slots d stride <= num_warps_ d.
Proof.
  intros Hw Hc Hs. unfold usable_slots. case_if; [lia|].
  assert (0 <= lmem_capacity_ d / stride) by (apply Z.div_pos; lia).
  destruct (Z.gtb_spec (lmem_capacity_ d / stride) (num_warps_ d)); case_if; lia.
Qed.

Lemma cta_stride_range r : in_u 32 (cta_stride MEM_BLOCK_SIZE r).
Proof. unfold cta_stride. apply land_in_u_l; [lia|]. apply wrap_range; lia. Qed.

Lemma slot_window_range base max r : 0 <= base < max ->
  0 <= (slot_window base max r).1 < max /\ 0 < (slot_window base max r).2.
Proof.
  intros H. unfold slot_window. destruct (req_is_first_of_cluster r); [|cbn; lia]. cbn zeta.
  set (k := u32 (u32 _ * _)). assert (0 <= k) by (apply (wrap_range 32); lia). clearbody k; cbn [fst snd].
  destruct (Z.eqb_spec k 0);
    repeat match goal with |- context [?a >? ?b] => destruct (Z.gtb_spec a b) end; cbn; lia.
Qed.

Lemma slot_free_occupied d s : cd_inv d -> 0 <= s < num_warps_ d -> slot_free d s = true ->
  countZ s (wid_to_slot_ d) = 0 /\ undispatched d s = 0.
Proof.
  intros HI Hs. unfold slot_free. rewrite (cd_rem d HI s Hs), Z.eqb_eq.
  pose proof (countZ_bounds s (wid_to_slot_ d)).
  assert (0 <= undispatched d s); [|lia].
  unfold undispatched. destruct (has_cta_ d) eqn:E; cbn; [|lia].
  destruct (cd_cur d HI E). case_if; lia.
Qed.

Lemma first_free_spec active w : first_free active = Some w -> active !! w = Some false.
Proof.
  revert w. induction active as [|[] l IH]; intros w H; cbn in *; simplify_eq; [|done].
  destruct (first_free l) eqn:E; cbn in H; simplify_eq. by apply IH.
Qed.

Lemma accept_inv d base max : cd_inv d -> has_cta_ d = false ->
  0 < req_block_size (pending_cta_ d) < 2 ^ 31 -> 0 <= base < max ->
  max = usable_slots d (cta_stride MEM_BLOCK_SIZE (pending_cta_ d)) ->
  slot_free d base = true ->
  cd_inv (cd_accept XLEN d base (cta_stride MEM_BLOCK_SIZE (pending_cta_ d)) max).
Proof.
  intros HI Hc HB Hb Hmax Hfree.
  assert (Hbase : 0 <= base < num_warps_ d).
  { pose proof (usable_slots_range d (cta_stride MEM_BLOCK_SIZE (pending_cta_ d))
      (proj1 (cd_nw d HI)) (cd_cap d HI) (proj1 (cta_stride_range _))). lia. }
  destruct (slot_free_occupied d base HI Hbase Hfree) as [HC0 _].
  pose proof (cd_nt d HI). pose proof (cd_nw d HI).
  set (size := u32 (req_block_size (pending_cta_ d) + num_threads_ d - 1) / num_threads_ d).
  assert (Hsz : 0 < size <= 2 ^ 31).
  { unfold size. rewrite wrap_small by (unfold in_u; lia). split.
    - apply Z.div_str_pos. lia.
    - apply Z.div_le_upper_bound; nia. }
  assert (HD : forall s, undispatched d s = 0) by (intros; unfold undispatched; by rewrite Hc).
  unfold cd_accept. fold size. clearbody size.
  constructor; zcbn; try apply HI; try done; try (subst max; lia).
  - rewrite length_insert. apply HI.
  - apply Z.mod_pos_bound; lia.
  - intros _. split; [|done]. rewrite Hmax in Hb. apply Hb.
  - intros s Hs. unfold undispatched. zcbn. pose proof (cd_rem d HI s Hs) as HR.
    rewrite HD in HR. destruct (Z.eqb_spec base s) as [->|Hne].
    + rewrite list_lookup_insert_eq by (rewrite (cd_len_rem d HI); lia).
      rewrite HC0. f_equal. lia.
    + rewrite list_lookup_insert_ne by lia. by rewrite HR.
Qed.

Lemma inv_ext d d' : cd_inv d ->
  num_threads_ d' = num_threads_ d -> num_warps_ d' = num_warps_ d ->
  lmem_base_ d' = lmem_base_ d -> lmem_capacity_ d' = lmem_capacity_ d ->
  slot_rem_warps_ d' = slot_rem_warps_ d -> wid_to_slot_ d' = wid_to_slot_ d ->
  has_cta_ d = false -> has_cta_ d' = false -> 0 <= tail_slot_ d' ->
  (has_pending_ d' = true -> 0 < req_block_size (pending_cta_ d') < 2 ^ 31) -> cd_inv d'.
Proof.
  intros HI E1 E2 E3 E4 E5 E6 H H' Ht Hp. constructor; rewrite ?E1, ?E2, ?E4, ?E5, ?E6;
    try apply HI; try done; try (intros; congruence).
  intros s Hs. rewrite (cd_rem d HI s Hs). unfold undispatched. by rewrite H, H'.
Qed.

Lemma admit_inv d : cd_inv d -> has_cta_ d = false -> has_pending_ d = true ->
  cd_inv (cd_admit XLEN MEM_BLOCK_SIZE d).1 /\
  ((cd_admit XLEN MEM_BLOCK_SIZE d).2 = true -> has_cta_ (cd_admit XLEN MEM_BLOCK_SIZE d).1 = true) /\
  wid_to_slot_ (cd_admit XLEN MEM_BLOCK_SIZE d).1 = wid_to_slot_ d /\
  num_warps_ (cd_admit XLEN MEM_BLOCK_SIZE d).1 = num_warps_ d.
Proof.
  intros HI Hc Hp. pose proof (cd_pend d HI Hp) as HB.
  unfold cd_admit. cbn zeta.
  set (stride := cta_stride MEM_BLOCK_SIZE (pending_cta_ d)). set (max := usable_slots d stride).
  assert (Hmax : 1 <= max <= num_warps_ d).
  { apply usable_slots_range; [apply HI|apply HI|apply cta_stride_range]. }
  set (d1 := if tail_slot_ d >=? max then d <| tail_slot_ := 0 |> else d).
  assert (HI1 : cd_inv d1 /\ tail_slot_ d1 < max /\ pending_cta_ d1 = pending_cta_ d /\
    has_cta_ d1 = false /\ wid_to_slot_ d1 = wid_to_slot_ d /\ num_warps_ d1 = num_warps_ d /\
    max = usable_slots d1 stride).
  { unfold d1. destruct (Z.geb_spec (tail_slot_ d) max); [|done].
    split; [|split; [cbn; unfold const; lia|done]].
    by apply (inv_ext d). }
  clearbody d1. destruct HI1 as (HI1 & Ht & Ep & Hc1 & Ew & En & Em).
  pose proof (slot_window_range (tail_slot_ d1) max (pending_cta_ d)
    (conj (cd_tail d1 HI1) Ht)) as [Hb Hk].
  rewrite Ep. destruct (slot_window _ _ _) as [base k]. cbn [fst snd] in *.
  destruct (forallb _ _) eqn:EF; cbn [fst snd]; [|by auto].
  assert (Hfree : slot_free d1 base = true).
  { rewrite (seqZ_cons base k) in EF by lia. cbn in EF. by bool_hyps. }
  split; [|done]. unfold stride. rewrite <- Ep.
  apply accept_inv; try done; by rewrite ?Ep.
Qed.

Lemma fetch_inv d k d' k' ok : cd_inv d -> src_ok k -> cd_fetch XLEN MEM_BLOCK_SIZE d k = (d', k', ok) ->
  cd_inv d' /\ src_ok k' /\ (ok = true -> has_cta_ d' = true) /\
  wid_to_slot_ d' = wid_to_slot_ d /\ num_warps_ d' = num_warps_ d.
Proof.
  intros HI HK H. unfold cd_fetch in H. destruct (has_cta_ d) eqn:Hc; [by simplify_eq|].
  destruct (has_pending_ d) eqn:Hp.
  - pose proof (admit_inv d HI Hc Hp) as HA. destruct (cd_admit _ _ d) as [d1 ok1].
    cbn in HA. simplify_eq. destruct HA as (? & ? & ? & ?). auto.
  - destruct (src_next k) as [[r k1]|] eqn:En; [|by simplify_eq].
    destruct (src_next_ok k r k1 HK En) as [HK1 HB].
    set (d0 := d <| pending_cta_ := r |> <| has_pending_ := true |>) in *.
    assert (HI0 : cd_inv d0) by by apply (inv_ext d); try done; apply HI.
    pose proof (admit_inv d0 HI0 Hc eq_refl) as HA.
    destruct (cd_admit _ _ d0) as [d1 ok1]. cbn in HA. simplify_eq. destruct HA as (? & ? & ? & ?). auto.
Qed.

(** Dispatching one warp of the current CTA into warp [w], whose previous
    assignment was cleared. *)
Lemma dispatch_inv d init w rec d' : cd_inv d -> wid_to_slot_ d !! w = Some (num_warps_ d) ->
  next_warp XLEN d init = Some (rec, d') ->
  cd_inv (d' <| warp_init_mask_ ::= fun l => <[w := true]> l |>
             <| wid_to_slot_ ::= fun l => <[w := cur_slot_ d']> l |>).
Proof.
  intros HI Hw H. unfold next_warp in H. destruct (has_cta_ d) eqn:Hc; cbn [negb] in H; [|done].
  destruct (cd_cur d HI Hc) as (Hr & Hs & Hcur). pose proof (cd_nw d HI).
  simplify_eq.
  assert (Erk : u32 (rank_ d + 1) = rank_ d + 1) by (apply wrap_small; unfold in_u; lia).
  constructor; rproj; try apply HI.
  - rewrite length_insert. apply HI.
  - rewrite Erk. intros Hlt. bool_hyps. split; [|done]. destruct (Z.geb_spec (rank_ d + 1) (cta_size_ d)); [done|lia].
  - intros _. by apply HI.
  - intros w' s' Hl. destruct (decide (w = w')) as [->|Hne].
    + rewrite list_lookup_insert_eq in Hl by (apply lookup_lt_Some in Hw; done).
      simplify_eq. lia.
    + rewrite list_lookup_insert_ne in Hl by done. by apply (cd_wid d HI w').
  - intros s Hsl. rewrite (cd_rem d HI s Hsl). f_equal. unfold undispatched. rproj.
    rewrite (countZ_insert s _ w _ _ Hw), Hc, Erk. cbn [andb].
    assert ((num_warps_ d =? s) = false) as -> by (apply Z.eqb_neq; lia). cbn [b2z].
    destruct (Z.eqb_spec (cur_slot_ d) s); rewrite ?andb_false_r; cbn [b2z]; [|lia].
    destruct (Z.geb_spec (rank_ d + 1) (cta_size_ d)); cbn [negb andb]; lia.
Qed.

Lemma inv_inactive_unassigned d active w : cd_inv d -> occupied_active d active ->
  active !! w = Some false -> wid_to_slot_ d !! w = Some (num_warps_ d).
Proof.
  intros HI [Hlen Hact] Hw. apply lookup_lt_Some in Hw as Hlt.
  destruct (lookup_lt_is_Some_2 (wid_to_slot_ d) w) as [s Hs]; [by rewrite (cd_len_wid d HI), <- Hlen|].
  pose proof (cd_wid d HI w s Hs). destruct (decide (s < num_warps_ d)) as [Hs'|].
  - specialize (Hact w s Hs Hs'). congruence.
  - rewrite Hs. f_equal. lia.
Qed.

Lemma step_inv d active k d' k' res : cd_inv d -> occupied_active d active -> src_ok k ->
  cd_step XLEN MEM_BLOCK_SIZE d active k = (d', k', res) ->
  cd_inv d' /\ src_ok k' /\
  match res with
  | None => occupied_active d' active
  | Some (w, _) => active !! w = Some false /\ occupied_active d' (<[w := true]> active)
  end.
Proof.
  intros HI HO HK H. unfold cd_step in H.
  destruct (cd_fetch _ _ d k) as [[d1 k1] ok] eqn:EF.
  destruct (fetch_inv _ _ _ _ _ HI HK EF) as (HI1 & HK1 & Hok & Ew & En).
  assert (HO1 : occupied_active d1 active) by (unfold occupied_active in *; by rewrite Ew, En).
  destruct ok; cbn [negb] in H; [|by simplify_eq].
  destruct (first_free active) as [w|] eqn:Ef; [|by simplify_eq].
  apply first_free_spec in Ef.
  pose proof (inv_inactive_unassigned _ _ _ HI1 HO1 Ef) as Hun.
  destruct (next_warp XLEN d1 _) as [[rec d2]|] eqn:En2; [|by simplify_eq].
  pose proof (dispatch_inv _ _ _ _ _ HI1 Hun En2) as HI2. simplify_eq.
  split; [done|]. split; [done|]. split; [done|].
  unfold next_warp in En2. rewrite (Hok eq_refl) in En2. cbn [negb] in En2. simplify_eq.
  destruct HO1 as [Hlen Hact]. split; [by rewrite length_insert|]. rproj.
  intros w' s' Hl Hs'. destruct (decide (w = w')) as [->|Hne].
  - apply list_lookup_insert_eq. by apply lookup_lt_Some in Ef.
  - rewrite list_lookup_insert_ne in Hl by done. rewrite list_lookup_insert_ne by done. by apply (Hact w' s').
Qed.

Lemma warp_done_inv d active w : cd_inv d -> occupied_active d active ->
  exists d', warp_done d w = Some d' /\ cd_inv d' /\ occupied_active d' (<[w := false]> active).
Proof.
  intros HI [Hlen Hact]. unfold warp_done. pose proof (cd_nw d HI) as Hnw.
  destruct (wid_to_slot_ d !! w) as [s|] eqn:Hw; cbn [default].
  2:{ destruct (Z.geb_spec (num_warps_ d) (num_warps_ d)); [|lia]. exists d. split_and!; [done..|].
      split; [by rewrite length_insert|]. intros w' s' Hl Hs'.
      rewrite list_lookup_insert_ne; [by apply (Hact w' s')|]. congruence. }
  pose proof (cd_wid d HI w s Hw) as Hsr. cbn.
  destruct (Z.geb_spec s (num_warps_ d)) as [Hge|Hlt].
  { exists d. split_and!; [done..|]. split; [by rewrite length_insert|]. intros w' s' Hl Hs'.
    rewrite list_lookup_insert_ne; [by apply (Hact w' s')|]. intros ->. simplify_eq. lia. }
  rewrite (cd_rem d HI s) by lia. cbn [default from_option]. unfold id.
  pose proof (countZ_pos s _ _ Hw). pose proof (countZ_bounds s (wid_to_slot_ d)) as HCb.
  rewrite (cd_len_wid d HI) in HCb.
  assert (HU : 0 <= undispatched d s <= 2 ^ 31).
  { unfold undispatched. destruct (has_cta_ d) eqn:E; cbn [andb]; [|lia].
    destruct (cd_cur d HI E) as (? & ? & ?). case_if; lia. }
  destruct (Z.gtb_spec (countZ s (wid_to_slot_ d) + undispatched d s) 0); [|lia].
  eexists. split; [reflexivity|]. rewrite wrap_small by (unfold in_u; lia). split.
  - constructor; rproj; try apply HI; rewrite ?length_insert; try apply HI.
    + intros w' s' Hl. destruct (decide (w = w')) as [->|Hne].
      * rewrite list_lookup_insert_eq in Hl by (by apply lookup_lt_Some in Hw). simplify_eq. lia.
      * rewrite list_lookup_insert_ne in Hl by done. by apply (cd_wid d HI w').
    + intros t Ht. change (undispatched _ t) with (undispatched d t).
      rewrite (countZ_insert t _ w s _ Hw).
      assert ((num_warps_ d =? t) = false) as -> by (apply Z.eqb_neq; lia). cbn [b2z].
      destruct (Z.eqb_spec s t) as [->|Hne].
      * rewrite list_lookup_insert_eq by (rewrite (cd_len_rem d HI); lia). f_equal. cbn. lia.
      * rewrite list_lookup_insert_ne by lia. rewrite (cd_rem d HI t Ht). f_equal. cbn. lia.
  - split; [by rewrite length_insert|]. rproj. intros w' s' Hl Hs'.
    destruct (decide (w = w')) as [->|Hne].
    + rewrite list_lookup_insert_eq in Hl by (by apply lookup_lt_Some in Hw). simplify_eq. lia.
    + rewrite list_lookup_insert_ne in Hl by done. rewrite list_lookup_insert_ne by done. by apply (Hact w' s').
Qed.

(** The dispatcher as the scheduler drives it: a dispatch attempt activates the
    warp it returns, an exiting warp is reported with [warp_done], and warps
    can also be activated by others (wspawn, fragment waves). *)
Inductive cd_reach (d0 : CtaDispatcher) (k0 : K) : CtaDispatcher -> list bool -> K -> Prop :=
| reach_init : cd_reach d0 k0 d0 (replicate (Z.to_nat (num_warps_ d0)) false) k0
| reach_dispatch d a k d' k' w rec :
    cd_reach d0 k0 d a k -> cd_step XLEN MEM_BLOCK_SIZE d a k = (d', k', Some (w, rec)) ->
    cd_reach d0 k0 d' (<[w := true]> a) k'
| reach_blocked d a k d' k' :
    cd_reach d0 k0 d a k -> cd_step XLEN MEM_BLOCK_SIZE d a k = (d', k', None) ->
    cd_reach d0 k0 d' a k'
| reach_exit d a k d' w :
    cd_reach d0 k0 d a k -> a !! w = Some true -> warp_done d w = Some d' ->
    cd_reach d0 k0 d' (<[w := false]> a) k
| reach_activated d a k w :
    cd_reach d0 k0 d a k -> a !! w = Some false -> cd_reach d0 k0 d (<[w := true]> a) k.

Lemma init_inv nt nw base lg : 0 < nt < 2 ^ 31 -> 0 < nw < 2 ^ 31 ->
  cd_inv (CtaDispatcher_init nt nw base lg).
Proof.
  intros Ht Hw. constructor; cbn -[wrap]; rewrite ?length_replicate; try done.
  - apply (wrap_range 32); lia.
  - intros w s H. apply lookup_replicate in H as [-> _]. lia.
  - intros s Hs. rewrite lookup_replicate_2 by lia. rewrite countZ_replicate by lia. done.
Qed.

Lemma reach_inv nt nw base lg k0 d a k : 0 < nt < 2 ^ 31 -> 0 < nw < 2 ^ 31 -> src_ok k0 ->
  cd_reach (CtaDispatcher_init nt nw base lg) k0 d a k ->
  cd_inv d /\ occupied_active d a /\ src_ok k.
Proof.
  intros Ht Hw HK. induction 1 as [|d a k d' k' w rec _ (HI & HO & HK') Hs
    |d a k d' k' _ (HI & HO & HK') Hs|d a k d' w _ (HI & HO & HK') Ha Hd
    |d a k w _ (HI & HO & HK') Ha].
  - split; [by apply init_inv|]. split; [|done]. split; [by rewrite length_replicate|].
    cbn. intros w s H ?. apply lookup_replicate in H as [-> _]. lia.
  - apply step_inv in Hs as (? & ? & ? & ?); auto.
  - apply step_inv in Hs as (? & ? & ?); auto.
  - destruct (warp_done_inv d a w HI HO) as (d1 & E & ? & ?). rewrite Hd in E. by simplify_eq.
  - split; [done|]. split; [|done]. destruct HO as [Hl HO]. split; [by rewrite length_insert|].
    intros w' s Hs Hlt. specialize (HO w' s Hs Hlt).
    rewrite list_lookup_insert_ne; [done|]. congruence.
Qed.

End Accounting.

(** ** Threads of a block *)

Section Threads.
Context (XLEN : Z).

(** Repeated [next_warp] until the CTA is exhausted. *)
Fixpoint next_warps (fuel : nat) (d : CtaDispatcher) : list cta_warp_record_t * CtaDispatcher :=
  match fuel with
  | O => ([], d)
  | S fuel =>
      match next_warp XLEN d false with
      | None => ([], d)
      | Some (rec, d) => let '(recs, d) := next_warps fuel d in (rec :: recs, d)
      end
  end.

(** A request whose geometry the host computed for block [B]. *)
Definition host_geometry (NT nw : Z) (B : vec3) (r : kmu_req_t) : Prop :=
  (req_block_dim r, req_block_size r, req_warp_step r) = prepare_kernel_launch_params NT nw 3 (Some B).

(** The dispatcher after [n] warps of a CTA of block [B]. *)
Definition at_rank (NT nw : Z) (B : vec3) (d : CtaDispatcher) (n : Z) : Prop :=
  num_threads_ d = NT /\ host_geometry NT nw B (cta_ d) /\
  cta_size_ d = (volume B + NT - 1) / NT /\ rank_ d = n /\
  has_cta_ d = (n <? cta_size_ d) /\
  (n < cta_size_ d -> block_size_rem_ d = volume B - n * NT /\ thread_idx_ d = unrank B (n * NT)).

Lemma rank_covers NT V n : 0 < NT -> 0 <= n -> n < (V + NT - 1) / NT <-> n * NT < V.
Proof.
  intros. pose proof (Z.div_mod (V + NT - 1) NT ltac:(lia)).
  pose proof (Z.mod_pos_bound (V + NT - 1) NT ltac:(lia)). nia.
Qed.

Lemma volume_dims B : pos3 B -> volume B < 2 ^ 31 ->
  vx B < 2 ^ 31 /\ vy B < 2 ^ 31 /\ vz B < 2 ^ 31 /\ 0 < vx B * vy B < 2 ^ 31.
Proof.
  unfold pos3, volume. intros (? & ? & ?) ?.
  assert (0 < vx B * vy B) by nia.
  assert (vx B * vy B <= vx B * vy B * vz B) by nia.
  assert (vz B <= vx B * vy B * vz B) by nia.
  assert (vx B <= vx B * vy B) by nia.
  assert (vy B <= vx B * vy B) by nia. lia.
Qed.

Lemma host_geometry_3d NT nw B r : pos3 B -> volume B < 2 ^ 31 -> host_geometry NT nw B r ->
  req_block_dim r = B /\ req_block_size r = volume B /\
  req_warp_step r = Vec3 (NT mod vx B) (NT / vx B mod vy B) (NT / vx B / vy B mod vz B).
Proof.
  intros HB HV H. destruct (volume_dims B HB HV) as (Hx & Hy & Hz & Hxy). destruct HB as (Px & Py & Pz).
  unfold host_geometry, prepare_kernel_launch_params in H. zcbn.
  destruct B as [bx by' bz]; zcbn. unfold volume in *; zcbn.
  rewrite !Z.mul_1_l, (wrap_small 32 bx), (wrap_small 32 (bx * by')), (wrap_small 32 (bx * by' * bz)) in H
    by (unfold in_u; nia).
  injection H as -> -> ->. rewrite <- Z.div_div by lia. done.
Qed.

(** The carry chain of [next_warp] is the addition of [NT] to the linear
    thread number. *)
Lemma unrank_add B j NT : pos3 B -> volume B < 2 ^ 31 -> 0 < NT -> 0 <= j -> j + NT < volume B ->
  let t := unrank B j in let s := Vec3 (NT mod vx B) (NT / vx B mod vy B) (NT / vx B / vy B mod vz B) in
  let next_x := u32 (vx t + vx s) in
  let wrap_x := next_x >=? vx B in
  let next_y := u32 (vy t + vy s + b2z wrap_x) in
  let wrap_y := next_y >=? vy B in
  Vec3 (if wrap_x then u32 (next_x - vx B) else next_x)
       (if wrap_y then u32 (next_y - vy B) else next_y)
       (u32 (vz t + vz s + b2z wrap_y)) = unrank B (j + NT).
Proof.
  intros HB HV HN Hj Hlt. destruct (volume_dims B HB HV) as (Hx & Hy & Hz & Hxy). destruct HB as (Px & Py & Pz).
  cbn zeta. unfold unrank; cbn [vx vy vz].
  pose proof (Z.mod_pos_bound j (vx B) Px). pose proof (Z.mod_pos_bound NT (vx B) Px).
  rewrite (wrap_small 32 (j mod vx B + NT mod vx B)) by (unfold in_u; lia).
  pose proof (add_digit j NT 0 (vx B) Px ltac:(lia)) as [EX QX]. cbn zeta in *. rewrite !Z.add_0_r in *.
  set (cx := j mod vx B + NT mod vx B >=? vx B) in *.
  pose proof (Z.mod_pos_bound (j / vx B) (vy B) Py). pose proof (Z.mod_pos_bound (NT / vx B) (vy B) Py).
  pose proof (b2z_range cx).
  rewrite (wrap_small 32 (j / vx B mod vy B + NT / vx B mod vy B + b2z cx)) by (unfold in_u; lia).
  pose proof (add_digit (j / vx B) (NT / vx B) (b2z cx) (vy B) Py (b2z_range cx)) as [EY QY]. cbn zeta in *.
  set (cy := j / vx B mod vy B + NT / vx B mod vy B + b2z cx >=? vy B) in *.
  pose proof (b2z_range cy).
  assert (HZ : 0 <= (j + NT) / vx B / vy B < vz B).
  { unfold volume in Hlt. apply div_range; [lia|]. apply div_range; lia. }
  rewrite <- QX in EY, QY. rewrite EX, EY, QY in *.
  assert (0 <= j / vx B / vy B) by (repeat apply Z.div_pos; lia).
  assert (0 <= NT / vx B / vy B) by (repeat apply Z.div_pos; lia).
  rewrite (Z.mod_small (NT / vx B / vy B)) by lia.
  rewrite (wrap_small 32 (j / vx B / vy B + _ + _)) by (unfold in_u; lia).
  f_equal.
  - destruct cx eqn:Ecx; [|done]. unfold cx in Ecx. apply Z.geb_ge in Ecx. apply wrap_small. unfold in_u; lia.
  - destruct cy eqn:Ecy; [|done]. unfold cy in Ecy. apply Z.geb_ge in Ecy. apply wrap_small. unfold in_u; lia.
Qed.

Lemma next_warp_at NT nw B d n init : pos3 B -> volume B < 2 ^ 31 -> 0 < NT < 2 ^ 31 -> 0 <= n ->
  at_rank NT nw B d n -> n * NT < volume B ->
  exists rec d', next_warp XLEN d init = Some (rec, d') /\ at_rank NT nw B d' (n + 1) /\
    rec_cta_rank rec = n /\ rec_thread_idx rec = unrank B (n * NT) /\
    rec_tmask rec = map (fun t => n * NT + t <? volume B) (seqZ 0 NT).
Proof.
  intros HB HV HN Hn (E1 & HG & E2 & E3 & E4 & E5) Hlt.
  destruct (host_geometry_3d _ _ _ _ HB HV HG) as (G1 & G2 & G3).
  assert (Hsz : n < cta_size_ d) by (rewrite E2; apply rank_covers; lia).
  destruct (E5 Hsz) as [E6 E7].
  unfold next_warp. rewrite E4. destruct (Z.ltb_spec n (cta_size_ d)); [|lia]. cbn [negb].
  set (active := if block_size_rem_ d >=? num_threads_ d then num_threads_ d else block_size_rem_ d).
  assert (Ha : active = Z.min NT (volume B - n * NT)).
  { unfold active. rewrite E1, E6. destruct (Z.geb_spec (volume B - n * NT) NT); lia. }
  assert (Hc : cta_size_ d <= volume B).
  { rewrite E2. apply Z.div_le_upper_bound; [lia|]. nia. }
  eexists _, _. split; [reflexivity|]. rproj.
  rewrite E1, E3, E6, E7, Ha, G1, G3. cbn [vx vy vz].
  split; [|split; [done|split; [done|]]].
  - rewrite (wrap_small 32 (n + 1)) by (unfold in_u; lia).
    unfold at_rank; rproj. split_and!; try done.
    + destruct (Z.geb_spec (n + 1) (cta_size_ d)), (Z.ltb_spec (n + 1) (cta_size_ d)); lia || done.
    + intros H1. assert ((n + 1) * NT < volume B) by (rewrite E2 in H1; apply rank_covers in H1; lia).
      split; [rewrite wrap_small by (unfold in_u; lia); lia|].
      rewrite Z.mul_add_distr_r, Z.mul_1_l. apply unrank_add; try done; lia.
  - apply map_ext_in. intros t Ht. apply list_elem_of_In, elem_of_seqZ in Ht.
    destruct (Z.ltb_spec t (Z.min NT (volume B - n * NT))), (Z.ltb_spec (n * NT + t) (volume B)); lia || done.
Qed.

Lemma next_warps_at NT nw B fuel : pos3 B -> volume B < 2 ^ 31 -> 0 < NT < 2 ^ 31 ->
  forall d n, at_rank NT nw B d n -> 0 <= n -> cta_size_ d - n <= Z.of_nat fuel ->
  let '(recs, d') := next_warps fuel d in
  has_cta_ d' = false /\ map rec_cta_rank recs = seqZ n (cta_size_ d - n) /\
  Forall (fun rec => rec_thread_idx rec = unrank B (rec_cta_rank rec * NT) /\
    rec_tmask rec = map (fun t => rec_cta_rank rec * NT + t <? volume B) (seqZ 0 NT)) recs.
Proof.
  intros HB HV HN. induction fuel as [|fuel IH]; intros d n HR Hn Hf; cbn [next_warps].
  - pose proof HR as (_ & _ & _ & _ & E4 & _). rewrite E4.
    split_and!; [apply Z.ltb_ge; lia|by rewrite seqZ_nil by lia|constructor].
  - pose proof HR as (_ & _ & E2 & _ & E4 & _).
    destruct (Z.lt_ge_cases n (cta_size_ d)) as [Hlt|Hge].
    + destruct (next_warp_at NT nw B d n false HB HV HN Hn HR) as (rec & d' & -> & HR' & F1 & F2 & F3).
      { apply rank_covers; [lia..|]. by rewrite <- E2. }
      assert (Es : cta_size_ d' = cta_size_ d) by (destruct HR' as (_ & _ & -> & _); done).
      specialize (IH d' (n + 1) HR' ltac:(lia) ltac:(lia)). destruct (next_warps fuel d') as [recs d''].
      destruct IH as (I1 & I2 & I3). rewrite Es in *. split; [done|]. split.
      * rewrite (seqZ_cons n) by lia. cbn [map]. rewrite F1. f_equal. rewrite I2. f_equal; lia.
      * constructor; [|done]. by rewrite F1.
    + unfold next_warp. rewrite E4. destruct (Z.ltb_spec n (cta_size_ d)); [lia|]. cbn [negb].
      split_and!; [done|by rewrite seqZ_nil by lia|constructor].
Qed.

Lemma accept_at_rank NT nw B d base stride max : pos3 B -> volume B < 2 ^ 31 -> 0 < NT < 2 ^ 31 ->
  num_threads_ d = NT -> host_geometry NT nw B (pending_cta_ d) ->
  at_rank NT nw B (cd_accept XLEN d base stride max) 0.
Proof.
  intros HB HV HN E1 HG. destruct (host_geometry_3d _ _ _ _ HB HV HG) as (G1 & G2 & G3).
  pose proof (volume_pos B HB). unfold at_rank, cd_accept; zcbn. rewrite G2, E1.
  rewrite wrap_small by (unfold in_u; lia). split_and!; try done.
  - symmetry. apply Z.ltb_lt. apply Z.div_str_pos. lia.
  - intros _. split; [lia|]. unfold unrank. by rewrite Z.mod_0_l, !Z.div_0_l by (destruct HB as (?&?&?); lia).
Qed.

End Threads.

(** ** Properties *)

Lemma stride_covers m r : 0 <= m -> 0 <= req_lmem_size r -> req_lmem_size r + 2 ^ m - 1 < 2 ^ 32 ->
  req_lmem_size r <= cta_stride (2 ^ m) r.
Proof.
  intros. unfold cta_stride. rewrite <- Z.add_sub_assoc, Z.add_sub_assoc.
  pose proof (align_up 32 m (req_lmem_size r)) as HA. cbn zeta in HA. lia.
Qed.

Lemma usable_slots_fit d stride s : 0 <= stride <= lmem_capacity_ d ->
  0 <= s < usable_slots d stride -> (s + 1) * stride <= lmem_capacity_ d.
Proof.
  intros Hst. unfold usable_slots. case_if; [nia|]. cbn zeta.
  assert (stride * (lmem_capacity_ d / stride) <= lmem_capacity_ d) by (apply Z.mul_div_le; lia).
  assert (1 <= lmem_capacity_ d / stride) by (apply Z.div_le_lower_bound; lia).
  destruct (Z.gtb_spec (lmem_capacity_ d / stride) (num_warps_ d)); case_if; nia.
Qed.

(** The configuration fields never change. *)
Definition cd_config (d : CtaDispatcher) : Z * Z * Z * Z :=
  (num_threads_ d, num_warps_ d, lmem_base_ d, lmem_capacity_ d).

Lemma admit_config XLEN MBS d : cd_config (cd_admit XLEN MBS d).1 = cd_config d.
Proof.
  unfold cd_admit. cbn zeta. set (d1 := if _ >=? _ then _ else _).
  assert (E : cd_config d1 = cd_config d) by (unfold d1; destruct (_ >=? _); done).
  destruct (slot_window _ _ _). destruct (forallb _ _); done.
Qed.

Lemma fetch_config XLEN MBS {K} `{!CtaSource K} d (k : K) :
  cd_config (cd_fetch XLEN MBS d k).1.1 = cd_config d.
Proof.
  unfold cd_fetch. destruct (has_cta_ d); [done|]. destruct (has_pending_ d).
  - rewrite <- (admit_config XLEN MBS d). by destruct (cd_admit _ _ _).
  - destruct (src_next k) as [[r k1]|]; [|done].
    set (d1 := d <| pending_cta_ := r |> <| has_pending_ := true |>).
    change (cd_config d) with (cd_config d1). rewrite <- (admit_config XLEN MBS d1).
    by destruct (cd_admit _ _ d1).
Qed.

Lemma step_config XLEN MBS {K} `{!CtaSource K} d active (k : K) :
  cd_config (cd_step XLEN MBS d active k).1.1 = cd_config d.
Proof.
  unfold cd_step. rewrite <- (fetch_config XLEN MBS d k). destruct (cd_fetch _ _ d k) as [[d1 k1] ok].
  cbn [fst]. destruct (negb ok); [done|]. destruct (first_free active); [|done].
  unfold next_warp. by destruct (negb (has_cta_ d1)).
Qed.

Lemma reach_config XLEN MBS {K} `{!CtaSource K} d0 (k0 : K) d a k :
  cd_reach XLEN MBS d0 k0 d a k -> cd_config d = cd_config d0.
Proof.
  induction 1 as [|d a k d' k' w rec _ IH Hs|d a k d' k' _ IH Hs|d a k d' w _ IH _ Hd|]; try done.
  - rewrite <- IH, <- (step_config XLEN MBS d a k). by rewrite Hs.
  - rewrite <- IH, <- (step_config XLEN MBS d a k). by rewrite Hs.
  - rewrite <- IH. unfold warp_done in Hd. destruct (_ >=? _); [by simplify_eq|].
    destruct (_ >? _); by simplify_eq.
Qed.

(** What a successful dispatch returns: a warp that was inactive, the record of
    the CTA in flight, and the warp bound to that CTA's slot. *)
Lemma step_dispatch XLEN MBS {K} `{!CtaSource K} d active (k : K) d' k' w rec :
  cd_inv MBS d -> occupied_active d active -> src_ok k ->
  cd_step XLEN MBS d active k = (d', k', Some (w, rec)) ->
  exists d1, cd_inv MBS d1 /\ has_cta_ d1 = true /\ cd_config d1 = cd_config d /\
    active !! w = Some false /\ wid_to_slot_ d' !! w = Some (cur_slot_ d1) /\
    rec_cta_id rec = cur_slot_ d1 /\ rec_lmem_addr rec = lmem_addr_ d1 /\ cta_ d' = cta_ d1.
Proof.
  intros HI HO HK H. unfold cd_step in H. pose proof (fetch_config XLEN MBS d k) as HC.
  destruct (cd_fetch _ _ d k) as [[d1 k1] ok] eqn:EF.
  destruct (fetch_inv _ _ _ _ _ _ _ HI HK EF) as (HI1 & HK1 & Hok & Ew & En).
  destruct ok; cbn [negb fst] in *; [|done]. destruct (first_free active) as [w'|] eqn:Ef; [|done].
  apply first_free_spec in Ef. unfold next_warp in H. rewrite (Hok eq_refl) in H. cbn [negb] in H.
  injection H as <- <- <- <-. exists d1. split_and!; try done; [by apply Hok|].
  cbn. apply list_lookup_insert_eq. rewrite (cd_len_wid MBS d1 HI1), En.
  destruct HO as [<- _]. by apply lookup_lt_Some in Ef.
Qed.

(** C23 (invariant): in every state reachable by any interleaving of dispatches,
    blocked attempts, warp exits and foreign activations, each slot counter is
    the number of live warps of the slot plus the warps of the CTA in flight
    that are still to be dispatched; reporting an exit never fails the
    assertion of [warp_done]; and a dispatch goes to an inactive warp, which
    it binds to the slot the record names. *)
Theorem cd_slot_accounting XLEN MBS {K} `{!CtaSource K} nt nw base lg (k0 : K) d active k :
  0 < nt < 2 ^ 31 -> 0 < nw < 2 ^ 31 -> src_ok k0 ->
  cd_reach XLEN MBS (CtaDispatcher_init nt nw base lg) k0 d active k ->
  (forall s, 0 <= s < num_warps_ d ->
     slot_rem_warps_ d !! Z.to_nat s = Some (countZ s (wid_to_slot_ d) + undispatched d s)) /\
  (forall w, warp_done d w <> None) /\
  (forall d' k' w rec, cd_step XLEN MBS d active k = (d', k', Some (w, rec)) ->
     active !! w = Some false /\ wid_to_slot_ d' !! w = Some (rec_cta_id rec)).
Proof.
  intros Ht Hw HK HR. destruct (reach_inv _ _ _ _ _ _ _ _ _ _ Ht Hw HK HR) as (HI & HO & HK').
  split_and!.
  - apply HI.
  - intros w. by destruct (warp_done_inv MBS d active w HI HO) as (d' & -> & _).
  - intros d' k' w rec Hs.
    destruct (step_dispatch XLEN MBS d active k d' k' w rec HI HO HK' Hs)
      as (d1 & _ & _ & _ & ? & ? & -> & _). done.
Qed.

(** C25 (safety): every dispatched warp of a CTA whose block-aligned pitch fits
    the LMEM is given a region that starts at its slot's multiple of the pitch,
    covers the CTA's request and ends inside the LMEM; regions of different
    slots of one kernel do not overlap.  A CTA that does not fit is dispatched
    all the same, and its region leaves the LMEM. *)
Theorem cd_lmem_regions XLEN m {K} `{!CtaSource K} nt nw base lg (k0 : K) d active k d' k' w rec :
  0 < nt < 2 ^ 31 -> 0 < nw < 2 ^ 31 -> src_ok k0 -> 0 <= m -> 0 <= lg < 32 -> 0 <= base < 2 ^ 63 ->
  cd_reach XLEN (2 ^ m) (CtaDispatcher_init nt nw base lg) k0 d active k ->
  cd_step XLEN (2 ^ m) d active k = (d', k', Some (w, rec)) ->
  let size := req_lmem_size (cta_ d') in
  let pitch := cta_stride (2 ^ m) (cta_ d') in
  0 <= size -> size + 2 ^ m - 1 < 2 ^ 32 -> pitch <= 2 ^ lg ->
  rec_lmem_addr rec = base + rec_cta_id rec * pitch /\ size <= pitch /\
  base <= rec_lmem_addr rec /\ rec_lmem_addr rec + size <= base + 2 ^ lg /\
  (forall s, s <> rec_cta_id rec ->
     base + s * pitch + size <= rec_lmem_addr rec \/ rec_lmem_addr rec + size <= base + s * pitch).
Proof.
  intros Ht Hw HK Hm Hlg Hb HR Hs size pitch Hsz Hov Hcap.
  destruct (reach_inv _ _ _ _ _ _ _ _ _ _ Ht Hw HK HR) as (HI & HO & HK').
  destruct (step_dispatch XLEN _ d active k d' k' w rec HI HO HK' Hs)
    as (d1 & HI1 & Hc1 & HC & _ & _ & Eid & Ead & Ec).
  rewrite (reach_config _ _ _ _ _ _ _ HR) in HC. unfold cd_config in HC. cbn -[wrap] in HC.
  injection HC as _ _ Eb Ecap. rewrite Z.shiftl_1_l in Ecap.
  assert (2 ^ lg < 2 ^ 32) by (apply Z.pow_lt_mono_r; lia). pose proof (pow2_pos lg ltac:(lia)).
  rewrite wrap_small in Ecap by (unfold in_u; lia).
  destruct (cd_lmem _ d1 HI1 Hc1) as [Hlt Haddr]. destruct (cd_cur _ d1 HI1 Hc1) as (_ & _ & Hcur).
  rewrite <- Ec in *. fold pitch in Hlt, Haddr.
  assert (Hp : size <= pitch) by (by apply stride_covers).
  assert (Hfit : (cur_slot_ d1 + 1) * pitch <= 2 ^ lg).
  { rewrite <- Ecap. apply usable_slots_fit; [|split; [lia|done]].
    pose proof (cta_stride_range (2 ^ m) (cta_ d')) as [? _]. lia. }
  rewrite wrap_small in Haddr by (unfold in_u; nia).
  rewrite Ead, Eid, Haddr, Eb. split_and!; try done; try nia.
Qed.

(** C26 (functional): the incremental thread index of [next_warp] is exact.  For
    a 3-D block whose geometry the host computed, the CTA is handed out as
    [ceil (block_size / num_threads)] warps in rank order; the warp of rank [r]
    starts at the coordinates of linear thread [r * num_threads], and its lane
    [t] is enabled exactly when thread [r * num_threads + t] exists. *)
Theorem cd_thread_assignment XLEN nw B d base stride max fuel :
  pos3 B -> volume B < 2 ^ 31 -> 0 < num_threads_ d < 2 ^ 31 ->
  host_geometry (num_threads_ d) nw B (pending_cta_ d) ->
  let d1 := cd_accept XLEN d base stride max in
  cta_size_ d1 <= Z.of_nat fuel ->
  let '(recs, d') := next_warps XLEN fuel d1 in
  let NT := num_threads_ d in
  has_cta_ d' = false /\
  map rec_cta_rank recs = seqZ 0 ((volume B + NT - 1) / NT) /\
  Forall (fun rec => rec_thread_idx rec = unrank B (rec_cta_rank rec * NT) /\
    rec_tmask rec = map (fun t => rec_cta_rank rec * NT + t <? volume B) (seqZ 0 NT)) recs.
Proof.
  intros HB HV HN HG d1 Hf.
  pose proof (accept_at_rank XLEN _ nw B d base stride max HB HV HN eq_refl HG) as HR. fold d1 in HR.
  pose proof (next_warps_at XLEN _ nw B fuel HB HV HN d1 0 HR ltac:(lia) ltac:(lia)) as HA.
  destruct (next_warps XLEN fuel d1) as [recs d']. cbn zeta.
  assert (cta_size_ d1 = (volume B + num_threads_ d - 1) / num_threads_ d) as E by apply HR.
  by rewrite E, Z.sub_0_r in HA.
Qed.

(** ** Concrete runs: a core of 4 warps of 4 threads, 3x2x1 blocks *)

Definition cd_sample_kmu : Kmu :=
  kmu_start (kmu_sample <| block_dim_ := Vec3 3 2 1 |> <| block_size_ := 6 |>
    <| warp_step_ := Vec3 1 1 0 |> <| lmem_size_ := 100 |>).
Definition cd_sample : CtaDispatcher := CtaDispatcher_init 4 4 0x10000 10.
Definition cd_sample_next : CtaDispatcher :=
  Eval vm_compute in (cd_step 32 64 cd_sample (replicate 4 false) cd_sample_kmu).1.1.
Definition cd_sample_kmu_next : Kmu :=
  Eval vm_compute in (cd_step 32 64 cd_sample (replicate 4 false) cd_sample_kmu).1.2.

Lemma cd_sample_reach :
  cd_reach 32 64 cd_sample cd_sample_kmu cd_sample_next [true; false; false; false] cd_sample_kmu_next.
Proof.
  eapply (reach_dispatch 32 64 _ _ _ (replicate 4 false) _ _ _ 0%nat).
  - apply (reach_init 32 64 cd_sample cd_sample_kmu).
  - vm_compute. reflexivity.
Qed.

Lemma cd_slot_accounting_witness :
  slot_rem_warps_ cd_sample_next = [2; 0; 0; 0] /\ wid_to_slot_ cd_sample_next = [0; 4; 4; 4] /\
  (forall w, warp_done cd_sample_next w <> None).
Proof.
  split; [reflexivity|]. split; [reflexivity|].
  apply (cd_slot_accounting 32 64 4 4 0x10000 10 cd_sample_kmu
    cd_sample_next [true; false; false; false] cd_sample_kmu_next);
    [lia|lia|vm_compute; done|exact cd_sample_reach].
Defined.

Lemma cd_lmem_regions_witness :
  exists d' k' rec, cd_step 32 (2 ^ 6) cd_sample (replicate 4 false) cd_sample_kmu = (d', k', Some (0%nat, rec)) /\
  cta_stride 64 (cta_ d') = 128 /\
  rec_lmem_addr rec + 100 <= 0x10000 + 2 ^ 10 /\
  (forall s, s <> rec_cta_id rec ->
     0x10000 + s * 128 + 100 <= rec_lmem_addr rec \/ rec_lmem_addr rec + 100 <= 0x10000 + s * 128).
Proof.
  eexists _, _, _. split; [vm_compute; reflexivity|]. split; [vm_compute; reflexivity|].
  edestruct (cd_lmem_regions 32 6 4 4 0x10000 10 cd_sample_kmu cd_sample (replicate 4 false) cd_sample_kmu)
    as (_ & _ & _ & H4 & H5);
    [lia|lia|vm_compute; done|lia|lia|lia|apply (reach_init 32 64 cd_sample cd_sample_kmu)
    |vm_compute; reflexivity|vm_compute; done..|].
  split; [exact H4|]. lazymatch type of H5 with context [cta_stride ?a ?b] =>
    assert (E : cta_stride a b = 128) by (vm_compute; reflexivity); rewrite E in H5 end.
  exact H5.
Defined.

(** A CTA that asks for 2000 bytes of an LMEM of 1024 is granted a slot: the
    fit of zero becomes one.  Its region ends after the LMEM. *)
Example cd_oversize_region :
  match cd_step 32 64 cd_sample (replicate 4 false) (cd_sample_kmu <| lmem_size_ := 2000 |>) with
  | (d', _, Some (w, rec)) => req_lmem_size (cta_ d') = 2000 /\ rec_lmem_addr rec = 0x10000 /\ 0x10000 + 2 ^ 10 < rec_lmem_addr rec + 2000
  | _ => False
  end.
Proof. vm_compute. done. Qed.

Definition cd_sample_pending : CtaDispatcher :=
  cd_sample <| pending_cta_ := kmu_req cd_sample_kmu |> <| has_pending_ := true |>.

Definition cd_sample_accepted : CtaDispatcher :=
  Eval vm_compute in cd_accept 32 cd_sample_pending 0 128 4.

Lemma cd_thread_assignment_witness :
  host_geometry 4 4 (Vec3 3 2 1) (pending_cta_ cd_sample_pending) /\
  map rec_thread_idx (next_warps 32 2 cd_sample_accepted).1 = [Vec3 0 0 0; Vec3 1 1 0] /\
  map rec_tmask (next_warps 32 2 cd_sample_accepted).1 = [[true; true; true; true]; [true; true; false; false]] /\
  let '(recs, d') := next_warps 32 2 (cd_accept 32 cd_sample_pending 0 128 4) in
  map rec_cta_rank recs = seqZ 0 ((volume (Vec3 3 2 1) + 4 - 1) / 4) /\ has_cta_ d' = false.
Proof.
  split; [reflexivity|]. split; [vm_compute; reflexivity|]. split; [vm_compute; reflexivity|].
  pose proof (cd_thread_assignment 32 4 (Vec3 3 2 1) cd_sample_pending 0 128 4 2) as H.
  cbn zeta in H. destruct (next_warps _ _ _) as [recs d'].
  destruct H as (H1 & H2 & _);
    [unfold pos3; cbn; lia|reflexivity|vm_compute; done|reflexivity|vm_compute; done|].
  split; [exact H2|exact H1].
Defined.
