(* ===== verification/Dll.v ===== *)
(** * Intrusive doubly linked lists

    The pointer operations that [sw/common/mem_alloc.h] repeats for each of its
    three block lists, over a heap with one map per link field.  A null pointer
    is [None]; reading or writing a field of a null or deleted block gives
    [None] for the whole operation, so a theorem that an operation returns
    [Some] also shows that it touches live blocks only.  [dll] relates the
    links to the list of pointers they spell. *)

From S2P Require Import Prelude.

Definition ptr : Type := positive.

(** The two link fields of one list, one map per field. *)
Record links := Links { nxt : gmap ptr (option ptr); prv : gmap ptr (option ptr) }.

Definition put_nxt (L : links) (p : ptr) (v : option ptr) : option links :=
  _ ← nxt L !! p; Some (Links (<[p := v]> (nxt L)) (prv L)).
Definition put_prv (L : links) (p : ptr) (v : option ptr) : option links :=
  _ ← prv L !! p; Some (Links (nxt L) (<[p := v]> (prv L))).

Definition new_links (L : links) (p : ptr) : links :=
  Links (<[p := None]> (nxt L)) (<[p := None]> (prv L)).
Definition del_links (L : links) (p : ptr) : links :=
  Links (delete p (nxt L)) (delete p (prv L)).

(** Body of the [remove*List] functions. *)
Definition unlink (L : links) (hd : option ptr) (p : ptr) : option (links * option ptr) :=
  prev ← prv L !! p;
  next ← nxt L !! p;
  '(L, hd) ← match prev with
             | Some q => L ← put_nxt L q next; Some (L, hd)
             | None => Some (L, next)
             end;
  next ← nxt L !! p;
  L ← match next with
      | Some q => prev ← prv L !! p; put_prv L q prev
      | None => Some L
      end;
  L ← put_nxt L p None;
  L ← put_prv L p None;
  Some (L, hd).

(** Tail of the [insertFree*List] functions, after the search. *)
Definition link_between (L : links) (hd : option ptr) (p : ptr) (prev curr : option ptr)
    : option (links * option ptr) :=
  L ← put_nxt L p curr;
  L ← put_prv L p prev;
  '(L, hd) ← match prev with
             | Some q => L ← put_nxt L q (Some p); Some (L, hd)
             | None => Some (L, Some p)
             end;
  L ← match curr with Some q => put_prv L q (Some p) | None => Some L end;
  Some (L, hd).

(** Body of [insertUsedList]. *)
Definition push_front (L : links) (hd : option ptr) (p : ptr) : option (links * option ptr) :=
  L ← put_nxt L p hd;
  L ← match hd with Some q => put_prv L q (Some p) | None => Some L end;
  Some (L, Some p).

(** The two merges of [page_t::release]: [q->next = p->next], and the back
    pointer of the new successor. *)
Definition bypass (L : links) (q p : ptr) : option links :=
  next ← nxt L !! p;
  L ← put_nxt L q next;
  match next with Some r => put_prv L r (Some q) | None => Some L end.

(** The search loop [while (curr && cond(curr)) { prev = curr; curr = curr->next; }]. *)
Fixpoint walk (fuel : nat) (nx : gmap ptr (option ptr)) (cond : ptr -> option bool)
    (prev curr : option ptr) : option (option ptr * option ptr) :=
  match curr with
  | None => Some (prev, None)
  | Some c =>
      go ← cond c;
      if go : bool then
        match fuel with
        | O => None
        | S fuel => next ← nx !! c; walk fuel nx cond (Some c) next
        end
      else Some (prev, Some c)
  end.

(** ** The list the links spell *)

Definition cell (L : links) (p : ptr) : Prop := is_Some (nxt L !! p) /\ is_Some (prv L !! p).

Record dll (L : links) (hd : option ptr) (l : list ptr) : Prop := {
  dll_head : hd = head l;
  dll_nodup : NoDup l;
  dll_links : forall a p b, l = a ++ p :: b ->
    nxt L !! p = Some (head b) /\ prv L !! p = Some (last a)
}.

(** [L'] keeps the cells of [L]. *)
Definition keeps (L L' : links) : Prop := forall q, cell L q -> cell L' q.

Lemma keeps_refl L : keeps L L.
Proof. by intros q. Qed.
Lemma keeps_trans L1 L2 L3 : keeps L1 L2 -> keeps L2 L3 -> keeps L1 L3.
Proof. unfold keeps. auto. Qed.

#[export] Hint Resolve keeps_refl : grx.

Lemma put_nxt_cell L p v : cell L p ->
  put_nxt L p v = Some (Links (<[p := v]> (nxt L)) (prv L)).
Proof. intros [[x Hx] _]. unfold put_nxt. by rewrite Hx. Qed.

Lemma put_prv_cell L p v : cell L p ->
  put_prv L p v = Some (Links (nxt L) (<[p := v]> (prv L))).
Proof. intros [_ [x Hx]]. unfold put_prv. by rewrite Hx. Qed.

Lemma keeps_nxt L p v : keeps L (Links (<[p := v]> (nxt L)) (prv L)).
Proof.
  intros q [? ?]. split; cbn; [|done]. destruct (decide (p = q)) as [->|];
    [by rewrite lookup_insert_eq|by rewrite lookup_insert_ne].
Qed.

Lemma keeps_prv L p v : keeps L (Links (nxt L) (<[p := v]> (prv L))).
Proof.
  intros q [? ?]. split; cbn; [done|]. destruct (decide (p = q)) as [->|];
    [by rewrite lookup_insert_eq|by rewrite lookup_insert_ne].
Qed.

#[export] Hint Resolve keeps_nxt keeps_prv : grx.

Lemma keeps_put_nxt L L' p v : put_nxt L p v = Some L' -> keeps L L'.
Proof. unfold put_nxt. destruct (nxt L !! p); intros; simplify_option_eq. apply keeps_nxt. Qed.
Lemma keeps_put_prv L L' p v : put_prv L p v = Some L' -> keeps L L'.
Proof. unfold put_prv. destruct (prv L !! p); intros; simplify_option_eq. apply keeps_prv. Qed.

Lemma dll_cell L hd l p : dll L hd l -> p ∈ l -> cell L p.
Proof.
  intros HD (a & b & ->)%list_elem_of_split.
  unfold cell. destruct (dll_links _ _ _ HD a p b eq_refl) as [-> ->]. split; eauto.
Qed.

(** Where an element of a concatenation sits. *)
Lemma app_split_elem {A} (l1 l2 a b : list A) x : l1 ++ l2 = a ++ x :: b ->
  (exists c, l1 = a ++ x :: c /\ b = c ++ l2) \/ (exists c, l2 = c ++ x :: b /\ a = l1 ++ c).
Proof.
  intros (k & [[-> E]|[-> E]])%app_eq_app.
  - destruct k as [|y k]; cbn in *; simplify_eq.
    + right. exists []. by rewrite !app_nil_r.
    + left. by exists k.
  - right. by exists k.
Qed.

Lemma last_in {A} (l : list A) x : last l = Some x -> x ∈ l.
Proof. intros (l' & ->)%last_Some. apply list_elem_of_In, in_or_app. right. by left. Qed.

Lemma head_in {A} (l : list A) x : head l = Some x -> x ∈ l.
Proof. destruct l; cbn; intros; simplify_eq. by left. Qed.

(** Decompose [l = a ++ p :: b] facts about concatenations. *)
Ltac dll_split H :=
  let c := fresh "c" in
  apply app_split_elem in H as [(c & -> & ->)|(c & -> & ->)].

Lemma not_elem_app_cons {A} (l1 l2 : list A) p : NoDup (l1 ++ p :: l2) ->
  (p ∉ l1) /\ (p ∉ l2) /\ NoDup (l1 ++ l2).
Proof.
  intros H. rewrite <- Permutation_middle in H. apply list.NoDup_cons in H as [H1 H2].
  rewrite elem_of_app in H1. tauto.
Qed.

(** The cells around a removal point: the last of [l1] is not in [l2] etc. *)
Lemma nodup_last {A} (a c : list A) q x : NoDup (a ++ q :: c) -> last c = Some x -> q <> x.
Proof.
  intros H Hx ->. apply list.NoDup_app in H as (_ & _ & H). apply list.NoDup_cons in H as [H _].
  by apply H, last_in.
Qed.

Lemma nodup_head {A} (c b : list A) q x : NoDup (c ++ q :: b) -> head c = Some x -> q <> x.
Proof.
  intros H Hx ->. apply list.NoDup_app in H as (_ & H & _). apply (H x); [by apply head_in|by left].
Qed.

(** Links after [l1 ++ l2] lost the elements between: the last of [l1] now
    points to the head of [l2] and back, every other cell is as in [L]. *)
Lemma dll_join L L' (l1 m l2 : list ptr) : NoDup (l1 ++ l2) ->
  (forall a p b, l1 ++ m ++ l2 = a ++ p :: b ->
    nxt L !! p = Some (head b) /\ prv L !! p = Some (last a)) ->
  (forall q, q ∈ l1 -> last l1 <> Some q -> nxt L' !! q = nxt L !! q) ->
  (forall q, last l1 = Some q -> nxt L' !! q = Some (head l2)) ->
  (forall q, q ∈ l1 -> prv L' !! q = prv L !! q) ->
  (forall q, q ∈ l2 -> nxt L' !! q = nxt L !! q) ->
  (forall q, q ∈ l2 -> head l2 <> Some q -> prv L' !! q = prv L !! q) ->
  (forall q, head l2 = Some q -> prv L' !! q = Some (last l1)) ->
  dll L' (head (l1 ++ l2)) (l1 ++ l2).
Proof.
  intros HN HL H1 H2 H3 H4 H5 H6. split; [done|done|]. intros a p b E. dll_split E.
  - specialize (HL a p (c ++ m ++ l2)). rewrite <- app_assoc in HL. destruct (HL eq_refl) as [F1 F2].
    assert (Hp : p ∈ a ++ p :: c) by (apply elem_of_app; right; left).
    split; [|by rewrite H3].
    destruct c as [|x c]; cbn [app].
    + apply H2. apply last_snoc.
    + rewrite H1; [by rewrite F1|done|]. rewrite last_app. cbn.
      destruct (last (x :: c)) as [y|] eqn:Ey; [|by apply last_None in Ey].
      rewrite <- app_assoc in HN. apply list.NoDup_app in HN as (_ & _ & HN).
      cbn in HN. apply list.NoDup_cons in HN as [HN _]. rewrite last_cons in Ey.
      intros Heq. apply HN. rewrite app_comm_cons. apply elem_of_app. left. apply last_in.
      rewrite last_cons. destruct (last c); congruence.
  - specialize (HL (l1 ++ m ++ c) p b). rewrite <- !app_assoc in HL. destruct (HL eq_refl) as [F1 F2].
    assert (Hp : p ∈ c ++ p :: b) by (apply elem_of_app; right; left).
    split; [by rewrite H4|].
    destruct c as [|x c].
    + rewrite app_nil_r. by apply H6.
    + rewrite H5; [|done|].
      * rewrite F2, !last_app. destruct (last (x :: c)) eqn:Ey; [done|]. by apply last_None in Ey.
      * cbn. intros [= ->]. apply list.NoDup_app in HN as (_ & _ & HN). cbn in HN.
        apply list.NoDup_cons in HN as [HN _]. apply HN. apply elem_of_app. right. left.
Qed.

Lemma dll_insert_at L L' (l1 l2 : list ptr) p : NoDup (l1 ++ p :: l2) ->
  (forall a q b, l1 ++ l2 = a ++ q :: b ->
    nxt L !! q = Some (head b) /\ prv L !! q = Some (last a)) ->
  (forall q, q ∈ l1 ++ l2 -> last l1 <> Some q -> nxt L' !! q = nxt L !! q) ->
  (forall q, last l1 = Some q -> nxt L' !! q = Some (Some p)) ->
  (forall q, q ∈ l1 ++ l2 -> head l2 <> Some q -> prv L' !! q = prv L !! q) ->
  (forall q, head l2 = Some q -> prv L' !! q = Some (Some p)) ->
  nxt L' !! p = Some (head l2) -> prv L' !! p = Some (last l1) ->
  dll L' (head (l1 ++ p :: l2)) (l1 ++ p :: l2).
Proof.
  intros HN HL H1 H2 H3 H4 H5 H6. destruct (not_elem_app_cons _ _ _ HN) as (Hp1 & Hp2 & HN').
  split; [done|done|]. intros a q b E.
  apply app_split_elem in E as [(c & -> & ->)|(c & E & ->)].
  - specialize (HL a q (c ++ l2)). rewrite <- app_assoc in HL. destruct (HL eq_refl) as [F1 F2].
    assert (Hq : q ∈ (a ++ q :: c) ++ l2) by (rewrite !elem_of_app; left; right; left).
    split.
    + destruct (last c) as [y|] eqn:Ey.
      * assert (q <> y).
        { rewrite <- app_assoc in HN. apply list.NoDup_app in HN as (_ & _ & HN).
          apply list.NoDup_cons in HN as [HN _]. intros ->. apply HN.
          apply elem_of_app. left. by apply last_in. }
        rewrite H1; [|done|].
        -- rewrite F1. destruct c; [done|done].
        -- rewrite last_app. cbn. rewrite last_cons, Ey. congruence.
      * apply last_None in Ey as ->. apply H2. apply last_snoc.
    + rewrite H3; [done|done|]. intros Eh. apply head_in in Eh.
      apply list.NoDup_app in HN' as (_ & HN' & _). apply (HN' q); [|done].
      apply elem_of_app. right. left.
  - destruct c as [|x c]; cbn in E; simplify_eq; [by rewrite app_nil_r|].
    specialize (HL (l1 ++ c) q b). rewrite <- app_assoc in HL. destruct (HL eq_refl) as [F1 F2].
    assert (Hq : q ∈ l1 ++ c ++ q :: b) by (rewrite !elem_of_app; right; right; left).
    split.
    + rewrite H1; [done|done|]. intros Eh. apply last_in in Eh.
      apply list.NoDup_app in HN' as (_ & HN' & _). apply (HN' q); [done|].
      apply elem_of_app. right. left.
    + destruct c as [|y c].
      * rewrite H4 by done. by rewrite last_snoc.
      * rewrite H3; [|done|].
        -- rewrite F2, !last_app, !last_cons. by destruct (last c).
        -- cbn. intros [= ->]. apply list.NoDup_app in HN' as (_ & _ & HN'). cbn in HN'.
           apply list.NoDup_cons in HN' as [HN' _]. apply HN'. apply elem_of_app. right. left.
Qed.

(** Lookups in updated link maps. *)
Ltac lk :=
  cbn [nxt prv];
  repeat first
    [ rewrite lookup_insert_eq
    | rewrite lookup_insert_ne by (done || congruence) ].

(** Liveness of cells through updates. *)
Lemma insert_live {A} (m : gmap ptr A) i x j : is_Some (m !! j) -> is_Some (<[i := x]> m !! j).
Proof. rewrite lookup_insert_is_Some'. by right. Qed.

Ltac cells :=
  unfold keeps; intros;
  repeat match goal with H : cell _ _ |- _ => destruct H end;
  split; cbn [nxt prv]; repeat apply insert_live; assumption.

Lemma unlink_spec L hd l1 p l2 : dll L hd (l1 ++ p :: l2) ->
  exists L', unlink L hd p = Some (L', head (l1 ++ l2)) /\ dll L' (head (l1 ++ l2)) (l1 ++ l2) /\
    keeps L L' /\ prv L' !! p = Some None /\
    (forall q, q ∉ l1 ++ p :: l2 -> prv L' !! q = prv L !! q).
Proof.
  intros HD. destruct (dll_links _ _ _ HD l1 p l2 eq_refl) as [Hn Hp].
  destruct (not_elem_app_cons _ _ _ (dll_nodup _ _ _ HD)) as (Hp1 & Hp2 & HN).
  assert (Hc : forall q, q ∈ l1 ++ p :: l2 -> cell L q) by (intros; by eapply dll_cell).
  assert (Cp : cell L p) by (apply Hc, elem_of_app; right; left).
  assert (Hl : forall q, last l1 = Some q -> q <> p /\ cell L q).
  { intros q Hq%last_in. split; [by intros ->|]. apply Hc, elem_of_app. by left. }
  assert (Hr : forall q, head l2 = Some q -> q <> p /\ cell L q).
  { intros q Hq%head_in. split; [by intros ->|]. apply Hc, elem_of_app. right. by right. }
  set (nx := match last l1 with Some q => <[q := head l2]> (nxt L) | None => nxt L end).
  set (pv := match head l2 with Some q => <[q := last l1]> (prv L) | None => prv L end).
  assert (E : unlink L hd p = Some (Links (<[p := None]> nx) (<[p := None]> pv), head (l1 ++ l2))).
  { unfold unlink. rewrite Hp, Hn. cbn [mbind option_bind].
    destruct (last l1) as [q|] eqn:El.
    - destruct (Hl q eq_refl) as [Hne Cq]. rewrite put_nxt_cell by done. cbn.
      rewrite lookup_insert_ne by done. rewrite Hn. cbn.
      rewrite (dll_head _ _ _ HD).
      replace (head (l1 ++ p :: l2)) with (head (l1 ++ l2)) by (by destruct l1).
      destruct (head l2) as [r|] eqn:Er; cbn; [destruct (Hr r eq_refl) as [Hne' Cr]|];
        rewrite ?Hp; cbn; do 3 (rewrite ?put_prv_cell, ?put_nxt_cell by cells; cbn); done.
    - cbn. rewrite Hn. cbn. apply last_None in El as Enil.
      assert (Eh : head (l1 ++ l2) = head l2) by (by rewrite Enil). rewrite Eh.
      destruct (head l2) as [r|] eqn:Er; cbn; [destruct (Hr r eq_refl) as [Hne' Cr]|];
        rewrite ?Hp; cbn; do 3 (rewrite ?put_prv_cell, ?put_nxt_cell by cells; cbn); done. }
  eexists. split; [exact E|]. split.
  - apply (dll_join L _ l1 [p] l2); [done|apply HD|..]; intros q Hq; try intros Hq';
      (assert (q <> p) by (intros ->; try apply last_in in Hq; try apply head_in in Hq; done));
      lk; unfold nx, pv.
    + destruct (last l1); [|done]. by lk.
    + rewrite Hq. by lk.
    + destruct (head l2) as [r|] eqn:Er; [|done]. apply list.NoDup_app in HN as (_ & HN & _).
      assert (r <> q) by (intros ->; by apply (HN q), head_in). by lk.
    + destruct (last l1) as [r|] eqn:Er; [|done]. apply list.NoDup_app in HN as (_ & HN & _).
      assert (r <> q) by (intros ->; by apply last_in, HN in Er). by lk.
    + destruct (head l2); [|done]. by lk.
    + rewrite Hq. by lk.
  - split_and!.
    + unfold nx, pv. destruct (last l1), (head l2); cells.
    + by lk.
    + intros q Hq. rewrite elem_of_app, elem_of_cons in Hq. assert (q <> p) by tauto. lk. unfold pv.
      destruct (head l2) as [r|] eqn:Er; [|done]. apply head_in in Er.
      assert (r <> q) by (intros ->; tauto). by lk.
Qed.

Lemma bypass_spec L hd l1 q p l2 : dll L hd (l1 ++ q :: p :: l2) ->
  exists L', bypass L q p = Some L' /\ dll L' hd (l1 ++ q :: l2) /\ keeps L L' /\
    (forall r, r ∉ l2 -> prv L' !! r = prv L !! r).
Proof.
  intros HD. rewrite cons_middle, app_assoc in HD.
  destruct (dll_links _ _ _ HD _ p l2 eq_refl) as [Hn Hp].
  destruct (not_elem_app_cons _ _ _ (dll_nodup _ _ _ HD)) as (Hp1 & Hp2 & HN).
  assert (Hc : forall r, r ∈ (l1 ++ [q]) ++ p :: l2 -> cell L r) by (intros; by eapply dll_cell).
  assert (Cq : cell L q) by (apply Hc; rewrite !elem_of_app; left; right; left).
  assert (Hl : last (l1 ++ [q]) = Some q) by apply last_snoc. rewrite Hl in Hp.
  set (pv := match head l2 with Some r => <[r := Some q]> (prv L) | None => prv L end).
  assert (E : bypass L q p = Some (Links (<[q := head l2]> (nxt L)) pv)).
  { unfold bypass. rewrite Hn. cbn. rewrite put_nxt_cell by done. cbn. unfold pv.
    destruct (head l2) as [r|] eqn:Er; [|done]. rewrite put_prv_cell; [done|].
    assert (cell L r); [|cells]. apply Hc. rewrite elem_of_app, !elem_of_cons.
    apply head_in in Er. tauto. }
  eexists. split; [exact E|].
  assert (EH : hd = head ((l1 ++ [q]) ++ l2)).
  { rewrite (dll_head _ _ _ HD). by destruct l1. }
  split_and!.
  - rewrite (cons_middle q), app_assoc, EH.
    apply (dll_join L _ (l1 ++ [q]) [p] l2); [done|apply HD|..]; rewrite ?Hl; intros r Hr; try intros Hr'.
    + by lk.
    + simplify_eq. by lk.
    + lk. unfold pv. destruct (head l2) as [x|] eqn:Ex; [|done]. apply list.NoDup_app in HN as (_ & HN & _).
      assert (x <> r) by (intros ->; by apply (HN r), head_in). by lk.
    + apply list.NoDup_app in HN as (_ & HN & _). assert (q <> r); [|by lk].
      intros ->. apply (HN r); [|done]. apply elem_of_app. right. left.
    + cbn. unfold pv. destruct (head l2); [|done]. by lk.
    + cbn. unfold pv. rewrite Hr. by lk.
  - unfold pv. destruct (head l2); cells.
  - intros r Hr. cbn. unfold pv. destruct (head l2) as [x|] eqn:Ex; [|done]. apply head_in in Ex.
    assert (x <> r) by (by intros ->). by lk.
Qed.

Lemma link_between_spec L hd l1 p l2 : dll L hd (l1 ++ l2) -> p ∉ l1 ++ l2 -> cell L p ->
  exists L', link_between L hd p (last l1) (head l2) = Some (L', head (l1 ++ p :: l2)) /\
    dll L' (head (l1 ++ p :: l2)) (l1 ++ p :: l2) /\ keeps L L'.
Proof.
  intros HD Hp Cp. rewrite elem_of_app in Hp.
  assert (Hc : forall q, q ∈ l1 ++ l2 -> cell L q) by (intros; by eapply dll_cell).
  assert (Hl : forall q, last l1 = Some q -> q <> p /\ cell L q).
  { intros q Hq%last_in. split; [intros ->; tauto|]. apply Hc, elem_of_app. by left. }
  assert (Hr : forall q, head l2 = Some q -> q <> p /\ cell L q).
  { intros q Hq%head_in. split; [intros ->; tauto|]. apply Hc, elem_of_app. by right. }
  set (nx := <[p := head l2]> (nxt L)). set (pv := <[p := last l1]> (prv L)).
  set (nx' := match last l1 with Some q => <[q := Some p]> nx | None => nx end).
  set (pv' := match head l2 with Some q => <[q := Some p]> pv | None => pv end).
  assert (E : link_between L hd p (last l1) (head l2) = Some (Links nx' pv', head (l1 ++ p :: l2))).
  { unfold link_between. do 2 (rewrite ?put_nxt_cell, ?put_prv_cell by cells; cbn).
    unfold nx', pv', nx, pv. clear nx nx' pv pv'.
    destruct (last l1) as [q|] eqn:El.
    - destruct (Hl q eq_refl) as [Hne Cq]. rewrite put_nxt_cell by cells. cbn.
      rewrite (dll_head _ _ _ HD).
      replace (head (l1 ++ p :: l2)) with (head (l1 ++ l2)) by (by destruct l1).
      destruct (head l2) as [r|] eqn:Er; cbn; [|done].
      destruct (Hr r eq_refl). rewrite put_prv_cell by cells. done.
    - cbn. apply last_None in El as ->. cbn. destruct (head l2) as [r|] eqn:Er; cbn; [|done].
      destruct (Hr r eq_refl). rewrite put_prv_cell by cells. done. }
  eexists. split; [exact E|]. split.
  - apply (dll_insert_at L); [|apply HD|..].
    + rewrite <- Permutation_middle. apply list.NoDup_cons. rewrite elem_of_app. split; [tauto|apply HD].
    + intros q Hq Hq'. assert (q <> p) by (intros ->; rewrite elem_of_app in Hq; tauto).
      cbn. unfold nx'. destruct (last l1); unfold nx; by lk.
    + intros q Hq. cbn. unfold nx'. rewrite Hq. by lk.
    + intros q Hq Hq'. assert (q <> p) by (intros ->; rewrite elem_of_app in Hq; tauto).
      cbn. unfold pv'. destruct (head l2); unfold pv; by lk.
    + intros q Hq. cbn. unfold pv'. rewrite Hq. by lk.
    + cbn. unfold nx', nx. destruct (last l1) as [q|] eqn:El; [destruct (Hl q eq_refl)|]; by lk.
    + cbn. unfold pv', pv. destruct (head l2) as [q|] eqn:El; [destruct (Hr q eq_refl)|]; by lk.
  - unfold nx', pv', nx, pv. destruct (last l1), (head l2); cells.
Qed.

Lemma push_front_spec L hd p l : dll L hd l -> p ∉ l -> is_Some (nxt L !! p) -> prv L !! p = Some None ->
  exists L', push_front L hd p = Some (L', Some p) /\ dll L' (Some p) (p :: l) /\ keeps L L' /\
    (forall q, q ∉ l -> prv L' !! q = prv L !! q).
Proof.
  intros HD Hp Hn Hv. assert (Cp : cell L p) by (split; [done|by eexists]).
  assert (Hc : forall q, head l = Some q -> q <> p /\ cell L q).
  { intros q Hq%head_in. split; [by intros ->|by eapply dll_cell]. }
  set (pv := match head l with Some q => <[q := Some p]> (prv L) | None => prv L end).
  exists (Links (<[p := head l]> (nxt L)) pv). split_and!.
  - unfold push_front. rewrite (dll_head _ _ _ HD), put_nxt_cell by done. cbn. unfold pv.
    destruct (head l) as [q|]; [|done]. destruct (Hc q eq_refl). rewrite put_prv_cell by cells. done.
  - apply (dll_insert_at L _ [] l p); cbn [app last].
    + apply list.NoDup_cons. split; [done|apply HD].
    + apply HD.
    + intros q Hq _. assert (q <> p) by (by intros ->). by lk.
    + done.
    + intros q Hq Hq'. cbn. unfold pv. destruct (head l); by lk.
    + intros q Hq. cbn. unfold pv. rewrite Hq. by lk.
    + by lk.
    + cbn. unfold pv. destruct (head l) as [q|]; [destruct (Hc q eq_refl)|]; by lk.
  - unfold pv. destruct (head l); cells.
  - intros q Hq. cbn. unfold pv. destruct (head l) as [r|] eqn:E; [|done].
    apply head_in in E. assert (r <> q) by (by intros ->). by lk.
Qed.

Lemma walk_spec L hd cond a b l2 fuel : dll L hd (a ++ b ++ l2) ->
  Forall (fun x => cond x = Some true) b ->
  (forall c, head l2 = Some c -> cond c = Some false) -> (length b <= fuel)%nat ->
  walk fuel (nxt L) cond (last a) (head (b ++ l2)) = Some (last (a ++ b), head l2).
Proof.
  intros HD HF Hs. revert a fuel HD. induction HF as [|x b Hx HF IH]; intros a fuel HD Hf.
  - rewrite app_nil_r. cbn. destruct (head l2) as [c|] eqn:E; destruct fuel; cbn; try done;
      by rewrite (Hs c eq_refl).
  - cbn in Hf. destruct fuel as [|fuel]; [lia|]. cbn. rewrite Hx. cbn.
    destruct (dll_links _ _ _ HD a x (b ++ l2) eq_refl) as [-> _]. cbn.
    rewrite <- (last_snoc x a). rewrite (IH (a ++ [x])); [|by rewrite <- app_assoc|lia].
    by rewrite <- app_assoc.
Qed.

Lemma walk_head L hd cond b l2 fuel : dll L hd (b ++ l2) ->
  Forall (fun x => cond x = Some true) b ->
  (forall c, head l2 = Some c -> cond c = Some false) -> (length b <= fuel)%nat ->
  walk fuel (nxt L) cond None hd = Some (last b, head l2).
Proof. intros HD. rewrite (dll_head _ _ _ HD). by apply (walk_spec L hd cond [] b l2). Qed.

Lemma dll_del L hd l p : dll L hd l -> p ∉ l -> dll (del_links L p) hd l.
Proof.
  intros HD Hp. split; [apply HD|apply HD|]. intros a q b ->.
  assert (p <> q). { intros ->. apply Hp, elem_of_app. right. left. }
  cbn. rewrite !lookup_delete_ne by done. by apply HD.
Qed.

Lemma dll_new L hd l p : dll L hd l -> p ∉ l -> dll (new_links L p) hd l.
Proof.
  intros HD Hp. split; [apply HD|apply HD|]. intros a q b ->.
  assert (p <> q). { intros ->. apply Hp, elem_of_app. right. left. }
  cbn. rewrite !lookup_insert_ne by done. by apply HD.
Qed.
