(* ===== verification/MemAlloc.v ===== *)
(** * Device memory allocator

    [sw/common/mem_alloc.h]: pages of free and used blocks, each page with a
    list of used blocks, a free list sorted by size (best fit) and a free list
    sorted by address (merging), all three intrusive and doubly linked.  The
    blocks of a page live in one map per field of [block_t]; a block pointer is
    a [ptr], and a page pointer is its position in the sorted page list.  An
    operation that would dereference a null or deleted block, fail an [assert]
    or loop beyond the number of live blocks is [None]; an error return of the
    source is [inl].  [page_rep] relates a page to the sequence of its blocks
    in address order, and the theorems at the end are about the resulting set
    of allocations. *)

From Stdlib Require Import Sorting.Sorted.
From S2P Require Import Prelude Dll.

(** ** Blocks and pages *)

(** [page_t] with the blocks it owns: the link fields of [block_t] in [linkU]
    ([nextUsed]/[prevUsed]), [linkS] and [linkM], its [addr] and [size] in
    [b_addr] and [b_size]; [b_fresh] is the next pointer [new] returns. *)
Record page_t := {
  pg_addr : Z;
  pg_size : Z;
  blockAlign_ : Z;
  usedList_ : option ptr;
  freeSList_ : option ptr;
  freeMList_ : option ptr;
  linkU : links;
  linkS : links;
  linkM : links;
  b_addr : gmap ptr Z;
  b_size : gmap ptr Z;
  b_fresh : ptr
}.

(** [new block_t(addr, size)] *)
Definition new_block (pg : page_t) (addr size : Z) : page_t * ptr :=
  let p := b_fresh pg in
  ({| pg_addr := pg_addr pg; pg_size := pg_size pg; blockAlign_ := blockAlign_ pg;
      usedList_ := usedList_ pg; freeSList_ := freeSList_ pg; freeMList_ := freeMList_ pg;
      linkU := new_links (linkU pg) p; linkS := new_links (linkS pg) p; linkM := new_links (linkM pg) p;
      b_addr := <[p := addr]> (b_addr pg); b_size := <[p := size]> (b_size pg);
      b_fresh := Pos.succ p |}, p).

(** [delete block] *)
Definition delete_block (pg : page_t) (p : ptr) : page_t :=
  {| pg_addr := pg_addr pg; pg_size := pg_size pg; blockAlign_ := blockAlign_ pg;
     usedList_ := usedList_ pg; freeSList_ := freeSList_ pg; freeMList_ := freeMList_ pg;
     linkU := del_links (linkU pg) p; linkS := del_links (linkS pg) p; linkM := del_links (linkM pg) p;
     b_addr := delete p (b_addr pg); b_size := delete p (b_size pg); b_fresh := b_fresh pg |}.

Definition insertUsedList (pg : page_t) (block : ptr) : option page_t :=
  '(L, hd) ← push_front (linkU pg) (usedList_ pg) block;
  Some (pg <| linkU := L |> <| usedList_ := hd |>).

Definition removeUsedList (pg : page_t) (block : ptr) : option page_t :=
  '(L, hd) ← unlink (linkU pg) (usedList_ pg) block;
  Some (pg <| linkU := L |> <| usedList_ := hd |>).

Definition insertFreeMList (pg : page_t) (block : ptr) : option page_t :=
  addr ← b_addr pg !! block;
  '(prev, curr) ← walk (size (b_addr pg)) (nxt (linkM pg))
    (fun c => a ← b_addr pg !! c; Some (a <? addr)) None (freeMList_ pg);
  '(L, hd) ← link_between (linkM pg) (freeMList_ pg) block prev curr;
  Some (pg <| linkM := L |> <| freeMList_ := hd |>).

Definition removeFreeMList (pg : page_t) (block : ptr) : option page_t :=
  '(L, hd) ← unlink (linkM pg) (freeMList_ pg) block;
  Some (pg <| linkM := L |> <| freeMList_ := hd |>).

Definition insertFreeSList (pg : page_t) (block : ptr) : option page_t :=
  sz ← b_size pg !! block;
  '(prev, curr) ← walk (size (b_addr pg)) (nxt (linkS pg))
    (fun c => s ← b_size pg !! c; Some (s >? sz)) None (freeSList_ pg);
  '(L, hd) ← link_between (linkS pg) (freeSList_ pg) block prev curr;
  Some (pg <| linkS := L |> <| freeSList_ := hd |>).

Definition removeFreeSList (pg : page_t) (block : ptr) : option page_t :=
  '(L, hd) ← unlink (linkS pg) (freeSList_ pg) block;
  Some (pg <| linkS := L |> <| freeSList_ := hd |>).

Definition no_links : links := Links ∅ ∅.

(** [page_t::page_t] *)
Definition new_page (addr sz blockAlign : Z) : page_t :=
  let '(pg, p) := new_block {| pg_addr := addr; pg_size := sz; blockAlign_ := blockAlign;
    usedList_ := None; freeSList_ := None; freeMList_ := None;
    linkU := no_links; linkS := no_links; linkM := no_links;
    b_addr := ∅; b_size := ∅; b_fresh := 1%positive |} addr sz in
  pg <| freeSList_ := Some p |> <| freeMList_ := Some p |>.

(** [page_t::~page_t]: the assertions. *)
Definition page_dtor_ok (pg : page_t) : bool :=
  bool_decide (usedList_ pg = None) &&
  match freeMList_ pg with
  | None => false
  | Some p => bool_decide (nxt (linkM pg) !! p = Some None) && bool_decide (prv (linkM pg) !! p = Some None)
  end.

Definition page_empty (pg : page_t) : bool := bool_decide (usedList_ pg = None).

(** [page_t::allocate] *)
Definition page_allocate (pg : page_t) (sz : Z) (freeBlock : ptr) : option page_t :=
  pg ← removeFreeMList pg freeBlock;
  pg ← removeFreeSList pg freeBlock;
  bsz ← b_size pg !! freeBlock;
  let extraBytes := u64 (bsz - sz) in
  pg ← (if extraBytes >=? blockAlign_ pg then
          let pg := pg <| b_size ::= fun m => <[freeBlock := sz]> m |> in
          a ← b_addr pg !! freeBlock;
          let '(pg, newBlock) := new_block pg (u64 (a + sz)) extraBytes in
          pg ← insertFreeMList pg newBlock;
          insertFreeSList pg newBlock
        else Some pg);
  insertUsedList pg freeBlock.

(** Merge block [p] into its address-order predecessor [q]: grow [q], bypass
    [p].  Both halves of [page_t::release] do this. *)
Definition absorb (pg : page_t) (q p : ptr) : option page_t :=
  sq ← b_size pg !! q; sp ← b_size pg !! p;
  L ← bypass (linkM pg) q p;
  Some (pg <| b_size ::= fun m => <[q := u64 (sq + sp)]> m |> <| linkM := L |>).

(** Left merge of [page_t::release]: the block that now stands for [usedBlock]. *)
Definition merge_left (pg : page_t) (usedBlock : ptr) : option (page_t * ptr) :=
  prev ← prv (linkM pg) !! usedBlock;
  match prev with
  | None => Some (pg, usedBlock)
  | Some prevBlock =>
      pa ← b_addr pg !! prevBlock; ps ← b_size pg !! prevBlock; a ← b_addr pg !! usedBlock;
      if a =? u64 (pa + ps) then
        pg ← absorb pg prevBlock usedBlock;
        pg ← removeFreeSList pg prevBlock;
        Some (delete_block pg usedBlock, prevBlock)
      else Some (pg, usedBlock)
  end.

(** Right merge of [page_t::release]. *)
Definition merge_right (pg : page_t) (usedBlock : ptr) : option page_t :=
  next ← nxt (linkM pg) !! usedBlock;
  match next with
  | None => Some pg
  | Some nextBlock =>
      a ← b_addr pg !! usedBlock; s ← b_size pg !! usedBlock; na ← b_addr pg !! nextBlock;
      if na =? u64 (a + s) then
        pg ← absorb pg usedBlock nextBlock;
        pg ← removeFreeSList pg nextBlock;
        Some (delete_block pg nextBlock)
      else Some pg
  end.

(** [page_t::release] *)
Definition page_release (pg : page_t) (usedBlock : ptr) : option page_t :=
  pg ← removeUsedList pg usedBlock;
  pg ← insertFreeMList pg usedBlock;
  '(pg, usedBlock) ← merge_left pg usedBlock;
  pg ← merge_right pg usedBlock;
  insertFreeSList pg usedBlock.

(** [page_t::findFreeBlock]: [Some None] is the null result. *)
Definition findFreeBlock (pg : page_t) (sz : Z) : option (option ptr) :=
  let fits c := s ← b_size pg !! c; Some (s >=? sz) in
  match freeSList_ pg with
  | None => Some None
  | Some freeBlock =>
      ok ← fits freeBlock;
      if ok : bool then
        next ← nxt (linkS pg) !! freeBlock;
        '(prev, _) ← walk (size (b_addr pg)) (nxt (linkS pg)) fits (Some freeBlock) next;
        Some prev
      else Some None
  end.

(** [page_t::findUsedBlock] *)
Definition findUsedBlock (pg : page_t) (addr : Z) : option (option ptr) :=
  if (addr >=? pg_addr pg) && (addr <? u64 (pg_addr pg + pg_size pg)) then
    '(_, curr) ← walk (size (b_addr pg)) (nxt (linkU pg))
      (fun c => a ← b_addr pg !! c; Some (negb (a =? addr))) None (usedList_ pg);
    Some curr
  else Some None.

(** ** The allocator *)

Record MemoryAllocator := {
  baseAddress_ : Z;
  capacity_ : Z;
  pageAlign_ : Z;
  ma_blockAlign_ : Z;
  pages_ : list page_t;
  allocated_ : Z
}.

Definition MemoryAllocator_init (baseAddress capacity pageAlign blockAlign : Z) : MemoryAllocator :=
  {| baseAddress_ := baseAddress; capacity_ := capacity; pageAlign_ := pageAlign;
     ma_blockAlign_ := blockAlign; pages_ := []; allocated_ := 0 |}.

Definition ma_free (m : MemoryAllocator) : Z := u64 (capacity_ m - allocated_ m).

(** [alignSize], with its assertion. *)
Definition alignSize (sz alignment : Z) : option Z :=
  if Z.land alignment (u64 (alignment - 1)) =? 0
  then Some (Z.land (u64 (sz + alignment - 1)) (u64 (Z.lnot (alignment - 1))))
  else None.

(** Insertion after the pages below [addr]: the loop of [createPage]. *)
Fixpoint insert_after (pages : list page_t) (pg : page_t) : list page_t * nat :=
  match pages with
  | [] => ([pg], 0%nat)
  | q :: rest =>
      if pg_addr q <? pg_addr pg
      then let '(l, i) := insert_after rest pg in (q :: l, S i)
      else (pg :: pages, 0%nat)
  end.

(** [createPage]: the new page list and the position of the new page. *)
Definition createPage (m : MemoryAllocator) (addr sz : Z) : MemoryAllocator * nat :=
  let newPage := new_page addr sz (ma_blockAlign_ m) in
  let '(l, i) :=
    match pages_ m with
    | [] => ([newPage], 0%nat)
    | q :: rest =>
        if pg_addr q >? pg_addr newPage then (newPage :: pages_ m, 0%nat)
        else let '(l, i) := insert_after rest newPage in (q :: l, S i)
    end in
  (m <| pages_ := l |>, i).

(** [deletePage], with the assertions of the page destructor. *)
Definition deletePage (m : MemoryAllocator) (i : nat) : option MemoryAllocator :=
  pg ← pages_ m !! i;
  if page_dtor_ok pg then Some (m <| pages_ := delete i (pages_ m) |>) else None.

(** The loop of [findNextAddress]. *)
Fixpoint next_gap (pages : list page_t) (endOfLastPage sz limit : Z) : option Z :=
  match pages with
  | [] => if u64 (endOfLastPage + sz) <=? limit then Some endOfLastPage else None
  | pg :: rest =>
      if u64 (endOfLastPage + sz) <=? pg_addr pg then Some endOfLastPage
      else next_gap rest (u64 (pg_addr pg + pg_size pg)) sz limit
  end.

Definition findNextAddress (m : MemoryAllocator) (sz : Z) : option Z :=
  match pages_ m with
  | [] => Some (baseAddress_ m)
  | pages => next_gap pages (baseAddress_ m) sz (u64 (baseAddress_ m + capacity_ m))
  end.

Definition hasPageOverlap (m : MemoryAllocator) (start sz : Z) : bool :=
  existsb (fun pg => (start <? u64 (pg_addr pg + pg_size pg)) && (u64 (start + sz) >? pg_addr pg)) (pages_ m).

(** First page on which [f] finds a block: its position and the block. *)
Fixpoint find_block (f : page_t -> option (option ptr)) (pages : list page_t) : option (option (nat * ptr)) :=
  match pages with
  | [] => Some None
  | pg :: rest =>
      r ← f pg;
      match r with
      | Some p => Some (Some (0%nat, p))
      | None => r ← find_block f rest;
               Some (match r with Some (i, p) => Some (S i, p) | None => None end)
      end
  end.

(** Run a page operation on page [i]. *)
Definition on_page (m : MemoryAllocator) (i : nat) (f : page_t -> option page_t) : option MemoryAllocator :=
  pg ← pages_ m !! i; pg ← f pg; Some (m <| pages_ ::= fun l => <[i := pg]> l |>).

(** [MemoryAllocator::reserve]: [false] is the error return. *)
Definition ma_reserve (m : MemoryAllocator) (addr sz : Z) : option (MemoryAllocator * bool) :=
  if sz =? 0 then Some (m, false)
  else
    sz ← alignSize sz (pageAlign_ m);
    if u64 (addr + sz) >? u64 (baseAddress_ m + capacity_ m) then Some (m, false)
    else if hasPageOverlap m addr sz then Some (m, false)
    else
      let '(m, i) := createPage m addr sz in
      pg ← pages_ m !! i;
      freeBlock ← findFreeBlock pg sz;
      freeBlock ← freeBlock;
      m ← on_page m i (fun pg => page_allocate pg sz freeBlock);
      Some (m <| allocated_ := u64 (allocated_ m + sz) |>, true).

(** The free block [allocate] uses: an existing one, or the one of a new page. *)
Definition ma_find_or_create (m : MemoryAllocator) (sz : Z) : option (MemoryAllocator * option (nat * ptr)) :=
  r ← find_block (fun pg => findFreeBlock pg sz) (pages_ m);
  match r with
  | Some ip => Some (m, Some ip)
  | None =>
      pageSize ← alignSize sz (pageAlign_ m);
      match findNextAddress m pageSize with
      | None => Some (m, None)
      | Some pageAddr =>
          let '(m, i) := createPage m pageAddr pageSize in
          pg ← pages_ m !! i;
          r ← findFreeBlock pg sz;
          p ← r;
          Some (m, Some (i, p))
      end
  end.

(** [MemoryAllocator::allocate] with a non-null result pointer: the address,
    or [None] for the error return. *)
Definition ma_allocate (m : MemoryAllocator) (sz : Z) : option (MemoryAllocator * option Z) :=
  if sz =? 0 then Some (m, None)
  else
    sz ← alignSize sz (ma_blockAlign_ m);
    '(m, r) ← ma_find_or_create m sz;
    match r with
    | None => Some (m, None)
    | Some (i, freeBlock) =>
        m ← on_page m i (fun pg => page_allocate pg sz freeBlock);
        pg ← pages_ m !! i;
        addr ← b_addr pg !! freeBlock;
        Some (m <| allocated_ := u64 (allocated_ m + sz) |>, Some addr)
    end.

(** [MemoryAllocator::release]: [false] is the error return. *)
Definition ma_release (m : MemoryAllocator) (addr : Z) : option (MemoryAllocator * bool) :=
  r ← find_block (fun pg => findUsedBlock pg addr) (pages_ m);
  match r with
  | None => Some (m, false)
  | Some (i, usedBlock) =>
      pg ← pages_ m !! i;
      sz ← b_size pg !! usedBlock;
      m ← on_page m i (fun pg => page_release pg usedBlock);
      pg ← pages_ m !! i;
      m ← (if page_empty pg then deletePage m i else Some m);
      Some (m <| allocated_ := u64 (allocated_ m - sz) |>, true)
  end.

(** ** List representation of a page *)

Definition pdata (pg : page_t) := (pg_addr pg, pg_size pg, blockAlign_ pg, b_addr pg, b_size pg, b_fresh pg).

Definition live (pg : page_t) (p : ptr) : Prop := is_Some (b_addr pg !! p).

Record lists (pg : page_t) (us ms ss : list ptr) : Prop := {
  ls_U : dll (linkU pg) (usedList_ pg) us;
  ls_M : dll (linkM pg) (freeMList_ pg) ms;
  ls_S : dll (linkS pg) (freeSList_ pg) ss;
  ls_live : forall p, p ∈ us ++ ms ++ ss -> live pg p;
  ls_size : forall p, live pg p -> is_Some (b_size pg !! p);
  ls_cells : forall p, live pg p -> cell (linkU pg) p /\ cell (linkM pg) p /\ cell (linkS pg) p;
  ls_unused : forall p, live pg p -> p ∉ us -> prv (linkU pg) !! p = Some None;
  ls_fresh : forall p, live pg p -> (p < b_fresh pg)%positive
}.

Lemma nodup_live_size pg l : NoDup l -> (forall p, p ∈ l -> live pg p) -> (length l <= size (b_addr pg))%nat.
Proof.
  intros HN HL. rewrite <- size_dom, <- (size_list_to_set (C := gset ptr) l HN).
  apply subseteq_size. intros p Hp%elem_of_list_to_set. apply elem_of_dom. by apply HL.
Qed.

Lemma removeFreeMList_spec pg us m1 p m2 ss : lists pg us (m1 ++ p :: m2) ss ->
  exists pg', removeFreeMList pg p = Some pg' /\ lists pg' us (m1 ++ m2) ss /\ pdata pg' = pdata pg.
Proof.
  intros HL. destruct (unlink_spec _ _ _ _ _ (ls_M _ _ _ _ HL)) as (L' & E & HD & HK & _).
  unfold removeFreeMList. rewrite E. cbn. eexists. split; [done|]. split; [|done].
  destruct HL. split; cbn; unfold const; try done.
  - intros q Hq. apply ls_live0. set_solver.
  - intros q Hq. destruct (ls_cells0 q Hq) as (? & ? & ?). auto.
Qed.

Lemma removeFreeSList_spec pg us ms s1 p s2 : lists pg us ms (s1 ++ p :: s2) ->
  exists pg', removeFreeSList pg p = Some pg' /\ lists pg' us ms (s1 ++ s2) /\ pdata pg' = pdata pg.
Proof.
  intros HL. destruct (unlink_spec _ _ _ _ _ (ls_S _ _ _ _ HL)) as (L' & E & HD & HK & _).
  unfold removeFreeSList. rewrite E. cbn. eexists. split; [done|]. split; [|done].
  destruct HL. split; cbn; unfold const; try done.
  - intros q Hq. apply ls_live0. set_solver.
  - intros q Hq. destruct (ls_cells0 q Hq) as (? & ? & ?). auto.
Qed.

Lemma removeUsedList_spec pg u1 p u2 ms ss : lists pg (u1 ++ p :: u2) ms ss ->
  exists pg', removeUsedList pg p = Some pg' /\ lists pg' (u1 ++ u2) ms ss /\ pdata pg' = pdata pg.
Proof.
  intros HL. destruct (unlink_spec _ _ _ _ _ (ls_U _ _ _ _ HL)) as (L' & E & HD & HK & Hp & Hf).
  unfold removeUsedList. rewrite E. cbn. eexists. split; [done|]. split; [|done].
  destruct HL. split; cbn; unfold const; try done.
  - intros q Hq. apply ls_live0. set_solver.
  - intros q Hq. destruct (ls_cells0 q Hq) as (? & ? & ?). auto.
  - intros q Hq Hn. destruct (decide (q = p)) as [->|]; [done|]. rewrite Hf by set_solver.
    apply ls_unused0; [done|set_solver].
Qed.

Lemma insertUsedList_spec pg us ms ss p : lists pg us ms ss -> live pg p -> p ∉ us ->
  exists pg', insertUsedList pg p = Some pg' /\ lists pg' (p :: us) ms ss /\ pdata pg' = pdata pg.
Proof.
  intros HL Hp Hn.
  destruct (push_front_spec (linkU pg) (usedList_ pg) p us) as (L' & E & HD & HK & Hf);
    [apply HL|done|by apply (ls_cells _ _ _ _ HL p Hp)|by apply (ls_unused _ _ _ _ HL)|].
  unfold insertUsedList. rewrite E. cbn. eexists. split; [done|]. split; [|done].
  destruct HL. split; cbn; unfold const; try done.
  - intros q Hq. destruct (decide (q = p)) as [->|]; [done|]. apply ls_live0. set_solver.
  - intros q Hq. destruct (ls_cells0 q Hq) as (? & ? & ?). auto.
  - intros q Hq Hnq. rewrite Hf by set_solver. apply ls_unused0; [done|set_solver].
Qed.

Lemma insertFreeMList_spec pg us m1 m2 ss p a : lists pg us (m1 ++ m2) ss -> p ∉ m1 ++ m2 ->
  b_addr pg !! p = Some a ->
  Forall (fun q => exists b, b_addr pg !! q = Some b /\ b < a) m1 ->
  (forall q, head m2 = Some q -> exists b, b_addr pg !! q = Some b /\ a <= b) ->
  exists pg', insertFreeMList pg p = Some pg' /\ lists pg' us (m1 ++ p :: m2) ss /\ pdata pg' = pdata pg.
Proof.
  intros HL Hn Ha H1 H2. assert (Hp : live pg p) by by eexists.
  unfold insertFreeMList. rewrite Ha. cbn.
  pose proof (ls_M _ _ _ _ HL) as HD.
  rewrite (walk_head (linkM pg) _ _ m1 m2 _ HD); cbn.
  2:{ eapply Forall_impl; [|exact H1]. intros q (b & -> & ?). cbn. f_equal. by apply Z.ltb_lt. }
  2:{ intros q Hq. destruct (H2 q Hq) as (b & -> & ?). cbn. f_equal. by apply Z.ltb_ge. }
  2:{ apply nodup_live_size.
      - pose proof (dll_nodup _ _ _ HD) as HN. by apply list.NoDup_app in HN as (? & _).
      - intros q Hq. apply HL. set_solver. }
  destruct (link_between_spec _ _ m1 p m2 HD Hn) as (L' & E & HD' & HK);
    [by apply (ls_cells _ _ _ _ HL p Hp)|].
  rewrite E. cbn. eexists. split; [done|]. split; [|done].
  destruct HL. split; cbn; unfold const; try done.
  - intros q Hq. destruct (decide (q = p)) as [->|]; [done|]. apply ls_live0. set_solver.
  - intros q Hq. destruct (ls_cells0 q Hq) as (? & ? & ?). auto.
Qed.

Definition szof (pg : page_t) (p : ptr) : Z := default 0 (b_size pg !! p).

(** The position where [insertFreeSList] stops. *)
Lemma size_split pg (ss : list ptr) sz : exists s1 s2, ss = s1 ++ s2 /\
  Forall (fun q => sz < szof pg q) s1 /\ (forall q, head s2 = Some q -> szof pg q <= sz).
Proof.
  induction ss as [|x ss (s1 & s2 & -> & H1 & H2)]; [by exists [], []|].
  destruct (Z.lt_ge_cases sz (szof pg x)) as [Hlt|Hge].
  - exists (x :: s1), s2. split; [done|]. split; [by constructor|done].
  - exists [], (x :: s1 ++ s2). split; [done|]. split; [constructor|]. intros q [= ->]. done.
Qed.

Definition desc (pg : page_t) : list ptr -> Prop := StronglySorted (fun p q => szof pg q <= szof pg p).

Lemma desc_tail_le pg s : desc pg s -> forall sz, (forall q, head s = Some q -> szof pg q <= sz) ->
  Forall (fun q => szof pg q <= sz) s.
Proof.
  intros HS sz Hh. destruct s as [|x s]; [done|]. specialize (Hh x eq_refl). invc HS.
  constructor; [done|]. eapply Forall_impl; [|eassumption]. cbn. lia.
Qed.

Lemma StronglySorted_insert pg s1 s2 p : desc pg (s1 ++ s2) ->
  Forall (fun q => szof pg p < szof pg q) s1 -> (forall q, head s2 = Some q -> szof pg q <= szof pg p) ->
  desc pg (s1 ++ p :: s2).
Proof.
  intros HS H1 H2. induction H1 as [|x s1 Hx H1 IH]; cbn in *.
  - constructor; [done|]. by apply desc_tail_le.
  - invc HS. constructor; [by apply IH|].
    match goal with H : Forall _ (s1 ++ s2) |- _ => apply Forall_app in H as [? ?] end.
    apply Forall_app. split; [done|]. constructor; [lia|done].
Qed.

Lemma insertFreeSList_spec pg us ms ss p : lists pg us ms ss -> desc pg ss -> p ∉ ss -> live pg p ->
  exists pg' ss', insertFreeSList pg p = Some pg' /\ lists pg' us ms ss' /\ pdata pg' = pdata pg /\
    ss' ≡ₚ p :: ss /\ desc pg ss'.
Proof.
  intros HL HS Hn Hp. destruct (ls_size _ _ _ _ HL p Hp) as [sz Hsz].
  destruct (size_split pg ss sz) as (s1 & s2 & -> & H1 & H2).
  unfold insertFreeSList. rewrite Hsz. cbn.
  pose proof (ls_S _ _ _ _ HL) as HD. 
  assert (Hlive : forall q, q ∈ s1 ++ s2 -> exists s, b_size pg !! q = Some s /\ szof pg q = s).
  { intros q Hq. destruct (ls_size _ _ _ _ HL q) as [s Hs]; [apply HL; set_solver|].
    exists s. unfold szof. by rewrite Hs. }
  rewrite (walk_head (linkS pg) _ _ s1 s2 _ HD); cbn.
  2:{ apply list.Forall_forall. intros q Hq. rewrite list.Forall_forall in H1. specialize (H1 q Hq).
      destruct (Hlive q) as (s & -> & <-); [set_solver|]. cbn. f_equal. apply Z.gtb_lt. lia. }
  2:{ intros q Hq. specialize (H2 q Hq). apply head_in in Hq.
      destruct (Hlive q) as (s & -> & <-); [set_solver|]. cbn. f_equal.
      rewrite Z.gtb_ltb. apply Z.ltb_ge. lia. }
  2:{ apply nodup_live_size.
      - pose proof (dll_nodup _ _ _ HD) as HN. by apply list.NoDup_app in HN as (? & _).
      - intros q Hq. apply HL. set_solver. }
  destruct (link_between_spec _ _ s1 p s2 HD Hn) as (L' & E & HD' & HK);
    [by apply (ls_cells _ _ _ _ HL p Hp)|].
  assert (Esz : szof pg p = sz) by (unfold szof; by rewrite Hsz).
  rewrite E. cbn. eexists _, (s1 ++ p :: s2). split; [done|]. split_and!; [|done| |].
  - destruct HL. split; cbn; unfold const; try done.
    + intros q Hq. destruct (decide (q = p)) as [->|]; [done|]. apply ls_live0. set_solver.
    + intros q Hq. destruct (ls_cells0 q Hq) as (? & ? & ?). auto.
  - by rewrite Permutation_middle.
  - apply StronglySorted_insert; rewrite ?Esz; done.
Qed.

Lemma fresh_not_live pg us ms ss : lists pg us ms ss -> ~ live pg (b_fresh pg).
Proof. intros HL Hf. apply (ls_fresh _ _ _ _ HL) in Hf. lia. Qed.

Lemma new_block_spec pg us ms ss a s : lists pg us ms ss ->
  lists (new_block pg a s).1 us ms ss /\ live (new_block pg a s).1 (b_fresh pg) /\
  b_fresh pg ∉ us ++ ms ++ ss.
Proof.
  intros HL. pose proof (fresh_not_live _ _ _ _ HL) as Hf.
  assert (Hni : b_fresh pg ∉ us ++ ms ++ ss) by (intros Hin; apply Hf; by apply HL).
  rewrite !elem_of_app in Hni.
  assert (Hlv : forall p, live (new_block pg a s).1 p <-> p = b_fresh pg \/ live pg p).
  { intros p. unfold live. cbn. rewrite lookup_insert_is_Some'. intuition congruence. }
  split; [|split; [apply Hlv; by left|rewrite !elem_of_app; tauto]].
  assert (Hc : forall L p, p = b_fresh pg \/ cell L p -> cell (new_links L (b_fresh pg)) p).
  { intros L p [->|[? ?]]; split; cbn; rewrite lookup_insert_is_Some'; auto. }
  destruct HL. split; try (apply dll_new; [done|tauto]).
  - intros p Hp. apply Hlv. right. by apply ls_live0.
  - intros p [->|Hp]%Hlv; cbn; rewrite lookup_insert_is_Some'; [by left|right; auto].
  - intros p [->|Hp]%Hlv; [cbn; split_and!; apply Hc; by left|]. destruct (ls_cells0 p Hp) as (? & ? & ?). cbn; split_and!; apply Hc; by right.
  - intros p Hp%Hlv Hn. cbn. destruct (decide (p = b_fresh pg)) as [->|Hne]; [by rewrite lookup_insert_eq|].
    rewrite lookup_insert_ne by done. destruct Hp as [->|Hp]; [done|]. by apply ls_unused0.
  - intros p [->|Hp]%Hlv; cbn; [lia|]. specialize (ls_fresh0 p Hp). lia.
Qed.

Lemma delete_block_spec pg us ms ss p : lists pg us ms ss -> p ∉ us ++ ms ++ ss ->
  lists (delete_block pg p) us ms ss.
Proof.
  intros HL Hn. rewrite !elem_of_app in Hn.
  assert (Hlv : forall q, live (delete_block pg p) q <-> q <> p /\ live pg q).
  { intros q. unfold live. cbn. rewrite lookup_delete_is_Some. intuition congruence. }
  assert (Hc : forall L q, q <> p -> cell L q -> cell (del_links L p) q).
  { intros L q Hne [? ?]. split; cbn; by rewrite lookup_delete_ne by done. }
  destruct HL. split; try (apply dll_del; [done|tauto]).
  - intros q Hq. apply Hlv. split; [|by apply ls_live0]. intros ->. rewrite !elem_of_app in Hq. tauto.
  - intros q [Hne Hq]%Hlv. cbn. rewrite lookup_delete_ne by done. auto.
  - intros q [Hne Hq]%Hlv. destruct (ls_cells0 q Hq) as (? & ? & ?). cbn. auto.
  - intros q [Hne Hq]%Hlv Hu. cbn. rewrite lookup_delete_ne by done. auto.
  - intros q [Hne Hq]%Hlv. cbn. auto.
Qed.

Lemma set_size_lists pg us ms ss q s : lists pg us ms ss ->
  lists (pg <| b_size ::= fun m => <[q := s]> m |>) us ms ss.
Proof.
  intros HL. destruct HL. split; cbn; try done.
  intros p Hp. rewrite lookup_insert_is_Some'. right. auto.
Qed.

Lemma absorb_spec pg us m1 q p m2 ss sq sp : lists pg us (m1 ++ q :: p :: m2) ss ->
  b_size pg !! q = Some sq -> b_size pg !! p = Some sp ->
  exists pg', absorb pg q p = Some pg' /\ lists pg' us (m1 ++ q :: m2) ss /\
    pdata pg' = (pg_addr pg, pg_size pg, blockAlign_ pg, b_addr pg, <[q := u64 (sq + sp)]> (b_size pg), b_fresh pg).
Proof.
  intros HL Hq Hp. destruct (bypass_spec _ _ _ _ _ _ (ls_M _ _ _ _ HL)) as (L' & E & HD & HK & _).
  unfold absorb. rewrite Hq, Hp, E. cbn. eexists. split; [done|]. split; [|done].
  destruct HL. split; cbn; unfold const; try done.
  - intros r Hr. apply ls_live0. set_solver.
  - intros r Hr. rewrite lookup_insert_is_Some'. right. auto.
  - intros r Hr. destruct (ls_cells0 r Hr) as (? & ? & ?). auto.
Qed.

(** ** Blocks of a page in address order *)

(** A block and whether it is in use. *)
Definition blk : Type := ptr * bool.

Fixpoint sel (u : bool) (l : list blk) : list ptr :=
  match l with
  | [] => []
  | (p, v) :: l => if eqb u v then p :: sel u l else sel u l
  end.

(** The blocks cover [a, e) without gap, each of positive aligned size. *)
Fixpoint tiled (al : Z) (ba bs : gmap ptr Z) (a : Z) (l : list blk) (e : Z) : Prop :=
  match l with
  | [] => a = e
  | (p, _) :: l => ba !! p = Some a /\
      exists s, bs !! p = Some s /\ 0 < s /\ (al | s) /\ tiled al ba bs (a + s) l e
  end.

(** No two adjacent free blocks; [pf]: the block before is free. *)
Fixpoint alt (pf : bool) (l : list blk) : Prop :=
  match l with
  | [] => True
  | (_, u) :: l => (pf = true -> u = true) /\ alt (negb u) l
  end.

Fixpoint lastfree (pf : bool) (l : list blk) : bool :=
  match l with
  | [] => pf
  | (_, u) :: l => lastfree (negb u) l
  end.

Lemma sel_app u l1 l2 : sel u (l1 ++ l2) = sel u l1 ++ sel u l2.
Proof. induction l1 as [|[p v] l1 IH]; [done|]. cbn. rewrite IH. by destruct (eqb u v). Qed.

Lemma alt_app pf l1 l2 : alt pf (l1 ++ l2) <-> alt pf l1 /\ alt (lastfree pf l1) l2.
Proof. revert pf. induction l1 as [|[p u] l1 IH]; intros pf; cbn; [tauto|]. rewrite IH. tauto. Qed.

Lemma lastfree_app pf l1 l2 : lastfree pf (l1 ++ l2) = lastfree (lastfree pf l1) l2.
Proof. revert pf. induction l1 as [|[p u] l1 IH]; intros pf; cbn; [done|]. apply IH. Qed.

Lemma all_used_lastfree l : sel false l = [] -> lastfree false l = false.
Proof. induction l as [|[p []] l IH]; cbn; done. Qed.

Lemma alt_weaken l : alt true l -> alt false l.
Proof. destruct l as [|[p u] l]; cbn; [done|]. tauto. Qed.

Lemma sel_elem u l p : p ∈ sel u l -> exists l1 l2, l = l1 ++ (p, u) :: l2.
Proof.
  induction l as [|[q v] l IH]; cbn; [set_solver|]. destruct (eqb u v) eqn:E.
  - apply eqb_prop in E as <-. intros [->|Hp]%elem_of_cons; [by exists [], l|].
    destruct (IH Hp) as (l1 & l2 & ->). by exists ((q, u) :: l1), l2.
  - intros Hp. destruct (IH Hp) as (l1 & l2 & ->). by exists ((q, v) :: l1), l2.
Qed.

Lemma sel_in u l p : p ∈ sel u l -> p ∈ l.*1.
Proof. intros (l1 & l2 & ->)%sel_elem. rewrite fmap_app. set_solver. Qed.

Lemma sel_nodup u l : NoDup l.*1 -> NoDup (sel u l).
Proof.
  induction l as [|[p v] l IH]; cbn; [intros; constructor|]. intros [H1 H2]%list.NoDup_cons.
  destruct (eqb u v); [|auto]. apply list.NoDup_cons. split; [|auto]. by intros ?%sel_in.
Qed.

Lemma sel_disjoint l p : NoDup l.*1 -> p ∈ sel true l -> p ∈ sel false l -> False.
Proof.
  intros HN (l1 & l2 & ->)%sel_elem. rewrite sel_app. cbn. rewrite fmap_app in HN. cbn in HN.
  destruct (not_elem_app_cons _ _ _ HN) as (? & ? & _).
  intros [?%sel_in|?%sel_in]%elem_of_app; done.
Qed.

Lemma sel_last_free l q : last (sel false l) = Some q ->
  exists l1 mid, l = l1 ++ (q, false) :: mid /\ sel false mid = [].
Proof.
  induction l as [|[p v] l IH] using rev_ind; [done|]. rewrite sel_app. cbn. destruct v; cbn.
  - rewrite app_nil_r. intros H. destruct (IH H) as (l1 & mid & -> & Hm).
    exists l1, (mid ++ [(p, true)]). rewrite <- app_assoc. split; [done|].
    rewrite sel_app, Hm. done.
  - rewrite last_snoc. intros [= ->]. by exists l, [].
Qed.

Lemma sel_head_free l q : head (sel false l) = Some q ->
  exists mid l2, l = mid ++ (q, false) :: l2 /\ sel false mid = [].
Proof.
  induction l as [|[p v] l IH]; [done|]. cbn. destruct v; cbn.
  - intros H. destruct (IH H) as (mid & l2 & -> & Hm). by exists ((p, true) :: mid), l2.
  - intros [= ->]. by exists [], l.
Qed.

Section Tiling.
Context (al : Z).

Lemma tiled_app ba bs a l1 l2 e : tiled al ba bs a (l1 ++ l2) e <->
  exists m, tiled al ba bs a l1 m /\ tiled al ba bs m l2 e.
Proof.
  revert a. induction l1 as [|[p u] l1 IH]; intros a; cbn.
  - split; [by exists a|]. by intros (m & -> & ?).
  - split.
    + intros (H1 & s & H2 & H3 & H4 & H5). apply IH in H5 as (m & ? & ?). exists m. eauto 10.
    + intros (m & (H1 & s & H2 & H3 & H4 & H5) & H6). split; [done|]. exists s.
      split_and!; try done. apply IH. eauto.
Qed.

Lemma tiled_le ba bs a l e : tiled al ba bs a l e -> a <= e /\ (l <> [] -> a < e).
Proof.
  revert a. induction l as [|[p u] l IH]; intros a; cbn; [intros ->; split; [lia|done]|].
  intros (_ & s & _ & Hs & _ & H). apply IH in H as [? _]. split; [lia|]. intros _. lia.
Qed.

Lemma tiled_elem ba bs a l e p : tiled al ba bs a l e -> p ∈ l.*1 ->
  exists b s, ba !! p = Some b /\ bs !! p = Some s /\ 0 < s /\ (al | s) /\ a <= b /\ b + s <= e.
Proof.
  revert a. induction l as [|[q u] l IH]; intros a; cbn; [set_solver|].
  intros (H1 & s & H2 & H3 & H4 & H5) [->|Hp]%elem_of_cons.
  - exists a, s. apply tiled_le in H5 as [? _]. split_and!; try done; lia.
  - destruct (IH _ H5 Hp) as (b & t & ? & ? & ? & ? & ? & ?). exists b, t. split_and!; try done; lia.
Qed.

Lemma tiled_ext ba bs ba' bs' a l e :
  (forall p, p ∈ l.*1 -> ba' !! p = ba !! p /\ bs' !! p = bs !! p) ->
  tiled al ba bs a l e -> tiled al ba' bs' a l e.
Proof.
  revert a. induction l as [|[q u] l IH]; intros a Hx; cbn; [done|].
  destruct (Hx q) as [E1 E2]; [left|]. rewrite E1, E2. intros (H1 & s & H2 & H3 & H4 & H5).
  split; [done|]. exists s. split_and!; try done. apply IH; [|done]. intros p Hp. apply Hx. by right.
Qed.

(** The use flags do not matter for the tiling. *)
Lemma tiled_flag ba bs a l1 p u v l2 e :
  tiled al ba bs a (l1 ++ (p, u) :: l2) e -> tiled al ba bs a (l1 ++ (p, v) :: l2) e.
Proof. rewrite !tiled_app. done. Qed.

End Tiling.

Record page_rep (pg : page_t) (bl : list blk) (us ss : list ptr) : Prop := {
  pr_lists : lists pg us (sel false bl) ss;
  pr_us : us ≡ₚ sel true bl;
  pr_ss : ss ≡ₚ sel false bl;
  pr_desc : desc pg ss;
  pr_tiled : tiled (blockAlign_ pg) (b_addr pg) (b_size pg) (pg_addr pg) bl (pg_addr pg + pg_size pg);
  pr_alt : alt false bl;
  pr_nodup : NoDup bl.*1;
  pr_base : 0 <= pg_addr pg;
  pr_end : pg_addr pg + pg_size pg < 2 ^ 64;
  pr_align : 0 < blockAlign_ pg
}.

(** The allocations of a page: address and size of the used blocks. *)
Definition block_at (pg : page_t) (p : ptr) : Z * Z := (default 0 (b_addr pg !! p), szof pg p).
Definition used_of (pg : page_t) (bl : list blk) : list (Z * Z) := map (block_at pg) (sel true bl).

Lemma desc_ext pg pg' s : (forall p, p ∈ s -> szof pg' p = szof pg p) -> desc pg s -> desc pg' s.
Proof.
  intros Hx HS. induction HS as [|p s HS IH HF]; [constructor|]. constructor.
  - apply IH. intros q Hq. apply Hx. by right.
  - rewrite list.Forall_forall in *. intros q Hq. rewrite !Hx by (by left || by right). by apply HF.
Qed.

Lemma desc_remove pg s1 p s2 : desc pg (s1 ++ p :: s2) -> desc pg (s1 ++ s2).
Proof.
  induction s1 as [|x s1 IH]; cbn; intros HS; invc HS; [done|]. constructor; [by apply IH|].
  match goal with H : Forall _ (s1 ++ p :: s2) |- _ => apply Forall_app in H as [? H]; invc H end.
  by apply Forall_app.
Qed.

Lemma used_of_ext pg pg' bl : (forall p, p ∈ sel true bl -> block_at pg' p = block_at pg p) ->
  used_of pg' bl = used_of pg bl.
Proof.
  intros Hx. apply map_ext_in. intros p Hp. apply Hx. by apply list_elem_of_In.
Qed.

Definition pconf (pg : page_t) := (pg_addr pg, pg_size pg, blockAlign_ pg).

(** Address ranges of the blocks around a block of a tiling. *)
Lemma tiled_around al ba bs a l1 p u l2 e : tiled al ba bs a (l1 ++ (p, u) :: l2) e ->
  exists m s, ba !! p = Some m /\ bs !! p = Some s /\ 0 < s /\ (al | s) /\
    tiled al ba bs a l1 m /\ tiled al ba bs (m + s) l2 e /\
    (forall q, q ∈ l1.*1 -> exists b t, ba !! q = Some b /\ bs !! q = Some t /\ 0 < t /\ a <= b /\ b + t <= m) /\
    (forall q, q ∈ l2.*1 -> exists b t, ba !! q = Some b /\ bs !! q = Some t /\ 0 < t /\ m + s <= b /\ b + t <= e).
Proof.
  rewrite tiled_app. intros (m & T1 & H1 & s & H2 & H3 & H4 & T2). exists m, s. split_and!; try done.
  - intros q Hq. destruct (tiled_elem _ _ _ _ _ _ _ T1 Hq) as (b & t & ? & ? & ? & ? & ? & ?). eauto 10.
  - intros q Hq. destruct (tiled_elem _ _ _ _ _ _ _ T2 Hq) as (b & t & ? & ? & ? & ? & ? & ?). eauto 10.
Qed.

(** Insertion of [q], at an address between the blocks [l1] and [l2], into the
    address-ordered free list. *)
Lemma insertFreeMList_between pg us l1 l2 ss q a :
  lists pg us (sel false l1 ++ sel false l2) ss -> q ∉ sel false l1 ++ sel false l2 ->
  b_addr pg !! q = Some a ->
  (forall x, x ∈ l1.*1 -> exists b, b_addr pg !! x = Some b /\ b < a) ->
  (forall x, x ∈ l2.*1 -> exists b, b_addr pg !! x = Some b /\ a <= b) ->
  exists pg', insertFreeMList pg q = Some pg' /\ lists pg' us (sel false l1 ++ q :: sel false l2) ss /\
    pdata pg' = pdata pg.
Proof.
  intros HL Hq Ha H1 H2. apply (insertFreeMList_spec pg us _ _ ss q a); try done.
  - apply list.Forall_forall. intros x Hx. by apply H1, (sel_in false).
  - intros x Hx%head_in. by apply H2, (sel_in false).
Qed.

(** A page whose block [x] is marked used but not yet in the used list. *)
Lemma insertUsedList_finish pg bl us ss x :
  lists pg us (sel false bl) ss -> x :: us ≡ₚ sel true bl -> ss ≡ₚ sel false bl -> desc pg ss ->
  tiled (blockAlign_ pg) (b_addr pg) (b_size pg) (pg_addr pg) bl (pg_addr pg + pg_size pg) ->
  alt false bl -> NoDup bl.*1 -> 0 <= pg_addr pg -> pg_addr pg + pg_size pg < 2 ^ 64 -> 0 < blockAlign_ pg ->
  exists pg', insertUsedList pg x = Some pg' /\ page_rep pg' bl (x :: us) ss /\ pdata pg' = pdata pg.
Proof.
  intros HL Hus Hss HD HT HA HN Hb He Hpos.
  assert (HNu : NoDup (x :: us)) by (rewrite Hus; by apply sel_nodup). apply list.NoDup_cons in HNu as [Hx _].
  assert (Hlv : live pg x).
  { unfold live. destruct (tiled_elem _ _ _ _ _ _ x HT) as (b & ? & -> & _); [|by eexists].
    apply (sel_in true). rewrite <- Hus. left. }
  destruct (insertUsedList_spec _ _ _ _ x HL Hlv Hx) as (pg' & E & HL' & D).
  exists pg'. split; [done|]. split; [|done]. unfold pdata in D. injection D as D1 D2 D3 D4 D5 D6.
  split; rewrite ?D1, ?D2, ?D3, ?D4, ?D5, ?D6; try done.
  apply (desc_ext pg); [|done]. intros. unfold szof. by rewrite D5.
Qed.

(** The block that [page_allocate] splits off, between [l1], [p] and [l2]. *)
Lemma allocate_split pg us l1 p l2 ss sz s a : let q := b_fresh pg in
  lists pg us (sel false l1 ++ sel false l2) ss -> ss ≡ₚ sel false l1 ++ sel false l2 -> desc pg ss ->
  tiled (blockAlign_ pg) (b_addr pg) (b_size pg) (pg_addr pg) (l1 ++ (p, true) :: l2) (pg_addr pg + pg_size pg) ->
  NoDup (l1 ++ (p, true) :: l2).*1 -> 0 <= pg_addr pg -> pg_addr pg + pg_size pg < 2 ^ 64 ->
  b_size pg !! p = Some s -> b_addr pg !! p = Some a -> 0 < sz < s -> (blockAlign_ pg | sz) ->
  let pg1 := (new_block (pg <| b_size ::= fun m => <[p := sz]> m |>) (u64 (a + sz)) (s - sz)).1 in
  exists pg2 pg3 ss', insertFreeMList pg1 q = Some pg2 /\ insertFreeSList pg2 q = Some pg3 /\
    lists pg3 us (sel false l1 ++ q :: sel false l2) ss' /\ ss' ≡ₚ q :: ss /\ desc pg3 ss' /\
    tiled (blockAlign_ pg) (b_addr pg3) (b_size pg3) (pg_addr pg) (l1 ++ (p, true) :: (q, false) :: l2)
      (pg_addr pg + pg_size pg) /\
    NoDup (l1 ++ (p, true) :: (q, false) :: l2).*1 /\ pdata pg3 = pdata pg1.
Proof.
  intros q HL Hss HD HT HN Hb He Hs Ha Hsz Hal pg1.
  destruct (tiled_around _ _ _ _ _ _ _ _ _ HT) as (m & s' & Ta & Ts & T0 & Td & T1 & T2 & TL & TR).
  simplify_eq. destruct (tiled_le _ _ _ _ _ _ T1) as [Hm1 _]. destruct (tiled_le _ _ _ _ _ _ T2) as [Hm2 _].
  set (pg0 := pg <| b_size ::= fun m => <[p := sz]> m |>) in *.
  destruct (new_block_spec pg0 us _ ss (u64 (a + sz)) (s - sz) (set_size_lists _ _ _ _ p sz HL)) as (HL1 & Hlq & Hnq).
  fold pg1 in HL1, Hlq.
  assert (Hq : forall x, is_Some (b_addr pg !! x) -> x <> q).
  { intros x Hx ->. by apply (fresh_not_live _ _ _ _ HL). }
  assert (Hqp : p <> q) by (apply Hq; by eexists).
  assert (Hq1 : forall x, x ∈ l1.*1 -> x <> q) by (intros x Hx; destruct (TL x Hx) as (? & ? & ? & _); apply Hq; by eexists).
  assert (Hq2 : forall x, x ∈ l2.*1 -> x <> q) by (intros x Hx; destruct (TR x Hx) as (? & ? & ? & _); apply Hq; by eexists).
  assert (EA : b_addr pg1 = <[q := a + sz]> (b_addr pg)).
  { cbn. rewrite wrap_small by (unfold in_u; lia). done. }
  assert (ES : b_size pg1 = <[q := s - sz]> (<[p := sz]> (b_size pg))) by done.
  clearbody pg1. rewrite fmap_app in HN. cbn in HN. destruct (not_elem_app_cons _ _ _ HN) as (Hp1 & Hp2 & HN').
  destruct (insertFreeMList_between pg1 us l1 l2 ss q (a + sz)) as (pg2 & E2 & HL2 & D2); [done|set_solver|..].
  { rewrite EA. by lk. }
  { intros x Hx. destruct (TL x Hx) as (b & t & Hb1 & _ & ? & ? & ?). exists b.
    specialize (Hq1 x Hx). rewrite EA. lk. split; [done|lia]. }
  { intros x Hx. destruct (TR x Hx) as (b & t & Hb1 & _ & ? & ? & ?). exists b.
    specialize (Hq2 x Hx). rewrite EA. lk. split; [done|lia]. }
  unfold pdata in D2. injection D2 as F1 F2 F3 F4 F5 F6.
  assert (HD2 : desc pg2 ss).
  { apply (desc_ext pg); [|done]. intros x Hx. unfold szof. rewrite F5, ES.
    assert (x ∈ l1.*1 \/ x ∈ l2.*1) as Hx'.
    { rewrite Hss in Hx. apply elem_of_app in Hx as [?%sel_in|?%sel_in]; auto. }
    assert (x <> q) by (destruct Hx'; auto). assert (x <> p) by (intros ->; tauto). by lk. }
  destruct (insertFreeSList_spec pg2 us _ ss q HL2 HD2) as (pg3 & ss' & E3 & HL3 & D3 & P3 & HD3); [set_solver| |].
  { unfold live. by rewrite F4. }
  exists pg2, pg3, ss'. split_and!; try done.
  - apply (desc_ext pg2); [|done]. intros. unfold pdata in D3. injection D3 as G1 G2 G3 G4 G5 G6.
    unfold szof. by rewrite G5.
  - unfold pdata in D3. injection D3 as G1 G2 G3 G4 G5 G6. rewrite G4, G5, F4, F5, EA, ES.
    rewrite tiled_app. exists a. split.
    + eapply tiled_ext; [|exact T1]. intros x Hx. specialize (Hq1 x Hx).
      assert (x <> p) by (by intros ->). by lk.
    + cbn. lk. split; [done|]. exists sz. split; [done|]. split; [lia|]. split; [done|]. lk. split; [done|].
      exists (s - sz). split; [by lk|]. split; [lia|]. split; [by apply Z.divide_sub_r|].
      replace (a + sz + (s - sz)) with (a + s) by lia.
      eapply tiled_ext; [|exact T2]. intros x Hx. specialize (Hq2 x Hx).
      assert (x <> p) by (by intros ->). by lk.
  - rewrite fmap_app. cbn. rewrite <- !Permutation_middle in *.
    apply list.NoDup_cons. split.
    + rewrite Permutation_middle. rewrite elem_of_app, elem_of_cons. intros [?|[?|?]]; try done.
    + apply list.NoDup_cons. split; [|done]. rewrite elem_of_app. intros [H|H].
      * by apply Hq1 in H.
      * by apply Hq2 in H.
  - unfold pdata in *. rewrite D3. congruence.
Qed.

Lemma page_allocate_spec pg l1 p l2 us ss sz s a :
  page_rep pg (l1 ++ (p, false) :: l2) us ss -> b_size pg !! p = Some s -> b_addr pg !! p = Some a ->
  0 < sz <= s -> (blockAlign_ pg | sz) ->
  exists pg' rest us' ss', page_allocate pg sz p = Some pg' /\
    page_rep pg' (l1 ++ (p, true) :: rest ++ l2) us' ss' /\ sel true rest = [] /\
    b_addr pg' !! p = Some a /\ block_at pg' p = (a, sz) /\
    (forall q, q ∈ sel true (l1 ++ l2) -> block_at pg' q = block_at pg q) /\ pconf pg' = pconf pg.
Proof.
  intros HR Hs Ha Hsz Hal. pose proof HR as [HL Hus Hss HD HT HA HN Hb He Hpos].
  rewrite sel_app in HL, Hss, Hus. cbn in HL, Hss, Hus.
  pose proof HN as HN0. rewrite fmap_app in HN. cbn in HN.
  destruct (not_elem_app_cons _ _ _ HN) as (Hp1 & Hp2 & HN').
  assert (Hps : p ∈ ss) by (rewrite Hss; set_solver).
  apply list_elem_of_split in Hps as (s1 & s2 & ->).
  assert (Hss' : s1 ++ s2 ≡ₚ sel false l1 ++ sel false l2).
  { apply (Permutation_cons_inv (a := p)). by rewrite !Permutation_middle. }
  destruct (removeFreeMList_spec _ _ _ _ _ _ HL) as (pg1 & E1 & L1 & D1).
  destruct (removeFreeSList_spec _ _ _ _ _ _ L1) as (pg2 & E2 & L2 & D2).
  rewrite D1 in D2. unfold pdata in D2. injection D2 as F1 F2 F3 F4 F5 F6.
  assert (HD2 : desc pg2 (s1 ++ s2)).
  { apply (desc_ext pg); [intros; unfold szof; by rewrite F5|]. by apply desc_remove in HD. }
  apply (tiled_flag _ _ _ _ _ _ _ true) in HT.
  unfold page_allocate. rewrite E1. cbn [mbind option_bind]. rewrite E2. cbn [mbind option_bind].
  rewrite F5, Hs. cbn [mbind option_bind]. rewrite F3.
  destruct (tiled_elem _ _ _ _ _ _ p HT) as (a' & s' & Ta & Ts & _ & Td & ? & ?); [rewrite fmap_app; set_solver|].
  simplify_eq. rewrite (wrap_small 64 (s - sz)) by (unfold in_u; lia).
  rewrite alt_app in HA. cbn in HA. destruct HA as (HA1 & HA2 & HA3).
  assert (Hus' : forall rest, sel true rest = [] -> p :: us ≡ₚ sel true (l1 ++ (p, true) :: rest ++ l2)).
  { intros rest Er. rewrite sel_app. cbn. rewrite sel_app, Er. cbn. rewrite <- Permutation_middle. by constructor. }
  assert (Hq : forall q, q ∈ sel true (l1 ++ l2) -> q <> p /\ live pg q).
  { intros q. rewrite sel_app. intros [Hq|Hq]%elem_of_app; apply sel_in in Hq;
      (split; [by intros ->|]);
      destruct (tiled_elem _ _ _ _ _ _ q HT) as (? & ? & ? & _);
      [rewrite fmap_app; set_solver|by eexists|rewrite fmap_app; set_solver|by eexists]. }
  destruct (Z.geb_spec (s - sz) (blockAlign_ pg)) as [Hge|Hlt].
  - destruct (allocate_split pg2 us l1 p l2 (s1 ++ s2) sz s a) as (pg3 & pg4 & ss' & E3 & E4 & L4 & P4 & HD4 & T4 & N4 & D4);
      rewrite ?F1, ?F2, ?F3, ?F4, ?F5; try done; [by rewrite fmap_app|lia|].
    rewrite F1, F2, F3 in T4. cbn zeta.
    assert (Ea : b_addr (pg2 <| b_size ::= fun m => <[p := sz]> m |>) !! p = Some a) by (cbn; by rewrite F4).
    rewrite Ea. cbn [mbind option_bind].
    change (new_block ?x ?y ?z) with ((new_block x y z).1, b_fresh pg2). cbn iota beta.
    rewrite E3. cbn [mbind option_bind]. rewrite E4. cbn [mbind option_bind].
    unfold pdata in D4. cbn -[wrap] in D4. injection D4 as G1 G2 G3 G4 G5 G6.
    rewrite wrap_small in G4 by (unfold in_u; lia).
    destruct (insertUsedList_finish pg4 (l1 ++ (p, true) :: [(b_fresh pg2, false)] ++ l2) us ss' p)
      as (pg5 & E5 & R5 & D5); rewrite ?G1, ?G2, ?G3, ?F1, ?F2, ?F3; try done; try (by apply Hus').
    + by rewrite sel_app.
    + rewrite P4, sel_app. cbn. rewrite <- Permutation_middle. by constructor.
    + rewrite alt_app. cbn. by split_and!.
    + exists pg5, [(b_fresh pg2, false)], (p :: us), ss'. unfold pdata in D5. injection D5 as I1 I2 I3 I4 I5 I6.
      assert (Hfr : forall q, live pg q -> b_fresh pg2 <> q).
      { intros q Hq' <-. apply (fresh_not_live _ _ _ _ L2). unfold live. rewrite F4. exact Hq'. }
      assert (b_fresh pg2 <> p) by (apply Hfr; by eexists).
      split_and!; try done.
      * rewrite I4, G4, F4. by lk.
      * unfold block_at, szof. rewrite I4, I5, G4, G5, F4, F5. lk. by rewrite Ha.
      * intros q Hq'. destruct (Hq q Hq') as [? ?%Hfr]. unfold block_at, szof.
        rewrite I4, I5, G4, G5, F4, F5. by lk.
      * unfold pconf. congruence.
  - assert (s = sz) as ->.
    { assert (blockAlign_ pg | s - sz) as Hd by (by apply Z.divide_sub_r). destruct (Z.eq_dec s sz); [done|]. apply Z.divide_pos_le in Hd; lia. }
    cbn [mbind option_bind].
    destruct (insertUsedList_finish pg2 (l1 ++ (p, true) :: [] ++ l2) us (s1 ++ s2) p)
      as (pg5 & E5 & R5 & D5); rewrite ?F1, ?F2, ?F3, ?F4, ?F5; try done; try (by apply Hus').
    + by rewrite sel_app.
    + by rewrite sel_app.
    + rewrite alt_app. cbn. split_and!; try done. by apply alt_weaken.
    + by rewrite fmap_app.
    + exists pg5, [], (p :: us), (s1 ++ s2). unfold pdata in D5. injection D5 as I1 I2 I3 I4 I5 I6.
      split_and!; try done.
      * by rewrite I4, F4.
      * unfold block_at, szof. rewrite I4, I5, F4, F5, Hs, Ha. done.
      * intros q Hq'. unfold block_at, szof. by rewrite I4, I5, F4, F5.
      * unfold pconf. congruence.
Qed.

(** A page whose free block [x] is in the address list but not yet in the size
    list, with [l1] before and [l2] after it. *)
Record semi (pg : page_t) (l1 : list blk) (x : ptr) (l2 : list blk) (us ss : list ptr) : Prop := {
  sm_lists : lists pg us (sel false l1 ++ x :: sel false l2) ss;
  sm_us : us ≡ₚ sel true (l1 ++ l2);
  sm_ss : ss ≡ₚ sel false (l1 ++ l2);
  sm_desc : desc pg ss;
  sm_tiled : tiled (blockAlign_ pg) (b_addr pg) (b_size pg) (pg_addr pg) (l1 ++ (x, false) :: l2)
    (pg_addr pg + pg_size pg);
  sm_alt1 : alt false l1;
  sm_alt2 : alt false l2;
  sm_nodup : NoDup (l1.*1 ++ x :: l2.*1);
  sm_base : 0 <= pg_addr pg;
  sm_end : pg_addr pg + pg_size pg < 2 ^ 64;
  sm_align : 0 < blockAlign_ pg
}.

Definition same_used (pg pg' : page_t) (us : list ptr) : Prop :=
  (forall q, q ∈ us -> block_at pg' q = block_at pg q) /\ pconf pg' = pconf pg.

Lemma absorb_semi pg l1 q p l2 us s1 r s2 :
  lists pg us (sel false l1 ++ q :: p :: sel false l2) (s1 ++ r :: s2) ->
  s1 ++ s2 ≡ₚ sel false (l1 ++ l2) -> us ≡ₚ sel true (l1 ++ l2) -> desc pg (s1 ++ r :: s2) ->
  tiled (blockAlign_ pg) (b_addr pg) (b_size pg) (pg_addr pg) (l1 ++ (q, false) :: (p, false) :: l2)
    (pg_addr pg + pg_size pg) ->
  alt false l1 -> alt false l2 -> NoDup (l1.*1 ++ q :: p :: l2.*1) ->
  0 <= pg_addr pg -> pg_addr pg + pg_size pg < 2 ^ 64 -> 0 < blockAlign_ pg ->
  exists pg', (pg ← absorb pg q p; pg ← removeFreeSList pg r; Some (delete_block pg p)) = Some pg' /\
    semi pg' l1 q l2 us (s1 ++ s2) /\ same_used pg pg' us.
Proof.
  intros HL Hss Hus HD HT HA1 HA2 HN Hb He Hpos.
  destruct (tiled_around _ _ _ _ _ _ _ _ _ HT) as (m & sq & Ta & Ts & T0 & Td & T1 & T2 & _ & _).
  destruct T2 as (Tp & sp & Tsp & Tp0 & Tdp & T3).
  destruct (tiled_le _ _ _ _ _ _ T1) as [Hm1 _]. destruct (tiled_le _ _ _ _ _ _ T3) as [Hm2 _].
  destruct (absorb_spec _ _ _ _ _ _ _ _ _ HL Ts Tsp) as (pg1 & E1 & L1 & D1).
  destruct (removeFreeSList_spec _ _ _ _ _ _ L1) as (pg2 & E2 & L2 & D2).
  rewrite D1 in D2. unfold pdata in D2. injection D2 as F1 F2 F3 F4 F5 F6.
  rewrite wrap_small in F5 by (unfold in_u; lia).
  exists (delete_block pg2 p). rewrite E1. cbn [mbind option_bind]. rewrite E2. split; [done|].
  rewrite cons_middle, app_assoc in HN. destruct (not_elem_app_cons _ _ _ HN) as (Hp1 & Hp2 & HN').
  rewrite <- app_assoc in HN'. cbn in HN'. rewrite elem_of_app, elem_of_cons in Hp1.
  destruct (not_elem_app_cons _ _ _ HN') as (Hq1 & Hq2 & _).
  assert (Hsel : forall u x, x ∈ sel u (l1 ++ l2) -> x <> p /\ x <> q).
  { intros u x. rewrite sel_app. intros [Hx|Hx]%elem_of_app; apply sel_in in Hx; split; intros ->; tauto. }
  assert (p <> q) by tauto.
  assert (HL' : lists (delete_block pg2 p) us (sel false l1 ++ q :: sel false l2) (s1 ++ s2)).
  { apply delete_block_spec; [done|]. rewrite !elem_of_app, elem_of_cons. intros [H1|[[H1|[->|H1]]|H1]].
    - rewrite Hus in H1. by apply Hsel in H1 as [? _].
    - apply sel_in in H1. tauto.
    - done.
    - by apply sel_in in H1.
    - rewrite <- elem_of_app, Hss in H1. by apply Hsel in H1 as [? _]. }
  split.
  - split; cbn; rewrite ?F1, ?F2, ?F3, ?F4, ?F5; try done.
    + apply (desc_ext pg); [|by apply desc_remove in HD].
      intros x Hx. rewrite Hss in Hx. apply Hsel in Hx as [? ?]. unfold szof. cbn. rewrite F5.
      rewrite lookup_delete_ne by done. by lk.
    + rewrite tiled_app. exists m. split.
      * eapply tiled_ext; [|exact T1]. intros x Hx. assert (p <> x) by (intros ->; tauto).
        assert (q <> x) by (by intros ->). rewrite !lookup_delete_ne by done. by lk.
      * cbn. rewrite !lookup_delete_ne by done. lk. split; [done|]. exists (sq + sp).
        split; [done|]. split; [lia|]. split; [by apply Z.divide_add_r|].
        replace (m + (sq + sp)) with (m + sq + sp) by lia.
        eapply tiled_ext; [|exact T3]. intros x Hx. assert (p <> x) by (by intros ->).
        assert (q <> x) by (by intros ->). rewrite !lookup_delete_ne by done. by lk.
  - split; [|unfold pconf; cbn; congruence]. intros x Hx. rewrite Hus in Hx. apply Hsel in Hx as [? ?].
    unfold block_at, szof. cbn. rewrite F4, F5, !lookup_delete_ne by done. by lk.
Qed.

Lemma merge_left_spec pg l1 x l2 us ss : semi pg l1 x l2 us ss ->
  exists pg' l1' x' ss', merge_left pg x = Some (pg', x') /\ semi pg' l1' x' l2 us ss' /\
    lastfree false l1' = false /\ same_used pg pg' us.
Proof.
  intros HS. pose proof HS as [HL Hus Hss HD HT HA1 HA2 HN Hb He Hpos].
  destruct (dll_links _ _ _ (ls_M _ _ _ _ HL) _ _ _ eq_refl) as [_ Hprv].
  destruct (tiled_around _ _ _ _ _ _ _ _ _ HT) as (m & s & Ta & Ts & T0 & _ & T1 & T2 & _ & _).
  destruct (tiled_le _ _ _ _ _ _ T2) as [Hm2 _].
  unfold merge_left. rewrite Hprv. cbn [mbind option_bind].
  destruct (last (sel false l1)) as [q|] eqn:El.
  - apply sel_last_free in El as (k & mid & -> & Hmid).
    destruct (tiled_around _ _ _ _ _ _ _ _ _ T1) as (mq & sq & Tqa & Tqs & Tq0 & _ & Tk & Tm & _ & _).
    destruct (tiled_le _ _ _ _ _ _ Tk) as [Hk _]. destruct (tiled_le _ _ _ _ _ _ Tm) as [Hmq Hmq'].
    rewrite Tqa, Tqs, Ta. cbn [mbind option_bind].
    rewrite wrap_small by (unfold in_u; lia).
    rewrite alt_app in HA1. cbn in HA1. destruct HA1 as (HA1 & HA1' & HA1'').
    destruct mid as [|y mid].
    + assert (mq + sq = m) as <- by exact Tm. rewrite Z.eqb_refl.
      rewrite <- app_assoc in HT. rewrite !sel_app in HL. rewrite !sel_app in Hss. rewrite !sel_app in Hus.
      cbn in HL, Hss, Hus.
      rewrite ?app_nil_r in *.
      assert (Hqs : q ∈ ss) by (rewrite Hss; set_solver). apply list_elem_of_split in Hqs as (s1 & s2 & ->).
      rewrite fmap_app in HN. cbn in HN. rewrite <- !app_assoc in HN, HL, Hss. cbn in HN, HL, Hss.
      destruct (absorb_semi pg k q x l2 us s1 q s2) as (pg' & E & HS' & HU); try done.
      * apply (Permutation_cons_inv (a := q)). rewrite !Permutation_middle, Hss, sel_app.
        by rewrite !Permutation_middle.
      * by rewrite sel_app.
      * exists pg', k, q, (s1 ++ s2).
        destruct (absorb pg q x) as [pg1|]; [|done]. cbn [mbind option_bind] in *.
        destruct (removeFreeSList pg1 q) as [pg2|]; [|done]. cbn [mbind option_bind] in *.
        injection E as <-. split; [done|]. split; [done|]. split; [|done].
        destruct (lastfree false k); [|done]. by specialize (HA1' eq_refl).
    + destruct (Z.eqb_spec m (mq + sq)) as [E|_]; [specialize (Hmq' ltac:(done)); lia|].
      exists pg, (k ++ (q, false) :: y :: mid), x, ss. split; [done|]. split; [done|]. split; [|done].
      rewrite lastfree_app. destruct y as [? []]; [|done]. cbn in *. by apply all_used_lastfree.
  - exists pg, l1, x, ss. split; [done|]. split; [done|]. split; [|done].
    apply last_None in El. by apply all_used_lastfree.
Qed.

Lemma merge_right_spec pg l1 x l2 us ss : semi pg l1 x l2 us ss ->
  exists pg' l2' ss', merge_right pg x = Some pg' /\ semi pg' l1 x l2' us ss' /\
    alt true l2' /\ same_used pg pg' us.
Proof.
  intros HS. pose proof HS as [HL Hus Hss HD HT HA1 HA2 HN Hb He Hpos].
  destruct (dll_links _ _ _ (ls_M _ _ _ _ HL) _ _ _ eq_refl) as [Hnxt _].
  destruct (tiled_around _ _ _ _ _ _ _ _ _ HT) as (m & s & Ta & Ts & T0 & _ & T1 & T2 & _ & _).
  destruct (tiled_le _ _ _ _ _ _ T1) as [Hm1 _]. destruct (tiled_le _ _ _ _ _ _ T2) as [Hm2 _].
  unfold merge_right. rewrite Hnxt. cbn [mbind option_bind].
  destruct (head (sel false l2)) as [q|] eqn:El.
  - apply sel_head_free in El as (mid & k & -> & Hmid).
    destruct (tiled_around _ _ _ _ _ _ _ _ _ T2) as (mq & sq & Tqa & Tqs & Tq0 & _ & Tk & Tm & _ & _).
    destruct (tiled_le _ _ _ _ _ _ Tk) as [Hk Hk'].
    rewrite Tqa, Ts, Ta. cbn [mbind option_bind]. rewrite wrap_small by (unfold in_u; lia).
    rewrite alt_app in HA2. cbn in HA2. destruct HA2 as (HA2 & HA2' & HA2'').
    destruct mid as [|y mid].
    + assert (m + s = mq) as <- by exact Tk. rewrite Z.eqb_refl.
      rewrite !sel_app in Hss, Hus. cbn in HL, Hss, Hus, HT, HN.
      assert (Hqs : q ∈ ss) by (rewrite Hss; set_solver). apply list_elem_of_split in Hqs as (s1 & s2 & ->).
      destruct (absorb_semi pg l1 x q k us s1 q s2) as (pg' & E & HS' & HU); try done.
      * apply (Permutation_cons_inv (a := q)). rewrite !Permutation_middle, Hss, sel_app.
        by rewrite !Permutation_middle.
      * by rewrite sel_app.
      * by apply alt_weaken.
      * exists pg', k, (s1 ++ s2).
        destruct (absorb pg x q) as [pg1|]; [|done]. cbn [mbind option_bind] in *.
        destruct (removeFreeSList pg1 q) as [pg2|]; [|done]. cbn [mbind option_bind] in *.
        injection E as <-. done.
    + destruct (Z.eqb_spec mq (m + s)) as [E|_]; [specialize (Hk' ltac:(done)); lia|].
      exists pg, ((y :: mid) ++ (q, false) :: k), ss. split; [done|]. split; [done|]. split; [|done].
      destruct y as [? []]; [|done]. destruct HA2 as [_ HA2]. cbn. split; [done|].
      rewrite alt_app. cbn in *. done.
  - exists pg, l2, ss. split; [done|]. split; [done|]. split; [|done].
    destruct l2 as [|[? []] l2]; cbn in *; [done| |done]. tauto.
Qed.

Lemma page_release_spec pg l1 p l2 us ss : page_rep pg (l1 ++ (p, true) :: l2) us ss ->
  exists pg' bl us' ss', page_release pg p = Some pg' /\ page_rep pg' bl us' ss' /\
    sel true bl ≡ₚ sel true (l1 ++ l2) /\ same_used pg pg' (sel true (l1 ++ l2)).
Proof.
  intros HR. pose proof HR as [HL Hus Hss HD HT HA HN Hb He Hpos].
  rewrite fmap_app in HN. cbn in HN. destruct (not_elem_app_cons _ _ _ HN) as (Hp1 & Hp2 & HN').
  rewrite sel_app in Hus, Hss, HL. cbn in Hus, Hss, HL.
  assert (Hps : p ∈ us) by (rewrite Hus; set_solver). apply list_elem_of_split in Hps as (u1 & u2 & ->).
  assert (Hus' : u1 ++ u2 ≡ₚ sel true (l1 ++ l2)).
  { apply (Permutation_cons_inv (a := p)). rewrite !Permutation_middle, Hus, sel_app.
    by rewrite !Permutation_middle. }
  destruct (removeUsedList_spec _ _ _ _ _ _ HL) as (pg1 & E1 & L1 & D1).
  unfold pdata in D1. injection D1 as F1 F2 F3 F4 F5 F6.
  destruct (tiled_around _ _ _ _ _ _ _ _ _ HT) as (m & s & Ta & Ts & T0 & _ & T1 & T2 & TL & TR).
  destruct (insertFreeMList_between pg1 (u1 ++ u2) l1 l2 ss p m) as (pg2 & E2 & L2 & D2); [done| |by rewrite F4|..].
  { rewrite elem_of_app. intros [?%sel_in|?%sel_in]; done. }
  { intros x Hx. destruct (TL x Hx) as (b & t & ? & _ & ? & ? & ?). exists b. rewrite F4. split; [done|lia]. }
  { intros x Hx. destruct (TR x Hx) as (b & t & ? & _ & ? & ? & ?). exists b. rewrite F4. split; [done|lia]. }
  unfold pdata in D2. injection D2 as G1 G2 G3 G4 G5 G6.
  rewrite alt_app in HA. cbn in HA. destruct HA as (HA1 & _ & HA2).
  assert (HS : semi pg2 l1 p l2 (u1 ++ u2) ss).
  { split; rewrite ?G1, ?G2, ?G3, ?G4, ?G5, ?F1, ?F2, ?F3, ?F4, ?F5; try done.
    - by rewrite sel_app.
    - apply (desc_ext pg); [|done]. intros. unfold szof. by rewrite G5, F5.
    - by apply (tiled_flag _ _ _ _ _ _ _ false) in HT. }
  destruct (merge_left_spec _ _ _ _ _ _ HS) as (pg3 & l1' & x & ss3 & E3 & S3 & Hlf & U3).
  destruct (merge_right_spec _ _ _ _ _ _ S3) as (pg4 & l2' & ss4 & E4 & S4 & Ha2 & U4).
  destruct S4 as [L4 Hus4 Hss4 HD4 HT4 HA14 HA24 HN4 Hb4 He4 Hpos4].
  destruct (not_elem_app_cons _ _ _ HN4) as (Hx1 & Hx2 & _).
  destruct (insertFreeSList_spec pg4 (u1 ++ u2) _ ss4 x L4 HD4) as (pg5 & ss5 & E5 & L5 & D5 & P5 & HD5).
  { rewrite Hss4, sel_app. intros [?%sel_in|?%sel_in]%elem_of_app; done. }
  { apply L4. rewrite !elem_of_app. right. left. right. left. }
  exists pg5, (l1' ++ (x, false) :: l2'), (u1 ++ u2), ss5.
  unfold pdata in D5. injection D5 as I1 I2 I3 I4 I5 I6.
  split_and!.
  - unfold page_release. rewrite E1. cbn [mbind option_bind]. rewrite E2. cbn [mbind option_bind].
    rewrite E3. cbn [mbind option_bind]. rewrite E4. done.
  - split; rewrite ?I1, ?I2, ?I3, ?I4, ?I5; try done.
    + by rewrite sel_app.
    + rewrite Hus4, !sel_app. done.
    + rewrite P5, Hss4, !sel_app. cbn. by rewrite Permutation_middle.
    + apply (desc_ext pg4); [|done]. intros. unfold szof. by rewrite I5.
    + rewrite alt_app, Hlf. cbn. done.
    + by rewrite fmap_app.
  - rewrite <- Hus', Hus4, !sel_app. done.
  - destruct U3 as [U3 C3], U4 as [U4 C4]. split.
    + intros q Hq. rewrite <- Hus' in Hq. transitivity (block_at pg4 q).
      { unfold block_at, szof. by rewrite I4, I5. }
      rewrite U4, U3 by done. unfold block_at, szof. by rewrite G4, G5, F4, F5.
    + unfold pconf in *. rewrite I1, I2, I3, C4, C3. congruence.
Qed.

(** ** The page interface: operations against the set of allocations *)

Lemma rep_live pg bl us ss p : page_rep pg bl us ss -> p ∈ bl.*1 ->
  exists a s, b_addr pg !! p = Some a /\ b_size pg !! p = Some s /\ 0 < s /\ (blockAlign_ pg | s) /\
    pg_addr pg <= a /\ a + s <= pg_addr pg + pg_size pg.
Proof. intros HR. apply tiled_elem, HR. Qed.

(** The prefix of a list on which a boolean test holds. *)
Lemma prefix_split {A} (f : A -> bool) (l : list A) : exists b r, l = b ++ r /\
  Forall (fun x => f x = true) b /\ (forall c, head r = Some c -> f c = false).
Proof.
  induction l as [|x l (b & r & -> & Hb & Hr)]; [by exists [], []|]. destruct (f x) eqn:E.
  - exists (x :: b), r. split; [done|]. split; [by constructor|done].
  - exists [], (x :: b ++ r). split; [done|]. split; [constructor|]. by intros c [= ->].
Qed.

Lemma last_min pg x b p : desc pg (x :: b) -> last (x :: b) = Some p ->
  forall q, q ∈ x :: b -> szof pg p <= szof pg q.
Proof.
  revert x. induction b as [|y b IH]; intros x HS Hl q Hq.
  - cbn in Hl. simplify_eq. apply list_elem_of_singleton in Hq as ->. lia.
  - invc HS. rewrite last_cons_cons in Hl. apply elem_of_cons in Hq as [->|Hq]; [|by apply (IH y)].
    match goal with H : Forall _ (y :: b) |- _ => rewrite list.Forall_forall in H; apply H end.
    by apply last_in.
Qed.

Lemma desc_app_r pg s1 s2 : desc pg (s1 ++ s2) -> desc pg s2.
Proof. induction s1 as [|x s1 IH]; [done|]. cbn. intros HS. invc HS. auto. Qed.
Lemma desc_app_l pg s1 s2 : desc pg (s1 ++ s2) -> desc pg s1.
Proof.
  induction s1 as [|x s1 IH]; [constructor|]. cbn. intros HS. invc HS. constructor; [by apply IH|].
  by apply Forall_app in H2 as [? _].
Qed.

(** Best fit: the smallest free block that is large enough. *)
Lemma findFreeBlock_spec pg bl us ss sz : page_rep pg bl us ss ->
  exists r, findFreeBlock pg sz = Some r /\
  match r with
  | Some p => p ∈ sel false bl /\ sz <= szof pg p /\
      forall q, q ∈ sel false bl -> sz <= szof pg q -> szof pg p <= szof pg q
  | None => forall q, q ∈ sel false bl -> szof pg q < sz
  end.
Proof.
  intros HR. pose proof HR as [HL _ Hss HD _ _ _ _ _ _]. pose proof (ls_S _ _ _ _ HL) as HS.
  assert (Hsz : forall q, q ∈ ss -> b_size pg !! q = Some (szof pg q)).
  { intros q Hq. rewrite Hss in Hq. apply sel_in in Hq.
    destruct (rep_live _ _ _ _ q HR Hq) as (? & s & _ & Hs & _). unfold szof. by rewrite Hs. }
  unfold findFreeBlock. rewrite (dll_head _ _ _ HS).
  destruct ss as [|x ss]; cbn [head].
  { exists None. split; [done|]. intros q. rewrite <- Hss. set_solver. }
  rewrite Hsz by left. cbn [mbind option_bind].
  destruct (Z.geb_spec (szof pg x) sz) as [Hge|Hlt].
  - destruct (dll_links _ _ _ HS [] x ss eq_refl) as [-> _]. cbn [mbind option_bind].
    destruct (prefix_split (fun q => szof pg q >=? sz) ss) as (b & r & -> & Hb & Hr).
    assert (Hb' : forall q, q ∈ x :: b -> sz <= szof pg q).
    { intros q [->|Hq]%elem_of_cons; [done|]. rewrite list.Forall_forall in Hb. apply Hb in Hq. by apply Z.geb_le. }
    assert (Hr' : forall q, q ∈ r -> szof pg q < sz).
    { assert (HF : Forall (fun q => szof pg q <= sz - 1) r).
      { apply desc_tail_le; [by apply (desc_app_r pg (x :: b))|]. intros q Hq. apply Hr in Hq.
        destruct (Z.geb_spec (szof pg q) sz); [done|lia]. }
      intros q Hq. rewrite list.Forall_forall in HF. apply HF in Hq. lia. }
    change (Some x) with (last [x]).
    rewrite (walk_spec (linkS pg) (freeSList_ pg) _ [x] b r); [|done|..].
    + cbn [mbind option_bind app].
      destruct (last (x :: b)) as [p|] eqn:Ep; [|by apply last_None in Ep].
      pose proof (last_in _ _ Ep) as Hp.
      exists (Some p). split; [done|]. split_and!.
      * rewrite <- Hss, app_comm_cons, elem_of_app. by left.
      * by apply Hb'.
      * intros q Hq Hqs. rewrite <- Hss, app_comm_cons, elem_of_app in Hq. destruct Hq as [Hq|Hq].
        -- apply (last_min pg x b p); [|done|done]. by apply (desc_app_l pg (x :: b) r).
        -- apply Hr' in Hq. lia.
    + rewrite list.Forall_forall in *. intros q Hq. rewrite Hsz by (right; apply elem_of_app; by left).
      cbn. f_equal. by apply Hb.
    + intros q Hq. specialize (Hr q Hq). apply head_in in Hq. rewrite Hsz by (right; apply elem_of_app; by right).
      cbn. by rewrite Hr.
    + apply nodup_live_size.
      * pose proof (dll_nodup _ _ _ HS) as HN. apply list.NoDup_cons in HN as [_ HN].
        by apply list.NoDup_app in HN as [? _].
      * intros q Hq. apply HL. rewrite !elem_of_app, elem_of_cons, elem_of_app. tauto.
  - exists None. split; [done|].
    assert (HF : Forall (fun q => szof pg q <= szof pg x) (x :: ss)).
    { apply desc_tail_le; [done|]. intros q [= ->]. lia. }
    intros q Hq. rewrite <- Hss in Hq. rewrite list.Forall_forall in HF. apply HF in Hq. lia.
Qed.

Lemma findUsedBlock_spec pg bl us ss addr : page_rep pg bl us ss ->
  exists r, findUsedBlock pg addr = Some r /\
  match r with
  | Some p => p ∈ sel true bl /\ b_addr pg !! p = Some addr
  | None => forall q, q ∈ sel true bl -> b_addr pg !! q <> Some addr
  end.
Proof.
  intros HR. pose proof HR as [HL Hus _ _ HT _ _ Hb He _]. pose proof (ls_U _ _ _ _ HL) as HU.
  assert (0 <= pg_addr pg + pg_size pg) by (apply tiled_le in HT as [? _]; lia).
  unfold findUsedBlock. rewrite wrap_small by (unfold in_u; lia).
  destruct ((addr >=? pg_addr pg) && (addr <? pg_addr pg + pg_size pg)) eqn:Ein.
  - destruct (prefix_split (fun q => negb (default 0 (b_addr pg !! q) =? addr)) us) as (b & r & -> & Hb' & Hr).
    assert (Hlv : forall q, q ∈ b ++ r -> exists a, b_addr pg !! q = Some a).
    { intros q Hq. apply HL. rewrite elem_of_app. by left. }
    rewrite (walk_head (linkU pg) (usedList_ pg) _ b r); [|done|..].
    + cbn [mbind option_bind]. exists (head r). split; [done|].
      destruct (head r) as [p|] eqn:Er.
      * apply head_in in Er as Hp. specialize (Hr p eq_refl). split; [rewrite <- Hus, elem_of_app; by right|].
        destruct (Hlv p) as [a Ha]; [rewrite elem_of_app; by right|]. rewrite Ha in *. cbn in Hr.
        apply negb_false_iff, Z.eqb_eq in Hr. by rewrite Hr.
      * destruct r; [|done]. intros q Hq E. rewrite <- Hus, app_nil_r in Hq.
        rewrite list.Forall_forall in Hb'. specialize (Hb' q Hq). rewrite E in Hb'. cbn in Hb'.
        rewrite Z.eqb_refl in Hb'. done.
    + rewrite list.Forall_forall in *. intros q Hq. specialize (Hb' q Hq).
      destruct (Hlv q) as [a Ha]; [rewrite elem_of_app; by left|]. rewrite Ha in *. cbn in *. by f_equal.
    + intros q Hq. specialize (Hr q Hq). apply head_in in Hq.
      destruct (Hlv q) as [a Ha]; [rewrite elem_of_app; by right|]. rewrite Ha in *. cbn in *. by f_equal.
    + apply nodup_live_size.
      * pose proof (dll_nodup _ _ _ HU) as HN. by apply list.NoDup_app in HN as [? _].
      * intros q Hq. apply HL. rewrite !elem_of_app. tauto.
  - exists None. split; [done|]. intros q Hq E. apply sel_in in Hq.
    destruct (rep_live _ _ _ _ q HR Hq) as (a & s & Ha & _ & ? & _ & ? & ?). simplify_eq.
    apply andb_false_iff in Ein as [Ein|Ein]; [|bool_hyps; lia].
    destruct (Z.geb_spec addr (pg_addr pg)); [done|lia].
Qed.

(** [page_ok pg A]: the page is well formed and [A] are its allocations. *)
Definition page_ok (pg : page_t) (A : list (Z * Z)) : Prop :=
  0 < pg_size pg /\ exists bl us ss, page_rep pg bl us ss /\ A ≡ₚ used_of pg bl.

Lemma perm_eq {A} (l k : list A) : l = k -> l ≡ₚ k.
Proof. by intros ->. Qed.

Lemma page_ok_find_free pg A sz : page_ok pg A -> exists r, findFreeBlock pg sz = Some r.
Proof. intros (_ & bl & us & ss & HR & _). destruct (findFreeBlock_spec _ _ _ _ sz HR) as (r & ? & _). eauto. Qed.

Lemma page_ok_find_used pg A addr : page_ok pg A -> exists r, findUsedBlock pg addr = Some r.
Proof. intros (_ & bl & us & ss & HR & _). destruct (findUsedBlock_spec _ _ _ _ addr HR) as (r & ? & _). eauto. Qed.

Lemma page_ok_allocate pg A sz p : page_ok pg A -> findFreeBlock pg sz = Some (Some p) ->
  0 < sz -> (blockAlign_ pg | sz) ->
  exists pg' a, page_allocate pg sz p = Some pg' /\ b_addr pg' !! p = Some a /\
    page_ok pg' ((a, sz) :: A) /\ pconf pg' = pconf pg.
Proof.
  intros (Hps & bl & us & ss & HR & HA) Hf Hsz Hd.
  destruct (findFreeBlock_spec _ _ _ _ sz HR) as (r & E & Hr). rewrite Hf in E. injection E as <-.
  destruct Hr as (Hp & Hs & _). apply sel_elem in Hp as (l1 & l2 & ->).
  destruct (rep_live _ _ _ _ p HR) as (a & s & Ha & Hsz' & _); [rewrite fmap_app; set_solver|].
  unfold szof in Hs. rewrite Hsz' in Hs. cbn in Hs.
  destruct (page_allocate_spec pg l1 p l2 us ss sz s a HR Hsz' Ha ltac:(lia) Hd)
    as (pg' & rest & us' & ss' & E & HR' & Er & Ea & Eb & Hu & Hc).
  exists pg', a. split_and!; try done.
  split; [injection Hc as _ Es _; by rewrite Es|].
  eexists _, us', ss'. split; [exact HR'|].
  unfold used_of. rewrite sel_app. cbn. rewrite sel_app, Er. cbn.
  rewrite map_app. cbn. rewrite Eb, <- Permutation_middle. constructor. rewrite HA, <- map_app.
  unfold used_of. rewrite sel_app. cbn. rewrite <- sel_app.
  apply perm_eq, map_ext_in. intros q Hq. symmetry. apply Hu. by apply list_elem_of_In.
Qed.

Lemma page_ok_release pg A addr p : page_ok pg A -> findUsedBlock pg addr = Some (Some p) ->
  exists s pg' A', b_size pg !! p = Some s /\ page_release pg p = Some pg' /\ page_ok pg' A' /\
    A ≡ₚ (addr, s) :: A' /\ pconf pg' = pconf pg.
Proof.
  intros (Hps & bl & us & ss & HR & HA) Hf.
  destruct (findUsedBlock_spec _ _ _ _ addr HR) as (r & E & Hr). rewrite Hf in E. injection E as <-.
  destruct Hr as (Hp & Ha). apply sel_elem in Hp as (l1 & l2 & ->).
  destruct (rep_live _ _ _ _ p HR) as (a & s & Ha' & Hs & _); [rewrite fmap_app; set_solver|]. simplify_eq.
  destruct (page_release_spec _ _ _ _ _ _ HR) as (pg' & bl' & us' & ss' & E & HR' & Hsel & Hu & Hc).
  exists s, pg', (used_of pg' bl'). split_and!; try done.
  - split; [injection Hc as _ Es _; by rewrite Es|]. by exists bl', us', ss'.
  - rewrite HA. unfold used_of. rewrite sel_app. cbn. rewrite map_app. cbn.
    rewrite <- Permutation_middle, <- map_app.
    assert (block_at pg p = (addr, s)) as -> by (unfold block_at, szof; by rewrite Ha, Hs).
    constructor. rewrite Hsel, sel_app. apply perm_eq, map_ext_in. intros q Hq. symmetry.
    apply Hu. rewrite sel_app. by apply list_elem_of_In.
Qed.

Lemma page_ok_not_used pg A addr : page_ok pg A -> findUsedBlock pg addr = Some None ->
  forall s, (addr, s) ∉ A.
Proof.
  intros (Hps & bl & us & ss & HR & HA) Hf s Hin.
  destruct (findUsedBlock_spec _ _ _ _ addr HR) as (r & E & Hr). rewrite Hf in E. injection E as <-.
  rewrite HA in Hin. unfold used_of in Hin. apply list_elem_of_In, in_map_iff in Hin as (q & Eq & Hq).
  apply list_elem_of_In in Hq. apply (Hr q Hq). apply sel_in in Hq.
  destruct (rep_live _ _ _ _ q HR Hq) as (a & s' & Ha & _). unfold block_at in Eq. rewrite Ha in *.
  cbn in Eq. congruence.
Qed.

Lemma page_ok_empty pg A : page_ok pg A -> page_empty pg = true ->
  A = [] /\ page_dtor_ok pg = true.
Proof.
  intros (Hps & bl & us & ss & HR & HA) He. unfold page_empty in He. apply bool_decide_eq_true in He.
  pose proof HR as [HL Hus _ _ HT HAl _ _ _ _].
  pose proof (dll_head _ _ _ (ls_U _ _ _ _ HL)) as Hh. rewrite He in Hh.
  assert (us = []) as -> by (by destruct us). apply Permutation_nil_l in Hus.
  split. { apply Permutation_nil_r. rewrite HA. unfold used_of. by rewrite <- Hus. }
  unfold page_dtor_ok. rewrite He. cbn.
  assert (Hbl : bl = [] \/ exists p, bl = [(p, false)]).
  { destruct bl as [|[p []] [|[q []] bl]]; cbn in *; try done; [by left|right; by exists p|].
    destruct HAl as (_ & HAl & _). by specialize (HAl eq_refl). }
  pose proof (ls_M _ _ _ _ HL) as HM. pose proof (dll_head _ _ _ HM) as Hhm.
  destruct Hbl as [->|(p & ->)]; [cbn in HT; lia|]. rewrite Hhm. cbn.
  destruct (dll_links _ _ _ HM [] p [] eq_refl) as [-> ->]. done.
Qed.

Lemma new_page_ok addr sz ba : 0 <= addr -> 0 < sz -> addr + sz < 2 ^ 64 -> 0 < ba -> (ba | sz) ->
  page_ok (new_page addr sz ba) [] /\ pconf (new_page addr sz ba) = (addr, sz, ba) /\
  (forall n, n <= sz -> findFreeBlock (new_page addr sz ba) n = Some (Some 1%positive)).
Proof.
  intros Ha Hs He Hb Hd.
  assert (HR : page_rep (new_page addr sz ba) [(1%positive, false)] [] [1%positive]).
  { assert (Hl : forall p, live (new_page addr sz ba) p <-> p = 1%positive).
    { intros p. unfold live. cbn. unfold const. rewrite lookup_insert_is_Some', lookup_empty, is_Some_alt.
      intuition congruence. }
    assert (Hdl : dll (new_links no_links 1%positive) (Some 1%positive) [1%positive]).
    { split; [done|apply NoDup_singleton|]. intros a p b E. destruct a as [|? [|]]; [|done..].
      injection E as <- <-. cbn. by rewrite !lookup_insert_eq. }
    assert (Hc : cell (new_links no_links 1%positive) 1%positive).
    { split; cbn; rewrite lookup_insert_eq; by eexists. }
    split; cbn; unfold const; try done.
    - split; cbn; unfold const; try done.
      + split; [done|constructor|]. intros [] ? ?; done.
      + intros p Hp. apply Hl. set_solver.
      + intros p ->%Hl. rewrite lookup_insert_eq. by eexists.
      + by intros p ->%Hl.
      + intros p ->%Hl _. by rewrite lookup_insert_eq.
      + intros p ->%Hl. lia.
    - repeat constructor.
    - rewrite !lookup_insert_eq. split; [done|]. by exists sz.
    - apply NoDup_singleton. }
  split; [split; [done|]; by eexists _, _, _|]. split; [done|]. intros n Hn.
  destruct (findFreeBlock_spec _ _ _ _ n HR) as (r & E & Hr). rewrite E. destruct r as [p|].
  - destruct Hr as (Hp & _). cbn in Hp. apply list_elem_of_singleton in Hp as ->. done.
  - specialize (Hr 1%positive). unfold szof in Hr. cbn in Hr. unfold const in Hr.
    rewrite lookup_insert_eq in Hr. cbn in Hr. specialize (Hr ltac:(left)). lia.
Qed.

(** ** Disjoint regions *)

Definition sep (x y : Z * Z) : Prop := x.1 + x.2 <= y.1 \/ y.1 + y.2 <= x.1.

Fixpoint pairwise (A : list (Z * Z)) : Prop :=
  match A with
  | [] => True
  | x :: A => Forall (sep x) A /\ pairwise A
  end.

Lemma sep_sym x y : sep x y -> sep y x.
Proof. unfold sep. tauto. Qed.

Lemma pairwise_app A B : pairwise (A ++ B) <->
  pairwise A /\ pairwise B /\ (forall x y, x ∈ A -> y ∈ B -> sep x y).
Proof.
  induction A as [|z A IH]; cbn; [set_solver|]. rewrite IH, Forall_app, !list.Forall_forall.
  setoid_rewrite elem_of_cons. naive_solver.
Qed.

#[export] Instance pairwise_perm : Proper (Permutation ==> iff) pairwise.
Proof.
  intros A B HP. induction HP as [|x A B HP IH|x y A|A B C _ IH1 _ IH2]; cbn.
  - done.
  - by rewrite IH, HP.
  - rewrite !Forall_cons_iff. pose proof (sep_sym x y). pose proof (sep_sym y x). tauto.
  - by rewrite IH1.
Qed.

Lemma tiled_pairwise pg bl a e : tiled (blockAlign_ pg) (b_addr pg) (b_size pg) a bl e ->
  pairwise (used_of pg bl).
Proof.
  revert a. induction bl as [|[p u] bl IH]; intros a; [done|]. intros (Ha & s & Hs & H0 & _ & HT).
  unfold used_of. cbn. destruct u; [|by eapply IH]. cbn. split; [|by eapply IH].
  apply list.Forall_forall. intros x Hx. apply list_elem_of_In, in_map_iff in Hx as (q & <- & Hq).
  apply list_elem_of_In, sel_in in Hq.
  destruct (tiled_elem _ _ _ _ _ _ q HT Hq) as (b & t & Hb & Ht & ? & _ & ? & ?).
  unfold sep, block_at, szof. rewrite Ha, Hs, Hb, Ht. cbn. lia.
Qed.

Lemma page_ok_regions pg A : page_ok pg A -> pairwise A /\
  Forall (fun x => 0 < x.2 /\ pg_addr pg <= x.1 /\ x.1 + x.2 <= pg_addr pg + pg_size pg) A.
Proof.
  intros (Hps & bl & us & ss & HR & HA). rewrite HA. split; [eapply tiled_pairwise, HR|].
  apply list.Forall_forall. intros x Hx. unfold used_of in Hx.
  apply list_elem_of_In, in_map_iff in Hx as (q & <- & Hq). apply list_elem_of_In, sel_in in Hq.
  destruct (rep_live _ _ _ _ q HR Hq) as (a & s & Ha & Hs & ? & _ & ? & ?).
  unfold block_at, szof. rewrite Ha, Hs. cbn. lia.
Qed.

(** ** The page list *)

Definition page_lt (p q : page_t) : Prop := pg_addr p + pg_size p <= pg_addr q.

Definition pg_end (p : page_t) : Z := pg_addr p + pg_size p.

(** Bytes of a list of allocations. *)
Fixpoint total (A : list (Z * Z)) : Z :=
  match A with
  | [] => 0
  | x :: A => x.2 + total A
  end.

#[export] Instance total_perm : Proper (Permutation ==> eq) total.
Proof. intros A B HP. induction HP; cbn; lia. Qed.

Lemma total_app A B : total (A ++ B) = total A + total B.
Proof. induction A; cbn; lia. Qed.

Record ma_rep (m : MemoryAllocator) (A : list (Z * Z)) : Prop := {
  mr_pages : exists As, Forall2 page_ok (pages_ m) As /\ A ≡ₚ concat As;
  mr_sorted : StronglySorted page_lt (pages_ m);
  mr_range : Forall (fun pg => baseAddress_ m <= pg_addr pg /\ 0 < pg_size pg /\
    pg_end pg <= baseAddress_ m + capacity_ m /\ blockAlign_ pg = ma_blockAlign_ m) (pages_ m);
  mr_allocated : allocated_ m = u64 (total A)
}.

(** A configuration whose address arithmetic does not wrap: power-of-two
    alignments with the block alignment below the page alignment, and a
    page-aligned capacity well inside the 64-bit space. *)
Definition ma_config (m : MemoryAllocator) (bm pm : Z) : Prop :=
  0 <= bm <= pm /\ pm < 32 /\ ma_blockAlign_ m = 2 ^ bm /\ pageAlign_ m = 2 ^ pm /\
  0 <= baseAddress_ m /\ 0 < capacity_ m /\ (2 ^ pm | capacity_ m) /\
  baseAddress_ m + 2 * capacity_ m + 2 ^ 33 <= 2 ^ 64.

Definition cfg (m : MemoryAllocator) := (baseAddress_ m, capacity_ m, pageAlign_ m, ma_blockAlign_ m).

Lemma ma_config_cfg m m' bm pm : cfg m' = cfg m -> ma_config m bm pm -> ma_config m' bm pm.
Proof. intros [= E1 E2 E3 E4]. unfold ma_config. by rewrite E1, E2, E3, E4. Qed.

Lemma pow2_divide a b : 0 <= a <= b -> (2 ^ a | 2 ^ b).
Proof. intros. exists (2 ^ (b - a)). rewrite <- Z.pow_add_r by lia. f_equal. lia. Qed.

Lemma pow2_land k : 0 <= k < 64 -> Z.land (2 ^ k) (u64 (2 ^ k - 1)) = 0.
Proof.
  intros Hk. pose proof (pow2_pos k ltac:(lia)).
  assert (2 ^ k < 2 ^ 64) by (apply Z.pow_lt_mono_r; lia).
  rewrite wrap_small by (unfold in_u; lia).
  replace (2 ^ k - 1) with (Z.ones k) by (rewrite Z.ones_equiv; lia).
  rewrite Z.land_ones by lia. apply Z.mod_same. lia.
Qed.

Lemma alignSize_spec sz k : 0 <= k < 64 -> 0 <= sz -> sz + 2 ^ k - 1 < 2 ^ 64 ->
  exists sz', alignSize sz (2 ^ k) = Some sz' /\ (2 ^ k | sz') /\ sz <= sz' < sz + 2 ^ k /\
    (forall c, sz <= c -> (2 ^ k | c) -> sz' <= c).
Proof.
  intros Hk Hs Hov. unfold alignSize. rewrite pow2_land by lia. cbn [Z.eqb].
  pose proof (align_up 64 k sz ltac:(lia) ltac:(lia) Hs Hov) as [H1 H2]. cbn zeta in *.
  eexists. split; [done|]. set (y := Z.land _ _) in *. pose proof (pow2_pos k ltac:(lia)).
  assert (Hd : (2 ^ k | y)) by (apply Z.mod_divide; lia). split; [done|]. split; [done|].
  intros c Hc [j Hj]. destruct Hd as [i Hi]. clearbody y. rewrite Hi, Hj in *.
  assert (i < j + 1) by (apply (Z.mul_lt_mono_pos_r (2 ^ k)); lia). apply Z.mul_le_mono_nonneg_r; lia.
Qed.

Lemma insert_after_spec P1 P2 pg : Forall (fun q => pg_addr q < pg_addr pg) P1 ->
  Forall (fun q => pg_addr pg < pg_addr q) P2 ->
  insert_after (P1 ++ P2) pg = (P1 ++ pg :: P2, length P1).
Proof.
  intros H1 H2. induction H1 as [|q P1 Hq H1 IH]; cbn.
  - destruct H2 as [|q P2 Hq H2]; [done|]. cbn. assert ((pg_addr q <? pg_addr pg) = false) as -> by (apply Z.ltb_ge; lia). done.
  - assert ((pg_addr q <? pg_addr pg) = true) as -> by (apply Z.ltb_lt; lia). by rewrite IH.
Qed.

Lemma createPage_spec m addr sz P1 P2 : pages_ m = P1 ++ P2 ->
  Forall (fun q => pg_addr q < addr) P1 -> Forall (fun q => addr < pg_addr q) P2 ->
  createPage m addr sz = (m <| pages_ := P1 ++ new_page addr sz (ma_blockAlign_ m) :: P2 |>, length P1).
Proof.
  intros E H1 H2. unfold createPage. cbn zeta. set (pg := new_page _ _ _).
  assert (Ea : pg_addr pg = addr) by done. clearbody pg. rewrite E.
  destruct H1 as [|q P1 Hq H1]; cbn.
  - destruct H2 as [|q P2 Hq H2]; [done|]. rewrite Ea.
    destruct (Z.gtb_spec (pg_addr q) addr); [done|lia].
  - rewrite Ea. destruct (Z.gtb_spec (pg_addr q) addr); [lia|].
    rewrite (insert_after_spec P1 P2 pg); by rewrite ?Ea.
Qed.

Lemma find_block_spec f pages : (forall pg, pg ∈ pages -> exists r, f pg = Some r) ->
  exists r, find_block f pages = Some r /\
  match r with
  | Some (i, p) => exists pg, pages !! i = Some pg /\ f pg = Some (Some p)
  | None => forall pg, pg ∈ pages -> f pg = Some None
  end.
Proof.
  induction pages as [|pg pages IH]; intros Ht; cbn.
  - exists None. split; [done|]. set_solver.
  - destruct (Ht pg) as [[p|] E]; [left|..]; rewrite E; cbn.
    + exists (Some (0%nat, p)). split; [done|]. by exists pg.
    + destruct IH as ([[i p]|] & E' & Hr); [intros q Hq; apply Ht; by right|..]; rewrite E'; cbn.
      * exists (Some (S i, p)). done.
      * exists None. split; [done|]. intros q [->|Hq]%elem_of_cons; auto.
Qed.

(** The gap that [findNextAddress] returns, and that it returns one whenever
    one exists. *)
Lemma next_gap_spec pages e sz lim : StronglySorted page_lt pages ->
  Forall (fun pg => e <= pg_addr pg /\ 0 < pg_size pg /\ pg_end pg <= lim) pages ->
  0 <= e <= lim -> 0 < sz -> lim + sz < 2 ^ 64 ->
  match next_gap pages e sz lim with
  | Some a => exists P1 P2, pages = P1 ++ P2 /\ e <= a /\ a + sz <= lim /\
      Forall (fun pg => pg_end pg <= a) P1 /\ Forall (fun pg => a + sz <= pg_addr pg) P2
  | None => forall a, e <= a -> a + sz <= lim -> exists pg, pg ∈ pages /\ a < pg_end pg /\ pg_addr pg < a + sz
  end.
Proof.
  revert e. induction pages as [|pg pages IH]; intros e HS HF He Hsz Hlim; cbn.
  - rewrite wrap_small by (unfold in_u; lia). case_if.
    + exists [], []. split_and!; try done; lia.
    + intros a ? ?. lia.
  - apply StronglySorted_inv in HS as [HS HP]. apply Forall_cons_iff in HF as [(H1 & H2 & H3) HF]. unfold pg_end in H3.
    rewrite !wrap_small by (unfold in_u; lia). case_if.
    + exists [], (pg :: pages). split_and!; try done; try lia. constructor; [lia|].
      eapply Forall_impl; [|exact HP]. unfold page_lt. cbn. lia.
    + specialize (IH (pg_addr pg + pg_size pg)).
      destruct (next_gap pages _ sz lim) as [a|].
      * destruct IH as (P1 & P2 & -> & ? & ? & ? & ?); try done; try lia.
        { rewrite list.Forall_forall in *. intros q Hq. destruct (HF q Hq) as (? & ? & ?).
          unfold page_lt in *. split_and!; [|done|done]. auto. }
        exists (pg :: P1), P2. split_and!; try done; try lia. by constructor.
      * intros a Ha Hlt. destruct (Z.lt_ge_cases a (pg_addr pg + pg_size pg)).
        -- exists pg. split; [left|]. unfold pg_end. lia.
        -- destruct IH with a as (q & Hq & ? & ?); try done; try lia.
           { rewrite list.Forall_forall in *. intros q Hq. destruct (HF q Hq) as (? & ? & ?).
             unfold page_lt in *. split_and!; [|done|done]. auto. }
           exists q. split; [by right|done].
Qed.

Lemma StronglySorted_app_iff (P1 P2 : list page_t) : StronglySorted page_lt (P1 ++ P2) <->
  StronglySorted page_lt P1 /\ StronglySorted page_lt P2 /\
  (forall p q, p ∈ P1 -> q ∈ P2 -> page_lt p q).
Proof.
  induction P1 as [|x P1 IH]; cbn.
  - split; [|by intros (_ & ? & _)]. intros ?. split_and!; [constructor|done|set_solver].
  - split.
    + intros [H1 H2]%StronglySorted_inv. apply IH in H1 as (? & ? & H). apply Forall_app in H2 as [? H2].
      split_and!; [by constructor|done|]. intros p q [->|Hp]%elem_of_cons Hq; [|by apply H].
      rewrite list.Forall_forall in H2. by apply H2.
    + intros (H1 & H2 & H). apply StronglySorted_inv in H1 as [H1 H1']. constructor.
      * apply IH. split_and!; try done. intros p q Hp. apply H. by right.
      * apply Forall_app. split; [done|]. apply list.Forall_forall. intros q Hq. apply H; [left|done].
Qed.

Lemma sorted_replace P1 x y P2 : pconf y = pconf x ->
  StronglySorted page_lt (P1 ++ x :: P2) -> StronglySorted page_lt (P1 ++ y :: P2).
Proof.
  intros [= E1 E2 _]. rewrite !StronglySorted_app_iff. intros (H1 & H2 & H3). split_and!; [done| |].
  - apply StronglySorted_inv in H2 as [H2 H2']. constructor; [done|].
    eapply Forall_impl; [|exact H2']. unfold page_lt. by rewrite E1, E2.
  - intros p q Hp [->|Hq]%elem_of_cons.
    + unfold page_lt. rewrite E1. apply (H3 p x); [done|left].
    + apply H3; [done|by right].
Qed.

(** Focus on page [i]: its allocations, and what replacing or deleting the page
    does to the whole. *)
Lemma ma_rep_focus m A i pg : ma_rep m A -> pages_ m !! i = Some pg ->
  exists Ai B, page_ok pg Ai /\ A ≡ₚ Ai ++ B /\ blockAlign_ pg = ma_blockAlign_ m /\
    (forall m' pg' Ai', page_ok pg' Ai' -> pconf pg' = pconf pg ->
       pages_ m' = <[i := pg']> (pages_ m) -> cfg m' = cfg m ->
       allocated_ m' = u64 (total (Ai' ++ B)) -> ma_rep m' (Ai' ++ B)) /\
    (forall m', pages_ m' = delete i (pages_ m) -> cfg m' = cfg m ->
       allocated_ m' = u64 (total B) -> ma_rep m' B).
Proof.
  intros [(As & HF & HA) HS HR Hal] Hi. apply list_elem_of_split_length in Hi as (P1 & P2 & E & ->).
  rewrite E in *. apply Forall2_app_inv_l in HF as (A1 & A2' & HF1 & HF2 & ->).
  apply Forall2_cons_inv_l in HF2 as (Ai & A2 & Hok & HF2 & ->).
  exists Ai, (concat A1 ++ concat A2). apply Forall_app in HR as [HR1 HR2].
  apply Forall_cons_iff in HR2 as [(R1 & R2 & R3 & R4) HR2]. split_and!.
  - done.
  - rewrite HA, concat_app. cbn. rewrite !app_assoc. f_equiv. apply Permutation_app_comm.
  - done.
  - intros m' pg' Ai' Hok' Hc Ep Ec Ea. rewrite insert_app_r_alt, Nat.sub_diag in Ep by lia. cbn in Ep.
    injection Ec as C1 C2 C3 C4. split.
    + exists (A1 ++ Ai' :: A2). rewrite Ep. split; [by apply Forall2_app; [|constructor]|].
      rewrite concat_app. cbn. rewrite !app_assoc. f_equiv. apply Permutation_app_comm.
    + rewrite Ep. by apply (sorted_replace _ pg).
    + rewrite Ep, C1, C2, C4. apply Forall_app. split; [done|]. constructor; [|done].
      injection Hc as D1 D2 D3. unfold pg_end in *. by rewrite D1, D2, D3.
    + done.
  - intros m' Ep Ec Ea. rewrite delete_middle in Ep. injection Ec as C1 C2 C3 C4. split.
    + exists (A1 ++ A2). rewrite Ep. split; [by apply Forall2_app|]. by rewrite concat_app.
    + rewrite Ep. apply StronglySorted_app_iff in HS as (? & HS2 & H3). apply StronglySorted_inv in HS2 as [? _].
      apply StronglySorted_app_iff. split_and!; try done. intros p q Hp Hq. apply H3; [done|by right].
    + rewrite Ep, C1, C2, C4. apply Forall_app. by split.
    + done.
Qed.

(** A new empty page in a gap. *)
Lemma ma_rep_create m A P1 P2 addr sz : ma_rep m A -> pages_ m = P1 ++ P2 ->
  0 < ma_blockAlign_ m -> (ma_blockAlign_ m | sz) -> 0 < sz -> 0 <= baseAddress_ m <= addr ->
  addr + sz <= baseAddress_ m + capacity_ m -> baseAddress_ m + capacity_ m < 2 ^ 64 ->
  Forall (fun pg => pg_end pg <= addr) P1 -> Forall (fun pg => addr + sz <= pg_addr pg) P2 ->
  let pg := new_page addr sz (ma_blockAlign_ m) in
  createPage m addr sz = (m <| pages_ := P1 ++ pg :: P2 |>, length P1) /\
  ma_rep (m <| pages_ := P1 ++ pg :: P2 |>) A.
Proof.
  intros [(As & HF & HA) HS HR Hal] E Hb Hd Hsz Hba Hle Hlt H1 H2 pg.
  rewrite E in *. apply Forall_app in HR as [HR1 HR2].
  destruct (new_page_ok addr sz (ma_blockAlign_ m)) as (Hok & Hc & _); try done; try lia.
  fold pg in Hok, Hc. assert (C1 : pg_addr pg = addr) by done. assert (C2 : pg_size pg = sz) by done.
  assert (C3 : blockAlign_ pg = ma_blockAlign_ m) by done. split.
  - apply createPage_spec; [done| |].
    + rewrite list.Forall_forall in *. intros q Hq. destruct (HR1 q Hq) as (_ & ? & _).
      specialize (H1 q Hq). unfold pg_end in H1. lia.
    + eapply Forall_impl; [|exact H2]. cbn. lia.
  - apply Forall2_app_inv_l in HF as (A1 & A2 & HF1 & HF2 & ->). clearbody pg. split; cbn; unfold const.
    + exists (A1 ++ [] :: A2). split; [by apply Forall2_app; [|constructor]|]. by rewrite HA, !concat_app.
    + apply StronglySorted_app_iff in HS as (S1 & S2 & S3). apply StronglySorted_app_iff. split_and!; [done| |].
      * constructor; [done|]. eapply Forall_impl; [|exact H2]. unfold page_lt. rewrite C1, C2. done.
      * intros p q Hp [->|Hq]%elem_of_cons; [|by apply S3].
        rewrite list.Forall_forall in H1. unfold page_lt. rewrite C1. by apply H1.
    + apply Forall_app. split; [done|]. constructor; [|done]. unfold pg_end. rewrite C1, C2, C3. split_and!; lia || done.
    + done.
Qed.

Lemma ma_rep_in m A pg : ma_rep m A -> pg ∈ pages_ m ->
  exists Ai, page_ok pg Ai /\ (forall x, x ∈ Ai -> x ∈ A).
Proof.
  intros HR (i & Hi)%list_elem_of_lookup. destruct (ma_rep_focus _ _ _ _ HR Hi) as (Ai & B & Hok & HA & _).
  exists Ai. split; [done|]. intros x Hx. rewrite HA, elem_of_app. by left.
Qed.

Lemma ma_rep_elem m A x : ma_rep m A -> x ∈ A -> exists pg Ai, pg ∈ pages_ m /\ page_ok pg Ai /\ x ∈ Ai.
Proof.
  intros [(As & HF & HA) _ _ _] Hx. rewrite HA in Hx. apply list_elem_of_In, in_concat in Hx as (Ai & H1 & H2).
  apply list_elem_of_In, list_elem_of_lookup in H1 as (i & Hi).
  destruct (Forall2_lookup_r _ _ _ _ _ HF Hi) as (pg & Hpg & Hok).
  exists pg, Ai. split_and!; [by eapply list_elem_of_lookup_2|done|by apply list_elem_of_In].
Qed.

(** No page has a free block of [sz] bytes, and no gap between the pages holds
    a new page of [psz] bytes. *)
Definition ma_full (m : MemoryAllocator) (sz psz : Z) : Prop :=
  (forall pg, pg ∈ pages_ m -> findFreeBlock pg sz = Some None) /\
  (forall a, baseAddress_ m <= a -> a + psz <= baseAddress_ m + capacity_ m ->
     exists pg, pg ∈ pages_ m /\ a < pg_end pg /\ pg_addr pg < a + psz).

Lemma ma_find_or_create_spec m A bm pm sz : ma_rep m A -> ma_config m bm pm ->
  0 < sz <= capacity_ m -> (2 ^ bm | sz) ->
  exists m' r, ma_find_or_create m sz = Some (m', r) /\ ma_rep m' A /\ cfg m' = cfg m /\
  match r with
  | Some (i, p) => exists pg, pages_ m' !! i = Some pg /\ findFreeBlock pg sz = Some (Some p)
  | None => m' = m /\ exists psz, alignSize sz (2 ^ pm) = Some psz /\ ma_full m sz psz
  end.
Proof.
  intros HR HC Hsz Hd. pose proof HC as (Hbm & Hpm & Eb & Ep & Hb & Hcap & Hdc & Hmax).
  destruct (find_block_spec (fun pg => findFreeBlock pg sz) (pages_ m)) as (r & E & Hr).
  { intros pg Hpg. destruct (ma_rep_in _ _ _ HR Hpg) as (Ai & Hok & _). by eapply page_ok_find_free. }
  unfold ma_find_or_create. rewrite E. cbn [mbind option_bind].
  destruct r as [[i p]|]; [by exists m, (Some (i, p))|].
  assert (2 ^ pm < 2 ^ 32) by (apply Z.pow_lt_mono_r; lia).
  destruct (alignSize_spec sz pm) as (psz & Eps & Hdp & Hps & Hle); [lia..|].
  specialize (Hle (capacity_ m) ltac:(lia) Hdc). pose proof (pow2_pos bm ltac:(lia)) as Hpos.
  assert (Hdb : (2 ^ bm | psz)) by (eapply Z.divide_trans; [by apply (pow2_divide bm pm)|done]).
  rewrite Ep, Eps. cbn [mbind option_bind].
  assert (Hgap : match findNextAddress m psz with
    | Some a => exists P1 P2, pages_ m = P1 ++ P2 /\ baseAddress_ m <= a /\
        a + psz <= baseAddress_ m + capacity_ m /\
        Forall (fun pg => pg_end pg <= a) P1 /\ Forall (fun pg => a + psz <= pg_addr pg) P2
    | None => forall a, baseAddress_ m <= a -> a + psz <= baseAddress_ m + capacity_ m ->
        exists pg, pg ∈ pages_ m /\ a < pg_end pg /\ pg_addr pg < a + psz
    end).
  { unfold findNextAddress. rewrite (wrap_small 64 (_ + _)) by (unfold in_u; lia).
    pose proof (mr_sorted _ _ HR) as HS. pose proof (mr_range _ _ HR) as HRg.
    destruct (pages_ m) as [|pg pages] eqn:Epg; [by exists [], []; split_and!; try done; lia|].
    rewrite <- Epg in *. apply (next_gap_spec (pages_ m)); [done| |lia..].
    eapply Forall_impl; [|exact HRg]. cbn. tauto. }
  destruct (findNextAddress m psz) as [a|].
  - destruct Hgap as (P1 & P2 & Epg & H1 & H2 & H3 & H4).
    destruct (ma_rep_create m A P1 P2 a psz HR Epg) as [Ec HR']; rewrite ?Eb; try done; try lia.
    rewrite Ec. cbn iota beta.
    set (m1 := m <| pages_ := _ |>) in *. set (pg := new_page a psz _) in *.
    assert (Em1 : pages_ m1 !! length P1 = Some pg) by (by apply list_lookup_middle).
    rewrite Em1. cbn [mbind option_bind].
    destruct (new_page_ok a psz (ma_blockAlign_ m)) as (_ & _ & Hff); rewrite ?Eb; try done; try lia.
    fold pg in Hff. rewrite Hff by lia. cbn [mbind option_bind].
    eexists _, _. split; [done|]. split; [done|]. split; [done|].
    exists pg. split; [done|]. apply Hff. lia.
  - exists m, None. split_and!; try done. exists psz. split; [done|]. split; done.
Qed.

Lemma delete_insert_same {A} (l : list A) i x : delete i (<[i := x]> l) = delete i l.
Proof. revert i. induction l as [|y l IH]; intros [|i]; cbn; [done..|]. f_equal. apply IH. Qed.

Lemma on_page_spec m i pg pg' f : pages_ m !! i = Some pg -> f pg = Some pg' ->
  on_page m i f = Some (m <| pages_ ::= fun l => <[i := pg']> l |>).
Proof. intros H1 H2. unfold on_page. rewrite H1. cbn. by rewrite H2. Qed.

(** [allocate] against the set of allocations. *)
Lemma allocate_spec m A bm pm sz : ma_rep m A -> ma_config m bm pm -> 0 < sz <= capacity_ m ->
  exists m' sz', alignSize sz (2 ^ bm) = Some sz' /\ sz <= sz' < sz + 2 ^ bm /\ (2 ^ bm | sz') /\
    cfg m' = cfg m /\
    ((exists a, ma_allocate m sz = Some (m', Some a) /\ ma_rep m' ((a, sz') :: A)) \/
     (ma_allocate m sz = Some (m', None) /\ m' = m /\
      exists psz, alignSize sz' (2 ^ pm) = Some psz /\ ma_full m sz' psz)).
Proof.
  intros HR HC Hsz. pose proof HC as (Hbm & Hpm & Eb & Ep & Hb & Hcap & Hdc & Hmax).
  assert (2 ^ bm <= 2 ^ pm) by (apply Z.pow_le_mono_r; lia).
  assert (2 ^ pm < 2 ^ 32) by (apply Z.pow_lt_mono_r; lia).
  destruct (alignSize_spec sz bm) as (sz' & Es & Hd & Hss & Hle); [lia..|].
  specialize (Hle (capacity_ m) ltac:(lia) ltac:(eapply Z.divide_trans; [by apply (pow2_divide bm pm)|done])).
  destruct (ma_find_or_create_spec m A bm pm sz' HR HC ltac:(lia) Hd) as (m1 & r & E1 & HR1 & HC1 & Hr).
  unfold ma_allocate. assert ((sz =? 0) = false) as -> by (apply Z.eqb_neq; lia).
  rewrite Eb, Es. cbn [mbind option_bind]. rewrite E1. cbn [mbind option_bind].
  destruct r as [[i p]|].
  - destruct Hr as (pg & Hi & Hf). destruct (ma_rep_focus _ _ _ _ HR1 Hi) as (Ai & B & Hok & HA & Hba & Hupd & _).
    injection HC1 as C1 C2 C3 C4.
    destruct (page_ok_allocate pg Ai sz' p Hok Hf) as (pg' & a & Ea & Ha & Hok' & Hcf); [lia|by rewrite Hba, C4, Eb|].
    rewrite (on_page_spec _ _ _ _ _ Hi Ea). cbn.
    rewrite list_lookup_insert_eq by (by apply lookup_lt_Some in Hi). cbn. rewrite Ha. cbn.
    set (m2 := m1 <| pages_ ::= fun l => <[i := pg']> l |> <| allocated_ := u64 (allocated_ m1 + sz') |>).
    exists m2, sz'. split_and!; try done; try lia. { unfold cfg. cbn. congruence. }
    left. exists a. split; [done|].
    assert (HP : (a, sz') :: A ≡ₚ ((a, sz') :: Ai) ++ B) by (cbn; by rewrite HA).
    pose proof (Hupd m2 pg' _ Hok' Hcf eq_refl eq_refl) as HU.
    assert (Htot : u64 (allocated_ m1 + sz') = u64 (total (((a, sz') :: Ai) ++ B))).
    { rewrite (mr_allocated _ _ HR1), wrap_add_l. f_equal. rewrite HA. cbn. lia. }
    specialize (HU Htot).
    destruct HU as [(As & U1 & U2) U3 U4 U5]. split; try done; [|by rewrite HP].
    exists As. split; [done|]. by rewrite HP.
  - destruct Hr as (-> & psz & ? & ?). exists m, sz'. split_and!; try done; try lia. right. split_and!; try done. eauto.
Qed.

(** [release] against the set of allocations. *)
Lemma release_spec m A addr : ma_rep m A ->
  exists m', cfg m' = cfg m /\
    ((exists s A', ma_release m addr = Some (m', true) /\ A ≡ₚ (addr, s) :: A' /\ ma_rep m' A') \/
     (ma_release m addr = Some (m', false) /\ m' = m /\ forall s, (addr, s) ∉ A)).
Proof.
  intros HR.
  destruct (find_block_spec (fun pg => findUsedBlock pg addr) (pages_ m)) as (r & E & Hr).
  { intros pg Hpg. destruct (ma_rep_in _ _ _ HR Hpg) as (Ai & Hok & _). by eapply page_ok_find_used. }
  unfold ma_release. rewrite E. cbn [mbind option_bind].
  destruct r as [[i p]|].
  - destruct Hr as (pg & Hi & Hf). destruct (ma_rep_focus _ _ _ _ HR Hi) as (Ai & B & Hok & HA & Hba & Hupd & Hdel).
    destruct (page_ok_release pg Ai addr p Hok Hf) as (s & pg' & A' & Hs & Er & Hok' & HAi & Hcf).
    rewrite Hi. cbn. rewrite Hs. cbn. rewrite (on_page_spec _ _ _ _ _ Hi Er). cbn.
    rewrite list_lookup_insert_eq by (by apply lookup_lt_Some in Hi). cbn.
    assert (Htot : u64 (allocated_ m - s) = u64 (total (A' ++ B))).
    { rewrite (mr_allocated _ _ HR), wrap_sub_l. f_equal. rewrite HA, HAi. cbn. lia. }
    destruct (page_empty pg') eqn:Ee.
    + destruct (page_ok_empty _ _ Hok' Ee) as [-> Hdt]. unfold deletePage. cbn.
      rewrite list_lookup_insert_eq by (by apply lookup_lt_Some in Hi). cbn. rewrite Hdt. cbn.
      eexists. split; [|left; exists s, B; split; [done|]]; [done|]. split; [by rewrite HA, HAi|].
      apply Hdel; [|done|done]. cbn. apply delete_insert_same.
    + cbn. eexists. split; [|left; exists s, (A' ++ B); split; [done|]]; [done|].
      split; [by rewrite HA, HAi|]. by apply (Hupd _ pg').
  - exists m. split; [done|]. right. split_and!; try done. intros s Hin.
    destruct (ma_rep_elem _ _ _ HR Hin) as (pg & Ai & Hpg & Hok & Hx).
    by apply (page_ok_not_used pg Ai addr Hok (Hr pg Hpg) s).
Qed.

Lemma overlap_false_split pages a sz : StronglySorted page_lt pages -> 0 < sz ->
  Forall (fun pg => 0 < pg_size pg /\ (pg_end pg <= a \/ a + sz <= pg_addr pg)) pages ->
  exists P1 P2, pages = P1 ++ P2 /\ Forall (fun pg => pg_end pg <= a) P1 /\
    Forall (fun pg => a + sz <= pg_addr pg) P2.
Proof.
  intros HS Hsz. induction HS as [|pg pages HS IH HF]; intros H; [by exists [], []|].
  apply Forall_cons_iff in H as [[H0 [H1|H1]] H2].
  - destruct (IH H2) as (P1 & P2 & -> & ? & ?). exists (pg :: P1), P2. split; [done|]. split; [by constructor|done].
  - exists [], (pg :: pages). split; [done|]. split; [constructor|]. constructor; [done|].
    eapply Forall_impl; [|exact HF]. unfold page_lt. intros q ?. lia.
Qed.

Lemma reserve_spec m A bm pm addr sz : ma_rep m A -> ma_config m bm pm ->
  baseAddress_ m <= addr -> 0 < sz -> addr + sz + 2 ^ pm <= 2 ^ 64 ->
  exists m' psz, alignSize sz (2 ^ pm) = Some psz /\ sz <= psz /\ (2 ^ pm | psz) /\ cfg m' = cfg m /\
    ((ma_reserve m addr sz = Some (m', true) /\ ma_rep m' ((addr, psz) :: A)) \/
     (ma_reserve m addr sz = Some (m', false) /\ m' = m /\
      (baseAddress_ m + capacity_ m < addr + psz \/
       exists pg, pg ∈ pages_ m /\ addr < pg_end pg /\ pg_addr pg < addr + psz))).
Proof.
  intros HR HC Hba Hsz Hov. pose proof HC as (Hbm & Hpm & Eb & Ep & Hb & Hcap & Hdc & Hmax).
  assert (2 ^ pm < 2 ^ 32) by (apply Z.pow_lt_mono_r; lia).
  destruct (alignSize_spec sz pm) as (psz & Es & Hd & Hss & _); [lia..|].
  pose proof (pow2_pos bm ltac:(lia)) as Hpos.
  assert (Hdb : (2 ^ bm | psz)) by (eapply Z.divide_trans; [by apply (pow2_divide bm pm)|done]).
  unfold ma_reserve. assert ((sz =? 0) = false) as -> by (apply Z.eqb_neq; lia).
  rewrite Ep, Es. cbn [mbind option_bind].
  rewrite !(wrap_small 64) by (unfold in_u; lia).
  destruct (Z.gtb_spec (addr + psz) (baseAddress_ m + capacity_ m)) as [Hgt|Hle].
  { exists m, psz. split_and!; try done; try lia. right. split_and!; try done. by left. }
  pose proof (mr_range _ _ HR) as HRg. rewrite list.Forall_forall in HRg.
  destruct (hasPageOverlap m addr psz) eqn:Eo.
  { exists m, psz. split_and!; try done; try lia. right. split_and!; try done. right.
    apply existsb_exists in Eo as (pg & Hpg & Ho). exists pg. apply list_elem_of_In in Hpg.
    destruct (HRg pg Hpg) as (? & ? & ? & _). unfold pg_end in *.
    rewrite !(wrap_small 64) in Ho by (unfold in_u; lia). bool_hyps. rewrite Z.gtb_ltb in *. bool_hyps. done. }
  destruct (overlap_false_split (pages_ m) addr psz) as (P1 & P2 & Epg & H1 & H2); [apply HR|lia| |].
  { apply list.Forall_forall. intros pg Hpg. destruct (HRg pg Hpg) as (? & ? & ? & _). split; [done|].
    destruct (Z.le_gt_cases (pg_end pg) addr) as [|Hn]; [by left|right].
    destruct (Z.le_gt_cases (addr + psz) (pg_addr pg)) as [|Hn']; [done|]. exfalso.
    assert (hasPageOverlap m addr psz = true); [|congruence]. apply existsb_exists. exists pg.
    split; [by apply list_elem_of_In|]. unfold pg_end in *. rewrite !(wrap_small 64) by (unfold in_u; lia).
    apply andb_true_iff. rewrite Z.gtb_ltb, !Z.ltb_lt. done. }
  destruct (ma_rep_create m A P1 P2 addr psz HR Epg) as [Ec HR']; try (rewrite ?Eb; done || lia).
  rewrite Ec. cbn iota beta.
  destruct (new_page_ok addr psz (ma_blockAlign_ m)) as (Hok & Hcf & Hff); try (rewrite ?Eb; done || lia).
  set (m1 := m <| pages_ := _ |>) in *. set (pg := new_page addr psz _) in *.
  assert (Em1 : pages_ m1 !! length P1 = Some pg) by (by apply list_lookup_middle).
  rewrite Em1. cbn [mbind option_bind]. rewrite (Hff psz) by lia. cbn [mbind option_bind].
  destruct (page_ok_allocate pg [] psz _ Hok (Hff psz ltac:(lia))) as (pg' & a & Ea & Ha & Hok' & Hcf');
    [lia|by cbn; rewrite Eb|].
  assert (Hemp : page_empty pg = true) by done. clearbody pg. rewrite (on_page_spec m1 (length P1) pg pg' (fun pg => page_allocate pg psz 1%positive) Em1 Ea). cbn [mbind option_bind].
  destruct (page_ok_regions _ _ Hok') as [_ Hrg]. apply Forall_cons_iff in Hrg as [(_ & R1 & R2) _].
  rewrite Hcf in Hcf'. injection Hcf' as D1 D2 D3. cbn in R1, R2. assert (a = addr) as -> by lia.
  destruct (ma_rep_focus _ _ _ _ HR' Em1) as (Ai & B & Hok1 & HA & _ & Hupd & _).
  assert (Ai = []) as ->.
  { destruct (page_ok_empty pg Ai Hok1) as [-> _]; done. }
  set (m2 := m1 <| pages_ ::= fun l => <[length P1 := pg']> l |> <| allocated_ := u64 (allocated_ m1 + psz) |>).
  exists m2, psz. split_and!; try done; try lia. left. split; [done|].
  assert (HP : (addr, psz) :: A ≡ₚ [(addr, psz)] ++ B) by (cbn; by rewrite HA).
  assert (Htot : u64 (allocated_ m1 + psz) = u64 (total ([(addr, psz)] ++ B))).
  { rewrite (mr_allocated _ _ HR'), wrap_add_l. f_equal. rewrite HA. cbn. lia. }
  assert (Hcf2 : pconf pg' = pconf pg) by (unfold pconf; rewrite D1, D2, D3; done).
  destruct (Hupd m2 pg' _ Hok' Hcf2 eq_refl eq_refl Htot) as [(As & U1 & U2) U3 U4 U5].
  split; try done; [|by rewrite HP]. exists As. split; [done|]. by rewrite HP.
Qed.

Lemma ma_rep_regions m A : ma_rep m A -> pairwise A /\
  Forall (fun x => 0 < x.2 /\ baseAddress_ m <= x.1 /\ x.1 + x.2 <= baseAddress_ m + capacity_ m) A.
Proof.
  intros [(As & HF & HA) HS HR _]. rewrite HA. clear A HA. induction HF as [|pg Ai pages As Hok HF IH]; [done|].
  apply StronglySorted_inv in HS as [HS HP]. apply Forall_cons_iff in HR as [(R1 & R2 & R3 & _) HR].
  destruct (IH HS HR) as [I1 I2]. destruct (page_ok_regions _ _ Hok) as [P1 P2]. cbn. unfold pg_end in R3. split.
  - apply pairwise_app. split_and!; try done. intros x y Hx Hy.
    rewrite list.Forall_forall in P2. destruct (P2 x Hx) as (? & ? & ?).
    apply list_elem_of_In, in_concat in Hy as (Aj & Hj & Hy).
    apply list_elem_of_In, list_elem_of_lookup in Hj as (j & Hj).
    destruct (Forall2_lookup_r _ _ _ _ _ HF Hj) as (pgj & Hpj & Hokj).
    destruct (page_ok_regions _ _ Hokj) as [_ Pj]. rewrite list.Forall_forall in Pj.
    destruct (Pj y) as (? & ? & ?); [by apply list_elem_of_In|].
    rewrite list.Forall_forall in HP. pose proof (HP pgj ltac:(by eapply list_elem_of_lookup_2)) as Hlt.
    unfold page_lt in Hlt. left. lia.
  - apply Forall_app. split; [|done]. eapply Forall_impl; [|exact P2]. cbn. lia.
Qed.

(** ** Properties *)

Inductive ma_op :=
| OpAllocate (sz : Z)
| OpReserve (addr sz : Z)
| OpRelease (addr : Z).

(** The state after an operation, whatever its result. *)
Definition ma_exec (m : MemoryAllocator) (o : ma_op) : option MemoryAllocator :=
  match o with
  | OpAllocate sz => fst <$> ma_allocate m sz
  | OpReserve addr sz => fst <$> ma_reserve m addr sz
  | OpRelease addr => fst <$> ma_release m addr
  end.

Fixpoint ma_run (m : MemoryAllocator) (ops : list ma_op) : option MemoryAllocator :=
  match ops with
  | [] => Some m
  | o :: ops => m ← ma_exec m o; ma_run m ops
  end.

(** Requests no larger than the device memory, reservations inside the address
    space and not below the base; any address may be released. *)
Definition op_ok (m : MemoryAllocator) (o : ma_op) : Prop :=
  match o with
  | OpAllocate sz => 0 <= sz <= capacity_ m
  | OpReserve addr sz => baseAddress_ m <= addr /\ 0 <= sz /\ addr + sz + pageAlign_ m <= 2 ^ 64
  | OpRelease _ => True
  end.

Lemma op_ok_cfg m m' o : cfg m' = cfg m -> op_ok m o -> op_ok m' o.
Proof. intros [= E1 E2 E3 E4]. unfold op_ok. by rewrite E1, E2, E3. Qed.

Lemma ma_exec_rep m A bm pm o : ma_rep m A -> ma_config m bm pm -> op_ok m o ->
  exists m' A', ma_exec m o = Some m' /\ ma_rep m' A' /\ cfg m' = cfg m.
Proof.
  intros HR HC Hok. pose proof HC as (_ & _ & _ & Ep & _). destruct o as [sz|addr sz|addr]; cbn in Hok |- *.
  - destruct (Z.eq_dec sz 0) as [->|Hne]; [by exists m, A|].
    destruct (allocate_spec m A bm pm sz HR HC ltac:(lia))
      as (m' & sz' & _ & _ & _ & Hc & [(a & -> & HR')|(-> & -> & _)]); cbn; eauto 10.
  - destruct (Z.eq_dec sz 0) as [->|Hne]; [by exists m, A|]. rewrite Ep in Hok.
    destruct (reserve_spec m A bm pm addr sz HR HC)
      as (m' & psz & _ & _ & _ & Hc & [(-> & HR')|(-> & -> & _)]); try lia; cbn; eauto 10.
  - destruct (release_spec m A addr HR) as (m' & Hc & [(s & A' & -> & _ & HR')|(-> & -> & _)]); cbn; eauto 10.
Qed.

Lemma init_rep base cap pa ba : ma_rep (MemoryAllocator_init base cap pa ba) [].
Proof. split; cbn; [by exists []|constructor|constructor|done]. Qed.

(** C2 (safety): whatever sequence of allocations, reservations and releases is
    run on a fresh allocator, in which no allocation asks for more than the
    capacity and no reservation starts below the base address or wraps, every
    operation completes (no null or deleted block is dereferenced, no loop
    overruns, no assertion fails), and the allocations that are live afterwards
    are pairwise disjoint, lie inside the device memory, and account for
    [allocated()] exactly.  Outside those conditions the code can hand out
    memory it does not have: [ma_first_allocation_unbounded] and
    [ma_reserve_below_base]. *)
Theorem ma_run_safe base cap bm pm ops :
  let m0 := MemoryAllocator_init base cap (2 ^ pm) (2 ^ bm) in
  ma_config m0 bm pm -> Forall (op_ok m0) ops ->
  exists m A, ma_run m0 ops = Some m /\ ma_rep m A /\
    pairwise A /\ Forall (fun x => 0 < x.2 /\ base <= x.1 /\ x.1 + x.2 <= base + cap) A /\
    allocated_ m = u64 (total A).
Proof.
  intros m0 HC HF.
  assert (HG : forall m A, cfg m = cfg m0 -> ma_rep m A ->
    exists m' A', ma_run m ops = Some m' /\ ma_rep m' A' /\ cfg m' = cfg m0).
  { induction HF as [|o ops Ho HF IH]; intros m A Hc HR; cbn; [by exists m, A|].
    destruct (ma_exec_rep m A bm pm o HR) as (m1 & A1 & -> & HR1 & Hc1);
      [by eapply ma_config_cfg|by eapply op_ok_cfg|].
    cbn. apply (IH m1 A1); [congruence|done]. }
  destruct (HG m0 [] eq_refl (init_rep _ _ _ _)) as (m & A & E & HR & Hc).
  exists m, A. destruct (ma_rep_regions m A HR) as [H1 H2]. injection Hc as C1 C2 _ _. rewrite C1, C2 in H2.
  split_and!; try done. apply HR.
Qed.

(** C17 (refinement): [allocate] refines the abstract allocator that keeps a set
    of disjoint regions: it returns a region of the block-aligned size disjoint
    from every live allocation and inside the memory, and adds exactly that
    region; it fails, without changing anything, only when no free block of any
    page is large enough and no gap between the pages can hold a new page. *)
Theorem ma_allocate_refines m A bm pm sz :
  ma_rep m A -> ma_config m bm pm -> 0 < sz <= capacity_ m ->
  exists m' sz', sz <= sz' < sz + 2 ^ bm /\ (2 ^ bm | sz') /\
    ((exists a, ma_allocate m sz = Some (m', Some a) /\ ma_rep m' ((a, sz') :: A) /\
        Forall (sep (a, sz')) A /\ baseAddress_ m <= a /\ a + sz' <= baseAddress_ m + capacity_ m) \/
     (ma_allocate m sz = Some (m, None) /\
      exists psz, alignSize sz' (2 ^ pm) = Some psz /\ ma_full m sz' psz)).
Proof.
  intros HR HC Hsz.
  destruct (allocate_spec m A bm pm sz HR HC Hsz)
    as (m' & sz' & _ & Hs & Hd & Hc & [(a & E & HR')|(E & -> & Hfull)]).
  - exists m', sz'. split; [done|]. split; [done|]. left. exists a. split; [done|]. split; [done|].
    destruct (ma_rep_regions _ _ HR') as [[H1 _] H2]. apply Forall_cons_iff in H2 as [(_ & H2 & H3) _].
    injection Hc as C1 C2 _ _. rewrite C1, C2 in *. done.
  - exists m, sz'. split; [done|]. split; [done|]. right. split; [done|]. done.
Qed.

(** C21 (refinement): [release] of the start of a live allocation succeeds and
    removes exactly that allocation (merging and page deletion are invisible);
    any other address is rejected and nothing changes. *)
Theorem ma_release_refines m A addr :
  ma_rep m A ->
  (exists s A' m', A ≡ₚ (addr, s) :: A' /\ ma_release m addr = Some (m', true) /\ ma_rep m' A') \/
  ((forall s, (addr, s) ∉ A) /\ ma_release m addr = Some (m, false)).
Proof.
  intros HR. destruct (release_spec m A addr HR) as (m' & _ & [(s & A' & E & HA & HR')|(E & -> & Hn)]).
  - left. by exists s, A', m'.
  - right. done.
Qed.

(** [findFreeBlock] is a best fit: over the free blocks of a
    well-formed page it returns one of the smallest that is large enough, and
    null only if none is. *)
Theorem ma_best_fit pg bl us ss sz :
  page_rep pg bl us ss ->
  exists r, findFreeBlock pg sz = Some r /\
  match r with
  | Some p => p ∈ sel false bl /\ sz <= szof pg p /\
      forall q, q ∈ sel false bl -> sz <= szof pg q -> szof pg p <= szof pg q
  | None => forall q, q ∈ sel false bl -> szof pg q < sz
  end.
Proof. apply findFreeBlock_spec. Qed.

(** ** Concrete runs: 64 KiB at 0x1000, 4 KiB pages, 64-byte blocks *)

Definition ma_sample : MemoryAllocator := MemoryAllocator_init 0x1000 0x10000 (2 ^ 12) (2 ^ 6).

Lemma ma_sample_config : ma_config ma_sample 6 12.
Proof. unfold ma_config. cbn. split_and!; try lia; try done. by exists 16. Qed.

(** Three blocks, the middle one released and reused; then all is released. *)
Definition ma_sample_ops : list ma_op :=
  [OpAllocate 100; OpAllocate 64; OpAllocate 4000; OpReserve 0x8000 1; OpRelease 0x1080;
   OpAllocate 10; OpRelease 0x1000; OpRelease 0x2000].

Lemma ma_run_safe_witness :
  exists m, ma_run ma_sample ma_sample_ops = Some m /\ allocated_ m = 64 + 4096 /\
    map (fun pg => (pg_addr pg, pg_size pg)) (pages_ m) = [(0x1000, 0x1000); (0x8000, 0x1000)] /\
    (exists A, ma_rep m A /\ pairwise A).
Proof.
  destruct (ma_run_safe 0x1000 0x10000 6 12 ma_sample_ops) as (m & A & E & HR & HP & _);
    [exact ma_sample_config|repeat constructor; cbn; lia|].
  exists m. split; [exact E|].
  assert (E' : (fun m => (allocated_ m, map (fun pg => (pg_addr pg, pg_size pg)) (pages_ m))) <$> ma_run ma_sample ma_sample_ops
    = Some (64 + 4096, [(0x1000, 0x1000); (0x8000, 0x1000)])) by (vm_compute; reflexivity).
  change (ma_run ma_sample ma_sample_ops = Some m) in E. rewrite E in E'. cbn in E'. injection E' as H1 H2.
  split; [exact H1|]. split; [exact H2|]. exists A. split; [exact HR|exact HP].
Defined.

Lemma ma_allocate_refines_witness :
  exists a m', ma_allocate ma_sample 100 = Some (m', Some a) /\ a = 0x1000 /\ ma_rep m' [(a, 128)].
Proof.
  destruct (ma_allocate_refines ma_sample [] 6 12 100) as (m' & sz' & Hs & [k Hd] & [(a & E & HR & _)|(E & _)]);
    [exact (init_rep 0x1000 0x10000 (2 ^ 12) (2 ^ 6))|exact ma_sample_config|cbn; lia|..].
  - exists a, m'. split; [exact E|].
    assert (E' : snd <$> ma_allocate ma_sample 100 = Some (Some 0x1000)) by (vm_compute; reflexivity).
    rewrite E in E'. cbn in E'. injection E' as ->. split; [done|].
    assert (sz' = 128) as -> by lia. exact HR.
  - exfalso. assert (E' : snd <$> ma_allocate ma_sample 100 = Some (Some 0x1000)) by (vm_compute; reflexivity).
    rewrite E in E'. discriminate E'.
Defined.

Lemma ma_sample_allocated : exists m, ma_allocate ma_sample 100 = Some (m, Some 0x1000) /\ ma_rep m [(0x1000, 128)].
Proof.
  assert (E' : snd <$> ma_allocate ma_sample 100 = Some (Some 0x1000)) by (vm_compute; reflexivity).
  destruct (allocate_spec ma_sample [] 6 12 100 (init_rep 0x1000 0x10000 (2 ^ 12) (2 ^ 6)) ma_sample_config)
    as (m & sz & _ & Hs & [k Hd] & _ & [(a & E & HR)|(E & _)]); [cbn; lia|..];
    rewrite E in E'; [|discriminate E'].
  injection E' as ->. exists m. split; [done|]. assert (sz = 128) as -> by lia. exact HR.
Qed.

Lemma ma_release_refines_witness :
  exists m m', ma_rep m [(0x1000, 128)] /\ ma_release m 0x1000 = Some (m', true) /\ ma_rep m' [].
Proof.
  destruct ma_sample_allocated as (m & _ & HR).
  destruct (ma_release_refines m [(0x1000, 128)] 0x1000 HR) as [(s & A' & m' & HA & E & HR')|(Hn & _)].
  - exists m, m'. split; [exact HR|]. split; [exact E|].
    apply Permutation_singleton_l in HA. injection HA as _ <-. exact HR'.
  - exfalso. apply (Hn 128). left.
Defined.

Lemma ma_best_fit_witness :
  exists r, findFreeBlock (new_page 0x1000 0x1000 64) 256 = Some r /\ r = Some 1%positive.
Proof.
  destruct (new_page_ok 0x1000 0x1000 64) as ((_ & bl & us & ss & HR & _) & _); [lia..|by exists 64|].
  destruct (ma_best_fit (new_page 0x1000 0x1000 64) bl us ss 256 HR) as (r & E & _).
  exists r. split; [exact E|].
  assert (E' : findFreeBlock (new_page 0x1000 0x1000 64) 256 = Some (Some 1%positive)) by (vm_compute; reflexivity).
  rewrite E' in E. by injection E as <-.
Defined.

(** The first page is created without a capacity check: an allocator of 64 KiB
    grants a request of 1 MiB, and its free space wraps around. *)
Example ma_first_allocation_unbounded :
  (fun '(m, a) => (a, ma_free m)) <$> ma_allocate ma_sample 0x100000 =
    Some (Some 0x1000, 2 ^ 64 + 0x10000 - 0x100000).
Proof. vm_compute. reflexivity. Qed.

(** A reservation below the base address is accepted, and the next page is then
    placed right after it, still below the base. *)
Example ma_reserve_below_base :
  ('(m, ok) ← ma_reserve (MemoryAllocator_init 0x10000 0x10000 (2 ^ 12) (2 ^ 6)) 0x1000 64;
   '(m, a) ← ma_allocate m 64; Some (ok, a)) = Some (true, Some 0x2000).
Proof. vm_compute. reflexivity. Qed.
