(* ===== verification/VmTypes.v ===== *)
(** * Virtual memory data types

    [sw/common/vm_types.h]: the page-table root register, page-table entries
    and virtual addresses of the Sv32 and Sv39 modes.  [VX_VM_ADDR_MODE] is a
    preprocessor choice in the source and the argument [m] here; a failed
    [assert] is [None].  The theorems are the encode/decode round trips the
    driver and the device MMU share. *)

From S2P Require Import Prelude.

Inductive vm_mode := SV32 | SV39.

Definition VX_VM_PAGE_LOG2_SIZE : Z := 12.
Definition VX_VM_PT_SIZE : Z := 4096.
Definition VX_VM_PT_LEVEL (m : vm_mode) : nat := match m with SV32 => 2 | SV39 => 3 end.
Definition VX_VM_PTE_SIZE (m : vm_mode) : Z := match m with SV32 => 4 | SV39 => 8 end.
Definition BARE : Z := 0x0.
Definition mode_code (m : vm_mode) : Z := match m with SV32 => 0x1 | SV39 => 0x8 end.

(** [bits(input, s, e)] and [bit(input, idx)] *)
Definition bits (input s e : Z) : Z := Z.land (Z.shiftr input s) (Z.shiftl 1 (e - s + 1) - 1).
Definition bit (input idx : Z) : bool := negb (Z.land input (Z.shiftl 1 idx) =? 0).

(** ** SATP *)

Record SATP_t := { satp_address : Z; satp_asid : Z; satp_mode : Z; satp_ppn : Z; satp_satp : Z }.

(** [SATP_t(uint64_t satp_val)] *)
Definition SATP_of_value (m : vm_mode) (v : Z) : SATP_t :=
  let '(mode, asid, ppn) :=
    match m with
    | SV32 => (b2z (bit v 31), bits v 22 30, bits v 0 21)
    | SV39 => (bits v 60 63, bits v 44 59, bits v 0 43)
    end in
  {| satp_address := u64 (Z.shiftl ppn VX_VM_PAGE_LOG2_SIZE); satp_asid := asid;
     satp_mode := mode; satp_ppn := ppn; satp_satp := v |}.

(** [SATP_t(uint64_t address, uint16_t asid)] *)
Definition SATP_make (m : vm_mode) (address asid : Z) : option SATP_t :=
  let ppn := Z.shiftr address VX_VM_PAGE_LOG2_SIZE in
  let mode := mode_code m in
  match m with
  | SV32 =>
      if Z.shiftr address 32 =? 0 then
        Some {| satp_address := address; satp_asid := asid; satp_mode := mode; satp_ppn := ppn;
                satp_satp := Z.lor (Z.lor (u64 (Z.shiftl mode 31)) (u64 (Z.shiftl asid 22))) ppn |}
      else None
  | SV39 =>
      Some {| satp_address := address; satp_asid := asid; satp_mode := mode; satp_ppn := ppn;
              satp_satp := Z.lor (Z.lor (u64 (Z.shiftl mode 60)) (u64 (Z.shiftl asid 44))) ppn |}
  end.

(** ** Page-table entries *)

Record PTE_t := {
  pte_address : Z; pte_N : bool; pte_PBMT : Z; pte_ppn : Z; pte_rsw : Z; pte_flags : Z; pte_level : Z;
  pte_d : bool; pte_a : bool; pte_g : bool; pte_u : bool; pte_x : bool; pte_w : bool; pte_r : bool;
  pte_v : bool; pte_bytes : Z
}.

(** [set_flags] applied to the other fields of an entry. *)
Definition pte_with_flags (address : Z) (N : bool) (PBMT ppn rsw level bytes flags : Z) : PTE_t := {|
  pte_address := address; pte_N := N; pte_PBMT := PBMT; pte_ppn := ppn; pte_rsw := rsw;
  pte_flags := flags; pte_level := level;
  pte_d := bit flags 7; pte_a := bit flags 6; pte_g := bit flags 5; pte_u := bit flags 4;
  pte_x := bit flags 3; pte_w := bit flags 2; pte_r := bit flags 1; pte_v := bit flags 0;
  pte_bytes := bytes |}.

(** [PTE_t(uint64_t address, uint32_t flags)]; [rsw] is left unset there. *)
Definition PTE_make (m : vm_mode) (address flags : Z) : option PTE_t :=
  let ppn := Z.shiftr address VX_VM_PAGE_LOG2_SIZE in
  let bytes := Z.lor (u64 (Z.shiftl ppn 10)) flags in
  match m with
  | SV39 => Some (pte_with_flags address false 0 ppn 0 3 bytes flags)
  | SV32 =>
      if Z.shiftr address 32 =? 0 then Some (pte_with_flags address false 0 ppn 0 2 bytes flags)
      else None
  end.

(** The fields [PTE_t(uint64_t pte_bytes)] fills. *)
Definition PTE_fields (m : vm_mode) (b : Z) : PTE_t :=
  match m with
  | SV39 =>
      let ppn := bits b 10 53 in
      pte_with_flags (u64 (Z.shiftl ppn VX_VM_PAGE_LOG2_SIZE)) (bit b 63) (bits b 61 62) ppn
        (bits b 8 9) 3 b (bits b 0 7)
  | SV32 =>
      let ppn := bits b 10 31 in
      pte_with_flags (u64 (Z.shiftl ppn VX_VM_PAGE_LOG2_SIZE)) false 0 ppn
        (bits b 8 9) 2 b (bits b 0 7)
  end.

(** [PTE_t(uint64_t pte_bytes)], with its assertion. *)
Definition PTE_of_bytes (m : vm_mode) (b : Z) : option PTE_t :=
  match m with
  | SV39 => Some (PTE_fields m b)
  | SV32 => if Z.shiftr b 32 =? 0 then Some (PTE_fields m b) else None
  end.

(** ** Virtual addresses *)

Record vAddr_t := { va_vpn : list Z; va_pgoff : Z }.

(** The fields the constructor fills. *)
Definition vAddr_fields (m : vm_mode) (address : Z) : vAddr_t :=
  match m with
  | SV39 => {| va_vpn := [bits address 12 20; bits address 21 29; bits address 30 38];
               va_pgoff := bits address 0 11 |}
  | SV32 => {| va_vpn := [bits address 12 21; bits address 22 31]; va_pgoff := bits address 0 11 |}
  end.

(** [vAddr_t(uint64_t address)], with its assertion. *)
Definition vAddr_make (m : vm_mode) (address : Z) : option vAddr_t :=
  match m with
  | SV39 => Some (vAddr_fields m address)
  | SV32 => if Z.shiftr address 32 =? 0 then Some (vAddr_fields m address) else None
  end.

(** ** Fields *)

Lemma bits_ones x s e : 0 <= s -> s <= e + 1 -> bits x s e = Z.land (Z.shiftr x s) (Z.ones (e - s + 1)).
Proof. intros. unfold bits. rewrite Z.ones_equiv, Z.shiftl_1_l. by rewrite Z.sub_1_r. Qed.

Lemma bits_div x s e : 0 <= s -> s <= e + 1 -> bits x s e = x / 2 ^ s mod 2 ^ (e - s + 1).
Proof. intros. rewrite bits_ones, Z.land_ones, Z.shiftr_div_pow2 by lia. done. Qed.

Lemma bits_range x s e : 0 <= s -> s <= e + 1 -> in_u (e - s + 1) (bits x s e).
Proof. intros. rewrite bits_div by lia. apply wrap_range. lia. Qed.

Lemma bit_testbit x i : 0 <= i -> bit x i = Z.testbit x i.
Proof.
  intros Hi. unfold bit. rewrite Z.shiftl_1_l. destruct (Z.testbit x i) eqn:E.
  - apply negb_true_iff, Z.eqb_neq. intros H.
    assert (Z.testbit (Z.land x (2 ^ i)) i = true) as HT by (by rewrite Z.land_spec, E, Z.pow2_bits_true by lia).
    by rewrite H, Z.bits_0 in HT.
  - apply negb_false_iff, Z.eqb_eq, Z.bits_inj'. intros j Hj. rewrite Z.land_spec, Z.bits_0.
    destruct (Z.eq_dec i j) as [->|]; [by rewrite E|]. rewrite Z.pow2_bits_false by lia. apply andb_false_r.
Qed.

(** Bitwise proof of an equation between fields. *)
Ltac fields := rewrite ?bits_ones by lia; zbits.

(** The low part of a concatenation. *)
Lemma bits_lor_low hi lo n : 0 < n -> in_u n lo ->
  bits (Z.lor (Z.shiftl hi n) lo) 0 (n - 1) = lo.
Proof. intros. fields. Qed.

(** The field [s..e] above an [s]-bit part. *)
Lemma bits_lor_high hi lo s e : 0 <= s -> s <= e -> in_u s lo -> in_u (e - s + 1) hi ->
  bits (Z.lor (Z.shiftl hi s) lo) s e = hi.
Proof.
  intros. rewrite bits_ones by lia. apply Z.bits_inj'; intros i Hi. testbits. kill_high.
  rewrite orb_false_r, Z.add_simpl_r. split_index; [by rewrite andb_true_r|].
  kill_high. done.
Qed.

Lemma shiftr_range x k n : 0 <= k -> 0 <= n -> in_u (n + k) x -> in_u n (Z.shiftr x k).
Proof.
  intros Hk Hn [H0 H1]. rewrite Z.shiftr_div_pow2 by lia. rewrite Z.pow_add_r in H1 by lia.
  pose proof (pow2_pos k Hk). split; [apply Z.div_pos; lia|]. apply Z.div_lt_upper_bound; lia.
Qed.

Lemma shiftr_zero_iff x k : 0 <= k -> 0 <= x -> Z.shiftr x k = 0 <-> x < 2 ^ k.
Proof.
  intros Hk Hx. rewrite Z.shiftr_div_pow2 by lia. pose proof (pow2_pos k Hk). split; intros H1.
  - apply Z.div_small_iff in H1; lia.
  - apply Z.div_small. lia.
Qed.

(** Widths of a physical page number and of a physical address. *)
Definition ppn_width (m : vm_mode) : Z := match m with SV32 => 20 | SV39 => 44 end.
Definition pa_width (m : vm_mode) : Z := ppn_width m + 12.

Lemma pte_encode m address flags :
  in_u (pa_width m) address -> in_u 8 flags ->
  exists e e', PTE_make m address flags = Some e /\ PTE_of_bytes m (pte_bytes e) = Some e' /\
    pte_ppn e' = pte_ppn e /\ pte_ppn e' = address / 2 ^ 12 /\ pte_flags e' = flags /\
    pte_rsw e' = 0 /\ pte_N e' = false /\ pte_PBMT e' = 0 /\
    [pte_d e'; pte_a e'; pte_g e'; pte_u e'; pte_x e'; pte_w e'; pte_r e'; pte_v e'] =
    [pte_d e; pte_a e; pte_g e; pte_u e; pte_x e; pte_w e; pte_r e; pte_v e].
Proof.
  intros HA HF. set (ppn := Z.shiftr address 12).
  assert (HP : in_u (ppn_width m) ppn) by (apply shiftr_range; [lia|destruct m; cbn; lia|done]).
  assert (HP44 : in_u 44 ppn) by (unfold in_u, ppn_width in *; destruct m; lia).
  assert (HB : Z.lor (u64 (Z.shiftl ppn 10)) flags = Z.lor (Z.shiftl ppn 10) flags).
  { f_equal. apply wrap_small. unfold in_u in *. rewrite Z.shiftl_mul_pow2 by lia. lia. }
  assert (Hf : bits (Z.lor (Z.shiftl ppn 10) flags) 0 7 = flags).
  { rewrite bits_ones by lia. apply Z.bits_inj'; intros i Hi. testbits. split_index; kill_high;
      rewrite ?andb_true_r, ?andb_false_r, ?orb_false_l; try done. f_equal; lia. }
  assert (Hr : bits (Z.lor (Z.shiftl ppn 10) flags) 8 9 = 0).
  { rewrite bits_ones by lia. apply Z.bits_inj'; intros i Hi. testbits. split_index; kill_high; rewrite ?andb_false_r; done. }
  assert (Hd : ppn = address / 2 ^ 12) by (unfold ppn; by rewrite Z.shiftr_div_pow2 by lia).
  destruct m; unfold pa_width, ppn_width in HA, HP; unfold PTE_make, PTE_of_bytes, PTE_fields, VX_VM_PAGE_LOG2_SIZE; fold ppn; rewrite HB.
  - assert (Z.shiftr address 32 = 0) as -> by (apply shiftr_zero_iff; unfold in_u in *; lia). cbn [Z.eqb].
    eexists _, _. split; [reflexivity|].
    assert (Z.shiftr (Z.lor (Z.shiftl ppn 10) flags) 32 = 0) as E.
    { assert (in_u 32 (Z.lor (Z.shiftl ppn 10) flags)) as [? ?].
      { apply lor_in_u; unfold in_u in *; [lia| |lia]. rewrite Z.shiftl_mul_pow2 by lia. lia. }
      apply shiftr_zero_iff; lia. }
    cbn [pte_with_flags pte_bytes]. rewrite E. cbn [Z.eqb]. split; [reflexivity|].
    cbn [pte_with_flags pte_ppn pte_flags pte_rsw pte_N pte_PBMT pte_d pte_a pte_g pte_u pte_x pte_w pte_r pte_v].
    rewrite Hf, Hr.
    rewrite (bits_lor_high ppn flags 10 31) by (unfold in_u in *; lia). done.
  - eexists _, _. split; [reflexivity|]. split; [reflexivity|].
    cbn [pte_with_flags pte_bytes pte_ppn pte_flags pte_rsw pte_N pte_PBMT pte_d pte_a pte_g pte_u pte_x pte_w pte_r pte_v].
    rewrite Hf, Hr.
    rewrite (bits_lor_high ppn flags 10 53) by (unfold in_u in *; lia).
    rewrite (bit_testbit _ 63) by lia.
    assert (Z.testbit (Z.lor (Z.shiftl ppn 10) flags) 63 = false) as ->.
    { rewrite Z.lor_spec, Z.shiftl_spec by lia. kill_high. done. }
    assert (bits (Z.lor (Z.shiftl ppn 10) flags) 61 62 = 0) as ->.
    { rewrite bits_ones by lia. apply Z.bits_inj'; intros i Hi. testbits. kill_high. done. }
    done.
Qed.

(** An entry built for a physical page and a flag byte decodes
    to the same page number, the same flags, and the permission bits of the
    flag byte; no assertion fails. *)
Theorem pte_roundtrip m address flags :
  in_u (pa_width m) address -> in_u 8 flags ->
  exists e e', PTE_make m address flags = Some e /\ PTE_of_bytes m (pte_bytes e) = Some e' /\
    pte_ppn e' = pte_ppn e /\ pte_ppn e' = address / 2 ^ 12 /\ pte_flags e' = flags /\
    pte_rsw e' = 0 /\ pte_N e' = false /\ pte_PBMT e' = 0 /\
    [pte_d e'; pte_a e'; pte_g e'; pte_u e'; pte_x e'; pte_w e'; pte_r e'; pte_v e'] =
    [pte_d e; pte_a e; pte_g e; pte_u e; pte_x e; pte_w e; pte_r e; pte_v e].
Proof. apply pte_encode. Qed.

Lemma pte_roundtrip_witness :
  exists e e', PTE_make SV39 0x80042000 0xCF = Some e /\ PTE_of_bytes SV39 (pte_bytes e) = Some e' /\
    pte_ppn e' = 0x80042 /\ pte_flags e' = 0xCF /\ pte_x e' = true.
Proof.
  destruct (pte_roundtrip SV39 0x80042000 0xCF) as (e & e' & H1 & H2 & _ & H4 & H5 & _ & _ & _ & _);
    [split; vm_compute; done|split; vm_compute; done|].
  exists e, e'. split; [exact H1|]. split; [exact H2|]. split; [exact H4|]. split; [exact H5|].
  cbn in H1. injection H1 as <-. cbn in H2. injection H2 as <-. reflexivity.
Defined.

(** Widths of an address-space identifier and of a virtual address. *)
Definition asid_width (m : vm_mode) : Z := match m with SV32 => 9 | SV39 => 16 end.
Definition va_width (m : vm_mode) : Z := match m with SV32 => 32 | SV39 => 39 end.

Lemma mul_shiftl_range x k n : 0 <= k -> 0 <= n -> in_u n x -> in_u (n + k) (Z.shiftl x k).
Proof.
  intros Hk Hn [H0 H1]. rewrite Z.shiftl_mul_pow2 by lia. pose proof (pow2_pos k Hk).
  unfold in_u. rewrite Z.pow_add_r by lia. nia.
Qed.

Lemma satp_encode m address asid :
  in_u (pa_width m) address -> in_u (asid_width m) asid ->
  exists s, SATP_make m address asid = Some s /\
    let s' := SATP_of_value m (satp_satp s) in
    satp_mode s' = mode_code m /\ satp_mode s' <> BARE /\ satp_asid s' = asid /\
    satp_ppn s' = satp_ppn s /\ satp_ppn s' = address / 2 ^ 12 /\
    satp_address s' = address - address mod 2 ^ 12.
Proof.
  intros HA HS. set (ppn := Z.shiftr address 12).
  assert (HP : in_u (ppn_width m) ppn) by (apply shiftr_range; [lia|destruct m; cbn; lia|done]).
  assert (Hd : ppn = address / 2 ^ 12) by (unfold ppn; by rewrite Z.shiftr_div_pow2 by lia).
  assert (HX : u64 (Z.shiftl ppn 12) = address - address mod 2 ^ 12).
  { rewrite Hd, Z.shiftl_mul_pow2 by lia. pose proof (Z.div_mod address (2 ^ 12) ltac:(lia)).
    pose proof (Z.mod_pos_bound address (2 ^ 12) ltac:(lia)).
    rewrite wrap_small; [lia|]. unfold in_u, pa_width, ppn_width in *. destruct m; lia. }
  unfold asid_width, ppn_width, pa_width in *.
  destruct m; cbv iota in HA, HS, HP; unfold SATP_make, SATP_of_value, VX_VM_PAGE_LOG2_SIZE, mode_code; fold ppn.
  - assert (Z.shiftr address 32 = 0) as -> by (apply shiftr_zero_iff; unfold in_u, ppn_width in *; lia).
    cbn [Z.eqb]. eexists. split; [reflexivity|]. cbn [satp_satp].
    rewrite (wrap_small 64 (Z.shiftl 1 31)) by (split; vm_compute; done).
    rewrite (wrap_small 64 (Z.shiftl asid 22)) by (unfold in_u in *; rewrite Z.shiftl_mul_pow2 by lia; lia).
    set (v := Z.lor (Z.lor (Z.shiftl 1 31) (Z.shiftl asid 22)) ppn).
    assert (bits v 0 21 = ppn) as E1.
    { unfold v. rewrite bits_ones by lia. apply Z.bits_inj'; intros i Hi. testbits.
      split_index; kill_high; rewrite ?andb_true_r, ?andb_false_r, ?orb_false_l, ?Z.add_0_r; done. }
    assert (bits v 22 30 = asid) as E2.
    { unfold v. rewrite bits_ones by lia. apply Z.bits_inj'; intros i Hi. testbits.
      split_index; kill_high; rewrite ?andb_true_r, ?andb_false_r, ?orb_false_l, ?orb_false_r, ?Z.add_simpl_r; done. }
    assert (bit v 31 = true) as E3.
    { rewrite bit_testbit by lia. unfold v. rewrite !Z.lor_spec, Z.shiftl_spec by lia. done. }
    cbn. rewrite E1, E2, E3. cbn. done.
  - eexists. split; [reflexivity|]. cbn [satp_satp].
    rewrite (wrap_small 64 (Z.shiftl 8 60)) by (split; vm_compute; done).
    rewrite (wrap_small 64 (Z.shiftl asid 44)) by (unfold in_u in *; rewrite Z.shiftl_mul_pow2 by lia; lia).
    set (v := Z.lor (Z.lor (Z.shiftl 8 60) (Z.shiftl asid 44)) ppn).
    assert (bits v 0 43 = ppn) as E1.
    { unfold v. rewrite bits_ones by lia. apply Z.bits_inj'; intros i Hi. testbits.
      split_index; kill_high; rewrite ?andb_true_r, ?andb_false_r, ?orb_false_l, ?Z.add_0_r; done. }
    assert (H8 : in_u 4 8) by (unfold in_u; lia).
    assert (bits v 44 59 = asid) as E2.
    { unfold v. rewrite bits_ones by lia. apply Z.bits_inj'; intros i Hi. testbits.
      split_index; kill_high; rewrite ?andb_true_r, ?andb_false_r, ?orb_false_l, ?orb_false_r, ?Z.add_simpl_r; done. }
    assert (bits v 60 63 = 8) as E3.
    { unfold v. rewrite bits_ones by lia. apply Z.bits_inj'; intros i Hi. testbits.
      split_index; kill_high; rewrite ?andb_true_r, ?andb_false_r, ?orb_false_r, ?Z.add_simpl_r; done. }
    cbn. rewrite E1, E2, E3. cbn. done.
Qed.

(** The SATP value built from a page-table base and an ASID
    decodes to the same mode, ASID and base page number: the driver and the
    MMUs agree on the root of the page table. *)
Theorem satp_roundtrip m address asid :
  in_u (pa_width m) address -> in_u (asid_width m) asid ->
  exists s, SATP_make m address asid = Some s /\
    let s' := SATP_of_value m (satp_satp s) in
    satp_mode s' = mode_code m /\ satp_mode s' <> BARE /\ satp_asid s' = asid /\
    satp_ppn s' = satp_ppn s /\ satp_ppn s' = address / 2 ^ 12 /\
    satp_address s' = address - address mod 2 ^ 12.
Proof. apply satp_encode. Qed.

Lemma satp_roundtrip_witness :
  exists s, SATP_make SV32 0xF0000000 5 = Some s /\ satp_satp s = 0x814F0000 /\
    satp_mode (SATP_of_value SV32 (satp_satp s)) = 1 /\ satp_asid (SATP_of_value SV32 (satp_satp s)) = 5.
Proof.
  destruct (satp_roundtrip SV32 0xF0000000 5) as (s & H1 & H2 & _ & H4 & _);
    [split; vm_compute; done|split; vm_compute; done|].
  exists s. split; [exact H1|]. split; [|split; [exact H2|exact H4]].
  cbn in H1. injection H1 as <-. reflexivity.
Defined.

(** The page-table indices and the page offset of a virtual
    address are in range and put the address together again. *)
Theorem vaddr_roundtrip m address :
  in_u (va_width m) address ->
  exists v, vAddr_make m address = Some v /\ length (va_vpn v) = VX_VM_PT_LEVEL m /\
    Forall (fun x => 0 <= x < VX_VM_PT_SIZE / VX_VM_PTE_SIZE m) (va_vpn v) /\
    0 <= va_pgoff v < 2 ^ 12 /\
    address = va_pgoff v + 2 ^ 12 * foldr (fun x acc => x + VX_VM_PT_SIZE / VX_VM_PTE_SIZE m * acc) 0 (va_vpn v).
Proof.
  intros HA. unfold va_width in HA. destruct m; unfold vAddr_make, vAddr_fields.
  - assert (Z.shiftr address 32 = 0) as -> by (apply shiftr_zero_iff; unfold in_u in *; lia).
    cbn [Z.eqb]. eexists. split; [reflexivity|]. cbn -[Z.mul Z.div].
    rewrite !bits_div by lia. cbn -[Z.mul Z.div Z.modulo Z.pow].
    pose proof (Z.mod_pos_bound address (2 ^ 12) ltac:(lia)).
    pose proof (Z.mod_pos_bound (address / 2 ^ 12) (2 ^ 10) ltac:(lia)).
    pose proof (Z.mod_pos_bound (address / 2 ^ 22) (2 ^ 10) ltac:(lia)).
    change (VX_VM_PT_SIZE / 4) with (2 ^ 10). change (21 - 12 + 1) with 10. change (31 - 22 + 1) with 10.
    change (11 - 0 + 1) with 12. change (2 ^ 0) with 1.
    split; [done|]. split; [rewrite !Forall_cons_iff; split_and!; try lia; constructor|]. split; [rewrite Z.div_1_r; lia|].
    unfold in_u in HA. rewrite Z.div_1_r.
    assert (address / 2 ^ 22 = address / 2 ^ 12 / 2 ^ 10) as -> by (by rewrite Z.div_div by lia).
    assert (0 <= address / 2 ^ 12 / 2 ^ 10 < 2 ^ 10) by (repeat apply div_range; lia).
    rewrite (Z.mod_small (address / 2 ^ 12 / 2 ^ 10)) by lia.
    pose proof (Z.div_mod address (2 ^ 12) ltac:(lia)).
    pose proof (Z.div_mod (address / 2 ^ 12) (2 ^ 10) ltac:(lia)). lia.
  - eexists. split; [reflexivity|]. cbn -[Z.mul Z.div].
    rewrite !bits_div by lia. cbn -[Z.mul Z.div Z.modulo Z.pow].
    pose proof (Z.mod_pos_bound address (2 ^ 12) ltac:(lia)).
    pose proof (Z.mod_pos_bound (address / 2 ^ 12) (2 ^ 9) ltac:(lia)).
    pose proof (Z.mod_pos_bound (address / 2 ^ 21) (2 ^ 9) ltac:(lia)).
    pose proof (Z.mod_pos_bound (address / 2 ^ 30) (2 ^ 9) ltac:(lia)).
    change (VX_VM_PT_SIZE / 8) with (2 ^ 9). change (20 - 12 + 1) with 9. change (29 - 21 + 1) with 9.
    change (38 - 30 + 1) with 9. change (11 - 0 + 1) with 12. change (2 ^ 0) with 1.
    split; [done|]. split; [rewrite !Forall_cons_iff; split_and!; try lia; constructor|]. split; [rewrite Z.div_1_r; lia|].
    unfold in_u in HA. rewrite Z.div_1_r.
    assert (address / 2 ^ 21 = address / 2 ^ 12 / 2 ^ 9) as E1 by (by rewrite Z.div_div by lia).
    assert (address / 2 ^ 30 = address / 2 ^ 12 / 2 ^ 9 / 2 ^ 9) as E2 by (by rewrite !Z.div_div by lia).
    rewrite E1, E2.
    assert (0 <= address / 2 ^ 12 / 2 ^ 9 / 2 ^ 9 < 2 ^ 9) by (repeat apply div_range; lia).
    rewrite (Z.mod_small (address / 2 ^ 12 / 2 ^ 9 / 2 ^ 9)) by lia.
    pose proof (Z.div_mod address (2 ^ 12) ltac:(lia)).
    pose proof (Z.div_mod (address / 2 ^ 12) (2 ^ 9) ltac:(lia)).
    pose proof (Z.div_mod (address / 2 ^ 12 / 2 ^ 9) (2 ^ 9) ltac:(lia)). lia.
Qed.

Lemma vaddr_roundtrip_witness :
  exists v, vAddr_make SV39 0x1234567ABC = Some v /\ va_vpn v = [0x167; 0x1A2; 0x48] /\
    0x1234567ABC = va_pgoff v + 2 ^ 12 * foldr (fun x acc => x + 512 * acc) 0 (va_vpn v).
Proof.
  destruct (vaddr_roundtrip SV39 0x1234567ABC) as (v & H1 & _ & _ & _ & H5); [split; vm_compute; done|].
  exists v. split; [exact H1|]. split; [|exact H5]. cbn in H1. injection H1 as <-. reflexivity.
Defined.
