(* ===== verification/CmdProc.v ===== *)
(** * Command processor

    [sim/common/cmd_processor.{h,cpp}]: the engine that fetches 64-byte lines of
    commands from a ring in memory, executes them against the device and
    publishes the number of retired commands.  The device is an abstract state
    [D] reached through the record [Hooks], one optional operation per
    [std::function] of the source (an empty function is [None]); the memory and
    busy queries observe [D] without changing it.  Configuration constants and
    the [VX_CFG_VM_ENABLE] switch are the record [cp_cfg].  [tick] is one cycle
    of the engine and launch state machines. *)

From S2P Require Import Prelude VmTypes.

(** ** Types *)

Inductive EngState := EIdle | EDecode | EBid | EWaitDone | ERetire | EDrawStep | EDrawLaunchWait.
Inductive LaunchState := LIdle | LPulseStart | LWaitBusy | LWaitDrain.

#[export] Instance EngState_eq_dec : EqDecision EngState.
Proof. solve_decision. Defined.
#[export] Instance LaunchState_eq_dec : EqDecision LaunchState.
Proof. solve_decision. Defined.

Definition OP_NOP : Z := 0x00.
Definition OP_MEM_WRITE : Z := 0x01.
Definition OP_MEM_READ : Z := 0x02.
Definition OP_MEM_COPY : Z := 0x03.
Definition OP_DCR_WRITE : Z := 0x04.
Definition OP_DCR_READ : Z := 0x05.
Definition OP_LAUNCH : Z := 0x06.
Definition OP_FENCE : Z := 0x07.
Definition OP_EVENT_SIG : Z := 0x08.
Definition OP_EVENT_WAIT : Z := 0x09.
Definition OP_CACHE_FLUSH : Z := 0x0A.
Definition OP_LAUNCH_QMD : Z := 0x0B.
Definition OP_DRAW : Z := 0x0C.

Definition DRAW_STEP_BYTES : Z := 28.
Definition MAX_DRAW_STEPS : Z := 256.
Definition MEM_FLAG_PHYSICAL : Z := 0x04.
Definition CL_BYTES : Z := 64.
Definition MAX_CMDS_PER_CL : nat := 5.
Definition VX_DCR_BASE_CACHE_FLUSH : Z := 0x000.

Record Cmd := { opcode : Z; flags : Z; reserved : Z; arg0 : Z; arg1 : Z; arg2 : Z }.

Definition no_cmd : Cmd := {| opcode := 0; flags := 0; reserved := 0; arg0 := 0; arg1 := 0; arg2 := 0 |}.

Record Queue := {
  ring_base : Z; head_addr : Z; cmpl_addr : Z; ring_log2 : Z; control : Z; tail : Z;
  tail_lo_staging : Z; q_head : Z; seqnum : Z; q_error : Z
}.

Definition Queue_init : Queue := {|
  ring_base := 0; head_addr := 0; cmpl_addr := 0; ring_log2 := 16; control := 0; tail := 0;
  tail_lo_staging := 0; q_head := 0; seqnum := 0; q_error := 0 |}.

Record CommandProcessor := {
  cp_ctrl_ : Z; satp_ : Z; cycle_counter_ : Z; q0_ : Queue; last_dcr_rsp_ : Z;
  eng_state_ : EngState; launch_state_ : LaunchState; cur_cmd_ : Cmd;
  cur_is_launch_ : bool; cur_is_no_resource_ : bool;
  draw_phys_ : Z; draw_num_steps_ : Z; draw_step_ : Z; draw_cmd_ : Cmd;
  cl_buf_ : list Z; cl_cmd_count_ : nat; cl_cmd_slot_ : nat; cl_loaded_ : bool
}.

(** [CommandProcessor::CommandProcessor] and the member initializers. *)
Definition CommandProcessor_init : CommandProcessor := {|
  cp_ctrl_ := 0; satp_ := 0; cycle_counter_ := 0; q0_ := Queue_init; last_dcr_rsp_ := 0;
  eng_state_ := EIdle; launch_state_ := LIdle; cur_cmd_ := no_cmd;
  cur_is_launch_ := false; cur_is_no_resource_ := false;
  draw_phys_ := 0; draw_num_steps_ := 0; draw_step_ := 0; draw_cmd_ := no_cmd;
  cl_buf_ := replicate 64 0; cl_cmd_count_ := 0; cl_cmd_slot_ := 0; cl_loaded_ := false |}.

(** The build configuration the capability registers and the MMU depend on. *)
Record cp_cfg := {
  VM_ENABLE : bool; VM_MODE : vm_mode;
  NUM_THREADS : Z; NUM_WARPS : Z; NUM_CORES : Z; SOCKET_SIZE : Z; NUM_CLUSTERS : Z; ISSUE_WIDTH : Z;
  LMEM_ENABLED : bool; LMEM_LOG_SIZE : Z; MEM_ADDR_WIDTH : Z; MEM_NUM_BANKS : Z;
  IMPL_ID : Z; MISA_EXT : Z; MISA_STD : Z; CFG_XLEN : Z
}.

(** [CommandProcessor::Hooks] *)
Record Hooks (D : Type) := {
  dram_read : option (D -> Z -> Z -> list Z);
  dram_write : option (D -> Z -> list Z -> D);
  vortex_dcr_write : option (D -> Z -> Z -> D);
  vortex_dcr_read : option (D -> Z -> Z -> Z * D);
  vortex_start : option (D -> D);
  vortex_busy : option (D -> bool)
}.
Arguments dram_read {D}. Arguments dram_write {D}. Arguments vortex_dcr_write {D}.
Arguments vortex_dcr_read {D}. Arguments vortex_start {D}. Arguments vortex_busy {D}.

(** ** Capabilities, status and MMIO *)

(** [cp_clog2]: the least [r] with [2^r >= n]; the loop runs at most 64 times. *)
Fixpoint clog2_from (fuel : nat) (r n : Z) : Z :=
  match fuel with
  | O => r
  | S fuel => if u64 (Z.shiftl 1 r) <? n then clog2_from fuel (r + 1) n else r
  end.
Definition cp_clog2 (n : Z) : Z := clog2_from 64 0 n.

Definition gpu_dev_caps (c : cp_cfg) : Z :=
  let cluster_size := NUM_CORES c / SOCKET_SIZE c in
  let bank_addr_w := u32 (MEM_ADDR_WIDTH c - cp_clog2 (MEM_NUM_BANKS c)) in
  let fld v m s := Z.shiftl (Z.land v m) s in
  Z.lor (Z.land (IMPL_ID c) 0xFF)
  (Z.lor (fld (cp_clog2 (NUM_THREADS c)) 0x7 8)
  (Z.lor (fld (cp_clog2 (NUM_WARPS c)) 0x7 11)
  (Z.lor (fld (cp_clog2 (SOCKET_SIZE c)) 0x7 14)
  (Z.lor (fld (cp_clog2 cluster_size) 0x7 17)
  (Z.lor (fld (cp_clog2 (NUM_CLUSTERS c)) 0x7 20)
  (Z.lor (fld (cp_clog2 (ISSUE_WIDTH c)) 0x7 23)
  (Z.lor (fld (if LMEM_ENABLED c then LMEM_LOG_SIZE c else 0) 0xFF 26)
  (Z.lor (fld (cp_clog2 (MEM_NUM_BANKS c)) 0x7 34)
         (fld (u32 (bank_addr_w - 20)) 0x1F 37))))))))).

Definition gpu_isa_caps (c : cp_cfg) : Z :=
  Z.lor (u64 (Z.shiftl (MISA_EXT c) 32))
  (Z.lor (Z.shiftl (Z.land (u32 (cp_clog2 (CFG_XLEN c) - 4)) 0x3) 30) (MISA_STD c)).

Definition enabled (p : CommandProcessor) : bool :=
  negb (Z.land (cp_ctrl_ p) 0x1 =? 0) && negb (Z.land (control (q0_ p)) 0x1 =? 0).

Definition busy (p : CommandProcessor) : bool :=
  enabled p &&
  ((q_head (q0_ p) <? tail (q0_ p)) || cl_loaded_ p ||
   bool_decide (eng_state_ p <> EIdle) || bool_decide (launch_state_ p <> LIdle)).

Definition upd_q (f : Queue -> Queue) (p : CommandProcessor) : CommandProcessor := p <| q0_ ::= f |>.

Definition mmio_write (p : CommandProcessor) (off value : Z) : CommandProcessor :=
  if off =? 0x000 then p <| cp_ctrl_ := value |>
  else if off =? 0x028 then p <| satp_ ::= fun s => set_lo32 s value |>
  else if off =? 0x02C then p <| satp_ ::= fun s => set_hi32 s value |>
  else if bool_decide (off ∈ [0x004; 0x008; 0x010; 0x014; 0x018; 0x01C; 0x020; 0x024]) then p
  else if (off >=? 0x100) && (off <? 0x140) then
    let o := off - 0x100 in
    if o =? 0x00 then upd_q (fun q => q <| ring_base ::= fun s => set_lo32 s value |>) p
    else if o =? 0x04 then upd_q (fun q => q <| ring_base ::= fun s => set_hi32 s value |>) p
    else if o =? 0x08 then upd_q (fun q => q <| head_addr ::= fun s => set_lo32 s value |>) p
    else if o =? 0x0C then upd_q (fun q => q <| head_addr ::= fun s => set_hi32 s value |>) p
    else if o =? 0x10 then upd_q (fun q => q <| cmpl_addr ::= fun s => set_lo32 s value |>) p
    else if o =? 0x14 then upd_q (fun q => q <| cmpl_addr ::= fun s => set_hi32 s value |>) p
    else if o =? 0x18 then upd_q (fun q => q <| ring_log2 := Z.land value 0xFF |>) p
    else if o =? 0x1C then upd_q (fun q => q <| control := value |>) p
    else if o =? 0x20 then upd_q (fun q => q <| tail_lo_staging := value |>) p
    else if o =? 0x24 then
      upd_q (fun q => q <| tail := Z.lor (u64 (Z.shiftl value 32)) (tail_lo_staging q) |>) p
    else p
  else p.

Definition mmio_read (c : cp_cfg) (p : CommandProcessor) (off : Z) : Z :=
  let q := q0_ p in
  if off =? 0x000 then cp_ctrl_ p
  else if off =? 0x004 then b2z (busy p)
  else if off =? 0x008 then
    Z.lor (Z.shiftl 1 26) (Z.lor (Z.shiftl 1 25) (Z.lor (if VM_ENABLE c then Z.shiftl 1 24 else 0)
      (Z.lor (Z.shiftl 6 16) (Z.lor (Z.shiftl 16 8) 1))))
  else if off =? 0x010 then lo32 (cycle_counter_ p)
  else if off =? 0x014 then u32 (hi32 (cycle_counter_ p))
  else if off =? 0x018 then lo32 (gpu_dev_caps c)
  else if off =? 0x01C then u32 (hi32 (gpu_dev_caps c))
  else if off =? 0x020 then lo32 (gpu_isa_caps c)
  else if off =? 0x024 then u32 (hi32 (gpu_isa_caps c))
  else if off =? 0x028 then lo32 (satp_ p)
  else if off =? 0x02C then u32 (hi32 (satp_ p))
  else if (off >=? 0x100) && (off <? 0x140) then
    let o := off - 0x100 in
    if o =? 0x00 then lo32 (ring_base q) else if o =? 0x04 then u32 (hi32 (ring_base q))
    else if o =? 0x08 then lo32 (head_addr q) else if o =? 0x0C then u32 (hi32 (head_addr q))
    else if o =? 0x10 then lo32 (cmpl_addr q) else if o =? 0x14 then u32 (hi32 (cmpl_addr q))
    else if o =? 0x18 then ring_log2 q
    else if o =? 0x1C then control q
    else if o =? 0x20 then tail_lo_staging q
    else if o =? 0x24 then u32 (hi32 (tail q))
    else if o =? 0x28 then lo32 (seqnum q)
    else if o =? 0x2C then q_error q
    else if o =? 0x30 then last_dcr_rsp_ p
    else 0xDEADBEEF
  else 0xDEADBEEF.

(** ** Decoding *)

Definition rd8 (buf : list Z) (o : Z) : Z :=
  if (o >=? 0) && (o <? Z.of_nat (length buf)) then default 0 (buf !! Z.to_nat o) else 0.

Definition rd64 (buf : list Z) (o : Z) : Z := le_word (map (fun i => rd8 buf (o + i)) (seqZ 0 8)).

(** Bytes of a command by opcode. *)
Definition cmd_size (op : Z) : Z :=
  if op =? OP_NOP then 4
  else if (op =? OP_LAUNCH) || (op =? OP_LAUNCH_QMD) || (op =? OP_DRAW) then 12
  else if op =? OP_FENCE then 8
  else if op =? OP_CACHE_FLUSH then 12
  else if (op =? OP_DCR_WRITE) || (op =? OP_DCR_READ) || (op =? OP_EVENT_SIG) then 20
  else if op =? OP_EVENT_WAIT then 28
  else if (op =? OP_MEM_WRITE) || (op =? OP_MEM_READ) || (op =? OP_MEM_COPY) then 28
  else 4.

(** [decode_cmd_bytes]: the record and the size it returns. *)
Definition decode_cmd_bytes (buf : list Z) (off : Z) : Cmd * Z :=
  let op := rd8 buf (off + 0) in
  ({| opcode := op; flags := rd8 buf (off + 1);
      reserved := Z.lor (rd8 buf (off + 2)) (Z.shiftl (rd8 buf (off + 3)) 8);
      arg0 := rd64 buf (off + 4); arg1 := rd64 buf (off + 12); arg2 := rd64 buf (off + 20) |},
   cmd_size op).

(** The loop of [unpack_cl]: number of commands found from [offset] on. *)
Fixpoint unpack_from (buf : list Z) (slots : nat) (offset : Z) : nat :=
  match slots with
  | O => 0
  | S slots =>
      if offset + 4 >? CL_BYTES then 0
      else if (rd8 buf offset =? 0) && (rd8 buf (offset + 1) =? 0) then 0
      else
        let sz := (decode_cmd_bytes buf offset).2 in
        if offset + sz >? CL_BYTES then 0
        else S (unpack_from buf slots (offset + sz))
  end.

Definition unpack_cl (p : CommandProcessor) : CommandProcessor :=
  p <| cl_cmd_count_ := unpack_from (cl_buf_ p) MAX_CMDS_PER_CL 0 |> <| cl_cmd_slot_ := 0%nat |>.

(** The offset of slot [s]: the skip loop of [load_next_cmd]. *)
Fixpoint slot_offset (buf : list Z) (s : nat) (off : Z) : Z :=
  match s with
  | O => off
  | S s => slot_offset buf s (off + (decode_cmd_bytes buf off).2)
  end.

(** ** The engine *)

Section Engine.
Context {D : Type} (c : cp_cfg) (h : Hooks D).

Definition VPN_BITS : Z := cp_clog2 (VX_VM_PT_SIZE / VX_VM_PTE_SIZE (VM_MODE c)).

(** The walk of [cp_translate] from level [i]: the leaf page number and its
    level, or [None] when the address is unmapped or has no leaf.  The
    assertions of the VM types are compiled out of the simulators' builds. *)
Fixpoint pt_walk (d : D) (vpn : list Z) (i : nat) (cur_base_ppn : Z) : option (Z * nat) :=
  let pte_addr := u64 (cur_base_ppn * VX_VM_PT_SIZE + nth i vpn 0 * VX_VM_PTE_SIZE (VM_MODE c)) in
  let bytes := match dram_read h with
               | Some f => le_word (f d pte_addr (VX_VM_PTE_SIZE (VM_MODE c)))
               | None => 0
               end in
  let pte := PTE_fields (VM_MODE c) bytes in
  if negb (pte_v pte) then None
  else if negb (pte_r pte) && negb (pte_w pte) && negb (pte_x pte) then
    match i with
    | O => None
    | S i => pt_walk d vpn i (pte_ppn pte)
    end
  else Some (pte_ppn pte, i).

Definition cp_translate (p : CommandProcessor) (d : D) (vaddr : Z) (physical : bool) : Z :=
  if negb (VM_ENABLE c) then vaddr
  else if physical || (satp_ p =? 0) then vaddr
  else
    let satp := SATP_of_value (VM_MODE c) (satp_ p) in
    if satp_mode satp =? BARE then vaddr
    else
      match pt_walk d (va_vpn (vAddr_fields (VM_MODE c) vaddr)) (VX_VM_PT_LEVEL (VM_MODE c) - 1)
              (satp_ppn satp) with
      | None => vaddr
      | Some (ppn, i) =>
          let off_mask := u64 (Z.shiftl 1 (VX_VM_PAGE_LOG2_SIZE + Z.of_nat i * VPN_BITS)) - 1 in
          Z.lor (Z.land (u64 (Z.shiftl ppn VX_VM_PAGE_LOG2_SIZE)) (u64 (Z.lnot off_mask)))
                (Z.land vaddr off_mask)
      end.

Definition fetch_if_needed (p : CommandProcessor) (d : D) : CommandProcessor :=
  if cl_loaded_ p then p
  else if q_head (q0_ p) >=? tail (q0_ p) then p
  else
    let mask := u64 (u64 (Z.shiftl 1 (ring_log2 (q0_ p))) - 1) in
    let off := Z.land (q_head (q0_ p)) mask in
    match dram_read h with
    | None => p
    | Some f =>
        unpack_cl (p <| cl_buf_ := f d (u64 (ring_base (q0_ p) + off)) CL_BYTES |>
                     <| cl_loaded_ := true |>)
    end.

Definition publish_completion (p : CommandProcessor) (d : D) : D :=
  match dram_write h with
  | None => d
  | Some f => if cmpl_addr (q0_ p) =? 0 then d else f d (cmpl_addr (q0_ p)) (le_bytes 8 (seqnum (q0_ p)))
  end.

Definition event_wait_satisfied (cmd : Cmd) (d : D) : bool :=
  match dram_read h with
  | None => true
  | Some f =>
      let cur := le_word (f d (arg0 cmd) 8) in
      let target := arg1 cmd in
      let op := Z.land (u32 (arg2 cmd)) 0x3 in
      if op =? 0 then cur =? target
      else if op =? 1 then cur >=? target
      else if op =? 2 then cur >? target
      else if op =? 3 then negb (cur =? target)
      else true
  end.

(** [{addr, value}] pairs of a descriptor, replayed through the DCR hook. *)
Fixpoint qmd_replay (rd : D -> Z -> Z -> list Z) (wr : D -> Z -> Z -> D) (count : nat) (addr : Z) (d : D) : D :=
  match count with
  | O => d
  | S count =>
      let pair := rd d addr 8 in
      let d := wr d (Z.land (le_word (take 4 pair)) 0xFFF) (le_word (drop 4 pair)) in
      qmd_replay rd wr count (u64 (addr + 8)) d
  end.

Definition MAX_QMD_DCRS : Z := 64.

Definition apply_qmd (p : CommandProcessor) (d : D) (qmd_addr : Z) : D :=
  match dram_read h, vortex_dcr_write h with
  | Some rd, Some wr =>
      let addr := cp_translate p d qmd_addr false in
      let count := le_word (rd d addr 4) in
      let count := if count >? MAX_QMD_DCRS then MAX_QMD_DCRS else count in
      qmd_replay rd wr (Z.to_nat count) (u64 (addr + 4)) d
  | _, _ => d
  end.

(** The per-core flush sweep of CMD_CACHE_FLUSH. *)
Definition cache_flush (d : D) (n : Z) : D :=
  match vortex_dcr_read h with
  | None => d
  | Some f => fold_left (fun d cid => (f d VX_DCR_BASE_CACHE_FLUSH cid).2) (seqZ 0 n) d
  end.

Definition do_dcr_write (d : D) (cmd : Cmd) : D :=
  match vortex_dcr_write h with
  | None => d
  | Some f => f d (Z.land (arg0 cmd) 0xFFF) (Z.land (arg1 cmd) 0xFFFFFFFF)
  end.

(** The response register and the device after a CMD_DCR_READ. *)
Definition do_dcr_read (rsp : Z) (d : D) (cmd : Cmd) : Z * D :=
  match vortex_dcr_read h with
  | None => (rsp, d)
  | Some f => f d (Z.land (arg0 cmd) 0xFFF) (Z.land (arg1 cmd) 0xFFFFFFFF)
  end.

(** [exec_inline_cmd_] *)
Definition exec_inline_cmd (p : CommandProcessor) (d : D) (cmd : Cmd) : CommandProcessor * D * bool :=
  if (opcode cmd =? OP_LAUNCH) || (opcode cmd =? OP_LAUNCH_QMD) then
    let d := if opcode cmd =? OP_LAUNCH_QMD then apply_qmd p d (arg0 cmd) else d in
    (p <| launch_state_ := LPulseStart |>, d, true)
  else if opcode cmd =? OP_DCR_WRITE then (p, do_dcr_write d cmd, false)
  else if opcode cmd =? OP_DCR_READ then
    let '(rsp, d) := do_dcr_read (last_dcr_rsp_ p) d cmd in (p <| last_dcr_rsp_ := rsp |>, d, false)
  else if opcode cmd =? OP_CACHE_FLUSH then (p, cache_flush d (Z.land (arg0 cmd) 0xFFFFFFFF), false)
  else (p, d, false).

(** [draw_load_step_] *)
Definition draw_load_step (p : CommandProcessor) (d : D) : CommandProcessor :=
  match dram_read h with
  | None => p <| draw_cmd_ := no_cmd |>
  | Some f =>
      let at_ := u64 (draw_phys_ p + 4 + draw_step_ p * DRAW_STEP_BYTES) in
      p <| draw_cmd_ := (decode_cmd_bytes (f d at_ DRAW_STEP_BYTES) 0).1 |>
  end.

Definition tick_launch (p : CommandProcessor) (d : D) : CommandProcessor * D :=
  match launch_state_ p with
  | LIdle => (p, d)
  | LPulseStart =>
      (p <| launch_state_ := LWaitBusy |>, match vortex_start h with Some f => f d | None => d end)
  | LWaitBusy =>
      match vortex_busy h with
      | Some f => if f d then (p <| launch_state_ := LWaitDrain |>, d) else (p, d)
      | None => (p, d)
      end
  | LWaitDrain =>
      match vortex_busy h with
      | Some f => if f d then (p, d) else (p <| launch_state_ := LIdle |>, d)
      | None => (p <| launch_state_ := LIdle |>, d)
      end
  end.

(** The [load_next_cmd] lambda of [tick_engine]. *)
Definition load_next_cmd (p : CommandProcessor) : CommandProcessor * bool :=
  if negb (cl_loaded_ p) then (p, false)
  else if (cl_cmd_count_ p <=? cl_cmd_slot_ p)%nat then
    (upd_q (fun q => q <| q_head ::= fun hd => u64 (hd + CL_BYTES) |>) (p <| cl_loaded_ := false |>), false)
  else
    let cmd := (decode_cmd_bytes (cl_buf_ p) (slot_offset (cl_buf_ p) (cl_cmd_slot_ p) 0)).1 in
    (p <| cur_cmd_ := cmd |>
       <| cur_is_launch_ := (opcode cmd =? OP_LAUNCH) || (opcode cmd =? OP_LAUNCH_QMD) |>
       <| cur_is_no_resource_ := (opcode cmd =? OP_NOP) || (opcode cmd =? OP_FENCE) |>, true).

Definition CHUNK : Z := 64 * 1024.

(** The chunked copy loop of CMD_MEM_*. *)
Fixpoint dma_loop (rd : D -> Z -> Z -> list Z) (wr : D -> Z -> list Z -> D)
    (fuel : nat) (src dst total done : Z) (d : D) : D :=
  match fuel with
  | O => d
  | S fuel =>
      if done <? total then
        let n := total - done in
        let n := if n >? CHUNK then CHUNK else n in
        dma_loop rd wr fuel src dst total (done + n)
          (wr d (u64 (dst + done)) (rd d (u64 (src + done)) n))
      else d
  end.

Definition do_mem (p : CommandProcessor) (d : D) (cmd : Cmd) : D :=
  match dram_read h, dram_write h with
  | Some rd, Some wr =>
      if arg2 cmd =? 0 then d
      else
        let physical := negb (Z.land (flags cmd) MEM_FLAG_PHYSICAL =? 0) in
        let dst := if opcode cmd =? OP_MEM_READ then arg0 cmd else cp_translate p d (arg0 cmd) physical in
        let src := if opcode cmd =? OP_MEM_WRITE then arg1 cmd else cp_translate p d (arg1 cmd) physical in
        dma_loop rd wr (S (Z.to_nat (arg2 cmd / CHUNK))) src dst (arg2 cmd) 0 d
  | _, _ => d
  end.

(** [EngState::Bid] *)
Definition tick_bid (p : CommandProcessor) (d : D) : CommandProcessor * D :=
  let cmd := cur_cmd_ p in
  let op := opcode cmd in
  if cur_is_launch_ p then
    let d := if op =? OP_LAUNCH_QMD then apply_qmd p d (arg0 cmd) else d in
    (p <| launch_state_ := LPulseStart |> <| eng_state_ := EWaitDone |>, d)
  else if op =? OP_DRAW then
    let phys := cp_translate p d (arg0 cmd) false in
    let n := match dram_read h with Some f => le_word (f d phys 4) | None => 0 end in
    (p <| draw_phys_ := phys |> <| draw_num_steps_ := (if n >? MAX_DRAW_STEPS then MAX_DRAW_STEPS else n) |>
       <| draw_step_ := 0 |> <| eng_state_ := EDrawStep |>, d)
  else if op =? OP_DCR_WRITE then (p <| eng_state_ := ERetire |>, do_dcr_write d cmd)
  else if op =? OP_DCR_READ then
    let '(rsp, d) := do_dcr_read (last_dcr_rsp_ p) d cmd in
    (p <| last_dcr_rsp_ := rsp |> <| eng_state_ := ERetire |>, d)
  else if op =? OP_CACHE_FLUSH then
    (p <| eng_state_ := ERetire |>, cache_flush d (Z.land (arg0 cmd) 0xFFFFFFFF))
  else if op =? OP_EVENT_SIG then
    (p <| eng_state_ := ERetire |>,
     match dram_write h with Some f => f d (arg0 cmd) (le_bytes 8 (arg1 cmd)) | None => d end)
  else if op =? OP_EVENT_WAIT then
    if event_wait_satisfied cmd d then (p <| eng_state_ := ERetire |>, d) else (p, d)
  else if (op =? OP_MEM_WRITE) || (op =? OP_MEM_READ) || (op =? OP_MEM_COPY) then
    (p <| eng_state_ := ERetire |>, do_mem p d cmd)
  else (p <| eng_state_ := ERetire |>, d).

Definition tick_engine (p : CommandProcessor) (d : D) : CommandProcessor * D :=
  match eng_state_ p with
  | EIdle =>
      let '(p, ok) := load_next_cmd (fetch_if_needed p d) in
      (if ok : bool then p <| eng_state_ := EDecode |> else p, d)
  | EDecode => (p <| eng_state_ := if cur_is_no_resource_ p then ERetire else EBid |>, d)
  | EBid => tick_bid p d
  | EWaitDone =>
      if cur_is_launch_ p && bool_decide (launch_state_ p <> LIdle) then (p, d)
      else (p <| eng_state_ := ERetire |>, d)
  | EDrawStep =>
      if draw_step_ p >=? draw_num_steps_ p then (p <| eng_state_ := ERetire |>, d)
      else
        let '(p, d, launched) := exec_inline_cmd (draw_load_step p d) d (draw_cmd_ (draw_load_step p d)) in
        if launched : bool then (p <| eng_state_ := EDrawLaunchWait |>, d)
        else (p <| draw_step_ ::= fun s => u32 (s + 1) |>, d)
  | EDrawLaunchWait =>
      if bool_decide (launch_state_ p <> LIdle) then (p, d)
      else (p <| draw_step_ ::= fun s => u32 (s + 1) |> <| eng_state_ := EDrawStep |>, d)
  | ERetire =>
      let p := upd_q (fun q => q <| seqnum ::= fun s => u64 (s + 1) |>) p in
      (p <| cl_cmd_slot_ ::= S |> <| eng_state_ := EIdle |>, publish_completion p d)
  end.

Definition tick (p : CommandProcessor) (d : D) : CommandProcessor * D :=
  let p := p <| cycle_counter_ ::= fun n => u64 (n + 1) |> in
  if negb (enabled p) then (p, d)
  else let '(p, d) := tick_engine p d in tick_launch p d.

Fixpoint ticks (n : nat) (p : CommandProcessor) (d : D) : CommandProcessor * D :=
  match n with
  | O => (p, d)
  | S n => let '(p, d) := tick p d in ticks n p d
  end.

End Engine.

Lemma unpack_from_bound buf n off : (unpack_from buf n off <= n)%nat.
Proof.
  revert off. induction n as [|n IH]; intros off; cbn [unpack_from]; [lia|].
  repeat case_match; [lia..|]. specialize (IH (off + (decode_cmd_bytes buf off).2)). lia.
Qed.

Lemma unpack_from_S buf n off : unpack_from buf (S n) off =
  if off + 4 >? CL_BYTES then 0%nat
  else if (rd8 buf off =? 0) && (rd8 buf (off + 1) =? 0) then 0%nat
  else if off + cmd_size (rd8 buf (off + 0)) >? CL_BYTES then 0%nat
  else S (unpack_from buf n (off + cmd_size (rd8 buf (off + 0)))).
Proof. reflexivity. Qed.

Lemma slot_offset_S buf s off :
  slot_offset buf (S s) off = slot_offset buf s (off + cmd_size (rd8 buf (off + 0))).
Proof. reflexivity. Qed.

#[global] Arguments unpack_from : simpl never.
#[global] Arguments slot_offset : simpl never.
#[global] Arguments decode_cmd_bytes : simpl never.
#[global] Arguments dma_loop : simpl never.
#[global] Arguments qmd_replay : simpl never.
#[global] Arguments cp_translate : simpl never.
#[global] Arguments MAX_CMDS_PER_CL : simpl never.

(** ** State-machine invariant *)

Section Invariant.
Context {D : Type} (c : cp_cfg) (h : Hooks D).

(** What holds between ticks: a launch in flight pins the engine, a command in
    flight has a loaded line and a valid slot. *)
Record cp_inv (p : CommandProcessor) : Prop := {
  inv_launch : launch_state_ p <> LIdle -> eng_state_ p = EWaitDone \/ eng_state_ p = EDrawLaunchWait;
  inv_wait : eng_state_ p = EWaitDone -> cur_is_launch_ p = true;
  inv_loaded : eng_state_ p <> EIdle -> cl_loaded_ p = true /\ (cl_cmd_slot_ p < cl_cmd_count_ p)%nat;
  inv_count : (cl_cmd_count_ p <= MAX_CMDS_PER_CL)%nat
}.

Lemma init_cp_inv : cp_inv CommandProcessor_init.
Proof. split; cbn; try done. lia. Qed.

(** The control part of the state. *)
Definition ctl (p : CommandProcessor) :=
  (launch_state_ p, eng_state_ p, cur_is_launch_ p, cl_loaded_ p, cl_cmd_slot_ p, cl_cmd_count_ p).

Lemma cp_inv_ctl p p' : ctl p' = ctl p -> cp_inv p -> cp_inv p'.
Proof. intros [= E1 E2 E3 E4 E5 E6] [H1 H2 H3 H4]. split; rewrite ?E1, ?E2, ?E3, ?E4, ?E5, ?E6; done. Qed.

Lemma mmio_write_ctl p off v : ctl (mmio_write p off v) = ctl p.
Proof.
  unfold mmio_write. repeat (match goal with |- context [if ?b then _ else _] => destruct b end; [reflexivity|]).
  destruct (_ && _); [|reflexivity].
  repeat (match goal with |- context [if ?b then _ else _] => destruct b end; [reflexivity|]). reflexivity.
Qed.

Lemma mmio_write_inv p off v : cp_inv p -> cp_inv (mmio_write p off v).
Proof. apply cp_inv_ctl, mmio_write_ctl. Qed.

Lemma fetch_inv_idle p d : cp_inv p -> eng_state_ p = EIdle ->
  cp_inv (fetch_if_needed h p d) /\ eng_state_ (fetch_if_needed h p d) = EIdle.
Proof.
  intros [H1 H2 H3 H4] HI. unfold fetch_if_needed. cbn zeta.
  repeat case_match; try done. unfold unpack_cl. split; [|done].
  split; cbn; unfold const; try done. apply unpack_from_bound.
Qed.

Lemma tick_launch_inv p d : cp_inv p -> cp_inv (tick_launch h p d).1.
Proof.
  intros [H1 H2 H3 H4]. unfold tick_launch. destruct (launch_state_ p) eqn:E; [by split; rewrite ?E|..];
    repeat case_match; cbn [fst]; split; cbn; unfold const; rewrite ?E in *; try done; intros; by apply H1.
Qed.

Lemma tick_engine_inv p d : cp_inv p -> cp_inv (tick_engine c h p d).1.
Proof.
  intros HI. pose proof HI as [H1 H2 H3 H4]. unfold tick_engine. destruct (eng_state_ p) eqn:E.
  - destruct (fetch_inv_idle p d HI E) as [[G1 G2 G3 G4] GE].
    set (p' := fetch_if_needed h p d) in *. clearbody p'. unfold load_next_cmd, upd_q. cbn zeta.
    destruct (cl_loaded_ p') eqn:El; cbn [negb]; [|by split].
    destruct (Nat.leb_spec (cl_cmd_count_ p') (cl_cmd_slot_ p')); cbn [fst]; split; cbn; unfold const; rewrite ?GE in *;
      try done; intros; destruct G1; done.
  - cbn [fst]. destruct (H3 ltac:(congruence)). destruct (cur_is_no_resource_ p); split; cbn; unfold const; try done;
      intros; destruct H1; congruence.
  - destruct (H3 ltac:(congruence)) as [H5 H6].
    assert (HL : launch_state_ p = LIdle).
    { destruct (launch_state_ p) eqn:EL; [done|..]; destruct H1; congruence. }
    unfold tick_bid. cbn zeta. repeat case_match; cbn [fst]; split; cbn; unfold const; rewrite ?HL, ?E; try done; by left.
  - destruct (H3 ltac:(congruence)) as [H5 H6]. rewrite (H2 eq_refl). cbn [andb].
    case_bool_decide as HB; cbn [fst]; [done|]. split; cbn; unfold const; done.
  - destruct (H3 ltac:(congruence)) as [H5 H6].
    assert (HL : launch_state_ p = LIdle).
    { destruct (launch_state_ p) eqn:EL; [done|..]; destruct H1; congruence. }
    unfold upd_q. cbn [fst]. split; cbn; unfold const; rewrite ?HL; done.
  - destruct (H3 ltac:(congruence)) as [H5 H6].
    assert (HL : launch_state_ p = LIdle).
    { destruct (launch_state_ p) eqn:EL; [done|..]; destruct H1; congruence. }
    case_match; [cbn [fst]; split; cbn; unfold const; rewrite ?HL; done|].
    assert (Hd : draw_load_step h p d = p <| draw_cmd_ := draw_cmd_ (draw_load_step h p d) |>).
    { unfold draw_load_step. by destruct (dram_read h). }
    rewrite Hd. cbn [draw_cmd_ set]. unfold exec_inline_cmd. cbn zeta.
    repeat case_match; simplify_eq; cbn [fst]; split; cbn; unfold const; rewrite ?HL, ?E; try done; by right.
  - destruct (H3 ltac:(congruence)) as [H5 H6].
    case_bool_decide as HB; cbn [fst]; [done|]. split; cbn; unfold const; done.
Qed.
(** One tick with the device in any state: between ticks the device runs on its
    own, and the host may write any register. *)
Inductive cp_step : CommandProcessor -> CommandProcessor -> Prop :=
| step_tick p d : cp_step p (tick c h p d).1
| step_mmio p off v : cp_step p (mmio_write p off v).

Lemma tick_inv p d : cp_inv p -> cp_inv (tick c h p d).1.
Proof.
  intros HI. unfold tick. set (p1 := p <| cycle_counter_ ::= _ |>).
  assert (HI1 : cp_inv p1) by (by apply (cp_inv_ctl p)).
  destruct (negb (enabled p1)); [done|].
  pose proof (tick_engine_inv p1 d HI1) as HE. destruct (tick_engine c h p1 d) as [p2 d2].
  by apply tick_launch_inv.
Qed.

Lemma reach_cp_inv p : rtc cp_step CommandProcessor_init p -> cp_inv p.
Proof.
  intros HR. assert (HG : forall q, rtc cp_step q p -> cp_inv q -> cp_inv p).
  { clear HR. intros q HR. induction HR as [q|q q' p Hs HR IH]; [done|]. intros HI. apply IH.
    destruct Hs; [by apply tick_inv|by apply mmio_write_inv]. }
  apply (HG _ HR), init_cp_inv.
Qed.

(** In every state the command processor can reach, under any
    register writes and any behaviour of the device, a kernel launch in flight
    blocks the engine: it neither touches the device nor retires a command
    until the launch state machine is idle again, and at most one launch is in
    flight. *)
Theorem cp_quiescent_during_launch p d :
  rtc cp_step CommandProcessor_init p -> launch_state_ p <> LIdle ->
  (eng_state_ p = EWaitDone \/ eng_state_ p = EDrawLaunchWait) /\
  tick_engine c h p d = (p, d) /\
  seqnum (q0_ (tick c h p d).1) = seqnum (q0_ p).
Proof.
  intros HR HL. pose proof (reach_cp_inv p HR) as [H1 H2 _ _].
  assert (HE : forall p', ctl p' = ctl p -> tick_engine c h p' d = (p', d)).
  { intros p' [= E1 E2 E3 _ _ _]. unfold tick_engine. rewrite E2.
    destruct (H1 HL) as [E|E]; rewrite E.
    - rewrite E1, E3, (H2 E). cbn [andb]. by rewrite bool_decide_true.
    - rewrite E1. by rewrite bool_decide_true. }
  split; [by apply H1|]. split; [by apply HE|].
  unfold tick. set (p1 := p <| cycle_counter_ ::= _ |>). destruct (negb (enabled p1)); [done|].
  rewrite (HE p1) by done. unfold tick_launch. repeat case_match; done.
Qed.

(** The sequence number counts retired commands: a tick adds
    one exactly when the processor is enabled and the engine is retiring, and
    in that tick the new count is written to the completion slot. *)
Theorem cp_seqnum_counts_retirements p d :
  seqnum (q0_ (tick c h p d).1) =
    (if enabled p && bool_decide (eng_state_ p = ERetire) then u64 (seqnum (q0_ p) + 1) else seqnum (q0_ p)) /\
  (enabled p = true -> eng_state_ p = ERetire -> launch_state_ p = LIdle ->
   (tick c h p d).2 =
     match dram_write h with
     | Some f => if cmpl_addr (q0_ p) =? 0 then d
                 else f d (cmpl_addr (q0_ p)) (le_bytes 8 (u64 (seqnum (q0_ p) + 1)))
     | None => d
     end).
Proof.
  unfold tick. set (p1 := p <| cycle_counter_ ::= _ |>).
  change (enabled p1) with (enabled p).
  destruct (enabled p) eqn:EN; cbn [negb andb]; [|done].
  assert (HL : forall q d', seqnum (q0_ (tick_launch h q d').1) = seqnum (q0_ q)).
  { intros q d'. unfold tick_launch. repeat case_match; done. }
  split.
  - destruct (tick_engine c h p1 d) as [p2 d2] eqn:ET. rewrite HL.
    assert (E2 : seqnum (q0_ p2) = seqnum (q0_ (tick_engine c h p1 d).1)) by by rewrite ET.
    rewrite E2. clear ET E2. unfold tick_engine. change (eng_state_ p1) with (eng_state_ p).
    destruct (eng_state_ p) eqn:EE; first [rewrite (bool_decide_false (_ = ERetire)) by discriminate | rewrite (bool_decide_true (_ = ERetire)) by reflexivity].
    + assert (HF : seqnum (q0_ (fetch_if_needed h p1 d)) = seqnum (q0_ p)).
      { unfold fetch_if_needed. repeat case_match; done. }
      unfold load_next_cmd, upd_q. repeat case_match; simplify_eq; done.
    + done.
    + unfold tick_bid. repeat case_match; done.
    + case_match; done.
    + done.
    + case_match; [done|].
      destruct (exec_inline_cmd c h (draw_load_step h p1 d) d _) as [[p3 d3] l] eqn:EX.
      assert (E3 : q0_ p3 = q0_ p).
      { assert (Ed : q0_ (draw_load_step h p1 d) = q0_ p) by (unfold draw_load_step; by case_match).
        rewrite <- Ed. clear Ed. unfold exec_inline_cmd in EX. repeat case_match; by simplify_eq. }
      destruct l; cbn; by rewrite E3.
    + case_match; done.
  - intros _ EE EL. unfold tick_engine. change (eng_state_ p1) with (eng_state_ p). rewrite EE.
    unfold tick_launch. change (launch_state_ (_ <| cl_cmd_slot_ ::= _ |> <| eng_state_ := _ |>)) with (launch_state_ p).
    rewrite EL. cbn [snd]. unfold publish_completion. destruct (dram_write h); [|done]. done.
Qed.

End Invariant.

(** ** Refinement to a sequential interpreter *)

(** Commands that complete without waiting. *)
Definition immediate (cmd : Cmd) : bool :=
  negb ((opcode cmd =? OP_LAUNCH) || (opcode cmd =? OP_LAUNCH_QMD) || (opcode cmd =? OP_DRAW) ||
        (opcode cmd =? OP_EVENT_WAIT)).

(** The commands of a line, in slot order. *)
Definition line_cmds (buf : list Z) (first count : nat) : list Cmd :=
  map (fun s => (decode_cmd_bytes buf (slot_offset buf s 0)).1) (seq first count).

Section Refinement.
Context {D : Type} (c : cp_cfg) (h : Hooks D).

(** What a command does, to the response register and the device. *)
Definition cmd_effect (p : CommandProcessor) (cmd : Cmd) (rsp : Z) (d : D) : Z * D :=
  let op := opcode cmd in
  if op =? OP_DCR_WRITE then (rsp, do_dcr_write h d cmd)
  else if op =? OP_DCR_READ then do_dcr_read h rsp d cmd
  else if op =? OP_CACHE_FLUSH then (rsp, cache_flush h d (Z.land (arg0 cmd) 0xFFFFFFFF))
  else if op =? OP_EVENT_SIG then
    (rsp, match dram_write h with Some f => f d (arg0 cmd) (le_bytes 8 (arg1 cmd)) | None => d end)
  else if (op =? OP_MEM_WRITE) || (op =? OP_MEM_READ) || (op =? OP_MEM_COPY) then (rsp, do_mem c h p d cmd)
  else (rsp, d).

(** The sequential reference: execute, count, publish. *)
Fixpoint spec_run (p : CommandProcessor) (cmds : list Cmd) (rsp seq : Z) (d : D) : Z * Z * D :=
  match cmds with
  | [] => (rsp, seq, d)
  | cmd :: cmds =>
      let '(rsp, d) := cmd_effect p cmd rsp d in
      let seq := u64 (seq + 1) in
      let d := match dram_write h with
               | Some f => if cmpl_addr (q0_ p) =? 0 then d else f d (cmpl_addr (q0_ p)) (le_bytes 8 seq)
               | None => d
               end in
      spec_run p cmds rsp seq d
  end.

(** The queue registers, without the sequence number. *)
Definition qregs (q : Queue) :=
  (ring_base q, head_addr q, cmpl_addr q, ring_log2 q, control q, tail q, tail_lo_staging q, q_head q, q_error q).

(** What a command in flight does not change. *)
Definition frame (p : CommandProcessor) :=
  (cp_ctrl_ p, satp_ p, qregs (q0_ p), launch_state_ p, cl_buf_ p, cl_cmd_count_ p, cl_loaded_ p).

(** Engine idle, enabled, no launch in flight. *)
Definition ready (p : CommandProcessor) : Prop :=
  enabled p = true /\ eng_state_ p = EIdle /\ launch_state_ p = LIdle.

Lemma frame_enabled p p' : frame p' = frame p -> enabled p' = enabled p.
Proof. intros [= E1 _ _ _ _ _ E2 _ _ _ _ _ _ _ _]. unfold enabled. by rewrite E1, E2. Qed.

Lemma frame_satp p p' : frame p' = frame p -> satp_ p' = satp_ p.
Proof. by intros [= _ E _ _ _ _ _ _ _ _ _ _ _ _ _]. Qed.

(** Only the page-table root matters to the DMA engine. *)
Lemma satp_mem p p' d cmd : satp_ p' = satp_ p -> do_mem c h p' d cmd = do_mem c h p d cmd.
Proof. intros E. unfold do_mem, cp_translate. by rewrite E. Qed.

Definition counted (p : CommandProcessor) : CommandProcessor := p <| cycle_counter_ ::= fun n => u64 (n + 1) |>.

Lemma tick_enabled p d : enabled p = true ->
  tick c h p d = let '(p2, d2) := tick_engine c h (counted p) d in tick_launch h p2 d2.
Proof. intros HE. unfold tick. change (enabled (p <| cycle_counter_ ::= _ |>)) with (enabled p). by rewrite HE. Qed.

Lemma tick_launch_idle p d : launch_state_ p = LIdle -> tick_launch h p d = (p, d).
Proof. intros E. unfold tick_launch. by rewrite E. Qed.

(** The four stages of an immediate command. *)
Lemma tick_load p d : ready p -> cl_loaded_ p = true -> (cl_cmd_slot_ p < cl_cmd_count_ p)%nat ->
  let cmd := (decode_cmd_bytes (cl_buf_ p) (slot_offset (cl_buf_ p) (cl_cmd_slot_ p) 0)).1 in
  exists p', tick c h p d = (p', d) /\ frame p' = frame p /\ eng_state_ p' = EDecode /\ cur_cmd_ p' = cmd /\
    cur_is_launch_ p' = (opcode cmd =? OP_LAUNCH) || (opcode cmd =? OP_LAUNCH_QMD) /\
    cur_is_no_resource_ p' = (opcode cmd =? OP_NOP) || (opcode cmd =? OP_FENCE) /\
    seqnum (q0_ p') = seqnum (q0_ p) /\ last_dcr_rsp_ p' = last_dcr_rsp_ p /\ cl_cmd_slot_ p' = cl_cmd_slot_ p.
Proof.
  intros (HE & HI & HL) Hld Hlt cmd. rewrite (tick_enabled p d HE). unfold tick_engine.
  change (eng_state_ (counted p)) with (eng_state_ p). rewrite HI. unfold fetch_if_needed.
  change (cl_loaded_ (counted p)) with (cl_loaded_ p). rewrite Hld. unfold load_next_cmd.
  change (cl_loaded_ (counted p)) with (cl_loaded_ p). rewrite Hld. cbn [negb].
  change (cl_cmd_count_ (counted p)) with (cl_cmd_count_ p). change (cl_cmd_slot_ (counted p)) with (cl_cmd_slot_ p).
  destruct (Nat.leb_spec (cl_cmd_count_ p) (cl_cmd_slot_ p)); [lia|].
  change (cl_buf_ (counted p)) with (cl_buf_ p). fold cmd. clearbody cmd.
  rewrite tick_launch_idle by exact HL. eexists. split; [reflexivity|]. done.
Qed.

Lemma tick_decode p d : enabled p = true -> eng_state_ p = EDecode -> launch_state_ p = LIdle ->
  exists p', tick c h p d = (p', d) /\ frame p' = frame p /\
    eng_state_ p' = (if cur_is_no_resource_ p then ERetire else EBid) /\ cur_cmd_ p' = cur_cmd_ p /\
    cur_is_launch_ p' = cur_is_launch_ p /\
    seqnum (q0_ p') = seqnum (q0_ p) /\ last_dcr_rsp_ p' = last_dcr_rsp_ p /\ cl_cmd_slot_ p' = cl_cmd_slot_ p.
Proof.
  intros HE HI HL. rewrite (tick_enabled p d HE). unfold tick_engine.
  change (eng_state_ (counted p)) with (eng_state_ p). rewrite HI.
  rewrite tick_launch_idle by exact HL. eexists. split; [reflexivity|]. done.
Qed.

Lemma tick_bid_immediate p d : enabled p = true -> eng_state_ p = EBid -> launch_state_ p = LIdle ->
  cur_is_launch_ p = false -> immediate (cur_cmd_ p) = true ->
  exists p', tick c h p d = (p', (cmd_effect p (cur_cmd_ p) (last_dcr_rsp_ p) d).2) /\ frame p' = frame p /\
    eng_state_ p' = ERetire /\ seqnum (q0_ p') = seqnum (q0_ p) /\
    last_dcr_rsp_ p' = (cmd_effect p (cur_cmd_ p) (last_dcr_rsp_ p) d).1 /\ cl_cmd_slot_ p' = cl_cmd_slot_ p.
Proof.
  intros HE HI HL HC HM. rewrite (tick_enabled p d HE). unfold tick_engine.
  change (eng_state_ (counted p)) with (eng_state_ p). rewrite HI. unfold tick_bid.
  change (cur_is_launch_ (counted p)) with (cur_is_launch_ p). rewrite HC.
  change (cur_cmd_ (counted p)) with (cur_cmd_ p). set (cmd := cur_cmd_ p) in *. clearbody cmd.
  assert (Em : do_mem c h (counted p) d cmd = do_mem c h p d cmd) by (by apply satp_mem).
  rewrite Em. unfold immediate in HM. bool_hyps. unfold cmd_effect.
  repeat match goal with
  | H : (?a =? ?b) = false |- _ => rewrite H; clear H
  | H : ?a <> ?b |- context [?a =? ?b] => rewrite (proj2 (Z.eqb_neq a b) H)
  end.
  change (last_dcr_rsp_ (counted p)) with (last_dcr_rsp_ p).
  repeat case_match; simplify_eq; rewrite tick_launch_idle by exact HL; eexists; (split; [reflexivity|]); done.
Qed.

Lemma tick_retire p d : enabled p = true -> eng_state_ p = ERetire -> launch_state_ p = LIdle ->
  exists p', tick c h p d = (p',
      match dram_write h with
      | Some f => if cmpl_addr (q0_ p) =? 0 then d else f d (cmpl_addr (q0_ p)) (le_bytes 8 (u64 (seqnum (q0_ p) + 1)))
      | None => d
      end) /\ frame p' = frame p /\ eng_state_ p' = EIdle /\
    seqnum (q0_ p') = u64 (seqnum (q0_ p) + 1) /\ last_dcr_rsp_ p' = last_dcr_rsp_ p /\
    cl_cmd_slot_ p' = S (cl_cmd_slot_ p).
Proof.
  intros HE HI HL. rewrite (tick_enabled p d HE). unfold tick_engine.
  change (eng_state_ (counted p)) with (eng_state_ p). rewrite HI.
  rewrite tick_launch_idle by exact HL. eexists. split; [reflexivity|]. done.
Qed.

Lemma effect_satp p p' cmd rsp d : satp_ p' = satp_ p -> cmd_effect p' cmd rsp d = cmd_effect p cmd rsp d.
Proof. intros E. unfold cmd_effect. by rewrite (satp_mem p p') by done. Qed.

Lemma frame_cmpl p p' : frame p' = frame p -> cmpl_addr (q0_ p') = cmpl_addr (q0_ p).
Proof. intros [= _ _ _ _ E _ _ _ _ _ _ _ _ _ _]. done. Qed.

Lemma spec_run_env p p' cmds rsp seq d : satp_ p' = satp_ p -> cmpl_addr (q0_ p') = cmpl_addr (q0_ p) ->
  spec_run p' cmds rsp seq d = spec_run p cmds rsp seq d.
Proof.
  intros E E'. revert rsp seq d. induction cmds as [|cmd cmds IH]; intros rsp seq d; cbn [spec_run]; [done|].
  rewrite (effect_satp p p') by done. rewrite E'. destruct (cmd_effect p cmd rsp d). apply IH.
Qed.

Lemma ticks_app n m p d : ticks c h (n + m) p d = let '(p1, d1) := ticks c h n p d in ticks c h m p1 d1.
Proof.
  revert p d. induction n as [|n IH]; intros p d; cbn [ticks Nat.add]; [done|].
  destruct (tick c h p d). apply IH.
Qed.

Lemma ready_frame p p' : frame p' = frame p -> eng_state_ p' = EIdle -> ready p -> ready p'.
Proof.
  intros E HI (H1 & _ & H3). split; [by rewrite (frame_enabled p)|]. split; [done|].
  injection E as _ _ _ _ _ _ _ _ _ _ _ E _ _ _. congruence.
Qed.

(** One immediate command: at most four ticks, the effect of the reference. *)
Lemma exec_one p d : ready p -> cl_loaded_ p = true -> (cl_cmd_slot_ p < cl_cmd_count_ p)%nat ->
  let cmd := (decode_cmd_bytes (cl_buf_ p) (slot_offset (cl_buf_ p) (cl_cmd_slot_ p) 0)).1 in
  immediate cmd = true ->
  exists k p' d', (k <= 4)%nat /\ ticks c h k p d = (p', d') /\ ready p' /\ frame p' = frame p /\
    cl_cmd_slot_ p' = S (cl_cmd_slot_ p) /\
    spec_run p [cmd] (last_dcr_rsp_ p) (seqnum (q0_ p)) d = (last_dcr_rsp_ p', seqnum (q0_ p'), d').
Proof.
  intros HR Hld Hlt cmd HM. pose proof HR as (HE & HI & HL).
  destruct (tick_load p d HR Hld Hlt) as (p1 & T1 & F1 & S1 & C1 & L1 & N1 & Q1 & R1 & O1). fold cmd in C1, L1, N1.
  assert (HL1 : launch_state_ p1 = LIdle) by (injection F1 as _ _ _ _ _ _ _ _ _ _ _ E _ _ _; congruence).
  destruct (tick_decode p1 d) as (p2 & T2 & F2 & S2 & C2 & L2 & Q2 & R2 & O2);
    [by rewrite (frame_enabled p)|done|done|]. rewrite F1 in F2.
  assert (HL2 : launch_state_ p2 = LIdle) by (injection F2 as _ _ _ _ _ _ _ _ _ _ _ E _ _ _; congruence).
  assert (Hnl : cur_is_launch_ p2 = false).
  { rewrite L2, L1. unfold immediate in HM. bool_hyps. apply orb_false_iff. by rewrite !Z.eqb_neq. }
  assert (HX : exists p3 d3 j, (j <= 1)%nat /\ ticks c h j p2 d = (p3, d3) /\ frame p3 = frame p /\ eng_state_ p3 = ERetire /\
    seqnum (q0_ p3) = seqnum (q0_ p) /\ cl_cmd_slot_ p3 = cl_cmd_slot_ p /\
    cmd_effect p cmd (last_dcr_rsp_ p) d = (last_dcr_rsp_ p3, d3)).
  { rewrite N1 in S2. destruct ((opcode cmd =? OP_NOP) || (opcode cmd =? OP_FENCE)) eqn:En.
    - exists p2, d, 0%nat. split_and!; try done; try congruence; try lia.
      rewrite R2, R1. unfold cmd_effect. apply orb_true_iff in En as [En|En]; bool_hyps; by rewrite En.
    - destruct (tick_bid_immediate p2 d) as (p3 & T3 & F3 & S3 & Q3 & R3 & O3);
        [by rewrite (frame_enabled p)|done|done|done|by rewrite C2, C1|].
      rewrite C2, C1, R2, R1 in *. rewrite (effect_satp p p2) in * by (by apply frame_satp).
      exists p3, (cmd_effect p cmd (last_dcr_rsp_ p) d).2, 1%nat. cbn [ticks]. rewrite T3, R3.
      split_and!; try done; try congruence; try lia. by destruct (cmd_effect p cmd _ d). }
  destruct HX as (p3 & d3 & j & Hj & T3 & F3 & S3 & Q3 & O3 & E3).
  assert (HL3 : launch_state_ p3 = LIdle) by (injection F3 as _ _ _ _ _ _ _ _ _ _ _ E _ _ _; congruence).
  destruct (tick_retire p3 d3) as (p4 & T4 & F4 & S4 & Q4 & R4 & O4); [by rewrite (frame_enabled p)|done|done|].
  rewrite F3 in F4. exists (2 + (j + 1))%nat, p4. eexists. split; [lia|]. split.
  - rewrite ticks_app. cbn [ticks]. rewrite T1, T2. rewrite ticks_app, T3. cbn [ticks]. rewrite T4. reflexivity.
  - split; [by apply (ready_frame p)|]. split; [done|]. split; [congruence|].
    cbn [spec_run]. rewrite E3, R4, Q4, Q3. rewrite (frame_cmpl p p3) by done. done.
Qed.

(** The commands of a loaded line from the current slot on. *)
Lemma exec_line n p d : ready p -> cl_loaded_ p = true -> (cl_cmd_slot_ p + n = cl_cmd_count_ p)%nat ->
  Forall (fun cmd => immediate cmd = true) (line_cmds (cl_buf_ p) (cl_cmd_slot_ p) n) ->
  exists k p' d', (k <= 4 * n)%nat /\ ticks c h k p d = (p', d') /\ ready p' /\ frame p' = frame p /\
    cl_cmd_slot_ p' = cl_cmd_count_ p /\
    spec_run p (line_cmds (cl_buf_ p) (cl_cmd_slot_ p) n) (last_dcr_rsp_ p) (seqnum (q0_ p)) d =
      (last_dcr_rsp_ p', seqnum (q0_ p'), d').
Proof.
  revert p d. induction n as [|n IH]; intros p d HR Hld Hn HF.
  - exists 0%nat, p, d. cbn. split_and!; try done; lia.
  - unfold line_cmds in *. cbn [seq map] in *. apply Forall_cons_iff in HF as [HM HF].
    destruct (exec_one p d HR Hld ltac:(lia) HM) as (k & p1 & d1 & Hk & T1 & HR1 & F1 & O1 & E1).
    assert (Hb : cl_buf_ p1 = cl_buf_ p /\ cl_cmd_count_ p1 = cl_cmd_count_ p /\ cl_loaded_ p1 = cl_loaded_ p)
      by (injection F1 as _ _ _ _ _ _ _ _ _ _ _ _ B1 B2 B3; done).
    destruct Hb as (B1 & B2 & B3).
    destruct (IH p1 d1) as (k2 & p2 & d2 & Hk2 & T2 & HR2 & F2 & O2 & E2); try done.
    + congruence.
    + rewrite O1, B2. lia.
    + by rewrite B1, O1.
    + exists (k + k2)%nat, p2, d2. split; [lia|]. split; [by rewrite ticks_app, T1|]. split; [done|].
      split; [congruence|]. split; [congruence|].
      rewrite B1, O1, (spec_run_env p p1) in E2 by (by apply frame_satp || apply frame_cmpl). rewrite <- E2. cbn [spec_run] in E1 |- *.
      destruct (cmd_effect p _ _ d) as [r' d']. injection E1 as <- <- <-. done.
Qed.

(** The line that a fetch at the current head reads. *)
Definition head_line (rd : D -> Z -> Z -> list Z) (p : CommandProcessor) (d : D) : list Z :=
  rd d (u64 (ring_base (q0_ p) + Z.land (q_head (q0_ p)) (u64 (u64 (Z.shiftl 1 (ring_log2 (q0_ p))) - 1)))) CL_BYTES.

Lemma fetch_line rd p d : dram_read h = Some rd -> cl_loaded_ p = false -> q_head (q0_ p) < tail (q0_ p) ->
  fetch_if_needed h p d =
    unpack_cl (p <| cl_buf_ := head_line rd p d |> <| cl_loaded_ := true |>).
Proof.
  intros Hrd Hld Hht. unfold fetch_if_needed. rewrite Hld, Hrd.
  destruct (Z.geb_spec (q_head (q0_ p)) (tail (q0_ p))); [lia|]. done.
Qed.

Lemma tick_fetch rd p d : dram_read h = Some rd -> ready p -> cl_loaded_ p = false ->
  q_head (q0_ p) < tail (q0_ p) -> tick c h p d = tick c h (fetch_if_needed h p d) d.
Proof.
  intros Hrd (HE & HI & HL) Hld Hht.
  rewrite (fetch_line rd p d) by done. set (pf := unpack_cl _).
  rewrite (tick_enabled p d HE). rewrite (tick_enabled pf d) by exact HE. unfold tick_engine.
  change (eng_state_ (counted p)) with (eng_state_ p). change (eng_state_ (counted pf)) with (eng_state_ p). rewrite HI.
  rewrite (fetch_line rd (counted p) d) by done.
  assert (Ef : fetch_if_needed h (counted pf) d = counted pf) by done. rewrite Ef. done.
Qed.

Lemma tick_advance p d : ready p -> cl_loaded_ p = true -> cl_cmd_slot_ p = cl_cmd_count_ p ->
  exists p', tick c h p d = (p', d) /\ ready p' /\ cl_loaded_ p' = false /\
    q_head (q0_ p') = u64 (q_head (q0_ p) + CL_BYTES) /\ seqnum (q0_ p') = seqnum (q0_ p) /\
    last_dcr_rsp_ p' = last_dcr_rsp_ p /\ tail (q0_ p') = tail (q0_ p) /\ satp_ p' = satp_ p /\
    cmpl_addr (q0_ p') = cmpl_addr (q0_ p) /\ ring_base (q0_ p') = ring_base (q0_ p) /\ ring_log2 (q0_ p') = ring_log2 (q0_ p) /\
    tail_lo_staging (q0_ p') = tail_lo_staging (q0_ p).
Proof.
  intros (HE & HI & HL) Hld Hs. rewrite (tick_enabled p d HE). unfold tick_engine.
  change (eng_state_ (counted p)) with (eng_state_ p). rewrite HI. unfold fetch_if_needed.
  change (cl_loaded_ (counted p)) with (cl_loaded_ p). rewrite Hld. unfold load_next_cmd.
  change (cl_loaded_ (counted p)) with (cl_loaded_ p). rewrite Hld. cbn [negb].
  change (cl_cmd_count_ (counted p)) with (cl_cmd_count_ p). change (cl_cmd_slot_ (counted p)) with (cl_cmd_slot_ p).
  destruct (Nat.leb_spec (cl_cmd_count_ p) (cl_cmd_slot_ p)); [|lia].
  rewrite tick_launch_idle by exact HL. eexists. split; [reflexivity|]. split_and!; try done.
Qed.

Lemma line_exec rd p d :
  dram_read h = Some rd -> ready p -> cl_loaded_ p = false -> q_head (q0_ p) < tail (q0_ p) ->
  let buf := head_line rd p d in
  let n := unpack_from buf MAX_CMDS_PER_CL 0 in
  let cmds := line_cmds buf 0 n in
  Forall (fun cmd => immediate cmd = true) cmds ->
  exists k p' d', (k <= 4 * n + 1)%nat /\ ticks c h k p d = (p', d') /\ ready p' /\ cl_loaded_ p' = false /\
    q_head (q0_ p') = u64 (q_head (q0_ p) + CL_BYTES) /\ tail (q0_ p') = tail (q0_ p) /\ satp_ p' = satp_ p /\
    cmpl_addr (q0_ p') = cmpl_addr (q0_ p) /\ ring_base (q0_ p') = ring_base (q0_ p) /\
    ring_log2 (q0_ p') = ring_log2 (q0_ p) /\ tail_lo_staging (q0_ p') = tail_lo_staging (q0_ p) /\
    spec_run p cmds (last_dcr_rsp_ p) (seqnum (q0_ p)) d = (last_dcr_rsp_ p', seqnum (q0_ p'), d').
Proof.
  intros Hrd HR Hld Hht buf n cmds HF.
  set (pf := fetch_if_needed h p d).
  assert (Epf : pf = unpack_cl (p <| cl_buf_ := buf |> <| cl_loaded_ := true |>)) by (by apply fetch_line).
  assert (HRf : ready pf) by (rewrite Epf; exact HR).
  destruct (exec_line n pf d HRf) as (k & p1 & d1 & Hk & T1 & HR1 & F1 & O1 & E1);
    [by rewrite Epf|by rewrite Epf|rewrite Epf; exact HF|].
  assert (Hp1 : cl_loaded_ p1 = true /\ cl_cmd_slot_ p1 = cl_cmd_count_ p1 /\ qregs (q0_ p1) = qregs (q0_ p) /\ satp_ p1 = satp_ p).
  { rewrite Epf in F1, O1. injection F1 as _ A2 A3 A4 A5 A6 A7 A8 A9 A10 A11 _ _ A14 A15. unfold qregs.
    split_and!; try done; [by rewrite O1, A14|]. congruence. }
  destruct Hp1 as (Hl1 & Hs1 & Hq1 & Hsat).
  destruct (tick_advance p1 d1 HR1 Hl1 Hs1) as (p2 & T2 & HR2 & Hld2 & Hh2 & Hq2 & Hr2 & Ht2 & Hsa2 & Hc2 & Hb2 & Hlg2 & Hst2).
  exists (k + 1)%nat, p2, d1. split; [lia|]. split.
  - rewrite <- (Nat.add_comm 1 k), ticks_app. cbn [ticks]. rewrite (tick_fetch rd p d) by done. fold pf.
    assert (Et : ticks c h (1 + k) pf d = ticks c h (k + 1) pf d) by (f_equal; lia).
    rewrite ticks_app in Et. cbn [ticks] in Et. rewrite Et, ticks_app, T1. cbn [ticks]. by rewrite T2.
  - injection Hq1 as B1 _ B3 B4 _ B6 B7 B8 _. split; [done|]. split; [done|]. do 7 (split; [congruence|]). rewrite Hr2, Hq2. rewrite Epf in E1. rewrite <- E1. symmetry. by apply spec_run_env.
Qed.

(** C15 (refinement): a ring line of commands that do not wait (DCR accesses,
    cache flushes, event signals, DMA transfers, NOPs) is executed exactly as
    the sequential interpreter executes it: the commands run in slot order, each
    takes effect once and is counted and published before the next, within four
    ticks per command and one to move the head to the next line. *)
Theorem cp_line_refines rd p d :
  dram_read h = Some rd -> ready p -> cl_loaded_ p = false -> q_head (q0_ p) < tail (q0_ p) ->
  let buf := head_line rd p d in
  let n := unpack_from buf MAX_CMDS_PER_CL 0 in
  let cmds := line_cmds buf 0 n in
  Forall (fun cmd => immediate cmd = true) cmds ->
  exists k p' d', (k <= 4 * n + 1)%nat /\ ticks c h k p d = (p', d') /\ ready p' /\ cl_loaded_ p' = false /\
    q_head (q0_ p') = u64 (q_head (q0_ p) + CL_BYTES) /\ tail (q0_ p') = tail (q0_ p) /\ satp_ p' = satp_ p /\
    spec_run p cmds (last_dcr_rsp_ p) (seqnum (q0_ p)) d = (last_dcr_rsp_ p', seqnum (q0_ p'), d').
Proof.
  intros Hrd HR Hld Hht buf n cmds HF.
  destruct (line_exec rd p d Hrd HR Hld Hht HF) as (k & p' & d' & H1 & H2 & H3 & H4 & H5 & H6 & H7 & _ & _ & _ & _ & H8).
  exists k, p', d'. done.
Qed.

End Refinement.

(** ** Launches *)

Section Launch.
Context {D : Type} (c : cp_cfg) (h : Hooks D).

(** Ticks with the device states the environment presents, one per tick. *)
Definition env_ticks (p : CommandProcessor) (ds : list D) : CommandProcessor :=
  fold_left (fun p d => (tick c h p d).1) ds p.

(** What the launch state machine has seen of the busy signal since the start
    pulse. *)
Definition launch_seen (busy : D -> bool) (ls : LaunchState) (ds : list D) : Prop :=
  match ls with
  | LPulseStart => False
  | LWaitBusy => True
  | LWaitDrain => exists i d, ds !! i = Some d /\ busy d = true
  | LIdle => exists i j d e, ds !! i = Some d /\ ds !! j = Some e /\ (i < j)%nat /\
      busy d = true /\ busy e = false
  end.

Lemma env_tick_launch busyf p d : enabled p = true -> vortex_busy h = Some busyf ->
  eng_state_ p = EWaitDone -> cur_is_launch_ p = true -> launch_state_ p <> LIdle ->
  let p' := (tick c h p d).1 in
  enabled p' = true /\ eng_state_ p' = EWaitDone /\ cur_is_launch_ p' = true /\
  launch_state_ p' = match launch_state_ p with
                     | LIdle => LIdle
                     | LPulseStart => LWaitBusy
                     | LWaitBusy => if busyf d then LWaitDrain else LWaitBusy
                     | LWaitDrain => if busyf d then LWaitDrain else LIdle
                     end.
Proof.
  intros HE Hb HI HC HL. cbn zeta. rewrite (tick_enabled c h p d HE). unfold tick_engine.
  change (eng_state_ (counted p)) with (eng_state_ p). rewrite HI.
  change (cur_is_launch_ (counted p)) with (cur_is_launch_ p). rewrite HC.
  change (launch_state_ (counted p)) with (launch_state_ p). rewrite bool_decide_true by done. cbn [andb].
  unfold tick_launch. change (launch_state_ (counted p)) with (launch_state_ p). rewrite Hb.
  destruct (launch_state_ p) eqn:El; [done|..]; try (destruct (busyf d)); cbn [fst]; split_and!; done.
Qed.

Lemma env_ticks_launch busyf p ds : enabled p = true -> vortex_busy h = Some busyf ->
  eng_state_ p = EWaitDone -> cur_is_launch_ p = true -> launch_state_ p = LWaitBusy ->
  let p' := env_ticks p ds in
  (enabled p' = true /\ eng_state_ p' = EWaitDone /\ cur_is_launch_ p' = true /\
   launch_seen busyf (launch_state_ p') ds) \/
  launch_seen busyf LIdle ds.
Proof.
  intros HE Hb HI HC HL. induction ds as [|d ds IH] using rev_ind; cbn zeta in *.
  - left. cbn. rewrite HL. done.
  - unfold env_ticks in *. rewrite fold_left_app. cbn [fold_left].
    assert (Hmono : launch_seen busyf LIdle ds -> launch_seen busyf LIdle (ds ++ [d])).
    { intros (i & j & x & y & H1 & H2 & H3). exists i, j, x, y.
      split_and!; try done; try (by apply lookup_app_l_Some); tauto. }
    destruct IH as [(HE' & HI' & HC' & Hs)|Hs]; [|right; auto].
    set (q := fold_left _ ds p) in *. destruct (decide (launch_state_ q = LIdle)) as [Hq|Hq].
    { right. apply Hmono. by rewrite Hq in Hs. }
    destruct (env_tick_launch busyf q d HE' Hb HI' HC' Hq) as (G1 & G2 & G3 & G4).
    left. split_and!; try done. rewrite G4. destruct (launch_state_ q) eqn:El; [done|..]; cbn in Hs |- *.
    + done.
    + destruct (busyf d) eqn:Ebd; cbn; [|done]. exists (length ds), d. split; [by apply list_lookup_middle|done].
    + destruct Hs as (i & x & H1 & H2). destruct (busyf d) eqn:Ebd; cbn.
      * exists i, x. split; [by apply lookup_app_l_Some|done].
      * exists i, (length ds), x, d.
        split_and!; try done; [by apply lookup_app_l_Some|by apply list_lookup_middle|by eapply lookup_lt_Some].
Qed.

(** The tick that issues a launch pulses the start signal and leaves both state
    machines waiting. *)
Lemma bid_launch p d : enabled p = true -> eng_state_ p = EBid -> cur_is_launch_ p = true ->
  let p' := (tick c h p d).1 in
  enabled p' = true /\ eng_state_ p' = EWaitDone /\ cur_is_launch_ p' = true /\ launch_state_ p' = LWaitBusy.
Proof.
  intros HE HI HC. cbn zeta. rewrite (tick_enabled c h p d HE). unfold tick_engine.
  change (eng_state_ (counted p)) with (eng_state_ p). rewrite HI. unfold tick_bid.
  change (cur_is_launch_ (counted p)) with (cur_is_launch_ p). rewrite HC. split_and!; done.
Qed.

(** A launch command is not retired before its kernel has run: after
    the tick that issues the launch, the engine leaves its wait state only if
    the device was observed busy at some later tick and, after that, idle
    again. *)
Theorem cp_launch_waits_for_drain busyf p d0 ds :
  enabled p = true -> vortex_busy h = Some busyf ->
  eng_state_ p = EBid -> cur_is_launch_ p = true ->
  eng_state_ (env_ticks p (d0 :: ds)) <> EWaitDone ->
  exists i j d e, ds !! i = Some d /\ ds !! j = Some e /\ (i < j)%nat /\ busyf d = true /\ busyf e = false.
Proof.
  intros HE Hb HI HC Hn. destruct (bid_launch p d0 HE HI HC) as (G1 & G2 & G3 & G4).
  destruct (env_ticks_launch busyf _ ds G1 Hb G2 G3 G4) as [(_ & H & _)|H]; [done|exact H].
Qed.

(** ** Draw bundles *)

(** A step of a draw bundle does what the same command does
    on the ring, for every command a bundle may hold (DCR accesses, cache
    flushes, launches): same device state, same response register, same launch
    request. *)
Theorem cp_draw_step_matches_ring p d cmd :
  cur_cmd_ p = cmd ->
  cur_is_launch_ p = (opcode cmd =? OP_LAUNCH) || (opcode cmd =? OP_LAUNCH_QMD) ->
  opcode cmd ∈ [OP_DCR_WRITE; OP_DCR_READ; OP_CACHE_FLUSH; OP_LAUNCH; OP_LAUNCH_QMD] ->
  let '(p1, d1) := tick_bid c h p d in
  let '(p2, d2, launched) := exec_inline_cmd c h p d cmd in
  d1 = d2 /\ last_dcr_rsp_ p1 = last_dcr_rsp_ p2 /\ launch_state_ p1 = launch_state_ p2 /\
  launched = cur_is_launch_ p /\ satp_ p1 = satp_ p2 /\ q0_ p1 = q0_ p2.
Proof.
  intros Hc Hl Hop. unfold tick_bid, exec_inline_cmd. rewrite Hl, Hc.
  assert (Ho : opcode cmd = OP_DCR_WRITE \/ opcode cmd = OP_DCR_READ \/ opcode cmd = OP_CACHE_FLUSH \/
    opcode cmd = OP_LAUNCH \/ opcode cmd = OP_LAUNCH_QMD) by set_solver.
  destruct Ho as [E|[E|[E|[E|E]]]]; rewrite E; cbn [Z.eqb orb OP_DCR_WRITE OP_DCR_READ OP_CACHE_FLUSH
    OP_LAUNCH OP_LAUNCH_QMD OP_DRAW Pos.eqb]; try done.
  destruct (do_dcr_read h (last_dcr_rsp_ p) d cmd). done.
Qed.

(** The other commands of the ring are silently skipped in a bundle. *)
Lemma cp_draw_drops_mem p d cmd :
  opcode cmd ∈ [OP_MEM_WRITE; OP_MEM_READ; OP_MEM_COPY; OP_EVENT_SIG; OP_EVENT_WAIT; OP_DRAW] ->
  exec_inline_cmd c h p d cmd = (p, d, false).
Proof.
  intros Hop. unfold exec_inline_cmd.
  assert (Ho : opcode cmd = OP_MEM_WRITE \/ opcode cmd = OP_MEM_READ \/ opcode cmd = OP_MEM_COPY \/
    opcode cmd = OP_EVENT_SIG \/ opcode cmd = OP_EVENT_WAIT \/ opcode cmd = OP_DRAW) by set_solver.
  destruct Ho as [E|[E|[E|[E|[E|E]]]]]; rewrite E; done.
Qed.

End Launch.

(** ** Lines *)

(** Unpacking a line finds at most five commands, and every one of
    them lies entirely inside the 64 bytes of the line. *)
Theorem cp_unpack_in_line buf s :
  (s < unpack_from buf MAX_CMDS_PER_CL 0)%nat ->
  let off := slot_offset buf s 0 in
  (s < 5)%nat /\ 0 <= off /\ off + (decode_cmd_bytes buf off).2 <= CL_BYTES /\ off + 4 <= CL_BYTES.
Proof.
  intros Hs. assert (Hb := unpack_from_bound buf MAX_CMDS_PER_CL 0). unfold MAX_CMDS_PER_CL in *. cbn zeta.
  split; [lia|]. revert Hs. clear Hb.
  assert (HG : forall n off, 0 <= off -> (s < unpack_from buf n off)%nat ->
    0 <= slot_offset buf s off /\ slot_offset buf s off + (decode_cmd_bytes buf (slot_offset buf s off)).2 <= CL_BYTES /\
    slot_offset buf s off + 4 <= CL_BYTES).
  { induction s as [|s IH]; intros n off Ho Hs; (destruct n as [|n]; [by apply Nat.nlt_0_r in Hs|]); rewrite unpack_from_S in Hs.
    - change (slot_offset buf 0 off) with off. change (decode_cmd_bytes buf off).2 with (cmd_size (rd8 buf (off + 0))).
      revert Hs. destruct (Z.gtb_spec (off + 4) CL_BYTES); [lia|]. destruct (_ && _); [lia|].
      destruct (Z.gtb_spec (off + cmd_size (rd8 buf (off + 0))) CL_BYTES); lia.
    - rewrite slot_offset_S. revert Hs.
      destruct (Z.gtb_spec (off + 4) CL_BYTES); [lia|]. destruct (_ && _); [lia|].
      destruct (Z.gtb_spec (off + cmd_size (rd8 buf (off + 0))) CL_BYTES); [lia|]. intros Hs.
      apply (IH n); [|lia]. assert (4 <= cmd_size (rd8 buf (off + 0))); [|lia].
      unfold cmd_size. repeat case_match; lia. }
  by apply (HG 5%nat 0).
Qed.

(** ** Registers *)

Section Registers.
Context (c : cp_cfg).

(** The registers the host may write. *)
Definition rw_regs : list Z :=
  [0x000; 0x028; 0x02C; 0x100; 0x104; 0x108; 0x10C; 0x110; 0x114; 0x118; 0x11C; 0x120; 0x124].

(** The 64-bit registers hold 64-bit values. *)
Definition regs_ok (p : CommandProcessor) : Prop :=
  in_u 64 (satp_ p) /\ in_u 64 (ring_base (q0_ p)) /\ in_u 64 (head_addr (q0_ p)) /\ in_u 64 (cmpl_addr (q0_ p)).

Lemma lo32_u64 v : in_u 32 (lo32 v).
Proof. unfold lo32. apply land_in_u_r; [lia|]. unfold in_u. lia. Qed.

Lemma hi32_u64 v : in_u 64 v -> in_u 32 (hi32 v).
Proof.
  unfold hi32, in_u. intros. rewrite Z.shiftr_div_pow2 by lia. split; [apply Z.div_pos; lia|].
  apply Z.div_lt_upper_bound; lia.
Qed.

Lemma u32_hi32_set_hi v x : in_u 32 x -> u32 (hi32 (set_hi32 v x)) = x.
Proof. intros. rewrite hi32_set_hi32 by done. by apply wrap_small. Qed.

(** The doorbell: high half now, low half from the staging register. *)
Lemma u32_hi32_tail v s : in_u 32 v -> in_u 32 s -> u32 (hi32 (Z.lor (u64 (Z.shiftl v 32)) s)) = v.
Proof. intros. unfold hi32. zbits. Qed.

Lemma tail_halves w : in_u 64 w -> Z.lor (u64 (Z.shiftl (hi32 w) 32)) (lo32 w) = w.
Proof.
  intros Hw. rewrite <- (set_halves_id 0 w Hw) at 3. unfold set_hi32, set_lo32. rewrite Z.land_0_l, Z.lor_0_l.
  rewrite Z.lor_comm. f_equal. unfold lo32. by rewrite <- Z.land_assoc.
Qed.

(** A write to an offset that is not a register does nothing. *)
Lemma mmio_write_other p off v : off ∉ rw_regs -> mmio_write p off v = p.
Proof.
  intros Ho. unfold rw_regs in Ho. rewrite !not_elem_of_cons in Ho. unfold mmio_write.
  destruct Ho as (H1 & H2 & H3 & H4 & H5 & H6 & H7 & H8 & H9 & H10 & H11 & H12 & H13 & _).
  repeat (match goal with |- context [?a =? ?b] => destruct (Z.eqb_spec a b) end; [lia|]).
  destruct (bool_decide _); [done|]. destruct (_ && _); [|done].
  repeat (match goal with |- context [?a =? ?b] => destruct (Z.eqb_spec a b) end; [lia|]). done.
Qed.

(** Case analysis on the writable registers. *)
Lemma rw_regs_case (P : Z -> Prop) off : off ∈ rw_regs ->
  P 0x000 -> P 0x028 -> P 0x02C -> P 0x100 -> P 0x104 -> P 0x108 -> P 0x10C -> P 0x110 -> P 0x114 ->
  P 0x118 -> P 0x11C -> P 0x120 -> P 0x124 -> P off.
Proof. intros H. unfold rw_regs in H. repeat (apply elem_of_cons in H as [->|H]; [done|]). by apply elem_of_nil in H. Qed.

(** Evaluate the comparisons of concrete offsets. *)
Ltac eval_eqb :=
  repeat match goal with
  | |- context [?a =? ?b] => first [ change (a =? b) with true | change (a =? b) with false ]
  end.

(** A write at a concrete offset. *)
Ltac write_reg :=
  unfold mmio_write, upd_q;
  repeat match goal with |- context [bool_decide (?k ∈ ?l)] => change (bool_decide (k ∈ l)) with false end;
  eval_eqb; cbn.

(** Reading through the register decoder, one offset at a time. *)
Ltac read_case :=
  repeat (match goal with |- context [?a =? ?b] => destruct (Z.eqb_spec a b); [first [done | lia | idtac]|] end);
  try done.

Lemma mmio_write_reads_other p off v o : regs_ok p -> in_u 32 v -> off ∈ rw_regs -> o <> off -> o <> 0x004 ->
  mmio_read c (mmio_write p off v) o = mmio_read c p o.
Proof.
  intros (R1 & R2 & R3 & R4) Hv Ho Hne Hs. revert Hne. pattern off. apply rw_regs_case; [done|..];
    intros Hne; write_reg; unfold mmio_read; cbn zeta; read_case.
  all: cbn; try (destruct ((o >=? 256) && (o <? 320)); [|done]); first [by rewrite hi32_set_lo32 | by rewrite lo32_set_hi32].
Qed.

(** The register file.  A writable register reads back what was
    written (the ring size keeps its low byte); a write changes no other
    register the host can read, the status apart; a write to any other offset
    does nothing; and the ring tail moves only on a write to its high half,
    which commits both halves at once. *)
Theorem cp_mmio_registers p off v o w :
  regs_ok p -> in_u 32 v -> in_u 64 w ->
  regs_ok (mmio_write p off v) /\
  (off ∈ rw_regs -> in_u 32 (tail_lo_staging (q0_ p)) ->
   mmio_read c (mmio_write p off v) off = if off =? 0x118 then Z.land v 0xFF else v) /\
  (o <> off -> o <> 0x004 -> mmio_read c (mmio_write p off v) o = mmio_read c p o) /\
  (off ∉ rw_regs -> mmio_write p off v = p) /\
  (off <> 0x124 -> tail (q0_ (mmio_write p off v)) = tail (q0_ p)) /\
  tail (q0_ (mmio_write (mmio_write p 0x120 (lo32 w)) 0x124 (hi32 w))) = w.
Proof.
  intros HR Hv Hw. pose proof HR as (R1 & R2 & R3 & R4).
  assert (Hother := mmio_write_other p off v).
  split_and!.
  - destruct (decide (off ∈ rw_regs)) as [Hi|Hi]; [|by rewrite Hother].
    pattern off. apply rw_regs_case; [done|..]; unfold regs_ok; write_reg; split_and!; auto with grx.
  - intros Hi Ht. pattern off.
    pose proof (fun r => lo32_set_lo32 r v Hv) as Hlo. pose proof (fun r => u32_hi32_set_hi r v Hv) as Hhi.
    pose proof (u32_hi32_tail v _ Hv Ht) as Htail.
    apply rw_regs_case; [done|reflexivity|apply Hlo|apply Hhi|apply Hlo|apply Hhi|apply Hlo|apply Hhi|apply Hlo|apply Hhi
      |reflexivity|reflexivity|reflexivity|exact Htail].
  - intros Hne Hs. destruct (decide (off ∈ rw_regs)) as [Hi|Hi]; [|by rewrite Hother].
    by apply mmio_write_reads_other.
  - exact Hother.
  - intros Hne. destruct (decide (off ∈ rw_regs)) as [Hi|Hi]; [|by rewrite Hother].
    revert Hne. pattern off. by apply rw_regs_case.
  - write_reg. unfold const. by apply tail_halves.
Qed.

End Registers.

(** ** DMA *)

(** A memory whose reads and writes of byte ranges are those of a flat array:
    what the DMA engine relies on from the hooks. *)
Class FlatMem {D : Type} (rd : D -> Z -> Z -> list Z) (wr : D -> Z -> list Z -> D) := {
  mget : D -> Z -> Z;
  flat_read : forall d a n, rd d a n = map (mget d) (seqZ a n);
  flat_write : forall d a bs x,
    mget (wr d a bs) x = if (a <=? x) && (x <? a + Z.of_nat (length bs)) then default 0 (bs !! Z.to_nat (x - a))
                         else mget d x
}.

Section Dma.
Context {D : Type} (c : cp_cfg) (h : Hooks D).
Context (rd : D -> Z -> Z -> list Z) (wr : D -> Z -> list Z -> D) {M : FlatMem rd wr}.

(** One chunk. *)
Lemma dma_chunk d src dst n x : 0 <= n ->
  mget (wr d dst (rd d src n)) x = if (dst <=? x) && (x <? dst + n) then mget d (src + (x - dst)) else mget d x.
Proof.
  intros Hn. rewrite flat_write, flat_read, length_map, length_seqZ, Z2Nat.id by done.
  destruct (Z.leb_spec dst x), (Z.ltb_spec x (dst + n)); cbn [andb]; try done.
  rewrite list_lookup_fmap, lookup_seqZ_lt by lia. cbn. f_equal. lia.
Qed.

Lemma dma_loop_copies fuel src dst total done0 d d0 :
  0 <= done0 <= total -> total - done0 <= Z.of_nat fuel * CHUNK ->
  0 <= src -> 0 <= dst -> src + total <= 2 ^ 64 -> dst + total <= 2 ^ 64 ->
  dst <= src \/ src + total <= dst ->
  (forall x, mget d x = if (dst <=? x) && (x <? dst + done0) then mget d0 (src + (x - dst)) else mget d0 x) ->
  forall x, mget (dma_loop rd wr fuel src dst total done0 d) x =
    if (dst <=? x) && (x <? dst + total) then mget d0 (src + (x - dst)) else mget d0 x.
Proof.
  intros Hd Hf Hs0 Hd0 Hs Hdt Hov. revert done0 d Hd Hf. induction fuel as [|fuel IH]; intros done0 d Hd Hf HI x.
  { change (dma_loop rd wr 0 src dst total done0 d) with d. rewrite HI. by replace done0 with total by lia. }
  change (dma_loop rd wr (S fuel) src dst total done0 d) with
    (if done0 <? total then
       dma_loop rd wr fuel src dst total (done0 + (if total - done0 >? CHUNK then CHUNK else total - done0))
         (wr d (u64 (dst + done0)) (rd d (u64 (src + done0)) (if total - done0 >? CHUNK then CHUNK else total - done0)))
     else d).
  destruct (Z.ltb_spec done0 total); [|rewrite HI; by replace done0 with total by lia].
  set (n := if total - done0 >? CHUNK then CHUNK else total - done0).
  assert (Hn : 0 < n <= total - done0 /\ (n = total - done0 \/ n = CHUNK)).
  { unfold n, CHUNK. destruct (Z.gtb_spec (total - done0) (64 * 1024)); lia. }
  clearbody n. rewrite !wrap_small by (unfold in_u; lia). apply IH; [lia|unfold CHUNK in *; lia|].
  intros y. rewrite dma_chunk by lia.
  assert (Hin : forall a b z, (a <=? z) && (z <? b) = bool_decide (a <= z < b)).
  { intros a b z. case_bool_decide; destruct (Z.leb_spec a z), (Z.ltb_spec z b); cbn [andb]; try done; lia. }
  rewrite !Hin in *. setoid_rewrite Hin in HI. destruct (decide (dst + done0 <= y < dst + done0 + n)) as [Hy|Hy].
  - rewrite !bool_decide_true by lia. rewrite HI, bool_decide_false by lia. f_equal. lia.
  - rewrite (bool_decide_false _ Hy), HI. do 2 case_bool_decide; try done; lia.
Qed.

(** A DMA command copies: after CMD_MEM_* of any length,
    byte [x] of the destination range holds the byte the source range held
    before, and no other byte changed, although the copy runs in 64 KiB chunks;
    the ranges may overlap when the destination is below the source. *)
Theorem cp_dma_copies p d cmd :
  dram_read h = Some rd -> dram_write h = Some wr -> 0 <= arg2 cmd ->
  let physical := negb (Z.land (flags cmd) MEM_FLAG_PHYSICAL =? 0) in
  let dst := if opcode cmd =? OP_MEM_READ then arg0 cmd else cp_translate c h p d (arg0 cmd) physical in
  let src := if opcode cmd =? OP_MEM_WRITE then arg1 cmd else cp_translate c h p d (arg1 cmd) physical in
  0 <= src -> 0 <= dst -> src + arg2 cmd <= 2 ^ 64 -> dst + arg2 cmd <= 2 ^ 64 ->
  dst <= src \/ src + arg2 cmd <= dst ->
  forall x, mget (do_mem c h p d cmd) x =
    if (dst <=? x) && (x <? dst + arg2 cmd) then mget d (src + (x - dst)) else mget d x.
Proof.
  intros Hrd Hwr Hn physical dst src Hs0 Hd0 Hs Hd Hov x. unfold do_mem. rewrite Hrd, Hwr.
  destruct (Z.eqb_spec (arg2 cmd) 0) as [E|E].
  { rewrite E. destruct (Z.leb_spec dst x), (Z.ltb_spec x (dst + 0)); cbn [andb]; try done; lia. }
  apply (dma_loop_copies _ src dst); try done; try lia.
  - pose proof (Z.div_mod (arg2 cmd) CHUNK ltac:(unfold CHUNK; lia)).
    pose proof (Z.mod_pos_bound (arg2 cmd) CHUNK ltac:(unfold CHUNK; lia)).
    pose proof (Z.div_pos (arg2 cmd) CHUNK). rewrite Nat2Z.inj_succ, Z2Nat.id by (unfold CHUNK in *; lia). lia.
  - intros y. destruct (Z.leb_spec dst y), (Z.ltb_spec y (dst + 0)); cbn [andb]; try done; lia.
Qed.

End Dma.


(** ** Concrete instances *)

Module Demo.

Definition cfg : cp_cfg := {|
  VM_ENABLE := true; VM_MODE := SV39; NUM_THREADS := 4; NUM_WARPS := 4; NUM_CORES := 4; SOCKET_SIZE := 4;
  NUM_CLUSTERS := 1; ISSUE_WIDTH := 1; LMEM_ENABLED := true; LMEM_LOG_SIZE := 14; MEM_ADDR_WIDTH := 48;
  MEM_NUM_BANKS := 2; IMPL_ID := 0; MISA_EXT := 0; MISA_STD := 0; CFG_XLEN := 64 |}.

(** A device that is a flat byte memory; a DCR access touches byte [addr]. *)
Definition flat_rd (d : Z -> Z) (a n : Z) : list Z := map d (seqZ a n).
Definition flat_wr (d : Z -> Z) (a : Z) (bs : list Z) : Z -> Z := fun x =>
  if (a <=? x) && (x <? a + Z.of_nat (length bs)) then default 0 (bs !! Z.to_nat (x - a)) else d x.

#[export] Instance flat_mem : FlatMem flat_rd flat_wr.
Proof. refine {| mget := fun (d : Z -> Z) x => d x |}; done. Defined.

Definition hooks : Hooks (Z -> Z) := {|
  dram_read := Some flat_rd; dram_write := Some flat_wr;
  vortex_dcr_write := Some (fun d a v => flat_wr d a [v]);
  vortex_dcr_read := Some (fun d a _ => (d a, d));
  vortex_start := Some (fun d => flat_wr d 0x800 [1]); vortex_busy := Some (fun d => d 0x800 =? 1) |}.

(** A ring line at 0x1000: a DCR write, an event signal, then zeros. *)
Definition line1 : list Z :=
  [0x04; 0; 0; 0] ++ le_bytes 8 0x10 ++ le_bytes 8 0x55 ++ [0x08; 0; 0; 0] ++ le_bytes 8 0x2000 ++ le_bytes 8 7.
(** A line with one launch. *)
Definition line2 : list Z := [0x06; 0; 0; 0] ++ le_bytes 8 0.

Definition mem1 : Z -> Z := flat_wr (fun _ => 0) 0x1000 line1.
Definition mem2 : Z -> Z := flat_wr (fun _ => 0) 0x1000 line2.

(** The queue programmed with its ring at 0x1000, one line submitted. *)
Definition boot : CommandProcessor :=
  mmio_write (mmio_write (mmio_write (mmio_write (mmio_write CommandProcessor_init 0x100 0x1000)
    0x11C 1) 0x000 1) 0x120 64) 0x124 0.

(** The launch in flight, after load, decode and bid. *)
Definition launching : CommandProcessor :=
  (tick cfg hooks (tick cfg hooks (tick cfg hooks boot mem2).1 mem2).1 mem2).1.

Lemma cp_quiescent_during_launch_witness :
  launch_state_ launching <> LIdle /\ tick_engine cfg hooks launching mem2 = (launching, mem2).
Proof.
  assert (H : launch_state_ launching <> LIdle) by (vm_compute; discriminate).
  split; [exact H|]. apply (cp_quiescent_during_launch cfg hooks launching mem2); [|exact H].
  unfold launching, boot. do 5 (eapply rtc_r; [|apply step_tick || apply step_mmio]).
  do 3 (eapply rtc_r; [|apply step_tick || apply step_mmio]). apply rtc_refl.
Defined.

Lemma cp_line_refines_witness : exists k p' d', (k <= 9)%nat /\ ticks cfg hooks k boot mem1 = (p', d') /\
  q_head (q0_ p') = 64 /\ seqnum (q0_ p') = 2 /\ d' 0x10 = 0x55 /\ d' 0x2000 = 7.
Proof.
  destruct (cp_line_refines cfg hooks flat_rd boot mem1) as (k & p' & d' & Hk & T & _ & _ & Hh & _ & _ & E).
  - reflexivity.
  - split; [vm_compute; reflexivity|split; vm_compute; reflexivity].
  - reflexivity.
  - vm_compute. reflexivity.
  - change (line_cmds _ 0 _) with (line_cmds (head_line flat_rd boot mem1) 0 2). vm_compute. repeat constructor.
  - exists k, p', d'. split; [exact Hk|]. split; [exact T|]. split; [exact Hh|].
    split; [etrans; [symmetry; exact (f_equal (fun t => t.1.2) E)|vm_compute; reflexivity]|].
    split; (etrans; [symmetry; exact (f_equal (fun t => t.2 _) E)|vm_compute; reflexivity]).
Defined.

Lemma cp_unpack_in_line_witness : (1 < unpack_from line1 MAX_CMDS_PER_CL 0)%nat /\ slot_offset line1 1 0 + 20 <= CL_BYTES.
Proof.
  assert (H : (1 < unpack_from line1 MAX_CMDS_PER_CL 0)%nat) by (vm_compute; lia).
  split; [exact H|]. destruct (cp_unpack_in_line line1 1 H) as (_ & _ & H1 & _). exact H1.
Defined.

(** The same launch, in the tick before it is issued; the device runs for two
    ticks and stops. *)
Definition bidding : CommandProcessor := (tick cfg hooks (tick cfg hooks boot mem2).1 mem2).1.
Definition running2 : Z -> Z := flat_wr mem2 0x800 [1].

Lemma cp_launch_waits_for_drain_witness :
  exists i j d e, [running2; running2; mem2; mem2] !! i = Some d /\ [running2; running2; mem2; mem2] !! j = Some e /\
    (i < j)%nat /\ (d 0x800 =? 1) = true /\ (e 0x800 =? 1) = false.
Proof.
  refine (cp_launch_waits_for_drain cfg hooks (fun d => d 0x800 =? 1) bidding mem2
    [running2; running2; mem2; mem2] _ _ _ _ _).
  - vm_compute. reflexivity.
  - reflexivity.
  - vm_compute. reflexivity.
  - vm_compute. reflexivity.
  - vm_compute. discriminate.
Defined.

Lemma cp_draw_step_matches_ring_witness :
  let cmd := {| opcode := OP_DCR_WRITE; flags := 0; reserved := 0; arg0 := 0x10; arg1 := 0x55; arg2 := 0 |} in
  let p := boot <| cur_cmd_ := cmd |> in
  (tick_bid cfg hooks p mem1).2 0x10 = 0x55 /\ (exec_inline_cmd cfg hooks p mem1 cmd).1.2 0x10 = 0x55.
Proof.
  intros cmd p.
  pose proof (cp_draw_step_matches_ring cfg hooks p mem1 cmd eq_refl eq_refl ltac:(cbn; left)) as H.
  destruct (tick_bid cfg hooks p mem1) as [p1 d1] eqn:E1.
  destruct (exec_inline_cmd cfg hooks p mem1 cmd) as [[p2 d2] l] eqn:E2.
  destruct H as (-> & _). split; (etrans; [symmetry; exact (f_equal (fun t => t.1.2 0x10) E2)|vm_compute; reflexivity]).
Defined.

Lemma cp_mmio_registers_witness :
  mmio_read cfg (mmio_write boot 0x118 0x110) 0x118 = 0x10 /\
  tail (q0_ (mmio_write (mmio_write boot 0x120 (lo32 0x500000040)) 0x124 (hi32 0x500000040))) = 0x500000040.
Proof.
  destruct (cp_mmio_registers cfg boot 0x118 0x110 0 0x500000040) as (_ & H1 & _ & _ & _ & H2).
  - vm_compute. split_and!; discriminate || reflexivity.
  - vm_compute. split; discriminate || reflexivity.
  - vm_compute. split; discriminate || reflexivity.
  - split; [|exact H2]. apply H1; vm_compute; [by repeat constructor|split; discriminate || reflexivity].
Defined.

Lemma cp_dma_copies_witness :
  let cmd := {| opcode := OP_MEM_COPY; flags := 0; reserved := 0; arg0 := 0x800; arg1 := 0x1000; arg2 := 100000 |} in
  @mget _ _ _ flat_mem (do_mem cfg hooks boot mem1 cmd) 0x804 = 0x10.
Proof.
  intros cmd.
  etrans; [apply (cp_dma_copies cfg hooks flat_rd flat_wr boot mem1 cmd); vm_compute; (discriminate || reflexivity || (left; discriminate))|].
  vm_compute. reflexivity.
Defined.

End Demo.
