(* ===== verification/CpHost.v ===== *)
(** * Host side of the command processor

    [sw/runtime/common/device.cpp] (command submission), [caps.h] and the
    register channel of [sw/runtime/simx/vortex.cpp].  [HostDev] holds the
    fields of [vx::Device] the submission path uses; a [Platform] is the
    backend it talks to (register accesses, host memory), and [simx] is the
    backend built from the command processor of [CmdProc].  Operations run in
    the monad [M]: state passing, errors as [vx_result_t] values, and [None]
    when a polling loop is still running after the given number of reads.

    The mutexes only serialise the callers, so an operation is atomic here;
    trace output and the [SCOPE] taps are left out.  Ring and staging buffers
    are the memory the device sees at [cp_addr]: the host pointer and the
    device address of a host allocation name the same bytes. *)

From S2P Require Import Prelude VmTypes MemAlloc CmdProc.

(** The error codes of [vortex2.h]; [VX_SUCCESS] is the other side of the sum. *)
Inductive vx_result_t :=
| VX_ERR_INVALID_HANDLE | VX_ERR_INVALID_INFO | VX_ERR_INVALID_VALUE | VX_ERR_OUT_OF_HOST_MEMORY | VX_ERR_OUT_OF_DEVICE_MEMORY
| VX_ERR_DEVICE_LOST | VX_ERR_TIMEOUT | VX_ERR_EVENT_FAILED | VX_ERR_NOT_SUPPORTED | VX_ERR_INTERNAL.

Record Platform (S : Type) := {
  cp_reg_write : S -> Z -> Z -> option vx_result_t * S;
  cp_reg_read : S -> Z -> (Z + vx_result_t) * S;
  host_mem_alloc : S -> Z -> (Z + vx_result_t) * S;
  host_mem_free : S -> Z -> S;
  host_store : S -> Z -> list Z -> S;
  host_load : S -> Z -> Z -> list Z
}.
Arguments cp_reg_write {S}. Arguments cp_reg_read {S}. Arguments host_mem_alloc {S}.
Arguments host_mem_free {S}. Arguments host_store {S}. Arguments host_load {S}.

(** Console output of [drain_cout]. *)
Inductive cout_event := CoutLost (slot : nat) (delta : Z) | CoutLine (slot : nat) (line : list Z).

Record HostDev := {
  cp_tail_ : Z; cp_expected_seqnum_ : Z; cp_in_batch_ : bool; cp_batch_target_ : Z;
  cp_ring_ : Z; cp_head_ : Z; cp_cmpl_ : Z; cp_enabled_ : bool; cp_num_cores_ : Z;
  vm_enabled_ : bool; cp_supports_draw_ : bool; cp_supports_qmd_ : bool;
  pinned_mem_ : option MemoryAllocator; pinned_base_ : Z; pinned_size_ : Z;
  host_mems_ : gmap Z Z; caps_loaded_ : bool; dev_caps_ : Z; isa_caps_ : Z;
  cout_rd_ : list Z; cout_lost_seen_ : list Z; cout_line_ : list (list Z); cout_ : list cout_event
}.

(** ** Capability words *)

Definition VX_CAPS_VERSION : Z := 0x0.
Definition VX_CAPS_NUM_THREADS : Z := 0x1.
Definition VX_CAPS_NUM_WARPS : Z := 0x2.
Definition VX_CAPS_NUM_CORES : Z := 0x3.
Definition VX_CAPS_CACHE_LINE_SIZE : Z := 0x4.
Definition VX_CAPS_GLOBAL_MEM_SIZE : Z := 0x5.
Definition VX_CAPS_LOCAL_MEM_SIZE : Z := 0x6.
Definition VX_CAPS_ISA_FLAGS : Z := 0x7.
Definition VX_CAPS_NUM_MEM_BANKS : Z := 0x8.
Definition VX_CAPS_MEM_BANK_SIZE : Z := 0x9.
Definition VX_CAPS_NUM_CLUSTERS : Z := 0xA.
Definition VX_CAPS_SOCKET_SIZE : Z := 0xB.
Definition VX_CAPS_ISSUE_WIDTH : Z := 0xC.
Definition VX_CAPS_CLOCK_RATE : Z := 0xD.
Definition VX_CAPS_PEAK_MEM_BW : Z := 0xE.
Definition VX_CAPS_VM_SUPPORT : Z := 0xF.
Definition VX_CAPS_VM_PINNED_SIZE : Z := 0x10.
Definition VX_CAPS_VM_PINNED_FREE : Z := 0x11.

Definition decode_caps (dev_caps isa_caps caps_id : Z) : option Z :=
  let fld s m := Z.land (Z.shiftr dev_caps s) m in
  let pow64 n := u64 (Z.shiftl 1 n) in
  if caps_id =? VX_CAPS_VERSION then Some (fld 0 0xff)
  else if caps_id =? VX_CAPS_NUM_THREADS then Some (pow64 (fld 8 0x7))
  else if caps_id =? VX_CAPS_NUM_WARPS then Some (pow64 (fld 11 0x7))
  else if caps_id =? VX_CAPS_NUM_CORES then
    let socket_size := u32 (Z.shiftl 1 (fld 14 0x7)) in
    let cluster_size := u32 (Z.shiftl 1 (fld 17 0x7)) in
    let num_clusters := u32 (Z.shiftl 1 (fld 20 0x7)) in
    Some (u64 (num_clusters * cluster_size * socket_size))
  else if caps_id =? VX_CAPS_SOCKET_SIZE then Some (pow64 (fld 14 0x7))
  else if caps_id =? VX_CAPS_NUM_CLUSTERS then Some (pow64 (fld 20 0x7))
  else if caps_id =? VX_CAPS_ISSUE_WIDTH then Some (pow64 (fld 23 0x7))
  else if caps_id =? VX_CAPS_LOCAL_MEM_SIZE then Some (pow64 (fld 26 0xff))
  else if caps_id =? VX_CAPS_ISA_FLAGS then Some isa_caps
  else if caps_id =? VX_CAPS_NUM_MEM_BANKS then Some (pow64 (fld 34 0x7))
  else if caps_id =? VX_CAPS_MEM_BANK_SIZE then Some (pow64 (20 + fld 37 0x1f))
  else None.

(** ** The command lines *)

Definition CP_RING_SIZE : Z := 65536.
Definition CP_MEM_FLAG_PHYSICAL : Z := 0x04.

(** A line being filled: [memcpy(cl + off, &v, n)] and [p32[off / 4] = v]. *)
Definition cl_zero : list Z := replicate 64 0.
Definition store_at (off n : nat) (v : Z) (cl : list Z) : list Z :=
  take off cl ++ le_bytes n v ++ drop (off + n) cl.

Definition enc_dcr_write (addr value : Z) : list Z :=
  store_at 12 4 value (store_at 4 4 addr (store_at 0 4 OP_DCR_WRITE cl_zero)).
Definition enc_dcr_read (addr tag : Z) : list Z :=
  store_at 12 4 tag (store_at 4 4 addr (store_at 0 4 OP_DCR_READ cl_zero)).
Definition enc_launch : list Z := store_at 0 1 OP_LAUNCH cl_zero.
Definition enc_launch_qmd (qmd_addr : Z) : list Z := store_at 4 8 qmd_addr (store_at 0 1 OP_LAUNCH_QMD cl_zero).
Definition enc_draw (desc_addr : Z) : list Z := store_at 4 8 desc_addr (store_at 0 1 OP_DRAW cl_zero).
Definition enc_cache_flush (num_cores : Z) : list Z :=
  store_at 4 8 num_cores (store_at 0 1 OP_CACHE_FLUSH cl_zero).
Definition enc_mem (opcode arg0 arg1 arg2 : Z) (physical : bool) : list Z :=
  store_at 20 8 arg2 (store_at 12 8 arg1 (store_at 4 8 arg0
    (store_at 1 1 (if physical then CP_MEM_FLAG_PHYSICAL else 0) (store_at 0 1 opcode cl_zero)))).

(** ** The submission monad *)

Section Host.
Context {S : Type} (pf : Platform S).

(** [None]: still polling. *)
Definition M (A : Type) : Type := HostDev * S -> option ((A + vx_result_t) * (HostDev * S)).

Definition ret {A} (a : A) : M A := fun st => Some (inl a, st).
Definition fail {A} (e : vx_result_t) : M A := fun st => Some (inr e, st).
Definition bind {A B} (m : M A) (k : A -> M B) : M B := fun st =>
  match m st with
  | None => None
  | Some (inr e, st') => Some (inr e, st')
  | Some (inl a, st') => k a st'
  end.
Definition gets {A} (f : HostDev -> A) : M A := fun st => Some (inl (f st.1), st).
Definition modify (f : HostDev -> HostDev) : M unit := fun st => Some (inl tt, (f st.1, st.2)).
Definition on_platform {A} (f : S -> (A + vx_result_t) * S) : M A := fun st =>
  let '(r, s) := f st.2 in Some (r, (st.1, s)).
(** Run [m] and return its outcome as a value: [auto r = m;]. *)
Definition try_ {A} (m : M A) : M (A + vx_result_t) := fun st =>
  match m st with
  | None => None
  | Some (r, st') => Some (inl r, st')
  end.
Definition lift {A} (r : A + vx_result_t) : M A := match r with inl a => ret a | inr e => fail e end.

Local Notation "'do' x <- m ; k" := (bind m (fun x => k)) (at level 10, x name, m at level 100, k at level 200).
Local Notation "'run' m ; k" := (bind m (fun _ => k)) (at level 10, m at level 100, k at level 200).

Definition reg_write (off v : Z) : M unit :=
  on_platform (fun s => let '(e, s) := cp_reg_write pf s off v in
    (match e with None => inl tt | Some e => inr e end, s)).
Definition reg_read (off : Z) : M Z := on_platform (fun s => cp_reg_read pf s off).
Definition store (addr : Z) (bs : list Z) : M unit := on_platform (fun s => (inl tt, host_store pf s addr bs)).
Definition load (addr n : Z) : M (list Z) := on_platform (fun s => (inl (host_load pf s addr n), s)).

(** [cp_ring_append_] *)
Definition cp_ring_append (cl : list Z) : M unit :=
  do tail <- gets cp_tail_; do ring <- gets cp_ring_;
  let ring_off := Z.land tail (CP_RING_SIZE - 1) in
  if ring_off + CL_BYTES >? CP_RING_SIZE then fail VX_ERR_INVALID_VALUE
  else
    run store (u64 (ring + ring_off)) cl;
    modify (fun h => h <| cp_tail_ ::= fun t => u64 (t + CL_BYTES) |>
                       <| cp_expected_seqnum_ ::= fun n => u64 (n + 1) |>).

Definition cp_batch_begin : M unit :=
  modify (fun h => h <| cp_in_batch_ := true |> <| cp_batch_target_ := cp_expected_seqnum_ h |>).

(** Committing the tail. *)
Definition ring_doorbell : M unit :=
  do tail <- gets cp_tail_;
  run reg_write 0x120 (Z.land tail 0xFFFFFFFF);
  reg_write 0x124 (u32 (Z.shiftr tail 32)).

(** The polling loop on Q_SEQNUM, at most [fuel] reads. *)
Fixpoint poll (fuel : nat) (target : Z) : M unit :=
  match fuel with
  | O => fun _ => None
  | Datatypes.S fuel =>
      do seqnum32 <- reg_read 0x128;
      if seqnum32 >=? target then ret tt else poll fuel target
  end.

(** [cp_submit_cl_] *)
Definition cp_submit_cl (fuel : nat) (cl : list Z) : M unit :=
  do in_batch <- gets cp_in_batch_;
  if in_batch : bool then
    run cp_ring_append cl;
    modify (fun h => h <| cp_batch_target_ := cp_expected_seqnum_ h |>)
  else
    run cp_ring_append cl;
    do target <- gets cp_expected_seqnum_;
    run ring_doorbell;
    poll fuel target.

(** ** Host memory *)

Definition host_alloc (size : Z) : M Z :=
  do ca <- on_platform (fun s => host_mem_alloc pf s size);
  run modify (fun h => h <| host_mems_ ::= <[ca := size]> |>);
  ret ca.

Definition host_free (cp_addr : Z) : M unit :=
  run modify (fun h => h <| host_mems_ ::= delete cp_addr |>);
  on_platform (fun s => (inl tt, host_mem_free pf s cp_addr)).

(** ** Commands *)

Definition VX_DCR_TEX_ADDR : Z := 0x041.
Definition VX_DCR_RASTER_TBUF_ADDR : Z := 0x060.
Definition VX_DCR_RASTER_PBUF_ADDR : Z := 0x062.
Definition VX_DCR_OM_CBUF_ADDR : Z := 0x080.
Definition VX_DCR_OM_ZBUF_ADDR : Z := 0x083.

(** The address registers of the fixed-function units must point into the
    pinned slab while virtual memory is on. *)
Definition dcr_in_slab (h : HostDev) (addr value : Z) : bool :=
  if vm_enabled_ h && match pinned_mem_ h with Some _ => true | None => false end then
    if bool_decide (addr ∈ [VX_DCR_TEX_ADDR; VX_DCR_RASTER_TBUF_ADDR; VX_DCR_RASTER_PBUF_ADDR;
                            VX_DCR_OM_CBUF_ADDR; VX_DCR_OM_ZBUF_ADDR]) then
      let pa := u64 (Z.shiftl value 6) in
      negb ((pa <? pinned_base_ h) || (pa >=? u64 (pinned_base_ h + pinned_size_ h)))
    else true
  else true.

Definition cp_submit_dcr_write (fuel : nat) (addr value : Z) : M unit :=
  do ok <- gets (fun h => dcr_in_slab h addr value);
  if ok : bool then cp_submit_cl fuel (enc_dcr_write addr value) else fail VX_ERR_INVALID_VALUE.

Definition cp_submit_dcr_read (fuel : nat) (addr tag : Z) : M Z :=
  run cp_submit_cl fuel (enc_dcr_read addr tag);
  reg_read 0x130.

(** [cp_submit_mem_] *)
Definition cp_submit_mem (fuel : nat) (opcode arg0 arg1 arg2 : Z) (physical : bool) : M unit :=
  cp_submit_cl fuel (enc_mem opcode arg0 arg1 arg2 physical).

Definition cp_submit_mem_copy (fuel : nat) (dst src size : Z) : M unit :=
  if (size =? 0) || (dst =? src) then ret tt else cp_submit_mem fuel OP_MEM_COPY dst src size false.

(** The payload is a non-null buffer of [size] bytes. *)
Definition cp_submit_mem_write (fuel : nat) (dev_dst : Z) (host_src : list Z) (physical : bool) : M unit :=
  let size := Z.of_nat (length host_src) in
  if size =? 0 then ret tt
  else
    do staging <- host_alloc size;
    run store staging host_src;
    do r <- try_ (cp_submit_mem fuel OP_MEM_WRITE dev_dst staging size physical);
    run host_free staging;
    lift r.

Definition cp_submit_mem_read (fuel : nat) (dev_src size : Z) (physical : bool) : M (list Z) :=
  if size =? 0 then ret []
  else
    do staging <- host_alloc size;
    do r <- try_ (cp_submit_mem fuel OP_MEM_READ staging dev_src size physical);
    do dst <- load staging size;
    run host_free staging;
    run lift r;
    ret dst.

(** ** Capabilities *)

(** [load_caps] *)
Definition load_caps : M (Z * Z) :=
  do lo <- reg_read 0x018; do hi <- reg_read 0x01C;
  do lo2 <- reg_read 0x020; do hi2 <- reg_read 0x024;
  ret (Z.lor lo (u64 (Z.shiftl hi 32)), Z.lor lo2 (u64 (Z.shiftl hi2 32))).

(** Constants of the platform that are not in the capability words. *)
Record caps_consts := {
  CACHE_BLOCK_SIZE : Z; GLOBAL_MEM_SIZE : Z; PLATFORM_CLOCK_RATE : Z; PLATFORM_MEMORY_PEAK_BW : Z
}.
Context (cc : caps_consts).

Definition query_caps (caps_id : Z) : M Z :=
  do loaded <- gets caps_loaded_;
  run (if loaded : bool then ret tt
       else
         do r <- try_ load_caps;
         match r with
         | inr _ => fail VX_ERR_DEVICE_LOST
         | inl (dc, ic) =>
             modify (fun h => h <| dev_caps_ := dc |> <| isa_caps_ := ic |> <| caps_loaded_ := true |>)
         end);
  do h <- gets id;
  match decode_caps (dev_caps_ h) (isa_caps_ h) caps_id with
  | Some v => ret v
  | None =>
      if caps_id =? VX_CAPS_CACHE_LINE_SIZE then ret (CACHE_BLOCK_SIZE cc)
      else if caps_id =? VX_CAPS_GLOBAL_MEM_SIZE then ret (GLOBAL_MEM_SIZE cc)
      else if caps_id =? VX_CAPS_CLOCK_RATE then ret (PLATFORM_CLOCK_RATE cc)
      else if caps_id =? VX_CAPS_PEAK_MEM_BW then ret (PLATFORM_MEMORY_PEAK_BW cc)
      else if caps_id =? VX_CAPS_VM_SUPPORT then ret (b2z (vm_enabled_ h))
      else if caps_id =? VX_CAPS_VM_PINNED_SIZE then ret (pinned_size_ h)
      else if caps_id =? VX_CAPS_VM_PINNED_FREE then
        ret (match pinned_mem_ h with Some a => ma_free a | None => 0 end)
      else fail VX_ERR_INVALID_VALUE
  end.

Definition cp_submit_cache_flush (fuel : nat) : M unit :=
  do n0 <- gets cp_num_cores_;
  run (if n0 =? 0 then
         do n <- query_caps VX_CAPS_NUM_CORES; modify (fun h => h <| cp_num_cores_ := n |>)
       else ret tt);
  do n <- gets cp_num_cores_;
  cp_submit_cl fuel (enc_cache_flush n).

(** ** Console rings *)

Definition COUT_SLOTS : nat := 64.
Definition COUT_RING : Z := 512.
Definition COUT_ADDR : Z := 64.
Definition COUT_RD_BASE : Z := COUT_ADDR + Z.of_nat COUT_SLOTS * 4.
Definition COUT_DATA_BASE : Z := COUT_ADDR + Z.of_nat COUT_SLOTS * 8.
Definition COUT_LOST_BASE : Z := COUT_DATA_BASE + Z.of_nat COUT_SLOTS * COUT_RING.

(** [uint32_t] element [s] of an array read as bytes. *)
Definition word_at (bs : list Z) (s : nat) : Z := le_word (take 4 (drop (4 * s) bs)).

(** The character loop: the pending line and the lines completed. *)
Fixpoint drain_chars (data : list Z) (rd : Z) (s : nat) (line : list Z) (idx : list Z) : list Z * list cout_event :=
  match idx with
  | [] => (line, [])
  | i :: idx =>
      let c := default 0 (data !! Z.to_nat (Z.land (u32 (rd + i)) (COUT_RING - 1))) in
      let line := line ++ [c] in
      if c =? 10 then
        let '(line', ev) := drain_chars data rd s [] idx in (line', CoutLine s line :: ev)
      else drain_chars data rd s line idx
  end.

Definition emit (ev : list cout_event) : M unit := modify (fun h => h <| cout_ ::= fun o => o ++ ev |>).

(** One slot; the result says whether its read index advanced. *)
Definition drain_slot (fuel : nat) (wr lost : list Z) (s : nat) : M bool :=
  do rd <- gets (fun h => default 0 (cout_rd_ h !! s));
  do seen <- gets (fun h => default 0 (cout_lost_seen_ h !! s));
  run (if word_at lost s =? seen then ret tt
       else
         run emit [CoutLost s (u32 (word_at lost s - seen))];
         modify (fun h => h <| cout_lost_seen_ ::= <[s := word_at lost s]> |>));
  if word_at wr s =? rd then ret false
  else
    let n := u32 (word_at wr s - rd) in
    let n := if n >? COUT_RING then COUT_RING else n in
    do data <- cp_submit_mem_read fuel (COUT_DATA_BASE + Z.of_nat s * COUT_RING) COUT_RING false;
    do line <- gets (fun h => default [] (cout_line_ h !! s));
    let '(line', ev) := drain_chars data rd s line (seqZ 0 n) in
    run emit ev;
    run modify (fun h => h <| cout_line_ ::= <[s := line']> |> <| cout_rd_ ::= <[s := word_at wr s]> |>);
    ret true.

Fixpoint drain_slots (fuel : nat) (wr lost : list Z) (slots : list nat) (advanced : bool) : M bool :=
  match slots with
  | [] => ret advanced
  | s :: slots => do a <- drain_slot fuel wr lost s; drain_slots fuel wr lost slots (advanced || a)
  end.

Definition drain_cout (fuel : nat) : M unit :=
  do wr <- cp_submit_mem_read fuel COUT_ADDR (Z.of_nat COUT_SLOTS * 4) false;
  do lost <- cp_submit_mem_read fuel COUT_LOST_BASE (Z.of_nat COUT_SLOTS * 4) false;
  do advanced <- drain_slots fuel wr lost (seq 0 COUT_SLOTS) false;
  if advanced : bool then
    do rd <- gets cout_rd_; cp_submit_mem_write fuel COUT_RD_BASE (concat (map (le_bytes 4) rd)) false
  else ret tt.

(** ** Launches and batches *)

(** The tail of the launching commands: console output once it is coherent. *)
Definition drain_unless_batched (fuel : nat) : M unit :=
  do in_batch <- gets cp_in_batch_;
  if in_batch : bool then ret tt else drain_cout fuel.

Definition cp_submit_launch (fuel : nat) : M unit :=
  run cp_submit_cl fuel enc_launch;
  run cp_submit_cache_flush fuel;
  drain_unless_batched fuel.

Definition cp_submit_launch_qmd (fuel : nat) (qmd_addr : Z) : M unit :=
  run cp_submit_cl fuel (enc_launch_qmd qmd_addr);
  run cp_submit_cache_flush fuel;
  drain_unless_batched fuel.

Definition cp_submit_draw (fuel : nat) (desc_addr : Z) : M unit :=
  run cp_submit_cl fuel (enc_draw desc_addr);
  drain_unless_batched fuel.

Definition cp_batch_end (fuel : nat) : M unit :=
  do target <- gets cp_batch_target_;
  run modify (fun h => h <| cp_in_batch_ := false |>);
  run ring_doorbell;
  run poll fuel target;
  drain_cout fuel.

(** ** Initialisation *)

(** [cp_init] up to the discovery of the device features: buffers, queue
    registers, enables, feature bits. *)
Definition cp_init_queue : M unit :=
  do ring <- host_alloc CP_RING_SIZE;
  run modify (fun h => h <| cp_ring_ := ring |>);
  do hd <- host_alloc CL_BYTES;
  run modify (fun h => h <| cp_head_ := hd |>);
  do cmpl <- host_alloc CL_BYTES;
  run modify (fun h => h <| cp_cmpl_ := cmpl |>);
  run store ring (replicate (Z.to_nat CP_RING_SIZE) 0);
  run store hd (replicate (Z.to_nat CL_BYTES) 0);
  run store cmpl (replicate (Z.to_nat CL_BYTES) 0);
  run reg_write 0x100 (Z.land ring 0xFFFFFFFF);
  run reg_write 0x104 (u32 (Z.shiftr ring 32));
  run reg_write 0x108 (Z.land hd 0xFFFFFFFF);
  run reg_write 0x10C (u32 (Z.shiftr hd 32));
  run reg_write 0x110 (Z.land cmpl 0xFFFFFFFF);
  run reg_write 0x114 (u32 (Z.shiftr cmpl 32));
  run reg_write 0x118 16;
  run reg_write 0x11C 1;
  run reg_write 0x000 1;
  run modify (fun h => h <| cp_enabled_ := true |>);
  do r <- try_ (reg_read 0x008);
  match r with
  | inr _ => fail VX_ERR_DEVICE_LOST
  | inl dev_caps =>
      modify (fun h => h <| vm_enabled_ := negb (Z.land dev_caps (Z.shiftl 1 24) =? 0) |>
                         <| cp_supports_draw_ := negb (Z.land dev_caps (Z.shiftl 1 25) =? 0) |>
                         <| cp_supports_qmd_ := negb (Z.land dev_caps (Z.shiftl 1 26) =? 0) |>)
  end.

End Host.

(** ** The simx backend *)

Section Simx.
Context {D : Type} (c : cp_cfg) (h : Hooks D).
(** Process memory, from the C library: allocation and release. *)
Context (halloc : D -> Z -> option (Z * D)) (hfree : D -> Z -> D).

(** [for (int i = 0; i < 256 && cp_.busy(); ++i) cp_.tick();] *)
Fixpoint tick_burst (n : nat) (s : CommandProcessor * D) : CommandProcessor * D :=
  match n with
  | O => s
  | Datatypes.S n => if busy s.1 then tick_burst n (tick c h s.1 s.2) else s
  end.

Definition simx_reg_write (s : CommandProcessor * D) (off v : Z) : option vx_result_t * (CommandProcessor * D) :=
  (None, tick_burst 256 (mmio_write s.1 off v, s.2)).

Definition simx_reg_read (s : CommandProcessor * D) (off : Z) : (Z + vx_result_t) * (CommandProcessor * D) :=
  let s := tick_burst 256 s in (inl (mmio_read c s.1 off), s).

(** The backend's callbacks behind [CallbacksAdapter], whose [r] makes any
    error of a callback an invalid value. *)
Definition simx : Platform (CommandProcessor * D) := {|
  cp_reg_write := simx_reg_write;
  cp_reg_read := simx_reg_read;
  host_mem_alloc s size :=
    match halloc s.2 size with
    | Some (a, d) => (inl a, (s.1, d))
    | None => (inr VX_ERR_INVALID_VALUE, s)
    end;
  host_mem_free s a := (s.1, hfree s.2 a);
  host_store s a bs := match dram_write h with Some f => (s.1, f s.2 a bs) | None => s end;
  host_load s a n := match dram_read h with Some f => f s.2 a n | None => [] end
|}.

End Simx.

(** ** Encoding and decoding *)

(** The line holds exactly this command. *)
Definition line_is (cl : list Z) (cmd : Cmd) : Prop :=
  length cl = 64%nat /\ unpack_from cl MAX_CMDS_PER_CL 0 = 1%nat /\ line_cmds cl 0 1 = [cmd].

Lemma le_word_zeros bs n : le_word (bs ++ replicate n 0) = le_word bs.
Proof.
  induction bs as [|b bs IH]; cbn [app le_word]; [|by rewrite IH].
  induction n as [|n IHn]; cbn [replicate le_word]; [done|]. by rewrite IHn.
Qed.

Lemma le_word_bytes4 v : in_u 32 v -> le_word (le_bytes 4 v ++ replicate 4 0) = v.
Proof. intros. rewrite le_word_zeros, le_word_le_bytes. by apply wrap_small. Qed.

Lemma le_word_bytes8 v : in_u 64 v -> le_word (le_bytes 8 v) = v.
Proof. intros. rewrite le_word_le_bytes. by apply wrap_small. Qed.

(** A line from the bytes of its arguments. *)
Lemma line_is_intro cl op fl A B C a b d :
  length cl = 64%nat -> unpack_from cl MAX_CMDS_PER_CL 0 = 1%nat ->
  (decode_cmd_bytes cl 0).1 =
    {| opcode := op; flags := fl; reserved := 0; arg0 := le_word A; arg1 := le_word B; arg2 := le_word C |} ->
  le_word A = a -> le_word B = b -> le_word C = d ->
  line_is cl {| opcode := op; flags := fl; reserved := 0; arg0 := a; arg1 := b; arg2 := d |}.
Proof. intros HL HU HD <- <- <-. split; [done|]. split; [done|]. unfold line_cmds. cbn [seq map]. by rewrite <- HD. Qed.

Lemma enc_dcr_is op addr value : op = OP_DCR_WRITE \/ op = OP_DCR_READ -> in_u 32 addr -> in_u 32 value ->
  line_is (store_at 12 4 value (store_at 4 4 addr (store_at 0 4 op cl_zero)))
    {| opcode := op; flags := 0; reserved := 0; arg0 := addr; arg1 := value; arg2 := 0 |}.
Proof.
  intros Hop H1%le_word_bytes4 H2%le_word_bytes4.
  destruct Hop as [-> | ->];
    by apply (line_is_intro _ _ _ (le_bytes 4 addr ++ replicate 4 0) (le_bytes 4 value ++ replicate 4 0) (replicate 8 0)).
Qed.

(** C27 (roundtrip): what the runtime writes is what the command processor
    decodes: every line it builds holds exactly one command, with the opcode,
    flags and arguments the call was given. *)
Theorem cp_encode_decode a b d physical :
  in_u 64 a -> in_u 64 b -> in_u 64 d ->
  (forall addr value, in_u 32 addr -> in_u 32 value ->
     line_is (enc_dcr_write addr value)
       {| opcode := OP_DCR_WRITE; flags := 0; reserved := 0; arg0 := addr; arg1 := value; arg2 := 0 |} /\
     line_is (enc_dcr_read addr value)
       {| opcode := OP_DCR_READ; flags := 0; reserved := 0; arg0 := addr; arg1 := value; arg2 := 0 |}) /\
  line_is enc_launch {| opcode := OP_LAUNCH; flags := 0; reserved := 0; arg0 := 0; arg1 := 0; arg2 := 0 |} /\
  line_is (enc_launch_qmd a) {| opcode := OP_LAUNCH_QMD; flags := 0; reserved := 0; arg0 := a; arg1 := 0; arg2 := 0 |} /\
  line_is (enc_draw a) {| opcode := OP_DRAW; flags := 0; reserved := 0; arg0 := a; arg1 := 0; arg2 := 0 |} /\
  line_is (enc_cache_flush a)
    {| opcode := OP_CACHE_FLUSH; flags := 0; reserved := 0; arg0 := a; arg1 := 0; arg2 := 0 |} /\
  (forall op, op ∈ [OP_MEM_WRITE; OP_MEM_READ; OP_MEM_COPY] ->
     line_is (enc_mem op a b d physical)
       {| opcode := op; flags := if physical then MEM_FLAG_PHYSICAL else 0; reserved := 0;
          arg0 := a; arg1 := b; arg2 := d |}).
Proof.
  intros Ha Hb Hd. pose (z8 := replicate 8 0).
  pose proof (le_word_bytes8 a Ha) as Ea. pose proof (le_word_bytes8 b Hb) as Eb. pose proof (le_word_bytes8 d Hd) as Ed.
  split_and!.
  - intros addr value H1 H2. split; apply enc_dcr_is; auto.
  - by apply (line_is_intro _ _ _ z8 z8 z8).
  - by apply (line_is_intro _ _ _ (le_bytes 8 a) z8 z8).
  - by apply (line_is_intro _ _ _ (le_bytes 8 a) z8 z8).
  - by apply (line_is_intro _ _ _ (le_bytes 8 a) z8 z8).
  - intros op Hop. unfold OP_MEM_WRITE, OP_MEM_READ, OP_MEM_COPY in Hop.
    repeat (apply elem_of_cons in Hop as [->|Hop];
      [destruct physical; by apply (line_is_intro _ _ _ (le_bytes 8 a) (le_bytes 8 b) (le_bytes 8 d))|]).
    by apply elem_of_nil in Hop.
Qed.

(** ** Submission, end to end *)

Section Submit.
Context {D : Type} (c : cp_cfg) (h : Hooks D) (halloc : D -> Z -> option (Z * D)) (hfree : D -> Z -> D).
Context (rd : D -> Z -> Z -> list Z) (wr : D -> Z -> list Z -> D) {FM : FlatMem rd wr}.
Context (Hrd : dram_read h = Some rd) (Hwr : dram_write h = Some wr).

#[local] Abbreviation pf := (simx c h halloc hfree).

(** Reading back what was just written. *)
Lemma flat_read_back d a bs : rd (wr d a bs) a (Z.of_nat (length bs)) = bs.
Proof using FM.
  rewrite flat_read. apply list_eq. intros i. rewrite list_lookup_fmap.
  destruct (decide (i < length bs)%nat) as [Hi|Hi].
  - rewrite lookup_seqZ_lt by lia. cbn. rewrite flat_write.
    destruct (Z.leb_spec a (a + Z.of_nat i)), (Z.ltb_spec (a + Z.of_nat i) (a + Z.of_nat (length bs))); cbn [andb]; try lia.
    replace (Z.to_nat (a + Z.of_nat i - a)) with i by lia.
    by destruct (lookup_lt_is_Some_2 bs i Hi) as [x ->].
  - rewrite lookup_seqZ_ge by lia. cbn. symmetry. apply lookup_ge_None_2. lia.
Qed.

(** A write elsewhere is not seen. *)
Lemma flat_read_other d a bs b n : 0 <= n -> b + n <= a \/ a + Z.of_nat (length bs) <= b ->
  rd (wr d a bs) b n = rd d b n.
Proof using FM.
  intros Hn Hd. rewrite !flat_read. apply list_fmap_ext. intros i x Hx%lookup_seqZ.
  rewrite flat_write. destruct (Z.leb_spec a x), (Z.ltb_spec x (a + Z.of_nat (length bs))); cbn [andb]; try done; lia.
Qed.

(** Equal but for the cycle counter. *)
Definition same (p q : CommandProcessor) : Prop := p <| cycle_counter_ := 0 |> = q <| cycle_counter_ := 0 |>.

Lemma same_field {A} (f : CommandProcessor -> A) p q :
  (forall r, f (r <| cycle_counter_ := 0 |>) = f r) -> same p q -> f p = f q.
Proof. intros Hf E. rewrite <- (Hf p), <- (Hf q). by rewrite E. Qed.

Lemma same_counted p : same p (counted p).
Proof. done. Qed.

(** An idle processor only counts cycles. *)
Lemma tick_not_busy p d : busy p = false -> tick c h p d = (counted p, d).
Proof.
  unfold busy. intros Hb. destruct (enabled p) eqn:HE; cbn [andb] in Hb.
  - apply orb_false_iff in Hb as [Hb HL]. apply orb_false_iff in Hb as [Hb HI]. apply orb_false_iff in Hb as [Hb Hld].
    rewrite (tick_enabled c h p d HE). unfold tick_engine. change (eng_state_ (counted p)) with (eng_state_ p).
    apply bool_decide_eq_false, dec_stable in HI, HL. rewrite HI. unfold fetch_if_needed.
    change (cl_loaded_ (counted p)) with (cl_loaded_ p). rewrite Hld.
    change (q0_ (counted p)) with (q0_ p). apply Z.ltb_ge in Hb.
    destruct (Z.geb_spec (q_head (q0_ p)) (tail (q0_ p))); [|lia].
    unfold load_next_cmd. change (cl_loaded_ (counted p)) with (cl_loaded_ p). rewrite Hld. cbn [negb].
    by rewrite tick_launch_idle.
  - unfold tick. change (enabled (p <| cycle_counter_ ::= _ |>)) with (enabled p). by rewrite HE.
Qed.

Lemma busy_counted p : busy (counted p) = busy p.
Proof. done. Qed.

Lemma ticks_not_busy k p d : busy p = false -> exists q, ticks c h k p d = (q, d) /\ same p q.
Proof.
  revert p. induction k as [|k IH]; intros p Hb; cbn [ticks]; [by exists p|].
  rewrite tick_not_busy by done. destruct (IH (counted p) Hb) as (q & E & Hs). exists q. split; [exact E|].
  unfold same in *. by rewrite <- Hs.
Qed.

(** The burst runs until the processor is idle. *)
Lemma tick_burst_ticks k n p d p' d' : ticks c h k p d = (p', d') -> busy p' = false -> (k <= n)%nat ->
  exists q, tick_burst c h n (p, d) = (q, d') /\ same p' q.
Proof.
  revert n p d. induction k as [|k IH]; intros n p d HT Hb Hn; cbn [ticks] in HT.
  - injection HT as <- <-. exists p. split; [|done]. destruct n; cbn [tick_burst fst]; [done|]. by rewrite Hb.
  - destruct n as [|n]; [lia|]. cbn [tick_burst fst]. destruct (busy p) eqn:Eb.
    + cbn [snd]. destruct (tick c h p d) as [p1 d1]. apply (IH n p1 d1); auto with lia.
    + exists p. destruct (ticks_not_busy (Datatypes.S k) p d Eb) as (q & E & Hs). cbn [ticks] in E.
      rewrite E in HT. injection HT as <- <-. done.
Qed.

(** Host and processor agree, nothing is in flight. *)
Record host_sync (H : HostDev) (p : CommandProcessor) : Prop := {
  hs_batch : cp_in_batch_ H = false;
  hs_ready : ready p;
  hs_loaded : cl_loaded_ p = false;
  hs_head : q_head (q0_ p) = cp_tail_ H;
  hs_tail : tail (q0_ p) = cp_tail_ H;
  hs_ring : ring_base (q0_ p) = cp_ring_ H;
  hs_log2 : ring_log2 (q0_ p) = 16;
  hs_seq : seqnum (q0_ p) = cp_expected_seqnum_ H;
  hs_align : cp_tail_ H mod 64 = 0;
  hs_ring_range : 0 <= cp_ring_ H /\ cp_ring_ H + CP_RING_SIZE <= 2 ^ 64
}.

Lemma host_sync_idle H p : host_sync H p -> busy p = false.
Proof.
  intros [_ (HE & HI & HL) Hld Hh Ht _ _ _ _ _]. unfold busy. rewrite HE, HI, HL, Hld, Hh, Ht.
  rewrite Z.ltb_irrefl. by rewrite !bool_decide_false by tauto.
Qed.

Lemma ring_off_bound t : 0 <= t -> t mod 64 = 0 ->
  0 <= Z.land t (CP_RING_SIZE - 1) /\ Z.land t (CP_RING_SIZE - 1) + CL_BYTES <= CP_RING_SIZE.
Proof.
  intros Ht Ha. change (CP_RING_SIZE - 1) with (Z.ones 16). rewrite Z.land_ones by lia.
  pose proof (Z.mod_pos_bound t (2 ^ 16) ltac:(lia)). split; [lia|].
  assert (E : (t mod 2 ^ 16) mod 64 = 0).
  { rewrite Z.mod_mod_divide; [done|]. exists 1024. lia. }
  unfold CL_BYTES, CP_RING_SIZE. change (2 ^ 16) with 65536 in *.
  pose proof (Z.div_mod (t mod 65536) 64 ltac:(lia)). lia.
Qed.

(** Appending a line: the store and the two counters. *)
Lemma append_ok H p d cl : 0 <= cp_tail_ H -> cp_tail_ H mod 64 = 0 ->
  cp_ring_append pf cl (H, (p, d)) =
    Some (inl tt, (H <| cp_tail_ ::= fun t => u64 (t + CL_BYTES) |> <| cp_expected_seqnum_ ::= fun n => u64 (n + 1) |>,
                   (p, wr d (u64 (cp_ring_ H + Z.land (cp_tail_ H) (CP_RING_SIZE - 1))) cl))).
Proof using Hwr.
  intros H0 Ha. destruct (ring_off_bound (cp_tail_ H) H0 Ha) as [_ Hb].
  unfold cp_ring_append, bind, gets. cbn [fst snd].
  destruct (Z.gtb_spec (Z.land (cp_tail_ H) (CP_RING_SIZE - 1) + CL_BYTES) CP_RING_SIZE); [lia|].
  unfold store, on_platform, modify, simx, host_store. cbn [fst snd]. by rewrite Hwr.
Qed.

Lemma spec_run_one_seq p cmd rsp n d : (spec_run c h p [cmd] rsp n d).1.2 = u64 (n + 1).
Proof. cbn [spec_run]. by destruct (cmd_effect c h p cmd rsp d). Qed.

Lemma tick_burst_idle n p d : busy p = false -> tick_burst c h n (p, d) = (p, d).
Proof. intros Hb. destruct n; cbn [tick_burst fst]; [done|]. by rewrite Hb. Qed.

(** The doorbell as two bursts. *)
Lemma ring_doorbell_run H p d :
  ring_doorbell pf (H, (p, d)) =
    let s1 := tick_burst c h 256 (mmio_write p 0x120 (lo32 (cp_tail_ H)), d) in
    Some (inl tt, (H, tick_burst c h 256 (mmio_write s1.1 0x124 (u32 (hi32 (cp_tail_ H))), s1.2))).
Proof. reflexivity. Qed.

Lemma host_sync_same H p q : same p q -> host_sync H p -> host_sync H q.
Proof.
  intros Hq [H1 (H2 & H2' & H2'') H3 H4 H5 H6 H7 H8 H9 H10].
  pose proof (same_field q0_ p q (fun _ => eq_refl) Hq) as Eq0.
  split; rewrite <- ?Eq0; try done.
  - split; [|split].
    + by rewrite <- (same_field enabled p q (fun _ => eq_refl) Hq).
    + by rewrite <- (same_field eng_state_ p q (fun _ => eq_refl) Hq).
    + by rewrite <- (same_field launch_state_ p q (fun _ => eq_refl) Hq).
  - by rewrite <- (same_field cl_loaded_ p q (fun _ => eq_refl) Hq).
Qed.

(** The doorbell with a single immediate command in the ring: the processor
    executes it and is idle again. *)
Lemma doorbell_executes H Hx p d cl cmd a :
  cp_tail_ Hx = cp_tail_ H + CL_BYTES ->
  host_sync H p -> a = u64 (cp_ring_ H + Z.land (cp_tail_ H) (CP_RING_SIZE - 1)) ->
  0 <= cp_tail_ H -> cp_tail_ H + CL_BYTES < 2 ^ 64 -> cp_expected_seqnum_ H + 1 < 2 ^ 32 -> 0 <= cp_expected_seqnum_ H ->
  line_is cl cmd -> immediate cmd = true ->
  exists q, ring_doorbell pf (Hx, (p, wr d a cl)) =
    Some (inl tt, (Hx,
      (q, (spec_run c h p [cmd] (last_dcr_rsp_ p) (seqnum (q0_ p)) (wr d a cl)).2))) /\
    host_sync (H <| cp_tail_ := cp_tail_ H + CL_BYTES |> <| cp_expected_seqnum_ := cp_expected_seqnum_ H + 1 |>) q /\
    last_dcr_rsp_ q = (spec_run c h p [cmd] (last_dcr_rsp_ p) (seqnum (q0_ p)) (wr d a cl)).1.1.
Proof using FM Hrd Hwr.
  intros EHx HS Ea Ht0 Ht He He0 (HLn & HU & HC) HM. pose proof HS as [Hb HR Hld Hh Htl Hrg Hlg Hsq Hal Hrr].
  set (T := cp_tail_ H + CL_BYTES) in *.
  set (p1 := mmio_write p 0x120 (lo32 T)). set (p2 := mmio_write p1 0x124 (hi32 T)).
  assert (ET : tail (q0_ p2) = T).
  { apply tail_halves. unfold in_u, T, CL_BYTES in *. lia. }
  assert (Ehl : head_line rd p2 (wr d a cl) = cl).
  { unfold head_line. change (q_head (q0_ p2)) with (q_head (q0_ p)). change (ring_base (q0_ p2)) with (ring_base (q0_ p)).
    change (ring_log2 (q0_ p2)) with (ring_log2 (q0_ p)). rewrite Hlg, Hh, Hrg.
    change (u64 (u64 (Z.shiftl 1 16) - 1)) with (CP_RING_SIZE - 1). rewrite <- Ea.
    change CL_BYTES with (Z.of_nat 64). rewrite <- HLn. apply flat_read_back. }
  destruct (line_exec c h rd p2 (wr d a cl) Hrd) as (k & p' & d' & Hk & T1 & HR' & Hld' & Hh' & Ht' & Hsat & Hcm & Hrb & Hrl & _ & Esp).
  { exact HR. } { exact Hld. }
  { rewrite ET. change (q_head (q0_ p2)) with (q_head (q0_ p)). rewrite Hh. unfold T, CL_BYTES. lia. }
  { rewrite Ehl, HU, HC. by constructor. }
  rewrite Ehl, HU in Hk. rewrite Ehl, HU, HC in Esp.
  rewrite (spec_run_env c h p p2) in Esp by done.
  change (last_dcr_rsp_ p2) with (last_dcr_rsp_ p) in Esp. change (seqnum (q0_ p2)) with (seqnum (q0_ p)) in Esp.
  assert (HT64 : in_u 64 T) by (unfold in_u, T, CL_BYTES in *; lia).
  assert (Hh2 : q_head (q0_ p') = T).
  { rewrite Hh'. change (q_head (q0_ p2)) with (q_head (q0_ p)). rewrite Hh. by apply wrap_small. }
  assert (Hsq' : seqnum (q0_ p') = cp_expected_seqnum_ H + 1).
  { pose proof (spec_run_one_seq p cmd (last_dcr_rsp_ p) (seqnum (q0_ p)) (wr d a cl)) as E. rewrite Esp in E. cbn in E.
    rewrite E, Hsq. apply wrap_small. unfold in_u. lia. }
  assert (HS' : host_sync (H <| cp_tail_ := T |> <| cp_expected_seqnum_ := cp_expected_seqnum_ H + 1 |>) p').
  { split; try done; [by rewrite Ht'|by rewrite Hrb|by rewrite Hrl|]. cbn. unfold const, T, CL_BYTES.
    replace (cp_tail_ H + 64) with (cp_tail_ H + 1 * 64) by lia. by rewrite Z_mod_plus_full. }
  destruct (tick_burst_ticks k 256 p2 (wr d a cl) p' d' T1 (host_sync_idle _ _ HS') ltac:(lia)) as (q & Eq & Hq).
  exists q. rewrite ring_doorbell_run. cbn zeta. rewrite EHx. fold T p1.
  rewrite (tick_burst_idle 256 p1) by exact (host_sync_idle H p HS). cbn [fst snd].
  assert (E32 : u32 (hi32 T) = hi32 T) by (apply wrap_small, hi32_u64; done).
  rewrite E32. fold p2. rewrite Eq, Esp. cbn [fst snd]. split; [done|]. split.
  - by apply (host_sync_same _ p').
  - symmetry. by apply (same_field last_dcr_rsp_).
Qed.

(** A read of the sequence number by an idle processor. *)
Lemma poll_idle fuel H q d target : busy q = false -> in_u 32 (seqnum (q0_ q)) -> seqnum (q0_ q) = target ->
  poll pf (Datatypes.S fuel) target (H, (q, d)) = Some (inl tt, (H, (q, d))).
Proof.
  intros Hb Hr Hs. cbn [poll]. unfold bind, reg_read, on_platform. cbn [fst snd].
  change (cp_reg_read pf) with (simx_reg_read c h). unfold simx_reg_read. rewrite tick_burst_idle by done. cbn zeta.
  cbn [fst]. change (mmio_read c q 0x128) with (lo32 (seqnum (q0_ q))).
  unfold lo32. change 0xFFFFFFFF with (Z.ones 32). rewrite land_ones_wrap, wrap_small by (done || lia).
  destruct (Z.geb_spec (seqnum (q0_ q)) target); [done|lia].
Qed.

Lemma submit_one fuel H p d cl cmd :
  host_sync H p ->
  0 <= cp_tail_ H -> cp_tail_ H + CL_BYTES < 2 ^ 64 -> 0 <= cp_expected_seqnum_ H -> cp_expected_seqnum_ H + 1 < 2 ^ 32 ->
  line_is cl cmd -> immediate cmd = true ->
  let d1 := wr d (u64 (cp_ring_ H + Z.land (cp_tail_ H) (CP_RING_SIZE - 1))) cl in
  let H' := H <| cp_tail_ := cp_tail_ H + CL_BYTES |> <| cp_expected_seqnum_ := cp_expected_seqnum_ H + 1 |> in
  exists q, cp_submit_cl pf (Datatypes.S fuel) cl (H, (p, d)) =
      Some (inl tt, (H', (q, (spec_run c h p [cmd] (last_dcr_rsp_ p) (seqnum (q0_ p)) d1).2))) /\
    host_sync H' q /\ last_dcr_rsp_ q = (spec_run c h p [cmd] (last_dcr_rsp_ p) (seqnum (q0_ p)) d1).1.1.
Proof using FM Hrd Hwr.
  intros HS Ht0 Ht He0 He HLi HM d1 H'. pose proof HS as [Hb _ _ _ _ _ _ _ Hal _].
  set (Hx := H <| cp_tail_ ::= fun t => u64 (t + CL_BYTES) |> <| cp_expected_seqnum_ ::= fun n => u64 (n + 1) |>).
  assert (EHx : Hx = H').
  { change Hx with (H <| cp_tail_ := u64 (cp_tail_ H + CL_BYTES) |> <| cp_expected_seqnum_ := u64 (cp_expected_seqnum_ H + 1) |>).
    by rewrite !wrap_small by (unfold in_u, CL_BYTES in *; lia). }
  destruct (doorbell_executes H Hx p d cl cmd _ ltac:(by rewrite EHx) HS eq_refl Ht0 Ht He He0 HLi HM) as (q & E1 & E2 & E3).
  fold d1 in E1, E3. exists q. split; [|split; [exact E2|exact E3]].
  unfold cp_submit_cl, bind, gets. cbn [fst]. rewrite Hb, append_ok by done. fold d1 Hx. cbn [fst].
  rewrite E1, EHx. apply poll_idle; [exact (host_sync_idle _ _ E2)|..]; destruct E2 as [_ _ _ _ _ _ _ E2 _ _]; rewrite E2.
  - cbn. unfold const, in_u. lia.
  - done.
Qed.

(** C22 (refinement): submission of one immediate command end to end, on the
    simx backend.  When host and processor agree, nothing is in flight and the
    sequence number is below 2^32, submitting a line that holds one command
    that does not wait (no launch, draw or event wait) returns after the first
    poll; the device is left in the state the sequential interpreter reaches
    from the memory with the line in the ring, and host and processor agree
    again. *)
Theorem cp_submit_refines fuel H p d cl cmd :
  host_sync H p ->
  0 <= cp_tail_ H -> cp_tail_ H + CL_BYTES < 2 ^ 64 -> 0 <= cp_expected_seqnum_ H -> cp_expected_seqnum_ H + 1 < 2 ^ 32 ->
  line_is cl cmd -> immediate cmd = true ->
  let d1 := wr d (u64 (cp_ring_ H + Z.land (cp_tail_ H) (CP_RING_SIZE - 1))) cl in
  let '(rsp, _, d2) := spec_run c h p [cmd] (last_dcr_rsp_ p) (seqnum (q0_ p)) d1 in
  let H' := H <| cp_tail_ := cp_tail_ H + CL_BYTES |> <| cp_expected_seqnum_ := cp_expected_seqnum_ H + 1 |> in
  exists q, cp_submit_cl pf (Datatypes.S fuel) cl (H, (p, d)) = Some (inl tt, (H', (q, d2))) /\
    host_sync H' q /\ last_dcr_rsp_ q = rsp.
Proof using FM Hrd Hwr.
  intros HS Ht0 Ht He0 He HLi HM d1.
  destruct (submit_one fuel H p d cl cmd HS Ht0 Ht He0 He HLi HM) as (q & E1 & E2 & E3).
  fold d1 in E1, E3. destruct (spec_run c h p [cmd] (last_dcr_rsp_ p) (seqnum (q0_ p)) d1) as [[rsp n] d2].
  by exists q.
Qed.

(** A DCR read returns the value the device answered, having
    asked for that register and tag exactly once. *)
Theorem cp_dcr_read_returns fuel H p d addr tag f :
  host_sync H p -> vortex_dcr_read h = Some f ->
  0 <= cp_tail_ H -> cp_tail_ H + CL_BYTES < 2 ^ 64 -> 0 <= cp_expected_seqnum_ H -> cp_expected_seqnum_ H + 1 < 2 ^ 32 ->
  in_u 32 addr -> in_u 32 tag ->
  let d1 := wr d (u64 (cp_ring_ H + Z.land (cp_tail_ H) (CP_RING_SIZE - 1))) (enc_dcr_read addr tag) in
  exists H' q d2, cp_submit_dcr_read pf (Datatypes.S fuel) addr tag (H, (p, d)) =
    Some (inl (f d1 (Z.land addr 0xFFF) tag).1, (H', (q, d2))) /\ host_sync H' q.
Proof using FM Hrd Hwr.
  intros HS Hf Ht0 Ht He0 He Ha Htg d1.
  destruct (submit_one fuel H p d _ _ HS Ht0 Ht He0 He
    (enc_dcr_is OP_DCR_READ addr tag (or_intror eq_refl) Ha Htg) eq_refl) as (q & E1 & E2 & E3).
  fold (enc_dcr_read addr tag) in E1, E3. fold d1 in E1, E3.
  unfold cp_submit_dcr_read, bind. rewrite E1. unfold reg_read, on_platform. cbn [fst snd].
  change (cp_reg_read pf) with (simx_reg_read c h). unfold simx_reg_read.
  rewrite tick_burst_idle by exact (host_sync_idle _ _ E2). cbn zeta. cbn [fst].
  change (mmio_read c q 0x130) with (last_dcr_rsp_ q). rewrite E3.
  do 3 eexists. split; [|exact E2]. do 3 f_equal. cbn [spec_run].
  unfold cmd_effect. cbn [opcode]. change (OP_DCR_READ =? OP_DCR_WRITE) with false. change (OP_DCR_READ =? OP_DCR_READ) with true.
  cbn iota. unfold do_dcr_read. rewrite Hf. cbn [arg0 arg1].
  replace (Z.land tag 0xFFFFFFFF) with tag; [by destruct (f d1 _ tag)|].
  change 0xFFFFFFFF with (Z.ones 32). rewrite land_ones_wrap by lia. symmetry. by apply wrap_small.
Qed.

(** ** Initialisation *)

Lemma bind_ok {A B} (m : M A) (k : A -> M B) (st st' : HostDev * (CommandProcessor * D)) a :
  m st = Some (inl a, st') -> bind m k st = k a st'.
Proof. intros E. unfold bind. by rewrite E. Qed.

Lemma try_ok {A} (m : M A) (st st' : HostDev * (CommandProcessor * D)) r :
  m st = Some (r, st') -> try_ m st = Some (inl r, st').
Proof. intros E. unfold try_. by rewrite E. Qed.

Lemma host_alloc_ok n a d' H p d : halloc d n = Some (a, d') ->
  host_alloc pf n (H, (p, d)) = Some (inl a, (H <| host_mems_ ::= <[a := n]> |>, (p, d'))).
Proof. intros E. unfold host_alloc, bind, on_platform. cbn [fst snd simx host_mem_alloc]. by rewrite E. Qed.

Lemma store_ok a bs H p d : store pf a bs (H, (p, d)) = Some (inl tt, (H, (p, wr d a bs))).
Proof using Hwr. unfold store, on_platform. cbn [fst snd simx host_store]. by rewrite Hwr. Qed.

Lemma reg_write_idle off v H p d : busy (mmio_write p off v) = false ->
  reg_write pf off v (H, (p, d)) = Some (inl tt, (H, (mmio_write p off v, d))).
Proof.
  intros Hb. unfold reg_write, on_platform. cbn [fst snd simx cp_reg_write]. unfold simx_reg_write. cbn [fst snd].
  by rewrite tick_burst_idle.
Qed.

Lemma reg_read_idle off H p d : busy p = false -> reg_read pf off (H, (p, d)) = Some (inl (mmio_read c p off), (H, (p, d))).
Proof.
  intros Hb. unfold reg_read, on_platform. cbn [fst snd simx cp_reg_read]. unfold simx_reg_read.
  by rewrite tick_burst_idle.
Qed.

(** The queue as [cp_init] programs it. *)
Definition init_cp (ring hd cmpl : Z) : CommandProcessor :=
  let w off v p := mmio_write p off v in
  w 0x000 1 (w 0x11C 1 (w 0x118 16 (w 0x114 (hi32 cmpl) (w 0x110 (lo32 cmpl) (w 0x10C (hi32 hd) (w 0x108 (lo32 hd)
    (w 0x104 (hi32 ring) (w 0x100 (lo32 ring) CommandProcessor_init)))))))).

Lemma init_cp_regs ring hd cmpl : in_u 64 ring -> in_u 64 hd -> in_u 64 cmpl ->
  ready (init_cp ring hd cmpl) /\ ring_base (q0_ (init_cp ring hd cmpl)) = ring /\
  head_addr (q0_ (init_cp ring hd cmpl)) = hd /\ cmpl_addr (q0_ (init_cp ring hd cmpl)) = cmpl.
Proof.
  intros H1 H2 H3. split; [split; [reflexivity|split; reflexivity]|].
  split; [exact (set_halves_id 0 ring H1)|]. split; [exact (set_halves_id 0 hd H2)|exact (set_halves_id 0 cmpl H3)].
Qed.

(** Initialisation.  From reset, with the three host buffers
    allocated, the queue registers hold their addresses, host and processor
    agree, and the feature flags are those of the device. *)
Theorem cp_init_syncs H d ring hd cmpl d1 d2 d3 :
  halloc d CP_RING_SIZE = Some (ring, d1) -> halloc d1 CL_BYTES = Some (hd, d2) -> halloc d2 CL_BYTES = Some (cmpl, d3) ->
  cp_tail_ H = 0 -> cp_expected_seqnum_ H = 0 -> cp_in_batch_ H = false ->
  0 <= ring -> ring + CP_RING_SIZE <= 2 ^ 64 -> in_u 64 hd -> in_u 64 cmpl ->
  exists H' p' d', cp_init_queue pf (H, (CommandProcessor_init, d)) = Some (inl tt, (H', (p', d'))) /\
    host_sync H' p' /\ cp_ring_ H' = ring /\ head_addr (q0_ p') = hd /\ cmpl_addr (q0_ p') = cmpl /\
    vm_enabled_ H' = VM_ENABLE c /\ cp_supports_draw_ H' = true /\ cp_supports_qmd_ H' = true.
Proof using Hwr.
  intros A1 A2 A3 HT HE HB Hr0 Hr1 Hhd Hcm. unfold CP_RING_SIZE in *.
  assert (Er : u32 (hi32 ring) = hi32 ring) by (apply wrap_small, hi32_u64; unfold in_u; lia).
  assert (Eh : u32 (hi32 hd) = hi32 hd) by (by apply wrap_small, hi32_u64).
  assert (Ec : u32 (hi32 cmpl) = hi32 cmpl) by (by apply wrap_small, hi32_u64).
  destruct (init_cp_regs ring hd cmpl) as (R1 & R2 & R3 & R4); [unfold in_u; lia|done|done|].
  do 3 eexists. split.
  { unfold cp_init_queue.
    etrans; [eapply bind_ok, host_alloc_ok, A1|]. etrans; [eapply bind_ok; reflexivity|].
    etrans; [eapply bind_ok, host_alloc_ok, A2|]. etrans; [eapply bind_ok; reflexivity|].
    etrans; [eapply bind_ok, host_alloc_ok, A3|]. etrans; [eapply bind_ok; reflexivity|].
    do 3 (etrans; [eapply bind_ok, store_ok|]).
    change (Z.shiftr ring 32) with (hi32 ring). change (Z.shiftr hd 32) with (hi32 hd).
    change (Z.shiftr cmpl 32) with (hi32 cmpl). rewrite Er, Eh, Ec.
    do 9 (etrans; [eapply bind_ok, reg_write_idle; reflexivity|]).
    etrans; [eapply bind_ok; reflexivity|].
    etrans; [eapply bind_ok, try_ok, reg_read_idle; reflexivity|]. reflexivity. }
  split_and!.
  - split; try done; cbn; unfold const; rewrite ?HT, ?HE; done.
  - done.
  - exact R3.
  - exact R4.
  - cbn. unfold const, mmio_read. cbn. by destruct (VM_ENABLE c).
  - cbn. unfold const, mmio_read. cbn. by destruct (VM_ENABLE c).
  - cbn. unfold const, mmio_read. cbn. by destruct (VM_ENABLE c).
Qed.

(** ** Batches *)

(** A client submitting lines one after the other. *)
Fixpoint submit_all (fuel : nat) (L : list (list Z)) : M unit :=
  match L with
  | [] => ret tt
  | cl :: L => bind (cp_submit_cl pf fuel cl) (fun _ => submit_all fuel L)
  end.

Definition ring_addr (H : HostDev) (t : Z) : Z := u64 (cp_ring_ H + Z.land t (CP_RING_SIZE - 1)).

Fixpoint store_lines (ring : Z -> Z) (d : D) (t : Z) (L : list (list Z)) : D :=
  match L with
  | [] => d
  | cl :: L => store_lines ring (wr d (ring t) cl) (t + CL_BYTES) L
  end.

Lemma align_step t : t mod 64 = 0 -> (t + CL_BYTES) mod 64 = 0.
Proof. intros E. change CL_BYTES with (1 * 64). by rewrite Z_mod_plus_full. Qed.

Lemma batch_stores fuel L H p d : cp_in_batch_ H = true -> 0 <= cp_tail_ H -> cp_tail_ H mod 64 = 0 ->
  cp_tail_ H + Z.of_nat (length L) * CL_BYTES < 2 ^ 64 ->
  exists H', submit_all fuel L (H, (p, d)) = Some (inl tt, (H', (p, store_lines (ring_addr H) d (cp_tail_ H) L))) /\
    cp_in_batch_ H' = true /\ cp_ring_ H' = cp_ring_ H /\
    cp_tail_ H' = cp_tail_ H + Z.of_nat (length L) * CL_BYTES.
Proof using Hwr.
  revert H d. induction L as [|cl L IH]; intros H d Hb H0 Ha Hlt.
  - exists H. cbn [length Z.of_nat]. split_and!; try done. lia.
  - cbn [submit_all store_lines]. unfold CL_BYTES in *. cbn [length] in *.
    assert (E : cp_submit_cl pf fuel cl (H, (p, d)) =
      Some (inl tt, (H <| cp_tail_ := cp_tail_ H + 64 |> <| cp_expected_seqnum_ := u64 (cp_expected_seqnum_ H + 1) |>
                       <| cp_batch_target_ := u64 (cp_expected_seqnum_ H + 1) |>,
                     (p, wr d (ring_addr H (cp_tail_ H)) cl)))).
    { unfold cp_submit_cl, bind, gets. cbn [fst]. rewrite Hb, append_ok by done.
      assert (Ew : u64 (cp_tail_ H + 64) = cp_tail_ H + 64) by (apply wrap_small; unfold in_u; lia).
      rewrite <- Ew. done. }
    rewrite (bind_ok _ _ _ _ _ E). clear E.
    match goal with |- context [submit_all fuel L (?h1, _)] => set (H1 := h1) end.
    destruct (IH H1 (wr d (ring_addr H (cp_tail_ H)) cl)) as (H' & E & B1 & B2 & B3).
    { exact Hb. } { change (cp_tail_ H1) with (cp_tail_ H + 64). lia. } { by apply align_step. }
    { change (cp_tail_ H1) with (cp_tail_ H + 64). lia. }
    exists H'. split; [exact E|]. split; [done|]. split; [exact B2|].
    rewrite B3. change (cp_tail_ H1) with (cp_tail_ H + 64). lia.
Qed.

Definition ring_ok (H : HostDev) : Prop := 0 <= cp_ring_ H /\ cp_ring_ H + CP_RING_SIZE <= 2 ^ 64.

Lemma ring_addr_eq H t : ring_ok H -> 0 <= t -> t mod 64 = 0 ->
  ring_addr H t = cp_ring_ H + t mod 65536 /\ t mod 65536 + 64 <= 65536 /\ (t mod 65536) mod 64 = 0.
Proof.
  intros [Hr1 Hr2] H0 Ha. destruct (ring_off_bound t H0 Ha) as [B1 B2]. unfold ring_addr, CP_RING_SIZE, CL_BYTES in *.
  change (65536 - 1) with (Z.ones 16) in *. rewrite Z.land_ones in * by lia. change (2 ^ 16) with 65536 in *.
  rewrite wrap_small by (unfold in_u; lia). split; [done|]. split; [done|].
  rewrite Z.mod_mod_divide; [done|]. exists 1024. lia.
Qed.

(** Lines at other ring offsets are left alone. *)
Lemma store_lines_other H d t u L : ring_ok H -> 0 <= t -> t mod 64 = 0 -> 0 <= u -> u mod 64 = 0 ->
  Forall (fun cl => length cl = 64%nat) L ->
  (forall k, (k < length L)%nat -> (t + Z.of_nat k * 64) mod 65536 <> u mod 65536) ->
  rd (store_lines (ring_addr H) d t L) (ring_addr H u) 64 = rd d (ring_addr H u) 64.
Proof using FM.
  intros HR Ht Hta Hu Hua HL Hk. revert t d Ht Hta Hk. induction HL as [|cl L Hcl HL IH]; intros t d Ht Hta Hk; [done|].
  cbn [store_lines]. unfold CL_BYTES. rewrite IH; [|lia|by apply align_step|].
  - destruct (ring_addr_eq H t HR Ht Hta) as (-> & B1 & B2). destruct (ring_addr_eq H u HR Hu Hua) as (-> & C1 & C2).
    specialize (Hk 0%nat ltac:(cbn; lia)). rewrite Z.add_0_r in Hk. rewrite flat_read_other; [done|lia|].
    rewrite Hcl. pose proof (Z.div_mod (t mod 65536) 64 ltac:(lia)). pose proof (Z.div_mod (u mod 65536) 64 ltac:(lia)). lia.
  - intros k Hkl. specialize (Hk (Datatypes.S k) ltac:(cbn; lia)).
    replace (t + 64 + Z.of_nat k * 64) with (t + Z.of_nat (Datatypes.S k) * 64) by lia. done.
Qed.

Lemma offsets_differ t k : 0 <= t -> 0 < k < 1024 -> (t + k * 64) mod 65536 <> t mod 65536.
Proof.
  intros Ht Hk E. pose proof (Z.div_mod (t + k * 64) 65536 ltac:(lia)). pose proof (Z.div_mod t 65536 ltac:(lia)).
  assert (k * 64 = 65536 * ((t + k * 64) / 65536 - t / 65536)) by lia. lia.
Qed.

Lemma store_lines_get H d t L k cl : ring_ok H -> 0 <= t -> t mod 64 = 0 ->
  Forall (fun cl => length cl = 64%nat) L -> (length L <= 1024)%nat -> L !! k = Some cl ->
  rd (store_lines (ring_addr H) d t L) (ring_addr H (t + Z.of_nat k * CL_BYTES)) 64 = cl.
Proof using FM.
  intros HR. revert d t k. induction L as [|x L IH]; intros d t k Ht Hta HL Hlen Hk; [done|].
  apply Forall_cons_iff in HL as [Hx HL]. cbn [length] in Hlen. cbn [store_lines]. unfold CL_BYTES. destruct k as [|k].
  - cbn in Hk. injection Hk as ->. rewrite Z.add_0_r. rewrite store_lines_other; try done; [|lia|by apply align_step|].
    + change 64 with (Z.of_nat 64). rewrite <- Hx. apply flat_read_back.
    + intros k Hk E. apply (offsets_differ t (Z.of_nat k + 1)); [lia|lia|]. rewrite <- E. f_equal. lia.
  - replace (t + Z.of_nat (Datatypes.S k) * 64) with (t + 64 + Z.of_nat k * CL_BYTES) by (unfold CL_BYTES; lia).
    apply IH; try done; [lia|by apply align_step|lia].
Qed.

(** A batch of at most 1024 lines, the capacity of the ring.
    Once the lines are appended, the processor fetches, at every head position of
    the batch, exactly the line that was submitted there, in order. *)
Theorem cp_batch_in_order fuel L H p d :
  cp_in_batch_ H = true -> ring_ok H -> 0 <= cp_tail_ H -> cp_tail_ H mod 64 = 0 ->
  cp_tail_ H + Z.of_nat (length L) * CL_BYTES < 2 ^ 64 ->
  Forall (fun cl => length cl = 64%nat) L -> (length L <= 1024)%nat ->
  exists H' d', submit_all fuel L (H, (p, d)) = Some (inl tt, (H', (p, d'))) /\
    cp_tail_ H' = cp_tail_ H + Z.of_nat (length L) * CL_BYTES /\
    forall k cl q, L !! k = Some cl ->
      ring_base (q0_ q) = cp_ring_ H -> ring_log2 (q0_ q) = 16 ->
      q_head (q0_ q) = cp_tail_ H + Z.of_nat k * CL_BYTES -> head_line rd q d' = cl.
Proof using FM Hwr.
  intros Hb HR H0 Ha Hlt HL Hlen. destruct (batch_stores fuel L H p d Hb H0 Ha Hlt) as (H' & E & _ & _ & Et).
  do 2 eexists. split; [exact E|]. split; [exact Et|]. intros k cl q Hk Er Eg Eh.
  unfold head_line. rewrite Er, Eg, Eh. change (u64 (u64 (Z.shiftl 1 16) - 1)) with (CP_RING_SIZE - 1).
  change CL_BYTES with 64 at 2. by apply store_lines_get.
Qed.

Lemma store_lines_app ring d t L1 L2 :
  store_lines ring d t (L1 ++ L2) = store_lines ring (store_lines ring d t L1) (t + Z.of_nat (length L1) * CL_BYTES) L2.
Proof.
  revert d t. induction L1 as [|x L1 IH]; intros d t; cbn [app store_lines length].
  - by rewrite Z.add_0_r.
  - rewrite IH. f_equal. lia.
Qed.

(** One line more overwrites the first before the processor is told about it:
    nothing checks the space left in the ring. *)
Lemma batch_overrun fuel L last H p d :
  cp_in_batch_ H = true -> ring_ok H -> 0 <= cp_tail_ H -> cp_tail_ H mod 64 = 0 ->
  cp_tail_ H + 1025 * CL_BYTES < 2 ^ 64 -> length L = 1024%nat -> length last = 64%nat ->
  exists H' d', submit_all fuel (L ++ [last]) (H, (p, d)) = Some (inl tt, (H', (p, d'))) /\
    rd d' (ring_addr H (cp_tail_ H)) 64 = last.
Proof using FM Hwr.
  intros Hb HR H0 Ha Hlt HL Hl. destruct (batch_stores fuel (L ++ [last]) H p d Hb H0 Ha) as (H' & E & _).
  { rewrite length_app. cbn [length]. lia. }
  do 2 eexists. split; [exact E|]. rewrite store_lines_app. cbn [store_lines].
  assert (Ea : ring_addr H (cp_tail_ H + Z.of_nat (length L) * CL_BYTES) = ring_addr H (cp_tail_ H)).
  { unfold ring_addr. rewrite HL. change (CP_RING_SIZE - 1) with (Z.ones 16). rewrite !Z.land_ones by lia.
    do 2 f_equal. change (Z.of_nat 1024 * CL_BYTES) with (1 * 2 ^ 16). by rewrite Z_mod_plus_full. }
  rewrite Ea. change 64 with (Z.of_nat 64). rewrite <- Hl. apply flat_read_back.
Qed.

(** ** Polling *)

Lemma lo32_lt v : lo32 v < 2 ^ 32.
Proof. pose proof (lo32_u64 v). unfold in_u in *. lia. Qed.

(** The sequence number is read through a 32-bit register and
    compared with a 64-bit target, so once 2^32 commands have been submitted a
    submission never returns, whatever the processor does. *)
Theorem cp_poll_never_returns fuel cl H s :
  cp_in_batch_ H = false -> 0 <= cp_tail_ H -> cp_tail_ H mod 64 = 0 -> 2 ^ 32 - 1 <= cp_expected_seqnum_ H < 2 ^ 64 - 1 ->
  cp_submit_cl pf fuel cl (H, s) = None.
Proof using Hwr.
  intros Hb H0 Ha He. destruct s as [p d].
  assert (Hp : forall fuel target st, 2 ^ 32 <= target -> poll pf fuel target st = None).
  { clear. intros fuel. induction fuel as [|fuel IH]; intros target [H1 s1] Ht; [done|].
    cbn [poll]. unfold bind, reg_read, on_platform. cbn [fst snd simx cp_reg_read]. unfold simx_reg_read. cbn zeta.
    set (s2 := tick_burst c h 256 s1). change (mmio_read c s2.1 0x128) with (lo32 (seqnum (q0_ s2.1))).
    pose proof (lo32_lt (seqnum (q0_ s2.1))).
    destruct (Z.geb_spec (lo32 (seqnum (q0_ s2.1))) target); [lia|]. by apply IH. }
  unfold cp_submit_cl, bind, gets. cbn [fst]. rewrite Hb, append_ok by done. cbn [fst].
  rewrite ring_doorbell_run. cbn zeta. apply Hp. cbn. rewrite wrap_small; [lia|]. unfold in_u. lia.
Qed.

End Submit.

(** ** Capability round trip *)

Lemma clog2_from_spec fuel r n : 0 <= r <= n -> n < 64 -> (Z.to_nat (n - r) <= fuel)%nat ->
  clog2_from fuel r (2 ^ n) = n.
Proof.
  revert r. induction fuel as [|fuel IH]; intros r Hr Hn Hf; cbn [clog2_from]; [lia|].
  rewrite Z.shiftl_1_l, wrap_small by (unfold in_u; split; [|apply Z.pow_lt_mono_r]; lia).
  destruct (Z.ltb_spec (2 ^ r) (2 ^ n)) as [Hlt|Hge].
  - apply Z.pow_lt_mono_r_iff in Hlt; [|lia|lia]. apply IH; lia.
  - destruct (decide (r = n)); [done|]. assert (2 ^ r < 2 ^ n) by (apply Z.pow_lt_mono_r; lia). lia.
Qed.

Lemma cp_clog2_pow2 n : 0 <= n < 64 -> cp_clog2 (2 ^ n) = n.
Proof. intros. apply clog2_from_spec; lia. Qed.

(** The fields of the capability word. *)
Definition caps_word (impl t w s k n i l b a : Z) : Z :=
  Z.lor (Z.land impl (Z.ones 8))
  (Z.lor (Z.shiftl (Z.land t (Z.ones 3)) 8) (Z.lor (Z.shiftl (Z.land w (Z.ones 3)) 11)
  (Z.lor (Z.shiftl (Z.land s (Z.ones 3)) 14) (Z.lor (Z.shiftl (Z.land k (Z.ones 3)) 17)
  (Z.lor (Z.shiftl (Z.land n (Z.ones 3)) 20) (Z.lor (Z.shiftl (Z.land i (Z.ones 3)) 23)
  (Z.lor (Z.shiftl (Z.land l (Z.ones 8)) 26) (Z.lor (Z.shiftl (Z.land b (Z.ones 3)) 34)
         (Z.shiftl (Z.land a (Z.ones 5)) 37))))))))).

Lemma caps_word_fields impl t w s k n i l b a :
  in_u 8 impl -> in_u 3 t -> in_u 3 w -> in_u 3 s -> in_u 3 k -> in_u 3 n -> in_u 3 i -> in_u 8 l -> in_u 3 b -> in_u 5 a ->
  let W := caps_word impl t w s k n i l b a in
  in_u 64 W /\
  Z.land (Z.shiftr W 0) (Z.ones 8) = impl /\ Z.land (Z.shiftr W 8) (Z.ones 3) = t /\
  Z.land (Z.shiftr W 11) (Z.ones 3) = w /\ Z.land (Z.shiftr W 14) (Z.ones 3) = s /\
  Z.land (Z.shiftr W 17) (Z.ones 3) = k /\ Z.land (Z.shiftr W 20) (Z.ones 3) = n /\
  Z.land (Z.shiftr W 23) (Z.ones 3) = i /\ Z.land (Z.shiftr W 26) (Z.ones 8) = l /\
  Z.land (Z.shiftr W 34) (Z.ones 3) = b /\ Z.land (Z.shiftr W 37) (Z.ones 5) = a.
Proof.
  intros. subst W. unfold caps_word. split.
  { repeat (apply lor_in_u; [lia| |]);
      (rewrite land_ones_wrap by lia; rewrite wrap_small by done; rewrite ?Z.shiftl_mul_pow2 by lia; unfold in_u in *; lia). }
  split_and!; zbits.
Qed.

(** A configuration whose sizes are powers of two that fit their fields. *)
Record cfg_ok (c : cp_cfg) (t w s k n i b : Z) : Prop := {
  ok_impl : in_u 8 (IMPL_ID c);
  ok_t : NUM_THREADS c = 2 ^ t /\ 0 <= t < 8;
  ok_w : NUM_WARPS c = 2 ^ w /\ 0 <= w < 8;
  ok_s : SOCKET_SIZE c = 2 ^ s /\ 0 <= s < 8;
  ok_k : NUM_CORES c = 2 ^ (s + k) /\ 0 <= k < 8;
  ok_n : NUM_CLUSTERS c = 2 ^ n /\ 0 <= n < 8;
  ok_i : ISSUE_WIDTH c = 2 ^ i /\ 0 <= i < 8;
  ok_l : LMEM_ENABLED c = true /\ 0 <= LMEM_LOG_SIZE c < 64;
  ok_b : MEM_NUM_BANKS c = 2 ^ b /\ 0 <= b < 8;
  ok_a : 0 <= MEM_ADDR_WIDTH c - b - 20 < 32;
  ok_misa : in_u 32 (MISA_EXT c) /\ in_u 32 (MISA_STD c)
}.

Lemma gpu_dev_caps_word c t w s k n i b : cfg_ok c t w s k n i b ->
  gpu_dev_caps c = caps_word (IMPL_ID c) t w s k n i (LMEM_LOG_SIZE c) b (MEM_ADDR_WIDTH c - b - 20).
Proof.
  intros [_ [E1 R1] [E2 R2] [E3 R3] [E4 R4] [E5 R5] [E6 R6] [E7 R7] [E8 R8] R9 _].
  assert (Ek : 2 ^ (s + k) / 2 ^ s = 2 ^ k).
  { rewrite Z.pow_add_r, Z.mul_comm, Z.div_mul by lia. done. }
  unfold gpu_dev_caps. cbn zeta. rewrite E1, E2, E3, E4, E5, E6, E7, E8, Ek. rewrite !cp_clog2_pow2 by lia.
  rewrite (wrap_small 32 (MEM_ADDR_WIDTH c - b)) by (unfold in_u; lia).
  rewrite (wrap_small 32 (MEM_ADDR_WIDTH c - b - 20)) by (unfold in_u; lia). done.
Qed.

Lemma gpu_isa_caps_range c : in_u 32 (MISA_STD c) -> in_u 64 (gpu_isa_caps c).
Proof.
  intros H. unfold gpu_isa_caps. apply lor_in_u; [lia|apply wrap_range; lia|]. apply lor_in_u; [lia| |unfold in_u in *; lia].
  change 0x3 with (Z.ones 2). rewrite land_ones_wrap by lia.
  pose proof (wrap_range 2 (u32 (cp_clog2 (CFG_XLEN c) - 4)) ltac:(lia)) as Hw. unfold in_u in *.
  rewrite Z.shiftl_mul_pow2 by lia. lia.
Qed.

Lemma halves_join v : in_u 64 v -> Z.lor (lo32 v) (u64 (Z.shiftl (u32 (hi32 v)) 32)) = v.
Proof. intros H. rewrite (wrap_small 32) by (by apply hi32_u64). rewrite Z.lor_comm. by apply tail_halves. Qed.

Lemma pow64_small n : 0 <= n < 64 -> u64 (Z.shiftl 1 n) = 2 ^ n.
Proof. intros. rewrite Z.shiftl_1_l. apply wrap_small. unfold in_u. split; [|apply Z.pow_lt_mono_r]; lia. Qed.

Lemma pow32_small n : 0 <= n < 32 -> u32 (Z.shiftl 1 n) = 2 ^ n.
Proof. intros. rewrite Z.shiftl_1_l. apply wrap_small. unfold in_u. split; [|apply Z.pow_lt_mono_r]; lia. Qed.

(** The capabilities the words encode. *)
Definition cap_values (c : cp_cfg) (b : Z) : list (Z * Z) :=
  [(VX_CAPS_VERSION, IMPL_ID c); (VX_CAPS_NUM_THREADS, NUM_THREADS c); (VX_CAPS_NUM_WARPS, NUM_WARPS c);
   (VX_CAPS_NUM_CORES, NUM_CLUSTERS c * NUM_CORES c); (VX_CAPS_SOCKET_SIZE, SOCKET_SIZE c);
   (VX_CAPS_NUM_CLUSTERS, NUM_CLUSTERS c); (VX_CAPS_ISSUE_WIDTH, ISSUE_WIDTH c);
   (VX_CAPS_LOCAL_MEM_SIZE, 2 ^ LMEM_LOG_SIZE c); (VX_CAPS_ISA_FLAGS, gpu_isa_caps c);
   (VX_CAPS_NUM_MEM_BANKS, MEM_NUM_BANKS c); (VX_CAPS_MEM_BANK_SIZE, 2 ^ (MEM_ADDR_WIDTH c - b))].

Lemma decode_gpu_caps c t w s k n i b id v : cfg_ok c t w s k n i b -> (id, v) ∈ cap_values c b ->
  decode_caps (gpu_dev_caps c) (gpu_isa_caps c) id = Some v.
Proof.
  intros HC. pose proof HC as [HI [E1 R1] [E2 R2] [E3 R3] [E4 R4] [E5 R5] [E6 R6] [E7 R7] [E8 R8] R9 _].
  rewrite (gpu_dev_caps_word c t w s k n i b HC). unfold decode_caps, cap_values. cbn zeta.
  destruct (caps_word_fields (IMPL_ID c) t w s k n i (LMEM_LOG_SIZE c) b (MEM_ADDR_WIDTH c - b - 20))
    as (_ & F1 & F2 & F3 & F4 & F5 & F6 & F7 & F8 & F9 & F10); [unfold in_u in *; lia..|].
  change 0xff with (Z.ones 8). change 0x7 with (Z.ones 3). change 0x1f with (Z.ones 5).
  rewrite F1, F2, F3, F4, F5, F6, F7, F8, F9, F10.
  replace (20 + (MEM_ADDR_WIDTH c - b - 20)) with (MEM_ADDR_WIDTH c - b) by lia.
  rewrite !pow64_small, !pow32_small, E1, E2, E3, E4, E5, E6, E8 by lia.
  intros Hv. repeat (apply elem_of_cons in Hv as [[= -> ->]|Hv]; [try reflexivity|]); [|by apply elem_of_nil in Hv].
  change (Some (u64 (2 ^ n * 2 ^ k * 2 ^ s)) = Some (2 ^ n * 2 ^ (s + k))). f_equal.
  rewrite <- !Z.pow_add_r by lia. replace (n + k + s) with (n + (s + k)) by lia. apply wrap_small. unfold in_u.
  split; [apply Z.pow_nonneg; lia|apply Z.pow_lt_mono_r; lia].
Qed.

Section Caps.
Context {D : Type} (c : cp_cfg) (h : Hooks D) (halloc : D -> Z -> option (Z * D)) (hfree : D -> Z -> D) (cc : caps_consts).

(** The capabilities an application reads back are the
    configuration the device was built with: the words the processor packs, read
    in halves through the register file and unpacked by the runtime, give every
    value back. *)
Theorem caps_roundtrip t w s k n i b id v H p d :
  cfg_ok c t w s k n i b -> (id, v) ∈ cap_values c b -> caps_loaded_ H = false -> busy p = false ->
  exists H', query_caps (simx c h halloc hfree) cc id (H, (p, d)) = Some (inl v, (H', (p, d))) /\ caps_loaded_ H' = true.
Proof.
  intros HC Hv Hl Hb. pose proof (decode_gpu_caps c t w s k n i b id v HC Hv) as Hd.
  assert (HR : in_u 64 (gpu_dev_caps c)).
  { rewrite (gpu_dev_caps_word c t w s k n i b HC).
    pose proof HC as [HI [E1 R1] [E2 R2] [E3 R3] [E4 R4] [E5 R5] [E6 R6] [E7 R7] [E8 R8] R9 _].
    apply caps_word_fields; try done; unfold in_u; lia. }
  assert (HR2 : in_u 64 (gpu_isa_caps c)) by (apply gpu_isa_caps_range; apply HC).
  assert (EL : load_caps (simx c h halloc hfree) (H, (p, d)) = Some (inl (gpu_dev_caps c, gpu_isa_caps c), (H, (p, d)))).
  { unfold load_caps. do 4 (etrans; [eapply bind_ok, reg_read_idle, Hb|]). unfold ret. do 3 f_equal.
    exact (f_equal2 pair (halves_join _ HR) (halves_join _ HR2)). }
  eexists. unfold query_caps. split.
  { etrans; [eapply bind_ok; reflexivity|]. cbn [fst]. rewrite Hl.
    etrans; [eapply bind_ok; etrans; [eapply bind_ok, try_ok, EL|reflexivity]|].
    etrans; [eapply bind_ok; reflexivity|]. cbn. unfold const. rewrite Hd. reflexivity. }
  reflexivity.
Qed.

End Caps.

(** A device without local memory reports one byte of it. *)
Example caps_no_local_mem :
  decode_caps (gpu_dev_caps (Demo.cfg <| LMEM_ENABLED := false |>)) 0 VX_CAPS_LOCAL_MEM_SIZE = Some 1.
Proof. vm_compute. reflexivity. Qed.

(** ** Concrete instances *)

Module HostDemo.
Import Demo.

(** An allocator that hands out 64 KiB blocks, counting in byte 0x900. *)
Definition halloc (d : Z -> Z) (n : Z) : option (Z * (Z -> Z)) :=
  Some (0x100000 + d 0x900 * 0x10000, flat_wr d 0x900 [d 0x900 + 1]).
Definition hfree (d : Z -> Z) (a : Z) : Z -> Z := d.

#[local] Abbreviation pf := (simx cfg hooks halloc hfree).

Definition mem0 : Z -> Z := fun _ => 0.

Definition host0 : HostDev := {|
  cp_tail_ := 0; cp_expected_seqnum_ := 0; cp_in_batch_ := false; cp_batch_target_ := 0;
  cp_ring_ := 0x100000; cp_head_ := 0x110000; cp_cmpl_ := 0x120000; cp_enabled_ := true; cp_num_cores_ := 0;
  vm_enabled_ := false; cp_supports_draw_ := true; cp_supports_qmd_ := true;
  pinned_mem_ := None; pinned_base_ := 0; pinned_size_ := 0;
  host_mems_ := ∅; caps_loaded_ := false; dev_caps_ := 0; isa_caps_ := 0;
  cout_rd_ := replicate 64 0; cout_lost_seen_ := replicate 64 0; cout_line_ := replicate 64 []; cout_ := [] |}.

Definition cp0 : CommandProcessor := init_cp 0x100000 0x110000 0x120000.

Lemma sync0 : host_sync host0 cp0.
Proof. split; [reflexivity|split; [reflexivity|split; reflexivity]|..]; vm_compute; try reflexivity. split; discriminate. Qed.

Lemma cp_encode_decode_witness :
  line_is (enc_mem OP_MEM_COPY 0x1000 0x2000 64 true)
    {| opcode := OP_MEM_COPY; flags := 4; reserved := 0; arg0 := 0x1000; arg1 := 0x2000; arg2 := 64 |}.
Proof.
  destruct (cp_encode_decode 0x1000 0x2000 64 true) as (_ & _ & _ & _ & _ & H).
  - vm_compute. split; discriminate || reflexivity.
  - vm_compute. split; discriminate || reflexivity.
  - vm_compute. split; discriminate || reflexivity.
  - apply H. vm_compute. by repeat constructor.
Defined.

Lemma cp_submit_refines_witness :
  exists H' q d2, cp_submit_cl pf 1 (enc_dcr_write 0x10 0x55) (host0, (cp0, mem0)) = Some (inl tt, (H', (q, d2))) /\
    d2 0x10 = 0x55 /\ d2 0x120000 = 1 /\ host_sync H' q.
Proof.
  pose proof (cp_submit_refines cfg hooks halloc hfree flat_rd flat_wr eq_refl eq_refl 0 host0 cp0 mem0
    (enc_dcr_write 0x10 0x55) {| opcode := OP_DCR_WRITE; flags := 0; reserved := 0; arg0 := 0x10; arg1 := 0x55; arg2 := 0 |}
    sync0 ltac:(vm_compute; discriminate) ltac:(vm_compute; reflexivity) ltac:(vm_compute; discriminate)
    ltac:(vm_compute; reflexivity) ltac:(split; [reflexivity|split; vm_compute; reflexivity]) eq_refl) as H.
  cbn zeta in H. destruct (spec_run _ _ _ _ _ _ _) as [[rsp n] d2] eqn:E. destruct H as (q & H1 & H2 & _).
  do 3 eexists. split; [exact H1|]. split; [|split; [|exact H2]];
    (etrans; [symmetry; exact (f_equal (fun t => t.2 _) E)|vm_compute; reflexivity]).
Defined.

Lemma cp_dcr_read_returns_witness :
  exists H' q d2, cp_submit_dcr_read pf 1 0x900 7 (host0, (cp0, flat_wr mem0 0x900 [42])) = Some (inl 42, (H', (q, d2))) /\
    host_sync H' q.
Proof.
  destruct (cp_dcr_read_returns cfg hooks halloc hfree flat_rd flat_wr eq_refl eq_refl 0 host0 cp0 (flat_wr mem0 0x900 [42])
    0x900 7 _ sync0 eq_refl ltac:(vm_compute; discriminate) ltac:(vm_compute; reflexivity) ltac:(vm_compute; discriminate)
    ltac:(vm_compute; reflexivity) ltac:(vm_compute; split; discriminate || reflexivity)
    ltac:(vm_compute; split; discriminate || reflexivity)) as (H' & q & d2 & E & HS).
  exists H', q, d2. split; [|exact HS]. etrans; [exact E|].
  apply (f_equal (fun v => Some (inl v, (H', (q, d2))))). vm_compute. reflexivity.
Defined.

Lemma cp_init_syncs_witness :
  exists H' p' d', cp_init_queue pf (host0, (CommandProcessor_init, mem0)) = Some (inl tt, (H', (p', d'))) /\
    host_sync H' p' /\ cmpl_addr (q0_ p') = 0x120000.
Proof.
  destruct (cp_init_syncs cfg hooks halloc hfree flat_wr eq_refl host0 mem0
    0x100000 0x110000 0x120000 (flat_wr mem0 0x900 [1]) (flat_wr (flat_wr mem0 0x900 [1]) 0x900 [2])
    (flat_wr (flat_wr (flat_wr mem0 0x900 [1]) 0x900 [2]) 0x900 [3])
    eq_refl eq_refl eq_refl eq_refl eq_refl eq_refl ltac:(vm_compute; discriminate) ltac:(vm_compute; discriminate)
    ltac:(vm_compute; split; discriminate || reflexivity) ltac:(vm_compute; split; discriminate || reflexivity))
    as (H' & p' & d' & E & HS & _ & _ & Hc & _).
  exists H', p', d'. split; [exact E|]. split; [exact HS|exact Hc].
Defined.

Lemma cp_batch_in_order_witness :
  exists H' d', submit_all cfg hooks halloc hfree 0 [enc_launch; enc_draw 0x4000] (host0 <| cp_in_batch_ := true |>, (cp0, mem0)) =
      Some (inl tt, (H', (cp0, d'))) /\
    head_line flat_rd (upd_q (fun q => q <| q_head := 64 |>) cp0) d' = enc_draw 0x4000.
Proof.
  destruct (cp_batch_in_order cfg hooks halloc hfree flat_rd flat_wr eq_refl 0 [enc_launch; enc_draw 0x4000]
    (host0 <| cp_in_batch_ := true |>) cp0 mem0) as (H' & d' & E & _ & HL).
  - reflexivity.
  - vm_compute. split; discriminate.
  - vm_compute. discriminate.
  - reflexivity.
  - vm_compute. reflexivity.
  - repeat constructor.
  - cbn. lia.
  - exists H', d'. split; [exact E|]. apply (HL 1%nat); reflexivity.
Defined.

Lemma cp_poll_never_returns_witness :
  cp_submit_cl pf 1000 enc_launch (host0 <| cp_expected_seqnum_ := 2 ^ 32 |>, (cp0, mem0)) = None.
Proof.
  apply (cp_poll_never_returns cfg hooks halloc hfree flat_wr eq_refl); [reflexivity|vm_compute; discriminate|reflexivity|].
  vm_compute. split; discriminate || reflexivity.
Defined.

Lemma caps_roundtrip_witness :
  exists H', query_caps pf {| CACHE_BLOCK_SIZE := 64; GLOBAL_MEM_SIZE := 0x100000000; PLATFORM_CLOCK_RATE := 300;
      PLATFORM_MEMORY_PEAK_BW := 60 |} VX_CAPS_NUM_CORES (host0, (cp0, mem0)) = Some (inl 4, (H', (cp0, mem0))) /\
    caps_loaded_ H' = true.
Proof.
  apply (caps_roundtrip cfg hooks halloc hfree _ 2 2 2 0 0 0 1).
  - split; vm_compute; try (split; discriminate || reflexivity); repeat split; discriminate || reflexivity.
  - vm_compute. do 3 right. left.
  - reflexivity.
  - reflexivity.
Defined.

End HostDemo.
