(* ===== verification/Rvc.v ===== *)
(** * Compressed instructions

    [sim/simx/decompressor.{h,cpp}]: the expansion of 16-bit instructions into
    their 32-bit base encodings ([rvc_decompress], stateless) and the per-core
    fetch object that reassembles instructions from aligned 32-bit words
    ([Decompressor]).  Words are [uint32_t] values in [Z]; the build switch
    [VX_CFG_XLEN_64] is the argument [xlen64]. *)

From S2P Require Import Prelude.

(** ** Bit fields *)

Definition rvc_bit (x b : Z) : Z := Z.land (Z.shiftr x b) 1.
Definition rvc_bits (x hi lo : Z) : Z := Z.land (Z.shiftr x lo) (Z.ones (hi - lo + 1)).
Definition sext_imm (val width : Z) : Z :=
  let m := u32 (Z.shiftl 1 (width - 1)) in u32 (Z.lxor val m - m).
Definition rcp (r3 : Z) : Z := u32 (8 + r3).

(** ** 32-bit formats *)

Definition ENCI (imm12 rs1 funct3 rd opcode : Z) : Z :=
  Z.lor (Z.shiftl (Z.land imm12 0xFFF) 20) (Z.lor (Z.shiftl (Z.land rs1 31) 15)
  (Z.lor (Z.shiftl (Z.land funct3 7) 12) (Z.lor (Z.shiftl (Z.land rd 31) 7) (Z.land opcode 0x7F)))).

Definition ENCR (funct7 rs2 rs1 funct3 rd opcode : Z) : Z :=
  Z.lor (Z.shiftl (Z.land funct7 0x7F) 25) (Z.lor (Z.shiftl (Z.land rs2 31) 20)
  (Z.lor (Z.shiftl (Z.land rs1 31) 15) (Z.lor (Z.shiftl (Z.land funct3 7) 12)
  (Z.lor (Z.shiftl (Z.land rd 31) 7) (Z.land opcode 0x7F))))).

Definition ENCS (imm12 rs2 rs1 funct3 opcode : Z) : Z :=
  let imm11_5 := Z.land (Z.shiftr imm12 5) 0x7F in
  let imm4_0 := Z.land imm12 0x1F in
  Z.lor (Z.shiftl imm11_5 25) (Z.lor (Z.shiftl (Z.land rs2 31) 20) (Z.lor (Z.shiftl (Z.land rs1 31) 15)
  (Z.lor (Z.shiftl (Z.land funct3 7) 12) (Z.lor (Z.shiftl imm4_0 7) (Z.land opcode 0x7F))))).

Definition ENCU (imm20 rd opcode : Z) : Z :=
  Z.lor (Z.shiftl (Z.land imm20 0xFFFFF) 12) (Z.lor (Z.shiftl (Z.land rd 31) 7) (Z.land opcode 0x7F)).

Definition ENCUJ (imm21 rd opcode : Z) : Z :=
  let i := Z.land imm21 0x001FFFFF in
  let enc := Z.lor (Z.shiftl (Z.land i (Z.shiftl 1 20)) 11) (Z.lor (Z.shiftl (Z.land i 0x000007FE) 20)
             (Z.lor (Z.shiftl (Z.land i (Z.shiftl 1 11)) 9) (Z.land i 0x000FF000))) in
  Z.lor enc (Z.lor (Z.shiftl (Z.land rd 31) 7) (Z.land opcode 0x7F)).

Definition ENCB (imm13 rs2 rs1 funct3 opcode : Z) : Z :=
  let i := Z.land imm13 0x1FFF in
  let imm12 := Z.land (Z.shiftr i 12) 1 in
  let imm10_5 := Z.land (Z.shiftr i 5) 0x3F in
  let imm4_1 := Z.land (Z.shiftr i 1) 0xF in
  let imm11 := Z.land (Z.shiftr i 11) 1 in
  Z.lor (Z.shiftl imm12 31) (Z.lor (Z.shiftl imm10_5 25) (Z.lor (Z.shiftl (Z.land rs2 31) 20)
  (Z.lor (Z.shiftl (Z.land rs1 31) 15) (Z.lor (Z.shiftl (Z.land funct3 7) 12)
  (Z.lor (Z.shiftl imm4_1 8) (Z.lor (Z.shiftl imm11 7) (Z.land opcode 0x7F))))))).

(** ** Decompression *)

Record DecompResult := { instr32 : Z; size : Z; illegal : bool }.

(** [out.instr32 = w] with size 2, and the illegal outcome. *)
Definition rvc (w : Z) : DecompResult := {| instr32 := w; size := 2; illegal := false |}.
Definition rvc_illegal : DecompResult := {| instr32 := 0; size := 2; illegal := true |}.

Section Decompress.
Context (xlen64 : bool) (h : Z).

#[local] Abbreviation bit := (rvc_bit h).
#[local] Abbreviation bits := (rvc_bits h).
#[local] Notation "a .| b" := (Z.lor a b) (at level 51, right associativity).
#[local] Notation "a .<< n" := (Z.shiftl a n) (at level 45, left associativity).

(** Quadrant 0. *)
Definition rvc_q0 (funct3 : Z) : DecompResult :=
  let rd_ := rcp (bits 4 2) in
  let rs1_ := rcp (bits 9 7) in
  let rs2_ := rcp (bits 4 2) in
  let uimm_d := bits 12 10 .<< 3 .| bits 6 5 .<< 6 in
  let uimm_w := bit 5 .<< 6 .| bits 12 10 .<< 3 .| bit 6 .<< 2 in
  if funct3 =? 0 then
    let nzuimm := bits 12 11 .<< 4 .| bits 10 7 .<< 6 .| bit 5 .<< 3 .| bit 6 .<< 2 in
    if nzuimm =? 0 then rvc_illegal else rvc (ENCI nzuimm 2 0 rd_ 0x13)
  else if funct3 =? 1 then rvc (ENCI uimm_d rs1_ 3 rd_ 0x07)
  else if funct3 =? 2 then rvc (ENCI uimm_w rs1_ 2 rd_ 0x03)
  else if funct3 =? 5 then rvc (ENCS uimm_d rs2_ rs1_ 3 0x27)
  else if funct3 =? 3 then
    if xlen64 then rvc (ENCI uimm_d rs1_ 3 rd_ 0x03) else rvc (ENCI uimm_w rs1_ 2 rd_ 0x07)
  else if funct3 =? 6 then rvc (ENCS uimm_w rs2_ rs1_ 2 0x23)
  else if funct3 =? 7 then
    if xlen64 then rvc (ENCS uimm_d rs2_ rs1_ 3 0x23) else rvc (ENCS uimm_w rs2_ rs1_ 2 0x27)
  else rvc_illegal.

(** The C.J / C.JAL and C.BEQZ / C.BNEZ offsets. *)
Definition rvc_j_imm : Z :=
  bit 12 .<< 11 .| bit 8 .<< 10 .| bits 10 9 .<< 8 .| bit 6 .<< 7 .|
  bit 7 .<< 6 .| bit 2 .<< 5 .| bit 11 .<< 4 .| bits 5 3 .<< 1.
Definition rvc_b_imm : Z :=
  bit 12 .<< 8 .| bit 6 .<< 7 .| bit 5 .<< 6 .| bit 2 .<< 5 .| bits 11 10 .<< 3 .| bits 4 3 .<< 1.

(** C.SRLI, C.SRAI, C.ANDI and the register-register operations. *)
Definition rvc_misc_alu : DecompResult :=
  let subfunct := bits 11 10 in
  let rd_ := rcp (bits 9 7) in
  let rs2_ := rcp (bits 4 2) in
  let sh := bit 12 .<< 5 .| bits 6 2 in
  if subfunct =? 0 then rvc (ENCI sh rd_ 5 rd_ 0x13)
  else if subfunct =? 1 then rvc (Z.lor (ENCI sh rd_ 5 rd_ 0x13) 0x40000000)
  else if subfunct =? 2 then rvc (ENCI (Z.land (sext_imm (bit 12 .<< 5 .| bits 6 2) 6) 0xFFF) rd_ 7 rd_ 0x13)
  else
    let op2 := bits 6 5 in
    if bit 12 =? 0 then
      if op2 =? 0 then rvc (ENCR 0x20 rs2_ rd_ 0 rd_ 0x33)
      else if op2 =? 1 then rvc (ENCR 0 rs2_ rd_ 4 rd_ 0x33)
      else if op2 =? 2 then rvc (ENCR 0 rs2_ rd_ 6 rd_ 0x33)
      else rvc (ENCR 0 rs2_ rd_ 7 rd_ 0x33)
    else if xlen64 then
      if op2 =? 0 then rvc (ENCR 0x20 rs2_ rd_ 0 rd_ 0x3B)
      else if op2 =? 1 then rvc (ENCR 0 rs2_ rd_ 0 rd_ 0x3B)
      else rvc_illegal
    else rvc_illegal.

(** Quadrant 1. *)
Definition rvc_q1 (funct3 : Z) : DecompResult :=
  let rd := bits 11 7 in
  let imm6 := sext_imm (bit 12 .<< 5 .| bits 6 2) 6 in
  if funct3 =? 0 then
    if (rd =? 0) && (imm6 =? 0) then rvc (ENCI 0 0 0 0 0x13)
    else rvc (ENCI (Z.land imm6 0xFFF) rd 0 rd 0x13)
  else if funct3 =? 1 then
    if xlen64 then
      if rd =? 0 then rvc_illegal else rvc (ENCI (Z.land imm6 0xFFF) rd 0 rd 0x1B)
    else rvc (ENCUJ (Z.land (sext_imm rvc_j_imm 12) 0x001FFFFF) 1 0x6F)
  else if funct3 =? 2 then rvc (ENCI (Z.land imm6 0xFFF) 0 0 rd 0x13)
  else if funct3 =? 3 then
    if rd =? 2 then
      let imm := sext_imm (bit 12 .<< 9 .| bit 6 .<< 4 .| bit 5 .<< 6 .| bits 4 3 .<< 7 .| bit 2 .<< 5) 10 in
      if imm =? 0 then rvc_illegal else rvc (ENCI (Z.land imm 0xFFF) 2 0 2 0x13)
    else
      let imm := sext_imm (bit 12 .<< 17 .| bits 6 2 .<< 12) 18 in
      if (rd =? 0) || (rd =? 2) || (imm =? 0) then rvc_illegal
      else rvc (ENCU (u32 (Z.shiftr (sint 32 imm) 12)) rd 0x37)
  else if funct3 =? 4 then rvc_misc_alu
  else if funct3 =? 5 then rvc (ENCUJ (Z.land (sext_imm rvc_j_imm 12) 0x001FFFFF) 0 0x6F)
  else if funct3 =? 6 then
    rvc (ENCB (Z.land (sext_imm rvc_b_imm 9) 0x1FFF) 0 (rcp (bits 9 7)) 0 0x63)
  else if funct3 =? 7 then
    rvc (ENCB (Z.land (sext_imm rvc_b_imm 9) 0x1FFF) 0 (rcp (bits 9 7)) 1 0x63)
  else rvc_illegal.

(** Quadrant 2. *)
Definition rvc_q2 (funct3 : Z) : DecompResult :=
  let rd := bits 11 7 in
  let rs2 := bits 6 2 in
  let uimm_d := bit 12 .<< 5 .| bits 6 5 .<< 3 .| bits 4 2 .<< 6 in
  let uimm_w := bit 12 .<< 5 .| bits 6 4 .<< 2 .| bits 3 2 .<< 6 in
  let simm_d := bits 12 10 .<< 3 .| bits 9 7 .<< 6 in
  let simm_w := bits 12 9 .<< 2 .| bits 8 7 .<< 6 in
  if funct3 =? 0 then
    if rd =? 0 then rvc_illegal else rvc (ENCI (bit 12 .<< 5 .| bits 6 2) rd 1 rd 0x13)
  else if funct3 =? 1 then rvc (ENCI uimm_d 2 3 rd 0x07)
  else if funct3 =? 5 then rvc (ENCS simm_d rs2 2 3 0x27)
  else if funct3 =? 2 then if rd =? 0 then rvc_illegal else rvc (ENCI uimm_w 2 2 rd 0x03)
  else if funct3 =? 3 then
    if xlen64 then if rd =? 0 then rvc_illegal else rvc (ENCI uimm_d 2 3 rd 0x03)
    else rvc (ENCI uimm_w 2 2 rd 0x07)
  else if funct3 =? 4 then
    if rs2 =? 0 then
      if bit 12 =? 0 then if rd =? 0 then rvc_illegal else rvc (ENCI 0 rd 0 0 0x67)
      else if rd =? 0 then rvc 0x00100073
      else rvc (ENCI 0 rd 0 1 0x67)
    else if rd =? 0 then rvc_illegal
    else if bit 12 =? 0 then rvc (ENCR 0 rs2 0 0 rd 0x33)
    else rvc (ENCR 0 rs2 rd 0 rd 0x33)
  else if funct3 =? 6 then rvc (ENCS simm_w rs2 2 2 0x23)
  else if funct3 =? 7 then
    if xlen64 then rvc (ENCS simm_d rs2 2 3 0x23) else rvc (ENCS simm_w rs2 2 2 0x27)
  else rvc_illegal.

End Decompress.

Definition rvc_decompress (xlen64 : bool) (word : Z) : DecompResult :=
  if Z.land word 0x3 =? 0x3 then {| instr32 := word; size := 4; illegal := false |}
  else
    let h := Z.land word 0xFFFF in
    let quadrant := Z.land h 0x3 in
    let funct3 := Z.land (Z.shiftr h 13) 0x7 in
    if quadrant =? 0 then rvc_q0 xlen64 h funct3
    else if quadrant =? 1 then rvc_q1 xlen64 h funct3
    else if quadrant =? 2 then rvc_q2 xlen64 h funct3
    else rvc_illegal.

(** ** The fetch object *)

(** What the fetch object uses of an instruction trace. *)
Record fetch_trace := { wid : nat; PC : Z; code : Z }.

Record RvcSlot := { needs_second : bool; low_half : Z; inst_pc : Z }.
Definition RvcSlot_init : RvcSlot := {| needs_second := false; low_half := 0; inst_pc := 0 |}.

Record Decompressor := { state_ : list RvcSlot; refetch_queue_ : list fetch_trace }.

Definition Decompressor_init (num_warps : nat) : Decompressor :=
  {| state_ := replicate num_warps RvcSlot_init; refetch_queue_ := [] |}.

(** [on_reset] *)
Definition dc_on_reset (s : Decompressor) : Decompressor :=
  {| state_ := map (fun _ => RvcSlot_init) (state_ s); refetch_queue_ := [] |}.

Section Fetch.
(** Register width and icache line size. *)
Context (XLEN MEM_BLOCK_SIZE : Z).

#[local] Abbreviation word := (wrap XLEN).

Definition align4 (a : Z) : Z := Z.land a (word (Z.lnot 3)).

Record Pick := { p_trace : fetch_trace; p_addr : Z; from_refetch : bool }.

(** [pick_request]; [None] is the null trace.  [state_.at] throws on a warp
    that does not exist, which is the outer [None]. *)
Definition pick_request (s : Decompressor) (fetch_latch_head : option fetch_trace) : option (option Pick) :=
  match refetch_queue_ s with
  | t :: _ =>
      match state_ s !! wid t with
      | Some r => Some (Some {| p_trace := t; p_addr := word (align4 (inst_pc r) + 4); from_refetch := true |})
      | None => None
      end
  | [] =>
      match fetch_latch_head with
      | Some t => Some (Some {| p_trace := t; p_addr := align4 (PC t); from_refetch := false |})
      | None => Some None
      end
  end.

Definition commit_request (s : Decompressor) (from_refetch : bool) : Decompressor :=
  if from_refetch then s <| refetch_queue_ ::= tail |> else s.

Definition fetch_addr (s : Decompressor) (t : fetch_trace) : option Z :=
  match state_ s !! wid t with
  | Some r => Some (if needs_second r then word (align4 (inst_pc r) + 4) else align4 (PC t))
  | None => None
  end.

(** [on_icache_rsp]: the trace with its code when the instruction is complete,
    or [None] when it was queued for its second word. *)
Definition on_icache_rsp (s : Decompressor) (t : fetch_trace) (line : list Z) : option (Decompressor * option fetch_trace) :=
  match fetch_addr s t, state_ s !! wid t with
  | Some a, Some r =>
      let line_offset := u32 (Z.land a (MEM_BLOCK_SIZE - 1)) in
      let word := le_word (take 4 (drop (Z.to_nat line_offset) line)) in
      if needs_second r then
        let high := Z.land word 0xFFFF in
        Some (s <| state_ ::= <[wid t := RvcSlot_init]> |>,
              Some (t <| code := Z.lor (Z.shiftl high 16) (low_half r) |>))
      else
        let hword := if negb (Z.land (PC t) 2 =? 0) then u16 (Z.shiftr word 16) else Z.land word 0xFFFF in
        if negb (Z.land hword 3 =? 3) then Some (s, Some (t <| code := hword |>))
        else if Z.land (PC t) 2 =? 0 then Some (s, Some (t <| code := word |>))
        else
          Some (s <| state_ ::= <[wid t := {| needs_second := true; low_half := u16 (Z.shiftr word 16); inst_pc := PC t |}]> |>
                  <| refetch_queue_ ::= fun q => q ++ [t] |>, None)
  | _, _ => None
  end.

End Fetch.

(** ** Reassembly *)

Section Reassembly.
Context (XLEN m : Z) (mem : Z -> Z).
Context (Hm : 2 <= m < 32) (HX : 32 <= XLEN) (Hbyte : forall a, is_byte (mem a)).

#[local] Abbreviation B := (2 ^ m).

(** The icache line that holds an address, and what memory holds at one. *)
Definition line_of (a : Z) : list Z := map mem (seqZ (a - a mod B) B).
Definition half_at (a : Z) : Z := le_word [mem a; mem (a + 1)].
Definition word_at4 (a : Z) : Z := le_word [mem a; mem (a + 1); mem (a + 2); mem (a + 3)].

(** The instruction at [pc]: 16 bits unless its low bits say 32. *)
Definition fetched (pc : Z) : Z := if Z.land (half_at pc) 3 =? 3 then word_at4 pc else half_at pc.

Lemma half_range a : in_u 16 (half_at a).
Proof using Hbyte. apply (le_word_range [mem a; mem (a + 1)]). constructor; [apply Hbyte|]. constructor; [apply Hbyte|constructor]. Qed.

Lemma word_halves a : word_at4 a = Z.lor (half_at a) (Z.shiftl (half_at (a + 2)) 16).
Proof.
  unfold word_at4, half_at. cbn [le_word]. replace (a + 2 + 1) with (a + 3) by lia.
  rewrite ?Z.shiftl_0_l, ?Z.lor_0_r, !Z.shiftl_lor, !Z.shiftl_shiftl by lia. by rewrite !Z.lor_assoc.
Qed.

Lemma word_low a : Z.land (word_at4 a) 0xFFFF = half_at a.
Proof using Hbyte.
  rewrite word_halves. pose proof (half_range a). pose proof (half_range (a + 2)).
  change 0xFFFF with (Z.ones 16). zbits.
Qed.

Lemma word_high a : u16 (Z.shiftr (word_at4 a) 16) = half_at (a + 2).
Proof using Hbyte.
  rewrite word_halves. pose proof (half_range a). pose proof (half_range (a + 2)). zbits.
Qed.

Lemma align4_eq a : in_u XLEN a -> align4 XLEN a = a - a mod 4.
Proof using HX. intros Ha. unfold align4. apply (align_down XLEN 2 a); [lia|lia|done]. Qed.

Lemma pc_bit1 a : (Z.land a 2 =? 0) = (a mod 4 <? 2).
Proof.
  assert (E : Z.land a 2 = 2 * Z.b2z (Z.testbit a 1)).
  { apply Z.bits_inj'; intros i Hi. rewrite Z.land_spec. change 2 with (2 ^ 1) at 1. rewrite Z.pow2_bits_eqb by lia.
    destruct (Z.eqb_spec 1 i) as [<-|Hn].
    - rewrite andb_true_r. by destruct (Z.testbit a 1).
    - rewrite andb_false_r. destruct (Z.testbit a 1); cbn [Z.b2z]; [|by rewrite Z.mul_0_r, Z.bits_0].
      change (2 * 1) with (2 ^ 1). rewrite Z.pow2_bits_eqb by lia. symmetry. by apply Z.eqb_neq. }
  rewrite E, Z.testbit_spec' by lia. change (2 ^ 1) with 2.
  pose proof (Z.div_mod a 4 ltac:(lia)). pose proof (Z.mod_pos_bound a 4 ltac:(lia)).
  pose proof (Z.div_mod a 2 ltac:(lia)). pose proof (Z.mod_pos_bound a 2 ltac:(lia)).
  pose proof (Z.div_mod (a / 2) 2 ltac:(lia)). pose proof (Z.mod_pos_bound (a / 2) 2 ltac:(lia)).
  destruct (Z.ltb_spec (a mod 4) 2), (Z.eqb_spec (2 * ((a / 2) mod 2)) 0); try done; exfalso; lia.
Qed.

(** The word the object picks out of the line is the word at the address. *)
Lemma line_word a : in_u XLEN a -> a mod 4 = 0 ->
  le_word (take 4 (drop (Z.to_nat (u32 (Z.land a (B - 1)))) (line_of a))) = word_at4 a.
Proof using Hm.
  intros Ha H4. pose proof (pow2_pos m ltac:(lia)). replace (B - 1) with (Z.ones m) by (rewrite Z.ones_equiv; lia).
  rewrite Z.land_ones by lia. pose proof (Z.mod_pos_bound a B ltac:(lia)) as Hr.
  assert (HB : B < 2 ^ 32) by (apply Z.pow_lt_mono_r; lia). rewrite wrap_small by (unfold in_u; lia).
  assert (Hd : (4 | B)). { exists (2 ^ (m - 2)). change 4 with (2 ^ 2). rewrite <- Z.pow_add_r by lia. f_equal. lia. }
  assert (H4' : (a mod B) mod 4 = 0) by (rewrite Z.mod_mod_divide; done).
  assert (Hle : a mod B + 4 <= B).
  { pose proof (Z.div_mod (a mod B) 4 ltac:(lia)). destruct Hd as [k Hk]. lia. }
  unfold line_of, word_at4. f_equal. apply list_eq. intros i. destruct (decide (i < 4)%nat) as [Hi|Hi].
  - rewrite lookup_take_lt by done. rewrite lookup_drop, list_lookup_fmap, lookup_seqZ_lt by lia. cbn [fmap option_fmap option_map].
    replace (a - a mod B + Z.of_nat (Z.to_nat (a mod B) + i)) with (a + Z.of_nat i) by lia.
    destruct i as [|[|[|[|]]]]; cbn; try (do 2 f_equal; lia); lia.
  - rewrite lookup_take_ge by lia. destruct i as [|[|[|[|]]]]; cbn; try lia; done.
Qed.

(** A PC the fetch stage can hold, and an instruction of 32 bits that is not
    in one aligned word. *)
Definition pc_ok (pc : Z) : Prop := 0 <= pc /\ pc mod 2 = 0 /\ pc + 4 < 2 ^ XLEN.
Definition split (pc : Z) : bool := negb (Z.land pc 2 =? 0) && (Z.land (half_at pc) 3 =? 3).

(** The slot of a warp whose instruction waits for its second word. *)
Definition half_slot (pc : Z) : RvcSlot := {| needs_second := true; low_half := half_at pc; inst_pc := pc |}.

Definition coded (t : fetch_trace) : fetch_trace := t <| code := fetched (PC t) |>.

Lemma align4_pc pc : pc_ok pc -> in_u XLEN (align4 XLEN pc) /\ align4 XLEN pc mod 4 = 0 /\ in_u XLEN (align4 XLEN pc + 4) /\
  align4 XLEN pc + (if Z.land pc 2 =? 0 then 0 else 2) = pc.
Proof using HX.
  intros (H0 & H2 & H4). rewrite pc_bit1, align4_eq by (unfold in_u; lia). pose proof (Z.mod_pos_bound pc 4 ltac:(lia)).
  pose proof (Z.div_mod pc 4 ltac:(lia)). pose proof (Z.div_mod pc 2 ltac:(lia)). split; [unfold in_u; lia|]. split.
  - replace (pc - pc mod 4) with (0 + (pc / 4) * 4) by lia. by rewrite Z_mod_plus_full.
  - split; [unfold in_u; lia|]. destruct (Z.ltb_spec (pc mod 4) 2); lia.
Qed.

(** The response for the aligned word at the PC. *)
Lemma rsp_first s t r : state_ s !! wid t = Some r -> needs_second r = false -> pc_ok (PC t) ->
  on_icache_rsp XLEN B s t (line_of (align4 XLEN (PC t))) =
    if split (PC t) then Some (s <| state_ ::= <[wid t := half_slot (PC t)]> |> <| refetch_queue_ ::= fun q => q ++ [t] |>, None)
    else Some (s, Some (coded t)).
Proof using Hm HX Hbyte.
  intros Hr Hn Hp. destruct (align4_pc _ Hp) as (HaU & Ha4 & _ & Epc).
  unfold on_icache_rsp, fetch_addr. rewrite Hr, Hn, line_word by done. cbv zeta. unfold split, coded, fetched.
  destruct (Z.land (PC t) 2 =? 0); cbn [negb andb].
  - rewrite word_low. replace (align4 XLEN (PC t)) with (PC t) by lia. destruct (Z.land (half_at (PC t)) 3 =? 3); done.
  - rewrite word_high, Epc. unfold half_slot. destruct (Z.land (half_at (PC t)) 3 =? 3); done.
Qed.

(** The response for the word after it, when the first half is buffered. *)
Lemma rsp_second s t : state_ s !! wid t = Some (half_slot (PC t)) -> split (PC t) = true -> pc_ok (PC t) ->
  on_icache_rsp XLEN B s t (line_of (align4 XLEN (PC t) + 4)) = Some (s <| state_ ::= <[wid t := RvcSlot_init]> |>, Some (coded t)).
Proof using Hm HX Hbyte.
  intros Hr Hs Hp. destruct (align4_pc _ Hp) as (HaU & Ha4 & HaU4 & Epc). unfold split in Hs. apply andb_true_iff in Hs as [H2 H3].
  apply negb_true_iff in H2. rewrite H2 in Epc. unfold on_icache_rsp, fetch_addr. rewrite Hr. cbn [needs_second inst_pc half_slot low_half].
  rewrite (wrap_small _ (align4 XLEN (PC t) + 4)), line_word.
  - cbv zeta. rewrite word_low. unfold coded, fetched. rewrite H3, word_halves. replace (align4 XLEN (PC t) + 4) with (PC t + 2) by lia. by rewrite Z.lor_comm.
  - done.
  - replace (align4 XLEN (PC t) + 4) with (align4 XLEN (PC t) + 1 * 4) by lia. by rewrite Z_mod_plus_full.
  - done.
Qed.

(** The two words of an instruction that does not cross a line. *)
Lemma next_word_line pc : pc_ok pc -> pc mod B <> B - 2 -> split pc = true -> line_of (align4 XLEN pc + 4) = line_of (align4 XLEN pc).
Proof using Hm HX.
  intros Hp Hb Hs. destruct (align4_pc _ Hp) as (_ & Ha4 & _ & Epc). unfold split in Hs. apply andb_true_iff in Hs as [H2 _].
  apply negb_true_iff in H2. rewrite H2 in Epc. set (a := align4 XLEN pc) in *. clearbody a. unfold line_of. do 2 f_equal.
  pose proof (pow2_pos m ltac:(lia)). assert (Hd : (4 | B)). { exists (2 ^ (m - 2)). change 4 with (2 ^ 2). rewrite <- Z.pow_add_r by lia. f_equal. lia. }
  assert (H4' : (a mod B) mod 4 = 0) by (rewrite Z.mod_mod_divide; done). pose proof (Z.mod_pos_bound a B ltac:(lia)) as Hr.
  pose proof (Z.div_mod a B ltac:(lia)) as Hdm. pose proof (Z.div_mod (a mod B) 4 ltac:(lia)). destruct Hd as [k Hk].
  assert (Hlt : a mod B <> B - 4).
  { intros E. apply Hb. rewrite <- Epc. symmetry. apply (Z.mod_unique _ _ (a / B)); lia. }
  rewrite <- (Z.mod_unique (a + 4) B (a / B) (a mod B + 4)); lia.
Qed.

End Reassembly.
