(* ===== verification/Decode.v ===== *)
(** * Instruction decoder

    [sim/simx/decode.cpp] ([Decoder::decode]) with the instruction record of
    [instr.h] and the operation and argument types of [types.h].  Modelled are
    the base integer, multiply/divide, atomic, system and floating-point
    opcodes, and of the custom opcodes warp control, votes, shuffles and packed
    loads.  The custom opcodes of optional units are the outcome [DecCustom];
    [std::abort] and a failed assertion are [DecAbort]. *)

From S2P Require Import Prelude Rvc.

(** ** Types *)

Inductive RegType := RegNone | RegInteger | RegFloat.
Record RegOpd := { rtype : RegType; ridx : Z }.
Definition no_reg : RegOpd := {| rtype := RegNone; ridx := 0 |}.

Inductive FUType := FU_ALU | FU_LSU | FU_FPU | FU_SFU.
Inductive AluType := ALU_LUI | ALU_AUIPC | ALU_ADD | ALU_SUB | ALU_SLL | ALU_SRL | ALU_SRA | ALU_SLT | ALU_SLTU
  | ALU_AND | ALU_OR | ALU_XOR | ALU_CZERO.
Inductive BrType := BR_BR | BR_JAL | BR_JALR | BR_SYS.
Inductive MdvType := MDV_MUL | MDV_MULHU | MDV_MULH | MDV_MULHSU | MDV_DIV | MDV_DIVU | MDV_REM | MDV_REMU.
Inductive LsuType := LSU_LOAD | LSU_STORE | LSU_FENCE.
Inductive AmoType := AMO_LR | AMO_SC | AMO_ADD | AMO_SWAP | AMO_AND | AMO_OR | AMO_XOR | AMO_MIN | AMO_MAX
  | AMO_MINU | AMO_MAXU.
Inductive FpuType := FADD | FSUB | FMUL | FDIV | FSQRT | FMADD | FMSUB | FNMADD | FNMSUB | F2I | I2F | F2F | FCMP
  | FSGNJ | FCLASS | FMVXW | FMVWX | FMINMAX.
Inductive CsrType := CSRRW | CSRRS | CSRRC.
Inductive VoteType := VOTE_ALL | VOTE_ANY | VOTE_UNI | VOTE_BAL.
Inductive ShflType := SHFL_UP | SHFL_DOWN | SHFL_BFLY | SHFL_IDX.
Inductive WctlType := WCTL_TMC | WCTL_WSPAWN | WCTL_SPLIT | WCTL_JOIN | WCTL_BAR | WCTL_PRED | WCTL_WSYNC.

Inductive OpType :=
| OpAlu (t : AluType) | OpBr (t : BrType) | OpMdv (t : MdvType) | OpLsu (t : LsuType) | OpAmo (t : AmoType)
| OpFpu (t : FpuType) | OpCsr (t : CsrType) | OpVote (t : VoteType) | OpShfl (t : ShflType)
| OpWgather | OpWctl (t : WctlType).

Inductive IntrArgs :=
| AluArgs (is_imm is_w : bool) (imm : Z)
| BrArgs (cmp : Z) (is_rvc : bool) (offset : Z)
| MdvArgs (is_w : bool)
| LsuArgs (width stride : Z) (offset : Z)
| AmoArgs (width aq rl : Z)
| FpuArgs (frm cvt is_f64 : Z)
| CsrArgs (is_imm : bool) (imm csr : Z)
| WgatherArgs (src_lane : Z)
| WctlArgs (is_cond_neg is_sync_bar is_bar_arrive : bool).

Record Instr := {
  fu_type : FUType; op_type : OpType; args : IntrArgs;
  rdest : RegOpd; rsrc0 : RegOpd; rsrc1 : RegOpd; rsrc2 : RegOpd;
  is_wstall : bool; is_macro_op : bool
}.

(** [Instr::Instr], with the default alternatives of its variants. *)
Definition Instr_init : Instr := {|
  fu_type := FU_ALU; op_type := OpAlu ALU_LUI; args := AluArgs false false 0;
  rdest := no_reg; rsrc0 := no_reg; rsrc1 := no_reg; rsrc2 := no_reg;
  is_wstall := false; is_macro_op := false |}.

Inductive dec_result := DecInstr (i : Instr) | DecAbort | DecCustom (op funct7 funct3 : Z).

(** ** Fields *)

Definition f_opcode (c : Z) : Z := Z.land (Z.shiftr c 0) (Z.ones 7).
Definition f_rd (c : Z) : Z := Z.land (Z.shiftr c 7) (Z.ones 5).
Definition f_funct3 (c : Z) : Z := Z.land (Z.shiftr c 12) (Z.ones 3).
Definition f_rs1 (c : Z) : Z := Z.land (Z.shiftr c 15) (Z.ones 5).
Definition f_rs2 (c : Z) : Z := Z.land (Z.shiftr c 20) (Z.ones 5).
Definition f_funct2 (c : Z) : Z := Z.land (Z.shiftr c 25) (Z.ones 2).
Definition f_funct5 (c : Z) : Z := Z.land (Z.shiftr c 27) (Z.ones 5).
Definition f_funct7 (c : Z) : Z := Z.land (Z.shiftr c 25) (Z.ones 7).
Definition f_rs3 (c : Z) : Z := Z.land (Z.shiftr c 27) (Z.ones 5).
Definition f_imm12 (c : Z) : Z := Z.shiftr c 20.

(** [sext] of [bitmanip.h] on 32-bit words. *)
Definition sext (word width : Z) : Z :=
  let mask := u32 (Z.shiftl 1 width - 1) in
  if negb (Z.land (Z.shiftr word (width - 1)) 1 =? 0) then Z.lor word (u32 (Z.lnot mask)) else Z.land word mask.

(** Register operands. *)
Definition xreg (i : Z) : RegOpd := {| rtype := RegInteger; ridx := i |}.
Definition freg (i : Z) : RegOpd := {| rtype := RegFloat; ridx := i |}.

(** ** Decoding *)

Section Decode.
Context (xlen64 : bool).

(** Opcodes R, I and their W forms. *)
Definition decode_alu (code op : Z) : dec_result :=
  let funct3 := f_funct3 code in
  let funct7 := f_funct7 code in
  let is_w := (op =? 0x3B) || (op =? 0x1B) in
  let is_imm := (op =? 0x13) || (op =? 0x1B) in
  let finish i := DecInstr ((if is_imm then i else i <| rsrc1 := xreg (f_rs2 code) |>)
                            <| rdest := xreg (f_rd code) |> <| rsrc0 := xreg (f_rs1 code) |>) in
  if (op =? 0x33) && (funct7 =? 0x7) then
    if funct3 =? 5 then finish (Instr_init <| op_type := OpAlu ALU_CZERO |> <| args := AluArgs false false 0 |>)
    else if funct3 =? 7 then finish (Instr_init <| op_type := OpAlu ALU_CZERO |> <| args := AluArgs false false 1 |>)
    else DecAbort
  else if ((op =? 0x33) || (op =? 0x3B)) && negb (Z.land funct7 1 =? 0) then
    let t := if funct3 =? 0 then MDV_MUL else if funct3 =? 1 then MDV_MULH else if funct3 =? 2 then MDV_MULHSU
             else if funct3 =? 3 then MDV_MULHU else if funct3 =? 4 then MDV_DIV else if funct3 =? 5 then MDV_DIVU
             else if funct3 =? 6 then MDV_REM else MDV_REMU in
    finish (Instr_init <| op_type := OpMdv t |> <| args := MdvArgs is_w |>)
  else
    let imm := if (funct3 =? 1) || (funct3 =? 5) then
                 if xlen64 then Z.lor (f_rs2 code) (Z.shiftl (Z.land funct7 1) 5) else f_rs2 code
               else sext (f_imm12 code) 12 in
    let t := if funct3 =? 0 then (if negb is_imm && (funct7 =? 0x20) then ALU_SUB else ALU_ADD)
             else if funct3 =? 1 then ALU_SLL else if funct3 =? 2 then ALU_SLT else if funct3 =? 3 then ALU_SLTU
             else if funct3 =? 4 then ALU_XOR
             else if funct3 =? 5 then (if Z.shiftr funct7 1 =? 0x10 then ALU_SRA else ALU_SRL)
             else if funct3 =? 6 then ALU_OR else ALU_AND in
    finish (Instr_init <| op_type := OpAlu t |> <| args := AluArgs is_imm is_w imm |>).

Definition b_offset (code : Z) : Z :=
  let rd := f_rd code in
  let funct7 := f_funct7 code in
  let imm12 := Z.lor (Z.shiftl (Z.shiftr rd 1) 1) (Z.lor (Z.shiftl (Z.land funct7 0x3f) 5)
                 (Z.lor (Z.shiftl (Z.land rd 1) 11) (Z.shiftl (Z.shiftr funct7 6) 12))) in
  sext imm12 13.

Definition j_offset (code : Z) : Z :=
  let unordered := Z.shiftr code 12 in
  let imm20 := Z.lor (Z.shiftl (Z.land (Z.shiftr unordered 9) 0x3ff) 1)
                 (Z.lor (Z.shiftl (Z.land (Z.shiftr unordered 8) 1) 11)
                 (Z.lor (Z.shiftl (Z.land unordered 0xff) 12) (Z.shiftl (Z.land (Z.shiftr unordered 19) 1) 20))) in
  sext imm20 21.

Definition decode_lsu (code op : Z) : dec_result :=
  let is_float := (op =? 0x07) || (op =? 0x27) in
  let is_load := (op =? 0x03) || (op =? 0x07) in
  let reg := if is_float then freg else xreg in
  let imm12 := if is_load then f_imm12 code else Z.lor (Z.shiftl (f_funct7 code) 5) (f_rd code) in
  let i := Instr_init <| fu_type := FU_LSU |> <| rsrc0 := xreg (f_rs1 code) |>
             <| op_type := OpLsu (if is_load then LSU_LOAD else LSU_STORE) |>
             <| args := LsuArgs (f_funct3 code) 0 (sint 32 (sext imm12 12)) |> in
  DecInstr (if is_load then i <| rdest := reg (f_rd code) |> else i <| rsrc1 := reg (f_rs2 code) |>).

Definition decode_amo (code : Z) : dec_result :=
  let f5 := f_funct5 code in
  let t := if f5 =? 0x00 then Some AMO_ADD else if f5 =? 0x01 then Some AMO_SWAP else if f5 =? 0x02 then Some AMO_LR
           else if f5 =? 0x03 then Some AMO_SC else if f5 =? 0x04 then Some AMO_XOR else if f5 =? 0x08 then Some AMO_OR
           else if f5 =? 0x0c then Some AMO_AND else if f5 =? 0x10 then Some AMO_MIN else if f5 =? 0x14 then Some AMO_MAX
           else if f5 =? 0x18 then Some AMO_MINU else if f5 =? 0x1c then Some AMO_MAXU else None in
  match t with
  | None => DecAbort
  | Some t =>
      DecInstr (Instr_init <| fu_type := FU_LSU |> <| op_type := OpAmo t |>
        <| args := AmoArgs (f_funct3 code) (Z.land (Z.shiftr code 26) 1) (Z.land (Z.shiftr code 25) 1) |>
        <| rdest := xreg (f_rd code) |> <| rsrc0 := xreg (f_rs1 code) |> <| rsrc1 := xreg (f_rs2 code) |>)
  end.

Definition decode_sys (code : Z) : dec_result :=
  let f3 := f_funct3 code in
  if negb (f3 =? 0) then
    let t := if (f3 =? 1) || (f3 =? 5) then Some CSRRW else if (f3 =? 2) || (f3 =? 6) then Some CSRRS
             else if (f3 =? 3) || (f3 =? 7) then Some CSRRC else None in
    match t with
    | None => DecAbort
    | Some t =>
        let i := Instr_init <| fu_type := FU_SFU |> <| rdest := xreg (f_rd code) |> <| op_type := OpCsr t |> in
        DecInstr (if f3 <? 5 then i <| rsrc0 := xreg (f_rs1 code) |> <| args := CsrArgs false 0 (Z.land (f_imm12 code) 0xFFF) |>
                  else i <| args := CsrArgs true (f_rs1 code) (Z.land (f_imm12 code) 0xFFF) |>)
    end
  else DecInstr (Instr_init <| op_type := OpBr BR_SYS |> <| args := BrArgs 0 false (f_imm12 code) |> <| is_wstall := true |>).

(** Opcode FCI. *)
Definition decode_fci (code : Z) : dec_result :=
  let f3 := f_funct3 code in
  let f7 := f_funct7 code in
  let rd := f_rd code in let rs1 := f_rs1 code in let rs2 := f_rs2 code in
  let i := Instr_init <| fu_type := FU_FPU |> <| args := FpuArgs f3 (Z.land rs2 3) (Z.land f7 1) |> in
  let ffff t := DecInstr (i <| op_type := OpFpu t |> <| rdest := freg rd |> <| rsrc0 := freg rs1 |> <| rsrc1 := freg rs2 |>) in
  let f7' := Z.land f7 0x7E in
  if f7' =? 0x00 then ffff FADD
  else if f7' =? 0x04 then ffff FSUB
  else if f7' =? 0x08 then ffff FMUL
  else if f7' =? 0x10 then ffff FSGNJ
  else if f7' =? 0x14 then ffff FMINMAX
  else if f7' =? 0x0c then ffff FDIV
  else if f7' =? 0x20 then DecInstr (i <| op_type := OpFpu F2F |> <| rdest := freg rd |> <| rsrc0 := freg rs1 |>)
  else if f7' =? 0x2c then DecInstr (i <| op_type := OpFpu FSQRT |> <| rdest := freg rd |> <| rsrc0 := freg rs1 |>)
  else if f7' =? 0x50 then
    DecInstr (i <| op_type := OpFpu FCMP |> <| rdest := xreg rd |> <| rsrc0 := freg rs1 |> <| rsrc1 := freg rs2 |>)
  else if f7' =? 0x60 then
    DecInstr (i <| op_type := OpFpu F2I |> <| rdest := xreg rd |> <| rsrc0 := freg rs1 |>
                <| rsrc1 := {| rtype := RegNone; ridx := rs2 |} |>)
  else if f7' =? 0x68 then
    DecInstr (i <| op_type := OpFpu I2F |> <| rdest := freg rd |> <| rsrc0 := xreg rs1 |>
                <| rsrc1 := {| rtype := RegNone; ridx := rs2 |} |>)
  else if f7' =? 0x70 then
    DecInstr (i <| op_type := OpFpu (if negb (f3 =? 0) then FCLASS else FMVXW) |> <| rdest := xreg rd |> <| rsrc0 := freg rs1 |>)
  else if f7' =? 0x78 then DecInstr (i <| op_type := OpFpu FMVWX |> <| rdest := freg rd |> <| rsrc0 := xreg rs1 |>)
  else DecAbort.

Definition decode_fma (code op : Z) : dec_result :=
  let t := if op =? 0x43 then FMADD else if op =? 0x47 then FMSUB else if op =? 0x4F then FNMADD else FNMSUB in
  DecInstr (Instr_init <| fu_type := FU_FPU |> <| op_type := OpFpu t |>
    <| args := FpuArgs (f_funct3 code) (f_funct2 code) (Z.land (f_funct7 code) 1) |>
    <| rdest := freg (f_rd code) |> <| rsrc0 := freg (f_rs1 code) |> <| rsrc1 := freg (f_rs2 code) |>
    <| rsrc2 := freg (f_rs3 code) |>).

(** Warp control: EXT1 with funct7 = 0. *)
Definition decode_wctl (code : Z) : dec_result :=
  let f3 := f_funct3 code in
  let rd := f_rd code in let rs1 := f_rs1 code in let rs2 := f_rs2 code in
  let i := Instr_init <| fu_type := FU_SFU |> <| is_wstall := true |> <| args := WctlArgs false false false |> in
  if f3 =? 0 then DecInstr (i <| op_type := OpWctl WCTL_TMC |> <| rsrc0 := xreg rs1 |>)
  else if f3 =? 1 then DecInstr (i <| op_type := OpWctl WCTL_WSPAWN |> <| rsrc0 := xreg rs1 |> <| rsrc1 := xreg rs2 |>)
  else if f3 =? 2 then
    DecInstr (i <| op_type := OpWctl WCTL_SPLIT |> <| rdest := xreg rd |> <| rsrc0 := xreg rs1 |>
                <| args := WctlArgs (negb (rs2 =? 0)) false false |>)
  else if f3 =? 3 then DecInstr (i <| op_type := OpWctl WCTL_JOIN |> <| rsrc0 := xreg rs1 |>)
  else if f3 =? 4 then
    DecInstr (i <| op_type := OpWctl WCTL_BAR |> <| rsrc0 := xreg rs1 |> <| rsrc1 := xreg rs2 |>
                <| args := WctlArgs false true false |>)
  else if f3 =? 5 then
    DecInstr (i <| op_type := OpWctl WCTL_PRED |> <| rsrc0 := xreg rs1 |> <| rsrc1 := xreg rs2 |>
                <| args := WctlArgs (negb (rd =? 0)) false false |>)
  else if f3 =? 6 then
    DecInstr (i <| op_type := OpWctl WCTL_BAR |> <| rdest := xreg rd |> <| rsrc0 := xreg rs1 |> <| rsrc1 := xreg rs2 |>
                <| args := WctlArgs false false (negb (rd =? 0)) |> <| is_wstall := (rd =? 0) |>)
  else DecInstr (i <| op_type := OpWctl WCTL_WSYNC |>).

(** Votes and shuffles: EXT1 with funct7 = 1. *)
Definition decode_vote (code : Z) : dec_result :=
  let f3 := f_funct3 code in
  let i := Instr_init <| rdest := xreg (f_rd code) |> <| rsrc0 := xreg (f_rs1 code) |> in
  let shfl t := DecInstr (i <| op_type := OpShfl t |> <| rsrc1 := xreg (f_rs2 code) |>) in
  if f3 =? 0 then DecInstr (i <| op_type := OpVote VOTE_ALL |>)
  else if f3 =? 1 then DecInstr (i <| op_type := OpVote VOTE_ANY |>)
  else if f3 =? 2 then DecInstr (i <| op_type := OpVote VOTE_UNI |>)
  else if f3 =? 3 then DecInstr (i <| op_type := OpVote VOTE_BAL |>)
  else if f3 =? 4 then shfl SHFL_UP
  else if f3 =? 5 then shfl SHFL_DOWN
  else if f3 =? 6 then shfl SHFL_BFLY
  else shfl SHFL_IDX.

(** Packed loads: EXT1 with funct7 = 4. *)
Definition decode_packld (code : Z) : dec_result :=
  let f3 := f_funct3 code in
  let i := Instr_init <| fu_type := FU_LSU |> <| op_type := OpLsu LSU_LOAD |> <| rdest := freg (f_rd code) |>
             <| rsrc0 := xreg (f_rs1 code) |> <| rsrc1 := xreg (f_rs2 code) |> <| is_macro_op := true |>
             <| is_wstall := true |> in
  if f3 =? 1 then DecInstr (i <| args := LsuArgs 0 0 0 |>)
  else if f3 =? 2 then DecInstr (i <| args := LsuArgs 1 0 0 |>)
  else DecAbort.

Definition decode_ext1 (code : Z) : dec_result :=
  let f7 := f_funct7 code in
  if f7 =? 0 then decode_wctl code
  else if f7 =? 1 then decode_vote code
  else if f7 =? 4 then decode_packld code
  else DecCustom 0x0B f7 (f_funct3 code).

(** EXT2: the gather; the other selectors belong to optional extensions. *)
Definition decode_ext2 (code : Z) : dec_result :=
  if f_funct3 code =? 0 then
    DecInstr (Instr_init <| op_type := OpWgather |> <| rdest := xreg (f_rd code) |> <| rsrc0 := xreg (f_rs1 code) |>
      <| rsrc1 := xreg (f_rs2 code) |> <| rsrc2 := xreg (f_rs3 code) |> <| args := WgatherArgs (f_funct2 code) |>)
  else DecCustom 0x2B (f_funct7 code) (f_funct3 code).

(** The opcode switch. *)
Definition decode32 (is_rvc : bool) (code : Z) : dec_result :=
  let op := f_opcode code in
  if (op =? 0x37) || (op =? 0x17) then
    DecInstr (Instr_init <| op_type := OpAlu (if op =? 0x37 then ALU_LUI else ALU_AUIPC) |>
      <| args := AluArgs true false (u32 (Z.shiftl (Z.shiftr code 12) 12)) |> <| rdest := xreg (f_rd code) |>)
  else if (op =? 0x33) || (op =? 0x13) || (xlen64 && ((op =? 0x3B) || (op =? 0x1B))) then decode_alu code op
  else if op =? 0x63 then
    DecInstr (Instr_init <| op_type := OpBr BR_BR |> <| args := BrArgs (f_funct3 code) is_rvc (b_offset code) |>
      <| rsrc0 := xreg (f_rs1 code) |> <| rsrc1 := xreg (f_rs2 code) |> <| is_wstall := true |>)
  else if op =? 0x6F then
    DecInstr (Instr_init <| op_type := OpBr BR_JAL |> <| args := BrArgs 0 is_rvc (j_offset code) |>
      <| rdest := xreg (f_rd code) |> <| is_wstall := true |>)
  else if op =? 0x67 then
    DecInstr (Instr_init <| op_type := OpBr BR_JALR |> <| args := BrArgs 0 is_rvc (sext (f_imm12 code) 12) |>
      <| rdest := xreg (f_rd code) |> <| rsrc0 := xreg (f_rs1 code) |> <| is_wstall := true |>)
  else if (op =? 0x03) || (op =? 0x07) || (op =? 0x23) || (op =? 0x27) then decode_lsu code op
  else if op =? 0x0F then
    DecInstr (Instr_init <| fu_type := FU_LSU |> <| op_type := OpLsu LSU_FENCE |> <| args := LsuArgs 0 0 0 |>)
  else if op =? 0x2F then decode_amo code
  else if op =? 0x73 then decode_sys code
  else if op =? 0x53 then decode_fci code
  else if (op =? 0x43) || (op =? 0x47) || (op =? 0x4F) || (op =? 0x4B) then decode_fma code op
  else if op =? 0x0B then decode_ext1 code
  else if op =? 0x2B then decode_ext2 code
  else DecAbort.

(** [Decoder::decode] *)
Definition decode (code : Z) : dec_result :=
  if negb (Z.land code 3 =? 3) then
    let r := rvc_decompress xlen64 (Z.land code 0xFFFF) in
    if illegal r then DecAbort else decode32 true (instr32 r)
  else decode32 false code.

End Decode.
