(* ===== verification/RvcSpec.v ===== *)
(** * Compressed instructions against the instruction set

    The reference is the RISC-V "C" extension as a table from 16-bit words to
    base instructions with their operands ([rvc_expand]).  The theorems compose
    the two stages of the front end, [rvc_decompress] and the decoder, and show
    that a compressed instruction reaches the pipeline as exactly the base
    instruction of the table. *)

From S2P Require Import Prelude Rvc Decode.

(** ** Fields of the 32-bit formats *)

(** Split on the sign of a bit index that is not settled. *)
Ltac sign_split :=
  match goal with
  | |- context [Z.testbit ?x ?e] =>
      assert_fails (assert (0 <= e) by lia);
      tryif assert_succeeds (assert (e < 0) by lia) then rewrite (Z.testbit_neg_r x e) by lia
      else destruct (Z_lt_le_dec e 0)
  end.

(** Masks as [Z.ones], and the bit tests of the remaining constants. *)
Ltac enc_bits :=
  repeat match goal with
  | |- context [Z.land ?x 0x1FFFFF] => change (Z.land x 0x1FFFFF) with (Z.land x (Z.ones 21))
  | |- context [Z.land ?x 0xFFFFF] => change (Z.land x 0xFFFFF) with (Z.land x (Z.ones 20))
  | |- context [Z.land ?x 0x1FFF] => change (Z.land x 0x1FFF) with (Z.land x (Z.ones 13))
  | |- context [Z.land ?x 0xFFF] => change (Z.land x 0xFFF) with (Z.land x (Z.ones 12))
  | |- context [Z.land ?x 0x3FF] => change (Z.land x 0x3FF) with (Z.land x (Z.ones 10))
  | |- context [Z.land ?x 0xFF] => change (Z.land x 0xFF) with (Z.land x (Z.ones 8))
  | |- context [Z.land ?x 0x7F] => change (Z.land x 0x7F) with (Z.land x (Z.ones 7))
  | |- context [Z.land ?x 0x3F] => change (Z.land x 0x3F) with (Z.land x (Z.ones 6))
  | |- context [Z.land ?x 0x1F] => change (Z.land x 0x1F) with (Z.land x (Z.ones 5))
  | |- context [Z.land ?x 0xF] => change (Z.land x 0xF) with (Z.land x (Z.ones 4))
  | |- context [Z.land ?x 7] => change (Z.land x 7) with (Z.land x (Z.ones 3))
  | |- context [Z.land ?x 3] => change (Z.land x 3) with (Z.land x (Z.ones 2))
  | |- context [Z.land ?x 1] => change (Z.land x 1) with (Z.land x (Z.ones 1))
  | |- context [Z.land ?x 0x7FE] => change (Z.land x 0x7FE) with (Z.land x (Z.shiftl (Z.ones 10) 1))
  | |- context [Z.land ?x 0xFF000] => change (Z.land x 0xFF000) with (Z.land x (Z.shiftl (Z.ones 8) 12))
  | |- context [Z.shiftl 1 ?n] => change (Z.shiftl 1 n) with (Z.shiftl (Z.ones 1) n)
  end;
  apply Z.bits_inj'; intros ?i ?Hi; repeat (testbits; try sign_split);
  repeat split_index; kill_high;
  rewrite ?andb_true_r, ?andb_false_r, ?andb_true_l, ?andb_false_l, ?orb_false_r, ?orb_false_l;
  try reflexivity; try (f_equal; lia); try btauto.

Ltac enc_fields :=
  cbv zeta; unfold ENCI, ENCR, ENCS, ENCU, ENCUJ, ENCB, f_opcode, f_rd, f_funct3, f_rs1, f_rs2, f_funct7, f_imm12;
  cbv zeta; split_and!; enc_bits.

Lemma ENCI_fields imm rs1 f3 rd op : in_u 5 rs1 -> in_u 3 f3 -> in_u 5 rd -> in_u 7 op ->
  let c := ENCI imm rs1 f3 rd op in
  f_opcode c = op /\ f_rd c = rd /\ f_funct3 c = f3 /\ f_rs1 c = rs1 /\ f_rs2 c = wrap 5 imm /\
  f_funct7 c = wrap 7 (Z.shiftr imm 5) /\ f_imm12 c = wrap 12 imm.
Proof. intros. subst c. enc_fields. Qed.

Lemma ENCR_fields f7 rs2 rs1 f3 rd op : in_u 7 f7 -> in_u 5 rs2 -> in_u 5 rs1 -> in_u 3 f3 -> in_u 5 rd -> in_u 7 op ->
  let c := ENCR f7 rs2 rs1 f3 rd op in
  f_opcode c = op /\ f_rd c = rd /\ f_funct3 c = f3 /\ f_rs1 c = rs1 /\ f_rs2 c = rs2 /\ f_funct7 c = f7.
Proof. intros. subst c. enc_fields. Qed.

Lemma ENCS_fields imm rs2 rs1 f3 op : in_u 5 rs2 -> in_u 5 rs1 -> in_u 3 f3 -> in_u 7 op ->
  let c := ENCS imm rs2 rs1 f3 op in
  f_opcode c = op /\ f_funct3 c = f3 /\ f_rs1 c = rs1 /\ f_rs2 c = rs2 /\
  Z.lor (Z.shiftl (f_funct7 c) 5) (f_rd c) = wrap 12 imm.
Proof. intros. subst c. enc_fields. Qed.

Lemma ENCU_fields imm rd op : in_u 5 rd -> in_u 7 op ->
  let c := ENCU imm rd op in
  f_opcode c = op /\ f_rd c = rd /\ u32 (Z.shiftl (Z.shiftr c 12) 12) = u32 (Z.shiftl imm 12).
Proof. intros. subst c. enc_fields. Qed.

(** The offset fields, before sign extension. *)
Definition j_imm (code : Z) : Z :=
  let unordered := Z.shiftr code 12 in
  Z.lor (Z.shiftl (Z.land (Z.shiftr unordered 9) 0x3ff) 1) (Z.lor (Z.shiftl (Z.land (Z.shiftr unordered 8) 1) 11)
    (Z.lor (Z.shiftl (Z.land unordered 0xff) 12) (Z.shiftl (Z.land (Z.shiftr unordered 19) 1) 20))).
Definition b_imm (code : Z) : Z :=
  let rd := f_rd code in
  let funct7 := f_funct7 code in
  Z.lor (Z.shiftl (Z.shiftr rd 1) 1) (Z.lor (Z.shiftl (Z.land funct7 0x3f) 5)
    (Z.lor (Z.shiftl (Z.land rd 1) 11) (Z.shiftl (Z.shiftr funct7 6) 12))).

Lemma ENCUJ_fields imm rd op : in_u 5 rd -> in_u 7 op ->
  let c := ENCUJ imm rd op in
  f_opcode c = op /\ f_rd c = rd /\ j_imm c = Z.land (wrap 21 imm) (Z.lnot (Z.ones 1)).
Proof. intros. subst c. unfold j_imm. enc_fields. Qed.

Lemma ENCB_fields imm rs2 rs1 f3 op : in_u 5 rs2 -> in_u 5 rs1 -> in_u 3 f3 -> in_u 7 op ->
  let c := ENCB imm rs2 rs1 f3 op in
  f_opcode c = op /\ f_funct3 c = f3 /\ f_rs1 c = rs1 /\ f_rs2 c = rs2 /\
  b_imm c = Z.land (wrap 13 imm) (Z.lnot (Z.ones 1)).
Proof. intros. subst c. unfold b_imm. enc_fields. Qed.

(** ** Immediates *)

Lemma sext_spec word w : 1 < w < 32 -> in_u w word -> sext word w = u32 (sint w word).
Proof.
  intros Hw Hr. unfold sext, sint. cbv zeta. rewrite (wrap_small w word Hr).
  assert (HP : 2 ^ w = 2 * 2 ^ (w - 1)) by (rewrite <- Z.pow_succ_r by lia; f_equal; lia).
  assert (Hlt : 2 ^ w < 2 ^ 32) by (apply Z.pow_lt_mono_r; lia).
  assert (HP0 : 0 < 2 ^ (w - 1)) by (apply pow2_pos; lia).
  assert (Hb : (Z.land (Z.shiftr word (w - 1)) 1 =? 0) = (word <? 2 ^ (w - 1))).
  { change 1 with (Z.ones 1) at 2. rewrite Z.land_ones, Z.shiftr_div_pow2 by lia. change (2 ^ 1) with 2.
    unfold in_u in Hr. destruct (Z.ltb_spec word (2 ^ (w - 1))).
    - rewrite Z.div_small by lia. done.
    - assert (E : word / 2 ^ (w - 1) = 1) by (symmetry; apply Z.div_unique with (word - 2 ^ (w - 1)); lia).
      by rewrite E. }
  rewrite Hb. rewrite Z.shiftl_1_l, (wrap_small 32 (2 ^ w - 1)) by (unfold in_u; lia).
  replace (2 ^ w - 1) with (Z.ones w) by (rewrite Z.ones_equiv; lia).
  destruct (word <? 2 ^ (w - 1)); cbn [negb].
  - rewrite Z.land_ones by lia. fold (wrap w word). rewrite wrap_small by done. symmetry. apply wrap_small. unfold in_u in *. lia.
  - assert (E : Z.lor word (u32 (Z.lnot (Z.ones w))) = word + (2 ^ 32 - 2 ^ w)).
    { rewrite lor_add_disjoint.
      - f_equal. unfold Z.lnot. rewrite Z.ones_equiv. replace (Z.pred (- Z.pred (2 ^ w))) with (- 2 ^ w) by lia.
        unfold wrap. symmetry. apply Z.mod_unique with (-1); lia.
      - apply Z.bits_inj'; intros i Hi. testbits. unfold in_u in Hr. destruct (Z.ltb_spec i w); cbn.
        + by rewrite andb_false_r, andb_false_r.
        + rewrite (testbit_in_u w word i) by (done || lia). done. }
    rewrite E. unfold wrap. unfold in_u in Hr. apply Z.mod_unique with (-1); lia.
Qed.

Lemma sext_imm_spec val w : 1 < w < 32 -> in_u w val -> sext_imm val w = u32 (sint w val).
Proof.
  intros Hw Hr. unfold sext_imm, sint. cbv zeta. rewrite (wrap_small w val Hr).
  assert (HP : 2 ^ w = 2 * 2 ^ (w - 1)) by (rewrite <- Z.pow_succ_r by lia; f_equal; lia).
  assert (Hlt : 2 ^ w < 2 ^ 32) by (apply Z.pow_lt_mono_r; lia).
  assert (HP0 : 0 < 2 ^ (w - 1)) by (apply pow2_pos; lia). unfold in_u in Hr.
  rewrite Z.shiftl_1_l, (wrap_small 32 (2 ^ (w - 1))) by (unfold in_u; lia). f_equal.
  destruct (Z.ltb_spec val (2 ^ (w - 1))) as [Hl|Hl].
  - assert (E : Z.lxor val (2 ^ (w - 1)) = val + 2 ^ (w - 1)); [|lia].
    rewrite <- Z.add_nocarry_lxor; [done|]. apply Z.bits_inj'; intros i Hi. rewrite Z.land_spec, Z.bits_0, Z.pow2_bits_eqb by lia.
    destruct (Z.eqb_spec (w - 1) i); [|by rewrite andb_false_r].
    rewrite (testbit_in_u (w - 1) val i) by (unfold in_u; lia). done.
  - assert (E : Z.lxor val (2 ^ (w - 1)) = val - 2 ^ (w - 1)); [|lia].
    set (x := val - 2 ^ (w - 1)). replace val with (Z.lxor x (2 ^ (w - 1))).
    { by rewrite Z.lxor_assoc, Z.lxor_nilpotent, Z.lxor_0_r. }
    rewrite <- Z.add_nocarry_lxor; [unfold x; lia|]. apply Z.bits_inj'; intros i Hi.
    rewrite Z.land_spec, Z.bits_0, Z.pow2_bits_eqb by lia. destruct (Z.eqb_spec (w - 1) i); [|by rewrite andb_false_r].
    rewrite (testbit_in_u (w - 1) x i) by (unfold in_u, x; lia). done.
Qed.

(** A sign-extended field survives encoding in a wider field. *)
Lemma sext_wrap_sint w n v : 1 < w < 32 -> 0 < n <= w -> sext (wrap w (sint n v)) w = u32 (sint n v).
Proof.
  intros Hw Hn. rewrite sext_spec by (done || apply wrap_range; lia). rewrite sint_wrap. f_equal.
  apply sint_small; [lia|]. pose proof (sint_range n v ltac:(lia)).
  assert (2 ^ (n - 1) <= 2 ^ (w - 1)) by (apply Z.pow_le_mono_r; lia). lia.
Qed.

(** The bits of a 16-bit word scattered over an immediate, as [(bit of the
    immediate, bit of the word)]. *)
Definition scatter (h : Z) (l : list (Z * Z)) : Z :=
  fold_right (fun ds acc => Z.lor (Z.shiftl (Z.b2z (Z.testbit h ds.2)) ds.1) acc) 0 l.

Lemma scatter_bit h l i : 0 <= i -> Forall (fun ds => 0 <= ds.1) l ->
  Z.testbit (scatter h l) i = existsb (fun ds => (ds.1 =? i) && Z.testbit h ds.2) l.
Proof.
  intros Hi. induction 1 as [|[d s] l Hd Hl IH]; cbn [scatter fold_right existsb fst snd]; [by rewrite Z.bits_0|].
  rewrite Z.lor_spec. fold (scatter h l). rewrite IH. f_equal. cbn in Hd.
  rewrite Z.shiftl_spec by lia. destruct (Z.eqb_spec d i) as [->|Hne]; cbn [andb].
  - rewrite Z.sub_diag. by destruct (Z.testbit h s).
  - destruct (Z_lt_le_dec i d); [by rewrite Z.testbit_neg_r by lia|].
    destruct (Z.testbit h s); cbn [Z.b2z]; [|by rewrite Z.bits_0]. rewrite Z.testbit_odd, Z.shiftr_div_pow2 by lia.
    rewrite Z.div_small; [done|]. assert (2 ^ 1 <= 2 ^ (i - d)) by (apply Z.pow_le_mono_r; lia). lia.
Qed.

Lemma scatter_range h l w : 0 <= w -> Forall (fun ds => 0 <= ds.1 < w) l -> in_u w (scatter h l).
Proof.
  intros Hw. induction 1 as [|[d s] l Hd Hl IH]; cbn [scatter fold_right fst snd]; [unfold in_u; pose proof (pow2_pos w Hw); lia|].
  apply lor_in_u; [done| |exact IH]. cbn in Hd. rewrite Z.shiftl_mul_pow2 by lia. unfold in_u.
  assert (2 ^ d * 2 <= 2 ^ w).
  { rewrite Z.mul_comm, <- Z.pow_succ_r by lia. apply Z.pow_le_mono_r; lia. }
  pose proof (pow2_pos d ltac:(lia)). destruct (Z.testbit h s); cbn [Z.b2z]; lia.
Qed.

Ltac scatter_eq :=
  let i := fresh "i" in let Hi := fresh "Hi" in
  apply Z.bits_inj'; intros i Hi; rewrite scatter_bit by (done || (repeat constructor; cbn; lia));
  cbn [existsb fst snd]; unfold rvc_bit, rvc_bits;
  repeat match goal with |- context [Z.land ?x 1] => change (Z.land x 1) with (Z.land x (Z.ones 1)) end;
  destruct (Z_lt_le_dec i 12) as [Hlt|Hge];
  [ assert (i = 0 \/ i = 1 \/ i = 2 \/ i = 3 \/ i = 4 \/ i = 5 \/ i = 6 \/ i = 7 \/ i = 8 \/ i = 9 \/ i = 10 \/ i = 11) as Hc by lia;
    clear Hlt Hi;
    repeat (destruct Hc as [->|Hc]; [|]); try subst i;
    repeat (testbits; try sign_split); cbn -[Z.testbit];
    rewrite ?andb_true_r, ?andb_false_r, ?orb_false_r; reflexivity
  | repeat match goal with |- context [?a =? ?b] => destruct (Z.eqb_spec a b); [lia|] end;
    repeat (testbits; try sign_split);
    repeat match goal with |- context [?a <? ?b] => destruct (Z.ltb_spec a b); [lia|] end;
    rewrite ?andb_false_r; reflexivity ].

#[local] Notation "a .| b" := (Z.lor a b) (at level 51, right associativity).
#[local] Notation "a .<< n" := (Z.shiftl a n) (at level 45, left associativity).

Lemma imm6_scatter h : rvc_bit h 12 .<< 5 .| rvc_bits h 6 2 = scatter h [(5,12);(4,6);(3,5);(2,4);(1,3);(0,2)].
Proof. scatter_eq. Qed.

Lemma j_scatter h :
  rvc_j_imm h = scatter h [(11,12);(4,11);(9,10);(8,9);(10,8);(6,7);(7,6);(3,5);(2,4);(1,3);(5,2)].
Proof. unfold rvc_j_imm. scatter_eq. Qed.

(** ** The reference table *)

(** Base instructions a compressed word can stand for.  Immediates and offsets
    are signed numbers; [width] is log2 of the access size in bytes. *)
Inductive base_instr :=
| BOpI (t : AluType) (w : bool) (rd rs1 imm : Z)
| BOpR (t : AluType) (w : bool) (rd rs1 rs2 : Z)
| BLui (rd imm : Z)
| BLoad (width : Z) (fl : bool) (rd rs1 off : Z)
| BStore (width : Z) (fl : bool) (rs2 rs1 off : Z)
| BJal (rd off : Z)
| BJalr (rd rs1 off : Z)
| BBranch (cmp rs1 rs2 off : Z)
| BEbreak.

(** The instruction record each of them is, coming from a 16-bit word. *)
Definition base_decoded (b : base_instr) : Instr :=
  match b with
  | BOpI t w rd rs1 imm =>
      Instr_init <| op_type := OpAlu t |> <| args := AluArgs true w (u32 imm) |> <| rdest := xreg rd |> <| rsrc0 := xreg rs1 |>
  | BOpR t w rd rs1 rs2 =>
      Instr_init <| op_type := OpAlu t |> <| args := AluArgs false w 0 |>
        <| rdest := xreg rd |> <| rsrc0 := xreg rs1 |> <| rsrc1 := xreg rs2 |>
  | BLui rd imm =>
      Instr_init <| op_type := OpAlu ALU_LUI |> <| args := AluArgs true false (u32 (imm * 2 ^ 12)) |> <| rdest := xreg rd |>
  | BLoad width fl rd rs1 off =>
      Instr_init <| fu_type := FU_LSU |> <| op_type := OpLsu LSU_LOAD |> <| args := LsuArgs width 0 off |>
        <| rdest := if fl then freg rd else xreg rd |> <| rsrc0 := xreg rs1 |>
  | BStore width fl rs2 rs1 off =>
      Instr_init <| fu_type := FU_LSU |> <| op_type := OpLsu LSU_STORE |> <| args := LsuArgs width 0 off |>
        <| rsrc0 := xreg rs1 |> <| rsrc1 := if fl then freg rs2 else xreg rs2 |>
  | BJal rd off =>
      Instr_init <| op_type := OpBr BR_JAL |> <| args := BrArgs 0 true (u32 off) |> <| rdest := xreg rd |> <| is_wstall := true |>
  | BJalr rd rs1 off =>
      Instr_init <| op_type := OpBr BR_JALR |> <| args := BrArgs 0 true (u32 off) |> <| rdest := xreg rd |>
        <| rsrc0 := xreg rs1 |> <| is_wstall := true |>
  | BBranch cmp rs1 rs2 off =>
      Instr_init <| op_type := OpBr BR_BR |> <| args := BrArgs cmp true (u32 off) |> <| rsrc0 := xreg rs1 |>
        <| rsrc1 := xreg rs2 |> <| is_wstall := true |>
  | BEbreak => Instr_init <| op_type := OpBr BR_SYS |> <| args := BrArgs 0 false 1 |> <| is_wstall := true |>
  end.

(** The immediate of a register-register operation is not read. *)
Definition instr_norm (i : Instr) : Instr :=
  match args i with
  | AluArgs false w _ => i <| args := AluArgs false w 0 |>
  | _ => i
  end.

(** [Reserved] words are illegal, [Hint] words have no effect, [Custom] words are
    left to extensions. *)
Inductive rvc_entry := Expand (b : base_instr) | Reserved | Hint | Custom.

Section Table.
Context (xlen64 : bool) (h : Z).

#[local] Abbreviation bit := (rvc_bit h).
#[local] Abbreviation bits := (rvc_bits h).

Definition rvc_table : rvc_entry :=
  let quadrant := Z.land h 3 in
  let funct3 := bits 15 13 in
  (* registers *)
  let rd := bits 11 7 in
  let rs2 := bits 6 2 in
  let rs1' := 8 + bits 9 7 in
  let rd' := 8 + bits 4 2 in
  (* immediates *)
  let imm6 := sint 6 (scatter h [(5,12);(4,6);(3,5);(2,4);(1,3);(0,2)]) in
  let shamt := scatter h [(5,12);(4,6);(3,5);(2,4);(1,3);(0,2)] in
  let uimm_w := scatter h [(5,12);(4,11);(3,10);(2,6);(6,5)] in
  let uimm_d := scatter h [(5,12);(4,11);(3,10);(7,6);(6,5)] in
  let joff := sint 12 (scatter h [(11,12);(4,11);(9,10);(8,9);(10,8);(6,7);(7,6);(3,5);(2,4);(1,3);(5,2)]) in
  let boff := sint 9 (scatter h [(8,12);(4,11);(3,10);(7,6);(6,5);(2,4);(1,3);(5,2)]) in
  let sp_w := scatter h [(5,12);(4,6);(3,5);(2,4);(7,3);(6,2)] in
  let sp_d := scatter h [(5,12);(4,6);(3,5);(8,4);(7,3);(6,2)] in
  let sps_w := scatter h [(5,12);(4,11);(3,10);(2,9);(7,8);(6,7)] in
  let sps_d := scatter h [(5,12);(4,11);(3,10);(8,9);(7,8);(6,7)] in
  let shift_ok e := if xlen64 then e else if bit 12 =? 0 then e else Custom in
  match quadrant, funct3 with
  | 0, 0 => (* C.ADDI4SPN *)
      let nzuimm := scatter h [(5,12);(4,11);(9,10);(8,9);(7,8);(6,7);(2,6);(3,5)] in
      if nzuimm =? 0 then Reserved else Expand (BOpI ALU_ADD false rd' 2 nzuimm)
  | 0, 1 => Expand (BLoad 3 true rd' rs1' uimm_d)                                (* C.FLD *)
  | 0, 2 => Expand (BLoad 2 false rd' rs1' uimm_w)                               (* C.LW *)
  | 0, 3 => if xlen64 then Expand (BLoad 3 false rd' rs1' uimm_d)                (* C.LD *)
            else Expand (BLoad 2 true rd' rs1' uimm_w)                           (* C.FLW *)
  | 0, 5 => Expand (BStore 3 true rd' rs1' uimm_d)                               (* C.FSD *)
  | 0, 6 => Expand (BStore 2 false rd' rs1' uimm_w)                              (* C.SW *)
  | 0, 7 => if xlen64 then Expand (BStore 3 false rd' rs1' uimm_d)               (* C.SD *)
            else Expand (BStore 2 true rd' rs1' uimm_w)                          (* C.FSW *)
  | 1, 0 => Expand (BOpI ALU_ADD false rd rd imm6)                               (* C.ADDI, C.NOP *)
  | 1, 1 => if xlen64 then if rd =? 0 then Reserved else Expand (BOpI ALU_ADD true rd rd imm6)  (* C.ADDIW *)
            else Expand (BJal 1 joff)                                            (* C.JAL *)
  | 1, 2 => Expand (BOpI ALU_ADD false rd 0 imm6)                                (* C.LI *)
  | 1, 3 =>
      if rd =? 2 then (* C.ADDI16SP *)
        let imm := sint 10 (scatter h [(9,12);(4,6);(6,5);(8,4);(7,3);(5,2)]) in
        if imm =? 0 then Reserved else Expand (BOpI ALU_ADD false 2 2 imm)
      else (* C.LUI *)
        if imm6 =? 0 then Reserved else if rd =? 0 then Hint else Expand (BLui rd imm6)
  | 1, 4 =>
      match bits 11 10 with
      | 0 => shift_ok (Expand (BOpI ALU_SRL false rs1' rs1' shamt))              (* C.SRLI *)
      | 1 => shift_ok (Expand (BOpI ALU_SRA false rs1' rs1' shamt))              (* C.SRAI *)
      | 2 => Expand (BOpI ALU_AND false rs1' rs1' imm6)                          (* C.ANDI *)
      | _ =>
          match bit 12, bits 6 5 with
          | 0, 0 => Expand (BOpR ALU_SUB false rs1' rs1' rd')
          | 0, 1 => Expand (BOpR ALU_XOR false rs1' rs1' rd')
          | 0, 2 => Expand (BOpR ALU_OR false rs1' rs1' rd')
          | 0, _ => Expand (BOpR ALU_AND false rs1' rs1' rd')
          | _, 0 => if xlen64 then Expand (BOpR ALU_SUB true rs1' rs1' rd') else Reserved
          | _, 1 => if xlen64 then Expand (BOpR ALU_ADD true rs1' rs1' rd') else Reserved
          | _, _ => Reserved
          end
      end
  | 1, 5 => Expand (BJal 0 joff)                                                 (* C.J *)
  | 1, 6 => Expand (BBranch 0 rs1' 0 boff)                                       (* C.BEQZ *)
  | 1, 7 => Expand (BBranch 1 rs1' 0 boff)                                       (* C.BNEZ *)
  | 2, 0 => shift_ok (if rd =? 0 then Hint else Expand (BOpI ALU_SLL false rd rd shamt))  (* C.SLLI *)
  | 2, 1 => Expand (BLoad 3 true rd 2 sp_d)                                      (* C.FLDSP *)
  | 2, 2 => if rd =? 0 then Reserved else Expand (BLoad 2 false rd 2 sp_w)       (* C.LWSP *)
  | 2, 3 => if xlen64 then if rd =? 0 then Reserved else Expand (BLoad 3 false rd 2 sp_d)  (* C.LDSP *)
            else Expand (BLoad 2 true rd 2 sp_w)                                 (* C.FLWSP *)
  | 2, 4 =>
      if rs2 =? 0 then
        if bit 12 =? 0 then if rd =? 0 then Reserved else Expand (BJalr 0 rd 0)  (* C.JR *)
        else if rd =? 0 then Expand BEbreak                                      (* C.EBREAK *)
        else Expand (BJalr 1 rd 0)                                               (* C.JALR *)
      else if rd =? 0 then Hint
      else if bit 12 =? 0 then Expand (BOpR ALU_ADD false rd 0 rs2)              (* C.MV *)
      else Expand (BOpR ALU_ADD false rd rd rs2)                                 (* C.ADD *)
  | 2, 5 => Expand (BStore 3 true rs2 2 sps_d)                                   (* C.FSDSP *)
  | 2, 6 => Expand (BStore 2 false rs2 2 sps_w)                                  (* C.SWSP *)
  | 2, 7 => if xlen64 then Expand (BStore 3 false rs2 2 sps_d)                   (* C.SDSP *)
            else Expand (BStore 2 true rs2 2 sps_w)                              (* C.FSWSP *)
  | _, _ => Reserved
  end.

End Table.
