(* ===== verification/RvcProofs.v ===== *)
(** * The compressed front end refines the reference table *)

From S2P Require Import Prelude Rvc Decode RvcSpec.

(** ** Decoding the formats *)

(** Read the fields of an encoded word and run the opcode switch. *)
Ltac run_decode :=
  unfold decode32, decode_alu, decode_lsu, decode_sys, base_decoded; cbv zeta;
  repeat match goal with
  | F : f_opcode ?c = _ |- _ => rewrite F
  | F : f_rd ?c = _ |- _ => rewrite F
  | F : f_funct3 ?c = _ |- _ => rewrite F
  | F : f_rs1 ?c = _ |- _ => rewrite F
  | F : f_rs2 ?c = _ |- _ => rewrite F
  | F : f_funct7 ?c = _ |- _ => rewrite F
  | F : f_imm12 ?c = _ |- _ => rewrite F
  end.

Lemma dec_opi xlen64 w f3 t rd rs1 imm v :
  (f3 = 0 /\ t = ALU_ADD) \/ (f3 = 7 /\ t = ALU_AND) -> (w = true -> xlen64 = true) ->
  in_u 5 rd -> in_u 5 rs1 -> sext (wrap 12 imm) 12 = u32 v ->
  decode32 xlen64 true (ENCI imm rs1 f3 rd (if w then 0x1B else 0x13)) = DecInstr (base_decoded (BOpI t w rd rs1 v)).
Proof.
  intros Hf Hw Hrd Hrs Hi.
  destruct (ENCI_fields imm rs1 f3 rd (if w then 0x1B else 0x13)) as (F1 & F2 & F3 & F4 & F5 & F6 & F7);
    [done|destruct Hf as [[-> _]|[-> _]]; unfold in_u; lia|done|destruct w; unfold in_u; lia|].
  run_decode. rewrite Hi. destruct Hf as [[-> ->]|[-> ->]]; destruct w; try (rewrite (Hw eq_refl)); reflexivity.
Qed.

Lemma shamt_fields sh : in_u 6 sh -> Z.lor (wrap 5 sh) (Z.shiftl (Z.land (wrap 7 (Z.shiftr sh 5)) 1) 5) = sh.
Proof. intros. enc_bits. Qed.

(** Shifts: the amount is 6 bits wide on RV64, 5 on RV32. *)
Lemma dec_shift (xlen64 sra : bool) f3 rd sh : (f3 = 1 /\ sra = false) \/ f3 = 5 -> in_u 5 rd ->
  in_u (if xlen64 then 6 else 5) sh ->
  decode32 xlen64 true (ENCI (if sra then Z.lor sh 0x400 else sh) rd f3 rd 0x13) =
    DecInstr (base_decoded (BOpI (if f3 =? 1 then ALU_SLL else if sra then ALU_SRA else ALU_SRL) false rd rd sh)).
Proof.
  intros Hf Hrd Hsh. set (imm := if sra then Z.lor sh 0x400 else sh).
  assert (Hs6 : in_u 6 sh) by (destruct xlen64; unfold in_u in *; lia).
  destruct (ENCI_fields imm rd f3 rd 0x13) as (F1 & F2 & F3 & F4 & F5 & F6 & F7);
    [done|destruct Hf as [[-> _] | ->]; unfold in_u; lia|done|unfold in_u; lia|].
  assert (E5 : wrap 5 imm = wrap 5 sh).
  { unfold imm. destruct sra; [|done]. change 0x400 with (Z.shiftl (Z.ones 1) 10). enc_bits. }
  assert (E7 : Z.land (wrap 7 (Z.shiftr imm 5)) 1 = Z.land (wrap 7 (Z.shiftr sh 5)) 1).
  { unfold imm. destruct sra; [|done]. change 0x400 with (Z.shiftl (Z.ones 1) 10). enc_bits. }
  assert (E1 : (Z.shiftr (wrap 7 (Z.shiftr imm 5)) 1 =? 0x10) = sra).
  { assert (E : Z.shiftr (wrap 7 (Z.shiftr imm 5)) 1 = Z.shiftl (Z.b2z sra) 4); [|rewrite E; by destruct sra].
    unfold imm. destruct sra; [change 0x400 with (Z.shiftl (Z.ones 1) 10); change (Z.b2z true) with (Z.ones 1)|]; cbn [Z.b2z]; enc_bits. }
  rewrite E5 in F5. run_decode. rewrite E7, E1.
  assert (Hv : u32 sh = sh) by (apply wrap_small; unfold in_u in *; lia).
  destruct Hf as [[-> ->] | ->]; destruct xlen64; cbn -[Z.lor Z.shiftl Z.land wrap]; rewrite ?shamt_fields, ?(wrap_small 5 sh), Hv by done;
    try done; by destruct sra.
Qed.

Definition norm_is (r : dec_result) (i : Instr) : Prop := exists j, r = DecInstr j /\ instr_norm j = i.

Lemma norm_is_opi r t w rd rs1 v :
  r = DecInstr (base_decoded (BOpI t w rd rs1 v)) -> norm_is r (base_decoded (BOpI t w rd rs1 v)).
Proof. intros ->. by eexists. Qed.

Lemma dec_opr xlen64 w f7 f3 t rd rs1 rs2 :
  (f7 = 0x20 /\ f3 = 0 /\ t = ALU_SUB) \/
  (f7 = 0 /\ ((f3 = 0 /\ t = ALU_ADD) \/ (f3 = 4 /\ t = ALU_XOR) \/ (f3 = 6 /\ t = ALU_OR) \/ (f3 = 7 /\ t = ALU_AND))) ->
  (w = true -> xlen64 = true) -> in_u 5 rd -> in_u 5 rs1 -> in_u 5 rs2 ->
  norm_is (decode32 xlen64 true (ENCR f7 rs2 rs1 f3 rd (if w then 0x3B else 0x33))) (base_decoded (BOpR t w rd rs1 rs2)).
Proof.
  intros Hf Hw Hrd Hrs1 Hrs2.
  assert (Hr : in_u 7 f7 /\ in_u 3 f3) by (unfold in_u; lia).
  destruct (ENCR_fields f7 rs2 rs1 f3 rd (if w then 0x3B else 0x33)) as (F1 & F2 & F3 & F4 & F5 & F6);
    [tauto|done|done|tauto|done|destruct w; unfold in_u; lia|].
  run_decode. unfold norm_is.
  destruct Hf as [(-> & -> & ->)|(-> & [[-> ->]|[[-> ->]|[[-> ->]|[-> ->]]]])]; destruct w; try (rewrite (Hw eq_refl));
    eexists; split; reflexivity.
Qed.

(** Offsets of loads and stores, as numbers. *)
Lemma lsu_offset imm : in_u 11 imm -> sint 32 (sext (wrap 12 imm) 12) = imm.
Proof.
  intros H. rewrite (wrap_small 12 imm) by (unfold in_u in *; lia). rewrite sext_spec by (unfold in_u in *; lia).
  rewrite sint_wrap, (sint_small 12 imm) by (unfold in_u in *; lia). apply sint_small; unfold in_u in *; lia.
Qed.

Lemma dec_load xlen64 width (fl : bool) rd rs1 off : in_u 3 width -> in_u 5 rd -> in_u 5 rs1 -> in_u 11 off ->
  decode32 xlen64 true (ENCI off rs1 width rd (if fl then 0x07 else 0x03)) = DecInstr (base_decoded (BLoad width fl rd rs1 off)).
Proof.
  intros Hw Hrd Hrs Ho.
  destruct (ENCI_fields off rs1 width rd (if fl then 0x07 else 0x03)) as (F1 & F2 & F3 & F4 & F5 & F6 & F7);
    [done|done|done|destruct fl; unfold in_u; lia|].
  run_decode. destruct fl, xlen64; cbn -[sint sext wrap]; rewrite lsu_offset by done; reflexivity.
Qed.

Lemma dec_store xlen64 width (fl : bool) rs2 rs1 off : in_u 3 width -> in_u 5 rs2 -> in_u 5 rs1 -> in_u 11 off ->
  decode32 xlen64 true (ENCS off rs2 rs1 width (if fl then 0x27 else 0x23)) = DecInstr (base_decoded (BStore width fl rs2 rs1 off)).
Proof.
  intros Hw Hrd Hrs Ho.
  destruct (ENCS_fields off rs2 rs1 width (if fl then 0x27 else 0x23)) as (F1 & F2 & F3 & F4 & F5);
    [done|done|done|destruct fl; unfold in_u; lia|].
  run_decode. destruct fl, xlen64; cbn -[sint sext wrap Z.lor Z.shiftl]; rewrite F5, lsu_offset by done; reflexivity.
Qed.

Lemma dec_lui xlen64 rd v : in_u 5 rd -> - 2 ^ 19 <= v < 2 ^ 19 ->
  decode32 xlen64 true (ENCU (u32 v) rd 0x37) = DecInstr (base_decoded (BLui rd v)).
Proof.
  intros Hrd Hv. destruct (ENCU_fields (u32 v) rd 0x37) as (F1 & F2 & F3); [done|unfold in_u; lia|].
  unfold decode32, base_decoded. cbv zeta. rewrite F1, F2, F3. cbn -[wrap Z.shiftl Z.pow Z.mul].
  rewrite Z.shiftl_mul_pow2, wrap_mul_l by lia. reflexivity.
Qed.

Lemma even_land x : Z.testbit x 0 = false -> Z.land x (Z.lnot (Z.ones 1)) = x.
Proof.
  intros H. apply Z.bits_inj'; intros i Hi. testbits. destruct (Z.ltb_spec i 1); [|by rewrite andb_true_r].
  replace i with 0 by lia. by rewrite H.
Qed.

Lemma sint_bit0 n v : 0 < n -> Z.testbit (sint n v) 0 = Z.testbit v 0.
Proof.
  intros Hn. rewrite <- (andb_true_l (Z.testbit (sint n v) 0)), <- (andb_true_l (Z.testbit v 0)).
  replace true with (0 <? n) by (apply Z.ltb_lt; lia).
  rewrite <- !testbit_wrap by lia. by rewrite wrap_sint by lia.
Qed.

Lemma dec_jal xlen64 rd n v : in_u 5 rd -> 0 < n <= 21 -> Z.testbit v 0 = false ->
  decode32 xlen64 true (ENCUJ (Z.land (u32 (sint n v)) 0x1FFFFF) rd 0x6F) = DecInstr (base_decoded (BJal rd (sint n v))).
Proof.
  intros Hrd Hn Hv. set (imm := Z.land (u32 (sint n v)) 0x1FFFFF).
  assert (Ei : imm = wrap 21 (sint n v)) by (unfold imm; enc_bits).
  destruct (ENCUJ_fields imm rd 0x6F) as (F1 & F2 & F3); [done|unfold in_u; lia|].
  assert (Ej : j_offset (ENCUJ imm rd 0x6F) = u32 (sint n v)).
  { change (j_offset (ENCUJ imm rd 0x6F)) with (sext (j_imm (ENCUJ imm rd 0x6F)) 21). rewrite F3, Ei, wrap_wrap, even_land.
    - by apply sext_wrap_sint.
    - rewrite testbit_wrap by lia. by rewrite sint_bit0, Hv by lia. }
  unfold decode32, base_decoded. cbv zeta. rewrite F1, F2, Ej. by destruct xlen64.
Qed.

Lemma dec_branch xlen64 cmp rs1 n v : in_u 3 cmp -> in_u 5 rs1 -> 0 < n <= 13 -> Z.testbit v 0 = false ->
  decode32 xlen64 true (ENCB (Z.land (u32 (sint n v)) 0x1FFF) 0 rs1 cmp 0x63) = DecInstr (base_decoded (BBranch cmp rs1 0 (sint n v))).
Proof.
  intros Hc Hrs Hn Hv. set (imm := Z.land (u32 (sint n v)) 0x1FFF).
  assert (Ei : imm = wrap 13 (sint n v)) by (unfold imm; enc_bits).
  destruct (ENCB_fields imm 0 rs1 cmp 0x63) as (F1 & F2 & F3 & F4 & F5); [unfold in_u; lia|done|done|unfold in_u; lia|].
  assert (Ej : b_offset (ENCB imm 0 rs1 cmp 0x63) = u32 (sint n v)).
  { change (b_offset (ENCB imm 0 rs1 cmp 0x63)) with (sext (b_imm (ENCB imm 0 rs1 cmp 0x63)) 13). rewrite F5, Ei, wrap_wrap, even_land.
    - by apply sext_wrap_sint.
    - rewrite testbit_wrap by lia. by rewrite sint_bit0, Hv by lia. }
  unfold decode32, base_decoded. cbv zeta. rewrite F1, F2, F3, F4, Ej. by destruct xlen64.
Qed.

Lemma dec_jalr xlen64 rd rs1 : in_u 5 rd -> in_u 5 rs1 ->
  decode32 xlen64 true (ENCI 0 rs1 0 rd 0x67) = DecInstr (base_decoded (BJalr rd rs1 0)).
Proof.
  intros Hrd Hrs. destruct (ENCI_fields 0 rs1 0 rd 0x67) as (F1 & F2 & F3 & F4 & F5 & F6 & F7);
    [done|unfold in_u; lia|done|unfold in_u; lia|].
  run_decode. by destruct xlen64.
Qed.

(** ** Registers and immediates of a compressed word *)

Lemma rvc_bits_range h hi lo : 0 <= hi - lo + 1 -> in_u (hi - lo + 1) (rvc_bits h hi lo).
Proof. intros. unfold rvc_bits. rewrite land_ones_wrap by lia. by apply wrap_range. Qed.

Lemma rcp_range h hi lo : hi - lo + 1 = 3 -> rcp (rvc_bits h hi lo) = 8 + rvc_bits h hi lo /\ in_u 5 (8 + rvc_bits h hi lo).
Proof.
  intros E. pose proof (rvc_bits_range h hi lo ltac:(lia)) as H. rewrite E in H. unfold rcp, in_u in *.
  rewrite wrap_small by (unfold in_u; lia). lia.
Qed.

#[local] Notation "a .| b" := (Z.lor a b) (at level 51, right associativity).
#[local] Notation "a .<< n" := (Z.shiftl a n) (at level 45, left associativity).

Section Scatter.
Context (h : Z).
#[local] Abbreviation bit := (rvc_bit h).
#[local] Abbreviation bits := (rvc_bits h).

Lemma sc_nzuimm : bits 12 11 .<< 4 .| bits 10 7 .<< 6 .| bit 5 .<< 3 .| bit 6 .<< 2 =
  scatter h [(5,12);(4,11);(9,10);(8,9);(7,8);(6,7);(2,6);(3,5)].
Proof. scatter_eq. Qed.
Lemma sc_uimm_d : bits 12 10 .<< 3 .| bits 6 5 .<< 6 = scatter h [(5,12);(4,11);(3,10);(7,6);(6,5)].
Proof. scatter_eq. Qed.
Lemma sc_uimm_w : bit 5 .<< 6 .| bits 12 10 .<< 3 .| bit 6 .<< 2 = scatter h [(5,12);(4,11);(3,10);(2,6);(6,5)].
Proof. scatter_eq. Qed.
Lemma sc_b : rvc_b_imm h = scatter h [(8,12);(4,11);(3,10);(7,6);(6,5);(2,4);(1,3);(5,2)].
Proof. unfold rvc_b_imm. scatter_eq. Qed.
Lemma sc_sp16 : bit 12 .<< 9 .| bit 6 .<< 4 .| bit 5 .<< 6 .| bits 4 3 .<< 7 .| bit 2 .<< 5 =
  scatter h [(9,12);(4,6);(6,5);(8,4);(7,3);(5,2)].
Proof. scatter_eq. Qed.
Lemma sc_sp_d : bit 12 .<< 5 .| bits 6 5 .<< 3 .| bits 4 2 .<< 6 = scatter h [(5,12);(4,6);(3,5);(8,4);(7,3);(6,2)].
Proof. scatter_eq. Qed.
Lemma sc_sp_w : bit 12 .<< 5 .| bits 6 4 .<< 2 .| bits 3 2 .<< 6 = scatter h [(5,12);(4,6);(3,5);(2,4);(7,3);(6,2)].
Proof. scatter_eq. Qed.
Lemma sc_sps_d : bits 12 10 .<< 3 .| bits 9 7 .<< 6 = scatter h [(5,12);(4,11);(3,10);(8,9);(7,8);(6,7)].
Proof. scatter_eq. Qed.
Lemma sc_sps_w : bits 12 9 .<< 2 .| bits 8 7 .<< 6 = scatter h [(5,12);(4,11);(3,10);(2,9);(7,8);(6,7)].
Proof. scatter_eq. Qed.

(** C.LUI takes its six bits 12 places up. *)
Lemma sc_lui : bit 12 .<< 17 .| bits 6 2 .<< 12 = scatter h [(5,12);(4,6);(3,5);(2,4);(1,3);(0,2)] * 2 ^ 12.
Proof.
  rewrite <- imm6_scatter, <- Z.shiftl_mul_pow2 by lia. rewrite Z.shiftl_lor, Z.shiftl_shiftl by lia. done.
Qed.

End Scatter.

Ltac sc_range := apply scatter_range; [lia|repeat constructor; cbn; lia].

(** ** Quadrants *)

Definition entry_ok (xlen64 : bool) (r : DecompResult) (e : rvc_entry) : Prop :=
  match e with
  | Expand b => illegal r = false /\ norm_is (decode32 xlen64 true (instr32 r)) (base_decoded b)
  | Reserved | Hint => illegal r = true
  | Custom => True
  end.

(** An expansion that decodes to a non-register operation. *)
Lemma entry_expand xlen64 w b : instr_norm (base_decoded b) = base_decoded b ->
  decode32 xlen64 true w = DecInstr (base_decoded b) -> entry_ok xlen64 (rvc w) (Expand b).
Proof. intros Hn Hd. split; [done|]. by exists (base_decoded b). Qed.

Lemma reg5 h hi lo : hi - lo + 1 = 5 -> in_u 5 (rvc_bits h hi lo).
Proof. intros E. rewrite <- E. apply rvc_bits_range. lia. Qed.

Lemma sint_zero w v : 0 < w -> in_u w v -> sint w v = 0 -> v = 0.
Proof.
  intros Hw Hv E. assert (E2 : wrap w (sint w v) = 0) by (rewrite E; apply Z.mod_0_l; pose proof (pow2_pos w); lia).
  rewrite wrap_sint in E2 by lia. by rewrite wrap_small in E2.
Qed.

Lemma u32_zero w v : 0 < w <= 32 -> (u32 (sint w v) =? 0) = (sint w v =? 0).
Proof.
  intros Hw. pose proof (sint_range w v ltac:(lia)) as Hr.
  assert (2 ^ (w - 1) <= 2 ^ 31) by (apply Z.pow_le_mono_r; lia).
  destruct (Z.eqb_spec (sint w v) 0) as [->|Hne]; [done|]. apply Z.eqb_neq. intros E. unfold wrap in E.
  apply Z.mod_divide in E as [k E]; [|lia]. change (2 ^ 32) with 4294967296 in E. change (2 ^ 31) with 2147483648 in *. nia.
Qed.

Lemma wrap12_u32 y : wrap 12 (Z.land (u32 y) 0xFFF) = wrap 12 y.
Proof. enc_bits. Qed.

Lemma imm12_signed n v : 1 < n <= 12 -> in_u n v -> sext (wrap 12 (Z.land (sext_imm v n) 0xFFF)) 12 = u32 (sint n v).
Proof. intros Hn Hv. rewrite sext_imm_spec, wrap12_u32 by (done || lia). apply sext_wrap_sint; lia. Qed.

Lemma imm12_unsigned v : in_u 11 v -> sext (wrap 12 v) 12 = u32 v.
Proof.
  intros Hv. rewrite <- (sint_small 12 v) at 1 by (unfold in_u in Hv; lia). rewrite sext_wrap_sint by lia.
  by rewrite sint_small by (unfold in_u in Hv; lia).
Qed.

Lemma entry_opi xlen64 (w : bool) f3 t rd rs1 imm v op :
  (f3 = 0 /\ t = ALU_ADD) \/ (f3 = 7 /\ t = ALU_AND) -> (w = true -> xlen64 = true) -> op = (if w then 0x1B else 0x13) ->
  in_u 5 rd -> in_u 5 rs1 -> sext (wrap 12 imm) 12 = u32 v ->
  entry_ok xlen64 (rvc (ENCI imm rs1 f3 rd op)) (Expand (BOpI t w rd rs1 v)).
Proof. intros Hf Hw -> Hrd Hrs Hi. apply entry_expand; [done|]. by apply dec_opi. Qed.

Lemma entry_opr xlen64 (w : bool) f7 f3 t rd rs1 rs2 op :
  (f7 = 0x20 /\ f3 = 0 /\ t = ALU_SUB) \/
  (f7 = 0 /\ ((f3 = 0 /\ t = ALU_ADD) \/ (f3 = 4 /\ t = ALU_XOR) \/ (f3 = 6 /\ t = ALU_OR) \/ (f3 = 7 /\ t = ALU_AND))) ->
  (w = true -> xlen64 = true) -> op = (if w then 0x3B else 0x33) -> in_u 5 rd -> in_u 5 rs1 -> in_u 5 rs2 ->
  entry_ok xlen64 (rvc (ENCR f7 rs2 rs1 f3 rd op)) (Expand (BOpR t w rd rs1 rs2)).
Proof. intros Hf Hw -> Hrd Hrs1 Hrs2. split; [done|]. by apply dec_opr. Qed.

Lemma entry_load xlen64 width (fl : bool) rd rs1 off op : in_u 3 width -> op = (if fl then 0x07 else 0x03) ->
  in_u 5 rd -> in_u 5 rs1 -> in_u 11 off ->
  entry_ok xlen64 (rvc (ENCI off rs1 width rd op)) (Expand (BLoad width fl rd rs1 off)).
Proof. intros Hw -> Hrd Hrs Ho. apply entry_expand; [done|]. by apply dec_load. Qed.

Lemma entry_store xlen64 width (fl : bool) rs2 rs1 off op : in_u 3 width -> op = (if fl then 0x27 else 0x23) ->
  in_u 5 rs2 -> in_u 5 rs1 -> in_u 11 off ->
  entry_ok xlen64 (rvc (ENCS off rs2 rs1 width op)) (Expand (BStore width fl rs2 rs1 off)).
Proof. intros Hw -> Hrd Hrs Ho. apply entry_expand; [done|]. by apply dec_store. Qed.

Ltac range := first [done | sc_range | (unfold in_u; lia)].

(** Run the switch for each value of the function field. *)
Ltac switch f3 Hf :=
  let C := fresh in
  assert (C : f3 = 0 \/ f3 = 1 \/ f3 = 2 \/ f3 = 3 \/ f3 = 4 \/ f3 = 5 \/ f3 = 6 \/ f3 = 7) by (unfold in_u in Hf; lia);
  destruct C as [->|[->|[->|[->|[->|[->|[->| ->]]]]]]]; cbn -[scatter entry_ok ENCI ENCR ENCS ENCU ENCUJ ENCB rvc_bits rvc_bit
    Z.add sint sext_imm wrap Z.land rvc_misc_alu rvc_j_imm rvc_b_imm Z.shiftr].

Lemma q0_ok xlen64 h : Z.land h 3 = 0 -> entry_ok xlen64 (rvc_q0 xlen64 h (rvc_bits h 15 13)) (rvc_table xlen64 h).
Proof.
  intros Hq. unfold rvc_table. cbv zeta. rewrite Hq. pose proof (rvc_bits_range h 15 13 ltac:(lia)) as Hf.
  destruct (rcp_range h 4 2 eq_refl) as [E1 R1]. destruct (rcp_range h 9 7 eq_refl) as [E2 R2].
  unfold rvc_q0. cbv zeta. rewrite E1, E2, sc_nzuimm, sc_uimm_d, sc_uimm_w.
  set (f3 := rvc_bits h 15 13) in *. clearbody f3. switch f3 Hf.
  - case_match; [done|]. apply entry_opi; try range; [by left|]. apply imm12_unsigned. range.
  - apply entry_load; range.
  - apply entry_load; range.
  - destruct xlen64; apply entry_load; range.
  - done.
  - apply entry_store; range.
  - apply entry_store; range.
  - destruct xlen64; apply entry_store; range.
Qed.

Lemma rvc_bit_b2z h b : 0 <= b -> rvc_bit h b = Z.b2z (Z.testbit h b).
Proof.
  intros Hb. unfold rvc_bit. change 1 with (Z.ones 1). rewrite Z.land_ones, Z.shiftr_div_pow2 by lia.
  rewrite Z.testbit_spec' by lia. done.
Qed.

(** Without bit 12 a shift amount has five bits. *)
Lemma shamt5 h : rvc_bit h 12 = 0 -> in_u 5 (scatter h [(5,12);(4,6);(3,5);(2,4);(1,3);(0,2)]).
Proof.
  intros E. rewrite rvc_bit_b2z in E by lia. destruct (Z.testbit h 12) eqn:Eb; [done|].
  change (scatter h [(5,12);(4,6);(3,5);(2,4);(1,3);(0,2)]) with
    (Z.lor (Z.shiftl (Z.b2z (Z.testbit h 12)) 5) (scatter h [(4,6);(3,5);(2,4);(1,3);(0,2)])).
  rewrite Eb. cbn [Z.b2z]. rewrite Z.shiftl_0_l, Z.lor_0_l. sc_range.
Qed.

Lemma sra_enc sh r : Z.lor (ENCI sh r 5 r 0x13) 0x40000000 = ENCI (Z.lor sh 0x400) r 5 r 0x13.
Proof.
  unfold ENCI. change 0x40000000 with (Z.shiftl (Z.ones 1) 30). change 0x400 with (Z.shiftl (Z.ones 1) 10). enc_bits.
Qed.

Lemma entry_shift xlen64 (sra : bool) f3 t rd sh w : (f3 = 1 /\ sra = false) \/ f3 = 5 -> in_u 5 rd -> in_u 6 sh ->
  (xlen64 = false -> in_u 5 sh) -> t = (if f3 =? 1 then ALU_SLL else if sra then ALU_SRA else ALU_SRL) ->
  w = ENCI (if sra then Z.lor sh 0x400 else sh) rd f3 rd 0x13 ->
  entry_ok xlen64 (rvc w) (Expand (BOpI t false rd rd sh)).
Proof.
  intros Hf Hrd H6 H5 -> ->. apply entry_expand; [done|]. apply dec_shift; [done|done|]. destruct xlen64; auto.
Qed.

Lemma misc_alu_ok xlen64 h : Z.land h 3 = 1 -> rvc_bits h 15 13 = 4 ->
  entry_ok xlen64 (rvc_misc_alu xlen64 h) (rvc_table xlen64 h).
Proof.
  intros Hq Hf. unfold rvc_table. cbv zeta. rewrite Hq, Hf.
  destruct (rcp_range h 4 2 eq_refl) as [E1 R1]. destruct (rcp_range h 9 7 eq_refl) as [E2 R2].
  unfold rvc_misc_alu. cbv zeta. rewrite E1, E2, imm6_scatter. cbn iota.
  pose proof (rvc_bits_range h 11 10 ltac:(lia)) as Hs. set (sf := rvc_bits h 11 10) in *. clearbody sf.
  assert (C : sf = 0 \/ sf = 1 \/ sf = 2 \/ sf = 3) by (unfold in_u in Hs; lia).
  assert (H6 : in_u 6 (scatter h [(5,12);(4,6);(3,5);(2,4);(1,3);(0,2)])) by sc_range.
  pose proof (shamt5 h) as H5. set (sh := scatter h _) in *. clearbody sh.
  destruct C as [->|[->|[->| ->]]]; cbn -[scatter entry_ok ENCI ENCR rvc_bits rvc_bit Z.add sint sext_imm Z.land Z.lor].
  - destruct xlen64; [|destruct (Z.eqb_spec (rvc_bit h 12) 0); [|done]];
      apply (entry_shift _ false 5); try done; try (by right); auto.
  - destruct xlen64; [|destruct (Z.eqb_spec (rvc_bit h 12) 0); [|done]];
      apply (entry_shift _ true 5); try done; try (by right); auto using sra_enc.
  - apply entry_opi; try range; [by right|]. apply imm12_signed; [lia|done].
  - pose proof (rvc_bits_range h 6 5 ltac:(lia)) as Ho. set (op2 := rvc_bits h 6 5) in *. clearbody op2.
    assert (C : op2 = 0 \/ op2 = 1 \/ op2 = 2 \/ op2 = 3) by (unfold in_u in Ho; lia).
    rewrite (rvc_bit_b2z h 12) by lia. clear H5.
    destruct (Z.testbit h 12), xlen64, C as [->|[->|[->| ->]]];
      cbn -[scatter entry_ok ENCI ENCR rvc_bits rvc_bit Z.add]; try done; apply entry_opr; try done; tauto.
Qed.

Lemma lui_imm v : in_u 6 v -> u32 (Z.shiftr (sint 32 (sext_imm (v * 2 ^ 12) 18)) 12) = u32 (sint 6 v) /\
  (sext_imm (v * 2 ^ 12) 18 =? 0) = (sint 6 v =? 0).
Proof.
  intros Hv. assert (Hr : in_u 18 (v * 2 ^ 12)) by (unfold in_u in *; lia).
  rewrite sext_imm_spec by (done || lia).
  assert (E : sint 18 (v * 2 ^ 12) = sint 6 v * 2 ^ 12).
  { unfold sint. rewrite !wrap_small by done. unfold in_u in Hv.
    destruct (Z.ltb_spec (v * 2 ^ 12) (2 ^ (18 - 1))), (Z.ltb_spec v (2 ^ (6 - 1))); lia. }
  pose proof (sint_range 6 v ltac:(lia)) as H6. split.
  - rewrite sint_wrap, E, sint_small by lia. by rewrite Z.shiftr_div_pow2, Z.div_mul by lia.
  - rewrite u32_zero, E by lia. destruct (Z.eqb_spec (sint 6 v) 0) as [->|Hn]; [done|]. apply Z.eqb_neq. lia.
Qed.

Lemma even_scatter h l : Forall (fun ds => 0 < ds.1) l -> Z.testbit (scatter h l) 0 = false.
Proof.
  intros Hl. rewrite scatter_bit; [|lia|eapply Forall_impl; [|exact Hl]; cbn; intros; lia].
  induction Hl as [|[d s] l Hd Hl IH]; cbn [existsb fst snd]; [done|]. rewrite IH.
  cbn in Hd. destruct (Z.eqb_spec d 0); [lia|done].
Qed.

Lemma entry_jal xlen64 rd v : in_u 5 rd -> in_u 12 v -> Z.testbit v 0 = false ->
  entry_ok xlen64 (rvc (ENCUJ (Z.land (sext_imm v 12) 0x1FFFFF) rd 0x6F)) (Expand (BJal rd (sint 12 v))).
Proof. intros Hrd Hv Hb. apply entry_expand; [done|]. rewrite sext_imm_spec by (done || lia). by apply dec_jal. Qed.

Lemma entry_branch xlen64 cmp rs1 v : in_u 3 cmp -> in_u 5 rs1 -> in_u 9 v -> Z.testbit v 0 = false ->
  entry_ok xlen64 (rvc (ENCB (Z.land (sext_imm v 9) 0x1FFF) 0 rs1 cmp 0x63)) (Expand (BBranch cmp rs1 0 (sint 9 v))).
Proof. intros Hc Hrs Hv Hb. apply entry_expand; [done|]. rewrite sext_imm_spec by (done || lia). by apply dec_branch. Qed.

Lemma entry_lui xlen64 rd v w : in_u 5 rd -> in_u 6 v -> w = ENCU (u32 (Z.shiftr (sint 32 (sext_imm (v * 2 ^ 12) 18)) 12)) rd 0x37 ->
  entry_ok xlen64 (rvc w) (Expand (BLui rd (sint 6 v))).
Proof.
  intros Hrd Hv ->. apply entry_expand; [done|]. rewrite (proj1 (lui_imm v Hv)). apply dec_lui; [done|].
  pose proof (sint_range 6 v ltac:(lia)). lia.
Qed.

Ltac even := apply even_scatter; repeat constructor; cbn; lia.

Lemma q1_ok xlen64 h : Z.land h 3 = 1 -> entry_ok xlen64 (rvc_q1 xlen64 h (rvc_bits h 15 13)) (rvc_table xlen64 h).
Proof.
  intros Hq. pose proof (rvc_bits_range h 15 13 ltac:(lia)) as Hf. pose proof (misc_alu_ok xlen64 h Hq) as HM.
  revert HM. unfold rvc_table. cbv zeta. rewrite Hq.
  destruct (rcp_range h 9 7 eq_refl) as [E2 R2]. pose proof (reg5 h 11 7 eq_refl) as Rd.
  unfold rvc_q1. cbv zeta. rewrite E2, imm6_scatter, sc_sp16, sc_lui, j_scatter, sc_b.
  assert (H6 : in_u 6 (scatter h [(5,12);(4,6);(3,5);(2,4);(1,3);(0,2)])) by sc_range.
  set (f3 := rvc_bits h 15 13) in *. clearbody f3. switch f3 Hf; intros HM.
  - destruct (Z.eqb_spec (rvc_bits h 11 7) 0) as [E0|E0]; cbn [andb].
    + rewrite E0. rewrite sext_imm_spec, u32_zero by (done || lia).
      destruct (Z.eqb_spec (sint 6 (scatter h [(5,12);(4,6);(3,5);(2,4);(1,3);(0,2)])) 0) as [->|_].
      * apply entry_opi; try range. by left.
      * rewrite <- sext_imm_spec by (done || lia). apply entry_opi; try range; [by left|]. by apply imm12_signed.
    + apply entry_opi; try range; [by left|]. by apply imm12_signed.
  - destruct xlen64; [destruct (rvc_bits h 11 7 =? 0); [done|]|].
    + apply entry_opi; try range; [by left|]. by apply imm12_signed.
    + apply entry_jal; [range|range|even].
  - apply entry_opi; try range; [by left|]. by apply imm12_signed.
  - destruct (Z.eqb_spec (rvc_bits h 11 7) 2) as [E2'|E2'].
    + assert (H10 : in_u 10 (scatter h [(9,12);(4,6);(6,5);(8,4);(7,3);(5,2)])) by sc_range.
      rewrite <- (u32_zero 10), <- sext_imm_spec by (done || lia). destruct (sext_imm _ 10 =? 0); [done|].
      apply entry_opi; try range; [by left|]. by apply imm12_signed.
    + rewrite (proj2 (lui_imm _ H6)).
      destruct (sint 6 _ =? 0) eqn:Ez; [by rewrite !orb_true_r|].
      destruct (Z.eqb_spec (rvc_bits h 11 7) 0) as [E0|E0]; [done|]. cbn [orb]. by apply entry_lui.
  - by apply HM.
  - apply entry_jal; [range|range|even].
  - apply entry_branch; [range|range|range|even].
  - apply entry_branch; [range|range|range|even].
Qed.

Lemma q2_ok xlen64 h : Z.land h 3 = 2 -> entry_ok xlen64 (rvc_q2 xlen64 h (rvc_bits h 15 13)) (rvc_table xlen64 h).
Proof.
  intros Hq. pose proof (rvc_bits_range h 15 13 ltac:(lia)) as Hf.
  unfold rvc_table. cbv zeta. rewrite Hq.
  pose proof (reg5 h 11 7 eq_refl) as Rd. pose proof (reg5 h 6 2 eq_refl) as Rs. pose proof (shamt5 h) as H5.
  unfold rvc_q2. cbv zeta. rewrite imm6_scatter, sc_sp_d, sc_sp_w, sc_sps_d, sc_sps_w.
  assert (H6 : in_u 6 (scatter h [(5,12);(4,6);(3,5);(2,4);(1,3);(0,2)])) by sc_range.
  set (f3 := rvc_bits h 15 13) in *. clearbody f3. switch f3 Hf.
  - destruct (Z.eqb_spec (rvc_bits h 11 7) 0) as [E0|E0].
    + destruct xlen64; [done|]. by destruct (rvc_bit h 12 =? 0).
    + destruct xlen64; [|destruct (Z.eqb_spec (rvc_bit h 12) 0); [|done]];
        apply (entry_shift _ false 1); try done; try (by left); auto.
  - apply entry_load; range.
  - destruct (rvc_bits h 11 7 =? 0); [done|]. apply entry_load; range.
  - destruct xlen64; [destruct (rvc_bits h 11 7 =? 0); [done|]|]; apply entry_load; range.
  - destruct (rvc_bits h 6 2 =? 0), (rvc_bit h 12 =? 0), (rvc_bits h 11 7 =? 0); try done.
    + apply entry_expand; [done|]. apply dec_jalr; range.
    + by apply entry_expand; [|destruct xlen64].
    + apply entry_expand; [done|]. apply dec_jalr; range.
    + apply entry_opr; try range. tauto.
    + apply entry_opr; try range. tauto.
  - apply entry_store; range.
  - apply entry_store; range.
  - destruct xlen64; apply entry_store; range.
Qed.

(** ** The front end *)

(** The words that RV32 leaves to extensions are shifts by 32 and more; the
    decompressor treats them as on RV64. *)
Lemma custom_words xlen64 h : in_u 16 h -> rvc_table xlen64 h = Custom -> xlen64 = false /\ rvc_decompress false h = rvc_decompress true h.
Proof.
  intros Hh H. assert (E16 : Z.land h 0xFFFF = h).
  { change 0xFFFF with (Z.ones 16). rewrite land_ones_wrap by lia. by apply wrap_small. }
  unfold rvc_decompress. rewrite E16. cbv zeta. change (Z.land (Z.shiftr h 13) 7) with (rvc_bits h 15 13).
  unfold rvc_table in H. cbv zeta in H.
  assert (Hc : xlen64 = false /\ ((Z.land h 3 = 1 /\ rvc_bits h 15 13 = 4 /\ (rvc_bits h 11 10 = 0 \/ rvc_bits h 11 10 = 1)) \/ (Z.land h 3 = 2 /\ rvc_bits h 15 13 = 0))).
  { clear Hh E16. destruct xlen64; repeat case_match; try discriminate H; auto 10. }
  destruct Hc as [-> [(-> & -> & [E|E])|(-> & ->)]]; split; try done; unfold rvc_q1, rvc_misc_alu; by rewrite E.
Qed.

(** C11 (refinement): the compressed front end implements the table of the C
    extension, on RV32 and RV64.  A 16-bit word to which the table gives a base
    instruction reaches the pipeline as exactly that instruction, with its
    registers and sign-extended immediate.  A reserved word is rejected, and so
    is a HINT of C.LUI, C.SLLI, C.MV or C.ADD with destination x0, which the
    instruction set defines as having no effect.  The words RV32 leaves to
    extensions, shifts by 32 and more, are treated as on RV64. *)
Theorem rvc_front_end xlen64 h :
  in_u 16 h -> Z.land h 3 <> 3 ->
  match rvc_table xlen64 h with
  | Expand b => exists i, decode xlen64 h = DecInstr i /\ instr_norm i = base_decoded b
  | Reserved | Hint => decode xlen64 h = DecAbort /\ illegal (rvc_decompress xlen64 h) = true
  | Custom => xlen64 = false /\ rvc_decompress xlen64 h = rvc_decompress true h
  end.
Proof.
  intros Hh Hq. pose proof (custom_words xlen64 h Hh) as Hcus.
  assert (E16 : Z.land h 0xFFFF = h).
  { change 0xFFFF with (Z.ones 16). rewrite land_ones_wrap by lia. by apply wrap_small. }
  assert (Hok : entry_ok xlen64 (rvc_decompress xlen64 h) (rvc_table xlen64 h)).
  { unfold rvc_decompress. rewrite E16. destruct (Z.eqb_spec (Z.land h 3) 3); [done|]. cbv zeta.
    change (Z.land (Z.shiftr h 13) 7) with (rvc_bits h 15 13).
    pose proof (q0_ok xlen64 h). pose proof (q1_ok xlen64 h). pose proof (q2_ok xlen64 h).
    assert (Hr : 0 <= Z.land h 3 < 4).
    { change 3 with (Z.ones 2). rewrite Z.land_ones by lia. apply Z.mod_pos_bound. lia. }
    destruct (Z.eqb_spec (Z.land h 3) 0); [auto|]. destruct (Z.eqb_spec (Z.land h 3) 1); [auto|].
    destruct (Z.eqb_spec (Z.land h 3) 2); [auto|lia]. }
  unfold decode. destruct (Z.eqb_spec (Z.land h 3) 3); [done|]. cbn [negb]. rewrite E16. cbv zeta.
  destruct (rvc_table xlen64 h) as [b| | |]; cbn [entry_ok] in Hok; [|by rewrite Hok|by rewrite Hok|].
  - destruct Hok as [-> Hn]. exact Hn.
  - destruct (Hcus eq_refl) as [-> E]. done.
Qed.

Lemma rvc_front_end_witness :
  (* c.addi a0, -1 on RV64 *)
  exists i, decode true 0x157D = DecInstr i /\ instr_norm i = base_decoded (BOpI ALU_ADD false 10 10 (-1)).
Proof.
  exact (rvc_front_end true 0x157D ltac:(vm_compute; split; discriminate || reflexivity) ltac:(vm_compute; discriminate)).
Defined.
