(* ===== verification/Scoreboard.v ===== *)
(** * Scoreboard

    [sim/simx/scoreboard.{h,cpp}]: which registers of which warp wait for a
    writeback.  A trace is an object that the pipeline keeps mutating
    ([suspended] changes while a trace is parked), so the maps hold addresses
    and every operation that follows one takes the current contents of the
    traces ([heap]).  The theorem follows the pipeline's issue, commit, trap
    and trap-return steps in any order: no assertion fires, every busy bit has
    exactly one owner, and an instruction issues only when none of its
    registers waits for a writeback. *)

From stdpp Require Import functions.
From S2P Require Import Prelude Decode.

(** The part of [instr_trace_t] the scoreboard reads. *)
Record instr_trace_t := {
  t_wid : nat; t_wb : bool; t_dst : RegOpd; t_srcs : list RegOpd; t_suspended : bool; t_num_pkts : Z
}.

Record Scoreboard := {
  in_use_regs_ : list (list Z);
  owners_ : gmap Z Z;
  commit_counts_ : gmap Z Z;
  pending_reserve_ : gmap Z Z
}.

Definition rtype_index (t : RegType) : nat :=
  match t with RegNone => 0 | RegInteger => 1 | RegFloat => 2 end.

#[export] Instance RegType_eq_dec : EqDecision RegType.
Proof. solve_decision. Defined.
#[export] Instance RegOpd_eq_dec : EqDecision RegOpd.
Proof. solve_decision. Defined.

(** [RegOpd::id] *)
Definition reg_id_of (r : RegOpd) : Z :=
  if decide (rtype r = RegNone) then 0
  else Z.lor (Z.shiftl (Z.of_nat (rtype_index (rtype r)) - 1) 5) (ridx r).

(** [Scoreboard::get_reg_id], [RegOpd::ID_BITS] being 7. *)
Definition get_reg_id (r : RegOpd) (wid : nat) : Z := Z.lor (u32 (Z.shiftl (Z.of_nat wid) 7)) (reg_id_of r).

(** [in_use_regs_.at(wid).at(type).test(idx)]; the bit set has 32 bits. *)
Definition regs_test (m : list (list Z)) (wid : nat) (r : RegOpd) : option bool :=
  row ← m !! wid; mask ← row !! rtype_index (rtype r);
  if (0 <=? ridx r) && (ridx r <? 32) then Some (Z.testbit mask (ridx r)) else None.

Definition regs_update (f : Z -> Z -> Z) (m : list (list Z)) (wid : nat) (r : RegOpd) : option (list (list Z)) :=
  _ ← regs_test m wid r;
  Some (alter (fun row => alter (fun mask => f mask (ridx r)) (rtype_index (rtype r)) row) wid m).

Abbreviation regs_set := (regs_update Z.setbit).
Abbreviation regs_reset := (regs_update Z.clearbit).

Definition Scoreboard_init (num_warps : nat) : Scoreboard := {|
  in_use_regs_ := replicate num_warps (replicate 3 0);
  owners_ := ∅; commit_counts_ := ∅; pending_reserve_ := ∅ |}.

Definition sb_on_reset (s : Scoreboard) : Scoreboard := {|
  in_use_regs_ := map (fun row => map (fun _ => 0) row) (in_use_regs_ s);
  owners_ := ∅; commit_counts_ := ∅; pending_reserve_ := ∅ |}.

(** The source operands, in order: [true] at the first busy one. *)
Fixpoint srcs_in_use (m : list (list Z)) (wid : nat) (srcs : list RegOpd) : option bool :=
  match srcs with
  | [] => Some false
  | r :: rest =>
      if decide (rtype r = RegNone) then srcs_in_use m wid rest
      else b ← regs_test m wid r; if b : bool then Some true else srcs_in_use m wid rest
  end.

(** [Scoreboard::in_use]; [None] is a failed assertion or an index out of range. *)
Definition in_use (s : Scoreboard) (t : instr_trace_t) : option bool :=
  dst ← (if t_wb t then
           if decide (rtype (t_dst t) = RegNone) then None else regs_test (in_use_regs_ s) (t_wid t) (t_dst t)
         else Some false);
  if dst : bool then Some true else srcs_in_use (in_use_regs_ s) (t_wid t) (t_srcs t).

(** [Scoreboard::get_uses]: the addresses of the traces that own the busy registers of [t]. *)
Definition get_uses (s : Scoreboard) (t : instr_trace_t) : option (list Z) :=
  let owner_of r :=
    b ← regs_test (in_use_regs_ s) (t_wid t) r;
    if b : bool then p ← owners_ s !! get_reg_id r (t_wid t); Some [p] else Some [] in
  dst ← (if t_wb t then if decide (rtype (t_dst t) = RegNone) then None else owner_of (t_dst t) else Some []);
  srcs ← mapM (fun r => if decide (rtype r = RegNone) then Some [] else owner_of r) (t_srcs t);
  Some (dst ++ concat srcs).

(** [Scoreboard::reserve] of the trace [t] at address [p]. *)
Definition reserve (s : Scoreboard) (p : Z) (t : instr_trace_t) : option Scoreboard :=
  let reg_id := get_reg_id (t_dst t) (t_wid t) in
  if negb (t_wb t) then None
  else m ← regs_set (in_use_regs_ s) (t_wid t) (t_dst t);
    match owners_ s !! reg_id with
    | Some _ => None
    | None => Some (s <| in_use_regs_ := m |> <| owners_ := <[reg_id := p]> (owners_ s) |>)
    end.

(** [Scoreboard::release] *)
Definition release (s : Scoreboard) (t : instr_trace_t) : option Scoreboard :=
  let reg_id := get_reg_id (t_dst t) (t_wid t) in
  if negb (t_wb t) then None
  else b ← regs_test (in_use_regs_ s) (t_wid t) (t_dst t);
    if negb b then None
    else match owners_ s !! reg_id with
    | None => None
    | Some _ =>
        let s := s <| owners_ := delete reg_id (owners_ s) |> <| commit_counts_ := delete reg_id (commit_counts_ s) |> in
        match pending_reserve_ s !! reg_id with
        | Some p => Some (s <| owners_ := <[reg_id := p]> (owners_ s) |>
                            <| pending_reserve_ := delete reg_id (pending_reserve_ s) |>)
        | None => m ← regs_reset (in_use_regs_ s) (t_wid t) (t_dst t); Some (s <| in_use_regs_ := m |>)
        end
    end.

(** [Scoreboard::commit_packet] *)
Definition commit_packet (s : Scoreboard) (t : instr_trace_t) : Scoreboard * bool :=
  let reg_id := get_reg_id (t_dst t) (t_wid t) in
  let n := u32 (default 0 (commit_counts_ s !! reg_id) + 1) in
  (s <| commit_counts_ := <[reg_id := n]> (commit_counts_ s) |>, n >=? t_num_pkts t).

Section Traces.
Context (heap : Z -> instr_trace_t).

(** One entry of the loop of [snapshot_warp]. *)
Definition snapshot_entry (wid : nat) (acc : option (Scoreboard * list Z)) (e : Z * Z) : option (Scoreboard * list Z) :=
  '(s, out) ← acc;
  let '(reg_id, p) := e in
  let t := heap p in
  if bool_decide (t_wid t = wid) && t_suspended t then
    m ← regs_reset (in_use_regs_ s) wid (t_dst t);
    Some (s <| in_use_regs_ := m |> <| commit_counts_ := delete reg_id (commit_counts_ s) |>
            <| owners_ := delete reg_id (owners_ s) |>, out ++ [p])
  else Some (s, out).

(** [Scoreboard::snapshot_warp]; the hash map is walked in the order of [map_to_list]. *)
Definition snapshot_warp (s : Scoreboard) (wid : nat) : option (Scoreboard * list Z) :=
  fold_left (snapshot_entry wid) (map_to_list (owners_ s)) (Some (s, [])).

(** One entry of the loop of [restore_warp]. *)
Definition restore_entry (acc : option Scoreboard) (p : Z) : option Scoreboard :=
  s ← acc;
  let t := heap p in
  let reg_id := get_reg_id (t_dst t) (t_wid t) in
  match owners_ s !! reg_id with
  | None => m ← regs_set (in_use_regs_ s) (t_wid t) (t_dst t);
      Some (s <| in_use_regs_ := m |> <| owners_ := <[reg_id := p]> (owners_ s) |>)
  | Some _ => Some (s <| pending_reserve_ := <[reg_id := p]> (pending_reserve_ s) |>)
  end.

Definition restore_warp (s : Scoreboard) (snapshot : list Z) : option Scoreboard :=
  fold_left restore_entry snapshot (Some s).

End Traces.

(** The part of [Core::issue] that meets the scoreboard: stall, or reserve the
    destination; the flag says whether the instruction issued. *)
Definition issue_trace (s : Scoreboard) (p : Z) (t : instr_trace_t) : option (Scoreboard * bool) :=
  b ← in_use s t;
  if b : bool then Some (s, false)
  else if t_wb t then s' ← reserve s p t; Some (s', true) else Some (s, true).

(** The part of [Core::commit] that meets the scoreboard, for one packet. *)
Definition commit_trace (s : Scoreboard) (t : instr_trace_t) : option Scoreboard :=
  if t_wb t then
    let '(s, done) := commit_packet s t in
    if done then release s t else Some s
  else Some s.

(** ** Bit sets and register numbers *)

Section Registers.
Context (num_warps : nat).

Definition reg_ok (w : nat) (r : RegOpd) : Prop :=
  (w < num_warps)%nat /\ rtype r <> RegNone /\ 0 <= ridx r < 32.

Lemma reg_id_val r : rtype r <> RegNone -> 0 <= ridx r < 32 ->
  reg_id_of r = 32 * (Z.of_nat (rtype_index (rtype r)) - 1) + ridx r.
Proof.
  intros Hr Hi. unfold reg_id_of. rewrite decide_False by done.
  set (q := Z.of_nat (rtype_index (rtype r)) - 1). assert (0 <= q) by (subst q; destruct (rtype r); cbn; (done || lia)).
  rewrite lor_add_disjoint, Z.shiftl_mul_pow2 by lia || (apply Z.bits_inj'; intros i Hge;
    rewrite Z.land_spec, Z.shiftl_spec, Z.bits_0 by lia; destruct (Z.lt_ge_cases i 5);
    [rewrite Z.testbit_neg_r by lia; done | rewrite (testbit_in_u 5 (ridx r)) by (unfold in_u; lia); apply andb_false_r]).
  lia.
Qed.

Lemma get_reg_id_val w r : Z.of_nat num_warps <= 2 ^ 24 -> reg_ok w r ->
  get_reg_id r w = 128 * Z.of_nat w + (32 * (Z.of_nat (rtype_index (rtype r)) - 1) + ridx r).
Proof.
  intros Hn (Hw & Hr & Hi). unfold get_reg_id. rewrite (reg_id_val r Hr Hi).
  set (v := 32 * _ + _). assert (0 <= v < 2 ^ 7) by (subst v; destruct (rtype r); cbn; (done || lia)).
  rewrite wrap_small by (unfold in_u; rewrite Z.shiftl_mul_pow2; lia).
  rewrite lor_add_disjoint, Z.shiftl_mul_pow2 by lia || (apply Z.bits_inj'; intros i Hge;
    rewrite Z.land_spec, Z.shiftl_spec, Z.bits_0 by lia; destruct (Z.lt_ge_cases i 7);
    [rewrite Z.testbit_neg_r by lia; done | rewrite (testbit_in_u 7 v) by (unfold in_u; lia); apply andb_false_r]).
  lia.
Qed.

Lemma get_reg_id_inj w r w' r' : Z.of_nat num_warps <= 2 ^ 24 -> reg_ok w r -> reg_ok w' r' ->
  get_reg_id r w = get_reg_id r' w' -> w = w' /\ r = r'.
Proof.
  intros Hn H H'. rewrite !get_reg_id_val by done. destruct H as (? & ? & ?), H' as (? & ? & ?).
  destruct r as [[] i], r' as [[] i']; cbn in *; try done; intros E;
    (assert (w = w') by lia; assert (i = i') by lia; subst; done) || lia.
Qed.

Lemma regs_update_test f b m w r m' w' r' : (forall x i j, 0 <= i -> 0 <= j ->
    Z.testbit (f x i) j = if j =? i then b else Z.testbit x j) ->
  0 <= ridx r' -> regs_update f m w r = Some m' ->
  regs_test m' w' r' = if decide (w' = w /\ r' = r) then Some b else regs_test m w' r'.
Proof.
  intros Hf Hi'. unfold regs_update, regs_test. destruct (m !! w) as [row|] eqn:Ew; [|done]. cbn.
  destruct (row !! rtype_index (rtype r)) as [mask|] eqn:Er; [|done]. cbn.
  destruct ((0 <=? ridx r) && (ridx r <? 32)) eqn:Ei; [|done]. cbn. intros [= <-]. bool_hyps.
  destruct (decide (w' = w)) as [->|Hw].
  2: { rewrite list_lookup_alter_ne by done. rewrite decide_False by tauto. done. }
  rewrite list_lookup_alter_eq, Ew. cbn.
  destruct (decide (rtype_index (rtype r') = rtype_index (rtype r))) as [Et|Et].
  2: { rewrite list_lookup_alter_ne by done. rewrite decide_False by (intros [_ ->]; done). done. }
  rewrite Et, list_lookup_alter_eq, Er. cbn.
  rewrite Hf by lia. destruct r as [ty i], r' as [ty' i']; cbn in *.
  assert (ty' = ty) as -> by (destruct ty, ty'; cbn in Et; (done || lia)).
  destruct (Z.eqb_spec i' i) as [->|Hne].
  - rewrite decide_True by done. rewrite (proj2 (Z.leb_le 0 i)), (proj2 (Z.ltb_lt i 32)) by lia. done.
  - rewrite decide_False by (intros [_ [=]]; done). done.
Qed.

Lemma regs_set_test m w r m' w' r' : 0 <= ridx r' -> regs_set m w r = Some m' ->
  regs_test m' w' r' = if decide (w' = w /\ r' = r) then Some true else regs_test m w' r'.
Proof.
  apply regs_update_test. intros x i j Hi Hj. rewrite Z.setbit_eqb by lia.
  destruct (Z.eqb_spec i j), (Z.eqb_spec j i); subst; done || lia.
Qed.

Lemma regs_reset_test m w r m' w' r' : 0 <= ridx r' -> regs_reset m w r = Some m' ->
  regs_test m' w' r' = if decide (w' = w /\ r' = r) then Some false else regs_test m w' r'.
Proof.
  apply regs_update_test. intros x i j Hi Hj. rewrite Z.clearbit_eqb by lia.
  destruct (Z.eqb_spec i j), (Z.eqb_spec j i); subst; cbn; try lia; destruct (Z.testbit x j); done.
Qed.

Lemma regs_update_defined f m w r b : regs_test m w r = Some b -> exists m', regs_update f m w r = Some m'.
Proof. intros H. unfold regs_update. rewrite H. cbn. eauto. Qed.

End Registers.

(** ** The pipeline around the scoreboard *)

Record sb_sys := { sys_sb : Scoreboard; sys_heap : Z -> instr_trace_t; sys_saved : nat -> list Z }.

Inductive sb_event :=
| EvIssue (p : Z) (t : instr_trace_t)
| EvCommit (p : Z)
| EvPark (p : Z) (suspended : bool)
| EvTrap (wid : nat)
| EvMret (wid : nat).

Definition sys_init (num_warps : nat) (heap : Z -> instr_trace_t) : sb_sys :=
  {| sys_sb := Scoreboard_init num_warps; sys_heap := heap; sys_saved := fun _ => [] |}.

(** One event; [None] is a failed assertion or an index out of range. *)
Definition sb_exec (y : sb_sys) (e : sb_event) : option sb_sys :=
  match e with
  | EvIssue p t => '(s, issued) ← issue_trace (sys_sb y) p t;
      Some {| sys_sb := s; sys_heap := (if issued : bool then <[p := t]> (sys_heap y) else sys_heap y);
              sys_saved := sys_saved y |}
  | EvCommit p => s ← commit_trace (sys_sb y) (sys_heap y p);
      Some {| sys_sb := s; sys_heap := sys_heap y; sys_saved := sys_saved y |}
  | EvPark p b => Some {| sys_sb := sys_sb y; sys_heap := <[p := (sys_heap y p) <| t_suspended := b |>]> (sys_heap y);
                          sys_saved := sys_saved y |}
  | EvTrap w => '(s, out) ← snapshot_warp (sys_heap y) (sys_sb y) w;
      Some {| sys_sb := s; sys_heap := sys_heap y; sys_saved := <[w := out]> (sys_saved y) |}
  | EvMret w => s ← restore_warp (sys_heap y) (sys_sb y) (sys_saved y w);
      Some {| sys_sb := s; sys_heap := sys_heap y; sys_saved := <[w := []]> (sys_saved y) |}
  end.

Section Safety.
Context (num_warps : nat) (Hnw : Z.of_nat num_warps <= 2 ^ 24).
#[local] Set Default Proof Using "Type*".

Definition key (t : instr_trace_t) : Z := get_reg_id (t_dst t) (t_wid t).

(** A decoded trace: its operands exist, and [wb] says that it has a destination. *)
Definition trace_ok (t : instr_trace_t) : Prop :=
  (t_wb t = true -> reg_ok num_warps (t_wid t) (t_dst t)) /\
  (forall r, r ∈ t_srcs t -> rtype r <> RegNone -> reg_ok num_warps (t_wid t) r) /\
  1 <= t_num_pkts t < 2 ^ 32.

(** A trace that holds a reservation. *)
Definition holder_ok (t : instr_trace_t) : Prop :=
  t_wb t = true /\ reg_ok num_warps (t_wid t) (t_dst t) /\ 1 <= t_num_pkts t < 2 ^ 32.

(** An address the pipeline has not handed out. *)
Definition unused_ptr (y : sb_sys) (p : Z) : Prop :=
  (forall k, owners_ (sys_sb y) !! k <> Some p) /\ (forall k, pending_reserve_ (sys_sb y) !! k <> Some p) /\
  (forall w, p ∉ sys_saved y w).

(** What the pipeline guarantees of an event: traces are decoded, allocated at
    fresh addresses, and only an instruction that holds its reservation commits. *)
Definition sb_enabled (y : sb_sys) (e : sb_event) : Prop :=
  match e with
  | EvIssue p t => trace_ok t /\ unused_ptr y p
  | EvCommit p => owners_ (sys_sb y) !! key (sys_heap y p) = Some p
  | _ => True
  end.

Inductive sb_reach (heap : Z -> instr_trace_t) : sb_sys -> Prop :=
| sbr_init : sb_reach heap (sys_init num_warps heap)
| sbr_step y e y' : sb_reach heap y -> sb_enabled y e -> sb_exec y e = Some y' -> sb_reach heap y'.

Record sb_inv (heap : Z -> instr_trace_t) (s : Scoreboard) : Prop := {
  inv_busy w r : reg_ok num_warps w r ->
    regs_test (in_use_regs_ s) w r = Some (bool_decide (is_Some (owners_ s !! get_reg_id r w)));
  inv_own k p : owners_ s !! k = Some p -> holder_ok (heap p) /\ k = key (heap p);
  inv_pend k p : pending_reserve_ s !! k = Some p -> holder_ok (heap p) /\ k = key (heap p);
  inv_cnt k c : commit_counts_ s !! k = Some c ->
    exists p, owners_ s !! k = Some p /\ 0 < c < t_num_pkts (heap p)
}.

Definition sys_inv (y : sb_sys) : Prop :=
  sb_inv (sys_heap y) (sys_sb y) /\ forall w p, p ∈ sys_saved y w -> holder_ok (sys_heap y p).

Lemma key_eq w r t : reg_ok num_warps w r -> holder_ok t -> get_reg_id r w = key t -> w = t_wid t /\ r = t_dst t.
Proof. intros Hr (_ & Ht & _). by apply (get_reg_id_inj num_warps). Qed.

(** Taking a free register. *)
Lemma own_inv heap s p m : sb_inv heap s -> holder_ok (heap p) -> owners_ s !! key (heap p) = None ->
  regs_set (in_use_regs_ s) (t_wid (heap p)) (t_dst (heap p)) = Some m ->
  sb_inv heap (s <| in_use_regs_ := m |> <| owners_ := <[key (heap p) := p]> (owners_ s) |>).
Proof.
  intros HI Hp Hfree Hm. constructor; rproj.
  - intros w r Hr. rewrite (regs_set_test _ _ _ _ _ _ (proj1 (proj2 (proj2 Hr))) Hm).
    destruct (decide (w = _ /\ r = _)) as [[-> ->]|Hne].
    + fold (key (heap p)). by rewrite lookup_insert_eq.
    + rewrite (inv_busy heap s HI w r Hr). rewrite lookup_insert_ne; [done|].
      intros E. apply Hne. by apply (key_eq w r (heap p)).
  - intros k q. destruct (decide (k = key (heap p))) as [->|Hne].
    + rewrite lookup_insert_eq. by intros [= <-].
    + rewrite lookup_insert_ne by done. apply HI.
  - apply HI.
  - intros k c Hc. destruct (inv_cnt heap s HI k c Hc) as (q & Hq & Hr).
    exists q. split; [|done]. rewrite lookup_insert_ne; [done|]. intros <-. congruence.
Qed.

(** Giving a register back. *)
Lemma disown_inv heap s t m : sb_inv heap s -> holder_ok t ->
  regs_reset (in_use_regs_ s) (t_wid t) (t_dst t) = Some m ->
  sb_inv heap (s <| in_use_regs_ := m |> <| owners_ := delete (key t) (owners_ s) |>
                 <| commit_counts_ := delete (key t) (commit_counts_ s) |>).
Proof.
  intros HI Ht Hm. constructor; rproj.
  - intros w r Hr. rewrite (regs_reset_test _ _ _ _ _ _ (proj1 (proj2 (proj2 Hr))) Hm).
    destruct (decide (w = _ /\ r = _)) as [[-> ->]|Hne].
    + fold (key t). by rewrite lookup_delete_eq.
    + rewrite (inv_busy heap s HI w r Hr). rewrite lookup_delete_ne; [done|].
      intros E. apply Hne. by apply (key_eq w r t).
  - intros k q Hk. apply lookup_delete_Some in Hk as [_ Hk]. by apply HI in Hk.
  - apply HI.
  - intros k c Hk. apply lookup_delete_Some in Hk as [Hne Hk].
    destruct (inv_cnt heap s HI k c Hk) as (q & Hq & Hr). exists q. by rewrite lookup_delete_ne.
Qed.

Lemma srcs_in_use_spec heap s t : sb_inv heap s ->
  (forall r, r ∈ t_srcs t -> rtype r <> RegNone -> reg_ok num_warps (t_wid t) r) ->
  exists b, srcs_in_use (in_use_regs_ s) (t_wid t) (t_srcs t) = Some b /\
    (b = false <-> forall r, r ∈ t_srcs t -> rtype r <> RegNone -> owners_ s !! get_reg_id r (t_wid t) = None).
Proof.
  intros HI. induction (t_srcs t) as [|r l IH]; intros Hok; cbn.
  { exists false. split; [done|]. split; [|done]. intros _ r H. by apply not_elem_of_nil in H. }
  destruct IH as (b & Hb & Hiff); [intros; apply Hok; [by right|done]|].
  destruct (decide (rtype r = RegNone)) as [En|En].
  { exists b. rewrite Hb, Hiff. split; [done|]. split; intros H r' Hr'; [|apply H; by right].
    apply elem_of_cons in Hr' as [->|Hr']; [done|by apply H]. }
  rewrite (inv_busy heap s HI _ r) by (apply Hok; [by left|done]). cbn.
  case_bool_decide as Eo.
  - exists true. split; [done|]. split; [done|]. intros H. exfalso.
    rewrite (H r ltac:(by left) En) in Eo. by destruct Eo.
  - exists b. rewrite Hb, Hiff. split; [done|]. apply eq_None_not_Some in Eo.
    split; intros H r' Hr'; [|apply H; by right].
    apply elem_of_cons in Hr' as [->|Hr']; [done|by apply H].
Qed.

(** The hazard test answers whether any register of the trace is owned. *)
Lemma in_use_spec heap s t : sb_inv heap s -> trace_ok t ->
  exists b, in_use s t = Some b /\
    (b = false <-> (t_wb t = true -> owners_ s !! key t = None) /\
       forall r, r ∈ t_srcs t -> rtype r <> RegNone -> owners_ s !! get_reg_id r (t_wid t) = None).
Proof.
  intros HI (Hd & Hs & _). destruct (srcs_in_use_spec heap s t HI Hs) as (b & Hb & Hiff).
  unfold in_use. rewrite Hb. destruct (t_wb t) eqn:Ewb; cbn.
  2: { exists b. split; [done|]. rewrite Hiff. naive_solver. }
  specialize (Hd eq_refl). rewrite decide_False by apply Hd.
  rewrite (inv_busy heap s HI _ _ Hd). cbn. fold (key t). case_bool_decide as Eo.
  - exists true. split; [done|]. split; [done|]. intros [H _]. rewrite H in Eo by done. by destruct Eo.
  - exists b. split; [done|]. apply eq_None_not_Some in Eo. rewrite Hiff. naive_solver.
Qed.

Lemma holder_busy heap s p : sb_inv heap s -> owners_ s !! key (heap p) = Some p -> holder_ok (heap p) ->
  regs_test (in_use_regs_ s) (t_wid (heap p)) (t_dst (heap p)) = Some true.
Proof. intros HI Hp (_ & Hr & _). rewrite (inv_busy heap s HI _ _ Hr). fold (key (heap p)). by rewrite Hp. Qed.

Lemma reserve_ok heap s p : sb_inv heap s -> holder_ok (heap p) -> owners_ s !! key (heap p) = None ->
  exists s', reserve s p (heap p) = Some s' /\ sb_inv heap s'.
Proof.
  intros HI Hp Hfree. unfold reserve. fold (key (heap p)). rewrite Hfree.
  destruct Hp as (Hwb & Hr & Hn) eqn:E. rewrite Hwb. cbn.
  destruct (regs_update_defined Z.setbit _ _ _ _ (inv_busy heap s HI _ _ Hr)) as [m Hm].
  rewrite Hm. cbn. eexists. split; [done|]. by apply own_inv.
Qed.

(** Handing the register to a deferred reservation, or freeing it. *)
Lemma release_ok heap s p : sb_inv heap s -> owners_ s !! key (heap p) = Some p ->
  exists s', release s (heap p) = Some s' /\ sb_inv heap s'.
Proof.
  intros HI Hp. destruct (inv_own heap s HI _ _ Hp) as [Hh _].
  pose proof (holder_busy heap s p HI Hp Hh) as Hb. unfold release. fold (key (heap p)).
  rewrite (proj1 Hh), Hb. cbn. rewrite Hp. rproj.
  destruct (pending_reserve_ s !! key (heap p)) as [q|] eqn:Eq.
  - eexists. split; [done|]. destruct (inv_pend heap s HI _ _ Eq) as [Hq Ek].
    constructor; rproj.
    + intros w r Hr. rewrite (inv_busy heap s HI w r Hr), insert_delete_eq.
      destruct (decide (key (heap p) = get_reg_id r w)) as [E|E].
      * rewrite <- E, lookup_insert_eq, Hp. done.
      * by rewrite lookup_insert_ne.
    + intros k x. rewrite insert_delete_eq. destruct (decide (k = key (heap p))) as [->|E].
      * rewrite lookup_insert_eq. intros [= <-]. done.
      * rewrite lookup_insert_ne by done. apply HI.
    + intros k x Hx. apply lookup_delete_Some in Hx as [_ Hx]. by apply HI in Hx.
    + intros k c Hc. apply lookup_delete_Some in Hc as [E Hc].
      destruct (inv_cnt heap s HI _ _ Hc) as (x & Hx & ?). exists x.
      by rewrite insert_delete_eq, lookup_insert_ne.
  - destruct (regs_update_defined Z.clearbit _ _ _ _ Hb) as [m Hm]. rewrite Hm. cbn.
    eexists. split; [done|]. by apply (disown_inv heap s (heap p) m HI Hh Hm).
Qed.

(** Only the entry of the register itself is erased. *)
Lemma release_counts s t :
  release s t = release (s <| commit_counts_ := delete (key t) (commit_counts_ s) |>) t.
Proof. unfold release. fold (key t). rproj. by rewrite delete_delete_eq. Qed.

Lemma counts_inv heap s p c : sb_inv heap s -> owners_ s !! key (heap p) = Some p ->
  (forall n, c = Some n -> 0 < n < t_num_pkts (heap p)) ->
  sb_inv heap (s <| commit_counts_ := partial_alter (fun _ => c) (key (heap p)) (commit_counts_ s) |>).
Proof.
  intros HI Hp Hc. constructor; rproj; try apply HI. intros k n Hn.
  destruct (decide (k = key (heap p))) as [->|E].
  - rewrite lookup_partial_alter_eq in Hn. eauto.
  - rewrite lookup_partial_alter_ne in Hn by done. by apply HI.
Qed.

Lemma commit_ok heap s p : sb_inv heap s -> owners_ s !! key (heap p) = Some p ->
  exists s', commit_trace s (heap p) = Some s' /\ sb_inv heap s'.
Proof.
  intros HI Hp. destruct (inv_own heap s HI _ _ Hp) as [(Hwb & Hr & Hn) _].
  assert (Hc : 0 <= default 0 (commit_counts_ s !! key (heap p)) < t_num_pkts (heap p)).
  { destruct (commit_counts_ s !! key (heap p)) as [c|] eqn:Ec; cbn; [|lia].
    destruct (inv_cnt heap s HI _ _ Ec) as (q & Hq & ?). rewrite Hp in Hq. injection Hq as <-. lia. }
  unfold commit_trace, commit_packet. fold (key (heap p)). rewrite Hwb.
  rewrite wrap_small by (unfold in_u; lia). set (n := default 0 _ + 1) in *.
  destruct (Z.geb_spec n (t_num_pkts (heap p))).
  - rewrite release_counts. apply release_ok; rproj; [|done]. rewrite delete_insert_eq.
    by apply (counts_inv heap s p None).
  - eexists. split; [done|]. apply (counts_inv heap s p (Some n)); [done..|]. intros ? [= <-]. lia.
Qed.

(** Lifting the reservations of the parked traces of one warp. *)
Lemma snapshot_ok heap w l : forall s out, sb_inv heap s ->
  Forall (fun e => owners_ s !! e.1 = Some e.2) l -> NoDup l.*1 ->
  (forall p, p ∈ out -> holder_ok (heap p)) ->
  exists s' out', fold_left (snapshot_entry heap w) l (Some (s, out)) = Some (s', out') /\
    sb_inv heap s' /\ (forall p, p ∈ out' -> holder_ok (heap p)).
Proof.
  induction l as [|[k p] l IH]; intros s out HI Hl Hd Hout; cbn; [by eauto|].
  apply Forall_cons_1 in Hl as [Hk Hl]. cbn in Hk. apply list.NoDup_cons in Hd as [Hk' Hd].
  destruct (inv_own heap s HI _ _ Hk) as [Hp ->].
  case_bool_decide as Ew; cbn [andb]; [|by apply IH].
  destruct (t_suspended (heap p)); [|by apply IH].
  destruct (regs_update_defined Z.clearbit _ _ _ _ (holder_busy heap s p HI Hk Hp)) as [m Hm].
  rewrite <- Ew, Hm. cbn. rewrite Ew. apply IH; rproj.
  - by apply (disown_inv heap s (heap p) m HI Hp Hm).
  - apply Forall_forall. intros e He. rewrite lookup_delete_ne; [by apply (proj1 (Forall_forall _ _) Hl)|].
    intros E. apply Hk'. rewrite E. apply list_elem_of_fmap. exists e. by rewrite list_elem_of_In.
  - done.
  - intros q Hq. apply elem_of_app in Hq as [Hq|Hq]; [by apply Hout|]. apply list_elem_of_singleton in Hq. by subst.
Qed.

Lemma restore_ok heap l : forall s, sb_inv heap s -> (forall p, p ∈ l -> holder_ok (heap p)) ->
  exists s', fold_left (restore_entry heap) l (Some s) = Some s' /\ sb_inv heap s'.
Proof.
  induction l as [|p l IH]; intros s HI Hl; cbn; [by eauto|].
  assert (Hp : holder_ok (heap p)) by (apply Hl; by left).
  fold (key (heap p)). destruct (owners_ s !! key (heap p)) eqn:Eo.
  - apply IH; [|intros; apply Hl; by right]. constructor; rproj; try apply HI.
    intros k q. destruct (decide (k = key (heap p))) as [->|E].
    + rewrite lookup_insert_eq. by intros [= <-].
    + rewrite lookup_insert_ne by done. apply HI.
  - destruct (regs_update_defined Z.setbit _ _ _ _ (inv_busy heap s HI _ _ (proj1 (proj2 Hp)))) as [m Hm].
    rewrite Hm. cbn. apply IH; [by apply own_inv|intros; apply Hl; by right].
Qed.

(** Changing a trace nobody refers to, or only its [suspended] flag, keeps the invariant. *)
Lemma heap_inv heap heap' s : sb_inv heap s ->
  (forall k p, owners_ s !! k = Some p \/ pending_reserve_ s !! k = Some p ->
     exists b, heap' p = (heap p) <| t_suspended := b |>) ->
  sb_inv heap' s.
Proof.
  intros HI Hh. constructor; [apply HI|..]; intros k x Hx.
  - destruct (Hh k x (or_introl Hx)) as [b ->]. by apply (inv_own heap s HI k x).
  - destruct (Hh k x (or_intror Hx)) as [b ->]. by apply (inv_pend heap s HI k x).
  - destruct (inv_cnt heap s HI k x Hx) as (p & Hp & Hr). exists p.
    destruct (Hh k p (or_introl Hp)) as [b ->]. done.
Qed.

Lemma suspended_id t : t = t <| t_suspended := t_suspended t |>.
Proof. by destruct t. Qed.

Lemma exec_inv y e : sys_inv y -> sb_enabled y e -> exists y', sb_exec y e = Some y' /\ sys_inv y'.
Proof.
  intros [HI HS] He. destruct e as [p t|p|p b|w|w]; cbn in *.
  - destruct He as [Ht (Hu1 & Hu2 & Hu3)].
    assert (HI' : sb_inv (<[p := t]> (sys_heap y)) (sys_sb y)).
    { eapply heap_inv; [exact HI|]. intros k q Hq. rewrite fn_lookup_insert_ne; [eexists; apply suspended_id|].
      intros ->. by destruct Hq; [eapply Hu1|eapply Hu2]. }
    assert (HS' : forall w q, q ∈ sys_saved y w -> holder_ok (<[p := t]> (sys_heap y) q)).
    { intros w q Hq. rewrite fn_lookup_insert_ne; [by eapply HS|]. intros ->. by eapply Hu3. }
    unfold issue_trace. destruct (in_use_spec _ _ t HI Ht) as (b & -> & Hb). cbn.
    destruct b; [by eexists|]. destruct (proj1 Hb eq_refl) as [Hfree _].
    destruct (t_wb t) eqn:Ewb; [|by eexists].
    destruct (reserve_ok _ _ p HI') as (s' & Hs' & HI''); rewrite ?fn_lookup_insert in *.
    { split; [done|]. destruct Ht as (Ht & _ & ?). split; [by apply Ht|done]. } { by apply Hfree. }
    rewrite Hs'. by eexists.
  - destruct (commit_ok _ _ p HI He) as (s' & -> & HI'). by eexists.
  - eexists. split; [done|]. split; cbn.
    + eapply heap_inv; [exact HI|]. intros k q _. destruct (decide (p = q)) as [->|E].
      * rewrite fn_lookup_insert. by eexists.
      * rewrite fn_lookup_insert_ne by done. eexists. apply suspended_id.
    + intros w q Hq. destruct (decide (p = q)) as [->|E].
      * rewrite fn_lookup_insert. by apply (HS w q).
      * rewrite fn_lookup_insert_ne by done. by eapply HS.
  - destruct (snapshot_ok (sys_heap y) w (map_to_list (owners_ (sys_sb y))) (sys_sb y) [])
      as (s' & out & Hf & HI' & Hout); [done| |apply NoDup_fst_map_to_list|by intros ? ?%not_elem_of_nil|].
    { apply Forall_forall. intros [k p]. rewrite <- list_elem_of_In. by rewrite elem_of_map_to_list. }
    unfold snapshot_warp. rewrite Hf. cbn. eexists. split; [done|]. split; [done|]. cbn.
    intros w' q. destruct (decide (w = w')) as [->|E]; [rewrite fn_lookup_insert; apply Hout|].
    rewrite fn_lookup_insert_ne by done. apply HS.
  - destruct (restore_ok (sys_heap y) (sys_saved y w) (sys_sb y) HI (HS w)) as (s' & Hf & HI').
    unfold restore_warp. rewrite Hf. cbn. eexists. split; [done|]. split; [done|]. cbn.
    intros w' q. destruct (decide (w = w')) as [->|E]; [by rewrite fn_lookup_insert; intros ?%not_elem_of_nil|].
    rewrite fn_lookup_insert_ne by done. apply HS.
Qed.

Lemma sb_init_inv heap : sys_inv (sys_init num_warps heap).
Proof.
  split; [|by intros ? ? ?%not_elem_of_nil]. constructor; cbn; try done.
  intros w r (Hw & Hr & Hi). unfold regs_test. rewrite lookup_replicate_2 by done. cbn.
  rewrite (proj2 (Z.leb_le 0 (ridx r))), (proj2 (Z.ltb_lt (ridx r) 32)) by lia.
  rewrite lookup_empty. destruct (rtype r); cbn; by rewrite Z.bits_0.
Qed.

Lemma sb_reach_inv heap y : sb_reach heap y -> sys_inv y.
Proof.
  induction 1 as [|y e y' _ IH He Hx]; [apply sb_init_inv|].
  destruct (exec_inv y e IH He) as (y'' & Hy & H). rewrite Hx in Hy. by injection Hy as ->.
Qed.


End Safety.

(** A two-packet load of [x5] on warp 1, parked, lifted by a trap, restored and
    committed. *)
Module SbDemo.

Definition ld : instr_trace_t := {|
  t_wid := 1; t_wb := true; t_dst := xreg 5; t_srcs := [xreg 6; no_reg; no_reg]; t_suspended := false; t_num_pkts := 2 |}.

Definition evs : list sb_event := [EvIssue 100 ld; EvCommit 100; EvPark 100 true; EvTrap 1; EvMret 1].

Definition st (n : nat) : sb_sys :=
  fold_left (fun y e => default y (sb_exec y e)) (take n evs) (sys_init 4 (fun _ => ld)).

Lemma ld_ok : trace_ok 4 ld.
Proof.
  split; [intros _; repeat split; cbn; (lia || done)|]. split; [|cbn; lia].
  intros r Hr Hn. cbn in Hr. rewrite !elem_of_cons in Hr.
  destruct Hr as [->|[->|[->|Hr]]]; [|done|done|by apply not_elem_of_nil in Hr].
  repeat split; cbn; (lia || done).
Qed.


End SbDemo.
