(* ===== verification/Sched.v ===== *)
(** * Warp scheduler

    [sim/simx/scheduler.{h,cpp}] without the fragment work distributor: the
    warps of a core, which of them are active and stalled, how CTAs and
    [wspawn] activate them, how one is picked per cycle, and the machine-mode
    traps.  The scheduler drives the CTA dispatcher of [CtaDispatcher] and, on
    a trap return, the scoreboard of [Scoreboard].  A failed assertion or an
    index out of range is [None]. *)

From S2P Require Import Prelude Kmu CtaDispatcher Decode Scoreboard.

(** [BitVector] and [std::bitset] as lists of bits. *)
Definition test (m : list bool) (i : nat) : bool := default false (m !! i).
Definition any (m : list bool) : bool := existsb id m.
Definition count (m : list bool) : nat := length (filter (fun b => b = true) m).
Definition zeros (n : nat) : list bool := replicate n false.

Record ipdom_entry_t := { orig_tmask : list bool; else_PC : Z; fallthrough : bool }.

Record cta_csrs_t := {
  cs_cta_id : Z; cs_cta_rank : Z; cs_cta_size : Z;
  cs_thread_idx : vec3; cs_block_idx : vec3; cs_block_dim : vec3; cs_grid_dim : vec3;
  cs_entry : Z; cs_lmem_addr : Z; cs_cluster_size : Z
}.

(** [cta_csrs_t::cta_csrs_t] *)
Definition cta_csrs_init : cta_csrs_t := {|
  cs_cta_id := 0; cs_cta_rank := 0; cs_cta_size := 0;
  cs_thread_idx := zero3; cs_block_idx := zero3; cs_block_dim := Vec3 1 1 1; cs_grid_dim := Vec3 1 1 1;
  cs_entry := 0; cs_lmem_addr := 0; cs_cluster_size := 1 |}.

(** [warp_t]; the register files live in the operand collector. *)
Record warp_t := {
  ipdom_stack : list ipdom_entry_t;   (* top first *)
  w_tmask : list bool; w_PC : Z; fcsr : Z; w_uuid : Z; mscratch : Z;
  mstatus : Z; mtvec : Z; mepc : Z; mcause : Z; mtval : Z; mscratch_tmask : list bool;
  cta_csrs : cta_csrs_t
}.

Record wspawn_t := { ws_valid : bool; ws_num_warps : Z; ws_nextPC : Z }.

Record Scheduler := {
  cta_dispatcher_ : CtaDispatcher;
  warps_ : list warp_t;
  active_warps_ : list bool;
  stalled_warps_ : list bool;
  stalled_warps_next_ : list bool;
  in_async_trap_ : list bool;
  trap_epoch_ : list Z;
  last_mret_cycle_ : list Z;
  async_trap_snapshot_ : list (list Z);
  ipdom_size_ : nat;
  wspawn_ : wspawn_t
}.

(** The header of a trace as [schedule] fills it. *)
Record sched_trace := { st_uuid : Z; st_cid : Z; st_wid : nat; st_cta_id : Z; st_PC : Z; st_tmask : list bool; st_trap_epoch : Z }.

Definition TRAP_CAUSE_BREAKPOINT : Z := 3.
Definition TRAP_CAUSE_ECALL_MMODE : Z := 11.

Section Scheduler.
Context (XLEN MEM_BLOCK_SIZE : Z) (num_warps num_threads : nat) (core_id : Z).
Context {K : Type} `{!CtaSource K}.

Definition warp_init : warp_t := {|
  ipdom_stack := []; w_tmask := zeros num_threads; w_PC := 0; fcsr := 0; w_uuid := 0; mscratch := 0;
  mstatus := 0; mtvec := 0; mepc := 0; mcause := 0; mtval := 0; mscratch_tmask := zeros num_threads;
  cta_csrs := cta_csrs_init |}.

(** [warp_t::reset]: the stack, [mscratch] and the CTA registers are kept. *)
Definition warp_reset (w : warp_t) : warp_t :=
  w <| w_tmask := zeros num_threads |> <| w_PC := 0 |> <| w_uuid := 0 |> <| fcsr := 0 |>
    <| mstatus := 0 |> <| mtvec := 0 |> <| mepc := 0 |> <| mcause := 0 |> <| mtval := 0 |>
    <| mscratch_tmask := zeros num_threads |>.

Definition Scheduler_init (d : CtaDispatcher) : Scheduler := {|
  cta_dispatcher_ := d; warps_ := replicate num_warps warp_init;
  active_warps_ := zeros num_warps; stalled_warps_ := zeros num_warps; stalled_warps_next_ := zeros num_warps;
  in_async_trap_ := zeros num_warps; trap_epoch_ := replicate num_warps 0; last_mret_cycle_ := replicate num_warps 0;
  async_trap_snapshot_ := replicate num_warps []; ipdom_size_ := (num_threads - 1)%nat;
  wspawn_ := {| ws_valid := false; ws_num_warps := 0; ws_nextPC := 0 |} |}.

Definition sched_on_reset (s : Scheduler) : Scheduler :=
  s <| warps_ ::= map warp_reset |> <| stalled_warps_ := zeros num_warps |> <| stalled_warps_next_ := zeros num_warps |>
    <| active_warps_ := zeros num_warps |> <| in_async_trap_ := zeros num_warps |>
    <| trap_epoch_ := replicate num_warps 0 |>
    <| wspawn_ := {| ws_valid := false; ws_num_warps := ws_num_warps (wspawn_ s); ws_nextPC := ws_nextPC (wspawn_ s) |} |>.

Definition set_warp (s : Scheduler) (wid : nat) (w : warp_t) : Scheduler :=
  s <| warps_ := <[wid := w]> (warps_ s) |>.

(** [Scheduler::suspend] *)
Definition suspend (s : Scheduler) (wid : nat) : option Scheduler :=
  if test (active_warps_ s) wid && negb (test (stalled_warps_next_ s) wid)
  then Some (s <| stalled_warps_next_ := <[wid := true]> (stalled_warps_next_ s) |>) else None.

(** [Scheduler::resume] *)
Definition resume (s : Scheduler) (wid : nat) : option Scheduler :=
  if test (active_warps_ s) wid && test (stalled_warps_next_ s) wid
  then Some (s <| stalled_warps_next_ := <[wid := false]> (stalled_warps_next_ s) |>) else None.

(** [Scheduler::activate_warp] *)
Definition activate_warp (s : Scheduler) (wid : nat) (rec : cta_warp_record_t) : option Scheduler :=
  w ← warps_ s !! wid;
  let w' := w <| w_PC := if rec_do_init rec then rec_PC rec else wrap XLEN (w_PC w - 20) |>
    <| w_tmask := rec_tmask rec |> <| mscratch := rec_mscratch rec |>
    <| cta_csrs := {|
         cs_cta_id := rec_cta_id rec; cs_cta_rank := rec_cta_rank rec; cs_cta_size := rec_cta_size rec;
         cs_thread_idx := rec_thread_idx rec; cs_block_idx := rec_block_idx rec;
         cs_block_dim := rec_block_dim rec; cs_grid_dim := rec_grid_dim rec;
         cs_entry := rec_entry rec; cs_lmem_addr := rec_lmem_addr rec; cs_cluster_size := rec_cluster_size rec |} |>
    <| ipdom_stack := [] |> in
  Some ((set_warp s wid w') <| active_warps_ := <[wid := true]> (active_warps_ s) |>
    <| stalled_warps_ := <[wid := false]> (stalled_warps_ s) |>
    <| stalled_warps_next_ := <[wid := false]> (stalled_warps_next_ s) |>).

(** The body of the activation loop of a pending [wspawn]. *)
Definition spawn_warp (pc scratch : Z) (acc : option Scheduler) (i : nat) : option Scheduler :=
  s ← acc; w ← warps_ s !! i;
  if (num_threads =? 0)%nat then None else
  Some ((set_warp s i (w <| w_PC := pc |> <| w_tmask := <[0%nat := true]> (w_tmask w) |> <| mscratch := scratch |>))
    <| active_warps_ := <[i := true]> (active_warps_ s) |>
    <| stalled_warps_ := <[i := false]> (stalled_warps_ s) |>
    <| stalled_warps_next_ := <[i := false]> (stalled_warps_next_ s) |>).

(** Activation of a pending [wspawn], when a single warp is active. *)
Definition do_wspawn (s : Scheduler) : option Scheduler :=
  if ws_valid (wspawn_ s) && (count (active_warps_ s) =? 1)%nat then
    w0 ← warps_ s !! 0%nat;
    s ← fold_left (spawn_warp (ws_nextPC (wspawn_ s)) (mscratch w0))
          (seq 1 (Z.to_nat (ws_num_warps (wspawn_ s)) - 1)) (Some s);
    resume (s <| wspawn_ := (wspawn_ s) <| ws_valid := false |> |>) 0
  else Some s.

(** Lowest-numbered warp that is active, not stalled and in the mask. *)
Definition ready (s : Scheduler) (warp_mask : list bool) (wid : nat) : bool :=
  test (active_warps_ s) wid && negb (test (stalled_warps_ s) wid) && test warp_mask wid.

Definition pick_warp (s : Scheduler) (warp_mask : list bool) : option nat :=
  head (filter (fun wid => ready s warp_mask wid = true) (seq 0 num_warps)).

(** The tail of [schedule]: emit the header of the picked warp, suspend it,
    and clock the registered stall state. *)
Definition emit_trace (s : Scheduler) (wid : nat) : option (Scheduler * sched_trace) :=
  w ← warps_ s !! wid;
  if negb (any (w_tmask w)) then None else
  let uuid := Z.lor (Z.shiftl (u32 (core_id * Z.of_nat num_warps + Z.of_nat wid)) 32) (w_uuid w) in
  let s := set_warp s wid (w <| w_uuid := u32 (w_uuid w + 1) |>) in
  ep ← trap_epoch_ s !! wid;
  s ← suspend s wid;
  Some (s, {| st_uuid := uuid; st_cid := core_id; st_wid := wid; st_cta_id := cs_cta_id (cta_csrs w);
              st_PC := w_PC w; st_tmask := w_tmask w; st_trap_epoch := ep |}).

(** [Scheduler::schedule] *)
Definition schedule (s : Scheduler) (kmu : K) (warp_mask : list bool)
    : option (Scheduler * K * option sched_trace) :=
  let '(d, kmu, r) := cd_step XLEN MEM_BLOCK_SIZE (cta_dispatcher_ s) (active_warps_ s) kmu in
  let s := s <| cta_dispatcher_ := d |> in
  s ← match r with Some (wid, rec) => activate_warp s wid rec | None => Some s end;
  s ← do_wspawn s;
  '(s, t) ← match pick_warp s warp_mask with
            | Some wid => '(s, t) ← emit_trace s wid; Some (s, Some t)
            | None => Some (s, None)
            end;
  Some (s <| stalled_warps_ := stalled_warps_next_ s |>, kmu, t).

(** [Scheduler::running] *)
Definition sched_running (s : Scheduler) (kmu : K) : bool := any (active_warps_ s) || cd_running (cta_dispatcher_ s) kmu.

(** [Scheduler::advance_pc] *)
Definition advance_pc (s : Scheduler) (t : sched_trace) (inc : Z) : option Scheduler :=
  ep ← trap_epoch_ s !! st_wid t;
  if negb (st_trap_epoch t =? ep) then Some s
  else w ← warps_ s !! st_wid t; Some (set_warp s (st_wid t) (w <| w_PC := wrap XLEN (w_PC w + inc) |>)).

(** [Scheduler::setTmask]; the flag says whether the warp stays active. *)
Definition setTmask (s : Scheduler) (wid : nat) (tmask : list bool) : option (Scheduler * bool) :=
  w ← warps_ s !! wid;
  let s := set_warp s wid (w <| w_tmask := tmask |>) in
  if negb (any tmask) then
    d ← warp_done (cta_dispatcher_ s) wid;
    Some (s <| active_warps_ := <[wid := false]> (active_warps_ s) |> <| cta_dispatcher_ := d |>, false)
  else Some (s, true).

(** [Scheduler::wspawn] *)
Definition wspawn (s : Scheduler) (n nextPC : Z) : Scheduler * bool :=
  let n := Z.min n (Z.of_nat num_warps) in
  if (n <? 2) && (count (active_warps_ s) =? 1)%nat then (s, true)
  else (s <| wspawn_ := {| ws_valid := true; ws_num_warps := n; ws_nextPC := nextPC |} |>, false).

(** [Scheduler::raise_trap] *)
Definition raise_trap (s : Scheduler) (wid : nat) (cause trap_pc : Z) : option Scheduler :=
  w ← warps_ s !! wid;
  Some (set_warp s wid (w <| mepc := trap_pc |> <| mcause := cause |> <| mtval := 0 |>
    <| mscratch_tmask := w_tmask w |> <| w_PC := Z.land (mtvec w) (wrap XLEN (Z.lnot 3)) |>)).

Definition trigger_ecall (s : Scheduler) (wid : nat) (trap_pc : Z) : option Scheduler :=
  raise_trap s wid TRAP_CAUSE_ECALL_MMODE trap_pc.

Definition trigger_ebreak (s : Scheduler) (wid : nat) (trap_pc : Z) : option Scheduler :=
  raise_trap s wid TRAP_CAUSE_BREAKPOINT trap_pc.

(** [Scheduler::mret], with the traces of the core and the scoreboard. *)
Definition mret (heap : Z -> instr_trace_t) (cycles : Z) (s : Scheduler) (sb : Scoreboard) (wid : nat)
    : option (Scheduler * Scoreboard) :=
  w ← warps_ s !! wid;
  let w := w <| w_PC := mepc w |> in
  let w := if any (mscratch_tmask w) then w <| w_tmask := mscratch_tmask w |> else w in
  snap ← async_trap_snapshot_ s !! wid;
  sb ← restore_warp heap sb snap;
  Some ((set_warp s wid w) <| async_trap_snapshot_ := <[wid := []]> (async_trap_snapshot_ s) |>
    <| in_async_trap_ := <[wid := false]> (in_async_trap_ s) |>
    <| last_mret_cycle_ := <[wid := cycles]> (last_mret_cycle_ s) |>, sb).

End Scheduler.

(** ** Lemmas on masks *)

Lemma test_zeros n j : test (zeros n) j = false.
Proof.
  unfold test, zeros. destruct (replicate n false !! j) eqn:E; [|done].
  by apply lookup_replicate in E as [-> _].
Qed.

Lemma test_lt m j : test m j = true -> (j < length m)%nat.
Proof. unfold test. destruct (m !! j) eqn:E; [|done]. intros _. by eapply lookup_lt_Some. Qed.

Lemma test_ext l l' : length l = length l' -> (forall j, test l j = test l' j) -> l = l'.
Proof.
  intros Hl Ht. apply (list_eq_same_length _ _ _ eq_refl Hl). intros i x y Hi Hx Hy.
  specialize (Ht i). unfold test in Ht. rewrite Hx, Hy in Ht. done.
Qed.
