(* ===== verification/Barrier.v ===== *)
(** * Barriers

    [sim/simx/barrier_unit.{h,cpp}], the barrier identifiers of [types.h] and
    the device-wide barrier of [sim/simx/processor.cpp].  A core is its
    scheduler and its barrier table; a global arrival goes to the processor,
    which resumes the waiting warps of every core that arrived, the arriving
    one included, before the call returns.  The theorems show that a local
    barrier holds every warp until the last one arrives and then releases all
    of them, and that a device-wide barrier does the same for cores. *)

From S2P Require Import Prelude Kmu CtaDispatcher Decode Scoreboard Sched.

(** [warp_barrier_t] *)
Record warp_barrier_t := { wait_mask : list bool; arrival_mask : list bool; bar_count : Z; bar_events : Z; bar_phase : Z }.

(** A core as the barriers see it. *)
Record core_t := { c_sched : Scheduler; c_barriers : list warp_barrier_t }.

(** The cores of the device and the arrival masks of the processor. *)
Record device_t := { d_cores : list core_t; d_gbarriers : list (list bool) }.

(** [bar_decode_id] *)
Definition bar_decode_id (bar_id_raw num_barriers : Z) : Z :=
  let cta_no := Z.land bar_id_raw 0xff in
  let bar_no := Z.land (Z.shiftr bar_id_raw 8) 0x7fffff in
  Z.lor (u32 (cta_no * num_barriers + bar_no)) (Z.land bar_id_raw 0x80000000).

Definition bar_is_global (bar_id : Z) : bool := negb (Z.shiftr bar_id 31 =? 0).
Definition bar_index (bar_id : Z) : nat := Z.to_nat (Z.land bar_id 0x7fffffff).

Section Barriers.
Context (num_warps num_cores : nat).

Definition barrier_init : warp_barrier_t :=
  {| wait_mask := zeros num_warps; arrival_mask := zeros num_warps; bar_count := 0; bar_events := 0; bar_phase := 0 |}.

(** [BarrierUnit::BarrierUnit] *)
Definition BarrierUnit_init (num_barriers : nat) : list warp_barrier_t :=
  replicate (num_warps * num_barriers) barrier_init.

(** [BarrierUnit::on_reset] *)
Definition bar_on_reset (bs : list warp_barrier_t) : list warp_barrier_t := map (fun _ => barrier_init) bs.

(** [BarrierUnit::get_phase] *)
Definition get_phase (c : core_t) (bar_id : Z) : option Z := bar_phase <$> c_barriers c !! bar_index bar_id.

(** The loop that resumes the warps of a mask. *)
Definition resume_one (mask : list bool) (acc : option Scheduler) (i : nat) : option Scheduler :=
  s ← acc; if test mask i then resume s i else Some s.

Definition resume_waiters (s : Scheduler) (mask : list bool) : option Scheduler :=
  fold_left (resume_one mask) (seq 0 num_warps) (Some s).

(** Resume the waiting warps, clear the mask, advance the phase. *)
Definition bar_open (c : core_t) (ix : nat) (b : warp_barrier_t) : option core_t :=
  s ← resume_waiters (c_sched c) (wait_mask b);
  Some {| c_sched := s;
          c_barriers := <[ix := b <| wait_mask := zeros num_warps |> <| bar_phase := u32 (bar_phase b + 1) |>]>
                          (c_barriers c) |}.

Definition set_bar (c : core_t) (ix : nat) (b : warp_barrier_t) : core_t :=
  {| c_sched := c_sched c; c_barriers := <[ix := b]> (c_barriers c) |}.

(** [BarrierUnit::global_resume] *)
Definition global_resume (c : core_t) (bar_id : Z) : option core_t :=
  b ← c_barriers c !! bar_index bar_id; bar_open c (bar_index bar_id) b.

(** [ProcessorImpl::global_barrier_arrive] *)
Definition resume_core (bar_id : Z) (mask : list bool) (acc : option (list core_t)) (i : nat) : option (list core_t) :=
  cs ← acc;
  if test mask i then c ← cs !! i; c ← global_resume c bar_id; Some (<[i := c]> cs) else Some cs.

Definition global_barrier_arrive (d : device_t) (bar_id count : Z) (core_id : nat) : option device_t :=
  let g := Z.to_nat (bar_id mod Z.of_nat (length (d_gbarriers d))) in
  mask ← d_gbarriers d !! g;
  let mask := <[core_id := true]> mask in
  if Z.of_nat (Sched.count mask) =? count then
    cs ← fold_left (resume_core bar_id mask) (seq 0 num_cores) (Some (d_cores d));
    Some {| d_cores := cs; d_gbarriers := <[g := zeros num_cores]> (d_gbarriers d) |}
  else Some {| d_cores := d_cores d; d_gbarriers := <[g := mask]> (d_gbarriers d) |}.

Definition set_core (d : device_t) (core_id : nat) (c : core_t) : device_t :=
  {| d_cores := <[core_id := c]> (d_cores d); d_gbarriers := d_gbarriers d |}.

(** Send the core's arrival to the processor, then clear its arrival state. *)
Definition notify_global (d : device_t) (core_id : nat) (bar_id count : Z) : option device_t :=
  d ← global_barrier_arrive d bar_id count core_id;
  c ← d_cores d !! core_id; b ← c_barriers c !! bar_index bar_id;
  Some (set_core d core_id (set_bar c (bar_index bar_id)
    (b <| arrival_mask := zeros num_warps |> <| bar_count := 0 |> <| bar_events := 0 |>))).

(** The local branch of [BarrierUnit::arrive]; a count of zero aborts. *)
Definition arrive_local (c : core_t) (ix : nat) (count : Z) (wid : nat) (is_sync_bar : bool) : option core_t :=
  b ← c_barriers c !! ix;
  let b := if is_sync_bar then b <| wait_mask := <[wid := true]> (wait_mask b) |> else b in
  let count_p1 := u32 (bar_count b + 1) in
  c ← (if (count_p1 =? count) && (bar_events b =? 0) then bar_open c ix b else Some (set_bar c ix b));
  if count =? 0 then None
  else b ← c_barriers c !! ix; Some (set_bar c ix (b <| bar_count := count_p1 mod count |>)).

(** [BarrierUnit::arrive] *)
Definition arrive (d : device_t) (core_id : nat) (bar_id count : Z) (wid : nat) (is_sync_bar : bool) : option device_t :=
  c ← d_cores d !! core_id;
  let ix := bar_index bar_id in
  if bar_is_global bar_id then
    b ← c_barriers c !! ix;
    let b := b <| bar_count := count |> <| arrival_mask := <[wid := true]> (arrival_mask b) |> in
    let b := if is_sync_bar then b <| wait_mask := <[wid := true]> (wait_mask b) |> else b in
    let d := set_core d core_id (set_bar c ix b) in
    if (Sched.count (arrival_mask b) =? Sched.count (active_warps_ (c_sched c)))%nat && (bar_events b =? 0)
    then notify_global d core_id bar_id count else Some d
  else c ← arrive_local c ix count wid is_sync_bar; Some (set_core d core_id c).

(** [BarrierUnit::wait]; the flag says whether the warp waits. *)
Definition wait (c : core_t) (bar_id phase : Z) (wid : nat) : option (core_t * bool) :=
  b ← c_barriers c !! bar_index bar_id;
  if bar_phase b =? phase
  then Some (set_bar c (bar_index bar_id) (b <| wait_mask := <[wid := true]> (wait_mask b) |>), true)
  else Some (c, false).

(** [BarrierUnit::event_attach] *)
Definition event_attach (c : core_t) (bar_id count : Z) : option core_t :=
  b ← c_barriers c !! bar_index bar_id;
  Some (set_bar c (bar_index bar_id) (b <| bar_events := u32 (bar_events b + count) |>)).

(** [BarrierUnit::event_release] *)
Definition event_release (d : device_t) (core_id : nat) (bar_id : Z) : option device_t :=
  c ← d_cores d !! core_id;
  let ix := bar_index bar_id in
  b ← c_barriers c !! ix;
  if negb (bar_events b >? 0) then None else
  let b := b <| bar_events := bar_events b - 1 |> in
  let c := set_bar c ix b in
  let d := set_core d core_id c in
  if bar_events b =? 0 then
    if bar_is_global bar_id then
      if (Sched.count (arrival_mask b) =? Sched.count (active_warps_ (c_sched c)))%nat
      then notify_global d core_id bar_id (bar_count b) else Some d
    else if bar_count b =? 0 then c ← bar_open c ix b; Some (set_core d core_id c) else Some d
  else Some d.

End Barriers.

(** ** Bit lists *)

Lemma test_insert m i b j : (i < length m)%nat -> test (<[i := b]> m) j = if decide (i = j) then b else test m j.
Proof.
  intros Hi. unfold test. destruct (decide (i = j)) as [->|Hne].
  - by rewrite list_lookup_insert_eq.
  - by rewrite list_lookup_insert_ne.
Qed.

Section BarrierProofs.
Context (num_warps num_cores : nat).

(** Resuming a mask of stalled warps clears exactly their stall bits. *)
Lemma resume_waiters_spec s mask :
  (forall j, test mask j = true ->
     (j < num_warps)%nat /\ test (active_warps_ s) j = true /\ test (stalled_warps_next_ s) j = true) ->
  exists l, resume_waiters num_warps s mask = Some (s <| stalled_warps_next_ := l |>) /\
    length l = length (stalled_warps_next_ s) /\
    forall j, test l j = test (stalled_warps_next_ s) j && negb (test mask j).
Proof.
  intros Hm. unfold resume_waiters.
  assert (forall k, (k <= num_warps)%nat -> exists l,
    fold_left (resume_one mask) (seq 0 k) (Some s) = Some (s <| stalled_warps_next_ := l |>) /\
    length l = length (stalled_warps_next_ s) /\
    forall j, test l j = test (stalled_warps_next_ s) j && negb (test mask j && bool_decide (j < k)%nat)) as Hk.
  { induction k as [|k IH]; intros Hle.
    - exists (stalled_warps_next_ s). split; [by destruct s|]. split; [done|]. intros j.
      rewrite bool_decide_eq_false_2 by lia. by rewrite andb_false_r, andb_true_r.
    - destruct IH as (l & Hl & Hlen & Ht); [lia|]. rewrite seq_S, fold_left_app, Hl. cbn [fold_left].
      unfold resume_one at 1. cbn [mbind option_bind]. rewrite Nat.add_0_l. destruct (test mask k) eqn:Ek.
      + destruct (Hm k Ek) as (Hk & Ha & Hs). unfold resume. rproj. rewrite Ha, Ht, Hs, Ek.
        rewrite bool_decide_eq_false_2 by lia. cbn [andb negb].
        pose proof (test_lt _ _ Hs) as Hlt. eexists. split; [done|]. rewrite length_insert. split; [done|].
        intros j. rewrite test_insert by lia. destruct (decide (k = j)) as [<-|Hne].
        * rewrite Ek, bool_decide_eq_true_2 by lia. by rewrite andb_false_r.
        * rewrite Ht. do 2 f_equal. f_equal. apply bool_decide_ext. lia.
      + exists l. split; [done|]. split; [done|]. intros j. rewrite Ht.
        destruct (decide (k = j)) as [<-|Hne]; [by rewrite Ek|].
        do 2 f_equal. f_equal. apply bool_decide_ext. lia. }
  destruct (Hk num_warps ltac:(lia)) as (l & Hl & Hlen & Ht). exists l. split; [done|]. split; [done|].
  intros j. rewrite Ht. destruct (test mask j) eqn:Ej; [|done].
  by rewrite bool_decide_eq_true_2 by apply (Hm j Ej).
Qed.

(** ** Local barriers *)

(** The abstract barrier: completed generations, and the warps of the current one that have arrived. *)
Record bar_abs := { ba_gen : Z; ba_arrived : list nat }.

(** An arrival, and the warps it releases. *)
Definition abs_arrive (n : nat) (a : bar_abs) (w : nat) : bar_abs * list nat :=
  if (S (length (ba_arrived a)) =? n)%nat then ({| ba_gen := ba_gen a + 1; ba_arrived := [] |}, w :: ba_arrived a)
  else ({| ba_gen := ba_gen a; ba_arrived := w :: ba_arrived a |}, []).

Definition stalled (s : Scheduler) (w : nat) : Prop :=
  (w < num_warps)%nat /\ test (active_warps_ s) w = true /\ test (stalled_warps_next_ s) w = true.

Record bar_rep (n : nat) (s : Scheduler) (b : warp_barrier_t) (a : bar_abs) : Prop := {
  br_phase : bar_phase b = u32 (ba_gen a);
  br_count : bar_count b = Z.of_nat (length (ba_arrived a));
  br_lt : (length (ba_arrived a) < n)%nat;
  br_events : bar_events b = 0;
  br_len : length (wait_mask b) = num_warps;
  br_wait j : test (wait_mask b) j = true <-> j ∈ ba_arrived a;
  br_stalled j : j ∈ ba_arrived a -> stalled s j
}.

(** The scheduler after the warps [ws] were resumed and nothing else changed. *)
Definition resumed (s s' : Scheduler) (ws : list nat) : Prop :=
  exists l, s' = s <| stalled_warps_next_ := l |> /\ length l = length (stalled_warps_next_ s) /\
    forall j, test l j = test (stalled_warps_next_ s) j && negb (bool_decide (j ∈ ws)).

Lemma resumed_nil s : resumed s s [].
Proof.
  exists (stalled_warps_next_ s). split; [by destruct s|]. split; [done|]. intros j.
  rewrite bool_decide_eq_false_2 by apply not_elem_of_nil. by rewrite andb_true_r.
Qed.

Lemma resumed_nil_inv s s' : resumed s s' [] -> s' = s.
Proof.
  intros (l & -> & Hl & Ht). rewrite (test_ext l (stalled_warps_next_ s)); [by destruct s|done|].
  intros j. rewrite Ht, bool_decide_eq_false_2 by apply not_elem_of_nil. by rewrite andb_true_r.
Qed.

Lemma bar_open_spec c ix b ws :
  (forall j, test (wait_mask b) j = true <-> j ∈ ws) -> (forall j, j ∈ ws -> stalled (c_sched c) j) ->
  exists s', resumed (c_sched c) s' ws /\
    bar_open num_warps c ix b = Some {| c_sched := s'; c_barriers :=
      <[ix := b <| wait_mask := zeros num_warps |> <| bar_phase := u32 (bar_phase b + 1) |>]> (c_barriers c) |}.
Proof.
  intros Hw Hs. destruct (resume_waiters_spec (c_sched c) (wait_mask b)) as (l & Hl & Hlen & Ht).
  { intros j Hj. by apply Hs, Hw. }
  eexists. split; [exists l; split; [done|split; [done|]]|unfold bar_open; by rewrite Hl].
  intros j. rewrite Ht. do 2 f_equal. apply eq_bool_prop_intro. rewrite bool_decide_spec.
  rewrite <- Hw. unfold Is_true. by destruct (test _ _).
Qed.

(** One synchronous arrival at a local barrier implements the abstract one:
    below the count nothing but the barrier changes, at the count exactly the
    waiting warps are resumed and the barrier is ready for the next round. *)
Lemma arrive_local_refines n c ix b a w : c_barriers c !! ix = Some b -> Z.of_nat n < 2 ^ 32 ->
  bar_rep n (c_sched c) b a -> w ∉ ba_arrived a -> stalled (c_sched c) w ->
  exists s' b', arrive_local num_warps c ix (Z.of_nat n) w true = Some {| c_sched := s'; c_barriers := <[ix := b']> (c_barriers c) |} /\
    bar_rep n s' b' (abs_arrive n a w).1 /\ resumed (c_sched c) s' (abs_arrive n a w).2.
Proof.
  intros Hb Hn HR Hw Hst. destruct HR as [Hph Hc Hlt He Hlen Hwait Hstall].
  pose proof (lookup_lt_Some _ _ _ Hb) as Hix.
  set (b1 := b <| wait_mask := <[w := true]> (wait_mask b) |>).
  assert (Hw1 : forall j, test (wait_mask b1) j = true <-> j ∈ w :: ba_arrived a).
  { intros j. subst b1. rproj. rewrite test_insert by (rewrite Hlen; apply Hst). rewrite elem_of_cons.
    destruct (decide (w = j)) as [<-|Hne]; [naive_solver|]. rewrite Hwait. naive_solver. }
  assert (Hs1 : forall j, j ∈ w :: ba_arrived a -> stalled (c_sched c) j).
  { intros j Hj. apply elem_of_cons in Hj as [->|Hj]; auto. }
  unfold arrive_local. rewrite Hb. cbn [mbind option_bind]. cbv zeta. fold b1.
  change (bar_count b1) with (bar_count b). change (bar_events b1) with (bar_events b).
  rewrite Hc, He, (wrap_small 32) by (unfold in_u; lia). rewrite Z.eqb_refl, andb_true_r.
  unfold abs_arrive. destruct (Nat.eqb_spec (S (length (ba_arrived a))) n) as [En|En]; cbn [fst snd].
  - rewrite (proj2 (Z.eqb_eq _ (Z.of_nat n))) by lia.
    destruct (bar_open_spec c ix b1 (w :: ba_arrived a)) as (s' & Hres & Ho); [done..|].
    rewrite Ho. cbn. rewrite (proj2 (Z.eqb_neq (Z.of_nat n) 0)) by lia.
    rewrite list_lookup_insert_eq by done. cbn.
    unfold set_bar. cbn. rewrite !list_insert_insert_eq. eexists _, _. split; [done|]. split; [|done].
    constructor; cbn; rproj; cbn; try done; try lia.
    + rewrite Hph. by rewrite wrap_add_l.
    + replace (Z.of_nat (length (ba_arrived a)) + 1) with (Z.of_nat n) by lia.
      by rewrite Z.mod_same by lia.
    + by unfold zeros; rewrite length_replicate.
    + intros j. rewrite test_zeros. split; [done|]. by intros ?%not_elem_of_nil.
    + by intros j ?%not_elem_of_nil.
  - rewrite (proj2 (Z.eqb_neq _ (Z.of_nat n))) by lia. cbn.
    rewrite (proj2 (Z.eqb_neq (Z.of_nat n) 0)) by lia.
    rewrite list_lookup_insert_eq by done. cbn. unfold set_bar. cbn. rewrite list_insert_insert_eq.
    eexists _, _. split; [done|]. split; [|apply resumed_nil].
    constructor; cbn; rproj; cbn; try done; try lia.
    + rewrite Z.mod_small by lia. lia.
    + by rewrite length_insert.
Qed.

(** The whole handler, on one core of the device. *)
Lemma arrive_refines d k c bar_id b a n w :
  d_cores d !! k = Some c -> bar_is_global bar_id = false -> c_barriers c !! bar_index bar_id = Some b ->
  Z.of_nat n < 2 ^ 32 -> bar_rep n (c_sched c) b a -> w ∉ ba_arrived a -> stalled (c_sched c) w ->
  exists s' b',
    arrive num_warps num_cores d k bar_id (Z.of_nat n) w true =
      Some (set_core d k {| c_sched := s'; c_barriers := <[bar_index bar_id := b']> (c_barriers c) |}) /\
    bar_rep n s' b' (abs_arrive n a w).1 /\ resumed (c_sched c) s' (abs_arrive n a w).2.
Proof.
  intros Hk Hg Hb Hn HR Hw Hs. destruct (arrive_local_refines n c _ b a w Hb Hn HR Hw Hs) as (s' & b' & Ha & HR' & Hr).
  exists s', b'. split; [|done]. unfold arrive. rewrite Hk, Hg. cbn. by rewrite Ha.
Qed.

(** C28 (refinement): a synchronous arrival at a local barrier without a
    pending event, of any core of the device, implements the abstract barrier
    of generations and arrived warps: below the count no warp is resumed and
    only this barrier changes; the arrival that completes the count resumes
    exactly the arrived warps and leaves the barrier ready for the next
    generation. *)
Theorem bar_arrive_refines d k c bar_id b a n w :
  d_cores d !! k = Some c -> bar_is_global bar_id = false -> c_barriers c !! bar_index bar_id = Some b ->
  Z.of_nat n < 2 ^ 32 -> bar_rep n (c_sched c) b a -> w ∉ ba_arrived a -> stalled (c_sched c) w ->
  exists s' b',
    arrive num_warps num_cores d k bar_id (Z.of_nat n) w true =
      Some (set_core d k {| c_sched := s'; c_barriers := <[bar_index bar_id := b']> (c_barriers c) |}) /\
    bar_rep n s' b' (abs_arrive n a w).1 /\ resumed (c_sched c) s' (abs_arrive n a w).2.
Proof. apply arrive_refines. Qed.

(** The warps [ws] arrive one after the other. *)
Definition arrive_all (d : device_t) (k : nat) (bar_id : Z) (n : nat) (ws : list nat) : option device_t :=
  fold_left (fun acc w => d ← acc; arrive num_warps num_cores d k bar_id (Z.of_nat n) w true) ws (Some d).

(** Arrivals below the count leave the scheduler as it was. *)
Lemma arrive_all_pending d k c bar_id b a n ws : d_cores d !! k = Some c -> bar_is_global bar_id = false ->
  c_barriers c !! bar_index bar_id = Some b -> Z.of_nat n < 2 ^ 32 -> bar_rep n (c_sched c) b a ->
  NoDup ws -> (forall w, w ∈ ws -> (w ∉ ba_arrived a) /\ stalled (c_sched c) w) ->
  (length ws + length (ba_arrived a) < n)%nat ->
  exists b', arrive_all d k bar_id n ws =
      Some (set_core d k {| c_sched := c_sched c; c_barriers := <[bar_index bar_id := b']> (c_barriers c) |}) /\
    bar_rep n (c_sched c) b' {| ba_gen := ba_gen a; ba_arrived := reverse ws ++ ba_arrived a |}.
Proof.
  intros Hk Hg Hb Hn HR Hd Hws Hlt. revert Hd Hws Hlt.
  induction ws as [|w ws IH] using rev_ind; intros Hd Hws Hlt.
  { exists b. cbn. split; [|by destruct a]. unfold set_core. rewrite (list_insert_id (c_barriers c)) by done.
    rewrite list_insert_id by (by destruct c). by destruct d. }
  apply list.NoDup_app in Hd as (Hd & Hx & _). rewrite length_app in Hlt. cbn in Hlt.
  destruct IH as (b1 & H1 & HR1); [done|intros x ?; apply Hws, elem_of_app; by left|lia|].
  destruct (Hws w) as [Hwa Hwst]; [apply elem_of_app; right; left|].
  unfold arrive_all in *. rewrite fold_left_app, H1. cbn [fold_left].
  pose proof (lookup_lt_Some _ _ _ Hk). pose proof (lookup_lt_Some _ _ _ Hb).
  set (c1 := {| c_sched := c_sched c; c_barriers := <[bar_index bar_id := b1]> (c_barriers c) |}) in *.
  destruct (arrive_refines (set_core d k c1) k c1 bar_id b1
    {| ba_gen := ba_gen a; ba_arrived := reverse ws ++ ba_arrived a |} n w) as (s' & b' & Ha & HR' & Hr);
    [cbn; by rewrite list_lookup_insert_eq|done|cbn; by rewrite list_lookup_insert_eq|done|exact HR1| |exact Hwst|].
  { cbn. rewrite elem_of_app, elem_of_reverse. intros [Hi|Hi]; [|done]. apply (Hx w Hi). left. }
  cbn [mbind option_bind]. rewrite Ha. unfold abs_arrive in *. cbn [ba_arrived ba_gen] in *.
  rewrite length_app, length_reverse in *. rewrite (proj2 (Nat.eqb_neq _ n)) in * by lia. cbn in *.
  apply resumed_nil_inv in Hr as ->. rewrite reverse_snoc. cbn.
  unfold set_core. cbn. rewrite !list_insert_insert_eq. by exists b'.
Qed.

(** C16 (liveness): when the [n] warps of a barrier without a pending event
    arrive in any order, every proper prefix of the arrivals leaves all of them
    stalled and the phase as it was, and the last arrival resumes all of them,
    advances the phase by one and leaves an empty barrier. *)
Theorem bar_round d k c bar_id b gen n ws :
  d_cores d !! k = Some c -> bar_is_global bar_id = false -> c_barriers c !! bar_index bar_id = Some b ->
  0 < Z.of_nat n < 2 ^ 32 -> bar_rep n (c_sched c) b {| ba_gen := gen; ba_arrived := [] |} ->
  NoDup ws -> length ws = n -> (forall w, w ∈ ws -> stalled (c_sched c) w) ->
  (forall ws1 ws2, ws = ws1 ++ ws2 -> ws2 <> [] ->
     exists b', arrive_all d k bar_id n ws1 =
         Some (set_core d k {| c_sched := c_sched c; c_barriers := <[bar_index bar_id := b']> (c_barriers c) |}) /\
       bar_phase b' = bar_phase b /\ bar_count b' = Z.of_nat (length ws1)) /\
  (exists s' b', arrive_all d k bar_id n ws =
       Some (set_core d k {| c_sched := s'; c_barriers := <[bar_index bar_id := b']> (c_barriers c) |}) /\
     resumed (c_sched c) s' ws /\ bar_rep n s' b' {| ba_gen := gen + 1; ba_arrived := [] |}).
Proof.
  intros Hk Hg Hb Hn HR Hd Hl Hs.
  assert (Hpre : forall ws1 ws2, ws = ws1 ++ ws2 -> ws2 <> [] ->
     exists b', arrive_all d k bar_id n ws1 =
         Some (set_core d k {| c_sched := c_sched c; c_barriers := <[bar_index bar_id := b']> (c_barriers c) |}) /\
       bar_rep n (c_sched c) b' {| ba_gen := gen; ba_arrived := reverse ws1 |}).
  { intros ws1 ws2 -> Hne. apply list.NoDup_app in Hd as (Hd & _ & _). rewrite length_app in Hl.
    assert (length ws2 <> 0%nat) by (destruct ws2; done).
    destruct (arrive_all_pending d k c bar_id b _ n ws1 Hk Hg Hb (proj2 Hn) HR Hd) as (b' & Ha & HR').
    - intros w Hw. split; [apply not_elem_of_nil|]. apply Hs, elem_of_app. by left.
    - cbn. lia.
    - cbn in *. rewrite app_nil_r in HR'. by exists b'. }
  split.
  - intros ws1 ws2 E Hne. destruct (Hpre ws1 ws2 E Hne) as (b' & Ha & [Hp Hc _ _ _ _ _]). exists b'.
    split; [done|]. cbn in *. rewrite length_reverse in Hc. split; [|done]. rewrite Hp. symmetry. apply HR.
  - destruct ws as [|w ws _] using rev_ind; [cbn in Hl; lia|]. rewrite length_app in Hl. cbn in Hl.
    destruct (Hpre ws [w] eq_refl) as (b1 & H1 & HR1); [done|].
    apply list.NoDup_app in Hd as (Hd & Hx & _).
    pose proof (lookup_lt_Some _ _ _ Hk). pose proof (lookup_lt_Some _ _ _ Hb).
    set (c1 := {| c_sched := c_sched c; c_barriers := <[bar_index bar_id := b1]> (c_barriers c) |}) in *.
    destruct (arrive_refines (set_core d k c1) k c1 bar_id b1 {| ba_gen := gen; ba_arrived := reverse ws |} n w)
      as (s' & b' & Ha & HR' & Hr);
      [cbn; by rewrite list_lookup_insert_eq|done|cbn; by rewrite list_lookup_insert_eq|lia|exact HR1| | |].
    { cbn. rewrite elem_of_reverse. intros Hi. apply (Hx w Hi). left. }
    { apply Hs, elem_of_app. right. left. }
    unfold arrive_all in *. rewrite fold_left_app, H1. cbn [fold_left mbind option_bind]. rewrite Ha.
    unfold abs_arrive in *. cbn [ba_arrived ba_gen] in *. rewrite length_reverse in *.
    rewrite (proj2 (Nat.eqb_eq _ n)) in * by lia. cbn in *.
    unfold set_core. cbn. rewrite !list_insert_insert_eq. exists s', b'. split; [done|]. split; [|done].
    destruct Hr as (l & -> & Hlen & Ht). exists l. split; [done|]. split; [done|]. intros j. rewrite Ht.
    do 2 f_equal. apply bool_decide_ext. rewrite elem_of_cons, elem_of_reverse, elem_of_app, list_elem_of_singleton. tauto.
Qed.

(** The token of [BAR.ARRIVE]: the low bit of the phase. *)
Definition arrive_token (c : core_t) (bar_id : Z) : option Z := (fun p => Z.land p 1) <$> get_phase c bar_id.

(** Waiting with the token that [BAR.ARRIVE] returned blocks the
    warp in the first two generations of the barrier and in no later one: the
    token keeps one bit of the phase and the comparison is on all of it. *)
Theorem bar_wait_token c bar_id b w token :
  c_barriers c !! bar_index bar_id = Some b -> in_u 32 (bar_phase b) -> arrive_token c bar_id = Some token ->
  exists c', wait c bar_id token w = Some (c', bool_decide (bar_phase b < 2)) /\
    (2 <= bar_phase b -> c' = c).
Proof.
  intros Hb Hr Ht. unfold arrive_token, get_phase in Ht. rewrite Hb in Ht. injection Ht as <-.
  unfold wait. rewrite Hb. cbn. change 1 with (Z.ones 1). rewrite land_ones_wrap by lia. unfold wrap, in_u in *.
  change (2 ^ 1) with 2. pose proof (Z.mod_pos_bound (bar_phase b) 2 ltac:(lia)).
  destruct (Z.eqb_spec (bar_phase b) (bar_phase b mod 2)) as [E|E].
  - rewrite bool_decide_eq_true_2 by lia. eexists. split; [done|]. lia.
  - rewrite bool_decide_eq_false_2; [by eexists|]. intros H'. apply E. symmetry. apply Z.mod_small. lia.
Qed.

(** A transaction that completes before any warp arrived opens the barrier: the
    phase advances although nobody arrived. *)
Lemma bar_event_opens_empty d k c bar_id b :
  d_cores d !! k = Some c -> bar_is_global bar_id = false -> c_barriers c !! bar_index bar_id = Some b ->
  bar_count b = 0 -> bar_events b = 1 -> wait_mask b = zeros num_warps ->
  exists c', event_release num_warps num_cores d k bar_id = Some (set_core d k c') /\
    get_phase c' bar_id = Some (u32 (bar_phase b + 1)).
Proof.
  intros Hk Hg Hb Hc He Hw. pose proof (lookup_lt_Some _ _ _ Hb).
  set (b1 := b <| bar_events := bar_events b - 1 |>).
  destruct (bar_open_spec (set_bar c (bar_index bar_id) b1) (bar_index bar_id) b1 []) as (s' & _ & Ho).
  { intros j. subst b1. rproj. rewrite Hw, test_zeros. split; [done|]. by intros ?%not_elem_of_nil. }
  { by intros j ?%not_elem_of_nil. }
  unfold event_release. rewrite Hk. cbn [mbind option_bind]. rewrite Hb. cbn [mbind option_bind]. cbv zeta. fold b1.
  replace (bar_events b1) with 0 by (subst b1; rproj; lia). change (bar_count b1) with (bar_count b).
  rewrite He, Hg, Hc. cbn [negb Z.gtb Z.compare Z.eqb]. rewrite Ho. cbn. eexists.
  unfold set_core. cbn. rewrite list_insert_insert_eq. split; [done|].
  unfold get_phase. cbn. rewrite list_insert_insert_eq, list_lookup_insert_eq by done. done.
Qed.

End BarrierProofs.

(** Four stalled warps of one core and a barrier for two of them. *)
Module BarDemo.

Definition s0 : Scheduler := (Scheduler_init 4 4 (CtaDispatcher_init 4 4 0 14))
  <| active_warps_ := replicate 4 true |> <| stalled_warps_next_ := replicate 4 true |>.
Definition c0 : core_t := {| c_sched := s0; c_barriers := BarrierUnit_init 4 2 |}.
Definition d0 : device_t := {| d_cores := [c0]; d_gbarriers := replicate 2 (zeros 1) |}.

Lemma s0_stalled w : (w < 4)%nat -> stalled 4 s0 w.
Proof. intros H. split; [done|]. do 4 (destruct w as [|w]; [done|]). lia. Qed.

Lemma rep0 : bar_rep 4 2 s0 (barrier_init 4) {| ba_gen := 0; ba_arrived := [] |}.
Proof.
  constructor; cbn; try done; try lia.
  - intros j. change [false; false; false; false] with (zeros 4). rewrite test_zeros.
    split; [done|by intros ?%not_elem_of_nil].
  - by intros j ?%not_elem_of_nil.
Qed.

Lemma bar_arrive_refines_witness : exists s' b',
  arrive 4 1 d0 0 1 2 2 true = Some (set_core d0 0 {| c_sched := s'; c_barriers := <[1%nat := b']> (c_barriers c0) |}) /\
  stalled_warps_next_ s' = [true; true; true; true] /\ bar_count b' = 1.
Proof.
  destruct (bar_arrive_refines 4 1 d0 0 c0 1 (barrier_init 4) {| ba_gen := 0; ba_arrived := [] |} 2 2)
    as (s' & b' & Ha & Hr & Hs); [done..|lia|exact rep0|apply not_elem_of_nil|apply s0_stalled; lia|].
  exists s', b'. split; [exact Ha|]. vm_compute in Ha. injection Ha as <- <-. done.
Defined.

Lemma bar_round_witness : exists s' b',
  arrive_all 4 1 d0 0 1 2 [2; 0]%nat =
    Some (set_core d0 0 {| c_sched := s'; c_barriers := <[1%nat := b']> (c_barriers c0) |}) /\
  stalled_warps_next_ s' = [false; true; false; true] /\ bar_phase b' = 1.
Proof.
  destruct (bar_round 4 1 d0 0 c0 1 (barrier_init 4) 0 2 [2; 0]%nat) as [_ (s' & b' & Ha & _ & Hr)];
    [done..|lia|exact rep0| |done| |].
  { by apply (bool_decide_unpack _). }
  { intros w Hw. apply s0_stalled. rewrite !elem_of_cons in Hw. destruct Hw as [->|[->|Hw]]; [lia..|].
    by apply not_elem_of_nil in Hw. }
  exists s', b'. split; [exact Ha|]. vm_compute in Ha. injection Ha as <- <-. done.
Defined.

(** The third generation of a barrier: the waiter is not held. *)
Definition c2 : core_t := {| c_sched := s0; c_barriers := [(barrier_init 4) <| bar_phase := 2 |>] |}.

Lemma bar_wait_token_witness : arrive_token c2 0 = Some 0 /\ wait c2 0 0 3 = Some (c2, false).
Proof.
  split; [done|].
  destruct (bar_wait_token c2 0 ((barrier_init 4) <| bar_phase := 2 |>) 3 0) as (c' & Hw & Hc);
    [done|vm_compute; done|done|].
  rewrite Hw. rewrite Hc by (vm_compute; done). done.
Defined.

End BarDemo.
