(* ===== verification/Simt.v ===== *)
(** * Divergence and reconvergence

    What the split/join stack of [wctl_unit.cpp] and [scheduler.h] is for.
    First, its bound: every split of a reachable warp finds room, because each
    level of the stack has a strictly larger mask.  Second, its meaning: the
    idiom of the kernels,
    [sp = vx_split(c); if (c) A else B; vx_join(sp)],
    nested at will and run by the warp as straight code, executes for every
    thread exactly the blocks of that thread's own path, in order, and leaves
    the mask and the stack as they were. *)

From S2P Require Import Prelude Kmu CtaDispatcher Decode Scoreboard Sched Barrier Wctl.

(** ** Masks *)

Lemma test_and a b t : test (mask_and a b) t = test a t && test b t.
Proof.
  unfold test, mask_and. rewrite lookup_zip_with.
  destruct (a !! t), (b !! t); cbn; by rewrite ?andb_false_r.
Qed.

Lemma test_not a t : (t < length a)%nat -> test (mask_not a) t = negb (test a t).
Proof.
  intros Ht. unfold test, mask_not. rewrite list_lookup_fmap.
  by destruct (lookup_lt_is_Some_2 a t Ht) as [x ->].
Qed.

Lemma test_map_seq f n t : test (map f (seq 0 n)) t = bool_decide (t < n)%nat && f t.
Proof.
  unfold test. rewrite list_lookup_fmap. case_bool_decide.
  - by rewrite lookup_seq_lt.
  - by rewrite lookup_seq_ge by lia.
Qed.

Lemma any_test m : any m = true <-> exists t, test m t = true.
Proof.
  unfold any. rewrite existsb_exists. split.
  - intros (x & Hx & Hi). unfold id in Hi. subst x. apply list_elem_of_In, list_elem_of_lookup in Hx as [t Ht].
    exists t. unfold test. by rewrite Ht.
  - intros [t Ht]. exists true. split; [|done]. apply list_elem_of_In, list_elem_of_lookup. exists t.
    unfold test in Ht. destruct (m !! t) as [[]|]; done.
Qed.

Lemma any_false m : any m = false <-> forall t, test m t = false.
Proof.
  rewrite <- not_true_iff_false, any_test. split.
  - intros H t. apply not_true_iff_false. intros Ht. apply H. by exists t.
  - intros H [t Ht]. congruence.
Qed.

Lemma count_cons b m : Sched.count (b :: m) = ((if b then 1 else 0) + Sched.count m)%nat.
Proof. unfold Sched.count. by destruct b. Qed.

Lemma count_le a b : length a = length b -> (forall t, test a t = true -> test b t = true) ->
  (Sched.count a <= Sched.count b)%nat.
Proof.
  revert b. induction a as [|x a IH]; intros [|y b] Hl Hs; try done. rewrite !count_cons.
  specialize (IH b ltac:(by injection Hl) (fun t => Hs (S t))). specialize (Hs 0%nat). cbn in Hs.
  destruct x, y; cbn in *; try lia; by specialize (Hs eq_refl).
Qed.

Lemma count_lt a b : length a = length b -> (forall t, test a t = true -> test b t = true) ->
  (exists t, test a t = false /\ test b t = true) -> (Sched.count a < Sched.count b)%nat.
Proof.
  revert b. induction a as [|x a IH]; intros [|y b] Hl Hs [t [Ha Hb]]; try done.
  rewrite !count_cons. assert (Hl' : length a = length b) by (by injection Hl).
  pose proof (count_le a b Hl' (fun t => Hs (S t))). pose proof (Hs 0%nat) as H0. cbn in H0.
  destruct t as [|t].
  - cbn in Ha, Hb. subst x y. cbn. lia.
  - pose proof (IH b Hl' (fun t => Hs (S t)) (ex_intro _ t (conj Ha Hb))).
    destruct x, y; cbn in *; try lia; by specialize (H0 eq_refl).
Qed.

Lemma count_length m : (Sched.count m <= length m)%nat.
Proof. induction m as [|x m IH]; [done|]. rewrite count_cons. cbn. destruct x; lia. Qed.

Lemma count_pos m : any m = true -> (0 < Sched.count m)%nat.
Proof.
  intros [t Ht]%any_test. pose proof (count_lt (zeros (length m)) m) as H.
  assert (Sched.count (zeros (length m)) < Sched.count m)%nat; [|lia]. apply H.
  - apply length_replicate.
  - intros u. by rewrite test_zeros.
  - exists t. by rewrite test_zeros.
Qed.

(** The last active thread is active. *)
Lemma thread_last_active m t : thread_last m = Some t -> test m t = true.
Proof.
  unfold thread_last. intros H. assert (t ∈ filter (fun t => test m t = true) (reverse (seq 0 (length m)))) as Hin.
  { destruct (filter _ _) as [|x l]; [done|]. injection H as ->. left. }
  by apply list_elem_of_filter in Hin as [? _].
Qed.

Lemma thread_last_some m : any m = true -> exists t, thread_last m = Some t.
Proof.
  intros [t Ht]%any_test. unfold thread_last.
  assert (t ∈ filter (fun t => test m t = true) (reverse (seq 0 (length m)))) as Hin.
  { apply list_elem_of_filter. split; [done|]. apply elem_of_reverse, elem_of_seq. pose proof (test_lt _ _ Ht). lia. }
  destruct (filter _ _) as [|x l]; [by apply not_elem_of_nil in Hin|by exists x].
Qed.

(** ** The stack *)

Section Stack.
Context (nt : nat).

(** Masks are non-empty and grow strictly towards the bottom of the stack. *)
Fixpoint chain (m : list bool) (st : list ipdom_entry_t) : Prop :=
  length m = nt /\ any m = true /\
  match st with
  | [] => True
  | e :: rest => (forall t, test m t = true -> test (orig_tmask e) t = true) /\
      (exists t, test m t = false /\ test (orig_tmask e) t = true) /\ chain (orig_tmask e) rest
  end.

Definition simt_inv (w : warp_t) : Prop := chain (w_tmask w) (ipdom_stack w).

Lemma chain_head m st : chain m st -> length m = nt /\ any m = true.
Proof. destruct st; cbn; tauto. Qed.

Lemma chain_depth m st : chain m st -> (Sched.count m + length st <= nt)%nat.
Proof.
  revert m. induction st as [|e st IH]; intros m H.
  - destruct H as (<- & _). cbn. pose proof (count_length m). lia.
  - destruct H as (Hl & _ & Hs & Hx & Hc). specialize (IH _ Hc). apply chain_head in Hc as [Hl' _]. cbn.
    pose proof (count_lt m (orig_tmask e) ltac:(lia) Hs Hx). lia.
Qed.

(** The two sides of a split. *)
Definition else_of (m th : list bool) : list bool := mask_and m (mask_not th).

Lemma test_else m th t : length m = nt -> length th = nt ->
  test (else_of m th) t = test m t && negb (test th t).
Proof.
  intros Hm Ht. unfold else_of. rewrite test_and. destruct (decide (t < nt)%nat).
  - by rewrite test_not by lia.
  - assert (test m t = false) as -> by (apply not_true_iff_false; intros ?%test_lt; lia). done.
Qed.

Lemma mask_len a b : length a = nt -> length b = nt -> length (mask_and a b) = nt.
Proof. intros. unfold mask_and. rewrite length_zip_with. lia. Qed.

Lemma not_len a : length (mask_not a) = length a.
Proof. apply length_map. Qed.

(** A divergent split narrows the mask to one side and pushes the whole. *)
Lemma split_chain m st th e : chain m st -> length th = nt -> (forall t, test th t = true -> test m t = true) ->
  any th = true -> any (else_of m th) = true -> orig_tmask e = m ->
  chain th (e :: st) /\ chain (else_of m th) (e :: st).
Proof.
  intros Hc Hl Hs Ha Hb He. pose proof (chain_head m st Hc) as [Hm _].
  pose proof Ha as [t Ht]%any_test. pose proof Hb as [u Hu]%any_test. rewrite test_else in Hu by done.
  apply andb_true_iff in Hu as [Hu1 Hu2]. apply negb_true_iff in Hu2.
  split; (split; [|split; [done|]]; cbn; [|rewrite He; split; [|split; [|done]]]).
  - done.
  - done.
  - by exists u.
  - apply mask_len; by rewrite ?not_len.
  - intros x. rewrite test_else by done. intros [? _]%andb_true_iff. done.
  - exists t. rewrite test_else, Ht, andb_false_r by done. split; [done|by apply Hs].
Qed.

Lemma split_ok w pc th : simt_inv w -> length th = nt -> (forall t, test th t = true -> test (w_tmask w) t = true) ->
  exists w' m, split_warp (nt - 1) w pc th = Some (w', m) /\ simt_inv (w' <| w_tmask := m |>) /\ any m = true /\
    (if any th && any (else_of (w_tmask w) th)
     then w' = w <| ipdom_stack := {| orig_tmask := w_tmask w; else_PC := pc; fallthrough := false |} :: ipdom_stack w |> /\
          (m = th \/ m = else_of (w_tmask w) th)
     else w' = w /\ m = w_tmask w).
Proof.
  intros HI Hl Hs. unfold split_warp. fold (else_of (w_tmask w) th).
  destruct (any th) eqn:Ea; destruct (any (else_of (w_tmask w) th)) eqn:Eb; cbn [andb];
    try (eexists _, _; split; [done|]; destruct w; cbn in *; split; [done|];
         split; [by apply (chain_head _ _ HI)|done]).
  assert (Hd : (2 + length (ipdom_stack w) <= nt)%nat).
  { pose proof (chain_depth _ _ HI). pose proof (chain_head _ _ HI) as [Hm _].
    assert (Sched.count th < Sched.count (w_tmask w))%nat.
    { apply count_lt; [lia|done|]. apply any_test in Eb as [u Hu]. rewrite test_else in Hu by done.
      apply andb_true_iff in Hu as [Hu1 Hu2]. apply negb_true_iff in Hu2. by exists u. }
    pose proof (count_pos th Ea). lia. }
  rewrite (proj2 (Nat.eqb_neq _ _)) by lia.
  pose proof (split_chain _ _ th {| orig_tmask := w_tmask w; else_PC := pc; fallthrough := false |}
    HI Hl Hs Ea Eb eq_refl) as [H1 H2].
  eexists _, _. split; [done|]. case_if; (split; [done|]; split; [done|]; split; [done|tauto]).
Qed.

(** A join that matches the top of the stack flips to the other side or pops. *)
Lemma join_ok w ptr : simt_inv w ->
  match join_warp w ptr with
  | None => ipdom_stack w = [] /\ ptr <> 0
  | Some (w', m) => simt_inv (w' <| w_tmask := m |>) /\ any m = true
  end.
Proof.
  intros HI. unfold join_warp. destruct (Z.eqb_spec ptr (Z.of_nat (length (ipdom_stack w)))) as [E|E]; cbn [negb].
  { destruct w. split; [done|]. by apply (chain_head _ _ HI). }
  unfold simt_inv in HI. destruct (ipdom_stack w) as [|e st]; [done|].
  destruct HI as (Hl & Ha & Hs & [u [Hu1 Hu2]] & Hc). pose proof (chain_head _ _ Hc) as [Hl' Ha'].
  destruct (fallthrough e); [done|]. fold (mask_not (w_tmask w)).
  assert (Hx : forall t, test (mask_and (mask_not (w_tmask w)) (orig_tmask e)) t =
                         test (orig_tmask e) t && negb (test (w_tmask w) t)).
  { intros t. rewrite test_and. destruct (decide (t < nt)%nat); [rewrite test_not by lia; apply andb_comm|].
    assert (test (orig_tmask e) t = false) as -> by (apply not_true_iff_false; intros ?%test_lt; lia).
    by rewrite andb_false_r. }
  assert (Hany : any (mask_and (mask_not (w_tmask w)) (orig_tmask e)) = true).
  { apply any_test. exists u. by rewrite Hx, Hu1, Hu2. }
  split; [|done]. unfold simt_inv. cbn. split; [apply mask_len; by rewrite ?not_len|]. split; [done|].
  split; [intros t; rewrite Hx; by intros [? _]%andb_true_iff|]. split; [|done].
  apply any_test in Ha as [v Hv]. exists v. rewrite Hx, Hv, andb_false_r. split; [done|by apply Hs].
Qed.

End Stack.

(** ** The unit on a core *)

Section Unit.
Context (XLEN : Z) (num_warps nt num_cores : nat) (num_barriers : Z).

Abbreviation run1 := (process XLEN num_warps nt num_cores num_barriers).

(** The warp a device holds. *)
Definition warp_of (d : device_t) (k wid : nat) : option warp_t := c ← d_cores d !! k; warps_ (c_sched c) !! wid.

(** A split or join of warp [wid] with all its operands. *)
Definition simt_trace (wid : nat) (t : wctl_trace) : Prop :=
  x_wid t = wid /\ x_eop t = true /\ length (x_rs1 t) = nt /\ (x_type t = WCTL_SPLIT \/ x_type t = WCTL_JOIN).

(** Run traces until one aborts: the final device, or the device and the trace that aborted. *)
Fixpoint wctl_run (d : device_t) (k : nat) (ts : list wctl_trace) : device_t + device_t * wctl_trace :=
  match ts with
  | [] => inl d
  | t :: ts => match run1 d k t with Some (d', _, _) => wctl_run d' k ts | None => inr (d, t) end
  end.

Lemma cond_mask_spec tm rs1 neg : length rs1 = nt -> exists th, cond_mask nt tm rs1 neg = Some th /\ length th = nt /\
  forall t, test th t = bool_decide (t < nt)%nat && (test tm t && xorb (negb (Z.land (default 0 (rs1 !! t)) 1 =? 0)) neg).
Proof.
  intros Hl. unfold cond_mask. rewrite (proj2 (Nat.ltb_ge _ _)) by lia. eexists. split; [done|].
  split; [by rewrite length_map, length_seq|]. intros t. apply test_map_seq.
Qed.

(** Installing a non-empty mask changes the warp and nothing else. *)
Lemma install_ok d k c wid w w' m : d_cores d !! k = Some c -> warps_ (c_sched c) !! wid = Some w -> any m = true ->
  exists d', install d k c wid w' m = Some (d', true) /\ warp_of d' k wid = Some (w' <| w_tmask := m |>) /\
    exists c', d_cores d' !! k = Some c' /\ ipdom_size_ (c_sched c') = ipdom_size_ (c_sched c).
Proof.
  intros Hk Hw Hm. pose proof (lookup_lt_Some _ _ _ Hk). pose proof (lookup_lt_Some _ _ _ Hw).
  unfold install, setTmask, set_warp. rproj. rewrite list_lookup_insert_eq by done. cbn. rewrite Hm. cbn.
  eexists. split; [done|]. unfold warp_of, set_core. cbn. rewrite list_lookup_insert_eq by done. cbn.
  rewrite list_insert_insert_eq, list_lookup_insert_eq by done. split; [done|]. by eexists.
Qed.

(** One split or join of a well-formed warp. *)
Lemma process_simt d k c wid w t : d_cores d !! k = Some c -> warps_ (c_sched c) !! wid = Some w ->
  ipdom_size_ (c_sched c) = (nt - 1)%nat -> simt_inv nt w -> simt_trace wid t ->
  match run1 d k t with
  | None => x_type t = WCTL_JOIN /\ ipdom_stack w = []
  | Some (d', _, keep) => keep = true /\ exists c' w', d_cores d' !! k = Some c' /\ warps_ (c_sched c') !! wid = Some w' /\
      ipdom_size_ (c_sched c') = (nt - 1)%nat /\ simt_inv nt w'
  end.
Proof.
  intros Hk Hw Hsz HI (Hwid & Heop & Hlen & Hty). unfold process. rewrite Hk. cbn. rewrite Hwid, Hw. cbn. rewrite Heop.
  pose proof (chain_head _ _ _ HI) as [Hml Hma].
  assert (Hinst : forall w' m, simt_inv nt (w' <| w_tmask := m |>) -> any m = true ->
    exists d', install d k c wid w' m = Some (d', true) /\ exists c' w', d_cores d' !! k = Some c' /\
      warps_ (c_sched c') !! wid = Some w' /\ ipdom_size_ (c_sched c') = (nt - 1)%nat /\ simt_inv nt w').
  { intros w' m HI' Hm. destruct (install_ok d k c wid w w' m Hk Hw Hm) as (d' & Hd & Hwo & c' & Hc & Hs).
    exists d'. split; [done|]. unfold warp_of in Hwo. rewrite Hc in Hwo. cbn in Hwo.
    exists c', (w' <| w_tmask := m |>). by rewrite Hs. }
  destruct Hty as [Hty|Hty]; rewrite Hty.
  - destruct (cond_mask_spec (w_tmask w) (x_rs1 t) (x_cond_neg t) Hlen) as (th & -> & Hl & Ht). cbn. rewrite Hsz.
    destruct (split_ok nt w (wrap XLEN (x_PC t + 4)) th HI Hl) as (w' & m & -> & HI' & Hm & _).
    { intros u. rewrite Ht. by intros [_ [? _]%andb_true_iff]%andb_true_iff. }
    cbn. destruct (Hinst w' m HI' Hm) as (d' & -> & Hd). cbn. done.
  - destruct (thread_last_some (w_tmask w) Hma) as [u Hu]. rewrite Hu. cbn.
    pose proof (test_lt _ _ (thread_last_active _ _ Hu)).
    destruct (lookup_lt_is_Some_2 (x_rs1 t) u ltac:(lia)) as [v ->]. cbn.
    pose proof (join_ok nt w v HI) as Hj. destruct (join_warp w v) as [[w' m]|]; cbn; [|by destruct Hj].
    destruct Hj as [HI' Hm]. destruct (Hinst w' m HI' Hm) as (d' & -> & Hd). cbn. done.
Qed.

(** C24 (bounds): starting from a warp with an empty split stack and a non-empty
    mask, any sequence of splits and joins with arbitrary operands keeps the
    warp active and the stack within its [NUM_THREADS - 1] entries; the only
    abort it can meet is a join on an empty stack. *)
Theorem simt_stack_bounded d k c wid w ts :
  d_cores d !! k = Some c -> warps_ (c_sched c) !! wid = Some w -> ipdom_size_ (c_sched c) = (nt - 1)%nat ->
  ipdom_stack w = [] -> length (w_tmask w) = nt -> any (w_tmask w) = true ->
  Forall (simt_trace wid) ts ->
  match wctl_run d k ts with
  | inl d' => exists w', warp_of d' k wid = Some w' /\ any (w_tmask w') = true /\ (length (ipdom_stack w') <= nt - 1)%nat
  | inr (d', t) => x_type t = WCTL_JOIN /\ exists w', warp_of d' k wid = Some w' /\ ipdom_stack w' = []
  end.
Proof.
  intros Hk Hw Hsz Hst Hl Ha Hts.
  assert (HI : simt_inv nt w) by (unfold simt_inv; rewrite Hst; done). clear Hst Hl Ha.
  revert d c w Hk Hw Hsz HI. induction Hts as [|t ts Ht _ IH]; intros d c w Hk Hw Hsz HI; cbn.
  - exists w. unfold warp_of. rewrite Hk. cbn. split; [done|].
    pose proof (chain_head _ _ _ HI) as [_ Ha]. split; [done|].
    pose proof (chain_depth _ _ _ HI). pose proof (count_pos _ Ha). lia.
  - pose proof (process_simt d k c wid w t Hk Hw Hsz HI Ht) as Hp.
    destruct (run1 d k t) as [[[d' dst] keep]|].
    + destruct Hp as (_ & c' & w' & ? & ? & ? & ?). by eapply IH.
    + destruct Hp as [? ?]. split; [done|]. exists w. unfold warp_of. by rewrite Hk.
Qed.

End Unit.

(** ** Structured programs

    Blocks of straight code and two-way branches, whose condition each thread
    evaluates for itself. *)

Inductive prog :=
| PSkip
| PWork (b : nat)
| PSeq (p q : prog)
| PIf (c : nat -> bool) (p q : prog).

(** What one thread does. *)
Fixpoint thread_sem (p : prog) (t : nat) : list nat :=
  match p with
  | PSkip => []
  | PWork b => [b]
  | PSeq p q => thread_sem p t ++ thread_sem q t
  | PIf c p q => if c t then thread_sem p t else thread_sem q t
  end.

(** The code of the idiom: [ISplit r c] is [r = vx_split(c)], [IBranch c a]
    jumps to [a] when the condition of the warp's last active thread is false,
    [IJoin r] is [vx_join(r)].  Addresses count instructions of four bytes. *)
Inductive instr := IWork (b : nat) | ISplit (r : nat) (c : nat -> bool) | IBranch (c : nat -> bool) (a : nat)
| IJump (a : nat) | IJoin (r : nat).

Fixpoint compile (pc r : nat) (p : prog) : list instr :=
  match p with
  | PSkip => []
  | PWork b => [IWork b]
  | PSeq p q => let P := compile pc r p in P ++ compile (pc + length P) r q
  | PIf c p q =>
      let P := compile (pc + 2) (S r) p in
      let Q := compile (pc + 3 + length P) (S r) q in
      [ISplit r c; IBranch c (pc + 3 + length P)] ++ P ++ [IJump (pc + 3 + length P + length Q)] ++ Q ++ [IJoin r]
  end.

Definition code_at (code : list instr) (pc : nat) (l : list instr) : Prop :=
  forall i x, l !! i = Some x -> code !! (pc + i)%nat = Some x.

Lemma code_at_app code pc l l' : code_at code pc (l ++ l') -> code_at code pc l /\ code_at code (pc + length l) l'.
Proof.
  intros H. split; intros i x Hi.
  - apply H. by apply lookup_app_l_Some.
  - rewrite <- Nat.add_assoc. apply H. rewrite lookup_app_r by lia. by rewrite Nat.add_comm, Nat.add_sub.
Qed.

Lemma code_at_cons code pc x l : code_at code pc (x :: l) -> code !! pc = Some x /\ code_at code (S pc) l.
Proof.
  intros H. split; [rewrite <- (Nat.add_0_r pc); by apply H|]. intros i y Hi.
  replace (S pc + i)%nat with (pc + S i)%nat by lia. by apply H.
Qed.

Section Machine.
Context (nt : nat) (code : list instr).

(** A warp, its token registers lane by lane, and the blocks executed so far with the threads that executed them. *)
Record mach := { m_warp : warp_t; m_tok : nat -> nat -> Z; m_log : list (nat * list bool) }.

Definition addr (pc : nat) : Z := 4 * Z.of_nat pc.

(** One instruction: the decoder advances the PC, then the unit executes. *)
Definition mach_step (s : mach) : option mach :=
  let w := m_warp s in
  i ← code !! Z.to_nat (w_PC w / 4);
  let pc := w_PC w in
  let w := w <| w_PC := pc + 4 |> in
  last ← thread_last (w_tmask w);
  match i with
  | IWork b => Some {| m_warp := w; m_tok := m_tok s; m_log := m_log s ++ [(b, w_tmask w)] |}
  | ISplit r c =>
      th ← cond_mask nt (w_tmask w) (map (fun t => b2z (c t)) (seq 0 nt)) false;
      let size := Z.of_nat (length (ipdom_stack w)) in
      let tok r' t := if (r' =? r)%nat && test (w_tmask w) t then size else m_tok s r' t in
      '(w, m) ← split_warp (nt - 1) w (pc + 4) th;
      Some {| m_warp := w <| w_tmask := m |>; m_tok := tok; m_log := m_log s |}
  | IBranch c a => Some {| m_warp := if c last then w else w <| w_PC := addr a |>; m_tok := m_tok s; m_log := m_log s |}
  | IJump a => Some {| m_warp := w <| w_PC := addr a |>; m_tok := m_tok s; m_log := m_log s |}
  | IJoin r => '(w, m) ← join_warp w (m_tok s r last);
      Some {| m_warp := w <| w_tmask := m |>; m_tok := m_tok s; m_log := m_log s |}
  end.

Fixpoint mach_run (n : nat) (s : mach) : option mach :=
  match n with O => Some s | S n => s' ← mach_step s; mach_run n s' end.

Lemma mach_run_app a b s s' s'' : mach_run a s = Some s' -> mach_run b s' = Some s'' -> mach_run (a + b) s = Some s''.
Proof.
  revert s. induction a as [|a IH]; intros s; cbn; [by intros [= ->]|].
  destruct (mach_step s); [|done]. cbn. apply IH.
Qed.

Lemma mach_run_step s s' : mach_step s = Some s' -> mach_run 1 s = Some s'.
Proof. cbn. by intros ->. Qed.

(** The blocks one thread took part in. *)
Definition view (t : nat) (l : list (nat * list bool)) : list nat :=
  omap (fun e => if test e.2 t then Some e.1 else None) l.

Lemma view_app t l l' : view t (l ++ l') = view t l ++ view t l'.
Proof. apply omap_app. Qed.

(** The machine at [pc] with mask [m], otherwise as [w]. *)
Definition at_pc (w : warp_t) (pc : nat) (m : list bool) : warp_t := w <| w_PC := addr pc |> <| w_tmask := m |>.

(** A run of the code of [p] from [pc] to [pc']: it restores the warp, keeps
    the token registers below [r], and every thread of the mask sees its own path. *)
Definition runs (p : prog) (r pc pc' : nat) : Prop :=
  forall w m tok log, chain nt m (ipdom_stack w) -> exists n tok' L,
    mach_run n {| m_warp := at_pc w pc m; m_tok := tok; m_log := log |} =
      Some {| m_warp := at_pc w pc' m; m_tok := tok'; m_log := log ++ L |} /\
    (forall r' t, (r' < r)%nat -> tok' r' t = tok r' t) /\
    (forall t, view t L = if test m t then thread_sem p t else []).

Lemma fetch pc i : code !! pc = Some i -> code !! Z.to_nat (addr pc / 4) = Some i.
Proof. unfold addr. rewrite Z.mul_comm, Z.div_mul, Nat2Z.id by lia. done. Qed.

Lemma at_pc_next w pc m : (at_pc w pc m) <| w_PC := addr pc + 4 |> = at_pc w (S pc) m.
Proof. unfold at_pc, addr. rsimp. f_equal. lia. Qed.

(** One step, in terms of the instruction at the PC. *)
Lemma step_at pc i w m tok log l : code !! pc = Some i -> thread_last m = Some l ->
  mach_step {| m_warp := at_pc w pc m; m_tok := tok; m_log := log |} =
  match i with
  | IWork b => Some {| m_warp := at_pc w (S pc) m; m_tok := tok; m_log := log ++ [(b, m)] |}
  | ISplit r c =>
      th ← cond_mask nt m (map (fun t => b2z (c t)) (seq 0 nt)) false;
      '(w1, m') ← split_warp (nt - 1) (at_pc w (S pc) m) (addr (S pc)) th;
      Some {| m_warp := w1 <| w_tmask := m' |>;
              m_tok := fun r' t => if (r' =? r)%nat && test m t then Z.of_nat (length (ipdom_stack w)) else tok r' t;
              m_log := log |}
  | IBranch c a => Some {| m_warp := at_pc w (if c l then S pc else a) m; m_tok := tok; m_log := log |}
  | IJump a => Some {| m_warp := at_pc w a m; m_tok := tok; m_log := log |}
  | IJoin r => '(w1, m') ← join_warp (at_pc w (S pc) m) (tok r l);
      Some {| m_warp := w1 <| w_tmask := m' |>; m_tok := tok; m_log := log |}
  end.
Proof.
  intros Hi Hl. unfold mach_step. cbn [m_warp m_tok m_log]. change (w_PC (at_pc w pc m)) with (addr pc).
  rewrite (fetch _ _ Hi). cbn [mbind option_bind]. cbv zeta. rewrite at_pc_next.
  change (w_tmask (at_pc w (S pc) m)) with m. rewrite Hl. cbn [mbind option_bind].
  replace (addr pc + 4) with (addr (S pc)) by (unfold addr; lia).
  destruct i; try done. by destruct (c l).
Qed.

Lemma chain_last m st : chain nt m st -> exists l, thread_last m = Some l /\ test m l = true.
Proof.
  intros [_ Ha]%chain_head. destruct (thread_last_some m Ha) as [l Hl]. exists l. split; [done|].
  by apply thread_last_active.
Qed.

(** From the branch to the join, with a mask on which the condition is uniform. *)
Lemma run_side c p q r pc1 pcp pcq pcj v : code !! pc1 = Some (IBranch c pcq) -> pcp = S pc1 ->
  (exists pe, runs p (S r) pcp pe /\ code !! pe = Some (IJump pcj)) -> runs q (S r) pcq pcj ->
  forall w m tok log, chain nt m (ipdom_stack w) -> (forall t, test m t = true -> c t = v) -> exists n tok' L,
    mach_run n {| m_warp := at_pc w pc1 m; m_tok := tok; m_log := log |} =
      Some {| m_warp := at_pc w pcj m; m_tok := tok'; m_log := log ++ L |} /\
    (forall r' t, (r' < S r)%nat -> tok' r' t = tok r' t) /\
    (forall t, view t L = if test m t then thread_sem (PIf c p q) t else []).
Proof.
  intros Hb -> (pe & Hp & Hj) Hq w m tok log Hc Hv. destruct (chain_last m _ Hc) as (l & Hl & Hml).
  pose proof (step_at _ _ w m tok log l Hb Hl) as Hs. cbn in Hs. rewrite (Hv l Hml) in Hs.
  apply mach_run_step in Hs.
  assert (Hsem : forall t, (if test m t then thread_sem (PIf c p q) t else []) =
                           (if test m t then if v then thread_sem p t else thread_sem q t else [])).
  { intros t. destruct (test m t) eqn:E; [|done]. cbn. by rewrite (Hv t E). }
  destruct v.
  - destruct (Hp w m tok log Hc) as (n & tok' & L & Hr & Ht & HL).
    pose proof (step_at _ _ w m tok' (log ++ L) l Hj Hl) as Hs'. cbn in Hs'. apply mach_run_step in Hs'.
    exists (1 + (n + 1))%nat, tok', L. split; [|split; [done|]].
    + eapply mach_run_app; [exact Hs|]. eapply mach_run_app; [exact Hr|exact Hs'].
    + intros t. by rewrite Hsem, HL.
  - destruct (Hq w m tok log Hc) as (n & tok' & L & Hr & Ht & HL).
    exists (1 + n)%nat, tok', L. split; [|split; [done|]].
    + eapply mach_run_app; [exact Hs|exact Hr].
    + intros t. by rewrite Hsem, HL.
Qed.

Lemma cond_then m c : length m = nt -> exists th,
  cond_mask nt m (map (fun t => b2z (c t)) (seq 0 nt)) false = Some th /\ length th = nt /\
  forall t, test th t = test m t && c t.
Proof.
  intros Hm. destruct (cond_mask_spec nt m (map (fun t => b2z (c t)) (seq 0 nt)) false) as (th & H & Hl & Ht).
  { by rewrite length_map, length_seq. }
  exists th. split; [done|]. split; [done|]. intros t. rewrite Ht, list_lookup_fmap.
  case_bool_decide as E; [rewrite lookup_seq_lt by done; cbn; by destruct (c t), (test m t)|].
  assert (test m t = false) as -> by (apply not_true_iff_false; intros ?%test_lt; lia). done.
Qed.

(** The flip of a join that follows one side of a split. *)
Lemma flip_mask m a t : length m = nt -> length a = nt -> (forall t, test a t = true -> test m t = true) ->
  test (mask_and (mask_not a) m) t = test m t && negb (test a t).
Proof.
  intros Hm Ha Hs. rewrite test_and. destruct (decide (t < nt)%nat); [rewrite test_not by lia; apply andb_comm|].
  assert (test m t = false) as -> by (apply not_true_iff_false; intros ?%test_lt; lia). by rewrite andb_false_r.
Qed.

(** A join whose token is the current depth does nothing. *)
Lemma join_nop w ptr : ptr = Z.of_nat (length (ipdom_stack w)) -> join_warp w ptr = Some (w, w_tmask w).
Proof. intros ->. unfold join_warp. by rewrite Z.eqb_refl. Qed.

(** A join with the token of the split on top of the stack. *)
Lemma join_top w e st : ipdom_stack w = e :: st ->
  join_warp w (Z.of_nat (length st)) =
    Some (if fallthrough e then (w <| ipdom_stack := st |>, orig_tmask e)
          else (w <| w_PC := else_PC e |> <| ipdom_stack := e <| fallthrough := true |> :: st |>,
                mask_and (mask_not (w_tmask w)) (orig_tmask e))).
Proof.
  intros E. unfold join_warp. rewrite E. rewrite (proj2 (Z.eqb_neq _ _)) by (cbn; lia). cbn.
  by destruct (fallthrough e).
Qed.

Definition entry (m : list bool) (pc : nat) (ft : bool) : ipdom_entry_t :=
  {| orig_tmask := m; else_PC := addr pc; fallthrough := ft |}.
Definition pushed (w : warp_t) (m : list bool) (pc : nat) (ft : bool) : warp_t :=
  w <| ipdom_stack := entry m pc ft :: ipdom_stack w |>.

(** The two joins of a divergent region, one after each side. *)
Lemma step_join_flip r pcj w m pc m1 tok log : code !! pcj = Some (IJoin r) -> chain nt m1 (entry m pc false :: ipdom_stack w) ->
  (forall t, test m1 t = true -> tok r t = Z.of_nat (length (ipdom_stack w))) ->
  mach_run 1 {| m_warp := at_pc (pushed w m pc false) pcj m1; m_tok := tok; m_log := log |} =
    Some {| m_warp := at_pc (pushed w m pc true) pc (mask_and (mask_not m1) m); m_tok := tok; m_log := log |}.
Proof.
  intros Hj Hc Ht. destruct (chain_last _ _ Hc) as (l & Hl & Hml). apply mach_run_step.
  rewrite (step_at _ _ _ _ _ _ _ Hj Hl), (Ht l Hml). by rewrite (join_top _ (entry m pc false) (ipdom_stack w)).
Qed.

Lemma step_join_pop r pcj w m pc m1 tok log : code !! pcj = Some (IJoin r) -> chain nt m1 (entry m pc true :: ipdom_stack w) ->
  (forall t, test m1 t = true -> tok r t = Z.of_nat (length (ipdom_stack w))) ->
  mach_run 1 {| m_warp := at_pc (pushed w m pc true) pcj m1; m_tok := tok; m_log := log |} =
    Some {| m_warp := at_pc w (S pcj) m; m_tok := tok; m_log := log |}.
Proof.
  intros Hj Hc Ht. destruct (chain_last _ _ Hc) as (l & Hl & Hml). apply mach_run_step.
  rewrite (step_at _ _ _ _ _ _ _ Hj Hl), (Ht l Hml). by rewrite (join_top _ (entry m pc true) (ipdom_stack w)).
Qed.

Section Region.
Context (c : nat -> bool) (p q : prog) (r pc1 pcq pcj : nat).
Context (Hbr : code !! pc1 = Some (IBranch c pcq)) (Hj : code !! pcj = Some (IJoin r)).
Context (Hp : exists pe, runs p (S r) (S pc1) pe /\ code !! pe = Some (IJump pcj)) (Hq : runs q (S r) pcq pcj).

(** Past the split, when every thread of the mask takes the same side. *)
Lemma uniform_region v w m tok log : chain nt m (ipdom_stack w) -> (forall t, test m t = true -> c t = v) ->
  (forall t, test m t = true -> tok r t = Z.of_nat (length (ipdom_stack w))) -> exists n tok' L,
    mach_run n {| m_warp := at_pc w pc1 m; m_tok := tok; m_log := log |} =
      Some {| m_warp := at_pc w (S pcj) m; m_tok := tok'; m_log := log ++ L |} /\
    (forall r' t, (r' < r)%nat -> tok' r' t = tok r' t) /\
    (forall t, view t L = if test m t then thread_sem (PIf c p q) t else []).
Proof using Hbr Hj Hp Hq.
  intros Hc Hv Htok. destruct (chain_last m _ Hc) as (l & Hl & Hml).
  destruct (run_side c p q r pc1 _ pcq pcj v Hbr eq_refl Hp Hq w m tok log Hc Hv) as (n1 & tok2 & L1 & Hr1 & Ht1 & HL1).
  exists (n1 + 1)%nat, tok2, L1. split; [|split; [|done]].
  - eapply mach_run_app; [exact Hr1|]. apply mach_run_step.
    rewrite (step_at _ _ _ _ _ _ _ Hj Hl), join_nop; [done|]. rewrite Ht1 by lia. by apply Htok.
  - intros r' t Hr. by rewrite Ht1 by lia.
Qed.

(** Past a divergent split that chose the side [v]: this side, the flip, the other side, the pop. *)
Lemma divergent_region v w m m1 tok log : chain nt m (ipdom_stack w) ->
  chain nt m1 (entry m pc1 false :: ipdom_stack w) -> (forall t, test m1 t = test m t && Bool.eqb (c t) v) ->
  (forall t, test m t = true -> tok r t = Z.of_nat (length (ipdom_stack w))) -> exists n tok' L,
    mach_run n {| m_warp := at_pc (pushed w m pc1 false) pc1 m1; m_tok := tok; m_log := log |} =
      Some {| m_warp := at_pc w (S pcj) m; m_tok := tok'; m_log := log ++ L |} /\
    (forall r' t, (r' < r)%nat -> tok' r' t = tok r' t) /\
    (forall t, view t L = if test m t then thread_sem (PIf c p q) t else []).
Proof using Hbr Hj Hp Hq.
  intros Hc HI Hv Htok. pose proof (chain_head _ _ _ Hc) as [Hm _]. pose proof (chain_head _ _ _ HI) as [Hm1l _].
  destruct (run_side c p q r pc1 _ pcq pcj v Hbr eq_refl Hp Hq (pushed w m pc1 false) m1 tok log HI)
    as (n1 & tok2 & L1 & Hr1 & Ht1 & HL1).
  { intros t. rewrite Hv. intros [_ H]%andb_true_iff. by apply eqb_prop in H. }
  assert (Hflip : forall t, test (mask_and (mask_not m1) m) t = test m t && negb (Bool.eqb (c t) v)).
  { intros t. rewrite flip_mask by (done || (intros u; rewrite Hv; by intros [? _]%andb_true_iff)).
    rewrite Hv. by destruct (test m t), (Bool.eqb (c t) v). }
  pose proof (join_ok nt (at_pc (pushed w m pc1 false) (S pcj) m1) (Z.of_nat (length (ipdom_stack w))) HI) as HI2.
  rewrite (join_top _ (entry m pc1 false) (ipdom_stack w)) in HI2 by done. destruct HI2 as [HI2 _].
  change (simt_inv nt _) with (chain nt (mask_and (mask_not m1) m) (entry m pc1 true :: ipdom_stack w)) in HI2.
  destruct (run_side c p q r pc1 _ pcq pcj (negb v) Hbr eq_refl Hp Hq (pushed w m pc1 true)
    (mask_and (mask_not m1) m) tok2 (log ++ L1) HI2) as (n2 & tok3 & L2 & Hr2 & Ht2 & HL2).
  { intros t. rewrite Hflip. intros [_ H]%andb_true_iff. by destruct (c t), v. }
  exists (n1 + (1 + (n2 + 1)))%nat, tok3, (L1 ++ L2). split; [|split].
  - eapply mach_run_app; [exact Hr1|]. eapply mach_run_app; [apply (step_join_flip r pcj w m pc1 m1 tok2); [done..|]|].
    { intros t. rewrite Hv, Ht1 by lia. intros [? _]%andb_true_iff. by apply Htok. }
    eapply mach_run_app; [exact Hr2|]. rewrite app_assoc. apply (step_join_pop r pcj w m pc1 _ tok3); [done..|].
    intros t. rewrite Hflip, Ht2, Ht1 by lia. intros [? _]%andb_true_iff. by apply Htok.
  - intros r' t Hr. by rewrite Ht2, Ht1 by lia.
  - intros t. rewrite view_app, HL1, HL2, Hv, Hflip. destruct (test m t), (Bool.eqb (c t) v); cbn; by rewrite ?app_nil_r.
Qed.

Lemma runs_if pc : pc1 = S pc -> code !! pc = Some (ISplit r c) -> runs (PIf c p q) r pc (S pcj).
Proof using Hbr Hj Hp Hq.
  intros Epc Hsp w m tok log Hc. pose proof (chain_head _ _ _ Hc) as [Hm Hma].
  destruct (chain_last m _ Hc) as (l & Hl & Hml). destruct (cond_then m c Hm) as (th & Eth & Hth & Ht).
  destruct (split_ok nt (at_pc w (S pc) m) (addr (S pc)) th Hc Hth) as (w1 & m1 & Es & HI & Hm1 & Hcase).
  { intros t. rewrite Ht. by intros [? _]%andb_true_iff. }
  change (w_tmask (at_pc w (S pc) m)) with m in Hcase.
  set (tok1 := fun r' t => if (r' =? r)%nat && test m t then Z.of_nat (length (ipdom_stack w)) else tok r' t).
  assert (Htok : forall r' t, (r' < r)%nat -> tok1 r' t = tok r' t).
  { intros r' t Hr. subst tok1. cbn. by rewrite (proj2 (Nat.eqb_neq r' r)) by lia. }
  assert (Htokr : forall t, test m t = true -> tok1 r t = Z.of_nat (length (ipdom_stack w))).
  { intros t E. subst tok1. cbn. by rewrite Nat.eqb_refl, E. }
  pose proof (step_at _ _ w m tok log l Hsp Hl) as Hs0. cbn beta iota in Hs0. rewrite Eth in Hs0. cbn [mbind option_bind] in Hs0.
  rewrite Es in Hs0. cbn [mbind option_bind] in Hs0. fold tok1 in Hs0. apply mach_run_step in Hs0.
  assert (Helse : forall t, test (else_of m th) t = test m t && negb (c t)).
  { intros t. rewrite (test_else nt), Ht by done. by destruct (test m t), (c t). }
  assert (exists n tok' L, mach_run n {| m_warp := w1 <| w_tmask := m1 |>; m_tok := tok1; m_log := log |} =
      Some {| m_warp := at_pc w (S pcj) m; m_tok := tok'; m_log := log ++ L |} /\
    (forall r' t, (r' < r)%nat -> tok' r' t = tok1 r' t) /\
    (forall t, view t L = if test m t then thread_sem (PIf c p q) t else [])) as (n & tok' & L & Hr & Hrt & HL).
  { rewrite <- Epc in Hcase. destruct (any th && any (else_of m th)) eqn:Ediv.
    - destruct Hcase as [-> Hm1c].
      destruct Hm1c as [->| ->]; [apply (divergent_region true w m th)|apply (divergent_region false w m (else_of m th))];
        try done; intros t; rewrite ?Ht, ?Helse; by destruct (test m t), (c t).
    - destruct Hcase as [-> ->]. apply andb_false_iff in Ediv as [E|E];
        [apply (uniform_region false)|apply (uniform_region true)]; try done; intros t Et;
        apply (proj1 (any_false _)) with (t := t) in E; rewrite ?Ht, ?Helse, Et in E; by destruct (c t). }
  exists (1 + n)%nat, tok', L. split; [by eapply mach_run_app|]. split; [|done].
  intros r' t Hr'. by rewrite Hrt, Htok.
Qed.

End Region.

(** The code of a program runs it. *)
Lemma compile_runs p : forall r pc, code_at code pc (compile pc r p) -> runs p r pc (pc + length (compile pc r p)).
Proof.
  induction p as [|b|p IHp q IHq|c p IHp q IHq]; intros r pc Hcode.
  - intros w m tok log _. exists 0%nat, tok, []. cbn. rewrite Nat.add_0_r, app_nil_r. split; [done|].
    split; [done|]. intros t. by destruct (test m t).
  - intros w m tok log Hc. destruct (chain_last m _ Hc) as (l & Hl & Hml). apply code_at_cons in Hcode as [Hi _].
    exists 1%nat, tok, [(b, m)]. split; [|split; [done|]].
    + apply mach_run_step. rewrite (step_at _ _ _ _ _ _ _ Hi Hl). cbn. by rewrite Nat.add_1_r.
    + intros t. unfold view. cbn. by destruct (test m t).
  - cbn in *. apply code_at_app in Hcode as [H1 H2]. intros w m tok log Hc.
    destruct (IHp r pc H1 w m tok log Hc) as (n1 & tok1 & L1 & Hr1 & Ht1 & HL1).
    destruct (IHq r _ H2 w m tok1 (log ++ L1) Hc) as (n2 & tok2 & L2 & Hr2 & Ht2 & HL2).
    exists (n1 + n2)%nat, tok2, (L1 ++ L2). rewrite length_app, Nat.add_assoc, app_assoc. split; [|split].
    + by eapply mach_run_app.
    + intros r' t Hr. by rewrite Ht2, Ht1.
    + intros t. rewrite view_app, HL1, HL2. by destruct (test m t).
  - cbn [compile] in Hcode |- *. cbv zeta in *. set (P := compile (pc + 2) (S r) p) in *.
    set (Q := compile (pc + 3 + length P) (S r) q) in *. set (pcj := (pc + 3 + length P + length Q)%nat) in *.
    cbn [app] in Hcode. apply code_at_cons in Hcode as [Hsp Hcode]. apply code_at_cons in Hcode as [Hbr Hcode].
    apply code_at_app in Hcode as [HP Hcode]. apply code_at_cons in Hcode as [Hjmp Hcode].
    apply code_at_app in Hcode as [HQ Hcode]. apply code_at_cons in Hcode as [Hjoin _].
    replace (pc + _)%nat with (S pcj) by (subst pcj; cbn; rewrite length_app; cbn; rewrite length_app; cbn; lia).
    assert (E2 : S (S pc) = (pc + 2)%nat) by lia. assert (E3 : S (pc + 2 + length P) = (pc + 3 + length P)%nat) by lia.
    rewrite E2 in HP, Hjmp, HQ, Hjoin. rewrite E3 in HQ, Hjoin.
    apply (runs_if c p q r (S pc) (pc + 3 + length P) pcj); try done; [rewrite E2; by eauto|by apply IHq].
Qed.

End Machine.

(** C9 (refinement): a warp with a well-formed split stack that runs the code
    of a structured program, arbitrarily nested, terminates at the end of the
    code with its mask, its stack and every other field as they were, and each
    thread of the mask has executed exactly the blocks of its own path, in
    order, while no other thread has executed anything. *)
Theorem simt_reconverges nt code p pc r w m tok log : code_at code pc (compile pc r p) ->
  chain nt m (ipdom_stack w) -> exists n tok' L,
    mach_run nt code n {| m_warp := at_pc w pc m; m_tok := tok; m_log := log |} =
      Some {| m_warp := at_pc w (pc + length (compile pc r p)) m; m_tok := tok'; m_log := log ++ L |} /\
    forall t, view t L = if test m t then thread_sem p t else [].
Proof.
  intros Hcode Hc. destruct (compile_runs nt code p r pc Hcode w m tok log Hc) as (n & tok' & L & Hr & _ & HL).
  by exists n, tok', L.
Qed.

(** The nested branches of the conformance test, on four threads. *)
Module SimtDemo.

Definition divergence : prog :=
  PIf (fun t => t <? 2)%nat
    (PSeq (PIf (fun t => t <? 1)%nat (PWork 65) (PWork 66)) (PIf (fun t => t <? 0)%nat (PWork 67) PSkip))
    (PIf (fun t => t <? 3)%nat (PWork 67) (PWork 68)).

Definition w0 : warp_t := warp_init 4.
Definition code0 : list instr := compile 0 0 divergence.

Lemma simt_reconverges_witness : exists n tok' L,
  mach_run 4 code0 n {| m_warp := at_pc w0 0 (replicate 4 true); m_tok := fun _ _ => 0; m_log := [] |} =
    Some {| m_warp := at_pc w0 (length code0) (replicate 4 true); m_tok := tok'; m_log := L |} /\
  view 0 L = [65]%nat /\ view 1 L = [66]%nat /\ view 2 L = [67]%nat /\ view 3 L = [68]%nat.
Proof.
  destruct (simt_reconverges 4 code0 divergence 0 0 w0 (replicate 4 true) (fun _ _ => 0) []) as (n & tok' & L & Hr & HL).
  - intros i x Hi. exact Hi.
  - cbn. done.
  - exists n, tok', L. split; [exact Hr|]. rewrite !HL. done.
Defined.

Definition d0 : device_t :=
  {| d_cores := [{| c_sched := (Scheduler_init 2 4 (CtaDispatcher_init 4 2 0 14))
        <| warps_ := [w0 <| w_tmask := replicate 4 true |>; w0] |>; c_barriers := [] |}]; d_gbarriers := [] |}.

Definition split_trace (pc : Z) (rs1 : list Z) : wctl_trace := {|
  x_wid := 0; x_PC := pc; x_eop := true; x_wb := true; x_fetch_stall := true; x_type := WCTL_SPLIT;
  x_cond_neg := false; x_sync_bar := false; x_bar_arrive := false; x_rs1 := rs1; x_rs2 := [0;0;0;0]; x_dst := [0;0;0;0] |}.

Definition nested : list wctl_trace := [split_trace 0 [1;0;0;0]; split_trace 16 [0;1;1;1]; split_trace 32 [0;0;1;1]].

Lemma simt_stack_bounded_witness : exists d' w', wctl_run 64 2 4 1 2 d0 0 nested = inl d' /\
  warp_of d' 0 0 = Some w' /\ (length (ipdom_stack w') <= 3)%nat.
Proof.
  pose proof (simt_stack_bounded 64 2 4 1 2 d0 0 _ 0 (w0 <| w_tmask := replicate 4 true |>) nested
    eq_refl eq_refl eq_refl eq_refl eq_refl eq_refl) as H.
  assert (Forall (simt_trace 4 0) nested) as Hf by (repeat constructor; cbn; by left).
  specialize (H Hf). destruct (wctl_run 64 2 4 1 2 d0 0 nested) as [d'|] eqn:E; [|by vm_compute in E].
  destruct H as (w' & Hw & _ & Hl). exists d', w'. done.
Defined.

End SimtDemo.
