(* ===== verification/Alu.v ===== *)
(** * Integer unit

    [sim/simx/alu_unit.cpp]: the integer, branch, multiply/divide, vote,
    shuffle and gather operations of a warp.  A register is the 64-bit contents
    of [reg_data_t]; [ru], [ri], [r32u] and [r32i] are its views.  Signed
    overflow is two's complement, a shift by the width or more is [None], as
    is an [abort].  The reference is the RISC-V instruction set written with
    mathematical integers; the theorems compose the decoder with the unit and
    show every lane gets the value of the instruction set. *)

From S2P Require Import Prelude Rvc Decode RvcSpec Scoreboard Kmu CtaDispatcher Sched Barrier Wctl.

(** The part of a trace the unit uses. *)
Record alu_trace := {
  a_wid : nat; a_PC : Z; a_tmask : list bool; a_op : OpType; a_args : IntrArgs;
  a_rs1 : list Z; a_rs2 : list Z; a_rs3 : list Z
}.

(** [sext<T>] for a [w]-bit [T]. *)
Definition sextT (w word width : Z) : Z :=
  if width =? w then word
  else let mask := wrap w (Z.shiftl 1 width - 1) in
    if negb (Z.land (Z.shiftr word (width - 1)) 1 =? 0) then Z.lor word (wrap w (Z.lnot mask)) else Z.land word mask.

Section Alu.
Context (xlen64 : bool) (num_threads : nat).

Definition XLEN : Z := if xlen64 then 64 else 32.

Definition ru (r : Z) : Z := wrap XLEN r.
Definition ri (r : Z) : Z := sint XLEN r.
Definition r32u (r : Z) : Z := u32 r.
Definition r32i (r : Z) : Z := sint 32 r.

(** [rd.i = sext((uint64_t)result, 32)] *)
Definition set_w (result : Z) : Z := wrap XLEN (sextT 64 (u64 result) 32).

(** Shifts on 32-bit operands; a shift amount of 32 or more is undefined. *)
Definition shl32 (x s : Z) : option Z := if s <? 32 then Some (u32 (Z.shiftl x s)) else None.
Definition shr32 (x s : Z) : option Z := if s <? 32 then Some (u32 (Z.shiftr x s)) else None.

(** One lane of the [AluType] operations. *)
Definition alu_lane (op : AluType) (is_imm is_w_arg : bool) (imm32 pc rs1 rs2 : Z) : option Z :=
  let imm := sextT XLEN imm32 32 in
  let is_w := xlen64 && is_w_arg in
  let shamt_mask := wrap XLEN (Z.shiftl 1 (Z.log2_up XLEN) - 1) in
  let shamt_w := Z.land (if is_imm then imm32 else u32 (r32i rs2)) shamt_mask in
  let shamt := Z.land (if is_imm then imm else wrap XLEN (ri rs2)) shamt_mask in
  let opd_w := sint 32 (if is_imm then imm32 else r32i rs2) in
  let opd := if is_imm then imm else wrap XLEN (ri rs2) in
  match op with
  | ALU_LUI => Some (wrap XLEN imm)
  | ALU_AUIPC => Some (wrap XLEN (imm + pc))
  | ALU_ADD => Some (if is_w then set_w (sint 32 (r32i rs1 + opd_w)) else wrap XLEN (ri rs1 + opd))
  | ALU_SUB => Some (if is_w then set_w (sint 32 (r32i rs1 - opd_w)) else wrap XLEN (ri rs1 - opd))
  | ALU_SLT => Some (b2z (ri rs1 <? (if is_imm then sint XLEN imm else ri rs2)))
  | ALU_SLTU => Some (b2z (ru rs1 <? (if is_imm then imm else ru rs2)))
  | ALU_SLL => if is_w then set_w <$> shl32 (u32 (ri rs1)) shamt_w else Some (wrap XLEN (Z.shiftl (ri rs1) shamt))
  | ALU_SRA => if is_w then set_w <$> shr32 (sint 32 (ri rs1)) shamt_w else Some (wrap XLEN (Z.shiftr (ri rs1) shamt))
  | ALU_SRL => if is_w then set_w <$> shr32 (u32 (ri rs1)) shamt_w else Some (wrap XLEN (Z.shiftr (ru rs1) shamt))
  | ALU_AND => Some (wrap XLEN (Z.land (wrap XLEN (ri rs1)) opd))
  | ALU_OR => Some (wrap XLEN (Z.lor (wrap XLEN (ri rs1)) opd))
  | ALU_XOR => Some (wrap XLEN (Z.lxor (wrap XLEN (ri rs1)) opd))
  | ALU_CZERO =>
      let cond := negb (Z.lxor (b2z (ri rs2 =? 0)) imm32 =? 0) in
      Some (if cond then 0 else wrap XLEN (ri rs1))
  end.

(** Signed division and remainder with the cases of the source, on [w] bits. *)
Definition sdiv (w a b : Z) : Z :=
  let largest_negative := sint w (Z.shiftl 1 (w - 1)) in
  if b =? 0 then -1 else if (a =? largest_negative) && (b =? -1) then a else Z.quot a b.
Definition srem (w a b : Z) : Z :=
  let largest_negative := sint w (Z.shiftl 1 (w - 1)) in
  if b =? 0 then a else if (a =? largest_negative) && (b =? -1) then 0 else Z.rem a b.
Definition udiv (w a b : Z) : Z := if negb (b =? 0) then Z.quot a b else wrap w (-1).
Definition urem (a b : Z) : Z := if negb (b =? 0) then Z.rem a b else a.

(** One lane of the [MdvType] operations. *)
Definition mdv_lane (op : MdvType) (is_w_arg : bool) (rs1 rs2 : Z) : Z :=
  let is_w := xlen64 && is_w_arg in
  match op with
  | MDV_MUL => if is_w then set_w (sint 32 (r32i rs1 * r32i rs2)) else wrap XLEN (ri rs1 * ri rs2)
  | MDV_MULH => wrap XLEN (Z.shiftr (sint (2 * XLEN) (ri rs1 * ri rs2)) XLEN)
  | MDV_MULHSU => wrap XLEN (Z.shiftr (wrap (2 * XLEN) (ri rs1 * ru rs2)) XLEN)
  | MDV_MULHU => wrap XLEN (Z.shiftr (wrap (2 * XLEN) (ru rs1 * ru rs2)) XLEN)
  | MDV_DIV => if is_w then set_w (sdiv 32 (r32i rs1) (r32i rs2)) else wrap XLEN (sdiv XLEN (ri rs1) (ri rs2))
  | MDV_DIVU => if is_w then set_w (udiv 32 (r32u rs1) (r32u rs2)) else wrap XLEN (udiv XLEN (ru rs1) (ru rs2))
  | MDV_REM => if is_w then set_w (srem 32 (r32i rs1) (r32i rs2)) else wrap XLEN (srem XLEN (ri rs1) (ri rs2))
  | MDV_REMU => if is_w then set_w (urem (r32u rs1) (r32u rs2)) else wrap XLEN (urem (ru rs1) (ru rs2))
  end.

(** [rs1_data[t]] *)
Definition reg_at (l : list Z) (t : nat) : Z := default 0 (l !! t).

(** The loop over the active lanes; the other lanes keep the zero of [assign]. *)
Definition active_lanes (tmask : list bool) (f : nat -> option Z) : option (list Z) :=
  mapM (fun t => if test tmask t then f t else Some 0) (seq 0 num_threads).

(** Votes: what the loop over the active lanes collects, then one value for
    every lane from the first active one on. *)
Definition vote_pred (rs1 : list Z) (t : nat) : bool := negb (Z.land (ru (reg_at rs1 t)) 1 =? 0).

Definition vote_lanes (op : VoteType) (tmask : list bool) (rs1 : list Z) : list Z :=
  let act := filter (fun t => test tmask t = true) (seq 0 num_threads) in
  let has_vote_true := existsb (vote_pred rs1) act in
  let has_vote_false := existsb (fun t => negb (vote_pred rs1 t)) act in
  let ballot := fold_left (fun b t => if vote_pred rs1 t then Z.lor b (Z.shiftl 1 (Z.of_nat t)) else b) act 0 in
  let v := match op with
           | VOTE_ALL => b2z (negb has_vote_false)
           | VOTE_ANY => b2z has_vote_true
           | VOTE_UNI => b2z (negb has_vote_true || negb has_vote_false)
           | VOTE_BAL => ballot
           end in
  map (fun t => if (thread_start tmask <=? t)%nat then v else 0) (seq 0 num_threads).

(** The lane a shuffle reads. *)
Definition shfl_lane (op : ShflType) (t : nat) (bc : Z) : Z :=
  let t := Z.of_nat t in
  let bval := Z.land (Z.shiftr bc 0) 0x3f in
  let cval := Z.land (Z.shiftr bc 6) 0x3f in
  let mask := Z.land (Z.shiftr bc 12) 0x3f in
  let maxLane := Z.lor (Z.land t mask) (Z.land cval (Z.lnot mask)) in
  let minLane := Z.land t mask in
  let '(lane, pval) := match op with
    | SHFL_UP => (t - bval, t - bval >=? minLane)
    | SHFL_DOWN => (t + bval, t + bval <=? maxLane)
    | SHFL_BFLY => (Z.lxor t bval, Z.lxor t bval <=? maxLane)
    | SHFL_IDX => (Z.lor minLane (Z.land bval (Z.lnot mask)), Z.lor minLane (Z.land bval (Z.lnot mask)) <=? maxLane)
    end in
  let lane := if pval then lane else t in
  if lane <? Z.of_nat num_threads then lane else t.

(** Gather: the mask it leaves and the values it writes; [None] is a lane out of range. *)
Definition wgather_lane (src : Z) (active : list bool) (last_tid : nat) (t : alu_trace) (i : nat) : option (bool * Z) :=
  if Z.land (Z.of_nat i) 3 =? src then Some (false, 0)
  else
    let nominal := Z.land (Z.of_nat i) (Z.lnot 3) + src in
    if Z.of_nat num_threads <=? nominal then None
    else
      let sl := if test active (Z.to_nat nominal) then Z.to_nat nominal else last_tid in
      let offset := Z.land (u32 (Z.of_nat i - nominal)) 3 in
      Some (true, if offset =? 1 then ru (reg_at (a_rs1 t) sl) else if offset =? 2 then ru (reg_at (a_rs2 t) sl)
                  else if offset =? 3 then ru (reg_at (a_rs3 t) sl) else 0).

Definition wgather_lanes (src : Z) (t : alu_trace) : option (list bool * list Z) :=
  let start := thread_start (a_tmask t) in
  let last_tid := default start (thread_last (a_tmask t)) in
  l ← mapM (fun i => if (start <=? i)%nat then wgather_lane src (a_tmask t) last_tid t i
                     else Some (test (a_tmask t) i, 0)) (seq 0 num_threads);
  Some (l.*1, l.*2).

(** Conditional branches: the last active thread decides. *)
Definition branch_taken (cmp rs1 rs2 : Z) : option bool :=
  if cmp =? 0 then Some (ri rs1 =? ri rs2) else if cmp =? 1 then Some (negb (ri rs1 =? ri rs2))
  else if cmp =? 4 then Some (ri rs1 <? ri rs2) else if cmp =? 5 then Some (ri rs1 >=? ri rs2)
  else if cmp =? 6 then Some (ru rs1 <? ru rs2) else if cmp =? 7 then Some (ru rs1 >=? ru rs2)
  else None.

Definition zero_lanes : list Z := replicate num_threads 0.

(** [warp.PC = pc] *)
Definition set_pc (s : Scheduler) (wid : nat) (pc : Z) : option Scheduler :=
  w ← warps_ s !! wid; Some (set_warp s wid (w <| w_PC := wrap XLEN pc |>)).

(** The branch cases: the scheduler, the scoreboard and the link values. *)
Definition execute_br (heap : Z -> instr_trace_t) (cycles : Z) (s : Scheduler) (sb : Scoreboard) (t : alu_trace)
    (op : BrType) (cmp : Z) (is_rvc : bool) (off32 : Z) : option (Scheduler * Scoreboard * list Z) :=
  let offset := sextT XLEN off32 32 in
  let link_pc := wrap XLEN (a_PC t + (if is_rvc then 2 else 4)) in
  let links := map (fun i => if test (a_tmask t) i then link_pc else 0) (seq 0 num_threads) in
  match op with
  | BR_BR =>
      l ← thread_last (a_tmask t);
      taken ← branch_taken cmp (reg_at (a_rs1 t) l) (reg_at (a_rs2 t) l);
      s ← (if taken : bool then set_pc s (a_wid t) (a_PC t + offset) else Some s);
      Some (s, sb, zero_lanes)
  | BR_JAL => s ← set_pc s (a_wid t) (a_PC t + offset); Some (s, sb, links)
  | BR_JALR =>
      l ← thread_last (a_tmask t);
      s ← set_pc s (a_wid t) (ri (reg_at (a_rs1 t) l) + offset); Some (s, sb, links)
  | BR_SYS =>
      if off32 =? 0 then s ← trigger_ecall XLEN s (a_wid t) (a_PC t); Some (s, sb, zero_lanes)
      else if off32 =? 1 then s ← trigger_ebreak XLEN s (a_wid t) (a_PC t); Some (s, sb, zero_lanes)
      else if (off32 =? 2) || (off32 =? 0x102) || (off32 =? 0x302) then
        '(s, sb) ← mret heap cycles s sb (a_wid t); Some (s, sb, zero_lanes)
      else None
  end.

(** [AluUnit::execute]: the scheduler, the scoreboard, the mask of the trace and its results. *)
Definition execute (heap : Z -> instr_trace_t) (cycles : Z) (s : Scheduler) (sb : Scoreboard) (t : alu_trace)
    : option (Scheduler * Scoreboard * list bool * list Z) :=
  match a_op t, a_args t with
  | OpAlu op, AluArgs is_imm is_w imm =>
      d ← active_lanes (a_tmask t) (fun i => alu_lane op is_imm is_w imm (a_PC t) (reg_at (a_rs1 t) i) (reg_at (a_rs2 t) i));
      Some (s, sb, a_tmask t, d)
  | OpMdv op, MdvArgs is_w =>
      d ← active_lanes (a_tmask t) (fun i => Some (mdv_lane op is_w (reg_at (a_rs1 t) i) (reg_at (a_rs2 t) i)));
      Some (s, sb, a_tmask t, d)
  | OpVote op, _ => Some (s, sb, a_tmask t, vote_lanes op (a_tmask t) (a_rs1 t))
  | OpShfl op, _ =>
      d ← active_lanes (a_tmask t) (fun i =>
            Some (ru (reg_at (a_rs1 t) (Z.to_nat (shfl_lane op i (ri (reg_at (a_rs2 t) i)))))));
      Some (s, sb, a_tmask t, d)
  | OpWgather, WgatherArgs src => '(m, d) ← wgather_lanes src t; Some (s, sb, m, d)
  | OpBr op, BrArgs cmp is_rvc off =>
      '(s, sb, d) ← execute_br heap cycles s sb t op cmp is_rvc off; Some (s, sb, a_tmask t, d)
  | _, _ => None
  end.

(** [AluUnit::latency_of] *)
Definition latency_of (op : OpType) : option Z :=
  match op with
  | OpAlu _ | OpVote _ | OpShfl _ | OpWgather | OpBr _ => Some 2
  | OpMdv (MDV_MUL | MDV_MULHU | MDV_MULH | MDV_MULHSU) => Some 2
  | OpMdv _ => Some (XLEN + 2)
  | _ => None
  end.

End Alu.

(** ** The instruction set *)

Inductive rvop := ADD | SUB | SLL | SLT | SLTU | XOR | SRL | SRA | OR | AND
| ADDW | SUBW | SLLW | SRLW | SRAW
| MUL | MULH | MULHSU | MULHU | DIV | DIVU | REM | REMU
| MULW | DIVW | DIVUW | REMW | REMUW
| CZERO_EQZ | CZERO_NEZ.

Section Isa.
Context (xlen64 : bool).
Abbreviation n := (XLEN xlen64).

(** Opcode, funct3 and funct7 of the base integer, multiply and conditional-zero instructions. *)
Definition rv_r (f7 f3 : Z) : option rvop :=
  if f7 =? 0x00 then nth (Z.to_nat f3) [Some ADD; Some SLL; Some SLT; Some SLTU; Some XOR; Some SRL; Some OR; Some AND] None
  else if f7 =? 0x20 then nth (Z.to_nat f3) [Some SUB; None; None; None; None; Some SRA; None; None] None
  else if f7 =? 0x01 then nth (Z.to_nat f3) [Some MUL; Some MULH; Some MULHSU; Some MULHU; Some DIV; Some DIVU; Some REM; Some REMU] None
  else if f7 =? 0x07 then nth (Z.to_nat f3) [None; None; None; None; None; Some CZERO_EQZ; None; Some CZERO_NEZ] None
  else None.
Definition rv_rw (f7 f3 : Z) : option rvop :=
  if f7 =? 0x00 then nth (Z.to_nat f3) [Some ADDW; Some SLLW; None; None; None; Some SRLW; None; None] None
  else if f7 =? 0x20 then nth (Z.to_nat f3) [Some SUBW; None; None; None; None; Some SRAW; None; None] None
  else if f7 =? 0x01 then nth (Z.to_nat f3) [Some MULW; None; None; None; Some DIVW; Some DIVUW; Some REMW; Some REMUW] None
  else None.
(** Immediate forms; a shift has its kind in the bits above the amount, six bits of it on RV64. *)
Definition rv_i (f7 f3 : Z) : option rvop :=
  let kind := if xlen64 then Z.shiftr f7 1 else f7 in
  if f3 =? 1 then (if kind =? 0 then Some SLL else None)
  else if f3 =? 5 then (if kind =? 0 then Some SRL else if kind =? (if xlen64 then 0x10 else 0x20) then Some SRA else None)
  else nth (Z.to_nat f3) [Some ADD; None; Some SLT; Some SLTU; Some XOR; None; Some OR; Some AND] None.
Definition rv_iw (f7 f3 : Z) : option rvop :=
  if f3 =? 0 then Some ADDW
  else if f3 =? 1 then (if f7 =? 0 then Some SLLW else None)
  else if f3 =? 5 then (if f7 =? 0 then Some SRLW else if f7 =? 0x20 then Some SRAW else None)
  else None.

Definition rv_table (opc f7 f3 : Z) : option rvop :=
  if opc =? 0x33 then rv_r f7 f3 else if opc =? 0x13 then rv_i f7 f3
  else if xlen64 && (opc =? 0x3B) then rv_rw f7 f3 else if xlen64 && (opc =? 0x1B) then rv_iw f7 f3 else None.

(** The value of an instruction on [n]-bit operands. *)
Definition sx32 (v : Z) : Z := wrap n (sint 32 v).

Definition rv_sem (o : rvop) (x y : Z) : Z :=
  let sg := sint n in
  match o with
  | ADD => wrap n (x + y) | SUB => wrap n (x - y)
  | SLL => wrap n (x * 2 ^ (y mod n)) | SRL => x / 2 ^ (y mod n) | SRA => wrap n (sg x / 2 ^ (y mod n))
  | SLT => b2z (sg x <? sg y) | SLTU => b2z (x <? y)
  | XOR => Z.lxor x y | OR => Z.lor x y | AND => Z.land x y
  | ADDW => sx32 (x + y) | SUBW => sx32 (x - y)
  | SLLW => sx32 (x * 2 ^ (y mod 32)) | SRLW => sx32 (wrap 32 x / 2 ^ (y mod 32)) | SRAW => sx32 (sint 32 x / 2 ^ (y mod 32))
  | MUL => wrap n (x * y) | MULH => wrap n (sg x * sg y / 2 ^ n)
  | MULHSU => wrap n (sg x * y / 2 ^ n) | MULHU => wrap n (x * y / 2 ^ n)
  | DIV => if y =? 0 then wrap n (-1) else wrap n (Z.quot (sg x) (sg y))
  | DIVU => if y =? 0 then wrap n (-1) else x / y
  | REM => if y =? 0 then x else wrap n (Z.rem (sg x) (sg y))
  | REMU => if y =? 0 then x else x mod y
  | MULW => sx32 (x * y)
  | DIVW => if wrap 32 y =? 0 then wrap n (-1) else sx32 (Z.quot (sint 32 x) (sint 32 y))
  | DIVUW => if wrap 32 y =? 0 then wrap n (-1) else sx32 (wrap 32 x / wrap 32 y)
  | REMW => if wrap 32 y =? 0 then sx32 x else sx32 (Z.rem (sint 32 x) (sint 32 y))
  | REMUW => if wrap 32 y =? 0 then sx32 x else sx32 (wrap 32 x mod wrap 32 y)
  | CZERO_EQZ => if y =? 0 then 0 else x
  | CZERO_NEZ => if y =? 0 then x else 0
  end.

(** The second operand: a register, or the immediate of the word. *)
Definition rv_operand (code rs2 : Z) : Z :=
  let opc := f_opcode code in
  if (opc =? 0x13) || (opc =? 0x1B) then
    if (f_funct3 code =? 1) || (f_funct3 code =? 5) then Z.land (f_imm12 code) (if xlen64 then 0x3f else 0x1f)
    else wrap n (sint 12 (f_imm12 code))
  else rs2.

(** The register forms of the word shifts, which look at five bits of the amount. *)
Definition word_shift (o : rvop) : bool := match o with SLLW | SRLW | SRAW => true | _ => false end.

End Isa.

(** ** Widths *)

Lemma wrap_narrow a b z : 0 <= a <= b -> wrap a (wrap b z) = wrap a z.
Proof.
  intros H. unfold wrap. replace (2 ^ b) with (2 ^ a * 2 ^ (b - a)) by (rewrite <- Z.pow_add_r; (lia || f_equal; lia)).
  pose proof (pow2_pos a ltac:(lia)). pose proof (pow2_pos (b - a) ltac:(lia)).
  rewrite Z.rem_mul_r by lia. rewrite Z.mul_comm, Z_mod_plus_full. apply Z.mod_mod. lia.
Qed.

Lemma sint_ext w a b : wrap w a = wrap w b -> sint w a = sint w b.
Proof. intros H. unfold sint. by rewrite H. Qed.

Lemma sint_narrow a b z : 0 <= a <= b -> sint a (wrap b z) = sint a z.
Proof. intros H. apply sint_ext. by apply wrap_narrow. Qed.

Lemma testbit_sint w v i : 0 < w -> 0 <= i -> Z.testbit (sint w v) i = Z.testbit v (Z.min i (w - 1)).
Proof.
  intros Hw Hi. assert (Hlow : i < w -> Z.testbit (sint w v) i = Z.testbit v i).
  { intros Hlt. rewrite <- (Z.mod_pow2_bits_low (sint w v) w), <- (Z.mod_pow2_bits_low v w) by lia.
    fold (wrap w (sint w v)). fold (wrap w v). by rewrite wrap_sint by lia. }
  destruct (Z.lt_ge_cases i w); [rewrite Z.min_l by lia; auto|]. rewrite Z.min_r by lia.
  replace (Z.testbit v (w - 1)) with (Z.testbit (wrap w v) (w - 1))
    by (rewrite testbit_wrap by lia; by rewrite (proj2 (Z.ltb_lt _ _)) by lia).
  pose proof (wrap_range w v ltac:(lia)) as [H1 H2]. unfold sint.
  replace (2 ^ w) with (2 * 2 ^ (w - 1)) in * by (rewrite <- Z.pow_succ_r by lia; f_equal; lia).
  destruct (Z.ltb_spec (wrap w v) (2 ^ (w - 1))).
  - rewrite !(testbit_in_u (w - 1)) by (unfold in_u; lia). done.
  - transitivity true; [|symmetry].
    + rewrite <- (Z.opp_involutive (_ - _)), Z.bits_opp by lia. apply negb_true_iff.
      apply (testbit_in_u (w - 1)); unfold in_u; lia.
    + rewrite Z.testbit_true by lia. rewrite <- (Zdiv_unique (wrap w v) (2 ^ (w - 1)) 1 (wrap w v - 2 ^ (w - 1))) by lia. done.
Qed.

Section Lanes.
Context (xlen64 : bool).
Abbreviation n := (XLEN xlen64).
Abbreviation ru := (ru xlen64).
Abbreviation ri := (ri xlen64).

Lemma XLEN_range : 32 <= n <= 64.
Proof. unfold XLEN. destruct xlen64; lia. Qed.

(** Sign extension of the low word. *)
Lemma sextT_spec w v : w = 32 \/ w = 64 -> in_u w v -> sextT w v 32 = wrap w (sint 32 v).
Proof.
  intros [-> | ->] Hv.
  - unfold sextT. rewrite Z.eqb_refl. rewrite wrap_sint by lia. by rewrite wrap_small.
  - unfold sextT. cbn [Z.eqb Pos.eqb].
    assert (Hb : negb (Z.land (Z.shiftr v (32 - 1)) 1 =? 0) = Z.testbit v 31).
    { change 1 with (Z.ones 1) at 2. rewrite Z.land_ones by lia. change (2 ^ 1) with 2.
      rewrite <- Z.bit0_mod, Z.shiftr_spec by lia. by destruct (Z.testbit v _). }
    change (wrap 64 (Z.shiftl 1 32 - 1)) with (Z.ones 32). rewrite Hb.
    apply Z.bits_inj'. intros i Hi. rewrite testbit_wrap by lia.
    destruct (Z.testbit v 31) eqn:E.
    + rewrite Z.lor_spec, testbit_wrap, Z.lnot_spec, Z.testbit_ones_nonneg by lia.
      destruct (Z.ltb_spec i 64); [|by rewrite (testbit_in_u 64) by (done || lia)]. cbn [andb].
      rewrite testbit_sint by lia. destruct (Z.ltb_spec i 32).
      * rewrite Z.min_l by lia. by rewrite orb_false_r.
      * rewrite Z.min_r by lia. rewrite orb_true_r. change (32 - 1) with 31. by rewrite E.
    + rewrite Z.land_spec, Z.testbit_ones_nonneg by lia.
      destruct (Z.ltb_spec i 64); [|rewrite (testbit_in_u 64) by (done || lia); done]. cbn [andb].
      rewrite testbit_sint by lia. destruct (Z.ltb_spec i 32).
      * rewrite Z.min_l by lia. by rewrite andb_true_r.
      * rewrite Z.min_r by lia. rewrite andb_false_r. change (32 - 1) with 31. by rewrite E.
Qed.

Lemma set_w_spec r : xlen64 = true -> set_w xlen64 r = sx32 xlen64 r.
Proof.
  intros ->. unfold set_w, sx32, XLEN. rewrite sextT_spec by (auto || (apply wrap_range; lia)).
  rewrite sint_narrow by lia. apply wrap_wrap.
Qed.

Lemma wrap_ri r : wrap n (ri r) = ru r.
Proof. unfold Alu.ri, Alu.ru. pose proof XLEN_range. by rewrite wrap_sint by lia. Qed.

Lemma sint_ru r : sint n (ru r) = ri r.
Proof. apply sint_wrap. Qed.

Lemma ru_range r : in_u n (ru r).
Proof. apply wrap_range. pose proof XLEN_range. lia. Qed.

Lemma ri_zero r : (ri r =? 0) = (ru r =? 0).
Proof.
  pose proof XLEN_range. destruct (Z.eqb_spec (ri r) 0) as [E|E], (Z.eqb_spec (ru r) 0) as [F|F]; try done.
  - destruct F. rewrite <- wrap_ri, E. done.
  - destruct E. rewrite <- sint_ru, F. apply sint_small; [lia|]. pose proof (pow2_pos (n - 1)). lia.
Qed.


(** The unit operation an instruction uses, and whether on words. *)
Definition alu_op (o : rvop) : option (AluType * bool) :=
  match o with
  | ADD => Some (ALU_ADD, false) | SUB => Some (ALU_SUB, false) | SLL => Some (ALU_SLL, false)
  | SLT => Some (ALU_SLT, false) | SLTU => Some (ALU_SLTU, false) | XOR => Some (ALU_XOR, false)
  | SRL => Some (ALU_SRL, false) | SRA => Some (ALU_SRA, false) | OR => Some (ALU_OR, false) | AND => Some (ALU_AND, false)
  | ADDW => Some (ALU_ADD, true) | SUBW => Some (ALU_SUB, true) | SLLW => Some (ALU_SLL, true)
  | SRLW => Some (ALU_SRL, true) | SRAW => Some (ALU_SRA, true)
  | _ => None
  end.

Lemma shamt_mask_ones : wrap n (Z.shiftl 1 (Z.log2_up n) - 1) = Z.ones (Z.log2_up n).
Proof. unfold XLEN. by destruct xlen64. Qed.

Lemma pow_log2_up : 2 ^ Z.log2_up n = n.
Proof. unfold XLEN. by destruct xlen64. Qed.

Lemma shamt_mod y : Z.land y (wrap n (Z.shiftl 1 (Z.log2_up n) - 1)) = y mod n.
Proof. rewrite shamt_mask_ones, Z.land_ones, pow_log2_up; [done|]. apply Z.log2_up_nonneg. Qed.

(** The immediate as an operand. *)
Lemma imm_operand imm : in_u 32 imm -> sextT n imm 32 = wrap n (sint 32 imm).
Proof.
  intros H. apply sextT_spec; [unfold XLEN; destruct xlen64; auto|]. unfold in_u in *.
  pose proof XLEN_range. pose proof (Z.pow_le_mono_r 2 32 n). lia.
Qed.

Lemma low_operand (is_imm : bool) imm r2 : in_u 32 imm ->
  wrap 32 (if is_imm then imm else r32i r2) = wrap 32 (if is_imm then sextT n imm 32 else ru r2).
Proof.
  intros H. pose proof XLEN_range. destruct is_imm.
  - rewrite imm_operand by done. rewrite wrap_narrow, wrap_sint by lia. done.
  - unfold r32i, Alu.ru. rewrite wrap_sint, wrap_narrow by lia. done.
Qed.

(** Word shift amounts agree with the low six bits of the operand. *)
Lemma shamt_w_mod (is_imm : bool) imm r2 : xlen64 = true -> in_u 32 imm ->
  Z.land (if is_imm then imm else u32 (r32i r2)) (wrap n (Z.shiftl 1 (Z.log2_up n) - 1)) =
  (if is_imm then sextT n imm 32 else ru r2) mod 64.
Proof.
  intros Hx H. rewrite shamt_mod. replace n with 64 at 1 by (by unfold XLEN; rewrite Hx).
  pose proof (low_operand is_imm imm r2 H) as Hl. apply (f_equal (wrap 6)) in Hl.
  rewrite !wrap_narrow in Hl by lia. change 64 with (2 ^ 6). fold (wrap 6 (if is_imm then sextT n imm 32 else ru r2)).
  rewrite <- Hl. destruct is_imm; [done|]. fold (wrap 6 (u32 (r32i r2))). by rewrite wrap_narrow by lia.
Qed.

Lemma sx32_ext a b : wrap 32 a = wrap 32 b -> sx32 xlen64 a = sx32 xlen64 b.
Proof. intros H. unfold sx32. by rewrite (sint_ext 32 a b H). Qed.

Lemma low_ri r : wrap 32 (ri r) = wrap 32 (ru r).
Proof. pose proof XLEN_range. rewrite <- wrap_ri. by rewrite wrap_narrow by lia. Qed.

Lemma low_r32i r : wrap 32 (r32i r) = wrap 32 (ru r).
Proof. pose proof XLEN_range. unfold r32i, Alu.ru. rewrite wrap_sint, wrap_narrow by lia. done. Qed.

Lemma mod_32_64 y : y mod 64 < 32 -> y mod 32 = y mod 64.
Proof. intros H. pose proof (Z.mod_pos_bound y 64 ltac:(lia)). pose proof (Z.div_mod y 64 ltac:(lia)).
  symmetry. apply (Zmod_unique y 32 (2 * (y / 64))); lia. Qed.

(** Word shifts, given the operand as the unit reads it. *)
Lemma word_shift_spec (o : rvop) (sh : Z -> Z -> option Z) x y x' : xlen64 = true -> in_u n y ->
  (forall s, 0 <= s < 32 -> exists v, sh x' s = Some v /\ sx32 xlen64 v = sx32 xlen64 (match o with
     | SLLW => x * 2 ^ s | SRLW => wrap 32 x / 2 ^ s | _ => sint 32 x / 2 ^ s end)) ->
  (forall s, 32 <= s -> sh x' s = None) -> word_shift o = true ->
  set_w xlen64 <$> sh x' (y mod 64) = if word_shift o && (32 <=? y mod 64) then None else Some (rv_sem xlen64 o x y).
Proof.
  intros Hx Hy Hsome Hnone Ho. rewrite Ho. cbn [andb]. pose proof (Z.mod_pos_bound y 64 ltac:(lia)).
  destruct (Z.leb_spec 32 (y mod 64)); [by rewrite Hnone|].
  destruct (Hsome (y mod 64)) as (v & -> & Hv); [lia|]. cbn. rewrite set_w_spec, Hv by done.
  destruct o; try done; cbn [rv_sem]; by rewrite mod_32_64.
Qed.

(** Every lane of an integer operation has the value of the instruction set;
    a word shift by 32 or more has none. *)
Lemma alu_lane_spec o t w (is_imm : bool) imm pc r1 r2 : alu_op o = Some (t, w) -> (w = true -> xlen64 = true) ->
  in_u 32 imm -> let y := if is_imm then sextT n imm 32 else ru r2 in
  alu_lane xlen64 t is_imm w imm pc r1 r2 =
    if word_shift o && (32 <=? y mod 64) then None else Some (rv_sem xlen64 o (ru r1) y).
Proof.
  intros Ho Hw Hi y. pose proof XLEN_range as Hn. pose proof (ru_range r1) as Hx.
  assert (Hy : in_u n y) by (subst y; destruct is_imm; [rewrite imm_operand by done; apply wrap_range; lia|apply ru_range]).
  assert (Hopd : (if is_imm then sextT n imm 32 else wrap n (ri r2)) = y) by (subst y; destruct is_imm; rewrite ?wrap_ri; done).
  assert (Hsy : (if is_imm then sint n (sextT n imm 32) else ri r2) = sint n y) by (subst y; destruct is_imm; rewrite ?sint_ru; done).
  assert (Hl : wrap 32 (sint 32 (if is_imm then imm else r32i r2)) = wrap 32 y) by (rewrite wrap_sint by lia; by apply low_operand).
  assert (Hm : 0 <= y mod n < n) by (apply Z.mod_pos_bound; lia).
  pose proof (shamt_w_mod is_imm imm r2) as Hsw. fold y in Hsw.
  unfold alu_lane. cbv zeta. rewrite Hopd.
  destruct o; try done; cbn in Ho; injection Ho as <- <-; rewrite ?andb_false_r, ?andb_true_r.
  all: try (rewrite (Hw eq_refl) at 1; specialize (Hsw (Hw eq_refl) Hi); rewrite ?Hsw).
  all: try (apply word_shift_spec; [by auto|done| | |done]).
  all: try (rewrite !shamt_mod); cbn [word_shift andb rv_sem]; rewrite ?sint_ru, ?wrap_ri.
  - by rewrite <- (wrap_add_l n (ri r1)), wrap_ri.
  - by rewrite <- (wrap_sub_l n (ri r1)), wrap_ri.
  - by rewrite Z.shiftl_mul_pow2, <- (wrap_mul_l n (ri r1)), wrap_ri by lia.
  - by rewrite Hsy.
  - done.
  - rewrite wrap_small by (apply lxor_in_u; done || lia). done.
  - rewrite wrap_small by (apply shiftr_in_u; done || lia). by rewrite Z.shiftr_div_pow2 by lia.
  - by rewrite Z.shiftr_div_pow2 by lia.
  - rewrite wrap_small by (apply lor_in_u; done || lia). done.
  - rewrite wrap_small by (apply land_in_u_l; done || lia). done.
  - rewrite set_w_spec by auto. f_equal. apply sx32_ext. rewrite wrap_sint by lia.
    by rewrite <- wrap_add_l, <- wrap_add_r, Hl, low_r32i, wrap_add_l, wrap_add_r.
  - rewrite set_w_spec by auto. f_equal. apply sx32_ext. rewrite wrap_sint by lia.
    by rewrite <- wrap_sub_l, <- wrap_sub_r, Hl, low_r32i, wrap_sub_l, wrap_sub_r.
  - intros s Hs. unfold shl32. rewrite (proj2 (Z.ltb_lt s 32)) by lia. eexists. split; [done|]. apply sx32_ext.
    rewrite wrap_wrap, Z.shiftl_mul_pow2, wrap_mul_l by lia. by rewrite <- wrap_mul_l, low_ri, wrap_mul_l.
  - intros s Hs. unfold shl32. by rewrite (proj2 (Z.ltb_ge s 32)) by lia.
  - intros s Hs. unfold shr32. rewrite (proj2 (Z.ltb_lt s 32)) by lia. eexists. split; [done|]. apply sx32_ext.
    by rewrite wrap_wrap, Z.shiftr_div_pow2, low_ri by lia.
  - intros s Hs. unfold shr32. by rewrite (proj2 (Z.ltb_ge s 32)) by lia.
  - intros s Hs. unfold shr32. rewrite (proj2 (Z.ltb_lt s 32)) by lia. eexists. split; [done|]. apply sx32_ext.
    rewrite wrap_wrap, Z.shiftr_div_pow2 by lia. by rewrite (sint_ext 32 (ri r1) (ru r1) (low_ri r1)).
  - intros s Hs. unfold shr32. by rewrite (proj2 (Z.ltb_ge s 32)) by lia.
Qed.

(** ** Multiplication and division *)

Definition mdv_op (o : rvop) : option (MdvType * bool) :=
  match o with
  | MUL => Some (MDV_MUL, false) | MULH => Some (MDV_MULH, false) | MULHSU => Some (MDV_MULHSU, false)
  | MULHU => Some (MDV_MULHU, false) | DIV => Some (MDV_DIV, false) | DIVU => Some (MDV_DIVU, false)
  | REM => Some (MDV_REM, false) | REMU => Some (MDV_REMU, false)
  | MULW => Some (MDV_MUL, true) | DIVW => Some (MDV_DIV, true) | DIVUW => Some (MDV_DIVU, true)
  | REMW => Some (MDV_REM, true) | REMUW => Some (MDV_REMU, true)
  | _ => None
  end.

Lemma high_half w p : 0 < w -> wrap w (Z.shiftr (wrap (2 * w) p) w) = wrap w (p / 2 ^ w).
Proof.
  intros Hw. rewrite <- Z.shiftr_div_pow2 by lia. apply Z.bits_inj'. intros i Hi.
  rewrite !testbit_wrap by lia. destruct (Z.ltb_spec i w); [|done]. cbn [andb].
  rewrite !Z.shiftr_spec, testbit_wrap by lia. by rewrite (proj2 (Z.ltb_lt _ _)) by lia.
Qed.

Lemma signed_product w a b : 0 < w -> - 2 ^ (w - 1) <= a < 2 ^ (w - 1) -> - 2 ^ (w - 1) <= b < 2 ^ (w - 1) ->
  sint (2 * w) (a * b) = a * b.
Proof.
  intros Hw Ha Hb. apply sint_small; [lia|].
  replace (2 ^ (2 * w - 1)) with (2 * (2 ^ (w - 1) * 2 ^ (w - 1))).
  - nia.
  - rewrite <- Z.pow_add_r, <- Z.pow_succ_r by lia. f_equal. lia.
Qed.

Lemma largest_negative w : 0 < w -> sint w (Z.shiftl 1 (w - 1)) = - 2 ^ (w - 1).
Proof.
  intros Hw. rewrite Z.shiftl_mul_pow2, Z.mul_1_l by lia. rewrite <- (sint_small w (- 2 ^ (w - 1))) at 1 by
    (lia || (pose proof (pow2_pos (w - 1) ltac:(lia)); lia)).
  apply sint_ext. unfold wrap. replace (2 ^ (w - 1)) with (- 2 ^ (w - 1) + 1 * 2 ^ w) at 1; [apply Z_mod_plus_full|].
  replace (2 ^ w) with (2 * 2 ^ (w - 1)) by (rewrite <- Z.pow_succ_r by lia; f_equal; lia). lia.
Qed.

(** The special cases of signed division are those of two's complement. *)
Lemma sdiv_spec w a b : 0 < w -> wrap w (sdiv w a b) = if b =? 0 then wrap w (-1) else wrap w (Z.quot a b).
Proof.
  intros Hw. unfold sdiv. rewrite largest_negative by done. destruct (Z.eqb_spec b 0); [done|].
  destruct (Z.eqb_spec a (- 2 ^ (w - 1))) as [->|]; [|done]. destruct (Z.eqb_spec b (-1)) as [->|]; [|done]. cbn [andb].
  change (-1) with (- (1)). rewrite Z.quot_opp_opp, Z.quot_1_r by lia. unfold wrap.
  replace (2 ^ (w - 1)) with (- 2 ^ (w - 1) + 1 * 2 ^ w) at 2; [symmetry; apply Z_mod_plus_full|].
  replace (2 ^ w) with (2 * 2 ^ (w - 1)) by (rewrite <- Z.pow_succ_r by lia; f_equal; lia). lia.
Qed.

Lemma srem_spec w a b : 0 < w -> srem w a b = if b =? 0 then a else Z.rem a b.
Proof.
  intros Hw. unfold srem. destruct (Z.eqb_spec b 0); [done|]. destruct (_ && _) eqn:E; [|done]. bool_hyps. subst b.
  change (-1) with (- (1)). rewrite Z.rem_opp_r', Z.rem_1_r. done.
Qed.

Lemma udiv_spec w a b : 0 <= a < 2 ^ w -> 0 <= b -> 0 < w -> udiv w a b = (if b =? 0 then wrap w (-1) else a / b) /\
  (b <> 0 -> 0 <= a / b < 2 ^ w).
Proof.
  intros Ha Hb Hw. unfold udiv. split.
  - destruct (Z.eqb_spec b 0); cbn; [done|]. apply Z.quot_div_nonneg; lia.
  - intros Hne. split; [apply Z.div_pos; lia|]. apply Z.div_lt_upper_bound; nia.
Qed.

Lemma urem_spec a b : 0 <= a -> 0 <= b -> urem a b = if b =? 0 then a else a mod b.
Proof. intros Ha Hb. unfold urem. destruct (Z.eqb_spec b 0); cbn; [done|]. apply Z.rem_mod_nonneg; lia. Qed.

Lemma ri_range r : - 2 ^ (n - 1) <= ri r < 2 ^ (n - 1).
Proof. apply sint_range. pose proof XLEN_range. lia. Qed.

Lemma low_zero r : (r32i r =? 0) = (wrap 32 (ru r) =? 0).
Proof.
  rewrite <- low_r32i. unfold r32i. rewrite wrap_sint by lia. unfold sint.
  pose proof (wrap_range 32 r ltac:(lia)) as H. unfold in_u in H.
  destruct (Z.ltb_spec (wrap 32 r) (2 ^ (32 - 1))); [done|].
  destruct (Z.eqb_spec (wrap 32 r - 2 ^ 32) 0), (Z.eqb_spec (wrap 32 r) 0); try done; lia.
Qed.

Lemma sint32_ru r : sint 32 (ru r) = r32i r.
Proof. unfold r32i, Alu.ru. pose proof XLEN_range. by rewrite sint_narrow by lia. Qed.

Lemma r32u_ru r : r32u r = wrap 32 (ru r).
Proof. unfold r32u, Alu.ru. pose proof XLEN_range. by rewrite wrap_narrow by lia. Qed.

Lemma sx32_minus_one : sx32 xlen64 (-1) = wrap n (-1).
Proof. done. Qed.

(** Every lane of a multiplication or division has the value of the instruction set. *)
Lemma mdv_lane_spec o t w r1 r2 : mdv_op o = Some (t, w) -> (w = true -> xlen64 = true) ->
  mdv_lane xlen64 t w r1 r2 = rv_sem xlen64 o (ru r1) (ru r2).
Proof.
  intros Ho Hw. pose proof XLEN_range as Hn. pose proof (ru_range r1) as Hx. pose proof (ru_range r2) as Hy.
  pose proof (wrap_range 32 (ru r1) ltac:(lia)) as Hx32. pose proof (wrap_range 32 (ru r2) ltac:(lia)) as Hy32.
  unfold in_u in *. unfold mdv_lane. cbv zeta. destruct o; try discriminate Ho; injection Ho as <- <-;
    rewrite ?andb_false_r, ?andb_true_r; cbn [rv_sem]; rewrite ?sint_ru, ?sint32_ru.
  all: try (rewrite (Hw eq_refl) at 1; rewrite set_w_spec by auto).
  - by rewrite <- wrap_mul_l, <- wrap_mul_r, !wrap_ri.
  - rewrite signed_product by (apply ri_range || lia). by rewrite Z.shiftr_div_pow2 by lia.
  - by rewrite high_half by lia.
  - by rewrite high_half by lia.
  - by rewrite sdiv_spec, ri_zero by lia.
  - destruct (udiv_spec n (ru r1) (ru r2)) as [-> Hr]; [lia..|]. destruct (Z.eqb_spec (ru r2) 0); [apply wrap_wrap|].
    apply wrap_small. by apply Hr.
  - rewrite srem_spec, ri_zero by lia. destruct (Z.eqb_spec (ru r2) 0); [apply wrap_ri|done].
  - rewrite urem_spec by lia. destruct (Z.eqb_spec (ru r2) 0); [by apply wrap_small|]. apply wrap_small.
    unfold in_u. pose proof (Z.mod_pos_bound (ru r1) (ru r2)). lia.
  - apply sx32_ext. rewrite wrap_sint by lia. by rewrite <- wrap_mul_l, <- wrap_mul_r, !low_r32i, wrap_mul_l, wrap_mul_r.
  - rewrite <- low_zero. pose proof (sdiv_spec 32 (r32i r1) (r32i r2) ltac:(lia)) as Hd.
    destruct (r32i r2 =? 0); [rewrite <- sx32_minus_one|]; by apply sx32_ext.
  - rewrite (r32u_ru r1), (r32u_ru r2). destruct (udiv_spec 32 (wrap 32 (ru r1)) (wrap 32 (ru r2))) as [-> _]; [lia..|].
    destruct (wrap 32 (ru r2) =? 0); [|done]. rewrite <- sx32_minus_one. apply sx32_ext. apply wrap_wrap.
  - rewrite srem_spec, low_zero by lia. destruct (Z.eqb_spec (wrap 32 (ru r2)) 0); [|done]. apply sx32_ext. apply low_r32i.
  - rewrite (r32u_ru r1), (r32u_ru r2), urem_spec by lia. destruct (Z.eqb_spec (wrap 32 (ru r2)) 0); [|done]. apply sx32_ext. apply wrap_wrap.
Qed.

End Lanes.

(** ** From the instruction word to the lanes *)

Section Word.
Context (xlen64 : bool).
Abbreviation n := (XLEN xlen64).

Lemma f_funct3_range code : 0 <= f_funct3 code < 8.
Proof. unfold f_funct3. rewrite Z.land_ones by lia. apply Z.mod_pos_bound. lia. Qed.

Lemma f_funct7_range code : in_u 7 (f_funct7 code).
Proof. unfold f_funct7, in_u. rewrite Z.land_ones by lia. apply Z.mod_pos_bound. lia. Qed.

Lemma f_rs2_range code : in_u 5 (f_rs2 code).
Proof. unfold f_rs2, in_u. rewrite Z.land_ones by lia. apply Z.mod_pos_bound. lia. Qed.

Lemma f_imm12_range code : in_u 32 code -> in_u 12 (f_imm12 code).
Proof.
  intros [H1 H2]. unfold f_imm12, in_u. rewrite Z.shiftr_div_pow2 by lia. split; [apply Z.div_pos; lia|].
  apply Z.div_lt_upper_bound; lia.
Qed.

(** The shift amount as the decoder assembles it. *)
Lemma shamt6 code : Z.lor (f_rs2 code) (Z.shiftl (Z.land (f_funct7 code) 1) 5) = Z.land (f_imm12 code) 0x3f.
Proof.
  unfold f_rs2, f_funct7, f_imm12. change 1 with (Z.ones 1). change 0x3f with (Z.ones 6).
  apply Z.bits_inj'. intros i Hi. rewrite Z.lor_spec, !Z.land_spec, Z.shiftl_spec, !Z.shiftr_spec, !Z.testbit_ones_nonneg by lia.
  destruct (Z.lt_ge_cases i 5).
  - rewrite (Z.testbit_neg_r _ (i - 5)) by lia. rewrite orb_false_r. f_equal.
    rewrite (proj2 (Z.ltb_lt i 5)), (proj2 (Z.ltb_lt i 6)) by lia. done.
  - rewrite (proj2 (Z.ltb_ge i 5)), andb_false_r by lia. cbn [orb].
    rewrite !Z.land_spec, Z.shiftr_spec, !Z.testbit_ones_nonneg by lia.
    destruct (Z.eq_dec i 5) as [->|]; [cbn -[Z.testbit]; by rewrite !andb_true_r|].
    rewrite (proj2 (Z.ltb_ge (i - 5) 1)), (proj2 (Z.ltb_ge i 6)) by lia. by rewrite !andb_false_r.
Qed.

Lemma f_rs2_shamt5 code : f_rs2 code = Z.land (f_imm12 code) 0x1f.
Proof. done. Qed.

(** How the decoder hands an instruction to the unit. *)
Definition unit_form (code : Z) (o : rvop) (op : OpType) (a : IntrArgs) : Prop :=
  match op, a with
  | OpAlu ALU_CZERO, AluArgs false false imm => rv_operand xlen64 code = (fun r => r) /\
      ((o = CZERO_EQZ /\ imm = 0) \/ (o = CZERO_NEZ /\ imm = 1))
  | OpAlu t, AluArgs is_imm w imm => alu_op o = Some (t, w) /\ (w = true -> xlen64 = true) /\ in_u 32 imm /\
      forall r, rv_operand xlen64 code r = if is_imm then sextT n imm 32 else r
  | OpMdv t, MdvArgs w => mdv_op o = Some (t, w) /\ (w = true -> xlen64 = true) /\ forall r, rv_operand xlen64 code r = r
  | _, _ => False
  end.

(** The immediate the decoder computes. *)
Definition dec_imm (code : Z) : Z :=
  if (f_funct3 code =? 1) || (f_funct3 code =? 5)
  then (if xlen64 then Z.lor (f_rs2 code) (Z.shiftl (Z.land (f_funct7 code) 1) 5) else f_rs2 code)
  else sext (f_imm12 code) 12.

Lemma dec_imm_range code : in_u 32 code -> in_u 32 (dec_imm code).
Proof.
  intros Hc. pose proof (f_imm12_range code Hc). unfold dec_imm. destruct (_ || _).
  - destruct xlen64; [rewrite shamt6|rewrite f_rs2_shamt5]; apply land_in_u_r; unfold in_u; lia.
  - rewrite sext_spec by (lia || done). apply wrap_range. lia.
Qed.

(** The immediate operand of the decoder is the one of the instruction set. *)
Lemma imm_form code : in_u 32 code -> f_opcode code = 0x13 \/ f_opcode code = 0x1B ->
  forall r, rv_operand xlen64 code r = sextT n (dec_imm code) 32.
Proof.
  intros Hc Hop r. pose proof (f_imm12_range code Hc) as H12. pose proof (dec_imm_range code Hc).
  rewrite imm_operand by done. unfold rv_operand.
  replace ((f_opcode code =? 0x13) || (f_opcode code =? 0x1B)) with true by (by destruct Hop as [->| ->]).
  unfold dec_imm. destruct (_ || _).
  - assert (Hs : forall m v, in_u m v -> 0 <= m < 32 -> wrap n (sint 32 v) = v).
    { intros m v Hv Hm. pose proof (XLEN_range xlen64). unfold in_u in Hv.
      pose proof (Z.pow_le_mono_r 2 m 31 ltac:(lia) ltac:(lia)).
      rewrite sint_small by (change (32 - 1) with 31; lia). apply wrap_small. unfold in_u.
      pose proof (Z.pow_lt_mono_r 2 31 n). lia. }
    destruct xlen64; [rewrite shamt6; symmetry; apply (Hs 6)|rewrite f_rs2_shamt5; symmetry; apply (Hs 5)];
      try lia; apply land_in_u_r; unfold in_u; lia.
  - rewrite sext_spec by (lia || done). pose proof (sint_range 12 (f_imm12 code) ltac:(lia)).
    rewrite sint_wrap, (sint_small 32) by (cbn in *; lia). done.
Qed.


Lemma funct3_cases code : f_funct3 code = 0 \/ f_funct3 code = 1 \/ f_funct3 code = 2 \/ f_funct3 code = 3 \/
  f_funct3 code = 4 \/ f_funct3 code = 5 \/ f_funct3 code = 6 \/ f_funct3 code = 7.
Proof. pose proof (f_funct3_range code). lia. Qed.

(** The decoder's answer on the register and the immediate opcodes. *)
Lemma decode_op code : Z.land code 3 = 3 ->
  f_opcode code = 0x33 \/ f_opcode code = 0x13 \/ (xlen64 = true /\ (f_opcode code = 0x3B \/ f_opcode code = 0x1B)) ->
  decode xlen64 code = decode_alu xlen64 code (f_opcode code).
Proof.
  intros H3 Hop. unfold decode. rewrite H3. cbn [Z.eqb Pos.eqb negb]. unfold decode32.
  destruct Hop as [E|[E|[Hx [E|E]]]]; rewrite ?Hx, E; done.
Qed.

(** Close the goal that a decoded register form is the form of the table. *)
Ltac form_done Hopd :=
  eexists; split; [reflexivity|]; do 3 (split; [reflexivity|]); cbn; rewrite ?Hopd;
  repeat match goal with |- _ /\ _ => split end; try done; try tauto; try (unfold in_u; lia).

Lemma decode_r code o : in_u 32 code -> f_opcode code = 0x33 -> rv_r (f_funct7 code) (f_funct3 code) = Some o ->
  exists i, decode_alu xlen64 code 0x33 = DecInstr i /\ rdest i = xreg (f_rd code) /\ rsrc0 i = xreg (f_rs1 code) /\
    rsrc1 i = xreg (f_rs2 code) /\ unit_form code o (op_type i) (args i).
Proof.
  intros Hc Hop. assert (Hopd : rv_operand xlen64 code = fun r => r) by (unfold rv_operand; by rewrite Hop).
  unfold decode_alu, rv_r. cbv zeta.
  set (imm := if (f_funct3 code =? 1) || (f_funct3 code =? 5) then _ else _).
  assert (Himm : in_u 32 imm) by apply (dec_imm_range code Hc). clearbody imm.
  destruct (Z.eqb_spec (f_funct7 code) 0x00) as [E|_]; [rewrite E|].
  { destruct (funct3_cases code) as [F|[F|[F|[F|[F|[F|[F|F]]]]]]]; rewrite F; intros [= <-]; form_done Hopd. }
  destruct (Z.eqb_spec (f_funct7 code) 0x20) as [E|_]; [rewrite E|].
  { destruct (funct3_cases code) as [F|[F|[F|[F|[F|[F|[F|F]]]]]]]; rewrite F; intros [= <-]; form_done Hopd. }
  destruct (Z.eqb_spec (f_funct7 code) 0x01) as [E|_]; [rewrite E|].
  { destruct (funct3_cases code) as [F|[F|[F|[F|[F|[F|[F|F]]]]]]]; rewrite F; intros [= <-]; form_done Hopd. }
  destruct (Z.eqb_spec (f_funct7 code) 0x07) as [E|_]; [rewrite E|done].
  destruct (funct3_cases code) as [F|[F|[F|[F|[F|[F|[F|F]]]]]]]; rewrite F; intros [= <-]; form_done Hopd.
Qed.


Lemma decode_rw code o : in_u 32 code -> xlen64 = true -> f_opcode code = 0x3B -> rv_rw (f_funct7 code) (f_funct3 code) = Some o ->
  exists i, decode_alu xlen64 code 0x3B = DecInstr i /\ rdest i = xreg (f_rd code) /\ rsrc0 i = xreg (f_rs1 code) /\
    rsrc1 i = xreg (f_rs2 code) /\ unit_form code o (op_type i) (args i).
Proof.
  intros Hc Hx Hop. assert (Hopd : rv_operand xlen64 code = fun r => r) by (unfold rv_operand; by rewrite Hop).
  unfold decode_alu, rv_rw. cbv zeta.
  set (imm := if (f_funct3 code =? 1) || (f_funct3 code =? 5) then _ else _).
  assert (Himm : in_u 32 imm) by apply (dec_imm_range code Hc). clearbody imm.
  destruct (Z.eqb_spec (f_funct7 code) 0x00) as [E|_]; [rewrite E|].
  { destruct (funct3_cases code) as [F|[F|[F|[F|[F|[F|[F|F]]]]]]]; rewrite F; intros [= <-]; form_done Hopd. }
  destruct (Z.eqb_spec (f_funct7 code) 0x20) as [E|_]; [rewrite E|].
  { destruct (funct3_cases code) as [F|[F|[F|[F|[F|[F|[F|F]]]]]]]; rewrite F; intros [= <-]; form_done Hopd. }
  destruct (Z.eqb_spec (f_funct7 code) 0x01) as [E|_]; [rewrite E|done].
  destruct (funct3_cases code) as [F|[F|[F|[F|[F|[F|[F|F]]]]]]]; rewrite F; intros [= <-]; form_done Hopd.
Qed.

(** On the immediate opcodes the decoder looks at funct7 for right shifts only. *)
Lemma decode_imm code opc : in_u 32 code -> f_opcode code = opc -> (opc = 0x13 \/ opc = 0x1B) ->
  exists i, decode_alu xlen64 code opc = DecInstr i /\ rdest i = xreg (f_rd code) /\ rsrc0 i = xreg (f_rs1 code) /\
    rsrc1 i = no_reg /\ args i = AluArgs true (opc =? 0x1B) (dec_imm code) /\
    op_type i = OpAlu (nth (Z.to_nat (f_funct3 code)) [ALU_ADD; ALU_SLL; ALU_SLT; ALU_SLTU; ALU_XOR;
      (if Z.shiftr (f_funct7 code) 1 =? 0x10 then ALU_SRA else ALU_SRL); ALU_OR; ALU_AND] ALU_LUI).
Proof.
  intros Hc Hop [-> | ->]; unfold decode_alu, dec_imm; cbv zeta; cbn [Z.eqb Pos.eqb orb andb negb];
    destruct (funct3_cases code) as [F|[F|[F|[F|[F|[F|[F|F]]]]]]]; rewrite F; eexists; by repeat split.
Qed.

(** The kind of a right shift. *)
Lemma srx_kind code o : rv_i xlen64 (f_funct7 code) 5 = Some o ->
  alu_op o = Some (if Z.shiftr (f_funct7 code) 1 =? 0x10 then ALU_SRA else ALU_SRL, false).
Proof.
  unfold rv_i. change (5 =? 1) with false. change (5 =? 5) with true. cbv iota zeta. destruct xlen64.
  - destruct (Z.eqb_spec (Z.shiftr (f_funct7 code) 1) 0) as [E|_]; [rewrite E; intros [= <-]; reflexivity|].
    destruct (Z.shiftr (f_funct7 code) 1 =? 0x10); [|done]. intros [= <-]. reflexivity.
  - destruct (Z.eqb_spec (f_funct7 code) 0) as [E|_]; [rewrite E; intros [= <-]; reflexivity|].
    destruct (Z.eqb_spec (f_funct7 code) 0x20) as [E|_]; [|done]. rewrite E. intros [= <-]. reflexivity.
Qed.

(** Evaluate the table index of a literal funct3. *)
Ltac eval_index :=
  repeat match goal with
  | H : context [Z.to_nat ?k] |- _ => progress (let v := eval vm_compute in (Z.to_nat k) in change (Z.to_nat k) with v in H)
  | |- context [Z.to_nat ?k] => progress (let v := eval vm_compute in (Z.to_nat k) in change (Z.to_nat k) with v)
  end; cbn [nth Z.eqb Pos.eqb] in *.

Ltac imm_unit :=
  cbn [unit_form]; split; [first [reflexivity | assumption]|]; split; [first [discriminate | intros _; assumption]|]; split; assumption.

Lemma decode_i code o : in_u 32 code -> f_opcode code = 0x13 -> rv_i xlen64 (f_funct7 code) (f_funct3 code) = Some o ->
  exists i, decode_alu xlen64 code 0x13 = DecInstr i /\ rdest i = xreg (f_rd code) /\ rsrc0 i = xreg (f_rs1 code) /\
    rsrc1 i = no_reg /\ unit_form code o (op_type i) (args i).
Proof.
  intros Hc Hop Ho. destruct (decode_imm code 0x13 Hc Hop (or_introl eq_refl)) as (i & Hd & H1 & H2 & H3 & Ha & Ht).
  exists i. do 4 (split; [done|]). rewrite Ha, Ht. pose proof (dec_imm_range code Hc) as Hr.
  pose proof (imm_form code Hc (or_introl Hop)) as Hf.
  clear Ht Ha. destruct (funct3_cases code) as [F|[F|[F|[F|[F|[F|[F|F]]]]]]]; rewrite F in Ho |- *;
    try (apply srx_kind in Ho; eval_index; case_match; imm_unit); unfold rv_i in Ho; eval_index.
  all: try (match type of Ho with (if ?b then _ else _) = _ => destruct b; [|discriminate Ho] end); injection Ho as <-; imm_unit.
Qed.

Lemma decode_iw code o : in_u 32 code -> xlen64 = true -> f_opcode code = 0x1B -> rv_iw (f_funct7 code) (f_funct3 code) = Some o ->
  exists i, decode_alu xlen64 code 0x1B = DecInstr i /\ rdest i = xreg (f_rd code) /\ rsrc0 i = xreg (f_rs1 code) /\
    rsrc1 i = no_reg /\ unit_form code o (op_type i) (args i).
Proof.
  intros Hc Hx Hop Ho. destruct (decode_imm code 0x1B Hc Hop (or_intror eq_refl)) as (i & Hd & H1 & H2 & H3 & Ha & Ht).
  exists i. do 4 (split; [done|]). rewrite Ha, Ht. pose proof (dec_imm_range code Hc) as Hr.
  pose proof (imm_form code Hc (or_intror Hop)) as Hf. unfold rv_iw in Ho.
  clear Ht Ha. destruct (funct3_cases code) as [F|[F|[F|[F|[F|[F|[F|F]]]]]]]; rewrite F in Ho |- *; eval_index; try discriminate Ho.
  - injection Ho as <-. imm_unit.
  - case_match; [|discriminate Ho]. injection Ho as <-. imm_unit.
  - destruct (Z.eqb_spec (f_funct7 code) 0) as [E|_]; [rewrite E; injection Ho as <-; imm_unit|].
    destruct (Z.eqb_spec (f_funct7 code) 0x20) as [E|_]; [rewrite E; injection Ho as <-; imm_unit|discriminate Ho].
Qed.

(** Decoding an instruction of the table. *)
Lemma decode_table code o : in_u 32 code -> Z.land code 3 = 3 ->
  rv_table xlen64 (f_opcode code) (f_funct7 code) (f_funct3 code) = Some o ->
  exists i, decode xlen64 code = DecInstr i /\ rdest i = xreg (f_rd code) /\ rsrc0 i = xreg (f_rs1 code) /\
    rsrc1 i = (if (f_opcode code =? 0x13) || (f_opcode code =? 0x1B) then no_reg else xreg (f_rs2 code)) /\
    unit_form code o (op_type i) (args i).
Proof.
  intros Hc H3 Ho. unfold rv_table in Ho.
  destruct (Z.eqb_spec (f_opcode code) 0x33) as [E|E]; [rewrite decode_op by auto; rewrite E; by apply decode_r|].
  destruct (Z.eqb_spec (f_opcode code) 0x13) as [E1|E1]; [rewrite decode_op by auto; rewrite E1; by apply decode_i|].
  assert (Hx : xlen64 = true) by (destruct xlen64; [reflexivity|discriminate Ho]).
  rewrite Hx in Ho. cbn [andb] in Ho.
  destruct (Z.eqb_spec (f_opcode code) 0x3B) as [E2|E2]; [rewrite decode_op by auto 6; rewrite E2; by apply decode_rw|].
  destruct (Z.eqb_spec (f_opcode code) 0x1B) as [E3|E3]; [|discriminate Ho].
  rewrite decode_op by auto 6. rewrite E3. by apply decode_iw.
Qed.


(** The lane function of an integer or multiply/divide instruction. *)
Definition exec_lane (op : OpType) (a : IntrArgs) (pc r1 r2 : Z) : option Z :=
  match op, a with
  | OpAlu t, AluArgs is_imm w imm => alu_lane xlen64 t is_imm w imm pc r1 r2
  | OpMdv t, MdvArgs w => Some (mdv_lane xlen64 t w r1 r2)
  | _, _ => None
  end.

Lemma czero_lane (neg : bool) pc r1 r2 : alu_lane xlen64 ALU_CZERO false false (b2z neg) pc r1 r2 =
  Some (rv_sem xlen64 (if neg then CZERO_NEZ else CZERO_EQZ) (ru xlen64 r1) (ru xlen64 r2)).
Proof.
  unfold alu_lane. cbv zeta. rewrite ri_zero, wrap_ri. f_equal.
  destruct neg; cbn [rv_sem]; by destruct (ru xlen64 r2 =? 0).
Qed.

Lemma unit_lane code o op a pc r1 r2 : unit_form code o op a ->
  exec_lane op a pc r1 r2 =
    if word_shift o && (32 <=? rv_operand xlen64 code (ru xlen64 r2) mod 64) then None
    else Some (rv_sem xlen64 o (ru xlen64 r1) (rv_operand xlen64 code (ru xlen64 r2))).
Proof.
  intros H. destruct op as [t|t|t|t|t|t|t|t|t| |t], a; try (by destruct t); try done.
  - assert ((t = ALU_CZERO /\ is_imm = false /\ is_w = false /\ rv_operand xlen64 code = (fun r => r) /\
        exists neg, imm = b2z neg /\ o = if neg then CZERO_NEZ else CZERO_EQZ) \/
      (alu_op o = Some (t, is_w) /\ (is_w = true -> xlen64 = true) /\ in_u 32 imm /\
        forall r, rv_operand xlen64 code r = if is_imm then sextT n imm 32 else r)) as [Hz|Ha].
    { destruct t; try (right; exact H). destruct is_imm, is_w; try (right; exact H). left.
      destruct H as [? [[-> ->]|[-> ->]]]; (do 4 (split; [done|])); [by exists false|by exists true]. }
    + destruct Hz as (-> & -> & -> & Hr & neg & -> & ->). cbn [exec_lane]. rewrite czero_lane, Hr. by destruct neg.
    + destruct Ha as (Ho & Hw & Hi & Hr). cbn [exec_lane]. rewrite (alu_lane_spec _ _ _ _ _ _ _ _ _ Ho Hw Hi), Hr. done.
  - destruct H as (Ho & Hw & Hr). cbn [exec_lane]. rewrite (mdv_lane_spec _ _ _ _ _ _ Ho Hw), Hr.
    destruct o; try discriminate Ho; reflexivity.
Qed.

Lemma active_lanes_all nt m f (g : nat -> Z) : (forall t, (t < nt)%nat -> test m t = true -> f t = Some (g t)) ->
  active_lanes nt m f = Some (map (fun t => if test m t then g t else 0) (seq 0 nt)).
Proof.
  intros H. unfold active_lanes. apply mapM_Some. assert (Hb : forall t, t ∈ seq 0 nt -> (t < nt)%nat)
    by (intros t Ht; apply elem_of_seq in Ht; lia).
  induction (seq 0 nt) as [|t l IH]; cbn; constructor.
  - destruct (test m t) eqn:E; [|done]. apply H; [|done]. apply Hb. left.
  - apply IH. intros u Hu. apply Hb. by right.
Qed.

Lemma active_lanes_none nt m f t : (t < nt)%nat -> test m t = true -> f t = None -> active_lanes nt m f = None.
Proof.
  intros Hlt Hm Hf. unfold active_lanes. apply mapM_None. apply Exists_exists. exists t.
  split; [apply list_elem_of_In, elem_of_seq; lia|]. by rewrite Hm.
Qed.

Lemma execute_unit nt heap cycles s sb t code o : unit_form code o (a_op t) (a_args t) ->
  execute xlen64 nt heap cycles s sb t =
    (d ← active_lanes nt (a_tmask t) (fun i => exec_lane (a_op t) (a_args t) (a_PC t) (reg_at (a_rs1 t) i) (reg_at (a_rs2 t) i));
     Some (s, sb, a_tmask t, d)).
Proof.
  intros H. unfold execute. destruct (a_op t) as [u|u|u|u|u|u|u|u|u| |u], (a_args t); try (by destruct u); done.
Qed.

End Word.

(** C14 (equivalence): every instruction of the opcodes OP, OP-IMM, OP-32 and
    OP-IMM-32 (integer computation between registers or with an immediate,
    multiplication and division, conditional zero; not LUI, AUIPC, branches or
    jumps) decodes, and the decoded instruction computes in every active lane
    the value the instruction set gives for that lane's operands, changing
    nothing else.  The exception is a register word shift whose amount has bit
    5 set in some active lane: the unit shifts a 32-bit value by 32 or more. *)
Theorem alu_executes_isa (xlen64 : bool) (nt : nat) (code : Z) (o : rvop) :
  in_u 32 code -> Z.land code 3 = 3 ->
  rv_table xlen64 (f_opcode code) (f_funct7 code) (f_funct3 code) = Some o ->
  exists i, decode xlen64 code = DecInstr i /\
    rdest i = xreg (f_rd code) /\ rsrc0 i = xreg (f_rs1 code) /\
    rsrc1 i = (if (f_opcode code =? 0x13) || (f_opcode code =? 0x1B) then no_reg else xreg (f_rs2 code)) /\
    forall heap cycles s sb t, a_op t = op_type i -> a_args t = args i ->
      let x l := ru xlen64 (reg_at (a_rs1 t) l) in
      let y l := rv_operand xlen64 code (ru xlen64 (reg_at (a_rs2 t) l)) in
      execute xlen64 nt heap cycles s sb t =
        if existsb (fun l => test (a_tmask t) l && (word_shift o && (32 <=? y l mod 64))) (seq 0 nt) then None
        else Some (s, sb, a_tmask t, map (fun l => if test (a_tmask t) l then rv_sem xlen64 o (x l) (y l) else 0) (seq 0 nt)).
Proof.
  intros Hc H3 Ho. destruct (decode_table xlen64 code o Hc H3 Ho) as (i & Hd & H1 & H2 & H4 & Hu).
  exists i. do 4 (split; [done|]). intros heap cycles s sb t Eop Ea x y. rewrite <- Eop, <- Ea in Hu.
  rewrite (execute_unit _ _ _ _ _ _ _ _ _ Hu).
  destruct (existsb _ _) eqn:E.
  - apply existsb_exists in E as (l & Hl & He). apply andb_true_iff in He as [Hm He].
    rewrite (active_lanes_none nt _ _ l); [done| |done|].
    + apply list_elem_of_In, elem_of_seq in Hl. lia.
    + rewrite (unit_lane _ _ _ _ _ _ _ _ Hu). subst y. cbn beta in He. by rewrite He.
  - rewrite (active_lanes_all nt _ _ (fun l => rv_sem xlen64 o (x l) (y l))); [done|].
    intros l Hl Hm. rewrite (unit_lane _ _ _ _ _ _ _ _ Hu). fold (x l) (y l).
    destruct (word_shift o && (32 <=? y l mod 64)) eqn:Ew; [|done]. exfalso.
    apply not_true_iff_false in E. apply E. apply existsb_exists. exists l. rewrite Hm, Ew. split; [|done].
    apply list_elem_of_In, elem_of_seq. lia.
Qed.

(** ** Votes and shuffles *)

Section Collectives.
Context (xlen64 : bool) (nt : nat).

(** The lanes a vote counts. *)
Definition voter (m : list bool) (l : nat) : Prop := (l < nt)%nat /\ test m l = true.

Lemma voter_in m l : l ∈ filter (fun t => test m t = true) (seq 0 nt) <-> voter m l.
Proof. rewrite list_elem_of_filter, elem_of_seq. unfold voter. intuition lia. Qed.

Lemma exists_voter m p : existsb p (filter (fun t => test m t = true) (seq 0 nt)) = true <-> exists l, voter m l /\ p l = true.
Proof. rewrite existsb_exists. setoid_rewrite <- list_elem_of_In. by setoid_rewrite voter_in. Qed.

Lemma no_voter m p : existsb p (filter (fun t => test m t = true) (seq 0 nt)) = false <-> forall l, voter m l -> p l = false.
Proof.
  rewrite <- not_true_iff_false, exists_voter. split.
  - intros H l Hl. apply not_true_iff_false. intros E. apply H. by exists l.
  - intros H [l [Hl E]]. by rewrite H in E.
Qed.

Lemma ballot_bits (p : nat -> bool) l b i : 0 <= i ->
  Z.testbit (fold_left (fun b t => if p t then Z.lor b (Z.shiftl 1 (Z.of_nat t)) else b) l b) i =
  Z.testbit b i || existsb (fun t => p t && (Z.of_nat t =? i)) l.
Proof.
  intros Hi. revert b. induction l as [|t l IH]; intros b; cbn; [by rewrite orb_false_r|].
  rewrite IH. destruct (p t); cbn; [|done]. rewrite Z.lor_spec, <- orb_assoc. f_equal. f_equal.
  rewrite Z.shiftl_mul_pow2, Z.mul_1_l, Z.pow2_bits_eqb by lia. done.
Qed.

Lemma thread_start_le m l : test m l = true -> (thread_start m <= l)%nat.
Proof.
  intros Hl. unfold thread_start. destruct (list_find (fun b => b = true) m) as [[i b]|] eqn:E; cbn.
  - apply list_find_Some in E as (_ & _ & Hmin). destruct (Nat.le_gt_cases i l); [done|].
    exfalso. apply (Hmin l true); [|lia|done]. unfold test in Hl. destruct (m !! l) as [[]|]; done.
  - apply list_find_None in E. unfold test in Hl. destruct (m !! l) as [[]|] eqn:El; try done.
    rewrite Forall_lookup in E. exfalso. by apply (E l true El).
Qed.

(** What a vote returns to every voter. *)
Definition vote_spec (op : VoteType) (m : list bool) (rs1 : list Z) (v : Z) : Prop :=
  let p := vote_pred xlen64 rs1 in
  match op with
  | VOTE_ALL => (v = 1 /\ forall l, voter m l -> p l = true) \/ (v = 0 /\ exists l, voter m l /\ p l = false)
  | VOTE_ANY => (v = 1 /\ exists l, voter m l /\ p l = true) \/ (v = 0 /\ forall l, voter m l -> p l = false)
  | VOTE_UNI => (v = 1 /\ exists b, forall l, voter m l -> p l = b) \/
                (v = 0 /\ exists l l', voter m l /\ voter m l' /\ p l = true /\ p l' = false)
  | VOTE_BAL => forall i, 0 <= i -> Z.testbit v i = true <-> exists l, voter m l /\ p l = true /\ Z.of_nat l = i
  end.

Lemma vote_lanes_spec op m rs1 : exists v, vote_spec op m rs1 v /\
  forall l, voter m l -> vote_lanes xlen64 nt op m rs1 !! l = Some v.
Proof.
  unfold vote_lanes. set (act := filter (fun t => test m t = true) (seq 0 nt)).
  set (p := vote_pred xlen64 rs1). set (v := match op with VOTE_ALL => _ | _ => _ end). exists v. split.
  2: { intros l [Hl Hm]. rewrite list_lookup_fmap, lookup_seq_lt by done. cbn.
       by rewrite (proj2 (Nat.leb_le _ _)) by (by apply thread_start_le). }
  assert (Hf : existsb (fun t => negb (p t)) act = false -> forall l, voter m l -> p l = true).
  { intros E l Hl. pose proof (proj1 (no_voter m _) E l Hl) as H. by apply negb_false_iff in H. }
  assert (Ht : existsb (fun t => negb (p t)) act = true -> exists l, voter m l /\ p l = false).
  { intros E. apply exists_voter in E as (l & Hl & Hp). exists l. split; [done|]. by apply negb_true_iff. }
  subst v. destruct op; cbn; fold p.
  - destruct (existsb (fun t => negb (p t)) act); [right|left]; auto.
  - destruct (existsb p act) eqn:E; [left; split; [done|by apply exists_voter]|right; split; [done|by apply no_voter]].
  - destruct (existsb p act) eqn:E; cbn; [|left; split; [done|]; exists false; by apply no_voter].
    apply exists_voter in E as (l & Hl & Hp).
    destruct (existsb (fun t => negb (p t)) act); cbn; [right|left].
    + destruct Ht as (l' & Hl' & Hp'); [done|]. split; [done|]. by exists l, l'.
    + split; [done|]. exists true. by apply Hf.
  - intros i Hi. rewrite ballot_bits, Z.bits_0 by done. cbn [orb]. unfold act. rewrite exists_voter.
    setoid_rewrite andb_true_iff. setoid_rewrite Z.eqb_eq. done.
Qed.

(** A shuffle reads an existing lane: its own, or one inside the segment that the operand selects. *)
Lemma shfl_lane_spec op t bc : (t < nt)%nat ->
  let mask := Z.land (Z.shiftr bc 12) 0x3f in
  let minLane := Z.land (Z.of_nat t) mask in
  let maxLane := Z.lor minLane (Z.land (Z.land (Z.shiftr bc 6) 0x3f) (Z.lnot mask)) in
  let l := shfl_lane nt op t bc in
  0 <= l < Z.of_nat nt /\
  (l = Z.of_nat t \/ match op with SHFL_UP => minLane <= l <= Z.of_nat t | _ => l <= maxLane end).
Proof.
  intros Ht mask minLane maxLane l. subst l. unfold shfl_lane. cbv zeta. fold mask. fold minLane. fold maxLane.
  assert (Hmin : 0 <= minLane) by (apply Z.land_nonneg; lia).
  assert (Hb : 0 <= Z.land (Z.shiftr bc 0) 0x3f) by (apply Z.land_nonneg; lia).
  assert (Hx : 0 <= Z.lxor (Z.of_nat t) (Z.land (Z.shiftr bc 0) 0x3f)) by (apply Z.lxor_nonneg; lia).
  assert (Hi : 0 <= Z.lor minLane (Z.land (Z.land (Z.shiftr bc 0) 0x3f) (Z.lnot mask))).
  { apply Z.lor_nonneg. split; [done|]. apply Z.land_nonneg. by left. }
  destruct op; repeat match goal with
  | |- context [?a >=? ?b] => destruct (Z.geb_spec a b)
  | |- context [?a <=? ?b] => destruct (Z.leb_spec a b)
  | |- context [?a <? ?b] => destruct (Z.ltb_spec a b)
  end; lia.
Qed.

End Collectives.

(** A vote gives every active lane the same answer, which is
    the quantifier over the active lanes' predicates (all, any, uniform) or
    their ballot; a shuffle gives every active lane the first operand of an
    existing lane, its own or one inside the segment selected by the second
    operand.  Neither changes the machine. *)
Theorem warp_collectives (xlen64 : bool) (nt : nat) heap cycles s sb t :
  (forall op, a_op t = OpVote op -> exists d v,
     execute xlen64 nt heap cycles s sb t = Some (s, sb, a_tmask t, d) /\ vote_spec xlen64 nt op (a_tmask t) (a_rs1 t) v /\
     forall l, voter nt (a_tmask t) l -> d !! l = Some v) /\
  (forall op, a_op t = OpShfl op -> exists d,
     execute xlen64 nt heap cycles s sb t = Some (s, sb, a_tmask t, d) /\
     forall l, voter nt (a_tmask t) l ->
       let bc := ri xlen64 (reg_at (a_rs2 t) l) in
       let mask := Z.land (Z.shiftr bc 12) 0x3f in
       let minLane := Z.land (Z.of_nat l) mask in
       let maxLane := Z.lor minLane (Z.land (Z.land (Z.shiftr bc 6) 0x3f) (Z.lnot mask)) in
       exists src, (src < nt)%nat /\ d !! l = Some (ru xlen64 (reg_at (a_rs1 t) src)) /\
         (src = l \/ match op with SHFL_UP => minLane <= Z.of_nat src <= Z.of_nat l | _ => Z.of_nat src <= maxLane end)).
Proof.
  split; intros op Hop; unfold execute; rewrite Hop.
  - destruct (vote_lanes_spec xlen64 nt op (a_tmask t) (a_rs1 t)) as (v & Hv & Hl). by eexists _, v.
  - rewrite (active_lanes_all nt _ _ (fun i => ru xlen64 (reg_at (a_rs1 t)
      (Z.to_nat (shfl_lane nt op i (ri xlen64 (reg_at (a_rs2 t) i))))))) by done.
    eexists. split; [done|]. intros l [Hl Hm]. cbv zeta. set (bc := ri xlen64 (reg_at (a_rs2 t) l)).
    pose proof (shfl_lane_spec nt op l bc Hl) as [Hr Hs]. cbv zeta in Hs.
    exists (Z.to_nat (shfl_lane nt op l bc)). split; [lia|]. split.
    + rewrite list_lookup_fmap, lookup_seq_lt by done. cbn. by rewrite Hm.
    + rewrite Z2Nat.id by lia. destruct Hs as [Hs|Hs]; [left; lia|by right].
Qed.

(** A jump through a register keeps bit 0 of the target, which the instruction set clears. *)
Lemma jalr_keeps_bit0 xlen64 nt heap cycles s sb t w l off :
  a_op t = OpBr BR_JALR -> a_args t = BrArgs 0 false off -> thread_last (a_tmask t) = Some l ->
  warps_ s !! a_wid t = Some w ->
  exists d, execute xlen64 nt heap cycles s sb t =
    Some (set_warp s (a_wid t) (w <| w_PC := wrap (XLEN xlen64) (ri xlen64 (reg_at (a_rs1 t) l) + sextT (XLEN xlen64) off 32) |>),
          sb, a_tmask t, d).
Proof.
  intros Hop Ha Hl Hw. unfold execute, execute_br, set_pc. rewrite Hop, Ha, Hl. cbn. rewrite Hw. cbn. by eexists.
Qed.

(** [mulh x7, x5, x6] on two of four lanes, RV64. *)
Module AluDemo.

Definition s0 : Scheduler := Scheduler_init 1 4 (CtaDispatcher_init 4 1 0 14).
Definition tr : alu_trace := {|
  a_wid := 0; a_PC := 0x80000000; a_tmask := [true; false; true; false]; a_op := OpMdv MDV_MULH; a_args := MdvArgs false;
  a_rs1 := [u64 (-1); 0; 2 ^ 63; 0]; a_rs2 := [u64 (-1); 0; 4; 0]; a_rs3 := [0; 0; 0; 0] |}.

Lemma alu_executes_isa_witness : exists i, decode true 0x026293B3 = DecInstr i /\
  execute true 4 (fun _ => {| t_wid := 0; t_wb := false; t_dst := no_reg; t_srcs := []; t_suspended := false; t_num_pkts := 1 |})
    0 s0 (Scoreboard_init 1) tr = Some (s0, Scoreboard_init 1, a_tmask tr, [0; 0; u64 (-2); 0]).
Proof.
  destruct (alu_executes_isa true 4 0x026293B3 MULH) as (i & Hd & _ & _ & _ & Hx); [done|done|reflexivity|].
  exists i. split; [exact Hd|]. rewrite Hx; [reflexivity|..]; vm_compute in Hd; injection Hd as <-; reflexivity.
Defined.

End AluDemo.
