(* ===== verification/SchedProofs.v ===== *)
(** * The scheduler never fails an assertion

    The scheduler of [Sched] composed with the CTA dispatcher and a source of
    CTAs.  Every event of the core, scheduling a cycle, resuming a warp,
    changing a mask, spawning warps, advancing a PC, taking a trap, succeeds in
    every reachable state, when only instructions in the pipeline are released;
    an emitted trace belongs to a warp that was ready, or was started by the
    cycle, and is stalled from then on. *)

From S2P Require Import Prelude Kmu CtaDispatcher Decode Scoreboard Sched Barrier Wctl Simt.

Section Safety.
Context (XLEN MBS : Z) (num_warps nt : nat) (core_id : Z).
Context {K : Type} `{!CtaSource K}.

(** ** The dispatcher hands out non-empty masks *)

(** The threads of the CTA in flight that are still to be dispatched. *)
Definition brem_inv (d : CtaDispatcher) : Prop :=
  has_cta_ d = true -> exists bs, 0 < bs < 2 ^ 31 /\ cta_size_ d = (bs + num_threads_ d - 1) / num_threads_ d /\
    0 <= rank_ d < cta_size_ d /\ block_size_rem_ d = bs - rank_ d * num_threads_ d.

Lemma admit_brem d : cd_inv MBS d -> has_cta_ d = false -> has_pending_ d = true -> brem_inv (cd_admit XLEN MBS d).1.
Proof.
  intros HI Hc Hp. unfold cd_admit. cbv zeta. destruct (slot_window _ _ _) as [base k].
  destruct (forallb _ _); cbn [fst].
  - intros _. assert (Hnt : forall d', d' = d \/ d' = d <| tail_slot_ := 0 |> ->
      num_threads_ d' = num_threads_ d /\ pending_cta_ d' = pending_cta_ d) by (by intros d' [-> | ->]).
    match goal with |- context [cd_accept _ ?e _ _ _] => destruct (Hnt e) as [E1 E2]; [case_if; auto|] end.
    exists (req_block_size (pending_cta_ d)). pose proof (cd_pend MBS d HI Hp). pose proof (cd_nt MBS d HI).
    cbn -[wrap]. rewrite E1, E2, !(wrap_small 32) by (unfold in_u; lia). split; [done|]. split; [done|].
    split; [|lia]. split; [lia|]. apply Z.div_str_pos. lia.
  - unfold brem_inv. case_if; cbn; congruence.
Qed.

Lemma fetch_brem d k : cd_inv MBS d -> src_ok k -> brem_inv d -> brem_inv (cd_fetch XLEN MBS d k).1.1.
Proof.
  intros HI HK HB. unfold cd_fetch. destruct (has_cta_ d) eqn:Hc; [done|]. destruct (has_pending_ d) eqn:Hp.
  - pose proof (admit_brem d HI Hc Hp). by destruct (cd_admit _ _ d).
  - destruct (src_next k) as [[r k1]|] eqn:En; [|done]. destruct (src_next_ok k r k1 HK En) as [_ Hb].
    set (d0 := d <| pending_cta_ := r |> <| has_pending_ := true |>).
    assert (HI0 : cd_inv MBS d0) by by apply (inv_ext MBS d); try done; apply HI.
    pose proof (admit_brem d0 HI0 Hc eq_refl). by destruct (cd_admit _ _ d0).
Qed.

Lemma next_warp_brem d init rec d' : 0 < num_threads_ d < 2 ^ 31 -> brem_inv d -> next_warp XLEN d init = Some (rec, d') ->
  any (rec_tmask rec) = true /\ length (rec_tmask rec) = Z.to_nat (num_threads_ d) /\ brem_inv d'.
Proof.
  intros Hnt HB H. unfold next_warp in H. destruct (has_cta_ d) eqn:Hc; [|done]. cbn [negb] in H.
  destruct (HB Hc) as (bs & Hbs & Hsz & Hr & Hrem).
  assert (Hlow : rank_ d * num_threads_ d < bs).
  { pose proof (Z.mul_div_le (bs + num_threads_ d - 1) (num_threads_ d) ltac:(lia)). nia. }
  injection H as <- <-. cbn -[wrap seqZ].
  set (act := if block_size_rem_ d >=? num_threads_ d then num_threads_ d else block_size_rem_ d).
  assert (Hact : 0 < act <= block_size_rem_ d) by (subst act; destruct (Z.geb_spec (block_size_rem_ d) (num_threads_ d)); lia).
  split; [|split].
  - apply any_test. exists 0%nat. unfold test. rewrite list_lookup_fmap, lookup_seqZ_lt by lia. cbn.
    by rewrite (proj2 (Z.ltb_lt _ _)) by lia.
  - rewrite length_map. apply length_seqZ.
  - unfold brem_inv. cbn -[wrap]. rewrite !(wrap_small 32) by (unfold in_u; nia). intros Hlt. apply negb_true_iff in Hlt.
    destruct (Z.geb_spec (rank_ d + 1) (cta_size_ d)); [done|]. exists bs. unfold const. split; [done|]. split; [done|]. split; [lia|].
    assert (num_threads_ d <= block_size_rem_ d).
    { destruct (Z.le_gt_cases (num_threads_ d) (block_size_rem_ d)); [done|]. exfalso.
      assert (cta_size_ d <= rank_ d + 1); [|lia]. rewrite Hsz.
      apply Z.lt_succ_r. apply Z.div_lt_upper_bound; nia. }
    subst act. destruct (Z.geb_spec (block_size_rem_ d) (num_threads_ d)); nia.
Qed.

Lemma step_brem d active k d' k' res : cd_inv MBS d -> src_ok k -> brem_inv d ->
  cd_step XLEN MBS d active k = (d', k', res) ->
  brem_inv d' /\ match res with None => True | Some (_, rec) =>
    any (rec_tmask rec) = true /\ length (rec_tmask rec) = Z.to_nat (num_threads_ d) end.
Proof.
  intros HI HK HB H. unfold cd_step in H. pose proof (fetch_brem d k HI HK HB) as HB1.
  pose proof (fetch_config XLEN MBS d k) as HC.
  destruct (cd_fetch _ _ d k) as [[d1 k1] ok] eqn:EF. cbn [fst] in *.
  destruct (fetch_inv _ _ _ _ _ _ _ HI HK EF) as (HI1 & _ & _ & _ & _).
  destruct (negb ok); [by injection H as <- <- <-|]. destruct (first_free active); [|by injection H as <- <- <-].
  destruct (next_warp XLEN d1 _) as [[rec d2]|] eqn:En; [|by injection H as <- <- <-].
  destruct (next_warp_brem _ _ _ _ (cd_nt MBS d1 HI1) HB1 En) as (Ha & Hl & HB2).
  injection H as <- <- <-. split; [exact HB2|]. split; [done|]. rewrite Hl. f_equal.
  unfold cd_config in HC. by injection HC.
Qed.

Lemma warp_done_brem d w d' : brem_inv d -> warp_done d w = Some d' -> brem_inv d'.
Proof.
  intros HB. unfold warp_done. destruct (_ >=? _); [by intros [= <-]|]. destruct (_ >? _); [|done]. by intros [= <-].
Qed.

(** ** The invariant *)

Record dinv (d : CtaDispatcher) (active : list bool) (k : K) : Prop := {
  di_cd : cd_inv MBS d; di_brem : brem_inv d; di_occ : occupied_active d active; di_src : src_ok k;
  di_nw : num_warps_ d = Z.of_nat num_warps; di_nt : num_threads_ d = Z.of_nat nt
}.

(** Warps and masks: an active warp has threads, and a warp whose stall is
    pending is stalled. *)
Record winv (s : Scheduler) : Prop := {
  wi_warps : length (warps_ s) = num_warps; wi_active : length (active_warps_ s) = num_warps;
  wi_stalled : length (stalled_warps_ s) = num_warps; wi_next : length (stalled_warps_next_ s) = num_warps;
  wi_epoch : length (trap_epoch_ s) = num_warps;
  wi_len i w : warps_ s !! i = Some w -> length (w_tmask w) = nt;
  wi_any i w : warps_ s !! i = Some w -> test (active_warps_ s) i = true -> any (w_tmask w) = true;
  wi_sub i : test (stalled_warps_next_ s) i = true -> test (stalled_warps_ s) i = true
}.

(** A pending [wspawn] keeps warp 0 active and stalled. *)
Definition spawn_inv (s : Scheduler) : Prop :=
  ws_valid (wspawn_ s) = true ->
  test (active_warps_ s) 0 = true /\ test (stalled_warps_next_ s) 0 = true /\ ws_num_warps (wspawn_ s) <= Z.of_nat num_warps.

Definition sched_inv (s : Scheduler) (k : K) : Prop :=
  dinv (cta_dispatcher_ s) (active_warps_ s) k /\ winv s /\ spawn_inv s.

(** Replacing one warp by another with the same kind of mask. *)
Lemma set_warp_inv s i w : winv s -> length (w_tmask w) = nt -> (test (active_warps_ s) i = true -> any (w_tmask w) = true) ->
  winv (set_warp s i w).
Proof.
  intros HW Hl Ha. unfold set_warp. constructor; rproj; rewrite ?length_insert; try apply HW.
  - intros j w' Hj. apply list_lookup_insert_Some in Hj as [(-> & <- & _)|(_ & Hj)]; [done|by apply (wi_len s HW j)].
  - intros j w' Hj. apply list_lookup_insert_Some in Hj as [(-> & <- & _)|(_ & Hj)]; [done|by apply (wi_any s HW j)].
Qed.

(** Activating a warp with a non-empty mask. *)
Definition activated (s : Scheduler) (i : nat) (w : warp_t) : Scheduler :=
  (set_warp s i w) <| active_warps_ := <[i := true]> (active_warps_ s) |>
    <| stalled_warps_ := <[i := false]> (stalled_warps_ s) |>
    <| stalled_warps_next_ := <[i := false]> (stalled_warps_next_ s) |>.

Lemma activated_inv s i w : winv s -> (i < num_warps)%nat -> length (w_tmask w) = nt -> any (w_tmask w) = true ->
  winv (activated s i w).
Proof.
  intros HW Hi Hl Ha. unfold activated, set_warp. constructor; rproj; rewrite ?length_insert; try apply HW.
  - intros j w' Hj. apply list_lookup_insert_Some in Hj as [(-> & <- & _)|(_ & Hj)]; [done|by apply (wi_len s HW j)].
  - intros j w' Hj. apply list_lookup_insert_Some in Hj as [(-> & <- & _)|(Hne & Hj)]; [done|].
    rewrite test_insert by (rewrite (wi_active s HW); done). rewrite decide_False by done. by apply (wi_any s HW j).
  - intros j. rewrite !test_insert by (rewrite ?(wi_next s HW), ?(wi_stalled s HW); done).
    destruct (decide (i = j)); [done|]. apply HW.
Qed.

Lemma occupied_activate d a i : occupied_active d a -> (i < length a)%nat -> occupied_active d (<[i := true]> a).
Proof.
  intros [Hl Ha] Hi. split; [by rewrite length_insert|]. intros w s Hw Hs.
  destruct (decide (i = w)) as [->|Hne]; [by rewrite list_lookup_insert_eq|].
  rewrite list_lookup_insert_ne by done. by apply (Ha w s).
Qed.

Lemma dinv_activate d a i k : dinv d a k -> (i < length a)%nat -> dinv d (<[i := true]> a) k.
Proof. intros [] Hi. constructor; try done. by apply occupied_activate. Qed.

(** Clearing and setting a stall bit. *)
Lemma resume_inv s i : winv s -> winv (s <| stalled_warps_next_ := <[i := false]> (stalled_warps_next_ s) |>).
Proof.
  intros HW. constructor; rproj; rewrite ?length_insert; try apply HW.
  intros j Hj. apply (wi_sub s HW). destruct (decide (i < length (stalled_warps_next_ s))%nat).
  - rewrite test_insert in Hj by done. by destruct (decide (i = j)).
  - by rewrite list_insert_ge in Hj by lia.
Qed.

Lemma resume_ok s k i : sched_inv s k -> test (active_warps_ s) i = true -> test (stalled_warps_next_ s) i = true ->
  (ws_valid (wspawn_ s) = true -> i <> 0%nat) -> exists s', resume s i = Some s' /\ sched_inv s' k.
Proof.
  intros (HD & HW & HS) Ha Hn Hi. unfold resume. rewrite Ha, Hn. cbn. eexists. split; [done|].
  split; [done|]. split; [by apply resume_inv|]. intros Hv. destruct (HS Hv) as (H1 & H2 & H3). rproj.
  split; [done|]. split; [|done]. rewrite test_insert by (by apply test_lt). by rewrite decide_False by auto.
Qed.

(** ** The steps of a cycle *)

Lemma activate_warp_eq s wid rec w : warps_ s !! wid = Some w ->
  exists w', activate_warp XLEN s wid rec = Some (activated s wid w') /\ w_tmask w' = rec_tmask rec.
Proof. intros Hw. unfold activate_warp. rewrite Hw. cbn [mbind option_bind]. eexists. split; reflexivity. Qed.

(** CTA dispatch, then activation of the warp it returns. *)
Lemma dispatch_ok s k d k' r : sched_inv s k ->
  cd_step XLEN MBS (cta_dispatcher_ s) (active_warps_ s) k = (d, k', r) ->
  exists s', match r with Some (wid, rec) => activate_warp XLEN (s <| cta_dispatcher_ := d |>) wid rec
                        | None => Some (s <| cta_dispatcher_ := d |>) end = Some s' /\ sched_inv s' k'.
Proof.
  intros (HD & HW & HS) Hs. destruct HD as [HI HB HO HK Hnw Hnt].
  pose proof (step_inv XLEN MBS _ _ _ _ _ _ HI HO HK Hs) as (HI' & HK' & Hres).
  pose proof (step_brem _ _ _ _ _ _ HI HK HB Hs) as (HB' & Hrec).
  pose proof (step_config XLEN MBS (cta_dispatcher_ s) (active_warps_ s) k) as HC. rewrite Hs in HC. cbn in HC.
  unfold cd_config in HC. injection HC as E1 E2 _ _.
  destruct r as [[wid rec]|].
  2: { eexists. split; [done|]. split; [|split; [constructor; apply HW|done]]. constructor; rproj; try done; congruence. }
  destruct Hres as [Hfree HO']. destruct Hrec as [Hany Hlen].
  assert (Hi : (wid < num_warps)%nat) by (rewrite <- (wi_active s HW); by eapply lookup_lt_Some).
  destruct (lookup_lt_is_Some_2 (warps_ s) wid) as [w Hw]; [by rewrite (wi_warps s HW)|].
  match goal with |- context [activate_warp _ ?e] => destruct (activate_warp_eq e wid rec w Hw) as (w' & Ha & Hm) end.
  eexists. split; [exact Ha|]. split; [|split].
  - unfold activated, set_warp. constructor; rproj; (done || congruence).
  - apply activated_inv; rewrite ?Hm; try done; [constructor; apply HW|]. rewrite Hlen, Hnt. lia.
  - intros Hv. destruct (HS Hv) as (H1 & H2 & H3). unfold activated, set_warp. rproj.
    assert (wid <> 0%nat) by (intros ->; unfold test in H1; by rewrite Hfree in H1).
    rewrite !test_insert by (rewrite ?(wi_active s HW), ?(wi_next s HW); lia). by rewrite !decide_False by done.
Qed.

Lemma spawn_warp_eq s pc scratch i w : warps_ s !! i = Some w -> (0 < nt)%nat ->
  exists w', spawn_warp nt pc scratch (Some s) i = Some (activated s i w') /\ w_tmask w' = <[0%nat := true]> (w_tmask w).
Proof.
  intros Hw Hnt. unfold spawn_warp. cbn [mbind option_bind]. rewrite Hw. cbn [mbind option_bind].
  rewrite (proj2 (Nat.eqb_neq nt 0)) by lia. eexists. split; reflexivity.
Qed.

(** The activation loop of [wspawn]. *)
Lemma spawn_fold pc scratch k l : forall s, dinv (cta_dispatcher_ s) (active_warps_ s) k -> winv s ->
  (forall i, i ∈ l -> (0 < i < num_warps)%nat) -> (0 < nt)%nat ->
  exists s', fold_left (spawn_warp nt pc scratch) l (Some s) = Some s' /\
    dinv (cta_dispatcher_ s') (active_warps_ s') k /\ winv s' /\ wspawn_ s' = wspawn_ s /\
    test (active_warps_ s') 0 = test (active_warps_ s) 0 /\
    test (stalled_warps_next_ s') 0 = test (stalled_warps_next_ s) 0 /\
    test (stalled_warps_ s') 0 = test (stalled_warps_ s) 0.
Proof.
  induction l as [|i l IH]; intros s HD HW Hl Hnt; cbn [fold_left]; [by exists s|].
  assert (Hi : (0 < i < num_warps)%nat) by (apply Hl; left).
  destruct (lookup_lt_is_Some_2 (warps_ s) i) as [w Hw]; [rewrite (wi_warps s HW); lia|].
  pose proof (wi_len s HW i w Hw) as Hwl.
  destruct (spawn_warp_eq s pc scratch i w Hw Hnt) as (w' & -> & Hm).
  destruct (IH (activated s i w')) as (s' & Hf & HD' & HW' & Hw0 & Ha & Hn & Hst).
  - unfold activated, set_warp. rproj. apply dinv_activate; [done|]. rewrite (wi_active s HW). lia.
  - apply activated_inv; [done|lia|by rewrite Hm, length_insert|]. apply any_test. exists 0%nat.
    rewrite Hm, test_insert by lia. by rewrite decide_True.
  - intros j Hj. apply Hl. by right.
  - done.
  - exists s'. rewrite Hf, Hw0, Ha, Hn, Hst. unfold activated, set_warp. rproj.
    rewrite !test_insert by (rewrite ?(wi_active s HW), ?(wi_next s HW), ?(wi_stalled s HW); lia). by rewrite !decide_False by lia.
Qed.

Lemma wspawn_ok s k : sched_inv s k -> (0 < nt)%nat -> exists s', do_wspawn nt s = Some s' /\ sched_inv s' k.
Proof.
  intros HI Hnt. unfold do_wspawn. destruct (ws_valid (wspawn_ s)) eqn:Hv; cbn [andb]; [|by exists s].
  destruct (Sched.count (active_warps_ s) =? 1)%nat; [|by exists s].
  destruct HI as (HD & HW & HS). destruct (HS Hv) as (H1 & H2 & H3).
  pose proof (test_lt _ _ H1) as H0. rewrite (wi_active s HW) in H0.
  destruct (lookup_lt_is_Some_2 (warps_ s) 0) as [w0 Hw0]; [by rewrite (wi_warps s HW)|].
  rewrite Hw0. cbn [mbind option_bind].
  destruct (spawn_fold (ws_nextPC (wspawn_ s)) (mscratch w0) k (seq 1 (Z.to_nat (ws_num_warps (wspawn_ s)) - 1)) s)
    as (s' & -> & HD' & HW' & Hw' & Ha & Hn & _); [done|done| |done|].
  { intros i Hi. apply elem_of_seq in Hi. lia. }
  cbn [mbind option_bind]. apply resume_ok; rproj; try (by rewrite ?Ha, ?Hn).
  split; [done|]. split; [constructor; apply HW'|]. intros Hx. by rewrite Hw' in Hx.
Qed.

(** *** Nothing in a cycle unreadies a warp before the pick *)

Definition keeps_ready (s s' : Scheduler) : Prop := forall i,
  test (active_warps_ s) i = true -> test (stalled_warps_ s) i = false ->
  test (active_warps_ s') i = true /\ test (stalled_warps_ s') i = false.

Lemma keeps_ready_refl s s' : active_warps_ s' = active_warps_ s -> stalled_warps_ s' = stalled_warps_ s -> keeps_ready s s'.
Proof. intros E1 E2 i. by rewrite E1, E2. Qed.

Lemma keeps_ready_trans s1 s2 s3 : keeps_ready s1 s2 -> keeps_ready s2 s3 -> keeps_ready s1 s3.
Proof. intros H1 H2 i Ha Hs. destruct (H1 i Ha Hs). by apply H2. Qed.

Lemma test_insert_keep l i j c d : test l j = c -> (i = j -> d = c) -> test (<[i := d]> l) j = c.
Proof.
  intros Hj Hd. unfold test. destruct (decide (i = j)) as [->|Hne]; [|by rewrite list_lookup_insert_ne].
  destruct (decide (j < length l)%nat); [rewrite list_lookup_insert_eq by done; by apply Hd|].
  by rewrite list_insert_ge by lia.
Qed.

Lemma keeps_activated s i w : keeps_ready s (activated s i w).
Proof. intros j Ha Hs. unfold activated, set_warp. rproj. split; by apply test_insert_keep. Qed.

Lemma dispatch_keeps s d r s' : 
  match r with Some (wid, rec) => activate_warp XLEN (s <| cta_dispatcher_ := d |>) wid rec
             | None => Some (s <| cta_dispatcher_ := d |>) end = Some s' -> keeps_ready s s'.
Proof.
  destruct r as [[wid rec]|]; [|intros [= <-]; by apply keeps_ready_refl]. unfold activate_warp.
  destruct (warps_ _ !! wid); [|done]. cbn [mbind option_bind]. intros [= <-].
  intros j Ha Hs. unfold set_warp. rproj. split; by apply test_insert_keep.
Qed.

Lemma spawn_keeps pc scratch l : forall s s', fold_left (spawn_warp nt pc scratch) l (Some s) = Some s' -> keeps_ready s s'.
Proof.
  induction l as [|i l IH]; intros s s'; cbn [fold_left]; [intros [= <-]; by apply keeps_ready_refl|].
  destruct (spawn_warp nt pc scratch (Some s) i) as [s1|] eqn:E.
  2: { intros H. exfalso. clear -H. induction l; cbn in H; auto. discriminate H. }
  intros H. eapply keeps_ready_trans; [|by apply IH]. unfold spawn_warp in E. cbn [mbind option_bind] in E.
  destruct (warps_ s !! i); [|done]. cbn [mbind option_bind] in E. destruct (_ =? _)%nat; [done|]. injection E as <-.
  apply keeps_activated.
Qed.

Lemma wspawn_keeps s s' : do_wspawn nt s = Some s' -> keeps_ready s s'.
Proof.
  unfold do_wspawn. destruct (_ && _); [|intros [= <-]; by apply keeps_ready_refl].
  destruct (warps_ s !! _); [|done]. cbn [mbind option_bind].
  destruct (fold_left _ _ _) as [s1|] eqn:E; [|done]. cbn [mbind option_bind]. intros H.
  eapply keeps_ready_trans; [by eapply spawn_keeps|]. unfold resume in H. destruct (_ && _); [|done]. injection H as <-.
  by apply keeps_ready_refl.
Qed.

(** The warp is waiting for the instruction it issued. *)
Definition waiting (s : Scheduler) (wid : nat) : bool :=
  test (active_warps_ s) wid && test (stalled_warps_next_ s) wid && negb (ws_valid (wspawn_ s) && (wid =? 0)%nat).

Lemma waiting_spec s wid : waiting s wid = true ->
  test (active_warps_ s) wid = true /\ test (stalled_warps_next_ s) wid = true /\
  (ws_valid (wspawn_ s) = true -> wid <> 0%nat).
Proof.
  unfold waiting. intros H. apply andb_true_iff in H as [H Hv]. apply andb_true_iff in H as [Ha Hn].
  split; [done|]. split; [done|]. intros E ->. by rewrite E in Hv.
Qed.

(** *** What the steps before the pick do to the other warps *)

(** Waiting warps go on waiting, and a warp that can be picked afterwards could
    be picked before or was not active. *)
Record stage (s s' : Scheduler) : Prop := {
  sg_waits i : waiting s i = true -> waiting s' i = true;
  sg_active i : test (active_warps_ s) i = true -> test (active_warps_ s') i = true;
  sg_back i : test (active_warps_ s') i = true -> test (stalled_warps_ s') i = false ->
    test (stalled_warps_ s) i = false \/ test (active_warps_ s) i = false
}.

Lemma stage_trans s1 s2 s3 : stage s1 s2 -> stage s2 s3 -> stage s1 s3.
Proof.
  intros [A1 B1 C1] [A2 B2 C2]. constructor; [auto|auto|]. intros i Ha Hs. destruct (test (active_warps_ s1) i) eqn:E; [left|by right].
  destruct (C2 i Ha Hs) as [H2|H2]; [|by rewrite (B1 i E) in H2]. destruct (C1 i (B1 i E) H2) as [H1|H1]; [done|congruence].
Qed.

Lemma stage_same s s' : active_warps_ s' = active_warps_ s -> stalled_warps_ s' = stalled_warps_ s ->
  stalled_warps_next_ s' = stalled_warps_next_ s -> wspawn_ s' = wspawn_ s -> stage s s'.
Proof. intros E1 E2 E3 E4. constructor; intros i; unfold waiting; rewrite ?E1, ?E2, ?E3, ?E4; tauto. Qed.

Lemma activated_stage s i w : winv s -> test (active_warps_ s) i = false -> stage s (activated s i w).
Proof.
  intros HW Hf. constructor; intros j; unfold waiting, activated, set_warp; rproj.
  - intros H. assert (Hne : i <> j) by (intros ->; by rewrite Hf in H). destruct (decide (i < num_warps)%nat) as [Hi|Hi].
    + rewrite !test_insert by (rewrite ?(wi_active s HW), ?(wi_next s HW); done). by rewrite !decide_False.
    + rewrite !list_insert_ge by (rewrite ?(wi_active s HW), ?(wi_next s HW); lia). done.
  - intros H. by apply test_insert_keep.
  - intros Ha Hs. destruct (decide (i = j)) as [->|Hne]; [by right|left]. unfold test in *. by rewrite list_lookup_insert_ne in Hs.
Qed.

Lemma count_one m i : Sched.count m = 1%nat -> test m 0 = true -> test m i = true -> i = 0%nat.
Proof.
  destruct m as [|b m]; [done|]. intros Hc H0 Hi. cbn in H0. subst b. rewrite count_cons in Hc. destruct i as [|i]; [done|]. exfalso.
  assert (Hp : (0 < Sched.count m)%nat) by (apply count_pos, any_test; by exists i). lia.
Qed.

Lemma dispatch_stage s k d k' r s' : sched_inv s k -> cd_step XLEN MBS (cta_dispatcher_ s) (active_warps_ s) k = (d, k', r) ->
  match r with Some (wid, rec) => activate_warp XLEN (s <| cta_dispatcher_ := d |>) wid rec
             | None => Some (s <| cta_dispatcher_ := d |>) end = Some s' -> stage s s'.
Proof.
  intros (HD & HW & HS) Hs. destruct HD as [HI HB HO HK Hnw Hnt]. pose proof (step_inv XLEN MBS _ _ _ _ _ _ HI HO HK Hs) as (_ & _ & Hres).
  destruct r as [[wid rec]|]; [|intros [= <-]; by apply stage_same]. destruct Hres as [Hfree _]. intros Ha.
  assert (Hw : exists w, warps_ (s <| cta_dispatcher_ := d |>) !! wid = Some w) by (unfold activate_warp in Ha; destruct (warps_ _ !! wid); [eauto|done]).
  destruct Hw as [w Hw]. destruct (activate_warp_eq _ wid rec w Hw) as (w' & Ha' & _). rewrite Ha' in Ha. injection Ha as <-.
  eapply stage_trans; [apply (stage_same s (s <| cta_dispatcher_ := d |>)); done|]. apply activated_stage; [constructor; apply HW|]. unfold test. rproj. by rewrite Hfree.
Qed.

Lemma wspawn_stage s k s' : sched_inv s k -> (0 < nt)%nat -> do_wspawn nt s = Some s' -> stage s s'.
Proof.
  intros (HD & HW & HS) Hnt. unfold do_wspawn. destruct (ws_valid (wspawn_ s)) eqn:Hv; cbn [andb]; [|intros [= <-]; by apply stage_same].
  destruct (Nat.eqb_spec (Sched.count (active_warps_ s)) 1) as [Hc|Hc]; [|intros [= <-]; by apply stage_same].
  destruct (HS Hv) as (H1 & H2 & H3). pose proof (fun i => count_one _ i Hc H1) as Honly.
  destruct (warps_ s !! 0%nat) as [w0|]; [|done]. cbn [mbind option_bind].
  destruct (spawn_fold (ws_nextPC (wspawn_ s)) (mscratch w0) k (seq 1 (Z.to_nat (ws_num_warps (wspawn_ s)) - 1)) s)
    as (s1 & -> & _ & _ & _ & Ha & _ & Hst); [done|done| |done|].
  { intros i Hi. apply elem_of_seq in Hi. lia. }
  cbn [mbind option_bind]. unfold resume. destruct (_ && _); [|done]. intros [= <-]. constructor; intros i; rproj.
  - unfold waiting at 1. intros H. apply andb_true_iff in H as [H Hn]. apply andb_true_iff in H as [H _]. rewrite (Honly i H), Hv in Hn. done.
  - intros H. rewrite (Honly i H). by rewrite Ha.
  - intros Hi Hs. destruct (test (active_warps_ s) i) eqn:E; [left|by right]. rewrite (Honly i E) in *. by rewrite <- Hst.
Qed.

(** *** The pick *)

Lemma pick_warp_ready s mask wid : pick_warp num_warps s mask = Some wid -> (wid < num_warps)%nat /\ ready s mask wid = true.
Proof.
  unfold pick_warp. intros H. apply head_Some_elem_of, list_elem_of_filter in H as [Hr Hs]. apply elem_of_seq in Hs. lia || (split; [lia|done]).
Qed.

Lemma pick_warp_total s mask wid : (wid < num_warps)%nat -> ready s mask wid = true -> exists w, pick_warp num_warps s mask = Some w.
Proof.
  intros Hw Hr. unfold pick_warp. assert (Hin : wid ∈ filter (fun i => ready s mask i = true) (seq 0 num_warps)).
  { apply list_elem_of_filter. split; [done|]. apply elem_of_seq. lia. }
  destruct (filter _ _); [by apply not_elem_of_nil in Hin|]. by eexists.
Qed.

(** Emitting the trace of a ready warp and clocking the stall register. *)
Definition emitted (mask : list bool) (s' : Scheduler) (t : sched_trace) : Prop :=
  test mask (st_wid t) = true /\ test (active_warps_ s') (st_wid t) = true /\ test (stalled_warps_ s') (st_wid t) = true /\
  any (st_tmask t) = true /\ length (st_tmask t) = nt.

Lemma clock_inv s k : sched_inv s k -> sched_inv (s <| stalled_warps_ := stalled_warps_next_ s |>) k.
Proof. intros (HD & HW & HS). split; [done|]. split; [|done]. constructor; rproj; try apply HW. done. Qed.

Lemma emit_ok s k mask wid : sched_inv s k -> ready s mask wid = true ->
  exists s' t, emit_trace num_warps core_id s wid = Some (s', t) /\ st_wid t = wid /\
    emitted mask (s' <| stalled_warps_ := stalled_warps_next_ s' |>) t /\
    sched_inv (s' <| stalled_warps_ := stalled_warps_next_ s' |>) k /\
    (forall i, waiting (s' <| stalled_warps_ := stalled_warps_next_ s' |>) i = (i =? wid)%nat || waiting s i).
Proof.
  intros (HD & HW & HS) Hr. unfold ready in Hr. apply andb_true_iff in Hr as [Hr Hm]. apply andb_true_iff in Hr as [Ha Hs].
  apply negb_true_iff in Hs. pose proof (test_lt _ _ Ha) as Hlt. rewrite (wi_active s HW) in Hlt.
  assert (Hn : test (stalled_warps_next_ s) wid = false).
  { destruct (test (stalled_warps_next_ s) wid) eqn:E; [|done]. apply (wi_sub s HW) in E. congruence. }
  destruct (lookup_lt_is_Some_2 (warps_ s) wid) as [w Hw]; [by rewrite (wi_warps s HW)|].
  destruct (lookup_lt_is_Some_2 (trap_epoch_ s) wid) as [ep He]; [by rewrite (wi_epoch s HW)|].
  pose proof (wi_any s HW wid w Hw Ha) as Hany. pose proof (wi_len s HW wid w Hw) as Hlen.
  unfold emit_trace. rewrite Hw. cbn [mbind option_bind]. rewrite Hany. cbn [negb].
  unfold suspend, set_warp. rproj. rewrite He. cbn [mbind option_bind].
  rewrite Ha, Hn. cbn [andb negb mbind option_bind]. do 2 eexists. split; [reflexivity|]. split; [reflexivity|].
  match goal with |- context [<[wid := ?w']> (warps_ s)] => pose proof (set_warp_inv s wid w' HW Hlen (fun _ => Hany)) as HW' end.
  unfold set_warp in *. split; [|split].
  - unfold emitted. rproj. rewrite test_insert by (by rewrite (wi_next s HW)). by rewrite decide_True.
  - split; [done|]. split.
    + constructor; rproj; rewrite ?length_insert; try apply HW'; rewrite ?length_insert; try apply HW. done.
    + intros Hv. destruct (HS Hv) as (H1 & H2 & H3). rproj. split; [done|]. split; [|done]. by apply test_insert_keep.
  - intros i. unfold waiting. rproj. rewrite test_insert by (by rewrite (wi_next s HW)).
    destruct (Nat.eqb_spec i wid) as [->|Hne]; [|by rewrite decide_False by done]. rewrite decide_True, Ha by done. cbn [andb orb].
    destruct (ws_valid (wspawn_ s)) eqn:Hv; [|done]. destruct (HS Hv) as (_ & H2 & _). destruct (Nat.eqb_spec wid 0) as [->|]; [congruence|done].
Qed.

(** A whole cycle. *)
Lemma schedule_ok s k mask : sched_inv s k -> (0 < nt)%nat ->
  exists s' k' t, schedule XLEN MBS num_warps nt core_id s k mask = Some (s', k', t) /\ sched_inv s' k' /\
    match t with
    | Some tr => emitted mask s' tr /\ (ready s mask (st_wid tr) = true \/ test (active_warps_ s) (st_wid tr) = false) /\
        waiting s (st_wid tr) = false /\ forall i, (i =? st_wid tr)%nat || waiting s i = true -> waiting s' i = true
    | None => (forall i, ready s mask i = false) /\ forall i, waiting s i = true -> waiting s' i = true
    end.
Proof.
  intros HI Hnt. unfold schedule. destruct (cd_step _ _ _ _ k) as [[d k'] r] eqn:Es.
  destruct (dispatch_ok s k d k' r HI Es) as (s1 & E1 & HI1). pose proof (dispatch_keeps s d r s1 E1) as K1.
  pose proof (dispatch_stage s k d k' r s1 HI Es E1) as G1.
  rewrite E1. cbn [mbind option_bind].
  destruct (wspawn_ok s1 k' HI1 Hnt) as (s2 & E2 & HI2). pose proof (wspawn_keeps s1 s2 E2) as K2.
  pose proof (stage_trans _ _ _ G1 (wspawn_stage s1 k' s2 HI1 Hnt E2)) as [G2 _ G4].
  rewrite E2. cbn [mbind option_bind]. destruct (pick_warp num_warps s2 mask) as [wid|] eqn:Ep.
  - destruct (pick_warp_ready _ _ _ Ep) as [Hw Hr]. destruct (emit_ok s2 k' mask wid HI2 Hr) as (s3 & t & E3 & Et & Ht & HI3 & Hw3).
    rewrite E3. cbn [mbind option_bind]. exists (s3 <| stalled_warps_ := stalled_warps_next_ s3 |>), k', (Some t). split; [done|]. split; [done|]. split; [done|]. rewrite Et.
    unfold ready in Hr. apply andb_true_iff in Hr as [Hr Hm]. apply andb_true_iff in Hr as [Ha Hs]. apply negb_true_iff in Hs. split; [|split].
    + destruct (test (active_warps_ s) wid) eqn:E; [left|by right]. destruct (G4 wid Ha Hs) as [H|H]; [|congruence]. unfold ready. by rewrite E, H, Hm.
    + destruct (waiting s wid) eqn:E; [|done]. apply G2 in E. destruct (waiting_spec _ _ E) as (_ & Hn & _). destruct HI2 as (_ & HW2 & _). apply (wi_sub s2 HW2) in Hn. congruence.
    + intros i Hi. rewrite Hw3. apply orb_true_iff in Hi as [-> |Hi]; [done|]. rewrite (G2 i Hi). apply orb_true_r.
  - cbn [mbind option_bind]. do 3 eexists. split; [reflexivity|]. split; [by apply clock_inv|]. split; [|exact G2].
    intros i. destruct (ready s mask i) eqn:Hr; [|done]. unfold ready in Hr.
    apply andb_true_iff in Hr as [Hr Hm]. apply andb_true_iff in Hr as [Ha Hs]. apply negb_true_iff in Hs.
    destruct (keeps_ready_trans _ _ _ K1 K2 i Ha Hs) as [Ha2 Hs2].
    destruct (pick_warp_total s2 mask i) as [w Hp]; [|by unfold ready; rewrite Ha2, Hs2, Hm|congruence].
    destruct HI as (_ & HW & _). rewrite <- (wi_active s HW). by apply test_lt.
Qed.

(** ** The other operations *)

Lemma setTmask_ok s k wid m : sched_inv s k -> (wid < num_warps)%nat -> length m = nt ->
  (ws_valid (wspawn_ s) = true -> wid <> 0%nat) ->
  exists s' b, setTmask s wid m = Some (s', b) /\ sched_inv s' k /\ b = any m /\
    stalled_warps_next_ s' = stalled_warps_next_ s /\ wspawn_ s' = wspawn_ s /\
    (b = true -> active_warps_ s' = active_warps_ s).
Proof.
  intros (HD & HW & HS) Hlt Hm Hv. destruct (lookup_lt_is_Some_2 (warps_ s) wid) as [w Hw]; [by rewrite (wi_warps s HW)|].
  unfold setTmask. rewrite Hw. cbn [mbind option_bind]. destruct (any m) eqn:Ha; cbn [negb].
  - do 2 eexists. split; [reflexivity|]. split; [|done]. split; [done|]. split; [|done]. by apply set_warp_inv.
  - destruct HD as [HI HB HO HK Hnw Hnt]. unfold set_warp. rproj.
    destruct (warp_done_inv MBS _ _ wid HI HO) as (d & Ed & HI' & HO'). pose proof (warp_done_brem _ _ _ HB Ed) as HB'.
    rewrite Ed. cbn [mbind option_bind]. do 2 eexists. split; [reflexivity|]. split; [|done].
    assert (E : num_warps_ d = num_warps_ (cta_dispatcher_ s) /\ num_threads_ d = num_threads_ (cta_dispatcher_ s)).
    { unfold warp_done in Ed. destruct (_ >=? _); [by injection Ed as <-|]. destruct (_ >? _); [|done]. by injection Ed as <-. }
    split; [|split].
    + constructor; rproj; try done; destruct E; congruence.
    + constructor; rproj; rewrite ?length_insert; try apply HW.
      * intros j w' Hj. apply list_lookup_insert_Some in Hj as [(-> & <- & _)|(_ & Hj)]; [done|by apply (wi_len s HW j)].
      * intros j w' Hj. rewrite test_insert by (by rewrite (wi_active s HW)).
        apply list_lookup_insert_Some in Hj as [(-> & <- & _)|(Hne & Hj)]; [by rewrite decide_True|].
        rewrite decide_False by done. by apply (wi_any s HW j).
    + intros Hx. destruct (HS Hx) as (H1 & H2 & H3). rproj. split; [|done].
      rewrite test_insert by (by rewrite (wi_active s HW)). by rewrite decide_False by auto.
Qed.

(** Updates of a warp's registers that keep its mask. *)
Lemma set_warp_ok s k wid w w' : sched_inv s k -> warps_ s !! wid = Some w -> w_tmask w' = w_tmask w -> sched_inv (set_warp s wid w') k.
Proof.
  intros (HD & HW & HS) Hw Hm. split; [done|]. split; [|done]. apply set_warp_inv; [done| |].
  - rewrite Hm. by apply (wi_len s HW wid).
  - rewrite Hm. by apply (wi_any s HW wid).
Qed.

Lemma advance_ok s k t inc : sched_inv s k -> (st_wid t < num_warps)%nat -> exists s', advance_pc XLEN s t inc = Some s' /\ sched_inv s' k.
Proof.
  intros HI Hlt. pose proof HI as (_ & HW & _). unfold advance_pc.
  destruct (lookup_lt_is_Some_2 (trap_epoch_ s) (st_wid t)) as [ep ->]; [by rewrite (wi_epoch s HW)|].
  cbn [mbind option_bind]. destruct (_ =? _); cbn [negb]; [|by exists s].
  destruct (lookup_lt_is_Some_2 (warps_ s) (st_wid t)) as [w Hw]; [by rewrite (wi_warps s HW)|].
  rewrite Hw. cbn [mbind option_bind]. eexists. split; [reflexivity|]. by eapply set_warp_ok.
Qed.

Lemma trap_ok s k wid cause pc : sched_inv s k -> (wid < num_warps)%nat -> exists s', raise_trap XLEN s wid cause pc = Some s' /\ sched_inv s' k.
Proof.
  intros HI Hlt. pose proof HI as (_ & HW & _). unfold raise_trap.
  destruct (lookup_lt_is_Some_2 (warps_ s) wid) as [w Hw]; [by rewrite (wi_warps s HW)|].
  rewrite Hw. cbn [mbind option_bind]. eexists. split; [reflexivity|]. by eapply set_warp_ok.
Qed.

(** ** Events of the core *)

(** A cycle; the resumption of a warp by a later stage; a thread mask written
    by a warp-control instruction, which resumes the warp it leaves active;
    a [wspawn] of warp 0; the PC increment of a decoded instruction; a
    synchronous trap. *)
Inductive sched_event :=
| EvSchedule (mask : list bool)
| EvResume (wid : nat)
| EvTmask (wid : nat) (m : list bool)
| EvWspawn (n pc : Z)
| EvAdvance (t : sched_trace) (inc : Z)
| EvTrap (wid : nat) (cause pc : Z).

(** The warps with an instruction in the pipeline: a cycle adds the warp it
    emits, and the event that releases the instruction removes it. *)
Definition in_flight (out : list nat) (e : sched_event) (t : option sched_trace) : list nat :=
  match e, t with
  | EvSchedule _, Some tr => st_wid tr :: out
  | EvResume wid, _ | EvTmask wid _, _ => filter (fun w => w <> wid) out
  | EvWspawn _ _, _ => filter (fun w => w <> 0%nat) out
  | _, _ => out
  end.

(** Only an instruction in the pipeline is released, once; [wspawn] is an
    instruction of warp 0.  The state of the scheduler plays no part. *)
Definition allowed (out : list nat) (e : sched_event) : bool :=
  match e with
  | EvSchedule _ => true
  | EvResume wid => bool_decide (wid ∈ out)
  | EvTmask wid m => bool_decide (wid ∈ out) && (length m =? nt)%nat
  | EvWspawn _ _ => bool_decide (0%nat ∈ out)
  | EvAdvance t _ => (st_wid t <? num_warps)%nat
  | EvTrap wid _ _ => (wid <? num_warps)%nat
  end.

Definition run_event (s : Scheduler) (k : K) (e : sched_event) : option (Scheduler * K * option sched_trace) :=
  match e with
  | EvSchedule mask => schedule XLEN MBS num_warps nt core_id s k mask
  | EvResume wid => s ← resume s wid; Some (s, k, None)
  | EvTmask wid m =>
      '(s, stays) ← setTmask s wid m;
      s ← (if stays : bool then resume s wid else Some s); Some (s, k, None)
  | EvWspawn n pc =>
      let '(s, now) := wspawn num_warps s n pc in
      s ← (if now : bool then resume s 0 else Some s); Some (s, k, None)
  | EvAdvance t inc => s ← advance_pc XLEN s t inc; Some (s, k, None)
  | EvTrap wid cause pc => s ← raise_trap XLEN s wid cause pc; Some (s, k, None)
  end.

Inductive sched_reach (s0 : Scheduler) (k0 : K) : Scheduler -> K -> list nat -> Prop :=
| sched_reach_init : sched_reach s0 k0 s0 k0 []
| sched_reach_step s k out e s' k' t : sched_reach s0 k0 s k out -> allowed out e = true ->
    run_event s k e = Some (s', k', t) -> sched_reach s0 k0 s' k' (in_flight out e t).

(** Releasing one warp leaves the others waiting. *)
Lemma resume_waits s wid s' : resume s wid = Some s' -> forall i, i <> wid -> waiting s i = true -> waiting s' i = true.
Proof.
  unfold resume. destruct (_ && _); [|done]. intros [= <-] i Hi. unfold waiting. rproj. unfold test. by rewrite list_lookup_insert_ne by done.
Qed.

Lemma setTmask_waits s wid m s' b : setTmask s wid m = Some (s', b) -> forall i, i <> wid -> waiting s i = true -> waiting s' i = true.
Proof.
  unfold setTmask. destruct (warps_ s !! wid); [|done]. cbn [mbind option_bind]. destruct (negb (any m)).
  - destruct (warp_done _ wid); [|done]. cbn [mbind option_bind]. intros [= <- <-] i Hi. unfold waiting, set_warp. rproj. unfold test. by rewrite list_lookup_insert_ne by done.
  - intros [= <- <-] i Hi. done.
Qed.

Lemma wspawn_event_ok s k n pc : sched_inv s k -> waiting s 0 = true ->
  exists s', (let '(s, now) := wspawn num_warps s n pc in s ← (if now : bool then resume s 0 else Some s); Some (s, k, None : option sched_trace))
    = Some (s', k, None) /\ sched_inv s' k /\ forall i, i <> 0%nat -> waiting s i = true -> waiting s' i = true.
Proof.
  intros HI Hw. destruct (waiting_spec _ _ Hw) as (Ha & Hn & Hv). unfold wspawn. destruct (_ && _).
  - destruct (resume_ok s k 0 HI Ha Hn Hv) as (s' & E & HI'). rewrite E. exists s'. split; [done|]. split; [done|]. by apply (resume_waits s 0).
  - cbn [mbind option_bind]. eexists. split; [reflexivity|]. destruct HI as (HD & HW & HS). split.
    + split; [done|]. split; [constructor; apply HW|]. intros _. rproj. split; [done|]. split; [done|]. lia.
    + intros i Hi. unfold waiting. rproj. rewrite (proj2 (Nat.eqb_neq i 0)), !andb_false_r by done. done.
Qed.

Lemma tmask_event_ok s k wid m : sched_inv s k -> waiting s wid = true -> length m = nt ->
  exists s', ('(s, stays) ← setTmask s wid m; s ← (if stays : bool then resume s wid else Some s); Some (s, k, None : option sched_trace))
    = Some (s', k, None) /\ sched_inv s' k /\ forall i, i <> wid -> waiting s i = true -> waiting s' i = true.
Proof.
  intros HI Hw Hm. destruct (waiting_spec _ _ Hw) as (Ha & Hn & Hv). pose proof HI as (_ & HW & _).
  destruct (setTmask_ok s k wid m HI) as (s1 & b & E1 & HI1 & _ & En & Ew & Eb); [|done|done|].
  { rewrite <- (wi_active s HW). by apply test_lt. }
  pose proof (setTmask_waits _ _ _ _ _ E1) as W1. rewrite E1. cbn [mbind option_bind]. destruct b; [|by exists s1].
  destruct (resume_ok s1 k wid HI1) as (s2 & E2 & HI2); [by rewrite Eb|by rewrite En|by rewrite Ew|]. rewrite E2. exists s2. split; [done|]. split; [done|].
  intros i Hi H. by apply (resume_waits s1 wid s2 E2), W1.
Qed.

(** Updates that leave the masks alone leave waiting warps waiting. *)
Lemma set_warp_waits s wid w i : waiting (set_warp s wid w) i = waiting s i.
Proof. done. Qed.

(** The warps in flight are distinct and wait. *)
Definition flight_inv (s : Scheduler) (out : list nat) : Prop := NoDup out /\ forall i, i ∈ out -> waiting s i = true.

Lemma flight_release s s' out wid : flight_inv s out -> (forall i, i <> wid -> waiting s i = true -> waiting s' i = true) ->
  flight_inv s' (filter (fun w => w <> wid) out).
Proof. intros [Hn Hw] H. split; [by apply list.NoDup_filter|]. intros i [Hi Hin]%list_elem_of_filter. auto. Qed.

Definition picked (s : Scheduler) (out : list nat) (e : sched_event) (s' : Scheduler) (t : option sched_trace) : Prop :=
  match e, t with
  | EvSchedule mask, Some tr => emitted mask s' tr /\ (ready s mask (st_wid tr) = true \/ test (active_warps_ s) (st_wid tr) = false) /\ st_wid tr ∉ out
  | EvSchedule mask, None => forall i, ready s mask i = false
  | _, _ => True
  end.

Lemma event_ok s k out e : sched_inv s k -> flight_inv s out -> (0 < nt)%nat -> allowed out e = true ->
  exists s' k' t, run_event s k e = Some (s', k', t) /\ sched_inv s' k' /\ flight_inv s' (in_flight out e t) /\ picked s out e s' t.
Proof.
  intros HI HF Hnt He. pose proof HF as [Hnd Hwait]. destruct e as [mask|wid|wid m|n pc|t inc|wid cause pc]; cbn [allowed run_event in_flight] in *.
  - destruct (schedule_ok s k mask HI Hnt) as (s' & k' & t & E & HI' & H). exists s', k', t. split; [done|]. split; [done|]. destruct t as [tr|].
    + destruct H as (H1 & H2 & H3 & H4). assert (Hout : st_wid tr ∉ out) by (intros Hin%Hwait; congruence). split; [|done].
      split; [by constructor|]. intros i [-> |Hi]%elem_of_cons; apply H4; [by rewrite Nat.eqb_refl|]. rewrite (Hwait i Hi). apply orb_true_r.
    + destruct H as [H1 H2]. split; [|done]. split; [done|]. auto.
  - apply bool_decide_eq_true in He. destruct (waiting_spec _ _ (Hwait _ He)) as (Ha & Hn & Hv). destruct (resume_ok s k wid HI Ha Hn Hv) as (s' & E & HI'). rewrite E.
    exists s', k, None. split; [done|]. split; [done|]. split; [|done]. apply (flight_release s); [done|]. by apply resume_waits.
  - apply andb_true_iff in He as [Hw Hm]. apply bool_decide_eq_true in Hw. apply Nat.eqb_eq in Hm.
    destruct (tmask_event_ok s k wid m HI (Hwait _ Hw) Hm) as (s' & -> & HI' & H). exists s', k, None. split; [done|]. split; [done|]. split; [|done]. by apply (flight_release s).
  - apply bool_decide_eq_true in He. destruct (wspawn_event_ok s k n pc HI (Hwait _ He)) as (s' & -> & HI' & H).
    exists s', k, None. split; [done|]. split; [done|]. split; [|done]. by apply (flight_release s).
  - apply Nat.ltb_lt in He. destruct (advance_ok s k t inc HI He) as (s' & E & HI'). exists s', k, None. rewrite E. split; [done|]. split; [done|]. split; [|done]. split; [done|].
    intros i Hi. rewrite <- (Hwait i Hi). unfold advance_pc in E. destruct (trap_epoch_ s !! st_wid t); [|done]. cbn [mbind option_bind] in E.
    destruct (negb _); [by injection E as <-|]. destruct (warps_ s !! st_wid t); [|done]. injection E as <-. by rewrite set_warp_waits.
  - apply Nat.ltb_lt in He. destruct (trap_ok s k wid cause pc HI He) as (s' & E & HI'). exists s', k, None. rewrite E. split; [done|]. split; [done|]. split; [|done]. split; [done|].
    intros i Hi. rewrite <- (Hwait i Hi). unfold raise_trap in E. destruct (warps_ s !! wid); [|done]. injection E as <-. by rewrite set_warp_waits.
Qed.

Lemma init_sched_inv k base lg : (0 < nt)%nat -> Z.of_nat nt < 2 ^ 31 -> (0 < num_warps)%nat -> Z.of_nat num_warps < 2 ^ 31 -> 
  src_ok k -> sched_inv (Scheduler_init num_warps nt (CtaDispatcher_init (Z.of_nat nt) (Z.of_nat num_warps) base lg)) k.
Proof.
  intros H1 H2 H3 H4 HK. split; [|split].
  - constructor; try done; [apply init_inv; lia|]. split; [cbn; unfold zeros; rewrite length_replicate; lia|].
    cbn. intros w s Hw Hs. apply lookup_replicate in Hw as [-> _]. lia.
  - constructor; cbn; unfold zeros; rewrite ?length_replicate; try done.
    + intros i w Hi. apply lookup_replicate in Hi as [-> _]. apply length_replicate.
    + intros i w _ Ha. change (test (zeros num_warps) i = true) in Ha. by rewrite test_zeros in Ha.
  - by intros Hv.
Qed.

Lemma sched_reach_inv s0 k0 s k out : sched_inv s0 k0 -> (0 < nt)%nat -> sched_reach s0 k0 s k out -> sched_inv s k /\ flight_inv s out.
Proof.
  intros HI Hnt. induction 1 as [|s k out e s' k' t _ [IH1 IH2] He Hr]; [split; [done|]; split; [constructor|]; by intros i Hi%elem_of_nil|].
  destruct (event_ok s k out e IH1 IH2 Hnt He) as (s1 & k1 & t1 & E & HI1 & HF1 & _). rewrite Hr in E. by injection E as -> -> ->.
Qed.

End Safety.


(** Two blocks of six threads on a core of four warps of four threads. *)
Module SchedDemo.

Definition sched0 : Scheduler := Scheduler_init 4 4 (CtaDispatcher_init 4 4 0x10000 10).

Definition after {K} (r : option (Scheduler * K * option sched_trace)) (s : Scheduler) (k : K) : Scheduler * K :=
  match r with Some (s', k', _) => (s', k') | None => (s, k) end.

Definition ones : list bool := replicate 4 true.
Definition sched1 : Scheduler * Kmu := Eval vm_compute in
  after (run_event 32 64 4 4 0 sched0 cd_sample_kmu (EvSchedule ones)) sched0 cd_sample_kmu.
Definition sched2 : Scheduler * Kmu := Eval vm_compute in
  after (run_event 32 64 4 4 0 sched1.1 sched1.2 (EvTmask 0 (replicate 4 false))) sched1.1 sched1.2.

Lemma sched1_reach : sched_reach 32 64 4 4 0 sched0 cd_sample_kmu sched1.1 sched1.2 [0%nat].
Proof.
  assert (E : exists tr, run_event 32 64 4 4 0 sched0 cd_sample_kmu (EvSchedule ones) = Some (sched1.1, sched1.2, Some tr) /\ st_wid tr = 0%nat)
    by (eexists; split; [vm_compute; reflexivity|reflexivity]).
  destruct E as (tr & E & Hw). pose proof (sched_reach_step 32 64 4 4 0 _ _ _ _ _ (EvSchedule ones) _ _ _ (sched_reach_init 32 64 4 4 0 _ _) eq_refl E) as H.
  cbn [in_flight] in H. by rewrite Hw in H.
Qed.

Lemma sched2_reach : sched_reach 32 64 4 4 0 sched0 cd_sample_kmu sched2.1 sched2.2 [].
Proof.
  assert (E : run_event 32 64 4 4 0 sched1.1 sched1.2 (EvTmask 0 (replicate 4 false)) = Some (sched2.1, sched2.2, None)) by (vm_compute; reflexivity).
  exact (sched_reach_step 32 64 4 4 0 _ _ _ _ _ (EvTmask 0 (replicate 4 false)) _ _ _ sched1_reach eq_refl E).
Qed.


End SchedDemo.
