(* ===== verification/Vm.v ===== *)
(** * Host page-table manager

    [sw/runtime/common/vm.{h,cpp}]: the manager keeps the page tables of the
    device in a host shadow, allocates table pages and virtual addresses with
    two allocators of [MemAlloc], installs leaf and superpage entries, and
    pushes dirty table pages to the device.  [VX_VM_ADDR_MODE] is the argument
    [m] of every operation.  A failed assertion, or a failure inside an
    allocator, is [None]; a page fault of the walk is a value.

    The random number generator of [VORTEX_RANDOMIZE_VA] is a parameter: a
    state and a draw from [0, n). *)

From S2P Require Import Prelude MemAlloc VmTypes.

(** ** Constants *)

Definition PTE_V : Z := 1.
Definition PTE_R : Z := 2.
Definition PTE_W : Z := 4.
Definition PTE_X : Z := 8.

Definition VX_MEM_WRITE : Z := 2.
Definition VX_VM_PAGE_SIZE : Z := 4096.
Definition CACHE_BLOCK_SIZE : Z := 64.
Definition VX_MEM_PAGE_TABLE_BASE_ADDR : Z := 0xF0000000.
Definition VX_MEM_USER_BASE_ADDR : Z := 0x10000.
Definition ALLOC_BASE_ADDR : Z := VX_MEM_USER_BASE_ADDR.

(** What a walk meets: a physical address, a page fault, or the assertion
    against an uninitialised entry. *)
Inductive walk_res := WalkPA (pa : Z) | WalkFault | WalkAssert.

Section Vm.
Context (m : vm_mode).

Definition VX_VM_PT_SIZE_LIMIT : Z := match m with SV32 => 2 ^ 23 | SV39 => 2 ^ 25 end.
Definition GLOBAL_MEM_SIZE : Z := match m with SV32 => 0x100000000 | SV39 => 0x200000000 end.

(** [pte_flags_from_access] *)
Definition pte_flags_from_access (access_flags : Z) : Z :=
  let pte := Z.lor PTE_V PTE_R in
  if negb (Z.land access_flags VX_MEM_WRITE =? 0) then Z.lor pte PTE_W else pte.

(** [vm_clog2]; the loop runs at most 64 times. *)
Fixpoint vm_clog2_from (fuel : nat) (n r : Z) : Z :=
  match fuel with
  | O => r
  | S fuel => if Z.shiftl 1 r <? n then vm_clog2_from fuel n (r + 1) else r
  end.
Definition vm_clog2 (n : Z) : Z := vm_clog2_from 64 n 0.
Definition VM_VPN_BITS : Z := vm_clog2 (VX_VM_PT_SIZE / VX_VM_PTE_SIZE m).

(** ** State *)

Context {R : Type} (rng_draw : R -> Z -> Z * R).

Record VMManager := {
  vm_satp_ : option SATP_t;
  page_table_mem_ : MemoryAllocator;
  virtual_mem_ : MemoryAllocator;
  addr_mapping : gmap Z Z;
  shadow_pt_ : gmap Z (list Z);
  dirty_pt_pages_ : gset Z;
  rng_ : R;
  randomize_va_ : bool
}.

(** [VMManager::VMManager]; [init] creates the allocators. *)
Definition VMManager_init (rng : R) (randomize : bool) : VMManager := {|
  vm_satp_ := None;
  page_table_mem_ := MemoryAllocator_init 0 0 1 1; virtual_mem_ := MemoryAllocator_init 0 0 1 1;
  addr_mapping := ∅; shadow_pt_ := ∅; dirty_pt_pages_ := ∅; rng_ := rng; randomize_va_ := randomize |}.

Definition get_base_ppn (s : VMManager) : Z := from_option satp_ppn 0 (vm_satp_ s).
Definition get_mode (s : VMManager) : Z := from_option satp_mode 0 (vm_satp_ s).
Definition vm_satp (s : VMManager) : Z := from_option satp_satp 0 (vm_satp_ s).

(** [VMManager::need_trans] *)
Definition need_trans (s : VMManager) : bool :=
  match vm_satp_ s with None => false | Some _ => negb (get_mode s =? BARE) end.

(** ** Shadow page tables *)

Definition pt_page (addr : Z) : Z := Z.land addr (u64 (Z.lnot (VX_VM_PT_SIZE - 1))).

(** [touch_pt_page]: the page is materialised with zeros and marked dirty. *)
Definition touched (page : option (list Z)) : list Z :=
  match page with
  | Some ((_ :: _) as p) => p
  | _ => replicate (Z.to_nat VX_VM_PT_SIZE) 0
  end.

Definition touch_pt_page (s : VMManager) (addr : Z) : VMManager * list Z :=
  let page_pa := pt_page addr in
  let page := touched (shadow_pt_ s !! page_pa) in
  (s <| shadow_pt_ := <[page_pa := page]> (shadow_pt_ s) |>
     <| dirty_pt_pages_ := {[page_pa]} ∪ dirty_pt_pages_ s |>, page).

(** [write_pte]: [VX_VM_PTE_SIZE] bytes, little endian. *)
Definition write_pte (s : VMManager) (addr value : Z) : VMManager :=
  let '(s, page) := touch_pt_page s addr in
  let page_pa := pt_page addr in
  let off := Z.to_nat (addr - page_pa) in
  s <| shadow_pt_ := <[page_pa := list_inserts off (le_bytes (Z.to_nat (VX_VM_PTE_SIZE m)) value) page]> (shadow_pt_ s) |>.

(** [read_pte]: an unallocated page reads as zero. *)
Definition read_pte (s : VMManager) (addr : Z) : Z :=
  match shadow_pt_ s !! pt_page addr with
  | None => 0
  | Some page =>
      let off := Z.to_nat (addr - pt_page addr) in
      let v := le_word (take (Z.to_nat (VX_VM_PTE_SIZE m)) (drop off page)) in
      Z.land v (match m with SV32 => 0xFFFFFFFF | SV39 => 0xFFFFFFFFFFFFFFFF end)
  end.

(** [alloc_page_table]: on success the page of zeros and its address, on an
    allocator error nothing. *)
Definition alloc_page_table (s : VMManager) : option (VMManager * option Z) :=
  '(pm, r) ← ma_allocate (page_table_mem_ s) VX_VM_PT_SIZE;
  let s := s <| page_table_mem_ := pm |> in
  match r with
  | None => Some (s, None)
  | Some pt_addr =>
      let '(s, page) := touch_pt_page s pt_addr in
      Some (s <| shadow_pt_ := <[pt_page pt_addr := replicate (length page) 0]> (shadow_pt_ s) |>, Some pt_addr)
  end.

Definition baadf00d (bytes : Z) : bool := Z.land bytes 0xFFFFFFFF =? 0xbaadf00d.

Definition pte_addr (base_ppn vpn_idx : Z) : Z := u64 (base_ppn * VX_VM_PT_SIZE + vpn_idx * VX_VM_PTE_SIZE m).

(** The descent of [update_page_table] from level [i].  [pt_addr] is the
    variable of the source: it keeps its value when a table cannot be
    allocated, whose error the source drops. *)
Fixpoint update_from (s : VMManager) (ppn vpn pte_flag : Z) (leaf_level : nat) (vpns : list Z)
    (i : nat) (cur_base_ppn pt_addr : Z) : option (VMManager * Z) :=
  let pa := pte_addr cur_base_ppn (nth i vpns 0) in
  let bytes := read_pte s pa in
  let pte := PTE_fields m bytes in
  let valid := pte_v pte && negb (baadf00d bytes) in
  if valid && (pte_r pte || pte_w pte || pte_x pte) then
    let span := u64 (Z.shiftl 1 (Z.of_nat i * VM_VPN_BITS)) in
    let mapped_ppn := Z.lor (Z.land (pte_ppn pte) (u64 (Z.lnot (span - 1)))) (Z.land vpn (span - 1)) in
    Some (s, if mapped_ppn =? ppn then 0 else -1)
  else if valid then
    match i with
    | O => Some (s, 0)
    | S i => update_from s ppn vpn pte_flag leaf_level vpns i (pte_ppn pte) pt_addr
    end
  else if (i =? leaf_level)%nat then
    new_pte ← PTE_make m (u64 (Z.shiftl ppn VX_VM_PAGE_LOG2_SIZE)) pte_flag;
    Some (write_pte s pa (pte_bytes new_pte), 0)
  else
    '(s, r) ← alloc_page_table s;
    let pt_addr := default pt_addr r in
    new_pte ← PTE_make m pt_addr PTE_V;
    let s := write_pte s pa (pte_bytes new_pte) in
    match i with
    | O => Some (s, 0)
    | S i => update_from s ppn vpn pte_flag leaf_level vpns i (pte_ppn new_pte) pt_addr
    end.

(** [VMManager::update_page_table] *)
Definition update_page_table (s : VMManager) (ppn vpn pte_flag : Z) (leaf_level : nat) : option (VMManager * Z) :=
  let in_range := match m with
    | SV39 => (Z.shiftr ppn 44 =? 0) && (Z.shiftr vpn 27 =? 0)
    | SV32 => (Z.shiftr ppn 20 =? 0) && (Z.shiftr vpn 20 =? 0)
    end in
  if negb in_range || negb (leaf_level <? VX_VM_PT_LEVEL m)%nat then None
  else
    va ← vAddr_make m (u64 (Z.shiftl vpn VX_VM_PAGE_LOG2_SIZE));
    update_from s ppn vpn pte_flag leaf_level (va_vpn va) (VX_VM_PT_LEVEL m - 1) (get_base_ppn s) 0.

(** The loop of [page_table_walk]: the leaf and its level. *)
Fixpoint walk_from (s : VMManager) (vpns : list Z) (i : nat) (cur_base_ppn : Z) : (Z * nat) + walk_res :=
  let bytes := read_pte s (pte_addr cur_base_ppn (nth i vpns 0)) in
  let pte := PTE_fields m bytes in
  if baadf00d bytes then inr WalkAssert
  else if negb (pte_v pte) || (negb (pte_r pte) && pte_w pte) then inr WalkFault
  else if negb (pte_r pte) && negb (pte_w pte) && negb (pte_x pte) then
    match i with
    | O => inr WalkFault
    | S i => walk_from s vpns i (pte_ppn pte)
    end
  else if negb (pte_r pte) then inr WalkFault
  else inl (pte_ppn pte, i).

(** The physical address of a leaf at level [i]. *)
Definition leaf_pa (ppn : Z) (i : nat) (vAddr_bits : Z) : Z :=
  let off_mask := u64 (Z.shiftl 1 (VX_VM_PAGE_LOG2_SIZE + Z.of_nat i * VM_VPN_BITS)) - 1 in
  Z.lor (Z.land (u64 (Z.shiftl ppn VX_VM_PAGE_LOG2_SIZE)) (u64 (Z.lnot off_mask))) (Z.land vAddr_bits off_mask).

(** [VMManager::page_table_walk]; [None] is the assertion of [vAddr_t]. *)
Definition page_table_walk (s : VMManager) (vAddr_bits : Z) : option walk_res :=
  if negb (need_trans s) then Some (WalkPA vAddr_bits)
  else
    va ← vAddr_make m vAddr_bits;
    Some (match walk_from s (va_vpn va) (VX_VM_PT_LEVEL m - 1) (get_base_ppn s) with
          | inl (ppn, i) => WalkPA (leaf_pa ppn i vAddr_bits)
          | inr r => r
          end).

(** ** Operations that reach the device *)

Context {D : Type} (dev_write : D -> Z -> list Z -> D).

(** [VMManager::flush] *)
Definition flush (s : VMManager) (d : D) : VMManager * D :=
  (s <| dirty_pt_pages_ := ∅ |>,
   fold_left (fun d page_pa => dev_write d page_pa (default [] (shadow_pt_ s !! page_pa))) (elements (dirty_pt_pages_ s)) d).

(** [level_size[l]] *)
Definition level_size (l : nat) : Z := VX_VM_PAGE_SIZE * (VX_VM_PT_SIZE / VX_VM_PTE_SIZE m) ^ Z.of_nat l.

(** The largest level whose alignment and size fit at [cur]. *)
Fixpoint pick_level (cur remaining : Z) (l : nat) : nat :=
  match l with
  | O => 0%nat
  | S l' => if (cur mod level_size l =? 0) && (remaining >=? level_size l) then l else pick_level cur remaining l'
  end.

Definition IDENTITY_PTE_FLAGS : Z := Z.lor (Z.lor (Z.lor PTE_V PTE_R) PTE_W) PTE_X.

(** The loop of [install_identity_map]; every round advances by a page at
    least, so [fuel] pages are enough. *)
Fixpoint identity_loop (fuel : nat) (s : VMManager) (cur en : Z) : option (VMManager * Z) :=
  if negb (cur <? en) then Some (s, 0)
  else
    match fuel with
    | O => None
    | S fuel =>
        let leaf_level := pick_level cur (en - cur) (VX_VM_PT_LEVEL m - 1) in
        let vpn := Z.shiftr cur VX_VM_PAGE_LOG2_SIZE in
        '(s, err) ← update_page_table s vpn vpn IDENTITY_PTE_FLAGS leaf_level;
        if negb (err =? 0) then Some (s, err) else identity_loop fuel s (u64 (cur + level_size leaf_level)) en
    end.

(** [VMManager::install_identity_map] *)
Definition install_identity_map (s : VMManager) (d : D) (addr size : Z) : option (VMManager * D * Z) :=
  '(vm, _) ← ma_reserve (virtual_mem_ s) addr size;
  let s := s <| virtual_mem_ := vm |> in
  '(s, err) ← identity_loop (Z.to_nat (size / VX_VM_PAGE_SIZE + 1)) s addr (u64 (addr + size));
  if negb (err =? 0) then Some (s, d, err)
  else let '(s, d) := flush s d in Some (s, d, 0).

(** [VMManager::init]; the error of [alloc_page_table] is an [uint8_t]. *)
Definition vm_init (s : VMManager) (d : D) : option (VMManager * D * Z) :=
  let s := s <| page_table_mem_ := MemoryAllocator_init VX_MEM_PAGE_TABLE_BASE_ADDR VX_VM_PT_SIZE_LIMIT VX_VM_PAGE_SIZE CACHE_BLOCK_SIZE |> in
  let size := GLOBAL_MEM_SIZE - ALLOC_BASE_ADDR in
  let size := match m with
    | SV32 => if ALLOC_BASE_ADDR + size >? 0x100000000 then 0x100000000 - ALLOC_BASE_ADDR else size
    | SV39 => size
    end in
  let s := s <| virtual_mem_ := MemoryAllocator_init ALLOC_BASE_ADDR size VX_VM_PAGE_SIZE CACHE_BLOCK_SIZE |> in
  '(s, r) ← alloc_page_table s;
  match r with
  | None => Some (s, d, 255)
  | Some pt_addr =>
      satp ← SATP_make m pt_addr 0;
      let s := s <| vm_satp_ := Some satp |> in
      '(s, d, err) ← install_identity_map s d 0 VX_MEM_USER_BASE_ADDR;
      if negb (err =? 0) then Some (s, d, err)
      else
        '(s, d, err) ← install_identity_map s d VX_MEM_PAGE_TABLE_BASE_ADDR (GLOBAL_MEM_SIZE - VX_MEM_PAGE_TABLE_BASE_ADDR);
        if negb (err =? 0) then Some (s, d, err)
        else let '(s, d) := flush s d in Some (s, d, 0)
  end.

(** [VMManager::virtual_mem_reserve] *)
Definition virtual_mem_reserve (s : VMManager) (dev_addr size : Z) : option (VMManager * Z) :=
  '(vm, ok) ← ma_reserve (virtual_mem_ s) dev_addr size;
  Some (s <| virtual_mem_ := vm |>, if ok : bool then 0 else -1).

(** ** Virtual addresses for physical pages *)

(** Top of the range random addresses are drawn from. *)
Definition va_range_end : Z :=
  match m with
  | SV32 => if VX_MEM_PAGE_TABLE_BASE_ADDR >? 0xFFFFFFFF then 0xFFFFFFFF else VX_MEM_PAGE_TABLE_BASE_ADDR
  | SV39 => VX_MEM_PAGE_TABLE_BASE_ADDR
  end.

Definition vpn_in_use (s : VMManager) (vpn : Z) : bool :=
  existsb (fun e => e.2 =? vpn) (map_to_list (addr_mapping s)).

(** The attempts of [phy_to_virt_map] ([slack] is the run, [sz] what is
    reserved) and of [map_p2v] (a run of one page, [slack] zero). *)
Fixpoint random_va (fuel : nat) (s : VMManager) (num_pages slack sz : Z) : option (VMManager * option Z) :=
  match fuel with
  | O => Some (s, None)
  | S fuel =>
      let max_pages := u64 (Z.shiftr (va_range_end - ALLOC_BASE_ADDR) VX_VM_PAGE_LOG2_SIZE - slack) in
      let '(off, rng) := rng_draw (rng_ s) max_pages in
      let s := s <| rng_ := rng |> in
      let candidate_va := u64 (ALLOC_BASE_ADDR + u64 (Z.shiftl off VX_VM_PAGE_LOG2_SIZE)) in
      if existsb (fun i => vpn_in_use s (Z.shiftr candidate_va VX_VM_PAGE_LOG2_SIZE + i)) (seqZ 0 num_pages)
      then random_va fuel s num_pages slack sz
      else
        '(vm, ok) ← ma_reserve (virtual_mem_ s) candidate_va sz;
        let s := s <| virtual_mem_ := vm |> in
        if ok : bool then Some (s, Some candidate_va) else random_va fuel s num_pages slack sz
  end.

(** [virtual_mem_->allocate], whose error is dropped: [dflt] is the value the
    address variable keeps. *)
Definition allocate_va (s : VMManager) (sz dflt : Z) : option (VMManager * Z) :=
  '(vm, r) ← ma_allocate (virtual_mem_ s) sz;
  Some (s <| virtual_mem_ := vm |>, default dflt r).

Definition pick_va (s : VMManager) (num_pages slack sz : Z) : option (VMManager * Z) :=
  if randomize_va_ s then
    '(s, r) ← random_va 1000 s num_pages slack sz;
    match r with Some va => Some (s, va) | None => allocate_va s sz 0 end
  else allocate_va s sz 0.

(** [VMManager::map_p2v]; the page number is unset in the source when the
    allocation fails, and zero here. *)
Definition map_p2v (s : VMManager) (d : D) (ppn flags : Z) : option (VMManager * D * Z) :=
  match addr_mapping s !! ppn with
  | Some vpn => Some (s, d, vpn)
  | None =>
      '(s, va) ← pick_va s 1 0 VX_VM_PAGE_SIZE;
      let vpn := Z.shiftr va VX_VM_PAGE_LOG2_SIZE in
      '(s, _) ← update_page_table s ppn vpn (pte_flags_from_access flags) 0;
      let s := s <| addr_mapping := <[ppn := vpn]> (addr_mapping s) |> in
      let '(s, d) := flush s d in Some (s, d, vpn)
  end.

(** The mapping loop of [phy_to_virt_map]; the error of the update is dropped. *)
Definition map_page (base_ppn base_vpn flags : Z) (acc : option VMManager) (i : Z) : option VMManager :=
  s ← acc;
  let ppn := u64 (base_ppn + i) in
  let vpn := u64 (base_vpn + i) in
  match addr_mapping s !! ppn with
  | Some _ => Some s
  | None =>
      '(s, _) ← update_page_table s ppn vpn (pte_flags_from_access flags) 0;
      Some (s <| addr_mapping := <[ppn := vpn]> (addr_mapping s) |>)
  end.

Definition num_pages_of (size : Z) : Z := Z.shiftr (u64 (size + VX_VM_PAGE_SIZE - 1)) VX_VM_PAGE_LOG2_SIZE.

(** The first virtual page of a buffer: that of its first physical page when
    it is mapped, a fresh one otherwise. *)
Definition base_vpn_of (s : VMManager) (base_ppn num_pages size : Z) : option (VMManager * Z) :=
  match addr_mapping s !! base_ppn with
  | Some vpn => Some (s, vpn)
  | None => '(s, base_va) ← pick_va s num_pages num_pages size; Some (s, Z.shiftr base_va VX_VM_PAGE_LOG2_SIZE)
  end.

(** [VMManager::phy_to_virt_map]; the result is the virtual address. *)
Definition phy_to_virt_map (s : VMManager) (d : D) (size init_pAddr flags : Z) : option (VMManager * D * Z) :=
  if negb (need_trans s) then Some (s, d, init_pAddr)
  else
    let num_pages := num_pages_of size in
    let base_ppn := Z.shiftr init_pAddr VX_VM_PAGE_LOG2_SIZE in
    '(s, base_vpn) ← base_vpn_of s base_ppn num_pages size;
    let init_vAddr := Z.lor (u64 (Z.shiftl base_vpn VX_VM_PAGE_LOG2_SIZE))
                            (Z.land init_pAddr (Z.shiftl 1 VX_VM_PAGE_LOG2_SIZE - 1)) in
    s ← fold_left (map_page base_ppn base_vpn flags) (seqZ 0 num_pages) (Some s);
    match page_table_walk s init_vAddr with
    | Some (WalkPA pa) =>
        if negb (pa =? init_pAddr) then None
        else let '(s, d) := flush s d in Some (s, d, init_vAddr)
    | _ => None
    end.

End Vm.
