(* ===== verification/VmProofs.v ===== *)
(** * Page tables translate what was mapped

    The page tables of [Vm] as a tree: every table page but the root hangs
    from one entry, so installing an entry changes exactly the addresses below
    it. *)

From S2P Require Import Prelude MemAlloc VmTypes Vm.

(** ** Trees of tables

    [E t k] is entry [k] of table [t]; [T] gives the tables and their levels;
    [vx va i] is the index of an address at level [i]. *)

Inductive entry := EInv | ETab (p : Z) | ELeaf (p : Z).

Section Tree.
#[local] Set Default Proof Using "All".
Context (L : nat) (N : Z) (vx : Z -> nat -> Z) (root : Z).
Context (vx_range : forall va i, 0 <= vx va i < N).

Implicit Types (E : Z -> Z -> entry) (T : gmap Z nat).

Record tree E T : Prop := {
  tr_root : T !! root = Some (L - 1)%nat;
  tr_ent t l k : T !! t = Some l -> 0 <= k < N ->
    match E t k with ETab p => exists l', l = S l' /\ T !! p = Some l' | _ => True end;
  tr_inj t1 l1 k1 t2 l2 k2 p : T !! t1 = Some l1 -> T !! t2 = Some l2 -> 0 <= k1 < N -> 0 <= k2 < N ->
    E t1 k1 = ETab p -> E t2 k2 = ETab p -> t1 = t2 /\ k1 = k2;
  tr_noroot t l k : T !! t = Some l -> 0 <= k < N -> E t k <> ETab root
}.

(** The walk: the leaf and its level. *)
Fixpoint wk E (va : Z) (i : nat) (t : Z) : option (Z * nat) :=
  match E t (vx va i) with
  | EInv => None
  | ELeaf p => Some (p, i)
  | ETab p => match i with O => None | S i => wk E va i p end
  end.

(** The walk of [va] reaches table [t] at level [i]. *)
Inductive path E (va : Z) : nat -> Z -> Prop :=
| path_root : path E va (L - 1)%nat root
| path_step i t p : path E va (S i) t -> E t (vx va (S i)) = ETab p -> path E va i p.

Definition agree (va vb : Z) (i : nat) : Prop := forall l, (i <= l < L)%nat -> vx va l = vx vb l.

Lemma path_level E T va i t : tree E T -> path E va i t -> T !! t = Some i.
Proof.
  intros HT. induction 1 as [|i t p Hp IH Ht]; [apply HT|].
  pose proof (tr_ent E T HT t (S i) (vx va (S i)) IH (vx_range _ _)) as H. rewrite Ht in H.
  destruct H as (l' & [= ->] & H). done.
Qed.

Lemma path_lt E va i t : (0 < L)%nat -> path E va i t -> (i < L)%nat.
Proof. intros HL. induction 1; lia. Qed.

Lemma path_unique E T va vb i j t : tree E T -> (0 < L)%nat -> path E va i t -> path E vb j t ->
  i = j /\ agree va vb (S i).
Proof.
  intros HT HL Ha. revert j. induction Ha as [|i t p Ha IH Ht]; intros j Hb.
  - assert (j = L - 1)%nat as ->.
    { pose proof (path_level E T _ _ _ HT Hb) as H. rewrite (tr_root E T HT) in H. by injection H. }
    split; [done|]. intros l Hl. lia.
  - assert (i = j) as <-.
    { pose proof (path_level E T _ _ _ HT Hb) as H1.
      pose proof (path_level E T _ _ _ HT (path_step E va _ _ _ Ha Ht)) as H2. rewrite H1 in H2. by injection H2. }
    split; [done|]. inversion Hb as [H1 H2|i' t' p' Hb' Ht' H1 H2]; subst.
    + exfalso. apply (tr_noroot E T HT t (S (L - 1)) (vx va (S (L - 1)))); [by eapply path_level|apply vx_range|done].
    + destruct (tr_inj E T HT t (S i) (vx va (S i)) t' (S i) (vx vb (S i)) p) as [<- Hk];
        [by eapply path_level|by eapply path_level|apply vx_range|apply vx_range|done|done|].
      destruct (IH (S i) Hb') as [_ Hag]. intros l Hl. destruct (decide (l = S i)) as [->|]; [done|]. apply Hag. lia.
Qed.

Lemma path_fun E va i t t' : path E va i t -> path E va i t' -> (i < L)%nat -> t = t'.
Proof.
  intros Ha. revert t'. induction Ha as [|i t p Ha IH Ht]; intros t' Hb Hi.
  - inversion Hb as [H1 H2|i' t1 p' Hb' Ht' H1 H2]; subst; [done|]. exfalso. 
    assert (S (L - 1) < L)%nat; [|lia]. eapply path_lt; [lia|done].
  - assert (S i < L)%nat by (eapply path_lt; [|done]; lia).
    inversion Hb as [H1 H2|i' t1 p' Hb' Ht' H1 H2]; subst; [lia|].
    assert (t = t1) as <- by (apply IH; done). congruence.
Qed.

Lemma path_agree E va vb i t : (0 < L)%nat -> agree va vb (S i) -> path E va i t -> path E vb i t.
Proof.
  intros HL Hag Ha. induction Ha as [|i t p Ha IH Ht]; [constructor|]. pose proof (path_lt _ _ _ _ HL Ha).
  eapply path_step; [apply IH; intros l Hl; apply Hag; lia|]. rewrite <- (Hag (S i)) by lia. done.
Qed.

(** A path continues through every level above its end. *)
Lemma path_through E va i t n : path E va i t -> (i < n < L)%nat -> exists u p, path E va n u /\ E u (vx va n) = ETab p.
Proof.
  induction 1 as [|i t p Ha IH Ht]; intros Hn; [lia|].
  destruct (decide (n = S i)) as [->|]; [by exists t, p|]. apply IH. lia.
Qed.

Lemma agree_sym va vb i : agree va vb i -> agree vb va i.
Proof. intros H l Hl. symmetry. by apply H. Qed.

(** Where the walk of [va] has come to, an agreeing walk of [vb] has too. *)
Lemma agree_here E T va vb i t n u : tree E T -> (0 < L)%nat -> path E va i t -> path E vb n u -> agree va vb i -> (i <= n)%nat ->
  (u = t /\ vx vb n = vx va i /\ n = i) \/ ((i < n)%nat /\ exists p, E u (vx vb n) = ETab p).
Proof.
  intros HT HL Ha Hb Hag Hn. pose proof (path_lt _ _ _ _ HL Hb) as HnL.
  destruct (decide (n = i)) as [->|].
  - left. assert (path E vb i t) by (eapply path_agree; [done| |done]; intros l Hl; apply Hag; lia).
    split; [by eapply path_fun|]. split; [symmetry; apply Hag; lia|done].
  - right. split; [lia|]. destruct (path_through E va i t n Ha ltac:(lia)) as (v & p & Hv & Hp).
    assert (path E vb n v) by (eapply path_agree; [done| |done]; intros l Hl; apply Hag; lia).
    assert (u = v) as -> by (by eapply path_fun). exists p. rewrite <- (Hag n) by lia. done.
Qed.

(** *** Installing a leaf *)

Definition put E (t k : Z) (e : entry) : Z -> Z -> entry := fun t' k' => if decide (t = t' /\ k = k') then e else E t' k'.

Lemma put_leaf_tree E T t k p : tree E T -> tree (put E t k (ELeaf p)) T.
Proof.
  intros HT. constructor; [apply HT| | |]; unfold put.
  - intros t' l k' Ht Hk. destruct (decide _); [done|]. by apply (tr_ent E T HT).
  - intros t1 l1 k1 t2 l2 k2 q H1 H2 H3 H4 E1 E2. destruct (decide _); [done|]. destruct (decide _); [done|].
    by apply (tr_inj E T HT t1 l1 k1 t2 l2 k2 q).
  - intros t' l k' Ht Hk. destruct (decide _); [done|]. by apply (tr_noroot E T HT t' l).
Qed.

Lemma wk_put_leaf E T va i t p : tree E T -> (0 < L)%nat -> path E va i t -> E t (vx va i) = EInv ->
  forall vb n u, path E vb n u -> (i <= n)%nat \/ ~ agree va vb i ->
  (agree va vb i -> wk (put E t (vx va i) (ELeaf p)) vb n u = Some (p, i)) /\
  (~ agree va vb i -> wk (put E t (vx va i) (ELeaf p)) vb n u = wk E vb n u).
Proof.
  intros HT HL Ha Hinv vb n. set (E' := put _ _ _ _).
  assert (HE : forall u k, E' u k = if decide (t = u /\ vx va i = k) then ELeaf p else E u k) by done. clearbody E'.
  induction n as [|n IH]; intros u Hb Hcase; cbn [wk]; rewrite HE;
    destruct (decide (t = u /\ vx va i = vx vb _)) as [[<- Hk]|Hne].
  1,3: (destruct (path_unique E T va vb i _ t HT HL Ha Hb) as [Hi Hag];
      assert (agree va vb i) by (intros l Hl; destruct (decide (l = i)) as [->|]; [by rewrite Hk, Hi|apply Hag; lia]);
      split; [by rewrite Hi|tauto]).
  - assert (~ agree va vb i) as Hna.
    { intros Hag. destruct (agree_here E T va vb i t 0 u HT HL Ha Hb Hag) as [(-> & Hk & Hi)|[? _]]; [tauto| |lia].
      apply Hne. split; [done|]. by rewrite Hk. }
    split; [tauto|]. intros _. done.
  - destruct (decide (i <= S n)%nat) as [Hle|Hgt].
    + split; intros Hag.
      * destruct (agree_here E T va vb i t (S n) u HT HL Ha Hb Hag Hle) as [(-> & Hk & Hi)|[Hlt [q Hq]]]; [by destruct Hne; rewrite Hk|].
        rewrite Hq. apply IH; [by eapply path_step|left; lia|done].
      * destruct (E u (vx vb (S n))) as [|q|q] eqn:Eq; [done| |done]. apply IH; [by eapply path_step|by right|done].
    + split; intros Hag; [destruct Hcase; [lia|done]|].
      destruct (E u (vx vb (S n))) as [|q|q] eqn:Eq; [done| |done]. apply IH; [by eapply path_step|by right|done].
Qed.

(** *** Installing an empty table *)

Definition put_table E (t k q : Z) : Z -> Z -> entry :=
  fun t' k' => if decide (t = t' /\ k = k') then ETab q else if decide (q = t') then EInv else E t' k'.

Lemma put_table_tree E T va i t q : tree E T -> (0 < L)%nat -> path E va (S i) t -> E t (vx va (S i)) = EInv -> T !! q = None ->
  tree (put_table E t (vx va (S i)) q) (<[q := i]> T).
Proof.
  intros HT HL Ha Hinv Hq. pose proof (path_level E T _ _ _ HT Ha) as Ht.
  assert (Hold : forall u l k p, T !! u = Some l -> 0 <= k < N -> E u k = ETab p -> p <> q).
  { intros u l k p Hu Hk Hp ->. pose proof (tr_ent E T HT u l k Hu Hk) as H. rewrite Hp in H. destruct H as (? & _ & H). congruence. }
  assert (Hlk : forall u l, <[q:=i]> T !! u = Some l -> (u = q /\ l = i) \/ (u <> q /\ T !! u = Some l)).
  { intros u l Hu. apply lookup_insert_Some in Hu as [[<- <-]|[? ?]]; [by left|right; split; congruence]. }
  constructor; unfold put_table.
  - rewrite lookup_insert_ne; [apply HT|]. intros ->. by rewrite (tr_root E T HT) in Hq.
  - intros u l k Hu Hk. destruct (decide (t = u /\ _)) as [[<- <-]|Hne].
    + apply Hlk in Hu as [[-> _]|[_ Hu]]; [congruence|]. rewrite Ht in Hu. injection Hu as <-.
      exists i. split; [done|]. apply lookup_insert_eq.
    + destruct (decide (q = u)); [done|]. apply Hlk in Hu as [[-> _]|[_ Hu]]; [done|].
      pose proof (tr_ent E T HT u l k Hu Hk) as H. destruct (E u k) as [|p|p] eqn:Eu; try done.
      destruct H as (l' & -> & H). exists l'. split; [done|]. rewrite lookup_insert_ne; [done|]. intros <-. congruence.
  - intros t1 l1 k1 t2 l2 k2 p H1 H2 K1 K2 E1 E2.
    destruct (decide (t = t1 /\ _)) as [[<- <-]|N1], (decide (t = t2 /\ _)) as [[<- <-]|N2]; [done| | |].
    + injection E1 as <-. destruct (decide (q = t2)); [done|]. apply Hlk in H2 as [[-> _]|[_ H2]]; [done|].
      exfalso. by eapply (Hold t2 l2 k2 q).
    + injection E2 as <-. destruct (decide (q = t1)); [done|]. apply Hlk in H1 as [[-> _]|[_ H1]]; [done|].
      exfalso. by eapply (Hold t1 l1 k1 q).
    + destruct (decide (q = t1)); [done|]. destruct (decide (q = t2)); [done|].
      apply Hlk in H1 as [[-> _]|[_ H1]]; [done|]. apply Hlk in H2 as [[-> _]|[_ H2]]; [done|].
      by apply (tr_inj E T HT t1 l1 k1 t2 l2 k2 p).
  - intros u l k Hu Hk. destruct (decide (t = u /\ _)).
    + intros [= ->]. by rewrite (tr_root E T HT) in Hq.
    + destruct (decide (q = u)); [done|]. apply Hlk in Hu as [[-> _]|[_ Hu]]; [done|]. by apply (tr_noroot E T HT u l).
Qed.

Lemma put_table_path E T t k q : tree E T -> E t k = EInv -> T !! q = None ->
  forall vb n u, path E vb n u -> path (put_table E t k q) vb n u.
Proof.
  intros HT Hinv Hq vb n u Hb. induction Hb as [|n u p Hb IH Hu]; [constructor|].
  eapply path_step; [done|]. unfold put_table. destruct (decide _) as [[-> ->]|]; [congruence|].
  destruct (decide _) as [->|]; [|done]. pose proof (path_level E T _ _ _ HT Hb). congruence.
Qed.

Lemma wk_put_table E T va i t q : tree E T -> (0 < L)%nat -> path E va (S i) t -> E t (vx va (S i)) = EInv -> T !! q = None ->
  forall vb n u, path E vb n u -> wk (put_table E t (vx va (S i)) q) vb n u = wk E vb n u.
Proof.
  intros HT HL Ha Hinv Hq vb n. set (E' := put_table _ _ _ _).
  assert (HE : forall u k, E' u k = if decide (t = u /\ vx va (S i) = k) then ETab q else if decide (q = u) then EInv else E u k) by done.
  clearbody E'. induction n as [|n IH]; intros u Hb; cbn [wk]; rewrite HE;
    (destruct (decide (t = u /\ _)) as [[<- Hk]|Hne];
     [destruct (path_unique E T va vb (S i) _ t HT HL Ha Hb) as [Hi _]; try lia|
      destruct (decide (q = u)) as [<-|]; [pose proof (path_level E T _ _ _ HT Hb); congruence|]]).
  - done.
  - injection Hi as <-. rewrite <- Hk, Hinv.
    assert (forall v, wk E' v i q = None) as ->; [|done].
    intros v. pose proof (path_level E T _ _ _ HT Ha) as Ht.
    destruct i; cbn [wk]; rewrite HE; (rewrite decide_False by (intros [-> _]; congruence); by rewrite decide_True).
  - destruct (E u (vx vb (S n))) as [|p|p] eqn:Eu; [done| |done]. apply IH. by eapply path_step.
Qed.

(** *** Two readings that agree on the tables *)

Definition same_on E1 E2 T : Prop := forall t l k, T !! t = Some l -> 0 <= k < N -> E1 t k = E2 t k.

Lemma tree_ext E1 E2 T : same_on E1 E2 T -> tree E1 T -> tree E2 T.
Proof.
  intros HE HT. constructor; [apply HT| | |].
  - intros t l k Ht Hk. rewrite <- (HE t l k) by done. by apply (tr_ent E1 T HT).
  - intros t1 l1 k1 t2 l2 k2 p H1 H2 K1 K2. rewrite <- (HE t1 l1 k1), <- (HE t2 l2 k2) by done. by apply (tr_inj E1 T HT t1 l1 k1 t2 l2).
  - intros t l k Ht Hk. rewrite <- (HE t l k) by done. by apply (tr_noroot E1 T HT t l).
Qed.

Lemma path_ext E1 E2 T va i t : same_on E1 E2 T -> tree E1 T -> path E1 va i t -> path E2 va i t.
Proof.
  intros HE HT. induction 1 as [|i t p Ha IH Ht]; [constructor|]. eapply path_step; [done|].
  rewrite <- (HE t (S i)); [done|by eapply path_level|apply vx_range].
Qed.

Lemma wk_ext E1 E2 T va n : same_on E1 E2 T -> tree E1 T -> forall u, T !! u = Some n -> wk E1 va n u = wk E2 va n u.
Proof.
  intros HE HT. induction n as [|n IH]; intros u Hu; cbn [wk]; rewrite <- (HE u _ (vx va _) Hu (vx_range _ _)).
  - done.
  - pose proof (tr_ent E1 T HT u (S n) (vx va (S n)) Hu (vx_range _ _)) as H.
    destruct (E1 u (vx va (S n))) as [|p|p]; [done| |done]. destruct H as (l' & [= <-] & H). by apply IH.
Qed.

(** *** Where no table hangs

    Installing an entry for [va] hangs a table only on the way of [va]. *)

Definition no_tab E (va : Z) (l : nat) : Prop := forall u p, path E va l u -> E u (vx va l) <> ETab p.

Lemma no_tab_leaf E t k p vb l : no_tab E vb l -> no_tab (put E t k (ELeaf p)) vb l.
Proof.
  intros H. assert (HE : forall u k' q, put E t k (ELeaf p) u k' = ETab q -> E u k' = ETab q).
  { intros u k' q. unfold put. by destruct (decide _). }
  intros u q Hu Hq%HE. assert (path E vb l u); [|by eapply H].
  clear -Hu HE. induction Hu as [|n u r Hu IH Hr]; [constructor|]. eapply path_step; [done|]. by apply HE.
Qed.

Lemma no_tab_table E T va i t q : tree E T -> (0 < L)%nat -> path E va (S i) t -> T !! q = None ->
  forall vb l, ~ agree va vb l -> no_tab E vb l -> no_tab (put_table E t (vx va (S i)) q) vb l.
Proof.
  intros HT HL Ha Hq vb l Hag H. set (E' := put_table _ _ _ _).
  assert (HE : forall u k, E' u k = if decide (t = u /\ vx va (S i) = k) then ETab q else if decide (q = u) then EInv else E u k) by done.
  clearbody E'. assert (HP : forall n u, path E' vb n u -> path E vb n u \/ u = q).
  { induction 1 as [|n u p Hu IH Hp]; [left; constructor|]. rewrite HE in Hp. destruct (decide _); [right; congruence|].
    destruct (decide _); [done|]. destruct IH as [IH|IH]; [|congruence]. left. by eapply path_step. }
  assert (Htq : q <> t) by (intros ->; pose proof (path_level E T _ _ _ HT Ha); congruence).
  intros u p Hu. rewrite HE. destruct (decide _) as [[<- Hk]|Hne]; intros Hp.
  - destruct (HP _ _ Hu) as [Hb|]; [|congruence]. destruct (path_unique E T va vb (S i) l t HT HL Ha Hb) as [<- Hab].
    apply Hag. intros n Hn. destruct (decide (n = S i)) as [->|]; [done|]. apply Hab. lia.
  - destruct (decide _); [done|]. destruct (HP _ _ Hu); [by eapply H|congruence].
Qed.

Lemma no_tab_ext E1 E2 T va l : same_on E1 E2 T -> tree E2 T -> no_tab E1 va l -> no_tab E2 va l.
Proof.
  intros HE HT H u p Hu Hp.
  assert (HE' : same_on E2 E1 T) by (intros t n k Ht Hk; symmetry; by apply (HE t n)).
  apply (H u p); [by eapply path_ext|]. rewrite (HE u l); [done|by eapply path_level|apply vx_range].
Qed.

(** The rest of a walk. *)
Lemma wk_path E va i t : path E va i t -> wk E va (L - 1) root = wk E va i t.
Proof. induction 1 as [|i t p Ha IH Ht]; [done|]. rewrite IH. cbn [wk]. by rewrite Ht. Qed.

End Tree.

(** ** Table pages come from the page-table allocator *)

Definition one_page (pg : page_t) : Prop := pg_size pg = 4096 /\ (4096 | pg_addr pg).

Lemma insert_after_forall (P : page_t -> Prop) l pg : Forall P l -> P pg -> Forall P (insert_after l pg).1.
Proof.
  intros HF Hp. induction HF as [|q l Hq HF IH]; cbn; [by repeat constructor|].
  destruct (pg_addr q <? pg_addr pg); [|by repeat constructor].
  destruct (insert_after l pg) as [l' i]. cbn in *. by constructor.
Qed.

Lemma create_forall (P : page_t -> Prop) pm a sz : Forall P (pages_ pm) -> P (new_page a sz (ma_blockAlign_ pm)) ->
  Forall P (pages_ (createPage pm a sz).1).
Proof.
  intros HF Hp. unfold createPage. cbv zeta. set (pg := new_page _ _ _) in *.
  destruct (pages_ pm) as [|q rest] eqn:E; cbn [fst pages_]; [rproj; by repeat constructor|].
  apply Forall_cons_iff in HF as [Hq HF]. destruct (pg_addr q >? pg_addr pg); [rproj; by repeat constructor|]. pose proof (insert_after_forall P rest pg HF Hp).
  destruct (insert_after rest pg) as [l i]. rproj. by constructor.
Qed.

Lemma next_gap_aligned pages e sz lim a : (4096 | e) -> Forall one_page pages -> next_gap pages e sz lim = Some a -> (4096 | a).
Proof.
  intros He HF. revert e He. induction HF as [|pg pages [Hs Hd] HF IH]; intros e He; cbn.
  - destruct (_ <=? _); [|done]. by intros [= <-].
  - destruct (_ <=? _); [by intros [= <-]|]. apply IH. unfold wrap.
    apply Z.mod_divide; [lia|]. replace (2 ^ 64) with (4096 * 2 ^ 52) by lia.
    rewrite Z.rem_mul_r by lia. rewrite (proj2 (Z.mod_divide (pg_addr pg + pg_size pg) 4096 ltac:(lia))).
    + rewrite Z.add_0_l, Z.mul_comm. apply Z.mod_mul. lia.
    + apply Z.divide_add_r; [done|]. rewrite Hs. apply Z.divide_refl.
Qed.

Definition tables_rep (pm : MemoryAllocator) (A : list (Z * Z)) : Prop :=
  ma_rep pm A /\ ma_config pm 6 12 /\ Forall one_page (pages_ pm) /\ (4096 | baseAddress_ pm) /\ 4096 <= capacity_ pm.

Lemma find_or_create_pages pm A pm' i p : tables_rep pm A -> ma_find_or_create pm 4096 = Some (pm', Some (i, p)) ->
  Forall one_page (pages_ pm').
Proof.
  intros (HR & HC & HP & Hb & Hcap). unfold ma_find_or_create.
  destruct (find_block _ _) as [[ip|]|]; cbn [mbind option_bind]; [by intros [= -> _]| |done].
  destruct HC as (_ & _ & _ & Ep & _). rewrite Ep. replace (alignSize 4096 (2 ^ 12)) with (Some 4096) by (vm_compute; done).
  cbn [mbind option_bind]. destruct (findNextAddress pm 4096) as [a|] eqn:En; [|done].
  assert (Ha : (4096 | a)).
  { unfold findNextAddress in En. destruct (pages_ pm) as [|pg l] eqn:E; [by injection En as <-|].
    rewrite <- E in *. by eapply next_gap_aligned. }
  pose proof (create_forall one_page pm a 4096 HP) as HF. destruct (createPage pm a 4096) as [pm1 j]. cbn [fst] in HF.
  destruct (pages_ pm1 !! j) as [pg|]; cbn [mbind option_bind]; [|done].
  destruct (findFreeBlock pg 4096) as [[q|]|]; cbn [mbind option_bind]; [|done|done].
  intros [= <- _ _]. apply HF. by split.
Qed.

(** A page of tables is a whole, aligned page disjoint from the others. *)
Lemma table_alloc pm A pm' a : tables_rep pm A -> ma_allocate pm 4096 = Some (pm', Some a) ->
  tables_rep pm' ((a, 4096) :: A) /\ (4096 | a) /\ baseAddress_ pm <= a /\ a + 4096 <= baseAddress_ pm + capacity_ pm /\
  (forall b, (b, 4096) ∈ A -> b <> a) /\ cfg pm' = cfg pm.
Proof.
  intros HT E. pose proof HT as (HR & HC & HP & Hb & Hcap).
  destruct (allocate_spec pm A 6 12 4096 HR HC ltac:(lia)) as (m1 & sz & Es & Hs & Hd & Hcfg & [(a' & E' & HR')|(E' & _)]);
    rewrite E in E'; [|done]. injection E' as <- <-.
  assert (sz = 4096) as -> by (vm_compute in Es; by injection Es).
  assert (HP' : Forall one_page (pages_ pm')).
  { unfold ma_allocate in E. cbn [Z.eqb] in E. destruct HC as (_ & _ & Eb & _). rewrite Eb, Es in E. cbn [mbind option_bind] in E.
    destruct (ma_find_or_create pm 4096) as [[m2 [[i p]|]]|] eqn:Ef; cbn [mbind option_bind] in E; [|done|done].
    pose proof (find_or_create_pages _ _ _ _ _ HT Ef) as HP2.
    destruct (ma_find_or_create_spec pm A 6 12 4096 HR) as (m3 & r & Ef' & HR2 & C2 & Hr); [apply HT|lia|done|].
    rewrite Ef in Ef'. injection Ef' as <- <-. destruct Hr as (pg & Hi & Hff).
    destruct (ma_rep_focus _ _ _ _ HR2 Hi) as (Ai & B & Hok & _ & Hba & _).
    destruct (page_ok_allocate pg Ai 4096 p Hok Hff) as (pg' & a' & Ea & _ & _ & Hpc); [lia|rewrite Hba|].
    { injection C2 as _ _ _ C4. by rewrite C4, Eb. }
    rewrite (on_page_spec _ _ _ _ _ Hi Ea) in E. cbn [mbind option_bind] in E.
    destruct (pages_ _ !! i); cbn [mbind option_bind] in E; [|done].
    destruct (b_addr _ !! p); cbn [mbind option_bind] in E; [|done]. injection E as <- _. rproj.
    apply Forall_insert; [done|]. rewrite list.Forall_forall in HP2. pose proof (HP2 pg ltac:(by eapply list_elem_of_lookup_2)) as [H1 H2].
    injection Hpc as P1 P2 _. split; congruence. }
  destruct (ma_rep_elem pm' _ (a, 4096) HR' ltac:(left)) as (pg & Ai & Hpg & Hok & Hin).
  destruct (page_ok_regions pg Ai Hok) as [_ Hreg]. rewrite list.Forall_forall in Hreg. specialize (Hreg _ Hin). cbn in Hreg.
  rewrite list.Forall_forall in HP'. destruct (HP' pg Hpg) as [Hsz Ha].
  destruct (ma_rep_regions _ _ HR') as [[Hsep _] Hall]. apply Forall_cons_iff in Hall as [(_ & Hlo & Hhi) _]. cbn in Hlo, Hhi.
  injection Hcfg as C1 C2 C3 C4. rewrite C1, C2 in *.
  split_and!; [split_and!| | | | |unfold cfg; congruence]; try done.
  - eapply ma_config_cfg; [|done]. unfold cfg. congruence.
  - by apply list.Forall_forall.
  - by rewrite C1.
  - by rewrite C2.
  - assert (a = pg_addr pg) as -> by lia. done.
  - intros b Hb' ->. rewrite list.Forall_forall in Hsep. specialize (Hsep _ Hb'). unfold sep in Hsep. cbn in Hsep. lia.
Qed.

(** ** Entries of the shadow tables *)

Section Tables.
Context (m : vm_mode) {R : Type}.
Implicit Types (s : @VMManager R).

Definition vpn_bits : Z := match m with SV32 => 10 | SV39 => 9 end.

Lemma VM_VPN_BITS_eq : VM_VPN_BITS m = vpn_bits.
Proof. unfold vpn_bits; destruct m; vm_compute; reflexivity. Qed.

Lemma entries_fill : 2 ^ vpn_bits * VX_VM_PTE_SIZE m = 4096.
Proof. unfold vpn_bits; destruct m; reflexivity. Qed.

(** Index [i] of a virtual address. *)
Definition vx (va : Z) (i : nat) : Z := va / 2 ^ (12 + vpn_bits * Z.of_nat i) mod 2 ^ vpn_bits.

Lemma vx_range va i : 0 <= vx va i < 2 ^ vpn_bits.
Proof. apply Z.mod_pos_bound. unfold vpn_bits; destruct m; lia. Qed.

Lemma vpn_nth va i : (i < VX_VM_PT_LEVEL m)%nat -> nth i (va_vpn (vAddr_fields m va)) 0 = vx va i.
Proof.
  unfold vx, vpn_bits. destruct m; cbn [VX_VM_PT_LEVEL]; intros Hi;
    (do 3 (destruct i as [|i]; [cbn [vAddr_fields va_vpn nth]; rewrite bits_div by lia; done|]; cbn in Hi; try lia)).
Qed.

(** Address of entry [k] of table [t], its page and its offset. *)
Lemma pte_addr_at t k : in_u (ppn_width m) t -> 0 <= k < 2 ^ vpn_bits ->
  pte_addr m t k = t * 4096 + k * VX_VM_PTE_SIZE m /\ pt_page (pte_addr m t k) = t * 4096.
Proof.
  intros Ht Hk. assert (HE : pte_addr m t k = t * 4096 + k * VX_VM_PTE_SIZE m).
  { unfold pte_addr. apply wrap_small. unfold in_u, ppn_width, vpn_bits, VX_VM_PT_SIZE in *. destruct m; cbn; lia. }
  split; [done|]. rewrite HE. unfold pt_page, VX_VM_PT_SIZE. 
  change (Z.land ?x (u64 (Z.lnot (4096 - 1)))) with (Z.land x (u64 (Z.lnot (2 ^ 12 - 1)))).
  rewrite (align_down 64 12) by (unfold in_u, ppn_width, vpn_bits in *; destruct m; cbn in *; lia).
  pose proof entries_fill. assert (0 <= k * VX_VM_PTE_SIZE m < 4096) by (unfold vpn_bits in *; destruct m; cbn in *; lia).
  pose proof (Z.mod_unique (t * 4096 + k * VX_VM_PTE_SIZE m) 4096 t (k * VX_VM_PTE_SIZE m)). change (2 ^ 12) with 4096. lia.
Qed.

Definition table_page s (t : Z) : Prop :=
  exists page, shadow_pt_ s !! (t * 4096) = Some page /\ length page = 4096%nat /\ Forall is_byte page.

(** The bytes of an entry. *)
Definition rd s (t k : Z) : Z := read_pte m s (pte_addr m t k).

Definition entry_size : nat := Z.to_nat (VX_VM_PTE_SIZE m).
Definition entry_off (k : Z) : nat := Z.to_nat (k * VX_VM_PTE_SIZE m).

Lemma rd_page s t k page : in_u (ppn_width m) t -> 0 <= k < 2 ^ vpn_bits -> shadow_pt_ s !! (t * 4096) = Some page ->
  Forall is_byte page -> rd s t k = le_word (take entry_size (drop (entry_off k) page)).
Proof.
  intros Ht Hk Hp Hb. unfold rd, read_pte. destruct (pte_addr_at t k Ht Hk) as [Ea ->]. rewrite Hp, Ea.
  replace (t * 4096 + k * VX_VM_PTE_SIZE m - t * 4096) with (k * VX_VM_PTE_SIZE m) by lia. fold (entry_off k).
  change (Z.to_nat (VX_VM_PTE_SIZE m)) with entry_size.
  assert (HB : Forall is_byte (take entry_size (drop (entry_off k) page))) by (by apply Forall_take, Forall_drop).
  pose proof (le_word_range _ HB) as HR.
  assert (in_u (8 * VX_VM_PTE_SIZE m) (le_word (take entry_size (drop (entry_off k) page)))) as HR'.
  { split; [apply HR|]. eapply Z.lt_le_trans; [apply HR|]. apply Z.pow_le_mono_r; [lia|].
    rewrite length_take. unfold entry_size. destruct m; cbn; lia. }
  clear HR. destruct m; cbn in HR'.
  - change 0xFFFFFFFF with (Z.ones 32). rewrite land_ones_wrap by lia. by apply wrap_small.
  - change 0xFFFFFFFFFFFFFFFF with (Z.ones 64). rewrite land_ones_wrap by lia. by apply wrap_small.
Qed.

Lemma rd_no_page s t k : in_u (ppn_width m) t -> 0 <= k < 2 ^ vpn_bits -> shadow_pt_ s !! (t * 4096) = None -> rd s t k = 0.
Proof. intros Ht Hk Hp. unfold rd, read_pte. destruct (pte_addr_at t k Ht Hk) as [_ ->]. by rewrite Hp. Qed.

Lemma rd_ext s s' t k : in_u (ppn_width m) t -> 0 <= k < 2 ^ vpn_bits ->
  shadow_pt_ s' !! (t * 4096) = shadow_pt_ s !! (t * 4096) -> rd s' t k = rd s t k.
Proof. intros Ht Hk Hp. unfold rd, read_pte. destruct (pte_addr_at t k Ht Hk) as [_ ->]. by rewrite Hp. Qed.

Lemma entry_bounds k : 0 <= k < 2 ^ vpn_bits -> (entry_off k + entry_size <= 4096)%nat.
Proof. intros Hk. unfold entry_off, entry_size, vpn_bits in *. destruct m; cbn in *; lia. Qed.

Lemma entry_apart k k' : 0 <= k -> 0 <= k' -> k <> k' ->
  (entry_off k + entry_size <= entry_off k' \/ entry_off k' + entry_size <= entry_off k)%nat.
Proof. intros. unfold entry_off, entry_size. destruct m; cbn; lia. Qed.

Lemma slice_inserts_same (page bs : list Z) o : (o + length bs <= length page)%nat ->
  take (length bs) (drop o (list_inserts o bs page)) = bs.
Proof.
  intros H. apply list_eq. intros i. destruct (decide (i < length bs)%nat).
  - rewrite lookup_take_lt, lookup_drop by done. rewrite list_lookup_inserts by lia. f_equal. lia.
  - rewrite lookup_take_ge by lia. by rewrite lookup_ge_None_2 by lia.
Qed.

Lemma slice_inserts_other (page bs : list Z) o o' n : (o + length bs <= o' \/ o' + n <= o)%nat ->
  take n (drop o' (list_inserts o bs page)) = take n (drop o' page).
Proof.
  intros H. apply list_eq. intros i. destruct (decide (i < n)%nat).
  - rewrite !lookup_take_lt, !lookup_drop by done.
    destruct H; [by rewrite list_lookup_inserts_ge by lia|by rewrite list_lookup_inserts_lt by lia].
  - by rewrite !lookup_take_ge by lia.
Qed.

(** What a write leaves. *)
Lemma touched_page s t page : shadow_pt_ s !! (t * 4096) = Some page -> length page = 4096%nat ->
  touched (shadow_pt_ s !! (t * 4096)) = page.
Proof. intros -> Hl. by destruct page. Qed.

Lemma write_shadow s t k v page : in_u (ppn_width m) t -> 0 <= k < 2 ^ vpn_bits ->
  shadow_pt_ s !! (t * 4096) = Some page -> length page = 4096%nat ->
  shadow_pt_ (write_pte m s (pte_addr m t k) v) =
    <[t * 4096 := list_inserts (entry_off k) (le_bytes entry_size v) page]> (shadow_pt_ s).
Proof.
  intros Ht Hk Hp Hl. unfold write_pte, touch_pt_page. destruct (pte_addr_at t k Ht Hk) as [Ea Ep]. rewrite Ep.
  rewrite (touched_page s t page Hp Hl). rproj. rewrite insert_insert_eq. f_equal. rewrite Ea. unfold entry_off. f_equal. f_equal. lia.
Qed.

Lemma rd_write s t k v t' k' : in_u (ppn_width m) t -> 0 <= k < 2 ^ vpn_bits -> in_u (ppn_width m) t' -> 0 <= k' < 2 ^ vpn_bits ->
  table_page s t ->
  rd (write_pte m s (pte_addr m t k) v) t' k' =
    if decide (t = t' /\ k = k') then wrap (8 * VX_VM_PTE_SIZE m) v else rd s t' k'.
Proof.
  intros Ht Hk Ht' Hk' (page & Hp & Hl & Hb). pose proof (write_shadow s t k v page Ht Hk Hp Hl) as Hw.
  destruct (decide (t = t')) as [<-|Hne].
  2: { rewrite decide_False by tauto. apply rd_ext; try done. rewrite Hw, lookup_insert_ne by lia. done. }
  assert (HB : Forall is_byte (list_inserts (entry_off k) (le_bytes entry_size v) page)).
  { apply Forall_forall. intros x Hx. apply list_elem_of_In, list_elem_of_lookup in Hx as (i & Hi).
    destruct (decide (entry_off k <= i < entry_off k + entry_size)%nat).
    - rewrite list_lookup_inserts in Hi by (rewrite ?length_le_bytes; pose proof (entry_bounds k Hk); lia).
      pose proof (le_bytes_is_byte entry_size v) as HF. rewrite list.Forall_forall in HF. apply HF. by eapply list_elem_of_lookup_2.
    - rewrite list.Forall_forall in Hb. apply Hb. eapply list_elem_of_lookup_2.
      destruct (decide (i < entry_off k)%nat).
      + rewrite list_lookup_inserts_lt in Hi by lia. done.
      + rewrite list_lookup_inserts_ge in Hi by (rewrite length_le_bytes; lia). done. }
  erewrite rd_page; [|done|done| |exact HB]; [|by rewrite Hw, lookup_insert_eq].
  destruct (decide (k = k')) as [<-|Hnk].
  - rewrite decide_True by done. rewrite <- (length_le_bytes entry_size v) at 1.
    rewrite slice_inserts_same by (rewrite length_le_bytes, Hl; by apply entry_bounds).
    rewrite le_word_le_bytes. f_equal. unfold entry_size. destruct m; done.
  - rewrite decide_False by tauto. rewrite (rd_page s t k' page) by done.
    rewrite slice_inserts_other; [done|]. rewrite length_le_bytes. apply entry_apart; lia.
Qed.

Definition ent_of (b : Z) : entry :=
  let e := PTE_fields m b in
  if negb (pte_v e) then EInv else if pte_r e || pte_w e || pte_x e then ELeaf (pte_ppn e) else ETab (pte_ppn e).

Definition ent s (t k : Z) : entry := ent_of (rd s t k).

(** Entries the walkers and the manager read alike: not the marker of an
    uninitialised entry, and readable if a leaf. *)
Definition good (b : Z) : Prop :=
  baadf00d b = false /\ let e := PTE_fields m b in pte_v e = true -> pte_r e = false -> pte_w e = false /\ pte_x e = false.

Lemma ent_zero : ent_of 0 = EInv /\ good 0.
Proof. unfold ent_of, good. destruct m; (split; [reflexivity|split; [reflexivity|cbn; done]]). Qed.

Lemma baadf00d_flags b : bits b 0 7 <> 0x0d -> baadf00d b = false.
Proof.
  intros H. unfold baadf00d. apply Z.eqb_neq. intros E. apply H. rewrite bits_ones by lia. rewrite Z.shiftr_0_r.
  change (7 - 0 + 1) with 8. replace (Z.ones 8) with (Z.land 0xFFFFFFFF (Z.ones 8)) by reflexivity.
  rewrite Z.land_assoc, E. reflexivity.
Qed.

(** A new entry reads back. *)
Lemma pte_new ppn flags : in_u (ppn_width m) ppn -> in_u 8 flags ->
  exists e, PTE_make m (u64 (Z.shiftl ppn 12)) flags = Some e /\ pte_ppn e = ppn /\
    wrap (8 * VX_VM_PTE_SIZE m) (pte_bytes e) = pte_bytes e /\ bits (pte_bytes e) 0 7 = flags /\
    let e' := PTE_fields m (pte_bytes e) in
    pte_ppn e' = ppn /\ pte_v e' = bit flags 0 /\ pte_r e' = bit flags 1 /\ pte_w e' = bit flags 2 /\ pte_x e' = bit flags 3.
Proof.
  intros Hp Hf. assert (HA : in_u (pa_width m) (Z.shiftl ppn 12)).
  { unfold pa_width. apply mul_shiftl_range; [lia|destruct m; cbn; lia|done]. }
  assert (HA64 : in_u 64 (Z.shiftl ppn 12)) by (unfold in_u, pa_width, ppn_width in *; destruct m; lia).
  rewrite (wrap_small 64) by done.
  destruct (pte_encode m (Z.shiftl ppn 12) flags HA Hf) as (e & e' & E1 & E2 & Hpp & Hpd & Hfl & _ & _ & _ & Hb).
  exists e. split; [done|]. assert (Hppn : pte_ppn e' = ppn).
  { rewrite Hpd, Z.shiftl_mul_pow2 by lia. apply Z.div_mul. lia. }
  split; [congruence|]. assert (Hbytes : pte_bytes e = Z.lor (u64 (Z.shiftl ppn 10)) flags).
  { unfold PTE_make in E1. assert (Z.shiftr (Z.shiftl ppn 12) VX_VM_PAGE_LOG2_SIZE = ppn) as ES by (unfold VX_VM_PAGE_LOG2_SIZE; by rewrite Z.shiftr_shiftl_l, Z.shiftl_0_r by lia).
    rewrite ES in E1. destruct m; [destruct (_ =? 0); [|done]|]; by injection E1 as <-. }
  assert (He' : e' = PTE_fields m (pte_bytes e)).
  { unfold PTE_of_bytes in E2. destruct m; [destruct (_ =? 0); [|done]|]; by injection E2. }
  assert (Hflags : pte_d e = bit flags 7 /\ pte_v e = bit flags 0 /\ pte_r e = bit flags 1 /\ pte_w e = bit flags 2 /\ pte_x e = bit flags 3).
  { unfold PTE_make in E1. destruct m; [destruct (_ =? 0); [|done]|]; by injection E1 as <-. }
  split.
  { apply wrap_small. rewrite Hbytes. assert (in_u 54 (Z.shiftl ppn 10)) by (apply (mul_shiftl_range ppn 10 44); [lia|lia|unfold in_u, ppn_width in *; destruct m; lia]).
    rewrite (wrap_small 64) by (unfold in_u in *; lia).
    apply lor_in_u; [destruct m; cbn; lia| |unfold in_u in *; destruct m; cbn; lia].
    destruct m; cbn in *; [|unfold in_u in *; lia]. apply (mul_shiftl_range ppn 10 20) in Hp; [|lia|lia]. unfold in_u in *. lia. }
  assert (Hfe : pte_flags e' = bits (pte_bytes e) 0 7) by (rewrite He'; by destruct m).
  split; [congruence|]. rewrite <- He'. injection Hb as _ _ _ _ B1 B2 B3 B4. destruct Hflags as (_ & F1 & F2 & F3 & F4).
  split_and!; congruence.
Qed.

(** Reading a leaf entry and a table entry. *)
Lemma leaf_entry ppn flags e : in_u (ppn_width m) ppn -> in_u 8 flags -> bit flags 0 = true -> bit flags 1 = true ->
  PTE_make m (u64 (Z.shiftl ppn 12)) flags = Some e ->
  let b := wrap (8 * VX_VM_PTE_SIZE m) (pte_bytes e) in ent_of b = ELeaf ppn /\ good b.
Proof.
  intros Hp Hf H0 H1 E. destruct (pte_new ppn flags Hp Hf) as (e' & E' & _ & Hwr & Hb & Hpp & Hv & Hr & Hw & Hx).
  rewrite E in E'. injection E' as <-. cbv zeta. rewrite Hwr. unfold ent_of, good. cbv zeta. rewrite Hv, Hr, H0, H1, Hpp. split; [done|]. split; [|done].
  apply baadf00d_flags. rewrite Hb. intros ->. discriminate H1.
Qed.

Lemma table_entry pt e : in_u (ppn_width m) pt -> PTE_make m (u64 (Z.shiftl pt 12)) PTE_V = Some e ->
  let b := wrap (8 * VX_VM_PTE_SIZE m) (pte_bytes e) in ent_of b = ETab pt /\ good b /\ pte_ppn e = pt.
Proof.
  intros Hp E. destruct (pte_new pt PTE_V Hp) as (e' & E' & Hpe & Hwr & Hb & Hpp & Hv & Hr & Hw & Hx); [unfold in_u, PTE_V; lia|].
  rewrite E in E'. injection E' as <-. cbv zeta. rewrite Hwr. unfold ent_of, good. cbv zeta. rewrite Hv, Hr, Hw, Hx, Hpp. split; [done|]. split; [|done]. split; [|done].
  apply baadf00d_flags. by rewrite Hb.
Qed.

(** ** The invariant of the manager *)

Definition L : nat := VX_VM_PT_LEVEL m.

Lemma L_pos : (0 < L)%nat.
Proof. unfold L. destruct m; cbn; lia. Qed.

Abbreviation N := (2 ^ vpn_bits).

Record pt_inv s (T : gmap Z nat) : Prop := {
  pv_tree : tree L N (get_base_ppn s) (ent s) T;
  pv_tab t l : T !! t = Some l -> in_u (ppn_width m) t /\ table_page s t;
  pv_good t l k : T !! t = Some l -> 0 <= k < N ->
    good (rd s t k) /\ match ent s t k with ELeaf p => in_u (ppn_width m) p | _ => True end;
  pv_len a page : shadow_pt_ s !! a = Some page -> length page = 4096%nat;
  pv_key a page : shadow_pt_ s !! a = Some page -> (4096 | a);
  pv_mem : exists A, tables_rep (page_table_mem_ s) A /\ (forall t l, T !! t = Some l -> (t * 4096, 4096) ∈ A) /\
    baseAddress_ (page_table_mem_ s) + capacity_ (page_table_mem_ s) <= 2 ^ pa_width m;
  pv_trans : need_trans s = true
}.

(** The translation of the tables: leaf page and level. *)
Definition xl s (va : Z) : option (Z * nat) := wk vx (ent s) va (L - 1) (get_base_ppn s).

Abbreviation tpath s := (path L vx (get_base_ppn s) (ent s)).

(** What the page-table operations leave alone. *)
Definition frame s s' : Prop :=
  vm_satp_ s' = vm_satp_ s /\ virtual_mem_ s' = virtual_mem_ s /\ addr_mapping s' = addr_mapping s /\
  rng_ s' = rng_ s /\ randomize_va_ s' = randomize_va_ s.

Lemma frame_refl s : frame s s.
Proof. done. Qed.

Lemma frame_trans s1 s2 s3 : frame s1 s2 -> frame s2 s3 -> frame s1 s3.
Proof. unfold frame. intuition congruence. Qed.

Lemma write_frame s a v : frame s (write_pte m s a v).
Proof. done. Qed.

Lemma base_frame s s' : frame s s' -> get_base_ppn s' = get_base_ppn s.
Proof. intros (E & _). unfold get_base_ppn. by rewrite E. Qed.

Lemma trans_frame s s' : frame s s' -> need_trans s' = need_trans s.
Proof. intros (E & _). unfold need_trans, get_mode. by rewrite E. Qed.

(** Pages stay pages under writes. *)
Lemma write_table_page s t k v t' : in_u (ppn_width m) t -> 0 <= k < N -> table_page s t -> table_page s t' ->
  table_page (write_pte m s (pte_addr m t k) v) t'.
Proof.
  intros Ht Hk (page & Hp & Hl & Hb) (page' & Hp' & Hl' & Hb'). unfold table_page.
  rewrite (write_shadow s t k v page) by done. destruct (decide (t = t')) as [<-|].
  - rewrite lookup_insert_eq. eexists. split; [reflexivity|]. rewrite length_inserts. split; [done|].
    apply Forall_inserts; [done|]. apply le_bytes_is_byte.
  - rewrite lookup_insert_ne by lia. by exists page'.
Qed.

Lemma ent_write s t k v t' k' : in_u (ppn_width m) t -> 0 <= k < N -> in_u (ppn_width m) t' -> 0 <= k' < N -> table_page s t ->
  ent (write_pte m s (pte_addr m t k) v) t' k' =
    if decide (t = t' /\ k = k') then ent_of (wrap (8 * VX_VM_PTE_SIZE m) v) else ent s t' k'.
Proof. intros. unfold ent. rewrite rd_write by done. by destruct (decide _). Qed.

Lemma write_len s T t k v : pt_inv s T -> forall l, T !! t = Some l -> 0 <= k < N ->
  forall a page, shadow_pt_ (write_pte m s (pte_addr m t k) v) !! a = Some page -> length page = 4096%nat.
Proof.
  intros HI l Ht Hk a page. destruct (pv_tab s T HI t l Ht) as [Htr (pg & Hp & Hl & _)].
  rewrite (write_shadow s t k v pg) by done. intros H.
  apply lookup_insert_Some in H as [[_ <-]|[_ H]]; [by rewrite length_inserts|by apply (pv_len s T HI a)].
Qed.

Lemma write_key s T t k v : pt_inv s T -> forall l, T !! t = Some l -> 0 <= k < N ->
  forall a page, shadow_pt_ (write_pte m s (pte_addr m t k) v) !! a = Some page -> (4096 | a).
Proof.
  intros HI l Ht Hk a page. destruct (pv_tab s T HI t l Ht) as [Htr (pg & Hp & Hl & _)].
  rewrite (write_shadow s t k v pg) by done. intros H.
  apply lookup_insert_Some in H as [[<- _]|[_ H]]; [by exists t|by apply (pv_key s T HI a page)].
Qed.

(** The walk of [va] meets no table where a leaf of level [ll] belongs. *)
Definition no_table s : Z -> nat -> Prop := no_tab L vx (get_base_ppn s) (ent s).

(** Installing a leaf below the table the walk of [va] has reached. *)
Lemma write_leaf s T va i t ppn flags e : pt_inv s T -> tpath s va i t -> ent s t (vx va i) = EInv ->
  in_u (ppn_width m) ppn -> in_u 8 flags -> bit flags 0 = true -> bit flags 1 = true ->
  PTE_make m (u64 (Z.shiftl ppn 12)) flags = Some e ->
  let s' := write_pte m s (pte_addr m t (vx va i)) (pte_bytes e) in
  pt_inv s' T /\ (forall vb, agree L vx va vb i -> xl s' vb = Some (ppn, i)) /\
  (forall vb, ~ agree L vx va vb i -> xl s' vb = xl s vb) /\
  (forall vb l, no_table s vb l -> no_table s' vb l).
Proof.
  intros HI Hpath Hinv Hppn Hfl F0 F1 He s'. pose proof (pv_tree s T HI) as HT.
  pose proof (path_level L N vx _ vx_range _ _ _ _ _ HT Hpath) as Ht. destruct (pv_tab s T HI t i Ht) as [Htr Htp].
  destruct (leaf_entry ppn flags e Hppn Hfl F0 F1 He) as [Hent Hgood]. pose proof (vx_range va i) as Hk.
  assert (HE : same_on N (put (ent s) t (vx va i) (ELeaf ppn)) (ent s') T).
  { intros u l k Hu Hk'. destruct (pv_tab s T HI u l Hu) as [Hur _]. unfold s'.
    rewrite ent_write by done. unfold put. destruct (decide _); [by rewrite Hent|done]. }
  pose proof (put_leaf_tree L N vx _ vx_range _ T t (vx va i) ppn HT) as HT'.
  assert (HW : forall vb, xl s' vb = wk vx (put (ent s) t (vx va i) (ELeaf ppn)) vb (L - 1) (get_base_ppn s)).
  { intros vb. symmetry. eapply (wk_ext L N vx _ vx_range); [done|done|apply HT]. }
  split; [constructor|split].
  - by eapply (tree_ext L N vx _ vx_range).
  - intros u l Hu. destruct (pv_tab s T HI u l Hu). split; [done|]. by apply write_table_page.
  - intros u l k Hu Hk'. destruct (pv_tab s T HI u l Hu) as [Hur _]. unfold s'. rewrite rd_write, ent_write by done.
    destruct (decide _); [|by apply (pv_good s T HI u l)]. by rewrite Hent.
  - intros a pg Ha. by apply (write_len s T t (vx va i) (pte_bytes e) HI i Ht Hk a).
  - intros a pg Ha. by apply (write_key s T t (vx va i) (pte_bytes e) HI i Ht Hk a pg).
  - apply HI.
  - apply HI.
  - intros vb Hag. rewrite HW. eapply (wk_put_leaf L N vx _ vx_range); try done; [apply L_pos|constructor|].
    left. pose proof (path_lt L N vx _ vx_range _ _ _ _ L_pos Hpath). lia.
  - split; intros vb; [intros Hag; rewrite HW; unfold xl; eapply (wk_put_leaf L N vx _ vx_range); try done; [apply L_pos|constructor|by right]|].
    intros l Hn. eapply (no_tab_ext L N vx _ vx_range); [done|by eapply (tree_ext L N vx _ vx_range)|].
    by apply (no_tab_leaf L N vx _ vx_range).
Qed.

(** The storage of the tables, before there is a root too. *)
Record pt_store s (T : gmap Z nat) : Prop := {
  ps_len a page : shadow_pt_ s !! a = Some page -> length page = 4096%nat;
  ps_key a page : shadow_pt_ s !! a = Some page -> (4096 | a);
  ps_mem : exists A, tables_rep (page_table_mem_ s) A /\ (forall t l, T !! t = Some l -> (t * 4096, 4096) ∈ A) /\
    baseAddress_ (page_table_mem_ s) + capacity_ (page_table_mem_ s) <= 2 ^ pa_width m
}.

Lemma pt_inv_store s T : pt_inv s T -> pt_store s T.
Proof. intros HI. constructor; apply HI. Qed.

(** A fresh table: zeros at an aligned page no table uses. *)
Lemma alloc_table s T s1 a : pt_store s T -> alloc_page_table s = Some (s1, Some a) ->
  exists q, a = q * 4096 /\ a = u64 (Z.shiftl q 12) /\ in_u (ppn_width m) q /\ T !! q = None /\ frame s s1 /\
    table_page s1 q /\ (forall k, 0 <= k < N -> rd s1 q k = 0) /\
    (forall t, t <> q -> shadow_pt_ s1 !! (t * 4096) = shadow_pt_ s !! (t * 4096)) /\
    (forall b page, shadow_pt_ s1 !! b = Some page -> length page = 4096%nat /\ (4096 | b)) /\
    (exists A, tables_rep (page_table_mem_ s1) A /\ (a, 4096) ∈ A /\ (forall t l, T !! t = Some l -> (t * 4096, 4096) ∈ A) /\
      baseAddress_ (page_table_mem_ s1) + capacity_ (page_table_mem_ s1) <= 2 ^ pa_width m) /\
    ma_allocate (page_table_mem_ s) 4096 = Some (page_table_mem_ s1, Some a).
Proof.
  intros HI E. unfold alloc_page_table in E. change VX_VM_PT_SIZE with 4096 in E.
  destruct (ma_allocate (page_table_mem_ s) 4096) as [[pm [a'|]]|] eqn:Ea; cbn [mbind option_bind] in E; [|done|done].
  destruct (ps_mem s T HI) as (A & HA & HTA & Hcap).
  destruct (table_alloc _ _ _ _ HA Ea) as (HA' & Hd & Hlo & Hhi & Hne & Hcfg). unfold touch_pt_page in E.
  injection E as <- ->. destruct Hd as [q ->].
  assert (Hq : in_u (ppn_width m) q).
  { destruct HA as (_ & (_ & _ & _ & _ & H0 & _) & _). unfold pa_width in Hcap. rewrite Z.pow_add_r in Hcap by (destruct m; cbn; lia).
    unfold in_u. nia. }
  assert (Hpg : pt_page (q * 4096) = q * 4096).
  { destruct (pte_addr_at q 0 Hq) as [E1 E2]; [unfold vpn_bits; destruct m; lia|]. rewrite E1 in E2.
    rewrite Z.mul_0_l, Z.add_0_r in E2. done. }
  assert (Hlen : length (touched (shadow_pt_ s !! (q * 4096))) = 4096%nat).
  { destruct (shadow_pt_ s !! (q * 4096)) as [pg|] eqn:Es; [|apply length_replicate].
    pose proof (ps_len s T HI _ _ Es) as Hl. destruct pg; [done|exact Hl]. }
  exists q. rproj. rewrite !Hpg, Hlen, insert_insert_eq.
  assert (Htp : forall x y z w v u g, table_page (Build_VMManager x y z w (<[q * 4096:=replicate 4096 0]> (shadow_pt_ s)) v u g : VMManager (R:=R)) q).
  { intros. eexists. split; [apply lookup_insert_eq|]. split; [apply length_replicate|]. apply Forall_replicate. unfold is_byte, in_u. lia. }
  split; [done|]. split; [|split; [done|split]].
  - rewrite Z.shiftl_mul_pow2 by lia. rewrite wrap_small; [done|]. unfold in_u, ppn_width in *. destruct m; lia.
  - destruct (T !! q) as [l|] eqn:El; [|done]. exfalso. by apply (Hne _ (HTA q l El)).
  - split; [done|]. split; [apply Htp|]. split.
    { intros k Hk. erewrite rd_page; [|done|done|apply lookup_insert_eq|apply Forall_replicate; unfold is_byte, in_u; lia].
      rewrite drop_replicate, take_replicate. generalize (entry_size `min` (4096 - entry_off k))%nat.
      intros n. induction n as [|n IH]; [done|]. cbn [replicate le_word]. by rewrite IH. }
    split; [intros t Ht; by rewrite lookup_insert_ne by lia|].
    split; [intros b pg Hb; apply lookup_insert_Some in Hb as [[<- <-]|[_ Hb]];
      [split; [apply length_replicate|by exists q]|split; [by apply (ps_len s T HI b)|by apply (ps_key s T HI b pg)]]|].
    split; [|done]. exists ((q * 4096, 4096) :: A). split; [done|]. split; [left|].
    split; [intros t l Ht; right; by apply (HTA t l)|]. injection Hcfg as C1 C2 _ _. by rewrite C1, C2.
Qed.

(** Installing a fresh table below the one the walk of [va] has reached. *)
Lemma write_table s T va i t s1 a e : pt_inv s T -> tpath s va (S i) t -> ent s t (vx va (S i)) = EInv ->
  alloc_page_table s = Some (s1, Some a) -> PTE_make m a PTE_V = Some e ->
  let s' := write_pte m s1 (pte_addr m t (vx va (S i))) (pte_bytes e) in
  exists q, pte_ppn e = q /\ pt_inv s' (<[q := i]> T) /\ tpath s' va i q /\ (forall vb, xl s' vb = xl s vb) /\ frame s s' /\
    ent s' q (vx va i) = EInv /\ ma_allocate (page_table_mem_ s) 4096 = Some (page_table_mem_ s', Some a) /\
    (forall vb l, ~ agree L vx va vb l -> no_table s vb l -> no_table s' vb l).
Proof.
  intros HI Hpath Hinv Ea He s'. pose proof (pv_tree s T HI) as HT.
  pose proof (path_level L N vx _ vx_range _ _ _ _ _ HT Hpath) as Ht. destruct (pv_tab s T HI t (S i) Ht) as [Htr Htp].
  destruct (alloc_table s T s1 a (pt_inv_store s T HI) Ea) as (q & Eq & Eq' & Hqr & Hq & Hfr & Hqp & Hq0 & Hoth & Hlen & Hmem & Hal).
  rewrite Eq' in He. destruct (table_entry q e Hqr He) as (Hent & Hgood & Hppn). pose proof (vx_range va (S i)) as Hk.
  assert (Htq : t <> q) by (intros ->; congruence).
  assert (Htp1 : forall u, u <> q -> table_page s u -> table_page s1 u) by (intros u Hu (pg & Hp & H); exists pg; by rewrite Hoth).
  assert (Hb : get_base_ppn s' = get_base_ppn s) by (by rewrite (base_frame s1 s' (write_frame _ _ _)), (base_frame s s1 Hfr)).
  assert (Hrd1 : forall u k, in_u (ppn_width m) u -> 0 <= k < N -> u <> q -> rd s1 u k = rd s u k) by (intros; apply rd_ext; auto).
  assert (HT1 : forall u l, <[q:=i]> T !! u = Some l -> in_u (ppn_width m) u /\ table_page s1 u /\ (u <> q -> T !! u = Some l)).
  { intros u l Hu. apply lookup_insert_Some in Hu as [[<- <-]|[Hne Hu]]; [done|].
    destruct (pv_tab s T HI u l Hu). split; [done|]. split; [apply Htp1; congruence|done]. }
  assert (HE : same_on N (put_table (ent s) t (vx va (S i)) q) (ent s') (<[q:=i]> T)).
  { intros u l k Hu Hk'. destruct (HT1 u l Hu) as (Hur & _ & _). unfold s'. rewrite ent_write by auto.
    unfold put_table. destruct (decide (t = u /\ _)); [by rewrite Hent|].
    destruct (decide (q = u)) as [<-|Hne]; unfold ent; [rewrite Hq0 by done; by rewrite (proj1 ent_zero)|by rewrite Hrd1 by congruence]. }
  pose proof (put_table_tree L N vx _ vx_range _ T va i t q HT L_pos Hpath Hinv Hq) as HT'.
  assert (HP : path L vx (get_base_ppn s) (put_table (ent s) t (vx va (S i)) q) va i q).
  { eapply path_step; [eapply (put_table_path L N vx _ vx_range); done|]. unfold put_table. by rewrite decide_True. }
  exists q. split; [done|]. split; [|split; [|split; [|split; [|split]]]].
  - constructor.
    + rewrite Hb. by eapply (tree_ext L N vx _ vx_range).
    + intros u l Hu. destruct (HT1 u l Hu) as (Hur & Hup & _). split; [done|]. apply write_table_page; auto.
    + intros u l k Hu Hk'. destruct (HT1 u l Hu) as (Hur & _ & HuT). unfold s'. rewrite rd_write, ent_write by auto.
      destruct (decide _); [by rewrite Hent|]. destruct (decide (u = q)) as [->|Hne].
      * unfold ent. rewrite Hq0 by done. destruct ent_zero as [-> ?]. done.
      * unfold ent. rewrite Hrd1 by done. apply (pv_good s T HI u l k); auto.
    + intros b pg. unfold s'. destruct (Htp1 t Htq Htp) as (pg1 & Hp1 & Hl1 & _). rewrite (write_shadow s1 t _ _ pg1) by done.
      intros Hx. apply lookup_insert_Some in Hx as [[_ <-]|[_ Hx]]; [by rewrite length_inserts|by apply (Hlen b)].
    + intros b pg. unfold s'. destruct (Htp1 t Htq Htp) as (pg1 & Hp1 & Hl1 & _). rewrite (write_shadow s1 t _ _ pg1) by done.
      intros Hx. apply lookup_insert_Some in Hx as [[<- _]|[_ Hx]]; [by exists t|by apply (Hlen b pg)].
    + destruct Hmem as (A & H1 & H2 & H3 & H4). exists A. split; [done|]. split; [|done].
      intros u l Hu. apply lookup_insert_Some in Hu as [[<- _]|[_ Hu]]; [by rewrite <- Eq|by apply (H3 u l)].
    + rewrite (trans_frame s1 s' (write_frame _ _ _)), (trans_frame s s1 Hfr). apply HI.
  - rewrite Hb. by eapply (path_ext L N vx _ vx_range).
  - intros vb. unfold xl. rewrite Hb.
    rewrite <- (wk_put_table L N vx _ vx_range (ent s) T va i t q HT L_pos Hpath Hinv Hq vb _ _ (path_root _ _ _ _ _)).
    symmetry. eapply (wk_ext L N vx _ vx_range); [done|done|]. apply HT'.
  - eapply frame_trans; [done|apply write_frame].
  - rewrite <- (HE q i (vx va i)); [|apply lookup_insert_eq|apply vx_range]. unfold put_table.
    rewrite decide_False by (intros [? _]; congruence). by rewrite decide_True.
  - split; [done|]. intros vb l Hag Hn. unfold no_table. rewrite Hb.
    eapply (no_tab_ext L N vx _ vx_range); [done|by eapply (tree_ext L N vx _ vx_range)|].
    by eapply (no_tab_table L N vx _ vx_range); [..|apply L_pos| | | |].
Qed.

(** ** The descent of [update_page_table] *)

(** [n] more tables can be allocated. *)
Fixpoint pt_room (n : nat) (pm : MemoryAllocator) : bool :=
  match n with
  | O => true
  | S n => match ma_allocate pm VX_VM_PT_SIZE with Some (pm, Some _) => pt_room n pm | _ => false end
  end.

Lemma pt_room_le n : forall k pm, (k <= n)%nat -> pt_room n pm = true -> pt_room k pm = true.
Proof.
  induction n as [|n IH]; intros [|k] pm Hk H; cbn [pt_room] in *; try done; [lia|].
  destruct (ma_allocate pm _) as [[pm' [a|]]|]; [|done|done]. apply IH; [lia|done].
Qed.

(** The 4 KiB page a leaf at level [i] gives for page [vpn]. *)
Definition page_of (p : Z) (i : nat) (vpn : Z) : Z :=
  let span := u64 (Z.shiftl 1 (Z.of_nat i * VM_VPN_BITS m)) in
  Z.lor (Z.land p (u64 (Z.lnot (span - 1)))) (Z.land vpn (span - 1)).

Lemma ent_cases b : good b -> let e := PTE_fields m b in let valid := pte_v e && negb (baadf00d b) in
  match ent_of b with
  | EInv => valid = false
  | ELeaf p => valid = true /\ pte_r e || pte_w e || pte_x e = true /\ pte_ppn e = p
  | ETab p => valid = true /\ pte_r e || pte_w e || pte_x e = false /\ pte_ppn e = p
  end.
Proof.
  intros [Hb _]. cbv zeta. unfold ent_of. cbv zeta. rewrite Hb. destruct (pte_v _); cbn [negb andb]; [|done].
  destruct (_ || _ || _) eqn:E; done.
Qed.

Lemma room_alloc s n : pt_room (S n) (page_table_mem_ s) = true ->
  exists s1 a, alloc_page_table s = Some (s1, Some a) /\ pt_room n (page_table_mem_ s1) = true.
Proof.
  cbn [pt_room]. intros H. unfold alloc_page_table. destruct (ma_allocate _ _) as [[pm [a|]]|]; [|done|done].
  cbn [mbind option_bind]. unfold touch_pt_page. do 2 eexists. split; [reflexivity|done].
Qed.

Lemma fresh_no_table s T va i q ll : pt_inv s T -> tpath s va i q -> ent s q (vx va i) = EInv -> (ll <= i)%nat -> no_table s va ll.
Proof.
  intros HI Hq He Hll u p Hu. pose proof (path_lt L N vx _ vx_range _ _ _ _ L_pos Hq).
  destruct (decide (ll = i)) as [->|Hne].
  - rewrite (path_fun L N vx _ vx_range _ _ _ _ _ Hu Hq) by done. congruence.
  - destruct (path_through L N vx _ vx_range _ _ _ _ i Hu) as (v & p' & Hv & Hp); [lia|].
    rewrite (path_fun L N vx _ vx_range _ _ _ _ _ Hv Hq) in Hp by done. congruence.
Qed.

(** What one descent leaves, from table [t] at level [i]. *)
Definition updated s ppn vpn va ll extra i t (r : option (VMManager (R:=R) * Z)) : Prop :=
  exists s' T' rc, r = Some (s', rc) /\ pt_inv s' T' /\ frame s s' /\ pt_room extra (page_table_mem_ s') = true /\
    (forall vb l, ~ agree L vx va vb l -> no_table s vb l -> no_table s' vb l) /\
    match wk vx (ent s) va i t with
    | Some (p, l) => s' = s /\ rc = (if page_of p l vpn =? ppn then 0 else -1)
    | None => rc = 0 /\ (forall vb, agree L vx va vb ll -> xl s' vb = Some (ppn, ll)) /\
        (forall vb, ~ agree L vx va vb ll -> xl s' vb = xl s vb)
    end.

Section Descent.
Context (ppn vpn flags va : Z) (ll : nat).
Context (Hppn : in_u (ppn_width m) ppn) (Hfl : in_u 8 flags) (F0 : bit flags 0 = true) (F1 : bit flags 1 = true).
#[local] Set Default Proof Using "All".

Lemma descent_leaf s T t i extra : pt_inv s T -> tpath s va i t -> ent s t (vx va i) = EInv -> i = ll ->
  pt_room extra (page_table_mem_ s) = true ->
  updated s ppn vpn va ll extra i t
    (new_pte ← PTE_make m (u64 (Z.shiftl ppn VX_VM_PAGE_LOG2_SIZE)) flags;
     Some (write_pte m s (pte_addr m t (vx va i)) (pte_bytes new_pte), 0)).
Proof.
  intros HI Hpath He -> Hroom. destruct (pte_new ppn flags Hppn Hfl) as (e & Hm & _).
  unfold VX_VM_PAGE_LOG2_SIZE. rewrite Hm. cbn [mbind option_bind].
  destruct (write_leaf s T va ll t ppn flags e HI Hpath He Hppn Hfl F0 F1 Hm) as (HI' & H1 & H2 & H3).
  do 3 eexists. split; [reflexivity|]. split; [exact HI'|]. split; [apply write_frame|]. split; [exact Hroom|]. split; [auto|].
  rewrite <- (wk_path L N vx _ vx_range _ _ _ _ Hpath). rewrite (wk_path L N vx _ vx_range _ _ _ _ Hpath).
  destruct ll; cbn [wk]; rewrite He; done.
Qed.

Lemma update_descends i : forall s T t pt extra, pt_inv s T -> tpath s va i t -> (ll <= i)%nat ->
  pt_room (extra + (i - ll)) (page_table_mem_ s) = true -> no_table s va ll ->
  updated s ppn vpn va ll extra i t (update_from m s ppn vpn flags ll (va_vpn (vAddr_fields m va)) i t pt).
Proof.
  induction i as [|i IH]; intros s T t pt extra HI Hpath Hll Hroom Hno;
    (pose proof (pv_tree s T HI) as HT; pose proof (path_level L N vx _ vx_range _ _ _ _ _ HT Hpath) as Ht;
     pose proof (path_lt L N vx _ vx_range _ _ _ _ L_pos Hpath) as HiL;
     cbn [update_from]; rewrite vpn_nth by done;
     match type of Ht with _ = Some ?i => pose proof (pv_good s T HI t _ _ Ht (vx_range va i)) as [Hg _] end; pose proof (ent_cases _ Hg) as Hc; cbv zeta in Hc).
  all: change (read_pte m ?s (pte_addr m ?t ?k)) with (rd s t k).
  all: change (ent_of (rd ?s ?t ?k)) with (ent s t k) in Hc.
  all: match type of Hc with context [match ?x with _ => _ end] => destruct x as [|p|p] eqn:He end.
  - rewrite Hc. cbn [andb]. assert (ll = 0)%nat as E0 by lia. rewrite E0, Nat.eqb_refl. rewrite <- E0 at 1.
    eapply (descent_leaf s T t 0); [done|done|done|lia|]. eapply pt_room_le; [|done]. lia.
  - pose proof (tr_ent _ _ _ _ _ HT t 0 (vx va 0) Ht (vx_range _ _)) as H. rewrite He in H. by destruct H as (? & ? & _).
  - destruct Hc as (-> & -> & ->). cbn [andb]. exists s, T. eexists. split; [reflexivity|]. split; [done|]. split; [apply frame_refl|].
    split; [eapply pt_room_le; [|done]; lia|]. split; [done|]. cbn [wk]. by rewrite He.
  - rewrite Hc. cbn [andb]. destruct (Nat.eqb_spec (S i) ll) as [Ei|Ei].
    { eapply (descent_leaf s T t (S i)); [done|done|done|done|]. eapply pt_room_le; [|done]. lia. }
    replace (extra + (S i - ll))%nat with (S (extra + (i - ll))) in Hroom by lia.
    destruct (room_alloc s _ Hroom) as (s1 & a & Ea & Hroom1). rewrite Ea. cbn [mbind option_bind default].
    destruct (alloc_table s T s1 a (pt_inv_store s T HI) Ea) as (q & _ & Eq & Hqr & _).
    destruct (pte_new q PTE_V Hqr) as (e & Hm & _); [unfold in_u, PTE_V; lia|]. rewrite <- Eq in Hm.
    change (id a) with a. rewrite Hm. cbn [mbind option_bind].
    destruct (write_table s T va i t s1 a e HI Hpath He Ea Hm) as (q' & -> & HI' & Hp' & Hxl & Hfr & He' & _ & Hn1).
    destruct (IH _ _ q' a extra HI' Hp' ltac:(lia) Hroom1) as (s' & T' & rc & Er & HI'' & Hfr' & Hr' & Hn2 & Hpost).
    { eapply fresh_no_table; [done|done|done|lia]. }
    exists s', T', rc. split; [exact Er|]. split; [done|]. split; [by eapply frame_trans|]. split; [done|]. split; [auto|].
    cbn [wk]. rewrite He. assert (wk vx (ent (write_pte m s1 (pte_addr m t (vx va (S i))) (pte_bytes e))) va i q' = None) as En.
    { destruct i; cbn [wk]; by rewrite He'. }
    rewrite En in Hpost. destruct Hpost as (-> & H1 & H2). split; [done|]. split; [done|]. intros vb Hvb. rewrite <- Hxl. by apply H2.
  - destruct Hc as (-> & -> & ->). cbn [andb]. assert (ll <> S i) as Hls by (intros Hls; rewrite <- Hls in *; by apply (Hno t p)).
    destruct (IH s T p pt extra HI) as (s' & T' & rc & Er & Hpost); [by eapply path_step|lia|eapply pt_room_le; [|done]; lia|done|].
    exists s', T', rc. split; [exact Er|]. cbn [wk]. by rewrite He.
  - destruct Hc as (-> & -> & ->). cbn [andb]. exists s, T. eexists. split; [reflexivity|]. split; [done|]. split; [apply frame_refl|].
    split; [eapply pt_room_le; [|done]; lia|]. split; [done|]. cbn [wk]. by rewrite He.
Qed.

End Descent.

(** ** The host walk *)

(** The permission bits behind each kind of entry. *)
Lemma ent_bits b : good b -> let e := PTE_fields m b in
  match ent_of b with
  | EInv => pte_v e = false
  | ELeaf p => pte_v e = true /\ pte_r e = true /\ pte_ppn e = p
  | ETab p => pte_v e = true /\ pte_r e = false /\ pte_w e = false /\ pte_x e = false /\ pte_ppn e = p
  end.
Proof.
  intros [_ Hr]. cbv zeta in *. unfold ent_of. cbv zeta. destruct (pte_v _); cbn [negb]; [|done].
  destruct (pte_r _) eqn:Er; [done|]. destruct (Hr eq_refl eq_refl) as [-> ->]. done.
Qed.

Lemma walk_xl s T va i : pt_inv s T -> forall t, tpath s va i t ->
  walk_from m s (va_vpn (vAddr_fields m va)) i t = match wk vx (ent s) va i t with Some r => inl r | None => inr WalkFault end.
Proof.
  intros HI. pose proof (pv_tree s T HI) as HT. induction i as [|i IH]; intros t Hpath;
    (pose proof (path_level L N vx _ vx_range _ _ _ _ _ HT Hpath) as Ht;
     pose proof (path_lt L N vx _ vx_range _ _ _ _ L_pos Hpath) as HiL;
     cbn [walk_from wk]; rewrite vpn_nth by done;
     match type of Ht with _ = Some ?i => pose proof (pv_good s T HI t _ _ Ht (vx_range va i)) as [Hg _] end;
     pose proof (ent_bits _ Hg) as Hc; cbv zeta in Hc; destruct Hg as [Hb _]).
  all: change (read_pte m ?s (pte_addr m ?t ?k)) with (rd s t k); rewrite Hb.
  all: change (ent_of (rd ?s ?t ?k)) with (ent s t k) in Hc.
  all: match type of Hc with context [match ?x with _ => _ end] => destruct x as [|p|p] eqn:He end.
  1,4: by rewrite Hc.
  1,3: destruct Hc as (-> & -> & -> & -> & ->); cbn [negb andb orb].
  3,4: by destruct Hc as (-> & -> & ->).
  - done.
  - apply IH. by eapply path_step.
Qed.

Lemma vAddr_ok va : in_u (va_width m) va -> vAddr_make m va = Some (vAddr_fields m va).
Proof.
  intros Hv. unfold vAddr_make, va_width in *. destruct m; [|done].
  assert (Z.shiftr va 32 = 0) as -> by (apply shiftr_zero_iff; unfold in_u in *; lia). done.
Qed.

Lemma page_table_walk_xl s T va : pt_inv s T -> in_u (va_width m) va ->
  page_table_walk m s va = Some (match xl s va with Some (p, l) => WalkPA (leaf_pa m p l va) | None => WalkFault end).
Proof.
  intros HI Hv. unfold page_table_walk. rewrite (pv_trans s T HI), vAddr_ok by done. cbn [negb mbind option_bind].
  change (VX_VM_PT_LEVEL m) with L.
  rewrite (walk_xl s T va _ HI _ (path_root _ _ _ _ _)). fold (xl s va). by destruct (xl s va) as [[p l]|].
Qed.

(** ** Pages and superpages as arithmetic *)

(** Bytes of a page of level [i]. *)
Definition page_bytes (i : nat) : Z := 2 ^ (12 + vpn_bits * Z.of_nat i).

Lemma page_bytes_pos i : 0 < page_bytes i.
Proof. apply pow2_pos. unfold vpn_bits. destruct m; lia. Qed.

(** Addresses agree on the indices above [i] when they share the page. *)
Lemma agree_iff va vb i : in_u (va_width m) va -> in_u (va_width m) vb -> (i < L)%nat ->
  agree L vx va vb i <-> va / page_bytes i = vb / page_bytes i.
Proof.
  intros Ha Hb Hi. assert (HV : va_width m = 12 + vpn_bits * Z.of_nat L) by (unfold vpn_bits, L; destruct m; done).
  assert (Hstep : forall x l, x / page_bytes l = vx x l + 2 ^ vpn_bits * (x / page_bytes (S l))).
  { intros x l. unfold vx, page_bytes. replace (12 + vpn_bits * Z.of_nat (S l)) with ((12 + vpn_bits * Z.of_nat l) + vpn_bits) by lia.
    rewrite (Z.pow_add_r 2 (12 + _)) by (unfold vpn_bits; destruct m; lia).
    rewrite <- Z.div_div by (try apply Z.pow_nonzero; try apply pow2_pos; unfold vpn_bits; destruct m; lia).
    pose proof (Z.div_mod (x / 2 ^ (12 + vpn_bits * Z.of_nat l)) (2 ^ vpn_bits)) as H. specialize (H ltac:(unfold vpn_bits; destruct m; lia)). lia. }
  assert (Htop : forall x, in_u (va_width m) x -> x / page_bytes L = 0).
  { intros x Hx. apply Z.div_small. unfold page_bytes. rewrite <- HV. exact Hx. }
  split.
  - intros Hag. assert (HG : forall d, (d <= L - i)%nat -> va / page_bytes (L - d) = vb / page_bytes (L - d)).
    { induction d as [|d IH]; intros Hd; [rewrite Nat.sub_0_r, !Htop by done; done|].
      rewrite (Hstep va), (Hstep vb). replace (S (L - S d)) with (L - d)%nat by lia. rewrite IH by lia. rewrite (Hag (L - S d)%nat) by lia. done. }
    specialize (HG (L - i)%nat ltac:(lia)). replace (L - (L - i))%nat with i in HG by lia. done.
  - intros Heq. assert (HG : forall d, va / page_bytes (i + d) = vb / page_bytes (i + d)).
    { induction d as [|d IH]; [by rewrite Nat.add_0_r|]. replace (i + S d)%nat with (S (i + d)) by lia.
      rewrite (Hstep va), (Hstep vb) in IH. pose proof (vx_range va (i + d)). pose proof (vx_range vb (i + d)).
      assert (0 < 2 ^ vpn_bits) by (unfold vpn_bits; destruct m; lia). nia. }
    intros l Hl. pose proof (HG (l - i)%nat) as H1. pose proof (HG (S (l - i))) as H2.
    replace (i + (l - i))%nat with l in H1 by lia. replace (i + S (l - i))%nat with (S l) in H2 by lia.
    rewrite (Hstep va), (Hstep vb) in H1. rewrite H2 in H1. lia.
Qed.

(** The high bits of one number above the low bits of another. *)
Lemma splice_eq x v w : in_u 64 x -> 0 <= w < 64 ->
  Z.lor (Z.land x (u64 (Z.lnot (2 ^ w - 1)))) (Z.land v (2 ^ w - 1)) = x / 2 ^ w * 2 ^ w + v mod 2 ^ w.
Proof.
  intros Hx Hw. rewrite (align_down 64 w) by (done || lia).
  replace (2 ^ w - 1) with (Z.ones w) by (rewrite Z.ones_equiv; lia). rewrite Z.land_ones by lia.
  pose proof (pow2_pos w ltac:(lia)) as Hpos.
  assert (E : x - x mod 2 ^ w = x / 2 ^ w * 2 ^ w) by (pose proof (Z.div_mod x (2 ^ w)); lia). rewrite E.
  apply lor_add_disjoint, Z.bits_inj'. intros j Hj. rewrite Z.land_spec, Z.bits_0.
  destruct (Z.lt_ge_cases j w); [by rewrite Z.mul_pow2_bits_low by lia|].
  rewrite <- (Z.land_ones v w), Z.land_spec, Z.ones_spec_high by lia. by rewrite !andb_false_r.
Qed.

Lemma span_width i : (i < L)%nat -> 0 <= vpn_bits * Z.of_nat i /\ 12 + vpn_bits * Z.of_nat i < 64.
Proof. unfold vpn_bits, L. destruct m; cbn; lia. Qed.

(** The address a leaf gives, and the page the manager compares. *)
Lemma leaf_pa_eq p i va : in_u (ppn_width m) p -> (i < L)%nat ->
  leaf_pa m p i va = p * 4096 / page_bytes i * page_bytes i + va mod page_bytes i.
Proof.
  intros Hp Hi. pose proof (span_width i Hi). unfold leaf_pa, VX_VM_PAGE_LOG2_SIZE, page_bytes.
  rewrite VM_VPN_BITS_eq, (Z.mul_comm (Z.of_nat i)), Z.shiftl_1_l.
  assert (HP : in_u 64 (p * 4096)) by (unfold in_u, ppn_width in *; destruct m; lia).
  rewrite Z.shiftl_mul_pow2 by lia. change (2 ^ 12) with 4096. rewrite (wrap_small 64 (p * 4096)) by done.
  rewrite (wrap_small 64 (2 ^ _)) by (split; [apply Z.pow_nonneg; lia|apply Z.pow_lt_mono_r; lia]).
  apply splice_eq; [done|lia].
Qed.

Lemma page_of_leaf p i vpn : in_u (ppn_width m) p -> (i < L)%nat -> leaf_pa m p i (vpn * 4096) = page_of p i vpn * 4096.
Proof.
  intros Hp Hi. rewrite leaf_pa_eq by done. pose proof (span_width i Hi). unfold page_of, page_bytes.
  rewrite VM_VPN_BITS_eq, (Z.mul_comm (Z.of_nat i)), Z.shiftl_1_l.
  rewrite (wrap_small 64 (2 ^ _)) by (split; [apply Z.pow_nonneg; lia|apply Z.pow_lt_mono_r; lia]).
  rewrite splice_eq by (unfold in_u, ppn_width in *; destruct m; lia).
  rewrite Z.pow_add_r by lia. change (2 ^ 12) with 4096. set (S := 2 ^ (vpn_bits * Z.of_nat i)).
  assert (0 < S) by (apply pow2_pos; lia). rewrite (Z.mul_comm 4096 S).
  rewrite Z.div_mul_cancel_r by lia. rewrite Z.mul_mod_distr_r by lia. lia.
Qed.

(** ** Updates refine a map of pages *)

(** The translation of the manager. *)
Definition translate s (va : Z) : option Z :=
  match page_table_walk m s va with Some (WalkPA pa) => Some pa | _ => None end.

Lemma translate_xl s T va : pt_inv s T -> in_u (va_width m) va ->
  translate s va = (fun r => leaf_pa m r.1 r.2 va) <$> xl s va.
Proof. intros HI Hv. unfold translate. rewrite (page_table_walk_xl s T) by done. by destruct (xl s va) as [[p l]|]. Qed.

Lemma xl_sound s T va p l : pt_inv s T -> xl s va = Some (p, l) -> in_u (ppn_width m) p /\ (l < L)%nat.
Proof.
  intros HI. pose proof (pv_tree s T HI) as HT. unfold xl.
  assert (HG : forall i t, tpath s va i t -> wk vx (ent s) va i t = Some (p, l) -> in_u (ppn_width m) p /\ (l < L)%nat).
  { induction i as [|i IH]; intros t Hpath; pose proof (path_level L N vx _ vx_range _ _ _ _ _ HT Hpath) as Ht;
      pose proof (path_lt L N vx _ vx_range _ _ _ _ L_pos Hpath); cbn [wk];
      match type of Ht with _ = Some ?i => pose proof (pv_good s T HI t _ _ Ht (vx_range va i)) as [_ Hg] end;
      destruct (ent s t _) as [|q|q] eqn:He; try done.
    - intros [= <- <-]. done.
    - apply IH. by eapply path_step.
    - intros [= <- <-]. done. }
  apply HG. constructor.
Qed.

Lemma vpn_width : va_width m - 12 = vpn_bits * Z.of_nat L /\ 12 <= va_width m <= 39.
Proof. unfold vpn_bits, L. destruct m; cbn; lia. Qed.

(** [update_page_table] on any state with room for the tables it may need. *)
Lemma update_refines s T ppn vpn flags ll extra : pt_inv s T ->
  in_u (ppn_width m) ppn -> in_u (va_width m - 12) vpn -> in_u 8 flags -> bit flags 0 = true -> bit flags 1 = true ->
  (ll < L)%nat -> pt_room (extra + (L - 1 - ll)) (page_table_mem_ s) = true -> no_table s (vpn * 4096) ll ->
  exists s' T' rc, update_page_table m s ppn vpn flags ll = Some (s', rc) /\ pt_inv s' T' /\ frame s s' /\
    pt_room extra (page_table_mem_ s') = true /\
    (forall vb l, in_u (va_width m) vb -> (l < L)%nat -> vpn * 4096 / page_bytes l <> vb / page_bytes l ->
      no_table s vb l -> no_table s' vb l) /\
    match translate s (vpn * 4096) with
    | Some pa => s' = s /\ rc = (if pa =? ppn * 4096 then 0 else -1)
    | None => rc = 0 /\ forall vb, in_u (va_width m) vb -> translate s' vb =
        if vb / page_bytes ll =? vpn * 4096 / page_bytes ll
        then Some (ppn * 4096 / page_bytes ll * page_bytes ll + vb mod page_bytes ll) else translate s vb
    end.
Proof.
  intros HI Hppn Hvpn Hfl F0 F1 Hll Hroom Hno. pose proof vpn_width as [HvL Hvw].
  assert (Hva : in_u (va_width m) (vpn * 4096)).
  { unfold in_u in *. replace (va_width m) with (va_width m - 12 + 12) by lia. rewrite Z.pow_add_r by lia. lia. }
  assert (Hva64 : u64 (Z.shiftl vpn VX_VM_PAGE_LOG2_SIZE) = vpn * 4096).
  { unfold VX_VM_PAGE_LOG2_SIZE. rewrite Z.shiftl_mul_pow2 by lia. apply wrap_small. unfold in_u in *. split; [lia|].
    eapply Z.lt_le_trans; [apply Hva|]. apply Z.pow_le_mono_r; lia. }
  unfold update_page_table. rewrite Hva64, vAddr_ok by done.
  assert (Hr : (match m with SV32 => (Z.shiftr ppn 20 =? 0) && (Z.shiftr vpn 20 =? 0) | SV39 => (Z.shiftr ppn 44 =? 0) && (Z.shiftr vpn 27 =? 0) end) = true).
  { unfold in_u, ppn_width, va_width in *. destruct m; apply andb_true_iff; split; apply Z.eqb_eq, shiftr_zero_iff; lia. }
  rewrite Hr. assert ((ll <? VX_VM_PT_LEVEL m)%nat = true) as -> by (by apply Nat.ltb_lt). cbn [negb orb mbind option_bind].
  change (VX_VM_PT_LEVEL m) with L.
  destruct (update_descends ppn vpn flags (vpn * 4096) ll Hppn Hfl F0 F1 (L - 1) s T (get_base_ppn s) 0 extra HI)
    as (s' & T' & rc & E & HI' & Hfr & Hrm & Hnt & Hpost); [constructor|lia|done|done|].
  exists s', T', rc. split; [done|]. split; [done|]. split; [done|]. split; [done|].
  split; [intros vb l Hvb Hl Hne; apply Hnt; by rewrite agree_iff by done|].
  rewrite (translate_xl s T) by done. fold (xl s (vpn * 4096)) in Hpost.
  destruct (xl s (vpn * 4096)) as [[p l]|] eqn:Ex; cbn [fmap option_fmap option_map fst snd].
  - destruct Hpost as [-> ->]. split; [done|]. destruct (xl_sound s T _ _ _ HI Ex) as [Hp Hl].
    rewrite page_of_leaf by done. destruct (Z.eqb_spec (page_of p l vpn) ppn) as [->|Hne]; [by rewrite Z.eqb_refl|].
    by rewrite (proj2 (Z.eqb_neq _ _)) by lia.
  - destruct Hpost as (-> & H1 & H2). split; [done|]. intros vb Hvb.
    rewrite (translate_xl s' T'), (translate_xl s T) by done.
    destruct (Z.eqb_spec (vb / page_bytes ll) (vpn * 4096 / page_bytes ll)) as [Heq|Hne].
    + rewrite H1 by (apply agree_iff; done). cbn. by rewrite leaf_pa_eq.
    + rewrite H2; [done|]. rewrite agree_iff by done. congruence.
Qed.

Lemma no_table_0 s T va : pt_inv s T -> no_table s va 0.
Proof.
  intros HI u p Hu He. pose proof (pv_tree s T HI) as HT. pose proof (path_level L N vx _ vx_range _ _ _ _ _ HT Hu) as Ht.
  pose proof (tr_ent _ _ _ _ _ HT u 0 (vx va 0) Ht (vx_range _ _)) as H. rewrite He in H. by destruct H as (? & ? & _).
Qed.

(** ** Changes that do not touch the tables *)

Definition same_tables s s' : Prop :=
  vm_satp_ s' = vm_satp_ s /\ page_table_mem_ s' = page_table_mem_ s /\ shadow_pt_ s' = shadow_pt_ s.

Lemma same_rd s s' : same_tables s s' -> forall t k, rd s' t k = rd s t k.
Proof. intros (_ & _ & E) t k. unfold rd, read_pte. by rewrite E. Qed.

Lemma same_inv s s' T : same_tables s s' -> pt_inv s T -> pt_inv s' T.
Proof.
  intros HS HI. pose proof (same_rd s s' HS) as HR. destruct HS as (E1 & E2 & E3).
  assert (HE : forall t k, ent s' t k = ent s t k) by (intros; unfold ent; by rewrite HR).
  assert (HB : get_base_ppn s' = get_base_ppn s) by (unfold get_base_ppn; by rewrite E1).
  constructor.
  - rewrite HB. eapply (tree_ext L N vx _ vx_range); [|apply HI]. intros t l k _ _. by rewrite HE.
  - intros t l Ht. unfold table_page. rewrite E3. by apply (pv_tab s T HI t l).
  - intros t l k Ht Hk. rewrite HR, HE. by apply (pv_good s T HI t l).
  - rewrite E3. apply HI.
  - rewrite E3. apply HI.
  - rewrite E2. apply HI.
  - unfold need_trans, get_mode. rewrite E1. apply HI.
Qed.

Lemma same_translate s s' va : same_tables s s' -> translate s' va = translate s va.
Proof.
  intros (E1 & E2 & E3). unfold translate, page_table_walk, need_trans, get_mode, get_base_ppn. rewrite E1.
  destruct (vm_satp_ s); [|done]. destruct (negb _); [done|]. destruct (vAddr_make m va) as [v|]; [|done]. cbn [mbind option_bind].
  assert (HW : forall i t, walk_from m s' (va_vpn v) i t = walk_from m s (va_vpn v) i t).
  { induction i as [|i IH]; intros t; cbn [walk_from]; unfold read_pte; rewrite E3; [done|].
    repeat (match goal with |- context [if ?b then _ else _] => destruct b end; [done|]). done || (destruct (_ && _); [apply IH|done]). }
  by rewrite HW.
Qed.

Lemma flags_ok access : let f := pte_flags_from_access access in in_u 8 f /\ bit f 0 = true /\ bit f 1 = true.
Proof. unfold pte_flags_from_access. cbv zeta. destruct (negb _); (split; [split; vm_compute; done|done]). Qed.

End Tables.
