(* ===== verification/VmMaps.v ===== *)
(** * What the page-table manager maps

    The root table, the identity maps of [install_identity_map] with their
    superpages, [VMManager::init], and the buffers of [phy_to_virt_map], as maps
    of bytes: each operation changes the translation on exactly the range it was
    asked for. *)

From S2P Require Import Prelude MemAlloc VmTypes Vm VmProofs.

Section Maps.
Context (m : vm_mode) {R : Type} (rng_draw : R -> Z -> Z * R).
Implicit Types (s : @VMManager R) (T : gmap Z nat).

Abbreviation L := (L m).
Abbreviation page_bytes := (page_bytes m).
Abbreviation vpn_bits := (vpn_bits m).

(** ** The root *)

(** The tree of a lone empty root. *)
Lemma root_tree E r : (0 < L)%nat -> (forall k, 0 <= k < 2 ^ vpn_bits -> E r k = EInv) ->
  tree L (2 ^ vpn_bits) r E {[r := (L - 1)%nat]}.
Proof.
  intros HL HE. assert (H : forall t l k, ({[r := (L - 1)%nat]} : gmap Z nat) !! t = Some l -> 0 <= k < 2 ^ vpn_bits -> E t k = EInv).
  { intros t l k Ht Hk. apply lookup_singleton_Some in Ht as [<- _]. auto. }
  constructor.
  - apply lookup_singleton_eq.
  - intros t l k Ht Hk. by rewrite (H t l k).
  - intros t1 l1 k1 t2 l2 k2 p H1 _ K1 _ E1 _. by rewrite (H t1 l1 k1) in E1.
  - intros t l k Ht Hk. by rewrite (H t l k).
Qed.

Lemma satp_trans s address satp : SATP_make m address 0 = Some satp -> vm_satp_ s = Some satp -> need_trans s = true.
Proof.
  intros Hm Hs. unfold need_trans, get_mode. rewrite Hs. cbn [from_option].
  unfold SATP_make in Hm. destruct m; [destruct (_ =? _)|]; by inversion Hm.
Qed.

(** A fresh root table maps nothing and hangs no table. *)
Lemma root_inv s s1 a satp : pt_store m s ∅ -> alloc_page_table s = Some (s1, Some a) -> SATP_make m a 0 = Some satp ->
  let s2 := s1 <| vm_satp_ := Some satp |> in
  exists T, pt_inv m s2 T /\ a = get_base_ppn s2 * 4096 /\
    (forall va, xl m s2 va = None) /\ (forall va l, no_table m s2 va l).
Proof.
  intros HS Ea Hm s2.
  destruct (alloc_table m s ∅ s1 a HS Ea) as (q & Eq & _ & Hqr & _ & _ & Hqp & Hq0 & _ & Hlen & Hmem & _).
  assert (Hb : get_base_ppn s2 = q).
  { unfold get_base_ppn, s2. rproj. cbn [from_option]. assert (satp_ppn satp = Z.shiftr a 12) as ->.
    { unfold SATP_make in Hm. destruct m; [destruct (_ =? _)|]; by inversion Hm. }
    rewrite Eq, Z.shiftr_div_pow2 by lia. change (2 ^ 12) with 4096. by rewrite Z.div_mul by lia. }
  assert (HE : forall k, 0 <= k < 2 ^ vpn_bits -> rd m s2 q k = 0) by (intros k Hk; rewrite <- (Hq0 k Hk); done).
  assert (HE' : forall k, 0 <= k < 2 ^ vpn_bits -> ent m s2 q k = EInv) by (intros k Hk; unfold ent; rewrite HE by done; apply ent_zero).
  assert (HT : forall t l, ({[q := (L - 1)%nat]} : gmap Z nat) !! t = Some l -> t = q) by (intros t l Ht; by apply lookup_singleton_Some in Ht as [<- _]).
  exists {[q := (L - 1)%nat]}. split; [constructor|split; [congruence|split]].
  - rewrite Hb. apply root_tree; [apply L_pos|done].
  - intros t l ->%HT. done.
  - intros t l k ->%HT Hk. rewrite HE, HE' by done. split; [apply ent_zero|done].
  - intros b pg Hb'. by apply (Hlen b pg).
  - intros b pg Hb'. by apply (Hlen b pg).
  - destruct Hmem as (A & HA & Hin & _ & Hc). exists A. split; [done|]. split; [|done]. intros t l ->%HT. by rewrite <- Eq.
  - by eapply satp_trans.
  - intros va. unfold xl. rewrite Hb. destruct (L - 1)%nat; cbn [wk]; by rewrite HE' by apply vx_range.
  - intros va l u p Hu. rewrite Hb in Hu. clear -Hu HE'. revert p. induction Hu as [|n u r Hu IH Hr]; intros p; [rewrite HE' by apply vx_range; done|].
    by apply IH in Hr.
Qed.

(** ** Identity maps *)

Lemma level_size_eq l : level_size m l = page_bytes l.
Proof.
  unfold level_size, VmProofs.page_bytes, VX_VM_PAGE_SIZE. rewrite Z.pow_add_r by (unfold VmProofs.vpn_bits; destruct m; lia).
  change 4096 with (2 ^ 12). f_equal. rewrite Z.pow_mul_r by (unfold VmProofs.vpn_bits; destruct m; lia).
  f_equal. by destruct m.
Qed.

Lemma page_bytes_page l : (4096 | page_bytes l).
Proof.
  unfold VmProofs.page_bytes. rewrite Z.pow_add_r by (unfold VmProofs.vpn_bits; destruct m; lia). apply Z.divide_factor_l.
Qed.

(** The level chosen for [cur]: its pages are aligned and fit. *)
Lemma pick_level_spec cur rem l : (4096 | cur) -> 4096 <= rem ->
  let k := pick_level m cur rem l in (k <= l)%nat /\ (page_bytes k | cur) /\ page_bytes k <= rem.
Proof.
  intros Hc Hr. assert (H0 : page_bytes 0 = 4096) by (unfold VmProofs.page_bytes; by rewrite Z.mul_0_r).
  induction l as [|l IH]; cbn zeta; cbn [pick_level]; [by rewrite H0|].
  rewrite level_size_eq. destruct (Z.eqb_spec (cur mod page_bytes (S l)) 0) as [Hm|]; cbn [andb].
  - destruct (Z.geb_spec rem (page_bytes (S l))); [|cbn zeta in IH; split_and!; [lia|apply IH..]].
    split_and!; [lia| |lia]. apply Z.mod_divide; [|done]. pose proof (page_bytes_pos m (S l)). lia.
  - cbn zeta in IH. split_and!; [lia|apply IH..].
Qed.

(** A range nothing is mapped in, with no table where a superpage of the range
    would be entered. *)
Definition free_range s (a b : Z) : Prop := forall va, a <= va < b -> (4096 | va) ->
  translate m s va = None /\ forall l, (l < L)%nat -> (page_bytes l | va) -> no_table m s va l.

(** How many tables the loop may need. *)
Fixpoint identity_tables (fuel : nat) (cur en : Z) : nat :=
  if negb (cur <? en) then 0
  else match fuel with
       | O => 0
       | S fuel => let l := pick_level m cur (en - cur) (L - 1) in (L - 1 - l) + identity_tables fuel (cur + page_bytes l) en
       end.

Lemma identity_flags : in_u 8 IDENTITY_PTE_FLAGS /\ bit IDENTITY_PTE_FLAGS 0 = true /\ bit IDENTITY_PTE_FLAGS 1 = true.
Proof. split; [split; vm_compute; done|done]. Qed.

Lemma aligned_apart a b l : (page_bytes l | b) -> a < b -> a / page_bytes l <> b / page_bytes l.
Proof.
  intros [k ->] Hlt. pose proof (page_bytes_pos m l). rewrite Z.div_mul by lia. intros E.
  pose proof (Z.mul_div_le a (page_bytes l) ltac:(lia)). pose proof (Z.mul_succ_div_gt a (page_bytes l) ltac:(lia)). nia.
Qed.

(** The loop of [install_identity_map] over a free range: every address of it
    is mapped to itself, and nothing else changes. *)
Lemma identity_spec fuel : forall s T cur en extra, pt_inv m s T -> (4096 | cur) -> (4096 | en) ->
  0 <= cur -> cur <= en -> en <= 2 ^ va_width m -> en <= 2 ^ pa_width m -> en - cur <= 4096 * Z.of_nat fuel ->
  pt_room (extra + identity_tables fuel cur en) (page_table_mem_ s) = true -> free_range s cur en ->
  exists s' T', identity_loop m fuel s cur en = Some (s', 0) /\ pt_inv m s' T' /\ frame s s' /\
    pt_room extra (page_table_mem_ s') = true /\
    (forall a b, en <= a -> b <= 2 ^ va_width m -> free_range s a b -> free_range s' a b) /\
    forall va, in_u (va_width m) va -> translate m s' va = if (cur <=? va) && (va <? en) then Some va else translate m s va.
Proof.
  induction fuel as [|fuel IH]; intros s T cur en extra HI Hc He H0 Hle Hva Hpa Hf Hroom Hfree; cbn [identity_loop].
  all: destruct (Z.ltb_spec cur en) as [Hlt|Hge]; cbn [negb].
  1: lia.
  1,3: (exists s, T; split; [done|]; split; [done|]; split; [apply frame_refl|]; split; [eapply pt_room_le; [|done]; lia|];
    split; [done|]; intros va _; destruct (Z.leb_spec cur va), (Z.ltb_spec va en); (lia || done)).
  cbn [identity_tables] in Hroom. rewrite (proj2 (Z.ltb_lt _ _) Hlt) in Hroom. cbn [negb] in Hroom.
  change (VX_VM_PT_LEVEL m) with L.
  destruct (pick_level_spec cur (en - cur) (L - 1) Hc) as (Hk & Hal & Hfit).
  { destruct Hc as [x ->], He as [y ->]. lia. }
  set (k := pick_level _ _ _ _) in *. clearbody k. rewrite level_size_eq. pose proof (page_bytes_pos m k) as HPk.
  assert (HkL : (k < L)%nat) by (pose proof (L_pos m); lia).
  assert (Hshift : Z.shiftr cur VX_VM_PAGE_LOG2_SIZE * 4096 = cur).
  { unfold VX_VM_PAGE_LOG2_SIZE. rewrite Z.shiftr_div_pow2 by lia. change (2 ^ 12) with 4096. destruct Hc as [x ->]. by rewrite Z.div_mul by lia. }
  assert (Hwid : 2 ^ va_width m <= 2 ^ 39 /\ 2 ^ va_width m = 2 ^ (va_width m - 12) * 4096 /\ 2 ^ pa_width m = 2 ^ ppn_width m * 4096)
    by (destruct m; split_and!; vm_compute; congruence).
  destruct identity_flags as (Hfl & F0 & F1). destruct (Hfree cur ltac:(lia) Hc) as [Hun Hno].
  destruct (update_refines m s T (Z.shiftr cur 12) (Z.shiftr cur 12) IDENTITY_PTE_FLAGS k (extra + identity_tables fuel (cur + page_bytes k) en) HI)
    as (s1 & T1 & rc & Eu & HI1 & Hfr1 & Hroom1 & Hnt1 & Hpost); unfold VX_VM_PAGE_LOG2_SIZE in *; rewrite ?Hshift; try done.
  { unfold in_u. lia. } { unfold in_u. lia. }
  { eapply pt_room_le; [|exact Hroom]. lia. }
  { by apply Hno. }
  rewrite Hshift in Hpost, Hnt1. rewrite Hun in Hpost. destruct Hpost as [-> Htr]. rewrite Eu. cbn [mbind option_bind negb Z.eqb].
  assert (Ecur : cur / page_bytes k * page_bytes k = cur) by (destruct Hal as [x ->]; by rewrite Z.div_mul by lia). rewrite Ecur in Htr.
  rewrite wrap_small by (unfold in_u; lia).
  assert (Hkeep : forall a b, cur + page_bytes k <= a -> b <= 2 ^ va_width m -> free_range s a b -> free_range s1 a b).
  { intros a b Ha Hb HF va Hin Hd. destruct (HF va Hin Hd) as [Hx Hy]. assert (Hv : in_u (va_width m) va) by (unfold in_u; lia). split.
    - rewrite Htr by done. rewrite (proj2 (Z.eqb_neq _ _)); [done|]. intros E.
      pose proof (Z.div_le_mono (cur + page_bytes k) va (page_bytes k) HPk ltac:(lia)) as Hm.
      replace (cur + page_bytes k) with (cur + 1 * page_bytes k) in Hm by lia. rewrite E, Z.div_add in Hm by lia. lia.
    - intros l Hl Hdl. apply Hnt1; [done|done| |by apply Hy]. by apply aligned_apart; [|lia]. }
  destruct (IH s1 T1 (cur + page_bytes k) en extra HI1) as (s' & T' & El & HI' & Hfr' & Hroom' & Hkeep' & Hall);
    [apply Z.divide_add_r; [done|apply page_bytes_page]|done|lia|lia|done|done| |done| |].
  { pose proof (page_bytes_page k) as [x Hx]. lia. }
  { apply Hkeep; [lia|lia|]. intros va Hin. apply Hfree. lia. }
  exists s', T'. split; [done|]. split; [done|]. split; [by eapply frame_trans|]. split; [done|]. split.
  { intros a b Ha Hb HF. apply Hkeep'; [done|done|]. apply Hkeep; [lia|done|done]. }
  intros va Hv. rewrite Hall, Htr by done.
  pose proof (Z.div_mod va (page_bytes k) ltac:(lia)) as Edm. pose proof (Z.mod_pos_bound va (page_bytes k) HPk).
  destruct (Z.eqb_spec (va / page_bytes k) (cur / page_bytes k)) as [E|E].
  - rewrite E in Edm. replace (cur + va mod page_bytes k) with va by lia.
    assert (cur <= va < cur + page_bytes k) by lia.
    destruct (Z.leb_spec cur va); [|lia]. destruct (Z.ltb_spec va en); [|lia]. cbn [andb]. by destruct (_ && _).
  - assert (~ cur <= va < cur + page_bytes k).
    { intros Hin. apply E. symmetry. apply Z.div_unique with (va - cur); [lia|]. lia. }
    destruct (Z.leb_spec (cur + page_bytes k) va), (Z.leb_spec cur va), (Z.ltb_spec va en); cbn [andb]; (done || lia).
Qed.

Lemma same_free s s' a b : same_tables s s' -> free_range s a b -> free_range s' a b.
Proof.
  intros HS HF va Hin Hd. destruct (HF va Hin Hd) as [Hx Hy]. rewrite (same_translate m s s') by done. split; [done|].
  intros l Hl Hdl. assert (HE : forall t k, ent m s' t k = ent m s t k) by (intros; unfold ent; by rewrite (same_rd m s s' HS)).
  assert (HB : get_base_ppn s' = get_base_ppn s) by (destruct HS as [E _]; unfold get_base_ppn; by rewrite E).
  intros u p Hu. rewrite HE. apply (Hy l Hl Hdl u p). rewrite HB in Hu. clear -Hu HE.
  induction Hu as [|n u r Hu IH Hr]; [constructor|]. eapply path_step; [done|]. by rewrite <- HE.
Qed.

(** ** Runs of pages *)

Lemma vx_page va i : vx m (va / 4096 * 4096) i = vx m va i.
Proof.
  unfold vx. rewrite Z.pow_add_r by (unfold VmProofs.vpn_bits; destruct m; lia). change (2 ^ 12) with 4096.
  by rewrite <- !Z.div_div, Z.div_mul by (try lia; apply Z.pow_pos_nonneg; unfold VmProofs.vpn_bits; destruct m; lia).
Qed.

Lemma page_va va : in_u (va_width m) va -> in_u (va_width m) (va / 4096 * 4096).
Proof. unfold in_u. intros Hv. pose proof (Z.div_mod va 4096 ltac:(lia)). pose proof (Z.mod_pos_bound va 4096 ltac:(lia)). lia. Qed.

(** An address and its page translate alike. *)
Lemma translate_page s T va : pt_inv m s T -> in_u (va_width m) va ->
  translate m s va = (fun pa => pa + va mod 4096) <$> translate m s (va / 4096 * 4096).
Proof.
  intros HI Hv. rewrite !(translate_xl m s T) by (done || by apply page_va).
  assert (xl m s (va / 4096 * 4096) = xl m s va) as ->.
  { unfold xl. generalize (L - 1)%nat (get_base_ppn s). intros i. induction i as [|i IH]; intros t; cbn [wk]; rewrite vx_page; [done|].
    destruct (ent m s t _); [done|apply IH|done]. }
  destruct (xl m s va) as [[p l]|] eqn:Ex; [|done]. cbn [fmap option_fmap option_map fst snd]. f_equal.
  destruct (xl_sound m s T _ _ _ HI Ex) as [Hp Hl]. rewrite !leaf_pa_eq by done.
  destruct (page_bytes_page l) as [K HK]. pose proof (page_bytes_pos m l) as HP. rewrite HK in *.
  rewrite (Z.mul_comm K 4096), !Z.rem_mul_r by lia. rewrite Z.mod_mul, Z.div_mul by lia. lia.
Qed.

(** Every recorded page is mapped where the record says. *)
Definition maps_ok s : Prop := forall ppn vpn, addr_mapping s !! ppn = Some vpn ->
  in_u (va_width m - 12) vpn /\ translate m s (vpn * 4096) = Some (ppn * 4096).

(** Page [j] of the run is recorded already, or neither recorded nor in use. *)
Definition page_ready s (bp bv j : Z) : Prop :=
  addr_mapping s !! (bp + j) = Some (bv + j) \/
  (addr_mapping s !! (bp + j) = None /\ translate m s ((bv + j) * 4096) = None).

Definition in_run (bv n va : Z) : bool := (bv <=? va / 4096) && (va / 4096 <? bv + n).

Lemma page_range v : in_u (va_width m - 12) v -> in_u (va_width m) (v * 4096).
Proof. unfold in_u. destruct m; cbn; lia. Qed.

Lemma record_page s s1 ppn vpn : maps_ok s -> translate m s (vpn * 4096) = None -> addr_mapping s !! ppn = None ->
  in_u (va_width m - 12) vpn -> addr_mapping s1 = <[ppn := vpn]> (addr_mapping s) ->
  (forall va, in_u (va_width m) va -> translate m s1 va = if va / 4096 =? vpn then Some (ppn * 4096 + va mod 4096) else translate m s va) ->
  maps_ok s1.
Proof.
  intros HM Hun Hno Hv Em Htr p v. rewrite Em. intros [[<- <-]|[Hne Hp]]%lookup_insert_Some.
  - split; [done|]. rewrite Htr by (by apply page_range). by rewrite Z.div_mul, Z.eqb_refl, Z.mod_mul, Z.add_0_r by lia.
  - destruct (HM p v Hp) as [Hr Ht]. split; [done|]. rewrite Htr by (by apply page_range). rewrite Z.div_mul by lia.
    destruct (Z.eqb_spec v vpn) as [->|]; [congruence|done].
Qed.

(** One round of the mapping loop of [phy_to_virt_map]. *)
Lemma map_page_ok bp bv flags a extra s T : pt_inv m s T -> maps_ok s -> in_u (ppn_width m) (bp + a) -> in_u (va_width m - 12) (bv + a) ->
  pt_room (extra + (L - 1)) (page_table_mem_ s) = true -> page_ready s bp bv a ->
  exists s1 T1, map_page m bp bv flags (Some s) a = Some s1 /\ pt_inv m s1 T1 /\ maps_ok s1 /\ vm_satp_ s1 = vm_satp_ s /\
    pt_room extra (page_table_mem_ s1) = true /\
    (forall j, a < j -> addr_mapping s1 !! (bp + j) = addr_mapping s !! (bp + j)) /\
    forall va, in_u (va_width m) va -> translate m s1 va =
      if va / 4096 =? bv + a then Some ((bp + a) * 4096 + va mod 4096) else translate m s va.
Proof.
  intros HI HM Hp Hv Hroom Hr.
  assert (Hwid : 2 ^ ppn_width m <= 2 ^ 44 /\ 2 ^ (va_width m - 12) <= 2 ^ 27) by (destruct m; vm_compute; split; congruence).
  unfold map_page. cbn [mbind option_bind]. rewrite (wrap_small 64 (bp + a)), (wrap_small 64 (bv + a)) by (unfold in_u in *; lia).
  destruct Hr as [Hr|[Hno Hun]].
  - rewrite Hr. exists s, T. split; [done|]. split; [done|]. split; [done|]. split; [done|]. split; [eapply pt_room_le; [|done]; lia|].
    split; [done|]. intros va Hva. destruct (Z.eqb_spec (va / 4096) (bv + a)) as [E|]; [|done].
    rewrite (translate_page s T) by done. destruct (HM _ _ Hr) as [_ Ht]. by rewrite E, Ht.
  - rewrite Hno. destruct (flags_ok flags) as (Hfl & F0 & F1). cbv zeta in Hfl, F0, F1.
    destruct (update_refines m s T (bp + a) (bv + a) (pte_flags_from_access flags) 0 extra HI)
      as (s1 & T1 & rc & -> & HI1 & Hfr & Hroom1 & _ & Hpost); try done; [apply L_pos| |by eapply no_table_0|].
    { by rewrite Nat.sub_0_r. }
    rewrite Hun in Hpost. destruct Hpost as [_ Htr]. cbn [mbind option_bind].
    assert (HB : page_bytes 0 = 4096) by (unfold VmProofs.page_bytes; by rewrite Z.mul_0_r). rewrite HB in Htr.
    set (s2 := s1 <| addr_mapping := _ |>). assert (HS : same_tables s1 s2) by done.
    assert (Htr2 : forall va, in_u (va_width m) va -> translate m s2 va =
      if va / 4096 =? bv + a then Some ((bp + a) * 4096 + va mod 4096) else translate m s va).
    { intros va Hva. rewrite (same_translate m s1 s2) by done. rewrite Htr by done. by rewrite !Z.div_mul by lia. }
    destruct Hfr as (Fs & _ & Fm & _).
    assert (Em : addr_mapping s2 = <[bp + a := bv + a]> (addr_mapping s)) by (subst s2; rproj; by rewrite Fm).
    exists s2, T1. split; [done|]. split; [by eapply same_inv|]. split; [by eapply record_page|]. split; [by subst s2; rproj|].
    split; [done|]. split; [|done]. intros j Hj. rewrite Em. by rewrite lookup_insert_ne by lia.
Qed.

(** The mapping loop of [phy_to_virt_map]. *)
Lemma map_run bp bv flags n : forall a s T, pt_inv m s T -> maps_ok s -> 0 <= bp + a -> 0 <= bv + a ->
  bp + a + Z.of_nat n <= 2 ^ ppn_width m -> bv + a + Z.of_nat n <= 2 ^ (va_width m - 12) ->
  pt_room (n * (L - 1)) (page_table_mem_ s) = true ->
  (forall j, a <= j < a + Z.of_nat n -> page_ready s bp bv j) ->
  exists s' T', fold_left (map_page m bp bv flags) (seqZ a (Z.of_nat n)) (Some s) = Some s' /\ pt_inv m s' T' /\
    maps_ok s' /\ vm_satp_ s' = vm_satp_ s /\
    forall va, in_u (va_width m) va -> translate m s' va =
      if in_run (bv + a) (Z.of_nat n) va then Some ((bp + (va / 4096 - bv)) * 4096 + va mod 4096) else translate m s va.
Proof.
  induction n as [|n IH]; intros a s T HI HM H1 H2 H3 H4 Hroom Hready.
  { exists s, T. split; [done|]. split; [done|]. split; [done|]. split; [done|]. intros va Hva. unfold in_run.
    destruct (Z.leb_spec (bv + a) (va / 4096)), (Z.ltb_spec (va / 4096) (bv + a + Z.of_nat 0)); cbn [andb]; (lia || done). }
  assert (Hwid : 2 ^ ppn_width m <= 2 ^ 44 /\ 2 ^ (va_width m - 12) <= 2 ^ 27) by (destruct m; vm_compute; split; congruence).
  rewrite seqZ_cons by lia. cbn [fold_left].
  destruct (map_page_ok bp bv flags a (n * (L - 1)) s T HI HM) as (s1 & T1 & E1 & HI1 & HM1 & Hs1 & Hroom1 & Hmap1 & Htr1);
    [unfold in_u; lia..|eapply pt_room_le; [|done]; lia|apply Hready; lia|]. rewrite E1.
  replace (Z.pred (Z.of_nat (S n))) with (Z.of_nat n) by lia.
  destruct (IH (Z.succ a) s1 T1) as (s' & T' & Hf & HI' & HM' & Hsat & Hall); try lia; try done.
  { intros j Hj. unfold page_ready. rewrite Hmap1 by lia. destruct (Hready j ltac:(lia)) as [|[? Hun]]; [by left|]. right. split; [done|].
    rewrite Htr1 by (apply page_range; unfold in_u; lia). rewrite Z.div_mul by lia. by rewrite (proj2 (Z.eqb_neq _ _)) by lia. }
  exists s', T'. split; [done|]. split; [done|]. split; [done|]. split; [congruence|].
  intros va Hva. rewrite Hall, Htr1 by done. unfold in_run.
  destruct (Z.eqb_spec (va / 4096) (bv + a)) as [Heq|Hne].
  - rewrite Heq. destruct (Z.leb_spec (bv + Z.succ a) (bv + a)); [lia|]. destruct (Z.leb_spec (bv + a) (bv + a)); [|lia].
    destruct (Z.ltb_spec (bv + a) (bv + a + Z.of_nat (S n))); [|lia]. cbn [andb]. do 3 f_equal. lia.
  - destruct (Z.leb_spec (bv + Z.succ a) (va / 4096)), (Z.leb_spec (bv + a) (va / 4096)); try lia; cbn [andb]; [|done].
    by replace (bv + Z.succ a + Z.of_nat n) with (bv + a + Z.of_nat (S n)) by lia.
Qed.

(** Choosing virtual addresses leaves the tables and the record alone. *)
Definition same_maps s s' : Prop := same_tables s s' /\ addr_mapping s' = addr_mapping s /\ dirty_pt_pages_ s' = dirty_pt_pages_ s.

Lemma random_va_same fuel : forall s n sl sz s' r, random_va m rng_draw fuel s n sl sz = Some (s', r) -> same_maps s s'.
Proof.
  induction fuel as [|fuel IH]; intros s n sl sz s' r; cbn [random_va]; [by intros [= <- _]|].
  destruct (rng_draw _ _) as [off g]. destruct (existsb _ _); [intros H; by apply IH in H|].
  destruct (ma_reserve _ _ _) as [[v [|]]|]; cbn [mbind option_bind]; [by intros [= <- _]| |done].
  intros H; by apply IH in H.
Qed.

Lemma base_vpn_same s bp n size s' bv : base_vpn_of m rng_draw s bp n size = Some (s', bv) -> same_maps s s'.
Proof.
  assert (HA : forall s s1 v, allocate_va s size 0 = Some (s1, v) -> same_maps s s1).
  { intros s0 s1 v. unfold allocate_va. destruct (ma_allocate _ _) as [[vm r]|]; [|done]. cbn. by intros [= <- _]. }
  unfold base_vpn_of, pick_va. destruct (addr_mapping s !! bp); [by intros [= <- _]|].
  destruct (randomize_va_ s).
  - destruct (random_va _ _ _ _ _ _ _) as [[s1 [va|]]|] eqn:Er; cbn [mbind option_bind]; [| |done]; apply random_va_same in Er.
    + by intros [= <- _].
    + destruct (allocate_va s1 size 0) as [[s2 v]|] eqn:Ea; cbn [mbind option_bind]; [|done]. apply HA in Ea. intros [= <- _].
      destruct Er as ((?&?&?)&?&?), Ea as ((?&?&?)&?&?). unfold same_maps, same_tables. split_and!; congruence.
  - destruct (allocate_va s size 0) as [[s2 v]|] eqn:Ea; cbn [mbind option_bind]; [|done]. apply HA in Ea. by intros [= <- _].
Qed.

Lemma num_pages_eq size : 0 <= size < 2 ^ 63 -> num_pages_of size = (size + 4095) / 4096.
Proof.
  intros. unfold num_pages_of, VX_VM_PAGE_SIZE, VX_VM_PAGE_LOG2_SIZE. rewrite Z.shiftr_div_pow2, wrap_small by (unfold in_u; lia).
  change (2 ^ 12) with 4096. f_equal. lia.
Qed.

Lemma splice_page v pa : 0 <= v < 2 ^ 52 -> 0 <= pa ->
  Z.lor (u64 (Z.shiftl v VX_VM_PAGE_LOG2_SIZE)) (Z.land pa (Z.shiftl 1 VX_VM_PAGE_LOG2_SIZE - 1)) = v * 4096 + pa mod 4096.
Proof.
  intros Hv Hp. unfold VX_VM_PAGE_LOG2_SIZE. change (Z.shiftl 1 12 - 1) with (Z.ones 12). rewrite Z.land_ones by lia.
  rewrite Z.shiftl_mul_pow2, wrap_small by (unfold in_u; lia). change (2 ^ 12) with 4096. apply lor_add_disjoint.
  apply Z.bits_inj'. intros i Hi. rewrite Z.land_spec, Z.bits_0. destruct (Z.ltb_spec i 12).
  - replace (v * 4096) with (v * 2 ^ 12) by lia. by rewrite Z.mul_pow2_bits_low by lia.
  - change 4096 with (2 ^ 12) at 2. by rewrite Z.mod_pow2_bits_high, andb_false_r by lia.
Qed.

End Maps.
