(* ===== verification/VmDevice.v ===== *)
(** * Host mappings as the device sees them

    The manager of [Vm] writes its dirty table pages to device memory; the
    command processor of [CmdProc] walks them there.  After a buffer has been
    mapped, the two translate every address alike, and every byte of the buffer
    to its physical place. *)

From S2P Require Import Prelude MemAlloc VmTypes CmdProc Vm VmProofs VmMaps.

(** ** The start of [init] *)

(** The two allocators of [init]. *)
Definition init_tables (m : vm_mode) : MemoryAllocator :=
  MemoryAllocator_init VX_MEM_PAGE_TABLE_BASE_ADDR (VX_VM_PT_SIZE_LIMIT m) VX_VM_PAGE_SIZE CACHE_BLOCK_SIZE.
Definition init_vas (m : vm_mode) : MemoryAllocator :=
  MemoryAllocator_init ALLOC_BASE_ADDR (GLOBAL_MEM_SIZE m - ALLOC_BASE_ADDR) VX_VM_PAGE_SIZE CACHE_BLOCK_SIZE.

(** The system area at the bottom, the table area and what lies above it. *)
Definition system_va (m : vm_mode) (va : Z) : bool :=
  (va <? VX_MEM_USER_BASE_ADDR) || (VX_MEM_PAGE_TABLE_BASE_ADDR <=? va) && (va <? GLOBAL_MEM_SIZE m).

Definition init_tables_needed (m : vm_mode) : nat :=
  identity_tables m (Z.to_nat (VX_MEM_USER_BASE_ADDR / 4096 + 1)) 0 (0 + VX_MEM_USER_BASE_ADDR) +
  identity_tables m (Z.to_nat ((GLOBAL_MEM_SIZE m - VX_MEM_PAGE_TABLE_BASE_ADDR) / 4096 + 1)) VX_MEM_PAGE_TABLE_BASE_ADDR
    (VX_MEM_PAGE_TABLE_BASE_ADDR + (GLOBAL_MEM_SIZE m - VX_MEM_PAGE_TABLE_BASE_ADDR)).

Lemma init_root m : exists pm, ma_allocate (init_tables m) 4096 = Some (pm, Some VX_MEM_PAGE_TABLE_BASE_ADDR) /\
  pt_room (init_tables_needed m) pm = true.
Proof.
  assert (H : match ma_allocate (init_tables m) 4096 with
              | Some (pm, Some a) => (a =? VX_MEM_PAGE_TABLE_BASE_ADDR) && pt_room (init_tables_needed m) pm
              | _ => false
              end = true) by (destruct m; vm_compute; reflexivity).
  destruct (ma_allocate (init_tables m) 4096) as [[pm [a|]]|]; [|done|done].
  apply andb_true_iff in H as [->%Z.eqb_eq H]. by exists pm.
Qed.

Lemma init_reserves m : exists v1 b1 v2 b2, ma_reserve (init_vas m) 0 VX_MEM_USER_BASE_ADDR = Some (v1, b1) /\
  ma_reserve v1 VX_MEM_PAGE_TABLE_BASE_ADDR (GLOBAL_MEM_SIZE m - VX_MEM_PAGE_TABLE_BASE_ADDR) = Some (v2, b2).
Proof.
  assert (H : match ma_reserve (init_vas m) 0 VX_MEM_USER_BASE_ADDR with
              | Some (v1, _) => bool_decide (is_Some (ma_reserve v1 VX_MEM_PAGE_TABLE_BASE_ADDR (GLOBAL_MEM_SIZE m - VX_MEM_PAGE_TABLE_BASE_ADDR)))
              | _ => false
              end = true) by (destruct m; vm_compute; reflexivity).
  destruct (ma_reserve (init_vas m) _ _) as [[v1 b1]|]; [|done].
  apply bool_decide_eq_true in H as [[v2 b2] H]. by exists v1, b1, v2, b2.
Qed.

Lemma init_tables_rep m : tables_rep (init_tables m) [].
Proof.
  split; [apply init_rep|]. split; [|split; [constructor|]].
  - unfold ma_config, init_tables, MemoryAllocator_init. rproj.
    destruct m; (split_and!; try (vm_compute; congruence)); by apply Z.mod_divide.
  - cbn. split; [by apply Z.mod_divide|by destruct m].
Qed.

Section Sync.
Context (m : vm_mode) {R : Type} (rng_draw : R -> Z -> Z * R).
Context {D : Type} (rd : D -> Z -> Z -> list Z) (wr : D -> Z -> list Z -> D) {M : FlatMem rd wr}.
Implicit Types (s : @VMManager R) (d : D).

(** ** Dirty pages *)

(** Only pages that are dirty afterwards have changed. *)
Definition dirties s s' : Prop := forall a, (a ∉ dirty_pt_pages_ s') -> (a ∉ dirty_pt_pages_ s) /\ shadow_pt_ s' !! a = shadow_pt_ s !! a.

Lemma dirties_refl s : dirties s s.
Proof. by intros a Ha. Qed.

Lemma dirties_trans s1 s2 s3 : dirties s1 s2 -> dirties s2 s3 -> dirties s1 s3.
Proof. intros H1 H2 a Ha. destruct (H2 a Ha) as [Hb E]. destruct (H1 a Hb) as [Hc E']. split; [done|congruence]. Qed.

Lemma dirties_write s a v : dirties s (write_pte m s a v).
Proof.
  intros b. unfold write_pte, touch_pt_page. rproj. rewrite not_elem_of_union, not_elem_of_singleton.
  intros [Hne Hb]. split; [done|]. by rewrite !lookup_insert_ne by done.
Qed.

Lemma dirties_alloc s s' r : alloc_page_table s = Some (s', r) -> dirties s s'.
Proof.
  unfold alloc_page_table. destruct (ma_allocate _ _) as [[pm [a|]]|]; cbn [mbind option_bind]; [| |done].
  - unfold touch_pt_page. intros [= <- <-] b. rproj. rewrite not_elem_of_union, not_elem_of_singleton.
    intros [Hne Hb]. split; [done|]. by rewrite !lookup_insert_ne by done.
  - intros [= <- <-]. by intros b Hb.
Qed.

Lemma dirties_update ppn vpn flags ll vpns i : forall s t pt s' rc,
  update_from m s ppn vpn flags ll vpns i t pt = Some (s', rc) -> dirties s s'.
Proof.
  induction i as [|i IH]; intros s t pt s' rc; cbn [update_from].
  all: destruct (_ && _); [intros [= <- _]; apply dirties_refl|].
  all: destruct (_ && _); [(intros [= <- _]; apply dirties_refl) || (apply IH)|].
  all: destruct (_ =? _)%nat; [destruct (PTE_make _ _ _); cbn [mbind option_bind]; [intros [= <- _]; apply dirties_write|done]|].
  all: destruct (alloc_page_table s) as [[s1 r]|] eqn:Ea; cbn [mbind option_bind]; [|done].
  all: destruct (PTE_make _ _ _); cbn [mbind option_bind]; [|done].
  - intros [= <- _]. eapply dirties_trans; [by eapply dirties_alloc|apply dirties_write].
  - intros H. eapply dirties_trans; [by eapply dirties_alloc|]. eapply dirties_trans; [apply dirties_write|by eapply IH].
Qed.

Lemma dirties_page_table s ppn vpn flags ll s' rc : update_page_table m s ppn vpn flags ll = Some (s', rc) -> dirties s s'.
Proof.
  unfold update_page_table. destruct (_ || _); [done|]. destruct (vAddr_make m _); [|done]. cbn [mbind option_bind]. apply dirties_update.
Qed.

Lemma dirties_map bp bv flags l : forall s s', fold_left (map_page m bp bv flags) l (Some s) = Some s' -> dirties s s'.
Proof.
  induction l as [|i l IH]; intros s s'; cbn [fold_left]; [intros [= <-]; apply dirties_refl|].
  destruct (map_page m bp bv flags (Some s) i) as [s1|] eqn:E.
  - intros H. eapply dirties_trans; [|by apply IH]. unfold map_page in E. cbn [mbind option_bind] in E.
    destruct (addr_mapping s !! _); [injection E as <-; apply dirties_refl|].
    destruct (update_page_table _ _ _ _ _ _) as [[s2 rc]|] eqn:Eu; [|done]. injection E as <-.
    eapply dirties_trans; [by eapply dirties_page_table|]. by intros a Ha.
  - intros H. exfalso. clear -H. induction l; cbn in H; [discriminate H|auto].
Qed.

(** ** Device memory holds the clean pages *)

Definition synced s d : Prop := forall a page, shadow_pt_ s !! a = Some page -> (a ∉ dirty_pt_pages_ s) ->
  forall o, 0 <= o < 4096 -> mget d (a + o) = default 0 (page !! Z.to_nat o).

Lemma synced_dirties s s' d : synced s d -> dirties s s' -> synced s' d.
Proof. intros HS HD a page Ha Hn. destruct (HD a Hn) as [Hn' E]. apply HS; [congruence|done]. Qed.

Lemma flush_reads (sh : gmap Z (list Z)) l : (forall a page, sh !! a = Some page -> length page = 4096%nat /\ (4096 | a)) ->
  forall d a page o, sh !! a = Some page -> 0 <= o < 4096 ->
  mget (fold_left (fun d pa => wr d pa (default [] (sh !! pa))) l d) (a + o) =
    if decide (a ∈ l) then default 0 (page !! Z.to_nat o) else mget d (a + o).
Proof.
  intros Hsh. induction l as [|b l IH]; intros d a page o Ha Ho; cbn [fold_left].
  { rewrite decide_False; [done|]. apply not_elem_of_nil. }
  rewrite (IH _ a page) by done. destruct (decide (a ∈ l)) as [Hin|Hin].
  { rewrite decide_True; [done|]. by right. }
  rewrite flat_write. destruct (Hsh a page Ha) as [Hl [x ->]].
  destruct (decide (x * 4096 = b)) as [<-|Hne].
  - rewrite decide_True by left. rewrite Ha. cbn [default from_option id]. rewrite Hl.
    destruct (Z.leb_spec (x * 4096) (x * 4096 + o)); [|lia]. destruct (Z.ltb_spec (x * 4096 + o) (x * 4096 + Z.of_nat 4096)); [|lia].
    cbn [andb]. by replace (x * 4096 + o - x * 4096) with o by lia.
  - rewrite decide_False by (rewrite elem_of_cons; tauto).
    destruct (sh !! b) as [pb|] eqn:Eb; cbn [default from_option id].
    + destruct (Hsh b pb Eb) as [Hlb [y ->]]. rewrite Hlb.
      destruct (Z.leb_spec (y * 4096) (x * 4096 + o)), (Z.ltb_spec (x * 4096 + o) (y * 4096 + Z.of_nat 4096)); cbn [andb]; try done.
      exfalso. assert (x = y) by lia. congruence.
    + cbn [length id]. destruct (Z.leb_spec b (x * 4096 + o)), (Z.ltb_spec (x * 4096 + o) (b + Z.of_nat 0)); cbn [andb]; try done. lia.
Qed.

Lemma flush_synced s T d : pt_inv m s T -> synced s d ->
  synced (flush wr s d).1 (flush wr s d).2 /\ same_tables s (flush wr s d).1 /\ dirty_pt_pages_ (flush wr s d).1 = ∅.
Proof.
  intros HI HS. split; [|done]. intros a page Ha _ o Ho. unfold flush in *. rproj.
  rewrite (flush_reads (shadow_pt_ s) _ (fun a pg H => conj (pv_len m s T HI a pg H) (pv_key m s T HI a pg H)) d a page o Ha Ho).
  destruct (decide _) as [|Hn]; [done|]. apply HS; [done| |done]. by rewrite <- elem_of_elements.
Qed.

(** ** Identity maps and initialisation *)

Lemma dirties_identity fuel : forall s cur en s' rc, identity_loop m fuel s cur en = Some (s', rc) -> dirties s s'.
Proof.
  induction fuel as [|fuel IH]; intros s cur en s' rc; cbn [identity_loop];
    (destruct (negb _); [intros [= <- _]; apply dirties_refl|]); [done|].
  destruct (update_page_table _ _ _ _ _ _) as [[s1 e]|] eqn:Eu; cbn [mbind option_bind]; [|done].
  pose proof (dirties_page_table _ _ _ _ _ _ _ Eu) as HD. destruct (negb _); [by intros [= <- _]|].
  intros H. eapply dirties_trans; [done|by eapply IH].
Qed.

(** What both parts of [init] establish: tables in device memory that translate
    as [tr] says. *)
Definition mapped s d (tr : Z -> option Z) : Prop :=
  (exists T, pt_inv m s T) /\ synced s d /\ dirty_pt_pages_ s = ∅ /\
  forall va, in_u (va_width m) va -> translate m s va = tr va.

Lemma install_identity_ok s T d addr size extra vm ok : pt_inv m s T -> synced s d ->
  ma_reserve (virtual_mem_ s) addr size = Some (vm, ok) ->
  (4096 | addr) -> (4096 | size) -> 0 <= addr -> 0 <= size -> addr + size <= 2 ^ va_width m -> addr + size <= 2 ^ pa_width m ->
  pt_room (extra + identity_tables m (Z.to_nat (size / 4096 + 1)) addr (addr + size)) (page_table_mem_ s) = true ->
  free_range m s addr (addr + size) ->
  exists s' d', install_identity_map m wr s d addr size = Some (s', d', 0) /\
    mapped s' d' (fun va => if (addr <=? va) && (va <? addr + size) then Some va else translate m s va) /\
    frame (s <| virtual_mem_ := vm |>) s' /\ pt_room extra (page_table_mem_ s') = true /\
    forall a b, addr + size <= a -> b <= 2 ^ va_width m -> free_range m s a b -> free_range m s' a b.
Proof.
  intros HI HS Er Ha Hz H0 Hsz Hva Hpa Hroom Hfree. unfold install_identity_map. rewrite Er. cbn [mbind option_bind].
  set (s1 := s <| virtual_mem_ := vm |>). assert (HT1 : same_tables s s1) by done.
  assert (2 ^ va_width m <= 2 ^ 39) by (destruct m; vm_compute; congruence). rewrite wrap_small by (unfold in_u; lia).
  change VX_VM_PAGE_SIZE with 4096.
  destruct (identity_spec m (Z.to_nat (size / 4096 + 1)) s1 T addr (addr + size) extra)
    as (s2 & T2 & El & HI2 & Hfr & Hroom2 & Hkeep & Htr); try done; try lia.
  { by eapply same_inv. } { by apply Z.divide_add_r. }
  { destruct Hz as [x ->]. rewrite Z.div_mul by lia. lia. }
  { by eapply same_free. }
  rewrite El. cbn [mbind option_bind Z.eqb negb].
  assert (HS2 : synced s2 d) by (eapply synced_dirties; [|by eapply dirties_identity]; exact HS).
  destruct (flush_synced s2 T2 d HI2 HS2) as (HS3 & HT3 & Hd3). destruct (flush wr s2 d) as [s3 d3] eqn:Ef. cbn [fst snd] in *.
  exists s3, d3. split; [done|]. split; [|split; [|split]].
  - split; [exists T2; by eapply same_inv|]. split; [done|]. split; [done|]. intros va Hv.
    rewrite (same_translate m s2 s3) by done. rewrite Htr by done. by rewrite (same_translate m s s1) by done.
  - unfold flush in Ef. injection Ef as <- _. exact Hfr.
  - unfold flush in Ef. injection Ef as <- _. exact Hroom2.
  - intros a b Hab Hb HF. eapply same_free; [done|]. apply Hkeep; [done|done|]. by eapply same_free.
Qed.

(** The root register the manager built. *)
Definition satp_ok s : Prop := exists addr satp, SATP_make m addr 0 = Some satp /\ vm_satp_ s = Some satp /\ in_u (pa_width m) addr.

(** [init] once the root is installed. *)
Definition init_maps s d : option (VMManager * D * Z) :=
  '(s, d, err) ← install_identity_map m wr s d 0 VX_MEM_USER_BASE_ADDR;
  if negb (err =? 0) then Some (s, d, err)
  else
    '(s, d, err) ← install_identity_map m wr s d VX_MEM_PAGE_TABLE_BASE_ADDR (GLOBAL_MEM_SIZE m - VX_MEM_PAGE_TABLE_BASE_ADDR);
    if negb (err =? 0) then Some (s, d, err) else let '(s, d) := flush wr s d in Some (s, d, 0).

Lemma init_widths : 2 ^ va_width m <= 2 ^ 39 /\ GLOBAL_MEM_SIZE m <= 2 ^ va_width m <= 2 ^ pa_width m /\
  VX_MEM_USER_BASE_ADDR <= VX_MEM_PAGE_TABLE_BASE_ADDR <= GLOBAL_MEM_SIZE m /\ 0 < VX_MEM_USER_BASE_ADDR /\
  (4096 | VX_MEM_USER_BASE_ADDR) /\ (4096 | VX_MEM_PAGE_TABLE_BASE_ADDR) /\ (4096 | GLOBAL_MEM_SIZE m).
Proof. destruct m; (split_and!; try (by apply Z.mod_divide); vm_compute; congruence). Qed.

Lemma init_start rng rnd d : exists s T pm, vm_init m wr (VMManager_init rng rnd) d = init_maps s d /\
  pt_inv m s T /\ synced s d /\ satp_ok s /\ addr_mapping s = ∅ /\ virtual_mem_ s = init_vas m /\
  page_table_mem_ s = pm /\ pt_room (init_tables_needed m) pm = true /\
  (forall va, xl m s va = None) /\ (forall va l, no_table m s va l).
Proof.
  destruct (init_root m) as (pm & Ea & Hroom). unfold vm_init.
  match goal with |- context [alloc_page_table ?x] => set (s0 := x) end.
  assert (Es0 : page_table_mem_ s0 = init_tables m /\ virtual_mem_ s0 = init_vas m /\ shadow_pt_ s0 = ∅ /\ addr_mapping s0 = ∅)
    by (split_and!; try done; subst s0; by destruct m). clearbody s0. destruct Es0 as (E1 & E2 & E3 & E4).
  assert (HS0 : pt_store m s0 ∅).
  { constructor; rewrite ?E3; [by intros ? ? ?%lookup_empty_Some..|]. exists []. rewrite E1. split; [apply init_tables_rep|].
    split; [by intros t l ?%lookup_empty_Some|]. destruct m; vm_compute; congruence. }
  assert (Eal : exists s1, alloc_page_table s0 = Some (s1, Some VX_MEM_PAGE_TABLE_BASE_ADDR) /\
    page_table_mem_ s1 = pm /\ virtual_mem_ s1 = init_vas m /\ addr_mapping s1 = ∅).
  { unfold alloc_page_table. rewrite E1. change VX_VM_PT_SIZE with 4096. rewrite Ea. cbn [mbind option_bind]. unfold touch_pt_page.
    eexists. split; [reflexivity|]. by rproj. }
  destruct Eal as (s1 & Eal & F1 & F2 & F3). pose proof (dirties_alloc _ _ _ Eal) as F4. rewrite Eal. cbn [mbind option_bind].
  destruct (satp_encode m VX_MEM_PAGE_TABLE_BASE_ADDR 0) as (satp & Hsatp & _); [destruct m; vm_compute; split; congruence..|].
  destruct (root_inv m s0 s1 _ satp HS0 Eal Hsatp) as (T & HI & _ & Hun & Hnt).
  rewrite Hsatp. cbn [mbind option_bind]. do 3 eexists. split; [reflexivity|]. split; [exact HI|]. split; [|split; [|rproj; done]].
  - intros a page Hp Hn. destruct (F4 a Hn) as [_ E]. rproj. rewrite E, E3 in Hp. by apply lookup_empty_Some in Hp.
  - exists VX_MEM_PAGE_TABLE_BASE_ADDR, satp. split; [done|]. split; [by rproj|]. destruct m; vm_compute; split; congruence.
Qed.

Lemma init_identity rng rnd d : exists s' d', vm_init m wr (VMManager_init rng rnd) d = Some (s', d', 0) /\
  mapped s' d' (fun va => if system_va m va then Some va else None) /\ satp_ok s' /\ addr_mapping s' = ∅.
Proof.
  destruct (init_start rng rnd d) as (s & T & pm & -> & HI & HS & Hsatp & Hmap & Hvm & Hpm & Hroom & Hun & Hnt).
  destruct (init_reserves m) as (v1 & b1 & v2 & b2 & Er1 & Er2). unfold init_tables_needed in Hroom. unfold init_maps, system_va.
  destruct init_widths as (W1 & [W2 W3] & [W4 W5] & W6 & W7 & W8 & W9).
  set (A := VX_MEM_USER_BASE_ADDR) in *. set (B := VX_MEM_PAGE_TABLE_BASE_ADDR) in *. set (C := GLOBAL_MEM_SIZE m) in *. clearbody A B C.
  assert (Hfree : forall a b, 0 <= a -> b <= 2 ^ va_width m -> free_range m s a b).
  { intros a b Ha0 Hb va Hin _. split; [|by intros]. rewrite (translate_xl m s T) by (done || unfold in_u; lia). by rewrite Hun. }
  destruct (install_identity_ok s T d 0 A (identity_tables m (Z.to_nat ((C - B) / 4096 + 1)) B (B + (C - B))) v1 b1 HI HS)
    as (s3 & d3 & -> & ((T3 & HI3) & HS3 & Hd3 & Htr3) & (Fs3 & Fv3 & Fm3 & _) & Hroom3 & Hkeep3);
    try lia; try done; [congruence|apply Z.divide_0_r|rewrite Hpm; eapply pt_room_le; [|exact Hroom]; lia|apply Hfree; lia|].
  cbn [mbind option_bind Z.eqb negb]. rproj.
  destruct (install_identity_ok s3 T3 d3 B (C - B) 0 v2 b2 HI3 HS3)
    as (s4 & d4 & -> & ((T4 & HI4) & HS4 & Hd4 & Htr4) & (Fs4 & Fv4 & Fm4 & _) & _);
    try lia; try done; [congruence|by apply Z.divide_sub_r|apply Hkeep3; [lia|lia|apply Hfree; lia]|].
  cbn [mbind option_bind Z.eqb negb].
  destruct (flush_synced s4 T4 d4 HI4 HS4) as (HS5 & HT5 & Hd5). destruct (flush wr s4 d4) as [s5 d5] eqn:Ef. cbn [fst snd] in *.
  change (vm_satp_ s3 = vm_satp_ s) in Fs3. change (vm_satp_ s4 = vm_satp_ s3) in Fs4.
  change (addr_mapping s3 = addr_mapping s) in Fm3. change (addr_mapping s4 = addr_mapping s3) in Fm4.
  assert (Em : addr_mapping s5 = addr_mapping s4) by (unfold flush in Ef; by injection Ef as <- _).
  exists s5, d5. split; [unfold flush in Ef; by injection Ef as <- <-|]. split; [|split; [|congruence]].
  - split; [exists T4; by eapply same_inv|]. split; [done|]. split; [done|]. intros va Hv. pose proof Hv as [Hv0 _].
    rewrite (same_translate m s4 s5), Htr4, Htr3, (translate_xl m s T), Hun by done. cbn [fmap option_fmap option_map].
    replace (B + (C - B)) with C by lia. rewrite (proj2 (Z.leb_le 0 va) Hv0), Z.add_0_l. cbn [andb].
    by destruct (va <? A), ((B <=? va) && (va <? C)).
  - destruct Hsatp as (a & satp & Hm & Hs & Ha). exists a, satp. split; [done|]. split; [|done].
    destruct HT5 as [-> _]. congruence.
Qed.

(** ** Buffers *)

Lemma map_buffer_ok s T d size pa flags s1 bv : pt_inv m s T -> maps_ok m s -> synced s d ->
  let bp := pa / 4096 in let n := num_pages_of size in
  0 <= pa -> 0 < size < 2 ^ 63 -> bp + n <= 2 ^ ppn_width m -> 0 <= bv -> bv + n <= 2 ^ (va_width m - 12) ->
  base_vpn_of m rng_draw s bp n size = Some (s1, bv) -> (forall j, 0 <= j < n -> page_ready m s bp bv j) ->
  pt_room (Z.to_nat n * (L m - 1)) (page_table_mem_ s) = true ->
  exists s' d', phy_to_virt_map m rng_draw wr s d size pa flags = Some (s', d', bv * 4096 + pa mod 4096) /\
    mapped s' d' (fun va => if in_run bv n va then Some ((bp + (va / 4096 - bv)) * 4096 + va mod 4096) else translate m s va) /\
    maps_ok m s' /\ vm_satp_ s' = vm_satp_ s.
Proof.
  intros HI HM HS bp n Hpa Hsz Hbp Hbv Hbv' Hvpn Hready Hroom. subst bp n.
  destruct (base_vpn_same m rng_draw _ _ _ _ _ _ Hvpn) as (HT1 & Hm1 & Hd1).
  assert (Hn : 0 < num_pages_of size) by (rewrite num_pages_eq by lia; apply Z.div_str_pos; lia). remember (num_pages_of size) as n eqn:En.
  assert (Htr1 : forall va, translate m s1 va = translate m s va) by (intros; by apply same_translate).
  pose proof (map_run m (pa / 4096) bv flags (Z.to_nat n) 0 s1 T) as HR. rewrite Z2Nat.id, !Z.add_0_r in HR by lia.
  destruct HR as (s2 & T2 & Hf & HI2 & HM2 & Hs2 & Htr2); try done.
  { by eapply same_inv. } { intros p v. rewrite Hm1, Htr1. apply HM. } { apply Z.div_pos; lia. }
  { destruct HT1 as (_ & -> & _). done. } { intros j Hj. unfold page_ready. rewrite Hm1, Htr1. apply Hready. lia. }
  assert (Hw : 2 ^ (va_width m - 12) <= 2 ^ 27 /\ 2 ^ va_width m = 2 ^ (va_width m - 12) * 4096) by (destruct m; vm_compute; split; congruence).
  assert (Esh : Z.shiftr pa VX_VM_PAGE_LOG2_SIZE = pa / 4096) by (unfold VX_VM_PAGE_LOG2_SIZE; by rewrite Z.shiftr_div_pow2 by lia).
  pose proof (Z.mod_pos_bound pa 4096 ltac:(lia)) as Hoff.
  assert (Hdiv : (bv * 4096 + pa mod 4096) / 4096 = bv) by (rewrite Z.div_add_l by lia; rewrite Z.div_small by lia; lia).
  assert (Hmod : (bv * 4096 + pa mod 4096) mod 4096 = pa mod 4096) by (rewrite Z.add_comm, Z.mod_add by lia; by rewrite Z.mod_mod by lia).
  assert (Hv : in_u (va_width m) (bv * 4096 + pa mod 4096)) by (unfold in_u; lia).
  assert (Hwalk : page_table_walk m s2 (bv * 4096 + pa mod 4096) = Some (WalkPA pa)).
  { specialize (Htr2 _ Hv). unfold in_run in Htr2. rewrite Hdiv, Hmod in Htr2.
    rewrite (proj2 (Z.leb_le bv bv)), (proj2 (Z.ltb_lt bv (bv + n))) in Htr2 by lia. cbn [andb] in Htr2.
    unfold translate in Htr2. destruct (page_table_walk m s2 _) as [[p| |]|]; [|done..]. injection Htr2 as ->.
    do 2 f_equal. pose proof (Z.div_mod pa 4096 ltac:(lia)). lia. }
  unfold phy_to_virt_map. rewrite (pv_trans m s T HI), <- En, Esh, Hvpn. cbn [negb mbind option_bind].
  rewrite splice_page, Hf by lia. cbn [mbind option_bind]. rewrite Hwalk, Z.eqb_refl. cbn [negb].
  assert (HS2 : synced s2 d).
  { eapply synced_dirties; [|by eapply dirties_map]. destruct HT1 as (_ & _ & Esh1). intros a page. rewrite Esh1, Hd1. apply HS. }
  destruct (flush_synced s2 T2 d HI2 HS2) as (HS3 & HT3 & Hd3). destruct (flush wr s2 d) as [s3 d3] eqn:Ef. cbn [fst snd] in *.
  assert (Em : addr_mapping s3 = addr_mapping s2) by (unfold flush in Ef; by injection Ef as <- _).
  exists s3, d3. split; [done|]. split; [|split].
  - split; [exists T2; by eapply same_inv|]. split; [done|]. split; [done|]. intros va Hva.
    rewrite (same_translate m s2 s3), Htr2 by done. by rewrite Htr1.
  - intros p v. rewrite Em, (same_translate m s2 s3) by done. apply HM2.
  - destruct HT3 as [-> _], HT1 as [E _]. congruence.
Qed.

(** ** The command processor walks the same tables *)

Lemma entry_bytes s T d t l k : pt_inv m s T -> synced s d -> dirty_pt_pages_ s = ∅ -> T !! t = Some l -> 0 <= k < 2 ^ vpn_bits m ->
  le_word (rd d (pte_addr m t k) (VX_VM_PTE_SIZE m)) = VmProofs.rd m s t k.
Proof.
  intros HI HS Hd Ht Hk. destruct (pv_tab m s T HI t l Ht) as [Htr (page & Hp & Hl & Hb)].
  rewrite (rd_page m s t k page) by done. f_equal. rewrite flat_read. destruct (pte_addr_at m t k Htr Hk) as [-> _].
  pose proof (entry_bounds m k Hk) as HB. unfold entry_off, entry_size in *.
  assert (HW : 0 < VX_VM_PTE_SIZE m) by (destruct m; cbn; lia).
  apply list_eq. intros i. rewrite list_lookup_fmap. destruct (decide (i < Z.to_nat (VX_VM_PTE_SIZE m))%nat) as [Hi|Hi].
  - rewrite lookup_seqZ_lt by lia. cbn [fmap option_fmap option_map]. rewrite lookup_take_lt, lookup_drop by done.
    rewrite <- Z.add_assoc. rewrite (HS _ page Hp) by (rewrite ?Hd; set_solver || lia).
    replace (Z.to_nat (k * VX_VM_PTE_SIZE m + Z.of_nat i)) with (Z.to_nat (k * VX_VM_PTE_SIZE m) + i)%nat by lia.
    destruct (lookup_lt_is_Some_2 page (Z.to_nat (k * VX_VM_PTE_SIZE m) + i)%nat) as [x Hx]; [lia|]. by rewrite Hx.
  - rewrite lookup_seqZ_ge by lia. by rewrite lookup_take_ge by lia.
Qed.

Context (c : cp_cfg) (h : Hooks D).
Context (HVM : VM_ENABLE c = true) (HM : VM_MODE c = m) (Hrd : dram_read h = Some rd).
#[local] Set Default Proof Using "All".

Lemma cp_walk s T d va i : pt_inv m s T -> synced s d -> dirty_pt_pages_ s = ∅ -> forall t, path (L m) (vx m) (get_base_ppn s) (ent m s) va i t ->
  pt_walk c h d (va_vpn (vAddr_fields m va)) i t = wk (vx m) (ent m s) va i t.
Proof.
  intros HI HS Hd. pose proof (pv_tree m s T HI) as HT. induction i as [|i IH]; intros t Hpath;
    (pose proof (path_level (L m) _ (vx m) _ (vx_range m) _ _ _ _ _ HT Hpath) as Ht;
     pose proof (path_lt (L m) _ (vx m) _ (vx_range m) _ _ _ _ (L_pos m) Hpath) as HiL;
     cbn [pt_walk wk]; rewrite Hrd, HM, vpn_nth by done;
     match type of Ht with _ = Some ?i =>
       change (u64 (t * VX_VM_PT_SIZE + vx m va i * VX_VM_PTE_SIZE m)) with (pte_addr m t (vx m va i));
       rewrite (entry_bytes s T d t i (vx m va i)) by (done || apply vx_range);
       pose proof (pv_good m s T HI t _ _ Ht (vx_range m va i)) as [Hg _] end;
     pose proof (ent_bits m _ Hg) as Hc; cbv zeta in Hc).
  all: change (ent_of m (VmProofs.rd m ?s ?t ?k)) with (ent m s t k) in Hc.
  all: match type of Hc with context [match ?x with _ => _ end] => destruct x as [|p|p] eqn:He end.
  1,4: by rewrite Hc.
  1,3: destruct Hc as (-> & -> & -> & -> & ->); cbn [negb andb].
  3,4: by destruct Hc as (-> & -> & ->).
  - done.
  - apply IH. by eapply path_step.
Qed.

Lemma cp_translate_host s T d p va : pt_inv m s T -> synced s d -> dirty_pt_pages_ s = ∅ -> satp_ok s ->
  satp_ p = vm_satp s -> in_u (va_width m) va ->
  cp_translate c h p d va false = default va (translate m s va).
Proof.
  intros HI HS Hd (addr & satp & Hm & Hs & Ha) Hp Hv.
  destruct (satp_encode m addr 0 Ha) as (satp' & Hm' & Hmode & Hnb & _ & Hppn & _); [destruct m; cbn; unfold in_u; lia|].
  rewrite Hm in Hm'. injection Hm' as <-. unfold cp_translate. rewrite HVM, HM. cbn [negb orb].
  assert (Esatp : satp_ p = satp_satp satp) by (rewrite Hp; unfold vm_satp; by rewrite Hs).
  assert (Hnz : (satp_ p =? 0) = false).
  { rewrite Esatp. apply Z.eqb_neq. intros E. rewrite E in Hnb. destruct m; vm_compute in Hnb; done. }
  rewrite Hnz, Esatp. rewrite (proj2 (Z.eqb_neq _ _) Hnb), Hppn.
  assert (Eb : satp_ppn satp = get_base_ppn s) by (unfold get_base_ppn; by rewrite Hs). rewrite Eb.
  change (VX_VM_PT_LEVEL m) with (L m). rewrite (cp_walk s T d va _ HI HS Hd _ (path_root _ _ _ _ _)).
  rewrite (translate_xl m s T) by done. fold (xl m s va). destruct (xl m s va) as [[q l]|]; [|done].
  cbn [fmap option_fmap option_map default from_option fst snd id]. unfold leaf_pa. assert (VPN_BITS c = VM_VPN_BITS m) as -> by (unfold VPN_BITS; rewrite HM; destruct m; reflexivity). done.
Qed.

End Sync.

(** ** Claims *)

Section Claims.
Context (m : vm_mode) {R : Type} (rng_draw : R -> Z -> Z * R).
Context {D : Type} (rd : D -> Z -> Z -> list Z) (wr : D -> Z -> list Z -> D) {M : FlatMem rd wr}.
Implicit Types (s : @VMManager R) (d : D).

(** C29 (refinement): updating the page table implements a map of pages.  On any well-formed table tree with
    room for the tables it may need and no table yet at the place of the requested superpage, with flags that
    make the page valid and readable, [update_page_table] succeeds; a page that is mapped already is left as it
    is and the return value tells whether it has the wanted frame; otherwise exactly the page, or the superpage
    of the requested level, now translates to the frame, every other address translates as before, and the tree
    stays well formed. *)
Theorem vm_update_refines s T ppn vpn flags ll : pt_inv m s T ->
  in_u (ppn_width m) ppn -> in_u (va_width m - 12) vpn -> in_u 8 flags -> bit flags 0 = true -> bit flags 1 = true ->
  (ll < VX_VM_PT_LEVEL m)%nat -> pt_room (VX_VM_PT_LEVEL m - 1 - ll) (page_table_mem_ s) = true -> no_table m s (vpn * 4096) ll ->
  exists s' T' rc, update_page_table m s ppn vpn flags ll = Some (s', rc) /\ pt_inv m s' T' /\
    match translate m s (vpn * 4096) with
    | Some pa => s' = s /\ rc = (if pa =? ppn * 4096 then 0 else -1)
    | None => rc = 0 /\ forall vb, in_u (va_width m) vb -> translate m s' vb =
        if vb / page_bytes m ll =? vpn * 4096 / page_bytes m ll
        then Some (ppn * 4096 / page_bytes m ll * page_bytes m ll + vb mod page_bytes m ll) else translate m s vb
    end.
Proof.
  intros HI H1 H2 H3 H4 H5 H6 H7 H8.
  destruct (update_refines m s T ppn vpn flags ll 0 HI H1 H2 H3 H4 H5 H6 H7 H8) as (s' & T' & rc & E & HI' & _ & _ & _ & Hp).
  by exists s', T', rc.
Qed.

(** C30 (functional): initialisation of the page tables.  From a new manager and any device memory, [init] returns
    zero; the tables are then well formed and in device memory, nothing is left to flush, and the translation is
    the identity on the system area, the table area and the area above it, and undefined elsewhere. *)
Theorem vm_init_identity rng rnd d : exists s' d', vm_init m wr (VMManager_init rng rnd) d = Some (s', d', 0) /\
  (exists T, pt_inv m s' T) /\ synced rd wr s' d' /\ dirty_pt_pages_ s' = ∅ /\ satp_ok m s' /\ maps_ok m s' /\
  forall va, in_u (va_width m) va -> translate m s' va = if system_va m va then Some va else None.
Proof.
  destruct (init_identity m rd wr rng rnd d) as (s' & d' & E & (HI & HS & Hd & Htr) & Hsatp & Hm).
  exists s', d'. split_and!; try done. intros p v. by rewrite Hm, lookup_empty.
Qed.

(** C7 (refinement): mapping a buffer.  When each page of the run chosen for it is recorded already or unused, and
    there is room for the tables, [phy_to_virt_map] passes its own check, pushes the tables to the device and
    returns an address from which every byte of the mapped pages is reached, on the host and by the command
    processor's walk of device memory alike; all other addresses translate as before. *)
Theorem vm_map_buffer (c : cp_cfg) (h : Hooks D) s T d size pa flags s1 bv :
  VM_ENABLE c = true -> VM_MODE c = m -> dram_read h = Some rd ->
  pt_inv m s T -> maps_ok m s -> synced rd wr s d -> satp_ok m s ->
  let n := num_pages_of size in
  0 <= pa -> 0 < size < 2 ^ 63 -> pa / 4096 + n <= 2 ^ ppn_width m -> 0 <= bv -> bv + n <= 2 ^ (va_width m - 12) ->
  base_vpn_of m rng_draw s (pa / 4096) n size = Some (s1, bv) -> (forall j, 0 <= j < n -> page_ready m s (pa / 4096) bv j) ->
  pt_room (Z.to_nat n * (VX_VM_PT_LEVEL m - 1)) (page_table_mem_ s) = true ->
  exists s' d' va, phy_to_virt_map m rng_draw wr s d size pa flags = Some (s', d', va) /\ va = bv * 4096 + pa mod 4096 /\
    (exists T', pt_inv m s' T') /\ maps_ok m s' /\ synced rd wr s' d' /\ satp_ok m s' /\
    (forall x, 0 <= x -> pa mod 4096 + x < n * 4096 ->
      translate m s' (va + x) = Some (pa + x) /\
      forall p, satp_ p = vm_satp s -> cp_translate c h p d' (va + x) false = pa + x) /\
    (forall v, in_u (va_width m) v -> ~ bv <= v / 4096 < bv + n -> translate m s' v = translate m s v).
Proof.
  intros HV HMo Hrd HI HM HS Hsatp n Hpa Hsz Hbp Hbv Hbv' Hvpn Hready Hroom.
  destruct (map_buffer_ok m rng_draw rd wr s T d size pa flags s1 bv HI HM HS) as (s' & d' & E & ((T' & HI') & HS' & Hd' & Htr) & HM' & Hs'); try done.
  fold n in Htr. assert (Hw : 2 ^ va_width m = 2 ^ (va_width m - 12) * 4096) by (destruct m; reflexivity).
  assert (Hsatp' : satp_ok m s') by (destruct Hsatp as (a & st & ? & ? & ?); exists a, st; split_and!; congruence).
  exists s', d'. eexists. split; [exact E|]. split; [done|]. split; [by exists T'|]. split; [done|]. split; [done|]. split; [done|]. split.
  - intros x Hx Hxn. pose proof (Z.mod_pos_bound pa 4096 ltac:(lia)) as Ho. pose proof (Z.div_mod pa 4096 ltac:(lia)) as Ep.
    assert (Hv : in_u (va_width m) (bv * 4096 + pa mod 4096 + x)) by (unfold in_u; lia).
    assert (Et : translate m s' (bv * 4096 + pa mod 4096 + x) = Some (pa + x)).
    { rewrite Htr by done. replace (bv * 4096 + pa mod 4096 + x) with (bv * 4096 + (pa mod 4096 + x)) by lia. unfold in_run.
      rewrite Z.div_add_l by lia. pose proof (Z.div_pos (pa mod 4096 + x) 4096 ltac:(lia) ltac:(lia)).
      pose proof (Z.div_lt_upper_bound (pa mod 4096 + x) 4096 n ltac:(lia) ltac:(lia)).
      rewrite (proj2 (Z.leb_le _ _)), (proj2 (Z.ltb_lt _ _)) by lia. cbn [andb].
      rewrite (Z.add_comm (bv * 4096)), Z.mod_add by lia. pose proof (Z.div_mod (pa mod 4096 + x) 4096 ltac:(lia)). f_equal. lia. }
    split; [done|]. intros p Hp. rewrite (cp_translate_host m rng_draw rd wr c h HV HMo Hrd s' T' d' p) by (done || unfold vm_satp in *; congruence).
    by rewrite Et.
  - intros v Hv Hout. rewrite Htr by done. unfold in_run.
    destruct (Z.leb_spec bv (v / 4096)), (Z.ltb_spec (v / 4096) (bv + n)); cbn [andb]; (done || lia).
Qed.

(** C31 (error): the assertion of [phy_to_virt_map].  When the virtual address allocator hands a buffer of at most a
    page an address in a page that is mapped to another frame, the update is refused, the refusal is dropped, and
    the closing check fails: the operation does not return.  [virtual_mem_] allocates in units of 64 bytes and is
    never told of pages shared by later buffers, so the situation arises from three plain allocations. *)
Theorem vm_map_collision s T d size pa flags s1 bv q : pt_inv m s T ->
  0 <= pa -> 0 < size <= 4096 -> pa / 4096 < 2 ^ ppn_width m -> in_u (va_width m - 12) bv ->
  base_vpn_of m rng_draw s (pa / 4096) 1 size = Some (s1, bv) -> addr_mapping s !! (pa / 4096) = None ->
  pt_room (VX_VM_PT_LEVEL m - 1) (page_table_mem_ s) = true -> translate m s (bv * 4096) = Some q -> q <> pa / 4096 * 4096 ->
  phy_to_virt_map m rng_draw wr s d size pa flags = None.
Proof.
  intros HI Hpa Hsz Hbp Hbv Hvpn Hno Hroom Htr Hq. destruct (base_vpn_same m rng_draw _ _ _ _ _ _ Hvpn) as (HT1 & Hm1 & _).
  assert (Hn : num_pages_of size = 1) by (rewrite num_pages_eq by lia; symmetry; apply Z.div_unique with (size - 1); lia).
  assert (Esh : Z.shiftr pa VX_VM_PAGE_LOG2_SIZE = pa / 4096) by (unfold VX_VM_PAGE_LOG2_SIZE; by rewrite Z.shiftr_div_pow2 by lia).
  pose proof (same_inv m s s1 T HT1 HI) as HI1. pose proof (same_translate m s s1 (bv * 4096) HT1) as Htr1.
  assert (Hw : 2 ^ (va_width m - 12) <= 2 ^ 27 /\ 2 ^ va_width m = 2 ^ (va_width m - 12) * 4096 /\ 2 ^ ppn_width m <= 2 ^ 44)
    by (destruct m; vm_compute; split_and!; congruence).
  pose proof (Z.mod_pos_bound pa 4096 ltac:(lia)) as Ho. pose proof (Z.div_pos pa 4096 Hpa ltac:(lia)).
  unfold phy_to_virt_map. rewrite (pv_trans m s T HI), Hn, Esh, Hvpn. cbn [negb mbind option_bind].
  rewrite splice_page by (unfold in_u in *; lia). change (seqZ 0 1) with [0]. cbn [fold_left].
  unfold map_page. cbn [mbind option_bind]. rewrite !Z.add_0_r. rewrite !wrap_small by (unfold in_u in *; lia). rewrite Hm1, Hno.
  destruct (flags_ok flags) as (Hfl & F0 & F1). cbv zeta in Hfl, F0, F1.
  destruct (update_refines m s1 T (pa / 4096) bv (pte_flags_from_access flags) 0 0 HI1)
    as (s2 & T2 & rc & -> & HI2 & _ & _ & _ & Hpost); try done; [apply L_pos| |by eapply no_table_0|].
  { rewrite Nat.sub_0_r. destruct HT1 as (_ & -> & _). exact Hroom. }
  rewrite Htr1, Htr in Hpost. destruct Hpost as [-> _]. cbn [mbind option_bind].
  match goal with |- context [page_table_walk m ?x _] => set (s3 := x) end. assert (HT3 : same_tables s1 s3) by done.
  assert (Ht3 : translate m s3 (bv * 4096 + pa mod 4096) = Some (q + pa mod 4096)).
  { rewrite (same_translate m s1 s3), (same_translate m s s1) by done. rewrite (translate_page m s T) by (done || unfold in_u in *; lia).
    rewrite Z.div_add_l, (Z.div_small (pa mod 4096)), Z.add_0_r, Htr by lia. cbn. f_equal.
    rewrite Z.add_comm, (Z.add_comm (bv * 4096)), Z.mod_add, Z.mod_mod by lia. lia. }
  unfold translate in Ht3. destruct (page_table_walk m s3 _) as [[p| |]|]; [|done..]. injection Ht3 as ->.
  rewrite (proj2 (Z.eqb_neq _ _)); [done|]. pose proof (Z.div_mod pa 4096 ltac:(lia)). lia.
Qed.

End Claims.

(** ** Concrete runs *)

Module VmDemo.
Import CmdProc.Demo.

(** A generator that never draws: the addresses are not randomised. *)
Definition no_rng (u : unit) (n : Z) : Z * unit := (0, u).
Definition mgr : @VMManager unit := VMManager_init tt false.
Definition mem0 : Z -> Z := fun _ => 0.

(** A manager and a device after [init]. *)
Definition booted (m : vm_mode) : @VMManager unit * (Z -> Z) :=
  match vm_init m flat_wr mgr mem0 with Some (s, d, _) => (s, d) | None => (mgr, mem0) end.

Lemma booted_ok m : exists T, pt_inv m (booted m).1 T /\ synced flat_rd flat_wr (booted m).1 (booted m).2 /\
  satp_ok m (booted m).1 /\ maps_ok m (booted m).1 /\
  dirty_pt_pages_ (booted m).1 = ∅ /\
  forall va, in_u (va_width m) va -> translate m (booted m).1 va = if system_va m va then Some va else None.
Proof.
  destruct (init_identity m flat_rd flat_wr tt false mem0) as (s & d & E & ((T & HI) & HS & Hd & Htr) & Hsatp & Hm).
  unfold booted, mgr. rewrite E. exists T. cbn [fst snd]. split_and!; try done. intros p v. by rewrite Hm, lookup_empty.
Qed.

(** One page in the free part of the address space. *)
Lemma vm_update_refines_witness : exists s', update_page_table SV39 (booted SV39).1 0x40 0x12345 0x7 0 = Some (s', 0) /\
  translate SV39 s' 0x12345678 = Some 0x40678.
Proof.
  assert (Hr : pt_room 2 (page_table_mem_ (booted SV39).1) = true) by (vm_compute; reflexivity).
  pose proof (booted_ok SV39) as Hok. revert Hr Hok. generalize (booted SV39). intros [s d] Hr (T & HI & _ & _ & _ & _ & Htr). cbn [fst] in *.
  destruct (vm_update_refines SV39 s T 0x40 0x12345 0x7 0 HI) as (s' & T' & rc & E & _ & Hp);
    [split; vm_compute; congruence|split; vm_compute; congruence|split; vm_compute; congruence|reflexivity|reflexivity|cbn; lia|exact Hr|by eapply no_table_0|].
  rewrite Htr in Hp by (split; vm_compute; congruence). destruct Hp as [-> Hp]. exists s'. split; [exact E|].
  rewrite Hp by (split; vm_compute; congruence). reflexivity.
Defined.

(** Two pages at 0x40000, a virtual run at the first free address. *)
Lemma vm_map_buffer_witness : exists s' d', phy_to_virt_map SV39 no_rng flat_wr (booted SV39).1 (booted SV39).2 8000 0x40080 2 = Some (s', d', 0x10080) /\
  translate SV39 s' 0x11234 = Some 0x41234 /\
  forall p, satp_ p = vm_satp (booted SV39).1 -> cp_translate cfg hooks p d' 0x11234 false = 0x41234.
Proof.
  assert (Hr : pt_room 4 (page_table_mem_ (booted SV39).1) = true) by (vm_compute; reflexivity).
  assert (Hb : match base_vpn_of SV39 no_rng (booted SV39).1 0x40 2 8000 with Some (_, v) => v =? 0x10 | None => false end = true)
    by (vm_compute; reflexivity).
  assert (Hm : addr_mapping (booted SV39).1 = ∅) by (vm_compute; reflexivity).
  pose proof (booted_ok SV39) as Hok. revert Hr Hb Hm Hok. generalize (booted SV39).
  intros [s d] Hr Hb Hm (T & HI & HS & Hsatp & HM & _ & Htr). cbn [fst snd] in *.
  destruct (base_vpn_of SV39 no_rng s 0x40 2 8000) as [[s1 bv]|] eqn:Eb; [|done]. apply Z.eqb_eq in Hb as ->.
  destruct (vm_map_buffer SV39 no_rng flat_rd flat_wr cfg hooks s T d 8000 0x40080 2 s1 0x10)
    as (s' & d' & va & E & -> & _ & _ & _ & _ & Hx & _);
    [reflexivity|reflexivity|reflexivity|exact HI|exact HM|exact HS|exact Hsatp|lia|lia|vm_compute; congruence|lia|vm_compute; congruence|exact Eb| |exact Hr|].
  { change (num_pages_of 8000) with 2. intros j Hj. right. rewrite Hm. split; [apply lookup_empty|]. rewrite Htr by (unfold in_u; cbn; lia).
    assert (j = 0 \/ j = 1) as [-> | ->] by lia; reflexivity. }
  exists s', d'. split; [exact E|]. exact (Hx 0x11b4 ltac:(lia) ltac:(vm_compute; reflexivity)).
Defined.

(** A 64-byte buffer, one that shares its physical page, and a third on the
    next page: the third gets a virtual address in the page of the first. *)
Definition with_buffer (sd : @VMManager unit * (Z -> Z)) (size pa : Z) : @VMManager unit * (Z -> Z) :=
  match phy_to_virt_map SV39 no_rng flat_wr sd.1 sd.2 size pa 0 with Some (s, d, _) => (s, d) | None => sd end.
Definition shared1 := with_buffer (booted SV39) 64 0x10000.
Definition shared2 := with_buffer shared1 4032 0x10040.

Lemma with_buffer_ok sd T size pa s1 bv : pt_inv SV39 sd.1 T -> maps_ok SV39 sd.1 -> synced flat_rd flat_wr sd.1 sd.2 ->
  0 <= pa < 2 ^ 32 -> 0 < size <= 4096 -> base_vpn_of SV39 no_rng sd.1 (pa / 4096) 1 size = Some (s1, bv) -> 0 <= bv < 2 ^ 20 ->
  page_ready SV39 sd.1 (pa / 4096) bv 0 -> pt_room 2 (page_table_mem_ sd.1) = true ->
  exists T', pt_inv SV39 (with_buffer sd size pa).1 T' /\ maps_ok SV39 (with_buffer sd size pa).1 /\
    synced flat_rd flat_wr (with_buffer sd size pa).1 (with_buffer sd size pa).2.
Proof.
  intros HI HM HS Hpa Hsz Hvpn Hbv Hready Hroom.
  assert (Hn : num_pages_of size = 1) by (rewrite num_pages_eq by lia; symmetry; apply Z.div_unique with (size - 1); lia).
  assert (pa / 4096 < 2 ^ 20) by (apply Z.div_lt_upper_bound; lia).
  destruct (map_buffer_ok SV39 no_rng flat_rd flat_wr sd.1 T sd.2 size pa 0 s1 bv HI HM HS) as (s' & d' & E & ((T' & HI') & HS' & _) & HM' & _);
    rewrite ?Hn; try done; try lia; [cbn; lia..|intros j Hj; assert (j = 0) as -> by lia; done|].
  unfold with_buffer. rewrite E. by exists T'.
Qed.

Lemma vm_map_collision_witness : phy_to_virt_map SV39 no_rng flat_wr shared2.1 shared2.2 64 0x11000 0 = None.
Proof.
  assert (H1 : exists T, pt_inv SV39 shared1.1 T /\ maps_ok SV39 shared1.1 /\ synced flat_rd flat_wr shared1.1 shared1.2).
  { destruct (booted_ok SV39) as (T & HI & HS & _ & HM & _ & _).
    assert (Hb : match base_vpn_of SV39 no_rng (booted SV39).1 0x10 1 64 with Some (_, v) => v =? 0x10 | None => false end = true) by (vm_compute; reflexivity).
    destruct (base_vpn_of SV39 no_rng (booted SV39).1 0x10 1 64) as [[s1 bv]|] eqn:Eb; [|done]. apply Z.eqb_eq in Hb as ->.
    eapply (with_buffer_ok (booted SV39) T 64 0x10000); [exact HI|exact HM|exact HS|lia|lia|exact Eb|lia| |vm_compute; reflexivity].
    right. split; vm_compute; reflexivity. }
  assert (H2 : exists T, pt_inv SV39 shared2.1 T).
  { destruct H1 as (T & HI & HM & HS).
    assert (Hb : match base_vpn_of SV39 no_rng shared1.1 0x10 1 4032 with Some (_, v) => v =? 0x10 | None => false end = true) by (vm_compute; reflexivity).
    destruct (base_vpn_of SV39 no_rng shared1.1 0x10 1 4032) as [[s1 bv]|] eqn:Eb; [|done]. apply Z.eqb_eq in Hb as ->.
    destruct (with_buffer_ok shared1 T 4032 0x10040 s1 0x10) as (T' & HI' & _); [exact HI|exact HM|exact HS|lia|lia|exact Eb|lia| |vm_compute; reflexivity|by exists T'].
    left. vm_compute. reflexivity. }
  destruct H2 as (T & HI).
  assert (Hb : match base_vpn_of SV39 no_rng shared2.1 0x11 1 64 with Some (_, v) => v =? 0x10 | None => false end = true) by (vm_compute; reflexivity).
  destruct (base_vpn_of SV39 no_rng shared2.1 0x11 1 64) as [[s1 bv]|] eqn:Eb; [|done]. apply Z.eqb_eq in Hb as ->.
  apply (vm_map_collision SV39 no_rng flat_wr shared2.1 T shared2.2 64 0x11000 0 s1 0x10 0x10000);
    [exact HI|lia|lia|vm_compute; reflexivity|split; vm_compute; congruence|exact Eb|vm_compute; reflexivity|vm_compute; reflexivity|vm_compute; reflexivity|vm_compute; congruence].
Defined.

End VmDemo.
