(* ===== verification/MemTypes.v ===== *)
(** * Memory requests and channels

    The request and response packets of [sim/simx/types.h] that the MMU, the
    caches and the memory exchange, and the channel ends they are carried by. *)

From S2P Require Import Prelude.

(** ** Memory requests *)

Inductive MemOp :=
| MLD | MST | MFLUSH | MAMO_LR | MAMO_SC | MAMO_SWAP | MAMO_ADD | MAMO_AND | MAMO_OR | MAMO_XOR | MAMO_MIN | MAMO_MAX.

Definition memop_is_atomic (op : MemOp) : bool := match op with MLD | MST | MFLUSH => false | _ => true end.
Definition memop_is_amo_rmw (op : MemOp) : bool :=
  match op with
  | MAMO_SWAP | MAMO_ADD | MAMO_AND | MAMO_OR | MAMO_XOR | MAMO_MIN | MAMO_MAX => true
  | _ => false
  end.
Definition memop_is_write (op : MemOp) : bool :=
  match op with MST | MAMO_SC => true | _ => memop_is_amo_rmw op end.

Record MemReq := {
  rq_op : MemOp; rq_addr : Z; rq_data : option (list Z); rq_byteen : Z;
  rq_tag : Z; rq_hart_id : Z; rq_uuid : Z; rq_flags : Z
}.
Record MemRsp := { rs_tag : Z; rs_hart_id : Z; rs_uuid : Z; rs_data : option (list Z) }.

#[export] Instance MemOp_eq_dec : EqDecision MemOp.
Proof. solve_decision. Defined.

(** [MemFlags]: the store-response and unsigned-compare bits. *)
Definition fl_strsp (flags : Z) : bool := Z.testbit flags 0.
Definition fl_amo_unsigned (flags : Z) : bool := Z.testbit flags 3.

(** A channel of the simulation kernel as its ends see it. *)
Record chan (A : Type) := { ch_cap : nat; ch_q : list A }.
Arguments ch_cap {A}. Arguments ch_q {A}.

Definition ch_full {A} (c : chan A) : bool := (ch_cap c <=? length (ch_q c))%nat.
Definition ch_push {A} (c : chan A) (x : A) : chan A := {| ch_cap := ch_cap c; ch_q := ch_q c ++ [x] |}.
Definition ch_pop {A} (c : chan A) : chan A := {| ch_cap := ch_cap c; ch_q := tail (ch_q c) |}.

(** [SimChannel::send]: sending to a full channel is a failed assertion. *)
Definition ch_send {A} (c : chan A) (x : A) : option (chan A) := if ch_full c then None else Some (ch_push c x).

(** [TFifo]: the packets that have left the delay line and those still in it;
    [size] counts both, [empty] and [peek] see the first only. *)
Record TFifo (A : Type) := { tf_capacity : nat; tf_q : list A; tf_fly : list A }.
Arguments tf_capacity {A}. Arguments tf_q {A}. Arguments tf_fly {A}.

Definition tf_empty {A} (f : TFifo A) : bool := match tf_q f with [] => true | _ => false end.
Definition tf_full {A} (f : TFifo A) : bool := (tf_capacity f <=? length (tf_q f) + length (tf_fly f))%nat.
Definition tf_push {A} (f : TFifo A) (x : A) : option (TFifo A) :=
  if tf_full f then None else Some {| tf_capacity := tf_capacity f; tf_q := tf_q f; tf_fly := tf_fly f ++ [x] |}.
Definition tf_pop {A} (f : TFifo A) : TFifo A := {| tf_capacity := tf_capacity f; tf_q := tail (tf_q f); tf_fly := tf_fly f |}.

(** The oldest packet leaves the delay line. *)
Definition tf_arrive {A} (f : TFifo A) : TFifo A :=
  match tf_fly f with
  | [] => f
  | x :: l => {| tf_capacity := tf_capacity f; tf_q := tf_q f ++ [x]; tf_fly := l |}
  end.
