(* ===== verification/Mmu.v ===== *)
(** * Device MMU

    [sim/simx/mem/mmu_tlb.{h,cpp}] and [sim/simx/mem/mmu.{h,cpp}]: the
    fully associative TLB and the per-core MMU between the load/store ports and
    the cache, with its page-table walker.  A page fault or a failed assertion
    stops the simulator and is [None].  [VX_VM_ADDR_MODE] is the argument [m].

    A channel is the queue of its packets with a capacity; what the other end
    does between two cycles is left to the theorems. *)

From S2P Require Import Prelude VmTypes MemTypes.

(** ** Translation lookaside buffer *)

Record tlb_entry := { te_valid : bool; te_mru : bool; te_vpn : Z; te_ppn : Z; te_flags : Z }.

Record Tlb := { entries_ : list tlb_entry; reads_ : Z; hits_ : Z; misses_ : Z; evictions_ : Z }.

Definition tlb_empty : tlb_entry := {| te_valid := false; te_mru := false; te_vpn := 0; te_ppn := 0; te_flags := 0 |}.

(** [Tlb::Tlb] *)
Definition Tlb_init (size : nat) : Tlb :=
  {| entries_ := replicate size tlb_empty; reads_ := 0; hits_ := 0; misses_ := 0; evictions_ := 0 |}.

(** The first entry the condition of a loop holds for. *)
Definition first_entry (P : tlb_entry -> bool) (l : list tlb_entry) : option nat :=
  fst <$> list_find (fun e => Is_true (P e)) l.

(** [Tlb::lookup]; [None] is the miss [{false, 0}]. *)
Definition tlb_lookup (t : Tlb) (vpn : Z) : Tlb * option Z :=
  let t := t <| reads_ := u64 (reads_ t + 1) |> in
  match list_find (fun e => Is_true (te_valid e && (te_vpn e =? vpn))) (entries_ t) with
  | Some (i, e) =>
      (t <| entries_ := <[i := e <| te_mru := true |>]> (entries_ t) |> <| hits_ := u64 (hits_ t + 1) |>, Some (te_ppn e))
  | None => (t <| misses_ := u64 (misses_ t + 1) |>, None)
  end.

(** The victim of [Tlb::fill], with the entries after the MRU bits have been
    cleared. *)
Definition tlb_victim (l : list tlb_entry) : list tlb_entry * nat :=
  match first_entry (fun e => negb (te_valid e)) l with
  | Some i => (l, i)
  | None =>
      match first_entry (fun e => negb (te_mru e)) l with
      | Some i => (l, i)
      | None => (map (fun e => e <| te_mru := false |>) l, 0%nat)
      end
  end.

(** [Tlb::fill]; [None] is the access to an empty table. *)
Definition tlb_fill (t : Tlb) (vpn ppn flags : Z) : option Tlb :=
  let '(l, victim) := tlb_victim (entries_ t) in
  e ← l !! victim;
  let t := if te_valid e then t <| evictions_ := u64 (evictions_ t + 1) |> else t in
  Some (t <| entries_ := <[victim := {| te_valid := true; te_mru := true; te_vpn := vpn; te_ppn := ppn; te_flags := flags |}]> l |>).

(** [Tlb::flush] *)
Definition tlb_flush (t : Tlb) : Tlb :=
  t <| entries_ := map (fun e => e <| te_valid := false |> <| te_mru := false |>) (entries_ t) |>.

Inductive ACCESS_TYPE := LOAD | STORE | FETCH.

(** ** The MMU *)

Inductive PtwState := PTW_IDLE | PTW_REQ | PTW_WAIT | PTW_FILL.

Definition PTW_TAG_MARKER : Z := Z.shiftl 1 24.
Definition MEM_BLOCK_SIZE : Z := 64.

Record Mmu := {
  ReqIn : list (chan MemReq); RspOut : list (chan MemRsp); ReqOut : list (chan MemReq); RspIn : list (chan MemRsp);
  num_ports_ : nat;
  mmu_satp_ : option SATP_t;
  tlb_ : Tlb;
  ptw_state_ : PtwState;
  ptw_vaddr_ : Z;
  ptw_type_ : ACCESS_TYPE;
  ptw_pte_addr_ : Z;
  ptw_cur_ppn_ : Z;
  ptw_level_ : nat;
  ptw_final_ppn_ : Z;
  ptw_flags_ : Z;
  ptw_leaf_level_ : nat;
  ptw_orig_req_ : option MemReq;
  ptw_orig_port_ : nat;
  walks_ : Z;
  walk_latency_ : Z;
  walk_start_cyc_ : Z
}.

Section Mmu.
Context (m : vm_mode).

(** [Mmu::Mmu]; [ptw_orig_req_] starts as a default request, here [None]. *)
Definition Mmu_init (num_ports tlb_size cap : nat) : Mmu := {|
  ReqIn := replicate num_ports {| ch_cap := cap; ch_q := [] |}; RspOut := replicate num_ports {| ch_cap := cap; ch_q := [] |};
  ReqOut := replicate num_ports {| ch_cap := cap; ch_q := [] |}; RspIn := replicate num_ports {| ch_cap := cap; ch_q := [] |};
  num_ports_ := num_ports; mmu_satp_ := None; tlb_ := Tlb_init tlb_size; ptw_state_ := PTW_IDLE; ptw_vaddr_ := 0;
  ptw_type_ := LOAD; ptw_pte_addr_ := 0; ptw_cur_ppn_ := 0; ptw_level_ := 0; ptw_final_ppn_ := 0; ptw_flags_ := 0;
  ptw_leaf_level_ := 0; ptw_orig_req_ := None; ptw_orig_port_ := 0; walks_ := 0; walk_latency_ := 0; walk_start_cyc_ := 0 |}.

(** [Mmu::on_reset] *)
Definition mmu_on_reset (u : Mmu) : Mmu := u <| ptw_state_ := PTW_IDLE |>.

(** [Mmu::set_satp] *)
Definition mmu_set_satp (u : Mmu) (satp : Z) : Mmu :=
  u <| mmu_satp_ := Some (SATP_of_value m satp) |> <| tlb_ := tlb_flush (tlb_ u) |>.

(** [Mmu::needs_translation] *)
Definition needs_translation (u : Mmu) : bool :=
  match mmu_satp_ u with None => false | Some s => negb (satp_mode s =? BARE) end.

(** [Mmu::pte_addr] *)
Definition mmu_pte_addr (base_ppn vpn_idx : Z) : Z := u64 (base_ppn * VX_VM_PT_SIZE + vpn_idx * VX_VM_PTE_SIZE m).

(** [Mmu::start_ptw] *)
Definition start_ptw (u : Mmu) (cycles va : Z) (type : ACCESS_TYPE) (orig : MemReq) (port : nat) : Mmu :=
  u <| ptw_state_ := PTW_REQ |> <| ptw_level_ := (VX_VM_PT_LEVEL m - 1)%nat |>
    <| ptw_cur_ppn_ := from_option satp_ppn 0 (mmu_satp_ u) |> <| ptw_vaddr_ := va |> <| ptw_type_ := type |>
    <| ptw_orig_req_ := Some orig |> <| ptw_orig_port_ := port |> <| walk_start_cyc_ := cycles |>
    <| walks_ := u64 (walks_ u + 1) |>.

(** The entry in the payload of a response. *)
Definition rsp_pte (pte_addr : Z) (rsp : MemRsp) : Z :=
  match rs_data rsp with
  | None => 0
  | Some bytes => le_word (take (Z.to_nat (VX_VM_PTE_SIZE m)) (drop (Z.to_nat (Z.land pte_addr (MEM_BLOCK_SIZE - 1))) bytes))
  end.

(** [Mmu::on_ptw_response]; [None] is a page fault. *)
Definition on_ptw_response (u : Mmu) (rsp : MemRsp) : option Mmu :=
  pte ← PTE_of_bytes m (rsp_pte (ptw_pte_addr_ u) rsp);
  if negb (pte_v pte) || (negb (pte_r pte) && pte_w pte) then None
  else if pte_r pte || pte_w pte || pte_x pte then
    Some (u <| ptw_final_ppn_ := pte_ppn pte |> <| ptw_flags_ := pte_flags pte |>
            <| ptw_leaf_level_ := ptw_level_ u |> <| ptw_state_ := PTW_FILL |>)
  else
    match ptw_level_ u with
    | O => None
    | S level => Some (u <| ptw_cur_ppn_ := pte_ppn pte |> <| ptw_level_ := level |> <| ptw_state_ := PTW_REQ |>)
    end.

Definition VPN_BITS_PER_LEVEL : Z := Z.log2_up (VX_VM_PT_SIZE / VX_VM_PTE_SIZE m).

(** [try_send] on output port [p]: the packet goes in when there is room. *)
Definition try_send (u : Mmu) (p : nat) (req : MemReq) : option (Mmu * bool) :=
  c ← ReqOut u !! p;
  if ch_full c then Some (u, false) else Some (u <| ReqOut := <[p := ch_push c req]> (ReqOut u) |>, true).

Definition ptw_request (addr : Z) : MemReq :=
  {| rq_op := MLD; rq_addr := addr; rq_data := None; rq_byteen := 0; rq_tag := PTW_TAG_MARKER; rq_hart_id := 0; rq_uuid := 0; rq_flags := 0 |}.

(** The physical address of the leaf the walk has found. *)
Definition fill_pa (u : Mmu) : Z :=
  let off_bits := VX_VM_PAGE_LOG2_SIZE + Z.of_nat (ptw_leaf_level_ u) * VPN_BITS_PER_LEVEL in
  let off_mask := u64 (Z.shiftl 1 off_bits) - 1 in
  Z.lor (Z.land (u64 (Z.shiftl (ptw_final_ppn_ u) VX_VM_PAGE_LOG2_SIZE)) (u64 (Z.lnot off_mask))) (Z.land (ptw_vaddr_ u) off_mask).

(** [Mmu::drive_ptw] *)
Definition drive_ptw (u : Mmu) (cycles : Z) : option Mmu :=
  match ptw_state_ u with
  | PTW_REQ =>
      let shift := VX_VM_PAGE_LOG2_SIZE + Z.of_nat (ptw_level_ u) * VPN_BITS_PER_LEVEL in
      let vpn := Z.land (Z.shiftr (ptw_vaddr_ u) shift) (u64 (Z.shiftl 1 VPN_BITS_PER_LEVEL) - 1) in
      let u := u <| ptw_pte_addr_ := mmu_pte_addr (ptw_cur_ppn_ u) vpn |> in
      '(u, sent) ← try_send u 0 (ptw_request (ptw_pte_addr_ u));
      Some (if sent : bool then u <| ptw_state_ := PTW_WAIT |> else u)
  | PTW_FILL =>
      let pa := fill_pa u in
      tlb ← tlb_fill (tlb_ u) (Z.shiftr (ptw_vaddr_ u) VX_VM_PAGE_LOG2_SIZE) (Z.shiftr pa VX_VM_PAGE_LOG2_SIZE) (ptw_flags_ u);
      let u := u <| tlb_ := tlb |> in
      orig ← ptw_orig_req_ u;
      '(u, sent) ← try_send u (ptw_orig_port_ u) (orig <| rq_addr := pa |>);
      Some (if sent : bool
            then u <| walk_latency_ := u64 (walk_latency_ u + (cycles - walk_start_cyc_ u)) |> <| ptw_state_ := PTW_IDLE |>
            else u)
  | _ => Some u
  end.

(** The response half of [Mmu::on_tick], for port [p]. *)
Definition tick_rsp (u : Mmu) (p : nat) : option Mmu :=
  ci ← RspIn u !! p;
  match ch_q ci with
  | [] => Some u
  | rsp :: _ =>
      if negb (Z.land (rs_tag rsp) PTW_TAG_MARKER =? 0) then
        u ← match ptw_state_ u with PTW_WAIT => on_ptw_response u rsp | _ => Some u end;
        Some (u <| RspIn := <[p := ch_pop ci]> (RspIn u) |>)
      else
        co ← RspOut u !! p;
        if ch_full co then Some u
        else Some (u <| RspOut := <[p := ch_push co rsp]> (RspOut u) |> <| RspIn := <[p := ch_pop ci]> (RspIn u) |>)
  end.

(** The request half, for port [p]. *)
Definition tick_req (u : Mmu) (cycles : Z) (p : nat) : option Mmu :=
  ci ← ReqIn u !! p;
  match ch_q ci with
  | [] => Some u
  | req :: _ =>
      let pop (u : Mmu) := u <| ReqIn := <[p := ch_pop ci]> (ReqIn u) |> in
      if negb (needs_translation u) then
        '(u, sent) ← try_send u p req; Some (if sent : bool then pop u else u)
      else
        let '(tlb, r) := tlb_lookup (tlb_ u) (Z.shiftr (rq_addr req) VX_VM_PAGE_LOG2_SIZE) in
        let u := u <| tlb_ := tlb |> in
        match r with
        | Some ppn =>
            let pa := Z.lor (u64 (Z.shiftl ppn VX_VM_PAGE_LOG2_SIZE)) (Z.land (rq_addr req) (u64 (Z.shiftl 1 VX_VM_PAGE_LOG2_SIZE) - 1)) in
            '(u, sent) ← try_send u p (req <| rq_addr := pa |>); Some (if sent : bool then pop u else u)
        | None =>
            match ptw_state_ u with
            | PTW_IDLE => Some (pop (start_ptw u cycles (rq_addr req) (if memop_is_write (rq_op req) then STORE else LOAD) req p))
            | _ => Some u
            end
        end
  end.

(** [Mmu::on_tick] *)
Definition mmu_on_tick (u : Mmu) (cycles : Z) : option Mmu :=
  u ← fold_left (fun u p => u ← u; tick_rsp u p) (seq 0 (num_ports_ u)) (Some u);
  u ← match ptw_state_ u with PTW_IDLE | PTW_WAIT => Some u | _ => drive_ptw u cycles end;
  fold_left (fun u p => u ← u; tick_req u cycles p) (seq 0 (num_ports_ u)) (Some u).

End Mmu.
