(* ===== verification/MmuProofs.v ===== *)
(** * The device MMU translates as the page tables say

    The walker of [Mmu] reads the tables that the manager of [Vm] keeps in
    device memory ([VmDevice.synced]).  Its walks end, with the translation of
    the manager or at a page fault; the TLB only holds translations of the
    tables; and whatever the traffic on the ports, every accepted request leaves
    once, on its own port, with its translated address. *)

From S2P Require Import Prelude MemTypes MemAlloc VmTypes CmdProc Vm VmProofs VmMaps VmDevice Mmu.

(** ** TLB *)

(** Every valid entry is a translation. *)
Definition tlb_sound (tr : Z -> option Z) (t : Tlb) : Prop :=
  forall e, e ∈ entries_ t -> te_valid e = true -> tr (te_vpn e) = Some (te_ppn e).

Lemma tlb_init_sound tr n : tlb_sound tr (Tlb_init n).
Proof. intros e He. apply elem_of_replicate in He as [-> _]. done. Qed.

Lemma tlb_flush_sound tr t : tlb_sound tr (tlb_flush t).
Proof. intros e He. unfold tlb_flush in He. rproj. apply list_elem_of_fmap in He as (x & -> & _). done. Qed.

Lemma tlb_lookup_spec tr t vpn : tlb_sound tr t -> let r := tlb_lookup t vpn in
  tlb_sound tr r.1 /\ length (entries_ r.1) = length (entries_ t) /\
  match r.2 with Some ppn => tr vpn = Some ppn | None => forall e, e ∈ entries_ t -> te_valid e = true -> te_vpn e <> vpn end.
Proof.
  intros HS. unfold tlb_lookup. cbv zeta. rproj. destruct (list_find _ _) as [[i e]|] eqn:Ef; cbn [fst snd].
  - apply list_find_Some in Ef as (Hi & Hp & _). apply Is_true_true, andb_true_iff in Hp as [Hv Hvpn%Z.eqb_eq].
    pose proof (HS e (list_elem_of_lookup_2 _ _ _ Hi) Hv) as Ht. subst vpn. split; [|split; [apply length_insert|done]].
    intros x Hx Hxv. rproj. apply list_elem_of_lookup in Hx as [j Hj]. apply list_lookup_insert_Some in Hj as [(-> & <- & _)|[_ Hj]].
    + done.
    + by apply HS; [eapply list_elem_of_lookup_2|].
  - split; [done|]. split; [done|]. intros x Hx Hv Heq. apply list_find_None in Ef. rewrite list.Forall_forall in Ef.
    apply (Ef x Hx). apply Is_true_true. by rewrite Hv, Heq, Z.eqb_refl.
Qed.

Lemma first_entry_lt P l i : first_entry P l = Some i -> (i < length l)%nat.
Proof.
  unfold first_entry. destruct (list_find _ l) as [[j e]|] eqn:Ef; [|done]. intros [= <-].
  apply list_find_Some in Ef as [Hj _]. by eapply lookup_lt_Some.
Qed.

Lemma tlb_victim_spec l : l <> [] -> let r := tlb_victim l in
  (r.2 < length r.1)%nat /\ length r.1 = length l /\
  forall e, e ∈ r.1 -> exists e', e' ∈ l /\ te_valid e = te_valid e' /\ te_vpn e = te_vpn e' /\ te_ppn e = te_ppn e'.
Proof.
  intros Hl. unfold tlb_victim. destruct (first_entry _ l) as [i|] eqn:E1; [cbn; split; [by eapply first_entry_lt|split; [done|eauto]]|].
  destruct (first_entry (fun e => negb (te_mru e)) l) as [i|] eqn:E2; [cbn; split; [by eapply first_entry_lt|split; [done|eauto]]|].
  cbn [fst snd]. rewrite length_map. split; [destruct l; [done|cbn; lia]|]. split; [done|].
  intros e He. apply list_elem_of_fmap in He as (x & -> & Hx). by exists x.
Qed.

(** A fill keeps the table sound and makes the translation found. *)
Lemma tlb_fill_spec tr t vpn ppn flags : tlb_sound tr t -> entries_ t <> [] -> tr vpn = Some ppn ->
  exists t', tlb_fill t vpn ppn flags = Some t' /\ tlb_sound tr t' /\ length (entries_ t') = length (entries_ t) /\
    (tlb_lookup t' vpn).2 = Some ppn.
Proof.
  intros HS Hn Htr. unfold tlb_fill. destruct (tlb_victim_spec (entries_ t) Hn) as (Hv & Hlen & Hold).
  destruct (tlb_victim (entries_ t)) as [l v]. cbn [fst snd] in *.
  destruct (lookup_lt_is_Some_2 l v Hv) as [e He]. rewrite He. cbn [mbind option_bind].
  match goal with |- context [<[v := ?x]> l] => set (new := x) end.
  match goal with |- exists _, Some ?x = _ /\ _ => set (t' := x) end. assert (Ee : entries_ t' = <[v := new]> l) by done. clearbody t'.
  assert (HS' : tlb_sound tr t').
  { intros x Hx Hxv. rewrite Ee in Hx. apply list_elem_of_lookup in Hx as [j Hj].
    apply list_lookup_insert_Some in Hj as [(_ & <- & _)|[_ Hj]]; [done|].
    destruct (Hold x (list_elem_of_lookup_2 _ _ _ Hj)) as (y & Hy & E1 & E2 & E3). rewrite E2, E3. apply HS; [done|congruence]. }
  exists t'. split; [done|]. split; [done|]. split; [by rewrite Ee, length_insert|].
  destruct (tlb_lookup_spec tr t' vpn HS') as (_ & _ & Hr). destruct (tlb_lookup t' vpn).2 as [p|]; [congruence|].
  exfalso. apply (Hr new); [|done|done]. rewrite Ee. eapply list_elem_of_lookup_2. by apply list_lookup_insert_eq.
Qed.

(** ** Packets on ports *)

(** The packets of a row of channels, each with its port. *)
Definition tagged_from {A} (n : nat) (qs : list (chan A)) : list (nat * A) :=
  concat (imap (fun i c => map (pair (n + i)%nat) (ch_q c)) qs).
Abbreviation tagged := (tagged_from 0).

Lemma tagged_cons {A} n (c : chan A) qs : tagged_from n (c :: qs) = map (pair n) (ch_q c) ++ tagged_from (S n) qs.
Proof.
  unfold tagged_from. cbn [imap concat]. rewrite Nat.add_0_r. f_equal. f_equal. apply imap_ext. intros i x _. cbn. by rewrite Nat.add_succ_r.
Qed.

Lemma tagged_replace {A} (qs : list (chan A)) c c' : forall n p, qs !! p = Some c ->
  tagged_from n (<[p := c']> qs) ++ map (pair (n + p)%nat) (ch_q c) ≡ₚ tagged_from n qs ++ map (pair (n + p)%nat) (ch_q c').
Proof.
  induction qs as [|x qs IH]; intros n [|p] H; [done|done| |]; cbn in H.
  - injection H as ->. change (<[0%nat := c']> (c :: qs)) with (c' :: qs). rewrite !tagged_cons, Nat.add_0_r. solve_Permutation.
  - change (<[S p := c']> (x :: qs)) with (x :: <[p := c']> qs). rewrite !tagged_cons, <- !app_assoc.
    apply Permutation_app_head. replace (n + S p)%nat with (S n + p)%nat by lia. by apply IH.
Qed.

Lemma tagged_push {A} (qs : list (chan A)) p c x : qs !! p = Some c -> tagged (<[p := ch_push c x]> qs) ≡ₚ (p, x) :: tagged qs.
Proof.
  intros H. pose proof (tagged_replace qs c (ch_push c x) 0 p H) as E. unfold ch_push in *. cbn [ch_q] in E. rewrite map_app in E. cbn [map Nat.add] in E.
  apply (Permutation_app_inv_r (map (pair p) (ch_q c))). rewrite E. solve_Permutation.
Qed.

Lemma tagged_pop {A} (qs : list (chan A)) p c x q : qs !! p = Some c -> ch_q c = x :: q -> tagged qs ≡ₚ (p, x) :: tagged (<[p := ch_pop c]> qs).
Proof.
  intros H Hq. pose proof (tagged_replace qs c (ch_pop c) 0 p H) as E. unfold ch_pop in *. cbn [ch_q] in E. rewrite Hq in *. cbn [map tail Nat.add] in E.
  apply (Permutation_app_inv_r (map (pair p) q)). rewrite <- E. cbn [app]. apply Permutation_sym, Permutation_middle.
Qed.

Lemma tagged_head {A} (qs : list (chan A)) p c x q : qs !! p = Some c -> ch_q c = x :: q -> (p, x) ∈ tagged qs.
Proof. intros H Hq. rewrite (tagged_pop qs p c x q H Hq). left. Qed.

(** Fetches of the walker carry the marker in their tag. *)
Definition marked (tag : Z) : bool := negb (Z.land tag PTW_TAG_MARKER =? 0).
Definition fetches : list (nat * MemReq) -> list (nat * MemReq) := filter (fun x => marked (rq_tag x.2) = true).
Definition data_reqs : list (nat * MemReq) -> list (nat * MemReq) := filter (fun x => marked (rq_tag x.2) = false).
Definition fetch_rsps : list (nat * MemRsp) -> list (nat * MemRsp) := filter (fun x => marked (rs_tag x.2) = true).

#[local] Arguments fetches : simpl never.
#[local] Arguments data_reqs : simpl never.
#[local] Arguments fetch_rsps : simpl never.
#[local] Arguments tagged_from : simpl never.

Lemma fetches_push qs p c r pool : qs !! p = Some c ->
  fetches (tagged (<[p := ch_push c r]> qs) ++ pool) ≡ₚ (if marked (rq_tag r) then [(p, r)] else []) ++ fetches (tagged qs ++ pool).
Proof.
  intros H. unfold fetches. rewrite (tagged_push qs p c r H). cbn [app].
  destruct (marked (rq_tag r)) eqn:E; [by rewrite filter_cons_True by done|]. rewrite filter_cons_False; [done|]. cbn. congruence.
Qed.

Lemma data_reqs_push qs p c r : qs !! p = Some c ->
  data_reqs (tagged (<[p := ch_push c r]> qs)) ≡ₚ (if marked (rq_tag r) then [] else [(p, r)]) ++ data_reqs (tagged qs).
Proof.
  intros H. unfold data_reqs. rewrite (tagged_push qs p c r H).
  destruct (marked (rq_tag r)) eqn:E; [|by rewrite filter_cons_True by done]. rewrite filter_cons_False; [done|]. cbn. congruence.
Qed.

Lemma fetches_take qs p c r q pool : qs !! p = Some c -> ch_q c = r :: q ->
  fetches (tagged (<[p := ch_pop c]> qs) ++ pool ++ [(p, r)]) ≡ₚ fetches (tagged qs ++ pool).
Proof. intros H Hq. unfold fetches. rewrite (tagged_pop qs p c r q H Hq). apply filter_Permutation. solve_Permutation. Qed.

Lemma data_reqs_take qs p c r q : qs !! p = Some c -> ch_q c = r :: q ->
  data_reqs (tagged qs) ≡ₚ (if marked (rq_tag r) then [] else [(p, r)]) ++ data_reqs (tagged (<[p := ch_pop c]> qs)).
Proof.
  intros H Hq. unfold data_reqs. rewrite (tagged_pop qs p c r q H Hq).
  destruct (marked (rq_tag r)) eqn:E; [|by rewrite filter_cons_True by done]. rewrite filter_cons_False; [done|]. cbn. congruence.
Qed.

Lemma fetch_rsps_pop qs p c r q : qs !! p = Some c -> ch_q c = r :: q ->
  fetch_rsps (tagged qs) ≡ₚ (if marked (rs_tag r) then [(p, r)] else []) ++ fetch_rsps (tagged (<[p := ch_pop c]> qs)).
Proof.
  intros H Hq. unfold fetch_rsps. rewrite (tagged_pop qs p c r q H Hq).
  destruct (marked (rs_tag r)) eqn:E; [by rewrite filter_cons_True by done|]. rewrite filter_cons_False; [done|]. cbn. congruence.
Qed.

Lemma fetch_rsps_push qs p c r : qs !! p = Some c ->
  fetch_rsps (tagged (<[p := ch_push c r]> qs)) ≡ₚ (if marked (rs_tag r) then [(p, r)] else []) ++ fetch_rsps (tagged qs).
Proof.
  intros H. unfold fetch_rsps. rewrite (tagged_push qs p c r H).
  destruct (marked (rs_tag r)) eqn:E; [by rewrite filter_cons_True by done|]. rewrite filter_cons_False; [done|]. cbn. congruence.
Qed.

(** ** The walker *)

Section Walk.
Context (m : vm_mode) {R : Type}.
Context {D : Type} (rd : D -> Z -> Z -> list Z) (wr : D -> Z -> list Z -> D) {M : FlatMem rd wr}.
Context (s : @VMManager R) (T : gmap Z nat) (d : D).
Context (HI : pt_inv m s T) (HS : synced rd wr s d) (Hd : dirty_pt_pages_ s = ∅).
#[local] Set Default Proof Using "All".

Abbreviation L := (L m).
Abbreviation tpath := (path L (vx m) (get_base_ppn s) (ent m s)).

(** The cache line that holds an address. *)
Definition line_of (addr : Z) : list Z := rd d (addr - addr mod MEM_BLOCK_SIZE) MEM_BLOCK_SIZE.

Lemma take_drop_read a o n : 0 <= o -> 0 <= n -> o + n <= 64 -> take (Z.to_nat n) (drop (Z.to_nat o) (rd d a 64)) = rd d (a + o) n.
Proof.
  intros Ho Hn Hle. rewrite !flat_read. apply list_eq. intros i. destruct (decide (i < Z.to_nat n)%nat) as [Hi|Hi].
  - rewrite lookup_take_lt, lookup_drop, !list_lookup_fmap, !lookup_seqZ_lt by lia. cbn. do 2 f_equal. lia.
  - rewrite lookup_take_ge, list_lookup_fmap, lookup_seqZ_ge by lia. done.
Qed.

Lemma line_pte t l k rsp : T !! t = Some l -> 0 <= k < 2 ^ vpn_bits m -> rs_data rsp = Some (line_of (pte_addr m t k)) ->
  rsp_pte m (pte_addr m t k) rsp = VmProofs.rd m s t k.
Proof.
  intros Ht Hk Er. unfold rsp_pte. rewrite Er. destruct (pv_tab m s T HI t l Ht) as [Htr _].
  destruct (pte_addr_at m t k Htr Hk) as [Ea _]. unfold MEM_BLOCK_SIZE, line_of.
  assert (Emask : Z.land (pte_addr m t k) (64 - 1) = pte_addr m t k mod 64) by (change (64 - 1) with (Z.ones 6); by rewrite Z.land_ones by lia).
  rewrite Emask. pose proof (Z.mod_pos_bound (pte_addr m t k) 64 ltac:(lia)) as Ho.
  assert (Hfit : pte_addr m t k mod 64 + VX_VM_PTE_SIZE m <= 64).
  { assert (Hdiv : (VX_VM_PTE_SIZE m | pte_addr m t k mod 64)).
    { rewrite Ea. destruct m; cbn [VX_VM_PTE_SIZE] in *.
      - replace (t * 4096 + k * 4) with ((t * 1024 + k) * 4) by lia. change 64 with (16 * 4). rewrite Z.mul_mod_distr_r by lia. apply Z.divide_factor_r.
      - replace (t * 4096 + k * 8) with ((t * 512 + k) * 8) by lia. change 64 with (8 * 8). rewrite Z.mul_mod_distr_r by lia. apply Z.divide_factor_r. }
    destruct Hdiv as [x Hx]. destruct m; cbn [VX_VM_PTE_SIZE] in *; lia. }
  unfold MEM_BLOCK_SIZE. rewrite take_drop_read by (lia || (destruct m; cbn; lia)).
  replace (_ - _ + _) with (pte_addr m t k) by lia. by eapply entry_bytes.
Qed.

Lemma entry_wide t l k : T !! t = Some l -> 0 <= k < 2 ^ vpn_bits m -> PTE_of_bytes m (VmProofs.rd m s t k) = Some (PTE_fields m (VmProofs.rd m s t k)).
Proof.
  intros Ht Hk. unfold PTE_of_bytes. destruct m eqn:Em; [|done].
  destruct (pv_tab SV32 s T HI t l Ht) as [Htr (page & Hp & Hl & Hb)]. rewrite (rd_page SV32 s t k page) by done.
  pose proof (le_word_range (take (entry_size SV32) (drop (entry_off SV32 k) page)) ltac:(by apply Forall_take, Forall_drop)) as Hr.
  assert (length (take (entry_size SV32) (drop (entry_off SV32 k) page)) = 4%nat) as El.
  { rewrite length_take, length_drop, Hl. pose proof (entry_bounds SV32 k Hk). unfold entry_size in *. cbn in *. lia. }
  rewrite El in Hr. destruct Hr as [Hr0 Hr1]. change (8 * Z.of_nat 4) with 32 in Hr1.
  by rewrite (proj2 (shiftr_zero_iff _ 32 ltac:(lia) Hr0) Hr1).
Qed.

Lemma vpn_bits_level : VPN_BITS_PER_LEVEL m = vpn_bits m.
Proof. by destruct m. Qed.

(** The index the walker uses at each level. *)
Lemma walk_index va i : Z.land (Z.shiftr va (VX_VM_PAGE_LOG2_SIZE + Z.of_nat i * VPN_BITS_PER_LEVEL m)) (u64 (Z.shiftl 1 (VPN_BITS_PER_LEVEL m)) - 1) = vx m va i.
Proof.
  rewrite vpn_bits_level. assert (Hb : 0 <= vpn_bits m < 64) by (destruct m; cbn; lia).
  rewrite Z.shiftl_1_l, wrap_small by (split; [lia|apply Z.pow_lt_mono_r; lia]).
  replace (2 ^ vpn_bits m - 1) with (Z.ones (vpn_bits m)) by (rewrite Z.ones_equiv; lia).
  rewrite Z.land_ones, Z.shiftr_div_pow2 by (unfold VX_VM_PAGE_LOG2_SIZE; lia). unfold vx, VX_VM_PAGE_LOG2_SIZE. by rewrite (Z.mul_comm (Z.of_nat i)).
Qed.

(** What a response leaves alone. *)
Definition rsp_frame (u : Mmu) :=
  (ReqIn u, RspOut u, ReqOut u, RspIn u, num_ports_ u, mmu_satp_ u, tlb_ u, ptw_vaddr_ u, ptw_orig_req_ u, ptw_orig_port_ u).

(** What a walk in progress knows. *)
Definition walk_ok (u : Mmu) : Prop :=
  match ptw_state_ u with
  | PTW_IDLE => True
  | PTW_REQ => tpath (ptw_vaddr_ u) (ptw_level_ u) (ptw_cur_ppn_ u)
  | PTW_WAIT => tpath (ptw_vaddr_ u) (ptw_level_ u) (ptw_cur_ppn_ u) /\
      ptw_pte_addr_ u = pte_addr m (ptw_cur_ppn_ u) (vx m (ptw_vaddr_ u) (ptw_level_ u))
  | PTW_FILL => xl m s (ptw_vaddr_ u) = Some (ptw_final_ppn_ u, ptw_leaf_level_ u)
  end.

(** The response to the outstanding fetch: a fault exactly when the tables have
    no translation, else a step down or the leaf. *)
Lemma response_ok u rsp : ptw_state_ u = PTW_WAIT -> walk_ok u -> rs_data rsp = Some (line_of (ptw_pte_addr_ u)) ->
  match on_ptw_response m u rsp with
  | None => xl m s (ptw_vaddr_ u) = None
  | Some u' => walk_ok u' /\ rsp_frame u' = rsp_frame u /\
      (ptw_state_ u' = PTW_FILL \/ ptw_state_ u' = PTW_REQ /\ S (ptw_level_ u') = ptw_level_ u)
  end.
Proof.
  intros Hst Hw Er. unfold walk_ok in Hw. rewrite Hst in Hw. destruct Hw as [Hp Ea]. pose proof (pv_tree m s T HI) as HT.
  pose proof (path_level L _ (vx m) _ (vx_range m) _ _ _ _ _ HT Hp) as Ht. pose proof (vx_range m (ptw_vaddr_ u) (ptw_level_ u)) as Hk.
  unfold on_ptw_response. rewrite Ea in Er |- *. rewrite (line_pte _ _ _ _ Ht Hk Er), (entry_wide _ _ _ Ht Hk). cbn [mbind option_bind].
  pose proof (pv_good m s T HI _ _ _ Ht Hk) as [Hg _]. pose proof (ent_bits m _ Hg) as Hc. cbv zeta in Hc.
  change (ent_of m (VmProofs.rd m ?s ?t ?k)) with (ent m s t k) in Hc.
  pose proof (wk_path L _ (vx m) _ (vx_range m) _ _ _ _ Hp) as Hwk. fold (xl m s (ptw_vaddr_ u)) in Hwk.
  destruct (ent m s _ _) as [|p|p] eqn:He.
  - rewrite Hc. cbn [negb orb]. rewrite Hwk. destruct (ptw_level_ u); cbn [wk]; by rewrite He.
  - destruct Hc as (-> & -> & -> & -> & ->). cbn [negb andb orb]. destruct (ptw_level_ u) as [|l] eqn:El.
    + rewrite Hwk. cbn [wk]. by rewrite He.
    + split; [|split; [done|by right]]. unfold walk_ok. rproj. eapply path_step; [done|]. exact He.
  - destruct Hc as (-> & -> & ->). cbn [negb andb orb]. split; [|split; [done|by left]].
    unfold walk_ok. rproj. rewrite Hwk. destruct (ptw_level_ u); cbn [wk]; by rewrite He.
Qed.

(** *** Translations of pages *)

Definition vtr (vpn : Z) : option Z := (fun pa => Z.shiftr pa 12) <$> translate m s (vpn * 4096).

Lemma translate_range va pa : in_u (va_width m) va -> translate m s va = Some pa -> in_u (pa_width m) pa /\ pa mod 4096 = va mod 4096.
Proof.
  intros Hv Ht. rewrite (translate_xl m s T) in Ht by done. destruct (xl m s va) as [[p l]|] eqn:Ex; [|done].
  destruct (xl_sound m s T _ _ _ HI Ex) as [Hp Hl]. cbn [fmap option_fmap option_map fst snd] in Ht. injection Ht as <-.
  rewrite leaf_pa_eq by done. destruct (page_bytes_page m l) as [K HK]. pose proof (page_bytes_pos m l) as HP. rewrite HK in *.
  pose proof (Z.mod_pos_bound va (K * 4096) ltac:(lia)) as Hm. unfold in_u at 1, pa_width. rewrite Z.pow_add_r by (destruct m; cbn; lia). change (2 ^ 12) with 4096.
  assert (HKd : (K * 4096 | 2 ^ ppn_width m * 4096)).
  { rewrite <- HK. unfold page_bytes. change 4096 with (2 ^ 12). rewrite <- Z.pow_add_r by (destruct m; cbn; lia).
    exists (2 ^ (ppn_width m + 12 - (12 + vpn_bits m * Z.of_nat l))). rewrite <- Z.pow_add_r; [f_equal; lia| |];
    unfold VmProofs.L in Hl; destruct m; cbn in *; lia. }
  split.
  - split; [pose proof (Z.div_pos (p * 4096) (K * 4096) ltac:(unfold in_u in *; lia) ltac:(lia)); nia|].
    destruct HKd as [q Hq]. rewrite Hq. assert (p * 4096 / (K * 4096) < q) by (apply Z.div_lt_upper_bound; [lia|]; unfold in_u in *; lia). nia.
  - rewrite (Z.mul_assoc _ K 4096), Z.add_comm, Z.mod_add by lia. rewrite (Z.mul_comm K 4096), Z.rem_mul_r by lia.
    rewrite (Z.mul_comm 4096), Z.mod_add, Z.mod_mod by lia. done.
Qed.

Lemma vtr_translate va pa : in_u (va_width m) va -> translate m s va = Some pa -> vtr (Z.shiftr va 12) = Some (Z.shiftr pa 12).
Proof.
  intros Hv Ht. unfold vtr. rewrite !Z.shiftr_div_pow2 by lia. change (2 ^ 12) with 4096.
  rewrite (translate_page m s T) in Ht by done. destruct (translate m s (va / 4096 * 4096)) as [b|] eqn:Eb; [|done].
  cbn [fmap option_fmap option_map] in Ht |- *. injection Ht as <-. f_equal.
  destruct (translate_range _ _ (page_va m va Hv) Eb) as [_ Hm]. rewrite Z.mod_mul in Hm by lia.
  rewrite Z.shiftr_div_pow2 by lia. change (2 ^ 12) with 4096. pose proof (Z.mod_pos_bound va 4096 ltac:(lia)).
  apply Z.mod_divide in Hm as [x ->]; [|lia]. rewrite Z.div_mul, Z.div_add_l, (Z.div_small (va mod 4096)) by lia. lia.
Qed.

(** A TLB hit gives the translation. *)
Lemma vtr_hit va ppn : in_u (va_width m) va -> vtr (Z.shiftr va 12) = Some ppn ->
  translate m s va = Some (Z.lor (u64 (Z.shiftl ppn VX_VM_PAGE_LOG2_SIZE)) (Z.land va (u64 (Z.shiftl 1 VX_VM_PAGE_LOG2_SIZE) - 1))).
Proof.
  intros Hv Hvt. unfold vtr in Hvt. rewrite Z.shiftr_div_pow2 in Hvt by lia. change (2 ^ 12) with 4096 in Hvt.
  rewrite (translate_page m s T) by done. destruct (translate m s (va / 4096 * 4096)) as [b|] eqn:Eb; [|done].
  cbn [fmap option_fmap option_map] in Hvt |- *. injection Hvt as <-.
  destruct (translate_range _ _ (page_va m va Hv) Eb) as [Hb Hm]. rewrite Z.mod_mul in Hm by lia.
  assert (Hw : 2 ^ pa_width m <= 2 ^ 56) by (destruct m; vm_compute; congruence).
  rewrite Z.shiftr_div_pow2 by lia. change (2 ^ 12) with 4096. change (u64 (Z.shiftl 1 VX_VM_PAGE_LOG2_SIZE) - 1) with (Z.shiftl 1 VX_VM_PAGE_LOG2_SIZE - 1).
  apply Z.mod_divide in Hm as [x ->]; [|lia]. rewrite Z.div_mul by lia. rewrite splice_page by (unfold in_u in *; lia). done.
Qed.

Lemma fill_pa_ok u : ptw_state_ u = PTW_FILL -> walk_ok u -> in_u (va_width m) (ptw_vaddr_ u) -> translate m s (ptw_vaddr_ u) = Some (fill_pa m u).
Proof.
  intros Hst Hw Hv. unfold walk_ok in Hw. rewrite Hst in Hw. rewrite (translate_xl m s T), Hw by done. cbn [fmap option_fmap option_map fst snd].
  unfold leaf_pa, fill_pa. by rewrite VM_VPN_BITS_eq, vpn_bits_level.
Qed.

(** ** The walk ends

    One round of the walker with its memory: the pending fetch is sent, taken
    and answered. *)

Definition drain (u : Mmu) : Mmu := u <| ReqOut := map (fun c => {| ch_cap := ch_cap c; ch_q := [] |}) (ReqOut u) |>.

Definition reply_to (addr : Z) : MemRsp := {| rs_tag := PTW_TAG_MARKER; rs_hart_id := 0; rs_uuid := 0; rs_data := Some (line_of addr) |}.

Definition walk_round (cycles : Z) (u : Mmu) : option Mmu :=
  u ← drive_ptw m u cycles;
  match ptw_state_ u with PTW_WAIT => on_ptw_response m (drain u) (reply_to (ptw_pte_addr_ u)) | _ => Some u end.

Fixpoint walk_rounds (cycles : Z) (n : nat) (u : Mmu) : option Mmu :=
  match n with O => Some u | S n => u ← walk_round cycles u; walk_rounds cycles n u end.

(** Every output port can take a packet, now and once it is empty. *)
Definition ports_room (u : Mmu) : Prop :=
  (0 < length (ReqOut u))%nat /\ Forall (fun c => (0 < ch_cap c)%nat /\ ch_full c = false) (ReqOut u).

Lemma drain_room u : Forall (fun c => (0 < ch_cap c)%nat) (ReqOut u) -> (0 < length (ReqOut u))%nat -> ports_room (drain u).
Proof.
  intros HF Hl. split; [unfold drain; rproj; by rewrite length_map|]. unfold drain. rproj. rewrite list.Forall_forall in *.
  intros c Hc. apply list_elem_of_fmap in Hc as (x & -> & Hx). pose proof (HF x Hx). split; [done|].
  unfold ch_full. rproj. apply Nat.leb_gt. cbn. lia.
Qed.

Lemma port_room u p : ports_room u -> (p < length (ReqOut u))%nat -> exists c, ReqOut u !! p = Some c /\ ch_full c = false.
Proof.
  intros [_ HF] Hp. destruct (lookup_lt_is_Some_2 (ReqOut u) p Hp) as [c Hc]. exists c. split; [done|].
  rewrite list.Forall_forall in HF. by apply (HF c (list_elem_of_lookup_2 _ _ _ Hc)).
Qed.

(** What the rounds of a walk keep. *)
Definition walk_frame (u : Mmu) :=
  (num_ports_ u, mmu_satp_ u, tlb_ u, ptw_vaddr_ u, ptw_orig_req_ u, ptw_orig_port_ u, length (ReqOut u)).

Lemma round_down cycles u : ptw_state_ u = PTW_REQ -> walk_ok u -> ports_room u ->
  match walk_round cycles u with
  | None => xl m s (ptw_vaddr_ u) = None
  | Some u' => walk_ok u' /\ ports_room u' /\ walk_frame u' = walk_frame u /\
      (ptw_state_ u' = PTW_FILL \/ ptw_state_ u' = PTW_REQ /\ S (ptw_level_ u') = ptw_level_ u)
  end.
Proof.
  intros Hst Hw Hr. unfold walk_round, drive_ptw. rewrite Hst, walk_index.
  destruct (port_room u 0 Hr) as (c & Hc & Hf); [apply Hr|]. unfold try_send. rproj. rewrite Hc. cbn [mbind option_bind]. rewrite Hf. cbn [mbind option_bind].
  match goal with |- context [ptw_state_ ?x] => set (u1 := x) end.
  assert (Hst1 : ptw_state_ u1 = PTW_WAIT) by done. rewrite Hst1.
  unfold walk_ok in Hw. rewrite Hst in Hw.
  assert (Hw1 : walk_ok (drain u1)) by (unfold walk_ok; subst u1; unfold drain; rproj; done).
  assert (HR1 : ports_room (drain u1)).
  { destruct Hr as [Hl HF]. apply drain_room; subst u1; rproj; [|by rewrite length_insert].
    apply Forall_insert; [eapply Forall_impl; [|exact HF]; by intros ? []|]. rewrite list.Forall_forall in HF. apply (HF c (list_elem_of_lookup_2 _ _ _ Hc)). }
  pose proof (response_ok (drain u1) (reply_to (ptw_pte_addr_ u1)) Hst1 Hw1 eq_refl) as Hres.
  destruct (on_ptw_response m (drain u1) _) as [u2|]; [|exact Hres]. destruct Hres as (Hw2 & Hfr & Hcase). split; [done|].
  unfold rsp_frame in Hfr. injection Hfr as E1 E2 E3 E4 E5 E6 E7 E8 E9 E10.
  split; [unfold ports_room; rewrite E3; exact HR1|]. split; [|done]. unfold walk_frame. rewrite E3, E5, E6, E7, E8, E9, E10. subst u1. unfold drain. rproj.
  by rewrite length_map, length_insert.
Qed.

Lemma rounds_app cycles n k u : walk_rounds cycles (n + k) u = (u ← walk_rounds cycles n u; walk_rounds cycles k u).
Proof. revert u. induction n as [|n IH]; intros u; cbn [Nat.add walk_rounds]; [done|]. destruct (walk_round cycles u); [apply IH|done]. Qed.

(** From level [l], at most [l + 1] rounds decide the walk. *)
Lemma walk_decides cycles l : forall u, ptw_level_ u = l -> ptw_state_ u = PTW_REQ -> walk_ok u -> ports_room u ->
  exists n, (n <= S l)%nat /\
  match xl m s (ptw_vaddr_ u) with
  | None => walk_rounds cycles n u = None
  | Some _ => exists u', walk_rounds cycles n u = Some u' /\ ptw_state_ u' = PTW_FILL /\ walk_ok u' /\ ports_room u' /\ walk_frame u' = walk_frame u
  end.
Proof.
  induction l as [|l IH]; intros u Hl Hst Hw Hr; pose proof (round_down cycles u Hst Hw Hr) as H;
    destruct (walk_round cycles u) as [u1|] eqn:E1.
  2,4: (exists 1%nat; split; [lia|]; rewrite H; cbn [walk_rounds]; by rewrite E1).
  all: destruct H as (Hw1 & Hr1 & Hf1 & [Hs1|[Hs1 Hl1]]).
  2: lia.
  1,2: (exists 1%nat; split; [lia|]; pose proof Hw1 as Hw2; unfold walk_ok in Hw2; rewrite Hs1 in Hw2;
    assert (Ev : ptw_vaddr_ u1 = ptw_vaddr_ u) by (by injection Hf1); rewrite Ev in Hw2; rewrite Hw2;
    exists u1; cbn [walk_rounds]; rewrite E1; done).
  destruct (IH u1) as (n & Hn & Hres); [lia|done|done|done|]. exists (S n). split; [lia|].
  assert (Ev : ptw_vaddr_ u1 = ptw_vaddr_ u) by (by injection Hf1). rewrite Ev in Hres. cbn [walk_rounds]. rewrite E1. cbn [mbind option_bind].
  destruct (xl m s (ptw_vaddr_ u)); [|done]. destruct Hres as (u' & ? & ? & ? & ? & ?). exists u'. split_and!; try done. congruence.
Qed.

(** The last round fills the TLB and sends the request on. *)
Lemma fill_round cycles u r : ptw_state_ u = PTW_FILL -> walk_ok u -> in_u (va_width m) (ptw_vaddr_ u) -> tlb_sound vtr (tlb_ u) ->
  entries_ (tlb_ u) <> [] -> ptw_orig_req_ u = Some r -> forall c, ReqOut u !! ptw_orig_port_ u = Some c ->
  exists u' t, drive_ptw m u cycles = Some u' /\ tlb_ u' = t /\ tlb_sound vtr t /\ entries_ t <> [] /\
    (tlb_lookup t (Z.shiftr (ptw_vaddr_ u) 12)).2 = Some (Z.shiftr (fill_pa m u) 12) /\
    (ReqIn u', RspOut u', RspIn u', num_ports_ u', mmu_satp_ u') = (ReqIn u, RspOut u, RspIn u, num_ports_ u, mmu_satp_ u) /\
    if ch_full c
    then ptw_state_ u' = PTW_FILL /\ walk_ok u' /\ ptw_vaddr_ u' = ptw_vaddr_ u /\ ptw_orig_req_ u' = Some r /\ ptw_orig_port_ u' = ptw_orig_port_ u /\ ReqOut u' = ReqOut u
    else ptw_state_ u' = PTW_IDLE /\ ReqOut u' = <[ptw_orig_port_ u := ch_push c (r <| rq_addr := fill_pa m u |>)]> (ReqOut u).
Proof.
  intros Hst Hw Hv Ht Hn Hr c Hc. pose proof (fill_pa_ok u Hst Hw Hv) as Hpa. pose proof (vtr_translate _ _ Hv Hpa) as Hvt.
  destruct (tlb_fill_spec vtr (tlb_ u) _ _ (ptw_flags_ u) Ht Hn Hvt) as (t & Et & Hts & Htl & Hlk).
  assert (Htn : entries_ t <> []) by (intros E; apply Hn; rewrite E in Htl; by destruct (entries_ (tlb_ u))).
  unfold drive_ptw. rewrite Hst. unfold VX_VM_PAGE_LOG2_SIZE. rewrite Et. cbn [mbind option_bind]. rproj. rewrite Hr. cbn [mbind option_bind].
  unfold try_send. rproj. rewrite Hc. cbn [mbind option_bind]. unfold walk_ok in Hw. rewrite Hst in Hw.
  destruct (ch_full c); cbn [mbind option_bind]; do 2 eexists; (split; [reflexivity|]); rproj; split_and!; try done.
  unfold walk_ok. rproj. by rewrite Hst.
Qed.

Definition satp_installed (u : Mmu) : Prop := exists st, mmu_satp_ u = Some st /\ satp_mode st <> BARE /\ satp_ppn st = get_base_ppn s.

Lemma start_ok u cycles va ty r p : satp_installed u -> walk_ok (start_ptw m u cycles va ty r p).
Proof.
  intros (st & Hs & _ & Hp). unfold walk_ok, start_ptw. rproj. rewrite Hs. cbn [from_option]. rewrite Hp. constructor.
Qed.

Lemma walk_complete u cycles va ty r p : satp_installed u -> ports_room u -> (p < length (ReqOut u))%nat -> tlb_sound vtr (tlb_ u) ->
  entries_ (tlb_ u) <> [] -> in_u (va_width m) va ->
  match translate m s va with
  | Some pa => exists n u' c, (n <= L + 1)%nat /\ walk_rounds cycles n (start_ptw m u cycles va ty r p) = Some u' /\ ptw_state_ u' = PTW_IDLE /\
      ReqOut u' !! p = Some c /\ last (ch_q c) = Some (r <| rq_addr := pa |>) /\ tlb_sound vtr (tlb_ u') /\
      (tlb_lookup (tlb_ u') (Z.shiftr va 12)).2 = Some (Z.shiftr pa 12)
  | None => exists n, (n <= L)%nat /\ walk_rounds cycles n (start_ptw m u cycles va ty r p) = None
  end.
Proof.
  intros Hsat Hr Hp Ht Hn Hv. set (u1 := start_ptw m u cycles va ty r p).
  assert (Hl : ptw_level_ u1 = (L - 1)%nat) by done. pose proof (L_pos m) as HL.
  destruct (walk_decides cycles (L - 1) u1 Hl eq_refl (start_ok u cycles va ty r p Hsat) Hr) as (n & Hn' & Hres).
  change (ptw_vaddr_ u1) with va in Hres. rewrite (translate_xl m s T) by done.
  destruct (xl m s va) as [[q l]|] eqn:Ex; cbn [fmap option_fmap option_map fst snd]; [|exists n; split; [lia|done]].
  destruct Hres as (u2 & E2 & Hst2 & Hw2 & Hr2 & Hf2).
  assert (HF : tlb_ u2 = tlb_ u /\ ptw_vaddr_ u2 = va /\ ptw_orig_req_ u2 = Some r /\ ptw_orig_port_ u2 = p /\ length (ReqOut u2) = length (ReqOut u))
    by (injection Hf2; intros; by split_and!). destruct HF as (F3 & F4 & F5 & F6 & F7).
  destruct (port_room u2 p Hr2) as (c & Hc & Hfull); [lia|].
  assert (Hpa : fill_pa m u2 = leaf_pa m q l va).
  { pose proof (fill_pa_ok u2 Hst2 Hw2) as H. rewrite F4 in H. specialize (H Hv). rewrite (translate_xl m s T), Ex in H by done. by injection H. }
  rewrite <- F6 in Hc.
  destruct (fill_round cycles u2 r Hst2 Hw2 ltac:(by rewrite F4) ltac:(by rewrite F3) ltac:(by rewrite F3) F5 c Hc)
    as (u3 & t & E3 & Et & Hts & _ & Hlk & _ & Hcase). rewrite F4, F6, Hfull, Hpa in *. destruct Hcase as [Hidle Hout].
  exists (n + 1)%nat, u3, (ch_push c (r <| rq_addr := leaf_pa m q l va |>)). split; [lia|]. split.
  { rewrite rounds_app, E2. cbn [mbind option_bind walk_rounds]. unfold walk_round. rewrite E3. cbn [mbind option_bind]. by rewrite Hidle. }
  split; [done|]. split; [rewrite Hout; apply list_lookup_insert_eq; lia|]. split; [unfold ch_push; cbn [ch_q]; by rewrite last_snoc|].
  by rewrite Et.
Qed.

(** ** Traffic *)

(** A request as it should leave. *)
Definition xlt (x : nat * MemReq) : nat * MemReq := (x.1, x.2 <| rq_addr := default 0 (translate m s (rq_addr x.2)) |>).

(** The request a walk is for. *)
Definition walking (u : Mmu) : list (nat * MemReq) :=
  match ptw_state_ u, ptw_orig_req_ u with
  | PTW_IDLE, _ | _, None => []
  | _, Some r => [(ptw_orig_port_ u, r)]
  end.

Definition good_req (r : MemReq) : Prop :=
  marked (rq_tag r) = false /\ in_u (va_width m) (rq_addr r) /\ is_Some (translate m s (rq_addr r)).

(** The outstanding fetch: in the request channel or with the memory, or
    answered; none unless the walker waits. *)
Definition fetch_inv (u : Mmu) (pool : list (nat * MemReq)) : Prop :=
  let rq := fetches (tagged (ReqOut u) ++ pool) in
  let rs := fetch_rsps (tagged (RspIn u)) in
  match ptw_state_ u with
  | PTW_WAIT => (rq = [(0%nat, ptw_request (ptw_pte_addr_ u))] /\ rs = []) \/
      (rq = [] /\ exists p r, rs = [(p, r)] /\ rs_data r = Some (line_of (ptw_pte_addr_ u)))
  | _ => rq = [] /\ rs = []
  end.

Definition ports_ok (u : Mmu) : Prop :=
  (0 < num_ports_ u)%nat /\ length (ReqIn u) = num_ports_ u /\ length (ReqOut u) = num_ports_ u /\
  length (RspIn u) = num_ports_ u /\ length (RspOut u) = num_ports_ u.

Record traffic (pool issued left : list (nat * MemReq)) (u : Mmu) : Prop := {
  tf_walk : walk_ok u;
  tf_tlb : tlb_sound vtr (tlb_ u);
  tf_tlbn : entries_ (tlb_ u) <> [];
  tf_satp : satp_installed u;
  tf_ports : ports_ok u;
  tf_orig : ptw_state_ u = PTW_IDLE \/
    exists r, ptw_orig_req_ u = Some r /\ rq_addr r = ptw_vaddr_ u /\ good_req r /\ (ptw_orig_port_ u < num_ports_ u)%nat;
  tf_in p r : (p, r) ∈ tagged (ReqIn u) -> good_req r;
  tf_fetch : fetch_inv u pool;
  tf_all : map xlt issued ≡ₚ map xlt (tagged (ReqIn u) ++ walking u) ++ data_reqs (tagged (ReqOut u)) ++ left
}.

Lemma traffic_tlb pool issued left u t : traffic pool issued left u -> tlb_sound vtr t -> entries_ t <> [] ->
  traffic pool issued left (u <| tlb_ := t |>).
Proof. intros [] Ht Hn. constructor; done. Qed.

Lemma walking_some u r : ptw_state_ u <> PTW_IDLE -> ptw_orig_req_ u = Some r -> walking u = [(ptw_orig_port_ u, r)].
Proof. intros Hs Hr. unfold walking. rewrite Hr. by destruct (ptw_state_ u). Qed.

Lemma mapped_walk u r : rq_addr r = ptw_vaddr_ u -> good_req r -> xl m s (ptw_vaddr_ u) <> None.
Proof. intros <- (_ & Hv & [pa Ht]) E. rewrite (translate_xl m s T), E in Ht by done. done. Qed.

(** A response half of a cycle. *)
Lemma rsp_traffic pool issued left u p : traffic pool issued left u -> (p < num_ports_ u)%nat ->
  exists u', tick_rsp m u p = Some u' /\ traffic pool issued left u' /\ num_ports_ u' = num_ports_ u.
Proof.
  intros HT Hp. pose proof (tf_ports _ _ _ _ HT) as (P0 & P1 & P2 & P3 & P4). unfold tick_rsp.
  destruct (lookup_lt_is_Some_2 (RspIn u) p) as [ci Hci]; [lia|]. rewrite Hci. cbn [mbind option_bind].
  destruct (ch_q ci) as [|rsp q] eqn:Eq; [by exists u|]. pose proof (tagged_pop _ _ _ _ _ Hci Eq) as Hpop.
  fold (marked (rs_tag rsp)). destruct (marked (rs_tag rsp)) eqn:Em.
  - pose proof (tf_fetch _ _ _ _ HT) as HF. unfold fetch_inv in HF. pose proof (fetch_rsps_pop _ _ _ _ _ Hci Eq) as Hrs. rewrite Em in Hrs.
    assert (Hcase : ptw_state_ u = PTW_WAIT /\ fetches (tagged (ReqOut u) ++ pool) = [] /\
      fetch_rsps (tagged (<[p := ch_pop ci]> (RspIn u))) = [] /\ rs_data rsp = Some (line_of (ptw_pte_addr_ u))).
    { assert (Hne : fetch_rsps (tagged (RspIn u)) <> []) by (intros E; rewrite E in Hrs; by apply Permutation_nil_l in Hrs).
      destruct (ptw_state_ u); try (by destruct HF). split; [done|]. destruct HF as [[_ HF]|(Hrq & p' & r' & HF & Hdat)]; [done|].
      rewrite HF in Hrs. apply Permutation_singleton_l in Hrs. injection Hrs as -> -> Hnil. done. }
    destruct Hcase as (Hst & Hrq & Hrs' & Hdat). rewrite Hst. pose proof (response_ok u rsp Hst (tf_walk _ _ _ _ HT) Hdat) as Hres.
    destruct (tf_orig _ _ _ _ HT) as [|(r & Hr & Hra & Hgr & Hpo)]; [congruence|].
    destruct (on_ptw_response m u rsp) as [u1|]; [|by apply (mapped_walk u r Hra Hgr) in Hres].
    cbn [mbind option_bind]. destruct Hres as (Hw1 & Hfr & Hs1). unfold rsp_frame in Hfr. injection Hfr as E1 E2 E3 E4 E5 E6 E7 E8 E9 E10.
    assert (Hni : ptw_state_ u1 <> PTW_IDLE) by (destruct Hs1 as [->|[-> _]]; done).
    eexists. split; [reflexivity|]. split; [|exact E5]. constructor; try done.
    + rproj. rewrite E7. apply HT.
    + rproj. rewrite E7. apply HT.
    + unfold satp_installed. rproj. rewrite E6. apply HT.
    + unfold ports_ok. rproj. rewrite E1, E2, E3, E4, E5, length_insert. done.
    + right. exists r. rproj. rewrite E5, E8, E9, E10. done.
    + rproj. rewrite E1. apply HT.
    + unfold fetch_inv. rproj. rewrite E3, E4, Hrq, Hrs'. by destruct Hs1 as [->|[-> _]].
    + change (walking (u1 <| RspIn := _ |>)) with (walking u1). rproj. rewrite E1, E3.
      rewrite (walking_some u1 r), E10, <- (walking_some u r) by (done || congruence). apply HT.
  - destruct (lookup_lt_is_Some_2 (RspOut u) p) as [co Hco]; [lia|]. rewrite Hco. cbn [mbind option_bind].
    destruct (ch_full co); [by exists u|]. pose proof (fetch_rsps_pop _ _ _ _ _ Hci Eq) as Hrs. rewrite Em in Hrs. cbn [app] in Hrs.
    eexists. split; [reflexivity|]. split; [|done]. destruct HT as [? ? ? ? ? ? ? HF ?]. constructor; try done.
    + unfold ports_ok. rproj. rewrite !length_insert. done.
    + unfold fetch_inv in *. rproj. destruct (ptw_state_ u); try (destruct HF as [-> HF]; rewrite HF in Hrs; apply Permutation_nil_l in Hrs; done).
      destruct HF as [[-> HF]|(-> & p' & r' & HF & Hdat)]; rewrite HF in Hrs.
      * apply Permutation_nil_l in Hrs. by left.
      * apply Permutation_singleton_l in Hrs. right. split; [done|]. by exists p', r'.
Qed.

(** Sending a data request that has its translated address. *)
Lemma send_fetch u u' p c r pool : fetch_inv u pool -> ReqOut u !! p = Some c -> marked (rq_tag r) = false ->
  ReqOut u' = <[p := ch_push c r]> (ReqOut u) -> RspIn u' = RspIn u -> ptw_pte_addr_ u' = ptw_pte_addr_ u ->
  (ptw_state_ u' = ptw_state_ u \/ ptw_state_ u' = PTW_IDLE /\ ptw_state_ u <> PTW_WAIT) -> fetch_inv u' pool.
Proof.
  intros HF Hc Hm E1 E2 E3 Hs. pose proof (fetches_push (ReqOut u) p c r pool Hc) as Hp. rewrite Hm in Hp. cbn [app] in Hp.
  unfold fetch_inv in *. cbv zeta in *. rewrite E1, E2, E3. destruct Hs as [->|[-> Hn]].
  - destruct (ptw_state_ u); try (destruct HF as [HF ->]; rewrite HF in Hp; apply Permutation_nil_r in Hp; done).
    destruct HF as [[HF ->]|(HF & Hx)]; rewrite HF in Hp; [apply Permutation_singleton_r in Hp; by left|apply Permutation_nil_r in Hp; by right].
  - destruct (ptw_state_ u); try done; destruct HF as [HF ->]; rewrite HF in Hp; by apply Permutation_nil_r in Hp.
Qed.

Lemma req_traffic_wait pool issued left u cycles : traffic pool issued left u -> ptw_state_ u = PTW_REQ ->
  exists u', drive_ptw m u cycles = Some u' /\ traffic pool issued left u' /\ num_ports_ u' = num_ports_ u.
Proof.
  intros HT Hst. pose proof (tf_ports _ _ _ _ HT) as (P0 & P1 & P2 & P3 & P4). destruct HT as [Hw Ht Hn Hsat Hpo Hor Hin HF Hall].
  unfold drive_ptw. rewrite Hst, walk_index. destruct (lookup_lt_is_Some_2 (ReqOut u) 0) as [c Hc]; [lia|].
  unfold try_send. rproj. rewrite Hc. cbn [mbind option_bind].
  unfold walk_ok in Hw. rewrite Hst in Hw. unfold fetch_inv in HF. rewrite Hst in HF. destruct HF as [HF1 HF2].
  destruct Hor as [Hor|(r & Hr & Hrest)]; [congruence|].
  destruct (ch_full c); cbn [mbind option_bind]; (eexists; split; [reflexivity|]; split; [|done]); constructor; try done.
  all: try (right; by exists r).
  - unfold walk_ok. rproj. by rewrite Hst.
  - unfold fetch_inv. rproj. by rewrite Hst.
  - unfold ports_ok. rproj. by rewrite length_insert.
  - unfold fetch_inv. rproj. left. pose proof (fetches_push (ReqOut u) 0 c (ptw_request (mmu_pte_addr m (ptw_cur_ppn_ u) (vx m (ptw_vaddr_ u) (ptw_level_ u)))) pool Hc) as Hp.
    change (marked (rq_tag (ptw_request _))) with true in Hp. rewrite HF1 in Hp. apply Permutation_singleton_r in Hp. done.
  - rproj. pose proof (data_reqs_push (ReqOut u) 0 c (ptw_request (mmu_pte_addr m (ptw_cur_ppn_ u) (vx m (ptw_vaddr_ u) (ptw_level_ u)))) Hc) as Hp.
    change (marked (rq_tag (ptw_request _))) with true in Hp. cbn [app] in Hp. rewrite Hp.
    rewrite (walking_some u r) in Hall by congruence. unfold walking. rproj. by rewrite Hr.
Qed.

Lemma fill_traffic pool issued left u cycles : traffic pool issued left u -> ptw_state_ u = PTW_FILL ->
  exists u', drive_ptw m u cycles = Some u' /\ traffic pool issued left u' /\ num_ports_ u' = num_ports_ u.
Proof.
  intros HT Hst. pose proof (tf_ports _ _ _ _ HT) as (P0 & P1 & P2 & P3 & P4). destruct HT as [Hw Ht Hn Hsat Hpo Hor Hin HF Hall].
  destruct Hor as [Hor|(r & Hr & Hra & Hg & Hp)]; [congruence|]. pose proof Hg as (Hmk & Hv & _). rewrite Hra in Hv.
  destruct (lookup_lt_is_Some_2 (ReqOut u) (ptw_orig_port_ u)) as [c Hc]; [lia|].
  destruct (fill_round cycles u r Hst Hw Hv Ht Hn Hr c Hc) as (u' & t & Ed & Et & Hts & Htn & _ & Hfr & Hcase).
  injection Hfr as E1 E2 E3 E4 E5. exists u'. split; [done|]. split; [|done].
  assert (Hsat' : satp_installed u') by (unfold satp_installed; rewrite E5; exact Hsat).
  assert (Hlen : length (ReqOut u') = length (ReqOut u)) by (destruct (ch_full c); [by destruct Hcase as (_&_&_&_&_&->)|destruct Hcase as [_ ->]; apply length_insert]).
  assert (Hpo' : ports_ok u') by (unfold ports_ok; rewrite E1, E2, E3, E4, Hlen; done).
  rewrite (walking_some u r) in Hall by congruence. pose proof (fill_pa_ok u Hst Hw Hv) as Hpa.
  destruct (ch_full c).
  - destruct Hcase as (S1 & S2 & S3 & S4 & S5 & S6). constructor; try (rewrite ?Et; done).
    + right. exists r. rewrite S3, S5, E4. done.
    + rewrite E1. done.
    + unfold fetch_inv in *. rewrite Hst in HF. rewrite S1, S6, E3. done.
    + rewrite E1, S6, (walking_some u' r), S5 by congruence. done.
  - destruct Hcase as [S1 S2]. constructor; try (rewrite ?Et; done).
    + unfold walk_ok. by rewrite S1.
    + by left.
    + rewrite E1. done.
    + unfold fetch_inv in *. cbv zeta in *. rewrite Hst in HF. rewrite S1, S2, E3. destruct HF as [HF ->].
      pose proof (fetches_push (ReqOut u) _ c (r <| rq_addr := fill_pa m u |>) pool Hc) as Hf. change (rq_tag (r <| rq_addr := _ |>)) with (rq_tag r) in Hf.
      rewrite Hmk in Hf. cbn [app] in Hf. rewrite HF in Hf. by apply Permutation_nil_r in Hf.
    + rewrite E1, S2. unfold walking. rewrite S1. pose proof (data_reqs_push (ReqOut u) _ c (r <| rq_addr := fill_pa m u |>) Hc) as Hf.
      change (rq_tag (r <| rq_addr := _ |>)) with (rq_tag r) in Hf. rewrite Hmk in Hf. rewrite Hf, Hall, !map_app, app_nil_r. cbn [map].
      assert (xlt (ptw_orig_port_ u, r) = (ptw_orig_port_ u, r <| rq_addr := fill_pa m u |>)) as ->.
      { unfold xlt. cbn [fst snd]. by rewrite Hra, Hpa. }
      by rewrite <- app_assoc.
Qed.

(** Forwarding the head of an input port with its translation. *)
Lemma forward_traffic pool issued left u p ci req q c pa : traffic pool issued left u ->
  ReqIn u !! p = Some ci -> ch_q ci = req :: q -> ReqOut u !! p = Some c -> translate m s (rq_addr req) = Some pa ->
  traffic pool issued left (u <| ReqOut := <[p := ch_push c (req <| rq_addr := pa |>)]> (ReqOut u) |> <| ReqIn := <[p := ch_pop ci]> (ReqIn u) |>).
Proof.
  intros HT Hci Eq Hc Hpa. pose proof (tf_ports _ _ _ _ HT) as (P0 & P1 & P2 & P3 & P4).
  pose proof (tf_in _ _ _ _ HT p req (tagged_head _ _ _ _ _ Hci Eq)) as (Hmk & Hv & _). pose proof (tagged_pop _ _ _ _ _ Hci Eq) as Hpop.
  destruct HT as [Hw Ht Hn Hsat Hpo Hor Hin HF Hall]. constructor; try done.
  - unfold ports_ok. rproj. by rewrite !length_insert.
  - intros p' r' Hr'. apply (Hin p' r'). rewrite Hpop. by right.
  - eapply (send_fetch u _ p c (req <| rq_addr := pa |>)); try done. by left.
  - rproj. pose proof (data_reqs_push (ReqOut u) p c (req <| rq_addr := pa |>) Hc) as Hd'. change (rq_tag (req <| rq_addr := _ |>)) with (rq_tag req) in Hd'.
    rewrite Hmk in Hd'. rewrite Hd', Hall, Hpop. cbn [app map].
    assert (xlt (p, req) = (p, req <| rq_addr := pa |>)) as -> by (unfold xlt; cbn [fst snd]; by rewrite Hpa). apply Permutation_middle.
Qed.

(** Starting a walk for the head of an input port. *)
Lemma miss_traffic pool issued left u p ci req q cycles ty : traffic pool issued left u -> ptw_state_ u = PTW_IDLE ->
  ReqIn u !! p = Some ci -> ch_q ci = req :: q ->
  traffic pool issued left ((start_ptw m u cycles (rq_addr req) ty req p) <| ReqIn := <[p := ch_pop ci]> (ReqIn u) |>).
Proof.
  intros HT Hst Hci Eq. pose proof (tf_ports _ _ _ _ HT) as (P0 & P1 & P2 & P3 & P4).
  pose proof (tf_in _ _ _ _ HT p req (tagged_head _ _ _ _ _ Hci Eq)) as Hg. pose proof (tagged_pop _ _ _ _ _ Hci Eq) as Hpop.
  pose proof (lookup_lt_Some _ _ _ Hci) as Hlt.
  destruct HT as [Hw Ht Hn Hsat Hpo Hor Hin HF Hall]. constructor; try done.
  - destruct Hsat as (st & Hs & _ & Hp). unfold walk_ok, start_ptw. rproj. rewrite Hs. cbn [from_option]. rewrite Hp. constructor.
  - unfold ports_ok, start_ptw. rproj. by rewrite length_insert.
  - right. exists req. unfold start_ptw. rproj. split_and!; try done. lia.
  - intros p' r' Hr'. apply (Hin p' r'). rewrite Hpop. by right.
  - unfold fetch_inv in *. unfold start_ptw. rproj. by rewrite Hst in HF.
  - assert (Hwk : walking u = []) by (unfold walking; by rewrite Hst). rewrite Hwk, app_nil_r in Hall. unfold walking, start_ptw. rproj.
    rewrite Hall, Hpop, map_app. cbn [map app]. rewrite <- app_assoc. cbn [app]. apply Permutation_middle.
Qed.

Lemma req_traffic pool issued left u cycles p : traffic pool issued left u -> (p < num_ports_ u)%nat ->
  exists u', tick_req m u cycles p = Some u' /\ traffic pool issued left u' /\ num_ports_ u' = num_ports_ u.
Proof.
  intros HT Hp. pose proof (tf_ports _ _ _ _ HT) as (P0 & P1 & P2 & P3 & P4). unfold tick_req.
  destruct (lookup_lt_is_Some_2 (ReqIn u) p) as [ci Hci]; [lia|]. rewrite Hci. cbn [mbind option_bind].
  destruct (ch_q ci) as [|req q] eqn:Eq; [by exists u|].
  destruct (tf_satp _ _ _ _ HT) as (st & Hst & Hmode & _).
  assert (needs_translation u = true) as -> by (unfold needs_translation; rewrite Hst; by apply negb_true_iff, Z.eqb_neq). cbn [negb].
  pose proof (tf_in _ _ _ _ HT p req (tagged_head _ _ _ _ _ Hci Eq)) as (_ & Hv & _).
  destruct (tlb_lookup_spec vtr (tlb_ u) (Z.shiftr (rq_addr req) 12) (tf_tlb _ _ _ _ HT)) as (Hts & Htl & Hhit). unfold VX_VM_PAGE_LOG2_SIZE at 1.
  destruct (tlb_lookup (tlb_ u) (Z.shiftr (rq_addr req) 12)) as [t r]. cbn [fst snd] in *.
  assert (Htn : entries_ t <> []) by (intros E; apply (tf_tlbn _ _ _ _ HT); rewrite E in Htl; by destruct (entries_ (tlb_ u))).
  pose proof (traffic_tlb _ _ _ _ _ HT Hts Htn) as HT1. destruct r as [ppn|].
  - destruct (lookup_lt_is_Some_2 (ReqOut u) p) as [c Hc]; [lia|]. pose proof (vtr_hit _ _ Hv Hhit) as Hpa.
    unfold try_send. rproj. rewrite Hc. cbn [mbind option_bind]. destruct (ch_full c); cbn [mbind option_bind]; (eexists; split; [reflexivity|]; split; [|done]).
    + exact HT1.
    + by apply (forward_traffic _ _ _ _ p ci req q c _ HT1).
  - destruct (ptw_state_ (u <| tlb_ := t |>)) eqn:Es; (eexists; split; [reflexivity|]; split; [|done]); try exact HT1.
    exact (miss_traffic _ _ _ _ p ci req q cycles _ HT1 Es Hci Eq).
Qed.

(** A whole cycle: it completes and keeps the accounts. *)
Lemma tick_traffic pool issued left u cycles : traffic pool issued left u ->
  exists u', mmu_on_tick m u cycles = Some u' /\ traffic pool issued left u'.
Proof.
  intros HT. unfold mmu_on_tick.
  assert (HR : forall l u, traffic pool issued left u -> Forall (fun p => (p < num_ports_ u)%nat) l ->
    exists u', fold_left (fun u p => u ← u; tick_rsp m u p) l (Some u) = Some u' /\ traffic pool issued left u' /\ num_ports_ u' = num_ports_ u).
  { induction l as [|p l IH]; intros v HV Hl; cbn [fold_left]; [by exists v|]. apply Forall_cons_iff in Hl as [Hp Hl].
    cbn [mbind option_bind]. destruct (rsp_traffic _ _ _ _ p HV Hp) as (v1 & -> & HV1 & En). destruct (IH v1 HV1) as (v2 & -> & HV2 & En2); [by rewrite En|].
    exists v2. split; [done|]. split; [done|congruence]. }
  assert (HQ : forall l u, traffic pool issued left u -> Forall (fun p => (p < num_ports_ u)%nat) l ->
    exists u', fold_left (fun u p => u ← u; tick_req m u cycles p) l (Some u) = Some u' /\ traffic pool issued left u').
  { induction l as [|p l IH]; intros v HV Hl; cbn [fold_left]; [by exists v|]. apply Forall_cons_iff in Hl as [Hp Hl].
    cbn [mbind option_bind]. destruct (req_traffic _ _ _ _ cycles p HV Hp) as (v1 & -> & HV1 & En). apply IH; [done|]. by rewrite En. }
  assert (Hseq : forall n, Forall (fun p => (p < n)%nat) (seq 0 n)) by (intros n; apply list.Forall_forall; intros p Hp; apply elem_of_seq in Hp; lia).
  destruct (HR (seq 0 (num_ports_ u)) u HT (Hseq _)) as (u1 & -> & HT1 & _). cbn [mbind option_bind].
  assert (HD : exists u2, match ptw_state_ u1 with PTW_IDLE | PTW_WAIT => Some u1 | _ => drive_ptw m u1 cycles end = Some u2 /\ traffic pool issued left u2).
  { destruct (ptw_state_ u1) eqn:Es; try (by exists u1).
    - destruct (req_traffic_wait _ _ _ u1 cycles HT1 Es) as (u2 & ? & ? & _). by exists u2.
    - destruct (fill_traffic _ _ _ u1 cycles HT1 Es) as (u2 & ? & ? & _). by exists u2. }
  destruct HD as (u2 & -> & HT2). cbn [mbind option_bind]. apply HQ; [done|apply Hseq].
Qed.

(** ** The MMU between its ports and a memory

    [sy_issued] and [sy_left] record the requests put in upstream and the data
    requests the memory has taken. *)

Record mmu_sys := { sy_u : Mmu; sy_pool : list (nat * MemReq); sy_issued : list (nat * MemReq); sy_left : list (nat * MemReq) }.

Inductive sys_step (x : mmu_sys) : mmu_sys -> Prop :=
| sys_issue p c r : ReqIn (sy_u x) !! p = Some c -> ch_full c = false -> good_req r ->
    sys_step x {| sy_u := (sy_u x) <| ReqIn := <[p := ch_push c r]> (ReqIn (sy_u x)) |>; sy_pool := sy_pool x;
                  sy_issued := sy_issued x ++ [(p, r)]; sy_left := sy_left x |}
| sys_tick cycles u' : mmu_on_tick m (sy_u x) cycles = Some u' ->
    sys_step x {| sy_u := u'; sy_pool := sy_pool x; sy_issued := sy_issued x; sy_left := sy_left x |}
| sys_take p c r q : ReqOut (sy_u x) !! p = Some c -> ch_q c = r :: q ->
    sys_step x {| sy_u := (sy_u x) <| ReqOut := <[p := ch_pop c]> (ReqOut (sy_u x)) |>; sy_pool := sy_pool x ++ [(p, r)];
                  sy_issued := sy_issued x; sy_left := (if marked (rq_tag r) then [] else [(p, r)]) ++ sy_left x |}
| sys_reply p r pool1 pool2 c rsp : sy_pool x = pool1 ++ (p, r) :: pool2 -> RspIn (sy_u x) !! p = Some c -> ch_full c = false ->
    rs_tag rsp = rq_tag r -> (marked (rq_tag r) = true -> rs_data rsp = Some (line_of (rq_addr r))) ->
    sys_step x {| sy_u := (sy_u x) <| RspIn := <[p := ch_push c rsp]> (RspIn (sy_u x)) |>; sy_pool := pool1 ++ pool2;
                  sy_issued := sy_issued x; sy_left := sy_left x |}
| sys_consume p c r q : RspOut (sy_u x) !! p = Some c -> ch_q c = r :: q ->
    sys_step x {| sy_u := (sy_u x) <| RspOut := <[p := ch_pop c]> (RspOut (sy_u x)) |>; sy_pool := sy_pool x;
                  sy_issued := sy_issued x; sy_left := sy_left x |}.

(** A new MMU whose root register has been written. *)
Definition sys_start (ports tlb_size cap : nat) : mmu_sys :=
  {| sy_u := mmu_set_satp m (Mmu_init ports tlb_size cap) (vm_satp s); sy_pool := []; sy_issued := []; sy_left := [] |}.

Lemma set_satp_installed u : satp_ok m s -> satp_installed (mmu_set_satp m u (vm_satp s)).
Proof.
  intros (addr & satp & Hm & Hs & Ha).
  destruct (satp_encode m addr 0 Ha) as (satp' & Hm' & _ & Hnb & _ & Hppn & _); [destruct m; cbn; unfold in_u; lia|].
  rewrite Hm in Hm'. injection Hm' as <-. unfold satp_installed, mmu_set_satp, vm_satp, get_base_ppn. rewrite Hs. rproj. eauto.
Qed.

Lemma tagged_empty {A} n cap : forall k, tagged_from k (replicate n {| ch_cap := cap; ch_q := [] : list A |}) = [].
Proof. clear. induction n as [|n IH]; intros k; [done|]. cbn [replicate]. rewrite tagged_cons, IH. done. Qed.

Lemma start_traffic ports tlb_size cap : satp_ok m s -> (0 < ports)%nat -> (0 < tlb_size)%nat ->
  traffic [] [] [] (sy_u (sys_start ports tlb_size cap)).
Proof.
  intros Hs Hp Ht. cbn [sys_start sy_u]. constructor; unfold mmu_set_satp, Mmu_init; try (by left).
  - done.
  - apply tlb_flush_sound.
  - rproj. by destruct tlb_size; [lia|].
  - by apply (set_satp_installed (Mmu_init ports tlb_size cap)).
  - unfold ports_ok. rproj. by rewrite !length_replicate.
  - rproj. intros p r. rewrite tagged_empty. by intros ?%elem_of_nil.
  - unfold fetch_inv. rproj. by rewrite !tagged_empty.
  - rproj. by rewrite !tagged_empty.
Qed.

Lemma fetch_split l1 x l2 l : fetches (l ++ l1 ++ x :: l2) ≡ₚ (if marked (rq_tag x.2) then [x] else []) ++ fetches (l ++ l1 ++ l2).
Proof.
  unfold fetches. assert (E : l ++ l1 ++ x :: l2 ≡ₚ x :: l ++ l1 ++ l2) by solve_Permutation. rewrite E.
  destruct (marked (rq_tag x.2)) eqn:Em; [by rewrite filter_cons_True by done|]. rewrite filter_cons_False; [done|]. congruence.
Qed.

(** Replies keep the account of fetches. *)
Lemma reply_fetch u pool1 pool2 p r c rsp : fetch_inv u (pool1 ++ (p, r) :: pool2) -> RspIn u !! p = Some c -> rs_tag rsp = rq_tag r ->
  (marked (rq_tag r) = true -> rs_data rsp = Some (line_of (rq_addr r))) ->
  fetch_inv (u <| RspIn := <[p := ch_push c rsp]> (RspIn u) |>) (pool1 ++ pool2).
Proof.
  intros HF Hc Htag Hdat. pose proof (fetch_split pool1 (p, r) pool2 (tagged (ReqOut u))) as Hrq. cbn [snd] in Hrq.
  pose proof (fetch_rsps_push (RspIn u) p c rsp Hc) as Hrs. rewrite Htag in Hrs. unfold fetch_inv in *. rproj. destruct (marked (rq_tag r)) eqn:Em; cbn [app] in *.
  - destruct (ptw_state_ u); try (destruct HF as [HF _]; rewrite HF in Hrq; by apply Permutation_nil_l in Hrq).
    destruct HF as [[HF HF']|[HF _]]; rewrite HF in Hrq; [|by apply Permutation_nil_l in Hrq].
    apply Permutation_singleton_l in Hrq. injection Hrq as E1 E2 Hnil. subst p r. right. split; [done|]. exists 0%nat, rsp.
    rewrite HF' in Hrs. apply Permutation_singleton_r in Hrs. split; [done|]. by apply Hdat.
  - destruct (ptw_state_ u); try (destruct HF as [HF1 HF2]; rewrite HF1 in Hrq; rewrite HF2 in Hrs; apply Permutation_nil_l in Hrq; apply Permutation_nil_r in Hrs; done).
    destruct HF as [[HF1 HF2]|(HF1 & p' & r' & HF2 & Hd')]; rewrite HF1 in Hrq; rewrite HF2 in Hrs.
    + left. apply Permutation_singleton_l in Hrq. apply Permutation_nil_r in Hrs. done.
    + right. apply Permutation_nil_l in Hrq. apply Permutation_singleton_r in Hrs. split; [done|]. by exists p', r'.
Qed.

Lemma step_traffic x y : traffic (sy_pool x) (sy_issued x) (sy_left x) (sy_u x) -> sys_step x y ->
  traffic (sy_pool y) (sy_issued y) (sy_left y) (sy_u y).
Proof.
  intros HT Hs. pose proof (tf_ports _ _ _ _ HT) as (P0 & P1 & P2 & P3 & P4).
  destruct Hs as [p c r Hc Hf Hg|cycles u' Hu|p c r q Hc Hq|p r pool1 pool2 c rsp Hpool Hc Hf Htag Hdat|p c r q Hc Hq]; cbn [sy_u sy_pool sy_issued sy_left].
  - destruct HT as [Hw Ht Hn Hsat Hpo Hor Hin HF Hall]. constructor; try done.
    + unfold ports_ok. rproj. by rewrite length_insert.
    + intros p' r' Hr. rproj. rewrite (tagged_push _ _ _ _ Hc) in Hr. apply elem_of_cons in Hr as [[= -> ->]|Hr]; [done|by apply (Hin p')].
    + rproj. change (walking ((sy_u x) <| ReqIn := _ |>)) with (walking (sy_u x)). rewrite map_app, Hall, (tagged_push _ _ _ _ Hc). cbn [map app].
      rewrite (Permutation_app_comm _ [_]). done.
  - destruct (tick_traffic _ _ _ _ cycles HT) as (u2 & E & HT2). rewrite Hu in E. by injection E as <-.
  - pose proof (fetches_take _ _ _ _ _ (sy_pool x) Hc Hq) as Hfe. pose proof (data_reqs_take _ _ _ _ _ Hc Hq) as Hda.
    destruct HT as [Hw Ht Hn Hsat Hpo Hor Hin HF Hall]. constructor; try done.
    + unfold ports_ok. rproj. by rewrite length_insert.
    + unfold fetch_inv in *. rproj. destruct (ptw_state_ (sy_u x)); try (destruct HF as [HF ->]; rewrite HF in Hfe; apply Permutation_nil_r in Hfe; done).
      destruct HF as [[HF ->]|(HF & Hx)]; rewrite HF in Hfe; [apply Permutation_singleton_r in Hfe; by left|apply Permutation_nil_r in Hfe; by right].
    + rproj. change (walking ((sy_u x) <| ReqOut := _ |>)) with (walking (sy_u x)). rewrite Hall, Hda. apply Permutation_app_head. solve_Permutation.
  - rewrite Hpool in HT. destruct HT as [Hw Ht Hn Hsat Hpo Hor Hin HF Hall]. constructor; try done.
    + unfold ports_ok. rproj. by rewrite length_insert.
    + by apply (reply_fetch _ _ _ p r c rsp HF).
  - destruct HT as [Hw Ht Hn Hsat Hpo Hor Hin HF Hall]. constructor; try done. unfold ports_ok. rproj. by rewrite length_insert.
Qed.

Lemma reach_traffic ports tlb_size cap x : satp_ok m s -> (0 < ports)%nat -> (0 < tlb_size)%nat ->
  rtc sys_step (sys_start ports tlb_size cap) x -> traffic (sy_pool x) (sy_issued x) (sy_left x) (sy_u x).
Proof.
  intros Hs Hp Ht Hr. pose proof (start_traffic ports tlb_size cap Hs Hp Ht) as H0. remember (sys_start ports tlb_size cap) as x0 eqn:E0.
  assert (traffic (sy_pool x0) (sy_issued x0) (sy_left x0) (sy_u x0)) as H by (rewrite E0 in *; exact H0). clear E0 H0.
  induction Hr as [x|x y z Hxy Hyz IH]; [done|]. apply IH. by eapply step_traffic.
Qed.

End Walk.

(** ** Claims *)

Section Claims.
Context (m : vm_mode) {R : Type}.
Context {D : Type} (rd : D -> Z -> Z -> list Z) (wr : D -> Z -> list Z -> D) {M : FlatMem rd wr}.
Implicit Types (s : @VMManager R) (d : D).

(** C32 (termination): the page-table walker always comes to an end, and agrees with the host.  When the tables are
    well formed and in device memory, a walk started for any address is decided after at most as many fetches as
    there are levels: when the manager translates the address, one more round sends the original request on its
    port with the manager's physical address, leaves the walker idle and the translation in the TLB; when it does
    not, the walk stops at a page fault. *)
Theorem mmu_walk_terminates s T d u cycles va ty r p :
  pt_inv m s T -> synced rd wr s d -> dirty_pt_pages_ s = ∅ -> satp_installed s u -> ports_room u -> (p < length (ReqOut u))%nat ->
  tlb_sound (vtr m s) (tlb_ u) -> entries_ (tlb_ u) <> [] -> in_u (va_width m) va ->
  match translate m s va with
  | Some pa => exists n u' c, (n <= VX_VM_PT_LEVEL m + 1)%nat /\ walk_rounds m rd d cycles n (start_ptw m u cycles va ty r p) = Some u' /\
      ptw_state_ u' = PTW_IDLE /\ ReqOut u' !! p = Some c /\ last (ch_q c) = Some (r <| rq_addr := pa |>) /\
      tlb_sound (vtr m s) (tlb_ u') /\ (tlb_lookup (tlb_ u') (Z.shiftr va 12)).2 = Some (Z.shiftr pa 12)
  | None => exists n, (n <= VX_VM_PT_LEVEL m)%nat /\ walk_rounds m rd d cycles n (start_ptw m u cycles va ty r p) = None
  end.
Proof. intros HI HS Hd. by apply (walk_complete m rd wr s T d HI HS Hd). Qed.

(** C4 (safety): traffic through the MMU.  Put the MMU between ports that issue requests to mapped addresses and a
    memory that answers in any order and at any time.  In every reachable state a cycle completes without a page
    fault, every valid TLB entry is a translation of the tables, and the requests issued so far are exactly those
    still queued, the one being walked for, and those forwarded, each of these once, on its own port, with all
    fields unchanged but the address, which is the translated one. *)
Theorem mmu_traffic_safe s T d ports tlb_size cap x : pt_inv m s T -> synced rd wr s d -> dirty_pt_pages_ s = ∅ -> satp_ok m s ->
  (0 < ports)%nat -> (0 < tlb_size)%nat -> rtc (sys_step m rd s d) (sys_start m s ports tlb_size cap) x ->
  (forall cycles, mmu_on_tick m (sy_u x) cycles <> None) /\ tlb_sound (vtr m s) (tlb_ (sy_u x)) /\
  map (xlt m s) (sy_issued x) ≡ₚ
    map (xlt m s) (tagged (ReqIn (sy_u x)) ++ walking (sy_u x)) ++ data_reqs (tagged (ReqOut (sy_u x))) ++ sy_left x.
Proof.
  intros HI HS Hd Hsatp Hp Ht Hr. pose proof (reach_traffic m rd wr s T d HI HS Hd ports tlb_size cap x Hsatp Hp Ht Hr) as HT.
  split; [|split; [apply HT|apply HT]]. intros cycles E.
  destruct (tick_traffic m rd wr s T d HI HS Hd _ _ _ _ cycles HT) as (u' & E' & _). congruence.
Qed.

End Claims.

(** Writing the root register flushes the TLB but not the walk in flight: a walk
    of the old tables that has found its leaf installs it afterwards. *)
Theorem mmu_satp_keeps_walk m u v cycles u' : ptw_state_ u = PTW_FILL -> drive_ptw m (mmu_set_satp m u v) cycles = Some u' ->
  (tlb_lookup (tlb_ u') (Z.shiftr (ptw_vaddr_ u) 12)).2 = Some (Z.shiftr (fill_pa m u) 12).
Proof.
  intros Hst Hd. unfold drive_ptw in Hd. change (ptw_state_ (mmu_set_satp m u v)) with (ptw_state_ u) in Hd. rewrite Hst in Hd.
  change (fill_pa m (mmu_set_satp m u v)) with (fill_pa m u) in Hd. change (ptw_vaddr_ (mmu_set_satp m u v)) with (ptw_vaddr_ u) in Hd.
  change (tlb_ (mmu_set_satp m u v)) with (tlb_flush (tlb_ u)) in Hd. unfold VX_VM_PAGE_LOG2_SIZE in Hd.
  set (vpn := Z.shiftr (ptw_vaddr_ u) 12) in *. set (ppn := Z.shiftr (fill_pa m u) 12) in *.
  destruct (tlb_fill _ _ _ _) as [t|] eqn:Ef; [|done]. cbn [mbind option_bind] in Hd.
  assert (Hlk : (tlb_lookup t vpn).2 = Some ppn).
  { set (tr := fun x => if x =? vpn then Some ppn else None).
    destruct (tlb_fill_spec tr (tlb_flush (tlb_ u)) vpn ppn (ptw_flags_ u)) as (t' & E & _ & _ & Hl).
    - apply tlb_flush_sound.
    - intros E. unfold tlb_fill, tlb_victim, first_entry in Ef. by rewrite E in Ef.
    - unfold tr. by rewrite Z.eqb_refl.
    - change (ptw_flags_ (mmu_set_satp m u v)) with (ptw_flags_ u) in Ef. rewrite E in Ef. by injection Ef as <-. }
  destruct (ptw_orig_req_ _) as [r|]; [|done]. cbn [mbind option_bind] in Hd. unfold try_send in Hd.
  destruct (ReqOut _ !! _) as [c|]; [|done]. cbn [mbind option_bind] in Hd.
  destruct (ch_full c); cbn [mbind option_bind] in Hd; injection Hd as <-; exact Hlk.
Qed.

(** ** Concrete runs *)

Module MmuDemo.
Import CmdProc.Demo VmDevice.VmDemo.

Definition load (addr : Z) : MemReq :=
  {| rq_op := MLD; rq_addr := addr; rq_data := None; rq_byteen := 0; rq_tag := 5; rq_hart_id := 0; rq_uuid := 7; rq_flags := 0 |}.

(** A walk through three levels in the system area. *)
Lemma mmu_walk_terminates_witness : let sd := booted SV39 in
  exists n u' c, (n <= 4)%nat /\ walk_rounds SV39 flat_rd sd.2 0 n
    (start_ptw SV39 (mmu_set_satp SV39 (Mmu_init 2 4 2) (vm_satp sd.1)) 0 0x1234 LOAD (load 0x1234) 1) = Some u' /\
    ReqOut u' !! 1%nat = Some c /\ last (ch_q c) = Some (load 0x1234).
Proof.
  cbv zeta. pose proof (booted_ok SV39) as Hok. revert Hok. generalize (booted SV39). intros [s d] (T & HI & HS & Hsatp & HM & Hd & Htr). cbn [fst snd] in *.
  pose proof (mmu_walk_terminates SV39 flat_rd flat_wr s T d (mmu_set_satp SV39 (Mmu_init 2 4 2) (vm_satp s)) 0 0x1234 LOAD (load 0x1234) 1 HI HS Hd
    (set_satp_installed SV39 flat_rd flat_wr s T d HI HS Hd _ Hsatp)) as H.
  rewrite Htr in H by (split; vm_compute; congruence). change (system_va SV39 0x1234) with true in H. cbv iota in H.
  destruct H as (n & u' & c & Hn & Hw & _ & Hc & Hl & _); [| |apply tlb_flush_sound|done|split; vm_compute; congruence|].
  - split; [cbn; lia|]. repeat constructor; cbn; lia.
  - cbn. lia.
  - by exists n, u', c.
Defined.

Lemma mmu_traffic_safe_witness : let sd := booted SV39 in
  exists x, rtc (sys_step SV39 flat_rd sd.1 sd.2) (sys_start SV39 sd.1 2 4 2) x /\ sy_issued x = [(1%nat, load 0x1234)] /\
    mmu_on_tick SV39 (sy_u x) 0 <> None.
Proof.
  cbv zeta. pose proof (booted_ok SV39) as Hok. revert Hok. generalize (booted SV39). intros [s d] (T & HI & HS & Hsatp & HM & Hd & Htr). cbn [fst snd] in *.
  assert (Hstep : exists x, rtc (sys_step SV39 flat_rd s d) (sys_start SV39 s 2 4 2) x /\ sy_issued x = [(1%nat, load 0x1234)]).
  { eexists. split; [eapply rtc_once, (sys_issue SV39 flat_rd s d (sys_start SV39 s 2 4 2) 1 {| ch_cap := 2; ch_q := [] |} (load 0x1234)); [done|done|]|reflexivity].
    split; [done|]. split; [split; vm_compute; congruence|]. rewrite Htr by (split; vm_compute; congruence). by eexists. }
  destruct Hstep as (x & Hx & Hi). exists x. split; [exact Hx|]. split; [exact Hi|].
  apply (mmu_traffic_safe SV39 flat_rd flat_wr s T d 2 4 2 x HI HS Hd Hsatp); [lia|lia|exact Hx].
Defined.

(** While the output port is full, every cycle in the last state of a walk fills
    another slot with the same page: a table of four pages holds only that one. *)
Definition blocked : Mmu :=
  let u := Mmu_init 1 4 0 in
  u <| ptw_state_ := PTW_FILL |> <| ptw_vaddr_ := 0x5000 |> <| ptw_final_ppn_ := 9 |> <| ptw_orig_req_ := Some (load 0x5000) |>
    <| tlb_ := {| entries_ := map (fun v => {| te_valid := true; te_mru := false; te_vpn := v; te_ppn := v; te_flags := 0 |}) [1; 2; 3; 4];
                  reads_ := 0; hits_ := 0; misses_ := 0; evictions_ := 0 |} |>.

Example mmu_fill_repeats : (fun u => map te_vpn (entries_ (tlb_ u))) <$>
  fold_left (fun u c => u ← u; mmu_on_tick SV39 u c) [1; 2; 3; 4] (Some blocked) = Some [5; 5; 5; 5].
Proof. vm_compute. reflexivity. Qed.

End MmuDemo.
