(* ===== verification/SimKernel.v ===== *)
(** * Simulation kernel

    [sw/common/ringqueue.h] and [sim/common/simobject.h]: the ring queues
    behind the channels, channels with their reserved slots and forwarding, and
    the platform that schedules deliveries on a timing wheel.  Every component of
    the simulator talks to the others through these channels.

    A failed assertion is [None].  The intrusive lists of events are lists.  A
    channel is named by its index in the platform; packets of all channels have
    one type, on which the converters of [bind] act.  A call of a [tx_callback]
    is recorded in [tx_log].  [SimCallEvent] is used by no component and is left
    out. *)

From S2P Require Import Prelude.

(** ** Ring queues *)

Section Ring.
Context {T : Type}.

(** A slot that holds no object is [None]. *)
Record RingQueue := { rq_storage : list (option T); rq_capacity : nat; rq_head : nat; rq_tail : nat; rq_size : nat }.

Definition RingQueue_init (cap : nat) : option RingQueue :=
  if (0 <? cap)%nat then Some {| rq_storage := replicate cap None; rq_capacity := cap; rq_head := 0; rq_tail := 0; rq_size := 0 |} else None.

(** [RingQueue::inc] *)
Definition rq_inc (q : RingQueue) (idx : nat) : nat := if (S idx =? rq_capacity q)%nat then 0%nat else S idx.

Definition rq_empty (q : RingQueue) : bool := (rq_size q =? 0)%nat.

Definition rq_front (q : RingQueue) : option T :=
  if (0 <? rq_size q)%nat then x ← rq_storage q !! rq_head q; x else None.

Definition rq_pop (q : RingQueue) : option RingQueue :=
  if (0 <? rq_size q)%nat
  then Some (q <| rq_storage := <[rq_head q := None]> (rq_storage q) |> <| rq_head := rq_inc q (rq_head q) |> <| rq_size := (rq_size q - 1)%nat |>)
  else None.

Definition rq_push (q : RingQueue) (v : T) : option RingQueue :=
  if (rq_size q <? rq_capacity q)%nat
  then Some (q <| rq_storage := <[rq_tail q := Some v]> (rq_storage q) |> <| rq_tail := rq_inc q (rq_tail q) |> <| rq_size := S (rq_size q) |>)
  else None.

(** [RingQueue::clear]; one round per element. *)
Fixpoint rq_clear_from (fuel : nat) (q : RingQueue) : option RingQueue :=
  match fuel with
  | O => Some q
  | S fuel => if (rq_size q =? 0)%nat then Some q else q ← rq_pop q; rq_clear_from fuel q
  end.
Definition rq_clear (q : RingQueue) : option RingQueue := rq_clear_from (rq_size q) q.

(** The queue holds the list, oldest first, from the head on. *)
Record ring (q : RingQueue) (l : list T) : Prop := {
  rg_len : length (rq_storage q) = rq_capacity q;
  rg_head : (rq_head q < rq_capacity q)%nat;
  rg_size : rq_size q = length l;
  rg_cap : (length l <= rq_capacity q)%nat;
  rg_tail : rq_tail q = ((rq_head q + length l) mod rq_capacity q)%nat;
  rg_at i x : l !! i = Some x -> rq_storage q !! ((rq_head q + i) mod rq_capacity q)%nat = Some (Some x)
}.

Lemma inc_mod q i : (i < rq_capacity q)%nat -> rq_inc q i = (S i mod rq_capacity q)%nat.
Proof.
  intros Hi. unfold rq_inc. destruct (Nat.eqb_spec (S i) (rq_capacity q)) as [->|]; [by rewrite Nat.Div0.mod_same|].
  by rewrite Nat.mod_small by lia.
Qed.

Lemma ring_init cap q : RingQueue_init cap = Some q -> ring q [].
Proof.
  unfold RingQueue_init. destruct (Nat.ltb_spec 0 cap); [|done]. intros [= <-].
  constructor; cbn; try done; try lia; [apply length_replicate|by rewrite Nat.Div0.mod_0_l].
Qed.

Lemma ring_front q x l : ring q (x :: l) -> rq_front q = Some x.
Proof.
  intros H. unfold rq_front. rewrite (rg_size _ _ H). cbn [length Nat.ltb Nat.leb].
  pose proof (rg_at _ _ H 0 x eq_refl) as E. rewrite Nat.add_0_r, Nat.mod_small in E by apply H. by rewrite E.
Qed.

Lemma slots_apart c h i j : (i < c)%nat -> (j < c)%nat -> i <> j -> ((h + i) mod c <> (h + j) mod c)%nat.
Proof.
  intros Hi Hj Hne E. assert (c <> 0)%nat by lia.
  pose proof (Nat.div_mod (h + i) c ltac:(lia)). pose proof (Nat.div_mod (h + j) c ltac:(lia)).
  destruct (Nat.lt_trichotomy ((h + i) / c) ((h + j) / c)) as [Hl|[Hl|Hl]]; nia.
Qed.

Lemma ring_pop q x l : ring q (x :: l) -> exists q', rq_pop q = Some q' /\ ring q' l /\ rq_capacity q' = rq_capacity q.
Proof.
  intros [H1 H2 H3 H4 H5 H6]. unfold rq_pop. rewrite H3. cbn [length Nat.ltb Nat.leb] in *. eexists. split; [reflexivity|]. split; [|done].
  assert (Hinc : rq_inc q (rq_head q) = (S (rq_head q) mod rq_capacity q)%nat) by (by apply inc_mod).
  constructor; rproj; try lia.
  - by rewrite length_insert.
  - rewrite Hinc. apply Nat.mod_upper_bound. lia.
  - rewrite H5, Hinc, Nat.Div0.add_mod_idemp_l. f_equal. lia.
  - intros i y Hy. rewrite Hinc, Nat.Div0.add_mod_idemp_l. replace (S (rq_head q) + i)%nat with (rq_head q + S i)%nat by lia.
    pose proof (lookup_lt_Some _ _ _ Hy). rewrite list_lookup_insert_ne; [by apply H6|].
    rewrite <- (Nat.mod_small (rq_head q) (rq_capacity q)) at 1 by done. rewrite <- (Nat.add_0_r (rq_head q)) at 1. apply slots_apart; lia.
Qed.

Lemma ring_push q l v : ring q l -> (length l < rq_capacity q)%nat -> exists q', rq_push q v = Some q' /\ ring q' (l ++ [v]) /\ rq_capacity q' = rq_capacity q.
Proof.
  intros [H1 H2 H3 H4 H5 H6] Hlt. unfold rq_push. rewrite H3, (proj2 (Nat.ltb_lt _ _) Hlt). eexists. split; [reflexivity|]. split; [|done].
  assert (Ht : (rq_tail q < rq_capacity q)%nat) by (rewrite H5; apply Nat.mod_upper_bound; lia).
  constructor; rproj; rewrite ?length_app; cbn [length]; try lia.
  - by rewrite length_insert.
  - rewrite inc_mod by done. rewrite H5, <- Nat.add_1_r, Nat.Div0.add_mod_idemp_l. f_equal. lia.
  - intros i y Hy. apply lookup_app_Some in Hy as [Hy|[Hi Hy]].
    + pose proof (lookup_lt_Some _ _ _ Hy). rewrite list_lookup_insert_ne; [by apply H6|]. rewrite H5. apply slots_apart; lia.
    + apply list_lookup_singleton_Some in Hy as [Hi' ->]. replace i with (length l) by lia. rewrite <- H5. apply list_lookup_insert_eq. by rewrite H1.
Qed.

Lemma ring_clear q l : ring q l -> exists q', rq_clear q = Some q' /\ ring q' [] /\ rq_capacity q' = rq_capacity q.
Proof.
  unfold rq_clear. intros H. rewrite (rg_size _ _ H). revert q H. induction l as [|x l IH]; intros q H; cbn [length rq_clear_from]; [by exists q|].
  rewrite (rg_size _ _ H). cbn [length Nat.eqb]. destruct (ring_pop q x l H) as (q1 & -> & H1 & E1). cbn [mbind option_bind].
  destruct (IH q1 H1) as (q2 & -> & H2 & E2). exists q2. split; [done|]. split; [done|congruence].
Qed.

End Ring.
Arguments RingQueue : clear implicits.

(** ** Channels and platform *)

Section Kernel.
Context {Pkt : Type}.

Record SimChannel := {
  storage_ : RingQueue Pkt; pending_count_ : nat; sink_ : option nat; convert_fn_ : option (Pkt -> Pkt); tx_cb_ : bool
}.

Record event := { ev_chan : nat; ev_pkt : Pkt; ev_cycles : Z }.

Record SimPlatform := {
  channels : list SimChannel;
  reg_events_ : list (list event);
  imm_events_ : list event;
  cycles_ : Z;
  delta_ : Z;
  inflight_count : Z;
  tx_log : list (nat * Pkt * Z)
}.

Definition WHEEL_SIZE : Z := 4096.
Definition WHEEL_MASK : Z := WHEEL_SIZE - 1.

Definition SimPlatform_init (cs : list SimChannel) : SimPlatform :=
  {| channels := cs; reg_events_ := replicate (Z.to_nat WHEEL_SIZE) []; imm_events_ := []; cycles_ := 0; delta_ := 0;
     inflight_count := 0; tx_log := [] |}.

Definition occupancy (c : SimChannel) : nat := rq_size (storage_ c) + pending_count_ c.

(** [SimChannel::full]; the sinks are followed to the last, [fuel] bounds their
    number. *)
Fixpoint chan_full (fuel : nat) (cs : list SimChannel) (k : nat) : option bool :=
  c ← cs !! k;
  match sink_ c with
  | None => Some (rq_capacity (storage_ c) <=? occupancy c)%nat
  | Some s => match fuel with O => None | S fuel => chan_full fuel cs s end
  end.

(** [SimChannel::reserve] *)
Fixpoint reserve (fuel : nat) (st : SimPlatform) (k : nat) : option SimPlatform :=
  c ← channels st !! k;
  match sink_ c with
  | None => Some (st <| channels := <[k := c <| pending_count_ := S (pending_count_ c) |>]> (channels st) |>
                     <| inflight_count := u64 (inflight_count st + 1) |>)
  | Some s => match fuel with O => None | S fuel => reserve fuel st s end
  end.

(** [SimChannel::receive_packet] *)
Fixpoint receive_packet (fuel : nat) (st : SimPlatform) (k : nat) (pkt : Pkt) : option SimPlatform :=
  c ← channels st !! k;
  let st := if tx_cb_ c then st <| tx_log := tx_log st ++ [(k, pkt, cycles_ st)] |> else st in
  match sink_ c with
  | Some s =>
      let pkt := match convert_fn_ c with Some f => f pkt | None => pkt end in
      match fuel with O => None | S fuel => receive_packet fuel st s pkt end
  | None =>
      if (0 <? pending_count_ c)%nat then
        q ← rq_push (storage_ c) pkt;
        Some (st <| channels := <[k := c <| pending_count_ := (pending_count_ c - 1)%nat |> <| storage_ := q |>]> (channels st) |>)
      else None
  end.

(** [SimPlatform::schedule] *)
Definition schedule (st : SimPlatform) (k : nat) (pkt : Pkt) (delay : Z) : option SimPlatform :=
  if delay =? 0 then
    Some (st <| imm_events_ := imm_events_ st ++ [{| ev_chan := k; ev_pkt := pkt; ev_cycles := delta_ st |}] |>
             <| delta_ := u32 (delta_ st + 1) |>)
  else
    let fire_cycle := u64 (cycles_ st + delay) in
    let b := Z.to_nat (Z.land fire_cycle WHEEL_MASK) in
    bucket ← reg_events_ st !! b;
    Some (st <| reg_events_ := <[b := bucket ++ [{| ev_chan := k; ev_pkt := pkt; ev_cycles := fire_cycle |}]]> (reg_events_ st) |>).

Definition hops (st : SimPlatform) : nat := length (channels st).

(** [SimChannel::send] *)
Definition send (st : SimPlatform) (k : nat) (pkt : Pkt) (delay : Z) : option SimPlatform :=
  full ← chan_full (hops st) (channels st) k;
  if full : bool then None
  else st ← reserve (hops st) st k; schedule st k pkt delay.

(** [SimChannel::try_send] *)
Definition chan_try_send (st : SimPlatform) (k : nat) (pkt : Pkt) (delay : Z) : option (SimPlatform * bool) :=
  full ← chan_full (hops st) (channels st) k;
  if full : bool then Some (st, false) else st ← send st k pkt delay; Some (st, true).

(** [SimChannel::empty], [peek] and [pop], of a channel that is not forwarded. *)
Definition chan_empty (st : SimPlatform) (k : nat) : option bool :=
  c ← channels st !! k; match sink_ c with Some _ => None | None => Some (rq_empty (storage_ c)) end.

Definition peek (st : SimPlatform) (k : nat) : option Pkt :=
  c ← channels st !! k; match sink_ c with Some _ => None | None => rq_front (storage_ c) end.

Definition chan_pop (st : SimPlatform) (k : nat) : option SimPlatform :=
  c ← channels st !! k;
  match sink_ c with
  | Some _ => None
  | None =>
      q ← rq_pop (storage_ c);
      Some (st <| channels := <[k := c <| storage_ := q |>]> (channels st) |> <| inflight_count := u64 (inflight_count st - 1) |>)
  end.

(** [SimChannelEvent::fire] *)
Definition fire (st : SimPlatform) (e : event) : option SimPlatform := receive_packet (hops st) st (ev_chan e) (ev_pkt e).

(** The scan of a list of events: those [due] are fired and erased, the others
    kept. *)
Fixpoint fire_scan (due : event -> bool) (st : SimPlatform) (es : list event) : option (SimPlatform * list event) :=
  match es with
  | [] => Some (st, [])
  | e :: es =>
      if due e then st ← fire st e; fire_scan due st es
      else '(st, kept) ← fire_scan due st es; Some (st, e :: kept)
  end.

(** [SimPlatform::fire_immediate_events]; the loop runs over [0, delta_). *)
Definition fire_imm_round (st : option SimPlatform) (d : Z) : option SimPlatform :=
  st ← st;
  '(st, kept) ← fire_scan (fun e => ev_cycles e =? d) st (imm_events_ st);
  Some (st <| imm_events_ := kept |>).

Definition fire_immediate_events (st : SimPlatform) : option SimPlatform :=
  st ← fold_left fire_imm_round (seqZ 0 (delta_ st)) (Some st);
  Some (st <| delta_ := 0 |>).

(** The end of a cycle in [SimPlatform::tick]. *)
Definition advance (st : SimPlatform) : option SimPlatform :=
  let st := st <| cycles_ := u64 (cycles_ st + 1) |> in
  let b := Z.to_nat (Z.land (cycles_ st) WHEEL_MASK) in
  bucket ← reg_events_ st !! b;
  '(st, kept) ← fire_scan (fun e => ev_cycles e <=? cycles_ st) st bucket;
  Some (st <| reg_events_ := <[b := kept]> (reg_events_ st) |>).

(** [SimPlatform::tick]; an object is what its [on_tick] does to the platform. *)
Definition tick_object (st : option SimPlatform) (on_tick : SimPlatform -> option SimPlatform) : option SimPlatform :=
  st ← st; st ← on_tick st; fire_immediate_events st.

Definition platform_tick (objects : list (SimPlatform -> option SimPlatform)) (st : SimPlatform) : option SimPlatform :=
  st ← fire_immediate_events st;
  st ← fold_left tick_object objects (Some st);
  advance st.

(** [SimPlatform::reset]; [on_reset] stands for the reset of the objects. *)
Definition platform_reset (on_reset : SimPlatform -> option SimPlatform) (st : SimPlatform) : option SimPlatform :=
  st ← on_reset (st <| reg_events_ := map (fun _ => []) (reg_events_ st) |> <| imm_events_ := [] |>);
  Some (st <| cycles_ := 0 |> <| delta_ := 0 |>).

End Kernel.
Arguments SimChannel : clear implicits. Arguments SimPlatform : clear implicits. Arguments event : clear implicits.
