(* ===== verification/SimKernelProofs.v ===== *)
(** * The simulation kernel delivers on time and in order

    An abstract network of queues: a packet sent with a delay joins the queue of
    the last channel of its route exactly that many cycles later, packets due in
    the same cycle in the order they were sent.  The timing wheel, the reserved
    slots and the ring queues of [SimKernel] implement it, and none of their
    assertions can fail. *)

From S2P Require Import Prelude SimKernel.

Section Proofs.
Context {Pkt : Type}.
Implicit Types (st : SimPlatform Pkt) (c : SimChannel Pkt) (e : event Pkt) (P es : list (event Pkt)) (Q : list (list Pkt)).

(** ** Topology *)

(** The parts of a channel that no operation changes. *)
Record hop := { h_sink : option nat; h_conv : option (Pkt -> Pkt); h_cap : nat }.
Definition hop_of c : hop := {| h_sink := sink_ c; h_conv := convert_fn_ c; h_cap := rq_capacity (storage_ c) |}.
Definition topo st : list hop := map hop_of (channels st).

(** The last channel of a route, and the packet as it arrives there. *)
Fixpoint route (fuel : nat) (tp : list hop) (k : nat) : option nat :=
  h ← tp !! k; match h_sink h with None => Some k | Some s => match fuel with O => None | S fuel => route fuel tp s end end.

Fixpoint arrives (fuel : nat) (tp : list hop) (k : nat) (pkt : Pkt) : Pkt :=
  match tp !! k with
  | Some h =>
      match h_sink h with
      | None => pkt
      | Some s => match fuel with O => pkt | S fuel => arrives fuel tp s (match h_conv h with Some f => f pkt | None => pkt end) end
      end
  | None => pkt
  end.

Definition dest (tp : list hop) (k : nat) : option nat := route (length tp) tp k.
Definition ev_dest (tp : list hop) (e : event Pkt) : option nat := dest tp (ev_chan e).
Definition ev_out (tp : list hop) (e : event Pkt) : Pkt := arrives (length tp) tp (ev_chan e) (ev_pkt e).

(** No cycle of sinks, and queues with room. *)
Definition topo_ok (tp : list hop) : Prop := forall k, (k < length tp)%nat -> is_Some (dest tp k).

Lemma route_end fuel tp : forall k x, route fuel tp k = Some x -> exists h, tp !! x = Some h /\ h_sink h = None.
Proof.
  induction fuel as [|fuel IH]; intros k x; cbn [route]; destruct (tp !! k) as [h|] eqn:Ek; cbn [mbind option_bind]; try done;
    destruct (h_sink h) as [s|] eqn:Es; try done; try apply IH; intros [= <-]; by exists h.
Qed.

Lemma topo_lookup st k c : channels st !! k = Some c -> topo st !! k = Some (hop_of c).
Proof. intros H. unfold topo. by rewrite list_lookup_fmap, H. Qed.

Lemma topo_lookup_inv st k h : topo st !! k = Some h -> exists c, channels st !! k = Some c /\ h = hop_of c.
Proof. unfold topo. rewrite list_lookup_fmap. intros H. apply fmap_Some in H as (c & ? & ?). eauto. Qed.

Lemma topo_insert st st' k c c' : channels st !! k = Some c -> hop_of c' = hop_of c -> channels st' = <[k := c']> (channels st) -> topo st' = topo st.
Proof.
  intros Hk Hh E. unfold topo. rewrite E. apply list_eq. intros i. rewrite !list_lookup_fmap. destruct (decide (i = k)) as [->|].
  - rewrite list_lookup_insert_eq by (by eapply lookup_lt_Some). rewrite Hk. cbn. by rewrite Hh.
  - by rewrite list_lookup_insert_ne by done.
Qed.

(** ** The recursive operations act on the last channel *)

Lemma chan_full_at fuel st : forall k x c, route fuel (topo st) k = Some x -> channels st !! x = Some c ->
  chan_full fuel (channels st) k = Some (rq_capacity (storage_ c) <=? occupancy c)%nat.
Proof.
  induction fuel as [|fuel IH]; intros k x c; cbn [route chan_full]; destruct (topo st !! k) as [h|] eqn:Ek; cbn [mbind option_bind]; try done;
    apply topo_lookup_inv in Ek as (ck & Hk & ->); rewrite Hk; cbn [mbind option_bind hop_of h_sink]; destruct (sink_ ck) as [s|]; try done.
  1,3: intros [= <-] Hc; rewrite Hk in Hc; by injection Hc as <-.
  apply IH.
Qed.

Definition reserved st (x : nat) c : SimPlatform Pkt :=
  st <| channels := <[x := c <| pending_count_ := S (pending_count_ c) |>]> (channels st) |> <| inflight_count := u64 (inflight_count st + 1) |>.

Lemma reserve_at fuel st : forall k x c, route fuel (topo st) k = Some x -> channels st !! x = Some c -> reserve fuel st k = Some (reserved st x c).
Proof.
  induction fuel as [|fuel IH]; intros k x c; cbn [route reserve]; destruct (topo st !! k) as [h|] eqn:Ek; cbn [mbind option_bind]; try done;
    apply topo_lookup_inv in Ek as (ck & Hk & ->); rewrite Hk; cbn [mbind option_bind hop_of h_sink]; destruct (sink_ ck) as [s|]; try done.
  1,3: intros [= <-] Hc; rewrite Hk in Hc; by injection Hc as <-.
  apply IH.
Qed.

(** What a delivery changes besides the last channel: the log of callbacks. *)
Lemma receive_at fuel : forall st k x c pkt, route fuel (topo st) k = Some x -> channels st !! x = Some c -> (0 < pending_count_ c)%nat ->
  forall q, rq_push (storage_ c) (arrives fuel (topo st) k pkt) = Some q ->
  exists log, receive_packet fuel st k pkt =
    Some (st <| tx_log := log |> <| channels := <[x := c <| pending_count_ := (pending_count_ c - 1)%nat |> <| storage_ := q |>]> (channels st) |>).
Proof.
  assert (Hend : forall st k x c pkt, channels st !! k = Some c -> x = k -> (0 < pending_count_ c)%nat -> forall q, rq_push (storage_ c) pkt = Some q ->
    exists log, (if (0 <? pending_count_ c)%nat then q ← rq_push (storage_ c) pkt;
        Some ((if tx_cb_ c then st <| tx_log := tx_log st ++ [(k, pkt, cycles_ st)] |> else st) <| channels := <[k := c <| pending_count_ := (pending_count_ c - 1)%nat |> <| storage_ := q |>]>
          (channels (if tx_cb_ c then st <| tx_log := tx_log st ++ [(k, pkt, cycles_ st)] |> else st)) |>) else None) =
      Some (st <| tx_log := log |> <| channels := <[x := c <| pending_count_ := (pending_count_ c - 1)%nat |> <| storage_ := q |>]> (channels st) |>)).
  { intros st k x c pkt Hk -> Hp q Hq. rewrite (proj2 (Nat.ltb_lt _ _) Hp), Hq. cbn [mbind option_bind].
    destruct (tx_cb_ c); [by eexists|]. exists (tx_log st). by destruct st. }
  induction fuel as [|fuel IH]; intros st k x c pkt; cbn [route receive_packet arrives]; destruct (topo st !! k) as [h|] eqn:Ek; cbn [mbind option_bind]; try done;
    apply topo_lookup_inv in Ek as (ck & Hk & ->); rewrite Hk; cbn [mbind option_bind hop_of h_sink h_conv]; destruct (sink_ ck) as [s|] eqn:Es; try done.
  1,3: intros [= <-] Hc; rewrite Hk in Hc; injection Hc as <-; intros Hp q Hq; by apply Hend.
  intros Hr Hc Hp q Hq. destruct (tx_cb_ ck); [|by apply (IH st s x c)].
  match goal with |- context [receive_packet fuel ?y s _] => destruct (IH y s x c _ Hr Hc Hp q Hq) as [log ->] end.
  by exists log.
Qed.

(** ** Accounts of the packets under way *)

(** The packets of [P] that are due at channel [k]. *)
Definition waiting (tp : list hop) (k : nat) P : nat := length (filter (fun e => ev_dest tp e = Some k) P).

Lemma waiting_cons tp k e P : waiting tp k (e :: P) = ((if decide (ev_dest tp e = Some k) then 1 else 0) + waiting tp k P)%nat.
Proof. unfold waiting. rewrite filter_cons. by destruct (decide _). Qed.

Lemma waiting_perm tp k P P' : P ≡ₚ P' -> waiting tp k P = waiting tp k P'.
Proof. intros H. unfold waiting. by rewrite H. Qed.

(** The channels hold the queues [Q], and their reserved slots are those of the
    packets [P] under way. *)
Record accounts (tp : list hop) st Q P : Prop := {
  ac_topo : topo st = tp;
  ac_ok : topo_ok tp;
  ac_len : length Q = length (channels st);
  ac_ring k c : channels st !! k = Some c -> exists l, Q !! k = Some l /\ ring (storage_ c) l;
  ac_pend k c : channels st !! k = Some c -> pending_count_ c = waiting tp k P;
  ac_room k c : channels st !! k = Some c -> (occupancy c <= rq_capacity (storage_ c))%nat;
  ac_fly : inflight_count st = Z.of_nat (sum_list (occupancy <$> channels st));
  ac_chan e : e ∈ P -> (ev_chan e < length tp)%nat
}.

(** The rest of the platform. *)
Definition wheel_of st := (reg_events_ st, imm_events_ st, cycles_ st, delta_ st).

Lemma accounts_perm tp st Q P P' : P ≡ₚ P' -> accounts tp st Q P -> accounts tp st Q P'.
Proof.
  intros HP [H1 H2 H3 H4 H5 H6 H7 H8]. constructor; try done.
  - intros k c Hk. rewrite <- (waiting_perm tp k P P' HP). by apply H5.
  - intros e He. apply H8. by rewrite HP.
Qed.

Lemma sum_insert (l : list (SimChannel Pkt)) k c c' : l !! k = Some c ->
  (sum_list (occupancy <$> <[k := c']> l) + occupancy c = sum_list (occupancy <$> l) + occupancy c')%nat.
Proof.
  revert k. induction l as [|x l IH]; intros [|k] H; cbn in H; simplify_eq; [cbn; lia|].
  change (<[S k := c']> (x :: l)) with (x :: <[k := c']> l). specialize (IH k H). cbn in *. lia.
Qed.

(** A packet joins the queue where its route ends. *)
Definition deliver (tp : list hop) Q e : list (list Pkt) :=
  match ev_dest tp e with Some x => alter (fun l => l ++ [ev_out tp e]) x Q | None => Q end.

Lemma dest_channel tp st Q P e : accounts tp st Q P -> (ev_chan e < length tp)%nat ->
  exists x c l, ev_dest tp e = Some x /\ channels st !! x = Some c /\ Q !! x = Some l /\ ring (storage_ c) l.
Proof.
  intros HA He. destruct (ac_ok _ _ _ _ HA _ He) as [x Hx]. destruct (route_end _ _ _ _ Hx) as (h & Hh & _).
  rewrite <- (ac_topo _ _ _ _ HA) in Hh. apply topo_lookup_inv in Hh as (c & Hc & _).
  destruct (ac_ring _ _ _ _ HA x c Hc) as (l & Hl & Hr). by exists x, c, l.
Qed.

Lemma fire_ok tp st Q P e : accounts tp st Q (e :: P) ->
  exists st', fire st e = Some st' /\ accounts tp st' (deliver tp Q e) P /\ wheel_of st' = wheel_of st.
Proof.
  intros HA. pose proof (ac_chan _ _ _ _ HA e ltac:(left)) as He.
  destruct (dest_channel _ _ _ _ e HA He) as (x & c & l & Hx & Hc & Hl & Hr). pose proof HA as [H1 H2 H3 H4 H5 H6 H7 H8].
  assert (Hpend : pending_count_ c = S (waiting tp x P)) by (rewrite (H5 x c Hc), waiting_cons; by rewrite decide_True).
  pose proof (H6 x c Hc) as Hroom. unfold occupancy in Hroom. rewrite (rg_size _ _ Hr), Hpend in Hroom.
  destruct (ring_push (storage_ c) l (ev_out tp e) Hr) as (q & Hq & Hr' & Hcap); [lia|].
  assert (Hlen : hops st = length tp) by (unfold hops; rewrite <- H1; unfold topo; by rewrite length_map).
  unfold fire. rewrite Hlen. destruct (receive_at (length tp) st (ev_chan e) x c (ev_pkt e)) with (q := q) as [log ->]; [by rewrite H1|done|lia|by rewrite H1|].
  set (c' := c <| pending_count_ := _ |> <| storage_ := q |>).
  assert (Eh : hop_of c' = hop_of c) by (unfold hop_of; subst c'; rproj; by rewrite Hcap).
  eexists. split; [reflexivity|]. split; [|done]. unfold deliver. rewrite Hx.
  assert (Hlook : forall k d, channels (st <| tx_log := log |> <| channels := <[x := c']> (channels st) |>) !! k = Some d ->
    (k = x /\ d = c') \/ (k <> x /\ channels st !! k = Some d)).
  { intros k d Hk. rproj. apply list_lookup_insert_Some in Hk as [(-> & -> & _)|[? ?]]; [by left|by right]. }
  assert (Hocc : occupancy c' = occupancy c) by (unfold occupancy; subst c'; rproj; rewrite (rg_size _ _ Hr'), (rg_size _ _ Hr), length_app; cbn; lia).
  constructor.
  - rewrite <- H1. by eapply (topo_insert st _ x c c').
  - done.
  - rproj. by rewrite length_alter, length_insert.
  - intros k d [[-> ->]|[Hne Hk]]%Hlook.
    + exists (l ++ [ev_out tp e]). split; [by rewrite list_lookup_alter_eq, Hl|done].
    + rewrite list_lookup_alter_ne by done. by apply H4.
  - intros k d [[-> ->]|[Hne Hk]]%Hlook; [subst c'; rproj; lia|]. rewrite (H5 k d Hk), waiting_cons. rewrite decide_False; [done|]. congruence.
  - intros k d [[-> ->]|[Hne Hk]]%Hlook; [|by apply (H6 k)]. rewrite Hocc. subst c'. rproj. rewrite Hcap. by apply (H6 x).
  - rproj. rewrite H7. pose proof (sum_insert (channels st) x c c' Hc). lia.
  - intros e' He'. apply H8. by right.
Qed.

(** ** Scans *)

Lemma scan_ok tp (due : event Pkt -> bool) es : forall st Q P, accounts tp st Q (es ++ P) ->
  exists st', fire_scan due st es = Some (st', filter (fun e => due e = false) es) /\
    accounts tp st' (fold_left (deliver tp) (filter (fun e => due e = true) es) Q) (filter (fun e => due e = false) es ++ P) /\ wheel_of st' = wheel_of st.
Proof.
  induction es as [|e es IH]; intros st Q P HA; cbn [fire_scan]; [by exists st|]. rewrite !filter_cons. destruct (due e) eqn:Ed.
  - destruct (decide (true = true)); [|done]. destruct (decide (true = false)); [done|]. destruct (fire_ok _ _ _ _ _ HA) as (st1 & -> & HA1 & E1). cbn [mbind option_bind].
    destruct (IH st1 _ _ HA1) as (st2 & -> & HA2 & E2). exists st2. split; [done|]. split; [done|congruence].
  - destruct (decide (false = false)); [|done]. destruct (decide (false = true)); [done|].
    destruct (IH st Q (e :: P)) as (st2 & -> & HA2 & E2); [eapply accounts_perm; [|exact HA]; apply Permutation_middle|].
    cbn [mbind option_bind]. exists st2. split; [done|]. split; [|done]. eapply accounts_perm; [|exact HA2]. symmetry. apply Permutation_middle.
Qed.

(** ** The abstract network *)

(** The queues, the packets with a time of arrival still ahead, in the order of
    sending, and those sent without a delay in this step. *)
Record net := { n_now : Z; n_q : list (list Pkt); n_fut : list (event Pkt); n_imm : list (event Pkt) }.

Definition net_full (tp : list hop) (a : net) (k : nat) : bool :=
  match dest tp k with
  | Some x => match n_q a !! x, tp !! x with
              | Some l, Some h => (h_cap h <=? length l + waiting tp x (n_fut a ++ n_imm a))%nat
              | _, _ => true
              end
  | None => true
  end.

Definition net_send (tp : list hop) (a : net) (k : nat) (pkt : Pkt) (d : Z) : net :=
  if net_full tp a k then a
  else if d =? 0 then a <| n_imm := n_imm a ++ [{| ev_chan := k; ev_pkt := pkt; ev_cycles := Z.of_nat (length (n_imm a)) |}] |>
  else a <| n_fut := n_fut a ++ [{| ev_chan := k; ev_pkt := pkt; ev_cycles := n_now a + d |}] |>.

Definition net_pop (a : net) (k : nat) : net := a <| n_q := alter tail k (n_q a) |>.

Definition net_fire (tp : list hop) (a : net) : net := a <| n_q := fold_left (deliver tp) (n_imm a) (n_q a) |> <| n_imm := [] |>.

(** One cycle later: exactly what is due arrives, in the order of sending. *)
Definition net_advance (tp : list hop) (a : net) : net :=
  {| n_now := n_now a + 1;
     n_q := fold_left (deliver tp) (filter (fun e => ev_cycles e = n_now a + 1) (n_fut a)) (n_q a);
     n_fut := filter (fun e => ev_cycles e <> n_now a + 1) (n_fut a); n_imm := n_imm a |}.

Inductive kop := OSend (k : nat) (pkt : Pkt) (d : Z) | OPop (k : nat) | OFire | OAdvance.

Definition net_step (tp : list hop) (a : net) (o : kop) : net :=
  match o with OSend k pkt d => net_send tp a k pkt d | OPop k => net_pop a k | OFire => net_fire tp a | OAdvance => net_advance tp a end.

(** The same operations of the kernel. *)
Definition kernel_step st (o : kop) : option (SimPlatform Pkt) :=
  match o with
  | OSend k pkt d => fst <$> chan_try_send st k pkt d
  | OPop k => e ← chan_empty st k; if e : bool then Some st else chan_pop st k
  | OFire => fire_immediate_events st
  | OAdvance => advance st
  end.

(** Channels exist, only last channels are read, and the counters of the
    platform have not run out. *)
Definition op_ok (tp : list hop) (a : net) (o : kop) : Prop :=
  match o with
  | OSend k _ d => (k < length tp)%nat /\ 0 <= d /\ n_now a + d < 2 ^ 64 /\ Z.of_nat (length (n_imm a)) + 1 < 2 ^ 32
  | OPop k => exists h, tp !! k = Some h /\ h_sink h = None
  | OFire => True
  | OAdvance => n_now a + 1 < 2 ^ 64
  end.

Definition topo_small (tp : list hop) : Prop := Z.of_nat (sum_list (h_cap <$> tp)) < 2 ^ 32.

Record kernel_rep (tp : list hop) st (a : net) : Prop := {
  kr_acc : accounts tp st (n_q a) (n_fut a ++ n_imm a);
  kr_now : cycles_ st = n_now a;
  kr_now0 : 0 <= n_now a;
  kr_len : length (reg_events_ st) = 4096%nat;
  kr_wheel b : (b < 4096)%nat -> reg_events_ st !! b = Some (filter (fun e => ev_cycles e mod 4096 = Z.of_nat b) (n_fut a));
  kr_fut e : e ∈ n_fut a -> n_now a < ev_cycles e < 2 ^ 64;
  kr_imm : imm_events_ st = n_imm a;
  kr_delta : delta_ st = Z.of_nat (length (n_imm a));
  kr_index i e : n_imm a !! i = Some e -> ev_cycles e = Z.of_nat i
}.

Lemma slot_mod z : 0 <= z -> Z.to_nat (Z.land z WHEEL_MASK) = Z.to_nat (z mod 4096) /\ (Z.to_nat (z mod 4096) < 4096)%nat.
Proof.
  intros Hz. change WHEEL_MASK with (Z.ones 12). rewrite Z.land_ones by lia. change (2 ^ 12) with 4096. split; [done|].
  pose proof (Z.mod_pos_bound z 4096 ltac:(lia)). lia.
Qed.

(** *** A cycle *)

Lemma advance_refines tp st a : kernel_rep tp st a -> n_now a + 1 < 2 ^ 64 ->
  exists st', advance st = Some st' /\ kernel_rep tp st' (net_advance tp a).
Proof.
  intros [HA Hn Hn0 Hl Hw Hf Hi Hd Hx] Hlim. unfold advance. rproj. rewrite Hn, wrap_small by (unfold in_u; lia).
  destruct (slot_mod (n_now a + 1) ltac:(lia)) as [-> Hb]. set (b := Z.to_nat ((n_now a + 1) mod 4096)) in *.
  rewrite (Hw b Hb). cbn [mbind option_bind]. set (bucket := filter _ (n_fut a)).
  assert (Ezb : Z.of_nat b = (n_now a + 1) mod 4096) by (unfold b; rewrite Z2Nat.id; [done|]; apply Z.mod_pos_bound; lia).
  set (rest := filter (fun e => ~ ev_cycles e mod 4096 = Z.of_nat b) (n_fut a)).
  assert (Hperm : n_fut a ≡ₚ bucket ++ rest) by (symmetry; apply filter_app_complement).
  match goal with |- context [fire_scan ?due ?y bucket] => destruct (scan_ok tp due bucket y (n_q a) (rest ++ n_imm a)) as (st1 & -> & HA1 & E1) end.
  { eapply accounts_perm; [|destruct HA; constructor; done]. rewrite Hperm. by rewrite app_assoc. }
  cbn [mbind option_bind]. injection E1 as E1 E2 E3 E4.
  assert (Hdue : filter (fun e => (ev_cycles e <=? n_now a + 1) = true) bucket = filter (fun e => ev_cycles e = n_now a + 1) (n_fut a)).
  { unfold bucket. rewrite list_filter_filter. apply filter_ext_in. intros e He. pose proof (Hf e He). rewrite Z.leb_le, Ezb. split; [lia|]. intros ->. split; [lia|done]. }
  assert (Hkept : filter (fun e => (ev_cycles e <=? n_now a + 1) = false) bucket = filter (fun e => ev_cycles e <> n_now a + 1) bucket).
  { apply filter_ext_in. intros e He. apply list_elem_of_filter in He as [_ He]. pose proof (Hf e He). rewrite Z.leb_gt. lia. }
  assert (Hrest : filter (fun e => ev_cycles e <> n_now a + 1) rest = rest).
  { apply filter_all. intros e He E. apply list_elem_of_filter in He as [He _]. apply He. by rewrite E, Ezb. }
  rewrite Hdue in HA1. rewrite Hkept in *. eexists. split; [reflexivity|]. constructor; cbn [net_advance n_now n_q n_fut n_imm]; rproj; try (congruence || lia).
  - destruct HA1 as [A1 A2 A3 A4 A5 A6 A7 A8]. eapply accounts_perm; [|constructor; eassumption].
    rewrite Hperm, list.filter_app, Hrest. by rewrite app_assoc.
  - by rewrite length_insert, E1.
  - intros b' Hb'. rewrite E1. destruct (decide (b' = b)) as [->|Hne].
    + rewrite list_lookup_insert_eq by lia. unfold bucket. f_equal. rewrite !list_filter_filter. apply filter_ext_in. intros; tauto.
    + rewrite list_lookup_insert_ne by done. rewrite (Hw b' Hb'). f_equal. rewrite list_filter_filter. apply filter_ext_in. intros e He.
      split; [|tauto]. intros Em. split; [done|]. intros E. rewrite E, <- Ezb in Em. lia.
  - intros e He. apply list_elem_of_filter in He as [Hne He]. pose proof (Hf e He). lia.
  - exact Hx.
Qed.

(** *** Deliveries without delay *)

Lemma imm_rounds tp es : forall d st Q P, (forall i e, es !! i = Some e -> ev_cycles e = d + Z.of_nat i) -> imm_events_ st = es ->
  accounts tp st Q (es ++ P) ->
  exists st', fold_left fire_imm_round (seqZ d (Z.of_nat (length es))) (Some st) = Some st' /\ imm_events_ st' = [] /\
    accounts tp st' (fold_left (deliver tp) es Q) P /\ (reg_events_ st', cycles_ st') = (reg_events_ st, cycles_ st).
Proof.
  induction es as [|e es IH]; intros d st Q P Hx Hi HA; [by exists st|].
  cbn [length]. rewrite seqZ_cons by lia. cbn [fold_left]. replace (Z.pred (Z.of_nat (S (length es)))) with (Z.of_nat (length es)) by lia.
  unfold fire_imm_round at 2. cbn [mbind option_bind]. rewrite Hi.
  pose proof (Hx 0%nat e eq_refl) as He. rewrite Z.add_0_r in He.
  assert (Hlate : forall x, x ∈ es -> ev_cycles x <> d).
  { intros x Hin. apply list_elem_of_lookup in Hin as [i Hin]. pose proof (Hx (S i) x Hin). lia. }
  destruct (scan_ok tp (fun e => ev_cycles e =? d) (e :: es) st Q P HA) as (st1 & -> & HA1 & E1).
  assert (Hdue : filter (fun e => (ev_cycles e =? d) = true) (e :: es) = [e]).
  { rewrite filter_cons, decide_True by (by apply Z.eqb_eq). f_equal. apply filter_none. intros x Hin Hc%Z.eqb_eq. by apply (Hlate x). }
  assert (Hkept : filter (fun e => (ev_cycles e =? d) = false) (e :: es) = es).
  { rewrite filter_cons, decide_False by (rewrite (proj2 (Z.eqb_eq _ _) He); done). apply filter_all. intros x Hin. apply Z.eqb_neq. by apply Hlate. }
  rewrite Hdue, Hkept in *. cbn [mbind option_bind fold_left] in *. injection E1 as E1 E2 E3 E4.
  match goal with |- context [fold_left fire_imm_round _ (Some ?y)] => destruct (IH (Z.succ d) y (deliver tp Q e) P) as (st2 & -> & Hi2 & HA2 & E5) end.
  - intros i x Hin. pose proof (Hx (S i) x Hin). lia.
  - done.
  - destruct HA1. constructor; done.
  - exists st2. split; [done|]. split; [done|]. split; [done|]. rewrite E5. rproj. congruence.
Qed.

Lemma fire_refines tp st a : kernel_rep tp st a -> exists st', fire_immediate_events st = Some st' /\ kernel_rep tp st' (net_fire tp a).
Proof.
  intros [HA Hn Hn0 Hl Hw Hf Hi Hd Hx]. unfold fire_immediate_events. rewrite Hd.
  destruct (imm_rounds tp (n_imm a) 0 st (n_q a) (n_fut a)) as (st1 & -> & Hi1 & HA1 & E1); [intros i e He; by rewrite (Hx i e)|done| |].
  { eapply accounts_perm; [|exact HA]. apply Permutation_app_comm. }
  cbn [mbind option_bind]. injection E1 as E1 E2. eexists. split; [reflexivity|]. constructor; cbn [net_fire n_now n_q n_fut n_imm]; rproj; try (congruence || done).
  - rewrite app_nil_r. destruct HA1. constructor; done.
  - intros b Hb. rewrite E1. by apply Hw.
Qed.

(** *** Sending *)

Lemma sum_le (l : list (SimChannel Pkt)) : (forall k c, l !! k = Some c -> (occupancy c <= rq_capacity (storage_ c))%nat) ->
  (sum_list (occupancy <$> l) <= sum_list (h_cap <$> (map hop_of l)))%nat.
Proof.
  induction l as [|c l IH]; intros H; [done|]. pose proof (H 0%nat c eq_refl) as Hc. specialize (IH (fun k => H (S k))). cbn in *. lia.
Qed.

Lemma reserve_slot tp st Q P e x c : accounts tp st Q P -> topo_small tp -> ev_dest tp e = Some x -> (ev_chan e < length tp)%nat -> channels st !! x = Some c ->
  (occupancy c < rq_capacity (storage_ c))%nat -> accounts tp (reserved st x c) Q (e :: P).
Proof.
  intros HA Hs He Hch Hc Hlt. destruct HA as [H1 H2 H3 H4 H5 H6 H7 H8]. set (c' := c <| pending_count_ := S (pending_count_ c) |>).
  assert (Hlook : forall k d, channels (reserved st x c) !! k = Some d -> (k = x /\ d = c') \/ (k <> x /\ channels st !! k = Some d)).
  { intros k d Hk. change (channels (reserved st x c)) with (<[x := c']> (channels st)) in Hk.
    apply list_lookup_insert_Some in Hk as [(-> & <- & _)|[? ?]]; [by left|by right]. }
  assert (Eo : occupancy c' = S (occupancy c)) by (unfold occupancy, c'; rproj; lia).
  assert (Hsum : sum_list (occupancy <$> channels (reserved st x c)) = S (sum_list (occupancy <$> channels st))).
  { change (channels (reserved st x c)) with (<[x := c']> (channels st)). pose proof (sum_insert (channels st) x c c' Hc). lia. }
  constructor; try done.
  - rewrite <- H1. by eapply (topo_insert st _ x c c').
  - unfold reserved. rproj. by rewrite length_insert.
  - intros k d [[-> ->]|[Hne Hk]]%Hlook; [|by apply H4]. by apply (H4 x c).
  - intros k d [[-> ->]|[Hne Hk]]%Hlook; rewrite waiting_cons.
    + rewrite decide_True by done. unfold c'. rproj. by rewrite (H5 x c Hc).
    + rewrite decide_False by congruence. by rewrite (H5 k d Hk).
  - intros k d [[-> ->]|[Hne Hk]]%Hlook; [rewrite Eo; exact Hlt|by apply (H6 k)].
  - rewrite Hsum. unfold reserved. rproj. rewrite H7. pose proof (sum_le (channels st) H6) as Hle. unfold topo_small in Hs.
    rewrite <- H1 in Hs. unfold topo in Hs. rewrite wrap_small by (unfold in_u; lia). lia.
  - intros e' [->|He']%elem_of_cons; [done|by apply H8].
Qed.

Lemma send_refines tp st a k pkt d : kernel_rep tp st a -> topo_small tp -> op_ok tp a (OSend k pkt d) ->
  exists st', kernel_step st (OSend k pkt d) = Some st' /\ kernel_rep tp st' (net_send tp a k pkt d).
Proof.
  intros [HA Hn Hn0 Hl Hw Hf Hi Hd Hx] Hs (Hk & Hd0 & Hlim & Hlim').
  pose proof HA as [H1 H2 H3 H4 H5 H6 H7 H8].
  destruct (H2 k Hk) as [x Hdx]. destruct (route_end _ _ _ _ Hdx) as (h & Hh & _). pose proof Hh as Hh'. rewrite <- H1 in Hh'.
  apply topo_lookup_inv in Hh' as (c & Hc & ->). destruct (H4 x c Hc) as (l & Hl' & Hr).
  assert (Hlen : hops st = length tp) by (unfold hops; rewrite <- H1; unfold topo; by rewrite length_map).
  assert (Hroute : route (hops st) (topo st) k = Some x) by (rewrite Hlen, H1; exact Hdx).
  assert (Hfull : chan_full (hops st) (channels st) k = Some (net_full tp a k)).
  { rewrite (chan_full_at _ st k x c Hroute Hc). unfold net_full. rewrite Hdx, Hl', Hh. f_equal. cbn [hop_of h_cap]. unfold occupancy. by rewrite (rg_size _ _ Hr), (H5 x c Hc). }
  cbn [kernel_step]. unfold chan_try_send, send, net_send. rewrite Hfull. cbn [mbind option_bind]. destruct (net_full tp a k) eqn:Ef.
  { exists st. split; [done|]. constructor; done. }
  assert (Hlt : (occupancy c < rq_capacity (storage_ c))%nat).
  { rewrite (chan_full_at _ st k x c Hroute Hc) in Hfull. injection Hfull as Hfull. by apply Nat.leb_gt in Hfull. }
  cbn [mbind option_bind]. rewrite (reserve_at _ st k x c Hroute Hc). cbn [mbind option_bind]. unfold schedule. destruct (Z.eqb_spec d 0) as [->|Hdn].
  - cbn [mbind option_bind fmap option_fmap option_map fst]. unfold reserved. rproj. rewrite Hd.
    set (e := {| ev_chan := k; ev_pkt := pkt; ev_cycles := Z.of_nat (length (n_imm a)) |}).
    eexists. split; [reflexivity|]. constructor; rproj; try done.
    + eapply (accounts_perm tp _ _ (e :: n_fut a ++ n_imm a)); [solve_Permutation|].
      pose proof (reserve_slot tp st _ _ e x c HA Hs Hdx Hk Hc Hlt) as []. constructor; done.
    + by rewrite Hi.
    + rewrite length_app, wrap_small by (unfold in_u; lia). cbn [length]. lia.
    + intros i e' He'. apply lookup_app_Some in He' as [He'|[Hge He']]; [by apply Hx|].
      apply list_lookup_singleton_Some in He' as [Hi' <-]. unfold e. cbn [ev_cycles]. lia.
  - unfold reserved. rproj. rewrite Hn, wrap_small by (unfold in_u; lia).
    destruct (slot_mod (n_now a + d) ltac:(lia)) as [-> Hb]. set (b := Z.to_nat ((n_now a + d) mod 4096)) in *. rewrite (Hw b Hb).
    cbn [mbind option_bind fmap option_fmap option_map fst].
    assert (Ezb : Z.of_nat b = (n_now a + d) mod 4096) by (unfold b; rewrite Z2Nat.id; [done|]; apply Z.mod_pos_bound; lia).
    set (e := {| ev_chan := k; ev_pkt := pkt; ev_cycles := n_now a + d |}).
    eexists. split; [reflexivity|]. constructor; rproj; try done.
    + eapply (accounts_perm tp _ _ (e :: n_fut a ++ n_imm a)); [solve_Permutation|].
      pose proof (reserve_slot tp st _ _ e x c HA Hs Hdx Hk Hc Hlt) as []. constructor; done.
    + by rewrite length_insert.
    + intros b' Hb'. rewrite list.filter_app. destruct (decide (b' = b)) as [->|Hne].
      * rewrite list_lookup_insert_eq by lia. do 2 f_equal. rewrite filter_cons, decide_True by (unfold e; cbn [ev_cycles]; done). done.
      * rewrite list_lookup_insert_ne by done. rewrite (Hw b' Hb'). f_equal.
        rewrite filter_cons, decide_False; [by rewrite app_nil_r|]. unfold e. cbn [ev_cycles]. lia.
    + intros e' [He'| ->%list_elem_of_singleton]%elem_of_app; [by apply Hf|]. unfold e. cbn [ev_cycles]. lia.
Qed.

(** *** Reading *)

Lemma pop_refines tp st a k : kernel_rep tp st a -> topo_small tp -> op_ok tp a (OPop k) ->
  exists st', kernel_step st (OPop k) = Some st' /\ kernel_rep tp st' (net_pop a k).
Proof.
  intros [HA Hn Hn0 Hl Hw Hf Hi Hd Hx] Hs (h & Hh & Hsink). pose proof HA as [H1 H2 H3 H4 H5 H6 H7 H8].
  pose proof Hh as Hh'. rewrite <- H1 in Hh'. apply topo_lookup_inv in Hh' as (c & Hc & ->). cbn [hop_of h_sink] in Hsink.
  destruct (H4 k c Hc) as (l & Hlk & Hr). cbn [kernel_step]. unfold chan_empty, chan_pop. rewrite Hc. cbn [mbind option_bind]. rewrite Hsink.
  cbn [mbind option_bind]. unfold rq_empty. rewrite (rg_size _ _ Hr). unfold net_pop. destruct l as [|x l]; cbn [length Nat.eqb].
  { exists st. split; [done|]. assert (Eq : alter tail k (n_q a) = n_q a).
    { apply list_eq. intros i. destruct (decide (i = k)) as [->|]; [by rewrite list_lookup_alter_eq, Hlk|by rewrite list_lookup_alter_ne]. }
    constructor; cbn [n_q n_fut n_imm n_now]; rproj; rewrite ?Eq; done. }
  destruct (ring_pop _ _ _ Hr) as (q & -> & Hr' & Hcap). cbn [mbind option_bind]. set (c' := c <| storage_ := q |>).
  assert (Eo : S (occupancy c') = occupancy c) by (unfold occupancy; rewrite (rg_size _ _ Hr); unfold c'; rproj; rewrite (rg_size _ _ Hr'); cbn; lia).
  match goal with |- exists st', Some ?y = _ /\ _ => set (st1 := y) end.
  assert (Ech : channels st1 = <[k := c']> (channels st)) by done.
  assert (Hlook : forall i d, channels st1 !! i = Some d -> (i = k /\ d = c') \/ (i <> k /\ channels st !! i = Some d)).
  { intros i d Hi'. rewrite Ech in Hi'. apply list_lookup_insert_Some in Hi' as [(-> & <- & _)|[? ?]]; [by left|by right]. }
  exists st1. split; [done|]. constructor; try done. constructor; try done.
  - rewrite <- H1. eapply (topo_insert st _ k c c'); [done| |done]. unfold hop_of, c'. rproj. by rewrite Hcap.
  - rewrite Ech. rproj. by rewrite length_alter, length_insert.
  - intros i d [[-> ->]|[Hne Hi']]%Hlook.
    + exists l. split; [|exact Hr']. rproj. by rewrite list_lookup_alter_eq, Hlk.
    + rproj. rewrite list_lookup_alter_ne by done. by apply H4.
  - intros i d [[-> ->]|[Hne Hi']]%Hlook; [by apply (H5 k c)|by apply H5].
  - intros i d [[-> ->]|[Hne Hi']]%Hlook; [|by apply (H6 i)]. pose proof (H6 k c Hc). unfold c'. rproj. rewrite Hcap. fold c'. lia.
  - change (inflight_count st1) with (u64 (inflight_count st - 1)). rewrite H7, Ech. pose proof (sum_insert (channels st) k c c' Hc) as Es.
    pose proof (sum_le (channels st) H6) as Hle. unfold topo_small in Hs. rewrite <- H1 in Hs. unfold topo in Hs.
    rewrite wrap_small by (unfold in_u; lia). lia.
Qed.

Lemma step_refines tp st a o : kernel_rep tp st a -> topo_small tp -> op_ok tp a o ->
  exists st', kernel_step st o = Some st' /\ kernel_rep tp st' (net_step tp a o).
Proof. intros HK Hs Ho. destruct o; [by apply send_refines|by apply pop_refines|by apply fire_refines|by apply advance_refines]. Qed.

(** ** Runs *)

Fixpoint kernel_run st (os : list kop) : option (SimPlatform Pkt) :=
  match os with [] => Some st | o :: os => st ← kernel_step st o; kernel_run st os end.

Definition net_run (tp : list hop) (a : net) (os : list kop) : net := fold_left (net_step tp) os a.

Fixpoint ops_ok (tp : list hop) (a : net) (os : list kop) : Prop :=
  match os with [] => True | o :: os => op_ok tp a o /\ ops_ok tp (net_step tp a o) os end.

Lemma run_refines tp os : forall st a, kernel_rep tp st a -> topo_small tp -> ops_ok tp a os ->
  exists st', kernel_run st os = Some st' /\ kernel_rep tp st' (net_run tp a os).
Proof.
  induction os as [|o os IH]; intros st a HK Hs Ho; cbn [kernel_run net_run fold_left]; [by exists st|]. destruct Ho as [Ho Hos].
  destruct (step_refines tp st a o HK Hs Ho) as (st1 & -> & HK1). cbn [mbind option_bind]. by apply IH.
Qed.

(** A new platform. *)
Definition fresh_channel c : Prop := (exists cap, RingQueue_init cap = Some (storage_ c)) /\ pending_count_ c = 0%nat.
Definition net_start (n : nat) : net := {| n_now := 0; n_q := replicate n []; n_fut := []; n_imm := [] |}.

Lemma start_rep (cs : list (SimChannel Pkt)) : Forall fresh_channel cs -> topo_ok (map hop_of cs) ->
  kernel_rep (map hop_of cs) (SimPlatform_init cs) (net_start (length cs)).
Proof.
  intros HF Ht. rewrite list.Forall_forall in HF.
  assert (Hc : forall k c, cs !! k = Some c -> ring (storage_ c) [] /\ pending_count_ c = 0%nat).
  { intros k c Hk. destruct (HF c (list_elem_of_lookup_2 _ _ _ Hk)) as [[cap Hcap] Hp]. split; [by eapply ring_init|done]. }
  constructor; try done.
  - constructor; try done; cbn [SimPlatform_init channels net_start n_q n_fut n_imm app].
    + apply length_replicate.
    + intros k c Hk. exists []. split; [|by apply (Hc k)]. apply lookup_replicate. split; [done|]. by eapply lookup_lt_Some.
    + intros k c Hk. by apply (Hc k).
    + intros k c Hk. destruct (Hc k c Hk) as [Hr Hp]. unfold occupancy. rewrite (rg_size _ _ Hr), Hp. cbn. lia.
    + assert (HS : forall l : list (SimChannel Pkt), (forall c, c ∈ l -> occupancy c = 0%nat) -> sum_list (occupancy <$> l) = 0%nat).
      { induction l as [|c l IH]; intros H; [done|]. cbn. rewrite (H c) by left. rewrite IH; [done|]. intros d Hd. apply H. by right. }
      rewrite HS; [done|]. intros c Hin. apply list_elem_of_lookup in Hin as [k Hk]. destruct (Hc k c Hk) as [Hr Hp]. unfold occupancy. by rewrite (rg_size _ _ Hr), Hp.
    + by intros e ?%elem_of_nil.
  - intros b Hb. apply lookup_replicate. by split.
  - by intros e ?%elem_of_nil.
Qed.

(** ** Every packet is counted once *)

Lemma sum_seq_add (f g : nat -> nat) l : sum_list ((fun k => (f k + g k)%nat) <$> l) = (sum_list (f <$> l) + sum_list (g <$> l))%nat.
Proof. induction l as [|k l IH]; cbn in *; lia. Qed.

Lemma sum_one x n : forall s0, (s0 <= x < s0 + n)%nat -> sum_list ((fun k => if decide (Some x = Some k) then 1%nat else 0%nat) <$> seq s0 n) = 1%nat.
Proof.
  assert (H0 : forall m s1, (x < s1 \/ s1 + m <= x)%nat -> sum_list ((fun k => if decide (Some x = Some k) then 1%nat else 0%nat) <$> seq s1 m) = 0%nat).
  { induction m as [|m IH]; intros s1 Hx; [done|]. cbn [seq fmap list_fmap]. cbn. fold (fmap (M := list) (fun k => if decide (Some x = Some k) then 1%nat else 0%nat)).
    rewrite decide_False by (intros [=]; lia). apply IH. lia. }
  induction n as [|n IH]; intros s0 Hx; [lia|]. cbn. fold (fmap (M := list) (fun k => if decide (Some x = Some k) then 1%nat else 0%nat)).
  destruct (decide (Some x = Some s0)) as [[= ->]|Hne].
  - f_equal. apply H0. lia.
  - apply IH. assert (x <> s0) by congruence. lia.
Qed.

Lemma waiting_total tp P : topo_ok tp -> (forall e, e ∈ P -> (ev_chan e < length tp)%nat) ->
  sum_list ((fun k => waiting tp k P) <$> seq 0 (length tp)) = length P.
Proof.
  intros Ht. induction P as [|e P IH]; intros HP.
  - clear. assert (H : forall n s0, sum_list ((fun _ : nat => 0%nat) <$> seq s0 n) = 0%nat) by (induction n as [|n IH]; intros s0; [done|cbn; apply IH]).
    apply H.
  - assert (E : ((fun k => waiting tp k (e :: P)) <$> seq 0 (length tp)) =
      ((fun k => ((if decide (ev_dest tp e = Some k) then 1 else 0) + waiting tp k P)%nat) <$> seq 0 (length tp)))
      by (apply list_fmap_ext; intros; apply waiting_cons).
    rewrite E, sum_seq_add, IH by (intros x Hx; apply HP; by right). destruct (Ht (ev_chan e) (HP e ltac:(left))) as [x Hx].
    assert (Hlt : (x < length tp)%nat) by (destruct (route_end _ _ _ _ Hx) as (h & Hh & _); by eapply lookup_lt_Some).
    unfold ev_dest. rewrite Hx, sum_one by lia. done.
Qed.

(** The count of packets in flight is that of the packets queued and under way. *)
Lemma inflight_exact tp st a : kernel_rep tp st a ->
  inflight_count st = Z.of_nat (length (concat (n_q a)) + length (n_fut a) + length (n_imm a)).
Proof.
  intros [HA _ _ _ _ _ _ _ _]. destruct HA as [H1 H2 H3 H4 H5 H6 H7 H8]. rewrite H7. f_equal.
  rewrite <- Nat.add_assoc, <- length_app, <- (waiting_total tp (n_fut a ++ n_imm a) H2 H8).
  assert (Hlen : length tp = length (channels st)) by (rewrite <- H1; unfold topo; by rewrite length_map). rewrite Hlen.
  clear H1 H2 H7 H8 Hlen. revert H3 H4 H5. generalize (n_fut a ++ n_imm a) as P. intros P.
  assert (HG : forall cs Q s0, length Q = length cs -> (forall k c, cs !! k = Some c -> exists l, Q !! k = Some l /\ ring (storage_ c) l) ->
    (forall k c, cs !! k = Some c -> pending_count_ c = waiting tp (s0 + k) P) ->
    sum_list (occupancy <$> cs) = (length (concat Q) + sum_list ((fun k => waiting tp k P) <$> seq s0 (length cs)))%nat).
  { induction cs as [|c cs IH]; intros [|l Q] s0 Hl Hr Hp; try done. cbn in Hl. cbn [concat length seq]. rewrite length_app. cbn.
    destruct (Hr 0%nat c eq_refl) as (l' & [= <-] & Hrc). pose proof (Hp 0%nat c eq_refl) as Hpc. rewrite Nat.add_0_r in Hpc.
    specialize (IH Q (S s0) ltac:(lia) (fun k => Hr (S k))). cbn in IH. rewrite IH.
    - unfold occupancy. rewrite (rg_size _ _ Hrc), Hpc. unfold fmap. lia.
    - intros k d Hk. rewrite (Hp (S k) d Hk). f_equal. lia. }
  intros H3 H4 H5. by apply (HG _ _ 0%nat).
Qed.

(** ** A delayed packet arrives when it is due *)

Definition is_advance (o : kop) : bool := match o with OAdvance => true | _ => false end.
Definition cycles_of (os : list kop) : Z := Z.of_nat (length (filter (fun o => Is_true (is_advance o)) os)).

Lemma under_way tp os e : forall a, e ∈ n_fut a -> n_now a + cycles_of os < ev_cycles e ->
  e ∈ n_fut (net_run tp a os) /\ n_now (net_run tp a os) = n_now a + cycles_of os.
Proof.
  induction os as [|o os IH]; intros a He Ht; cbn [net_run fold_left]; [unfold cycles_of; cbn; split; [done|lia]|].
  assert (Hc : cycles_of (o :: os) = (if is_advance o then 1 else 0) + cycles_of os).
  { unfold cycles_of. rewrite filter_cons. destruct o; cbn [is_advance]; [rewrite decide_False by (cbn; tauto)..|rewrite decide_True by (cbn; tauto)]; cbn [length]; lia. }
  assert (0 <= cycles_of os) by (unfold cycles_of; lia).
  assert (Hst : e ∈ n_fut (net_step tp a o) /\ n_now (net_step tp a o) = n_now a + (if is_advance o then 1 else 0)).
  { destruct o; cbn [net_step is_advance] in *; unfold net_send, net_pop, net_fire, net_advance; rproj.
    - destruct (net_full _ _ _); [split; [done|lia]|]. destruct (_ =? _); rproj; (split; [|lia]); [done|]. apply elem_of_app. by left.
    - split; [done|lia].
    - split; [done|lia].
    - split; [|lia]. apply list_elem_of_filter. split; [lia|done]. }
  destruct Hst as [H1 H2]. destruct (IH _ H1) as [H3 H4]; [lia|]. split; [done|]. unfold net_run in H4. lia.
Qed.

Lemma deliver_keeps tp es : forall Q x l p, Q !! x = Some l -> p ∈ l -> exists l', fold_left (deliver tp) es Q !! x = Some l' /\ p ∈ l'.
Proof.
  induction es as [|e es IH]; intros Q x l p HQ Hp; cbn [fold_left]; [by exists l|].
  assert (exists l', deliver tp Q e !! x = Some l' /\ p ∈ l') as (l' & Hl' & Hp').
  { unfold deliver. destruct (ev_dest tp e) as [y|]; [|by exists l]. destruct (decide (x = y)) as [->|].
    - rewrite list_lookup_alter_eq, HQ. eexists. split; [reflexivity|]. apply elem_of_app. by left.
    - rewrite list_lookup_alter_ne by done. by exists l. }
  by eapply IH.
Qed.

Lemma deliver_arrives tp es e : forall Q x, e ∈ es -> ev_dest tp e = Some x -> is_Some (Q !! x) ->
  exists l, fold_left (deliver tp) es Q !! x = Some l /\ ev_out tp e ∈ l.
Proof.
  induction es as [|e' es IH]; intros Q x Hin Hx HQ; [by apply elem_of_nil in Hin|]. cbn [fold_left]. apply elem_of_cons in Hin as [<-|Hin].
  - destruct HQ as [l Hl]. eapply (deliver_keeps tp es _ x (l ++ [ev_out tp e])); [|apply elem_of_app; right; by apply list_elem_of_singleton].
    unfold deliver. rewrite Hx. by rewrite list_lookup_alter_eq, Hl.
  - apply IH; [done|done|]. unfold deliver. destruct (ev_dest tp e') as [y|]; [|done]. destruct HQ as [l Hl].
    destruct (decide (x = y)) as [->|]; [rewrite list_lookup_alter_eq, Hl|rewrite list_lookup_alter_ne, Hl by done]; by eexists.
Qed.

(** ** Claims *)

(** C5 (refinement): the simulation kernel implements a network of timed queues.  On channels without a cycle of
    sinks, any sequence of sends, reads, immediate deliveries and cycles runs without a failed assertion (no full
    or empty queue, no underflow of the reserved slots) and leaves the queues of the abstract network, in which a
    packet arrives exactly its delay after it was sent and packets due together arrive in the order of sending.  The
    count of packets in flight, on which the processor decides that it is done, is exact. *)
Theorem kernel_refines (cs : list (SimChannel Pkt)) os : let tp := map hop_of cs in
  Forall fresh_channel cs -> topo_ok tp -> topo_small tp -> ops_ok tp (net_start (length cs)) os ->
  exists st, kernel_run (SimPlatform_init cs) os = Some st /\
    let a := net_run tp (net_start (length cs)) os in
    cycles_ st = n_now a /\
    (forall k c, channels st !! k = Some c -> exists l, n_q a !! k = Some l /\ ring (storage_ c) l) /\
    inflight_count st = Z.of_nat (length (concat (n_q a)) + length (n_fut a) + length (n_imm a)).
Proof.
  intros tp HF Ht Hs Ho. destruct (run_refines tp os _ _ (start_rep cs HF Ht) Hs Ho) as (st & E & HK). exists st. split; [done|].
  split; [apply HK|]. split; [apply (ac_ring _ _ _ _ (kr_acc _ _ _ HK))|by apply (inflight_exact tp)].
Qed.

(** C33 (liveness): a packet accepted with a delay of [d] cycles, whatever else is sent and read meanwhile, is not in
    its queue after fewer cycles than [d] and is there, converted by its route, right after the [d]-th. *)
Theorem kernel_delivers (tp : list hop) st a k pkt d os x : kernel_rep tp st a -> topo_small tp -> net_full tp a k = false ->
  dest tp k = Some x -> 0 < d -> cycles_of os = d - 1 -> ops_ok tp a (OSend k pkt d :: os ++ [OAdvance]) ->
  let e := {| ev_chan := k; ev_pkt := pkt; ev_cycles := n_now a + d |} in
  (exists st1 b bucket, kernel_run st (OSend k pkt d :: os) = Some st1 /\ reg_events_ st1 !! b = Some bucket /\ e ∈ bucket) /\
  exists st2 c l, kernel_run st (OSend k pkt d :: os ++ [OAdvance]) = Some st2 /\ channels st2 !! x = Some c /\
    ring (storage_ c) l /\ ev_out tp e ∈ l.
Proof.
  intros HK Hs Hf Hx Hd Hc Ho e.
  assert (Hsplit : forall os1 a1, ops_ok tp a1 (os1 ++ [OAdvance]) -> ops_ok tp a1 os1).
  { induction os1 as [|o os1 IH]; intros a1; [done|]. intros [H1 H2]. split; [done|by apply IH]. }
  set (a1 := net_run tp a (OSend k pkt d :: os)).
  assert (Hin : e ∈ n_fut a1 /\ n_now a1 = n_now a + d - 1).
  { assert (He : e ∈ n_fut (net_send tp a k pkt d) /\ n_now (net_send tp a k pkt d) = n_now a).
    { unfold net_send. rewrite Hf, (proj2 (Z.eqb_neq d 0)) by lia. rproj. split; [|done]. apply elem_of_app. right. by apply list_elem_of_singleton. }
    destruct He as [He Hn]. destruct (under_way tp os e _ He) as [H1 H2]; [unfold e; cbn [ev_cycles]; lia|]. split; [exact H1|]. unfold a1. cbn [net_run fold_left net_step].
    unfold net_run in H2. lia. }
  destruct Hin as [Hin Hnow].
  destruct (run_refines tp (OSend k pkt d :: os) st a HK Hs) as (st1 & E1 & HK1); [apply (Hsplit (OSend k pkt d :: os) a Ho)|]. fold a1 in HK1. split.
  - pose proof (kr_fut _ _ _ HK1 e Hin) as Ht. pose proof (kr_now0 _ _ _ HK1). pose proof (Z.mod_pos_bound (ev_cycles e) 4096 ltac:(lia)).
    exists st1, (Z.to_nat (ev_cycles e mod 4096)). eexists. split; [done|]. split; [apply (kr_wheel _ _ _ HK1); lia|].
    apply list_elem_of_filter. split; [lia|done].
  - destruct (run_refines tp (OSend k pkt d :: os ++ [OAdvance]) st a HK Hs Ho) as (st2 & E2 & HK2).
    assert (Ea : net_run tp a (OSend k pkt d :: os ++ [OAdvance]) = net_advance tp a1) by (unfold a1, net_run; cbn [fold_left]; by rewrite fold_left_app).
    rewrite Ea in HK2. pose proof (kr_acc _ _ _ HK1) as HA1. pose proof (ac_chan _ _ _ _ HA1 e ltac:(apply elem_of_app; by left)) as Hch.
    destruct (dest_channel _ _ _ _ e HA1 Hch) as (y & _ & l1 & Hy & _ & Hl1 & _). unfold ev_dest in Hy. cbn [ev_chan] in Hy.
    assert (y = x) as -> by (unfold e in Hy; cbn [ev_chan] in Hy; congruence).
    destruct (deliver_arrives tp (filter (fun e => ev_cycles e = n_now a1 + 1) (n_fut a1)) e (n_q a1) x) as (l & Hl & Hout);
      [apply list_elem_of_filter; split; [unfold e; cbn [ev_cycles]; lia|done]|done|by eexists|].
    destruct (dest_channel _ _ _ _ e (kr_acc _ _ _ HK2) Hch) as (z & c & l2 & Hz & Hc2 & Hl2 & Hr2). unfold ev_dest, e in Hz. cbn [ev_chan] in Hz.
    assert (z = x) as -> by congruence. cbn [net_advance n_q] in Hl2. rewrite Hl in Hl2. injection Hl2 as <-. by exists st2, c, l.
Qed.

(** Resetting the platform drops the packets under way but not the slots they
    had reserved: those stay taken, and the count of packets in flight never
    returns to zero. *)
Theorem kernel_reset_leaks (tp : list hop) st a e x c : kernel_rep tp st a -> e ∈ n_fut a -> ev_dest tp e = Some x -> channels st !! x = Some c ->
  exists st', platform_reset Some st = Some st' /\ (forall b bucket, reg_events_ st' !! b = Some bucket -> bucket = []) /\ imm_events_ st' = [] /\
    channels st' !! x = Some c /\ (0 < pending_count_ c)%nat /\ inflight_count st' = inflight_count st /\ 0 < inflight_count st'.
Proof.
  intros HK He Hx Hc. pose proof (inflight_exact tp st a HK) as Hfl. destruct HK as [HA _ _ _ _ _ _ _ _].
  assert (Hp : (0 < pending_count_ c)%nat).
  { rewrite (ac_pend _ _ _ _ HA x c Hc). unfold waiting. assert (Hin : e ∈ filter (fun e => ev_dest tp e = Some x) (n_fut a ++ n_imm a)).
    { apply list_elem_of_filter. split; [done|]. apply elem_of_app. by left. }
    destruct (filter _ (n_fut a ++ n_imm a)); [by apply elem_of_nil in Hin|cbn; lia]. }
  assert (Hlen : (0 < length (n_fut a))%nat) by (destruct (n_fut a); [by apply elem_of_nil in He|cbn; lia]).
  unfold platform_reset. cbn [mbind option_bind]. eexists. split; [reflexivity|]. split_and!; rproj; try done; [|lia].
  intros b bucket Hb. rewrite list_lookup_fmap in Hb. destruct (reg_events_ st !! b); cbn in Hb; congruence.
Qed.

End Proofs.

(** ** A concrete network *)

Module KernelDemo.

Definition fifo (cap : nat) : RingQueue Z :=
  {| rq_storage := replicate cap None; rq_capacity := cap; rq_head := 0; rq_tail := 0; rq_size := 0 |}.
Definition chan_to (s : option nat) (f : option (Z -> Z)) : SimChannel Z :=
  {| storage_ := fifo 2; pending_count_ := 0; sink_ := s; convert_fn_ := f; tx_cb_ := false |}.

(** Channel 0 is bound to channel 1 with a converter. *)
Definition chans : list (SimChannel Z) := [chan_to (Some 1%nat) (Some (fun x => x + 100)); chan_to None None].
Definition tp := map hop_of chans.

Lemma chans_fresh : Forall fresh_channel chans.
Proof. repeat constructor; by exists 2%nat. Qed.

Lemma tp_ok : topo_ok tp.
Proof. intros [|[|k]] Hk; cbn in Hk; [by exists 1%nat|by exists 1%nat|lia]. Qed.

Definition script : list (@kop Z) := [OSend 0 7 3; OAdvance; OSend 0 8 1; OAdvance; OAdvance; OPop 1].

Lemma script_ok : ops_ok tp (net_start 2) script.
Proof. cbn [script ops_ok op_ok]. split_and!; try (vm_compute; congruence || lia); try exact I. eexists. by split. Qed.

(** The later packet overtakes; the queue ends with the earlier one. *)
Lemma kernel_refines_witness : exists st c, kernel_run (SimPlatform_init chans) script = Some st /\ cycles_ st = 3 /\
  channels st !! 1%nat = Some c /\ ring (storage_ c) [107] /\ inflight_count st = 1.
Proof.
  destruct (kernel_refines chans script chans_fresh tp_ok) as (st & E & Hc & Hq & Hf); [reflexivity|exact script_ok|].
  assert (Hs : match kernel_run (SimPlatform_init chans) script with Some st => bool_decide (is_Some (channels st !! 1%nat)) | None => false end = true) by (vm_compute; reflexivity).
  rewrite E in Hs. apply bool_decide_eq_true in Hs as [c Hs]. exists st, c. split; [exact E|]. split; [rewrite Hc; vm_compute; reflexivity|]. split; [exact Hs|].
  split; [|rewrite Hf; vm_compute; reflexivity]. destruct (Hq 1%nat c Hs) as (l & Hl & Hr). vm_compute in Hl. injection Hl as <-. exact Hr.
Defined.

Lemma kernel_delivers_witness : exists st c l, kernel_run (SimPlatform_init chans) [OSend 0 7 2; OSend 0 8 1; OAdvance; OAdvance] = Some st /\
  channels st !! 1%nat = Some c /\ ring (storage_ c) l /\ 107 ∈ l.
Proof.
  apply (kernel_delivers tp (SimPlatform_init chans) (net_start 2) 0 7 2 [OSend 0 8 1; OAdvance] 1);
    [exact (start_rep chans chans_fresh tp_ok)|reflexivity|reflexivity|reflexivity|lia|reflexivity|].
  cbn [app ops_ok op_ok]. split_and!; try (vm_compute; congruence || lia); exact I.
Defined.

End KernelDemo.
