(* ===== verification/Amo.v ===== *)
(** * Atomic memory operations

    [sim/simx/amo/amo_ops.h] and [sim/simx/amo/amo_unit.{h,cpp}]: the
    read-modify-write kernel, the word accessors of a memory block and the
    reservation table of load-reserved and store-conditional.  An access past
    the end of a block and [std::abort] are [None]. *)

From S2P Require Import Prelude MemTypes.

(** ** Words of a block *)

(** [amo_load_word]; [width] is 2 for a word and 3 for a double word. *)
Definition amo_load_word (line : list Z) (byte_off width : Z) : option Z :=
  let n := Z.to_nat (Z.shiftl 1 width) in
  bs ← mapM (fun i => line !! (Z.to_nat byte_off + i)%nat) (seq 0 n);
  Some (fold_left (fun v '(i, x) => Z.lor v (u64 (Z.shiftl x (8 * Z.of_nat i)))) (zip (seq 0 n) bs) 0).

(** [amo_store_word] *)
Definition amo_store_word (line : list Z) (byte_off width v : Z) : option (list Z) :=
  let n := Z.to_nat (Z.shiftl 1 width) in
  if (Z.to_nat byte_off + n <=? length line)%nat then
    Some (fold_left (fun l i => <[(Z.to_nat byte_off + i)%nat := Z.land (Z.shiftr v (8 * Z.of_nat i)) 0xff]> l) (seq 0 n) line)
  else None.

(** [amo_byteen] *)
Definition amo_byteen (byte_off width : Z) : Z := u64 (Z.shiftl (u64 (Z.shiftl 1 (Z.shiftl 1 width)) - 1) byte_off).

(** ** The kernel *)

Record AmoComputeResult := { new_word : Z; ret_word : Z }.

(** [amo_compute]; [LD], [ST] and [FLUSH] abort. *)
Definition amo_compute (op : MemOp) (width old_word rhs : Z) (unsigned_minmax : bool) : option AmoComputeResult :=
  let is_w := width =? 2 in
  let mask_w v := Z.land v 0xFFFFFFFF in
  let sext_w v := sint 32 v in
  let a := if is_w then mask_w old_word else old_word in
  let b := if is_w then mask_w rhs else rhs in
  let ai := if is_w then sext_w old_word else sint 64 old_word in
  let bi := if is_w then sext_w rhs else sint 64 rhs in
  newv ← match op with
         | MAMO_LR => Some a
         | MAMO_SC => Some b
         | MAMO_SWAP => Some b
         | MAMO_ADD => Some (u64 (a + b))
         | MAMO_AND => Some (Z.land a b)
         | MAMO_OR => Some (Z.lor a b)
         | MAMO_XOR => Some (Z.lxor a b)
         | MAMO_MIN => Some (if unsigned_minmax then if a <? b then a else b else u64 (if ai <? bi then ai else bi))
         | MAMO_MAX => Some (if unsigned_minmax then if b <? a then a else b else u64 (if bi <? ai then ai else bi))
         | _ => None
         end;
  let newv := if is_w then mask_w newv else newv in
  Some {| new_word := newv; ret_word := if is_w then mask_w old_word else old_word |}.

(** ** Reservations *)

(** [AmoUnit]: hart id to reserved line address. *)
Definition AmoUnit := gmap Z Z.

Definition amo_reserve (u : AmoUnit) (hart_id line_addr : Z) : AmoUnit := <[hart_id := line_addr]> u.
Definition amo_check (u : AmoUnit) (hart_id line_addr : Z) : bool :=
  match u !! hart_id with Some a => a =? line_addr | None => false end.
Definition amo_invalidate (u : AmoUnit) (line_addr except_hart_id : Z) : AmoUnit :=
  filter (fun '(h, a) => ~ (a = line_addr /\ h <> except_hart_id)) u.
Definition amo_clear (u : AmoUnit) (hart_id line_addr : Z) : AmoUnit :=
  match u !! hart_id with
  | Some a => if a =? line_addr then delete hart_id u else u
  | None => u
  end.
