(* ===== verification/Cache.v ===== *)
(** * Cache bank

    [sim/simx/mem/cache.{h,cpp}]: address fields, sets with sectored lines and
    replacement, the miss-status holding registers, and the bank pipeline
    ([CacheBank]) with its replay, fill, fill-forward, atomic and flush paths.

    The configuration [cfg], the parameters [p] derived from it and the bank
    number are arguments of the bank; [ext_a] is the preprocessor choice
    [VX_CFG_EXT_A_ENABLED].  A failed assertion, [std::abort] and an index out
    of range are [None]; a stall is an unchanged pipeline head.  A block shared
    between packets is copied before it is written ([sector_merge]), so blocks
    are values.  The traces ([DT]) are left out. *)

From S2P Require Import Prelude MemTypes Amo.

(** ** Bit fields ([sw/common/bitmanip.h]) *)

Definition U64_MAX : Z := 0xffffffffffffffff.

Definition bit_clrw (bits s e : Z) : Z :=
  let shift := 63 - e in
  let mask := Z.shiftr (u64 (Z.shiftl U64_MAX (shift + s))) shift in
  Z.land bits (Z.lxor mask U64_MAX).

Definition bit_setw (bits s e value : Z) : Z :=
  let shift := 63 - e in
  let dirty := Z.shiftr (u64 (Z.shiftl value (shift + s))) shift in
  Z.lor (bit_clrw bits s e) dirty.

Definition bit_getw (bits s e : Z) : Z :=
  let shift := 63 - e in
  Z.shiftr (u64 (Z.shiftl bits shift)) (shift + s).

(** ** Configuration *)

Inductive ReplPolicy := RANDOM | FIFO | PLRU.

Record Config := {
  cf_bypass : bool;
  cf_C : Z; cf_L : Z; cf_S : Z; cf_W : Z; cf_A : Z; cf_B : Z;
  cf_addr_width : Z; cf_num_inputs : Z; cf_mem_ports : Z;
  write_back : bool; write_reponse : bool;
  mshr_size : nat; cf_latency : Z; repl_policy : ReplPolicy; is_llc : bool
}.

Record params_t := {
  sets_per_bank : Z; lines_per_set : Z; words_per_line : Z; sectors_per_line : Z;
  sector_select_addr_start : Z; sector_select_addr_end : Z;
  word_select_addr_start : Z; word_select_addr_end : Z;
  bank_select_addr_start : Z; bank_select_addr_end : Z;
  set_select_addr_start : Z; set_select_addr_end : Z;
  tag_select_addr_start : Z; tag_select_addr_end : Z
}.

(** [params_t::params_t] *)
Definition make_params (c : Config) : option params_t :=
  let offset_bits := cf_L c - cf_W c in
  let index_bits := cf_C c - (cf_L c + cf_A c + cf_B c) in
  let sector_bits := cf_L c - cf_S c in
  if (0 <=? offset_bits) && (0 <=? index_bits) && (0 <=? sector_bits) then
    let word_start := cf_W c in
    let word_end := word_start + offset_bits - 1 in
    let bank_start := 1 + word_end in
    let bank_end := bank_start + cf_B c - 1 in
    let set_start := 1 + bank_end in
    let set_end := set_start + index_bits - 1 in
    let tag_start := 1 + set_end in
    Some {| sets_per_bank := Z.shiftl 1 index_bits; lines_per_set := Z.shiftl 1 (cf_A c);
            words_per_line := Z.shiftl 1 offset_bits; sectors_per_line := Z.shiftl 1 sector_bits;
            sector_select_addr_start := cf_S c; sector_select_addr_end := cf_S c + sector_bits - 1;
            word_select_addr_start := word_start; word_select_addr_end := word_end;
            bank_select_addr_start := bank_start; bank_select_addr_end := bank_end;
            set_select_addr_start := set_start; set_select_addr_end := set_end;
            tag_select_addr_start := tag_start; tag_select_addr_end := cf_addr_width c - 1 |}
  else None.

Definition addr_bank_id (p : params_t) (addr : Z) : Z :=
  if bank_select_addr_start p <=? bank_select_addr_end p
  then u32 (bit_getw addr (bank_select_addr_start p) (bank_select_addr_end p)) else 0.

Definition addr_set_id (p : params_t) (addr : Z) : Z :=
  if set_select_addr_start p <=? set_select_addr_end p
  then u32 (bit_getw addr (set_select_addr_start p) (set_select_addr_end p)) else 0.

Definition addr_tag (p : params_t) (addr : Z) : Z :=
  if tag_select_addr_start p <=? tag_select_addr_end p
  then bit_getw addr (tag_select_addr_start p) (tag_select_addr_end p) else 0.

Definition addr_sector_id (p : params_t) (addr : Z) : Z :=
  if sector_select_addr_start p <=? sector_select_addr_end p
  then u32 (bit_getw addr (sector_select_addr_start p) (sector_select_addr_end p)) else 0.

Definition mem_addr (p : params_t) (bank_id set_id tag : Z) : Z :=
  let addr := 0 in
  let addr := if bank_select_addr_start p <=? bank_select_addr_end p
              then bit_setw addr (bank_select_addr_start p) (bank_select_addr_end p) bank_id else addr in
  let addr := if set_select_addr_start p <=? set_select_addr_end p
              then bit_setw addr (set_select_addr_start p) (set_select_addr_end p) set_id else addr in
  if tag_select_addr_start p <=? tag_select_addr_end p
  then bit_setw addr (tag_select_addr_start p) (tag_select_addr_end p) tag else addr.

Definition mem_addr_sector (p : params_t) (bank_id set_id tag sector_id : Z) : Z :=
  let addr := mem_addr p bank_id set_id tag in
  if sector_select_addr_start p <=? sector_select_addr_end p
  then bit_setw addr (sector_select_addr_start p) (sector_select_addr_end p) sector_id else addr.

(** ** Blocks *)

Definition VX_CFG_MEM_BLOCK_SIZE : Z := 64.
Definition zero_block : list Z := replicate (Z.to_nat VX_CFG_MEM_BLOCK_SIZE) 0.

(** The byte-enabled copy of the sources; [data[b]] of a block is in range. *)
Definition merge_bytes (dst src : list Z) (byteen : Z) : list Z :=
  imap (fun b x => if Z.testbit byteen (Z.of_nat b) then default 0 (src !! b) else x) dst.

(** ** Lines *)

Record sector_t := { sc_valid : bool; sc_dirty : bool; sc_dirty_mask : Z; sc_data : option (list Z) }.

Definition sector_reset : sector_t := {| sc_valid := false; sc_dirty := false; sc_dirty_mask := 0; sc_data := None |}.

Record line_t := { ln_tag : Z; ln_lru_ctr : Z; ln_sectors : list sector_t }.

Definition any_valid (l : line_t) : bool := existsb sc_valid (ln_sectors l).
Definition any_dirty (l : line_t) : bool := existsb (fun s => sc_valid s && sc_dirty s) (ln_sectors l).
Definition line_reset (l : line_t) : line_t :=
  l <| ln_lru_ctr := 0 |> <| ln_sectors := map (fun _ => sector_reset) (ln_sectors l) |>.

Definition sector_merge (sec : sector_t) (src : option (list Z)) (byteen : Z) : sector_t :=
  let data := match sc_data sec with Some d => d | None => zero_block end in
  sec <| sc_data := Some (match src with Some s => merge_bytes data s byteen | None => data end) |>.

(** ** Sets *)

Record set_t := { st_lines : list line_t; st_fifo_ptr : Z }.

Definition set_init (num_ways sectors_per_line : Z) : set_t :=
  {| st_lines := replicate (Z.to_nat num_ways)
       {| ln_tag := 0; ln_lru_ctr := 0; ln_sectors := replicate (Z.to_nat sectors_per_line) sector_reset |};
     st_fifo_ptr := 0 |}.

Definition set_reset (s : set_t) : set_t := s <| st_lines := map line_reset (st_lines s) |> <| st_fifo_ptr := 0 |>.

(** The local variables of the loop of [tag_match]. *)
Record match_t := { mt_hit : option nat; mt_free : option nat; mt_repl : nat; mt_max : Z; mt_has : bool; mt_chosen : bool }.

Definition tag_match_step (policy : ReplPolicy) (tag : Z) (m : match_t) (i : nat) (line : line_t) : match_t :=
  if negb (any_valid line) then
    match mt_free m with None => m <| mt_free := Some i |> | Some _ => m end
  else
    let m := m <| mt_has := true |> in
    let m := if ln_tag line =? tag then m <| mt_hit := Some i |> else m in
    match policy with
    | PLRU =>
        if negb (mt_chosen m) || (mt_max m <=? ln_lru_ctr line)
        then m <| mt_max := ln_lru_ctr line |> <| mt_repl := i |> <| mt_chosen := true |>
        else m
    | _ => m
    end.

Fixpoint tag_match_from (policy : ReplPolicy) (tag : Z) (m : match_t) (i : nat) (ls : list line_t) : match_t :=
  match ls with
  | [] => m
  | l :: ls => tag_match_from policy tag (tag_match_step policy tag m i l) (S i) ls
  end.

Definition match_init : match_t :=
  {| mt_hit := None; mt_free := None; mt_repl := 0; mt_max := 0; mt_has := false; mt_chosen := false |}.

(** The victim of a replacement policy, common to the two searches. *)
Definition policy_victim (s : set_t) (policy : ReplPolicy) (rand_idx : Z) (m : match_t) : nat :=
  let n := Z.of_nat (length (st_lines s)) in
  match policy with
  | FIFO => Z.to_nat (st_fifo_ptr s mod n)
  | RANDOM => Z.to_nat (rand_idx mod n)
  | PLRU => if mt_has m then mt_repl m else default 0%nat (mt_free m)
  end.

(** [set_t::tag_match]; the hit, the free line and the line to replace. *)
Definition tag_match (s : set_t) (tag : Z) (policy : ReplPolicy) (rand_idx : Z) : option nat * option nat * nat :=
  let m := tag_match_from policy tag match_init 0 (st_lines s) in
  (mt_hit m, mt_free m, policy_victim s policy rand_idx m).

(** [set_t::update_lru] *)
Definition update_lru (s : set_t) (hit : option nat) : set_t :=
  s <| st_lines := imap (fun i line =>
         if negb (any_valid line) then line
         else if bool_decide (hit = Some i) then line <| ln_lru_ctr := 0 |>
         else line <| ln_lru_ctr := u32 (ln_lru_ctr line + 1) |>) (st_lines s) |>.

Definition select_step (policy : ReplPolicy) (m : match_t) (i : nat) (line : line_t) : match_t :=
  if negb (any_valid line) then
    match mt_free m with None => m <| mt_free := Some i |> | Some _ => m end
  else
    let m := m <| mt_has := true |> in
    match policy with
    | PLRU => if mt_max m <=? ln_lru_ctr line then m <| mt_max := ln_lru_ctr line |> <| mt_repl := i |> else m
    | _ => m
    end.

Fixpoint select_from (policy : ReplPolicy) (m : match_t) (i : nat) (ls : list line_t) : match_t :=
  match ls with
  | [] => m
  | l :: ls => select_from policy (select_step policy m i l) (S i) ls
  end.

(** [set_t::select_victim] *)
Definition select_victim (s : set_t) (policy : ReplPolicy) (rand_idx : Z) : nat :=
  let m := select_from policy match_init 0 (st_lines s) in
  match mt_free m with Some i => i | None => policy_victim s policy rand_idx m end.

(** [set_t::find_resident] *)
Definition find_resident (s : set_t) (tag : Z) : option nat :=
  fst <$> list_find (fun l => Is_true (any_valid l && (ln_tag l =? tag))) (st_lines s).

(** ** Bank requests and miss-status holding registers *)

Inductive ReqType := RNone | RFill | RReplay | RCore | RAmoProbe.

#[export] Instance ReqType_eq_dec : EqDecision ReqType.
Proof. solve_decision. Defined.

Definition is_type (t u : ReqType) : bool := bool_decide (t = u).

Record bank_req_t := {
  br_addr : Z; br_hart_id : Z; br_req_tag : Z; br_uuid : Z; br_mshr_id : nat; br_type : ReqType; br_write : bool;
  br_op : MemOp; br_skip_core_rsp : bool; br_data : option (list Z); br_byteen : Z; br_flags : Z; br_adm_seq : Z
}.

Definition bank_req_reset : bank_req_t := {|
  br_addr := 0; br_hart_id := 0; br_req_tag := 0; br_uuid := 0; br_mshr_id := 0; br_type := RNone; br_write := false;
  br_op := MLD; br_skip_core_rsp := false; br_data := None; br_byteen := 0; br_flags := 0; br_adm_seq := 0 |}.

Record mshr_entry_t := {
  me_req : bank_req_t; me_set_id : Z; me_addr_tag : Z; me_sector_id : Z; me_line_id : Z; me_seq : Z
}.

Definition mshr_entry_reset : mshr_entry_t :=
  {| me_req := bank_req_reset; me_set_id := 0; me_addr_tag := 0; me_sector_id := 0; me_line_id := 0; me_seq := 0 |}.

Record MSHR := { ms_entries : list mshr_entry_t; ms_ready_reqs : Z; ms_size : Z }.

Definition MSHR_init (size : nat) : MSHR := {| ms_entries := replicate size mshr_entry_reset; ms_ready_reqs := 0; ms_size := 0 |}.
Definition ms_capacity (m : MSHR) : Z := Z.of_nat (length (ms_entries m)).

(** [MSHR::full] *)
Definition ms_full (m : MSHR) : option bool :=
  if ms_size m <=? ms_capacity m then Some (ms_size m =? ms_capacity m) else None.
Definition has_ready_reqs (m : MSHR) : bool := negb (ms_ready_reqs m =? 0).

Definition me_type (e : mshr_entry_t) : ReqType := br_type (me_req e).
Definition set_type (t : ReqType) (e : mshr_entry_t) : mshr_entry_t := e <| me_req := (me_req e) <| br_type := t |> |>.

Definition me_matches (set_id tag sector_id : Z) (e : mshr_entry_t) : bool :=
  (me_set_id e =? set_id) && (me_addr_tag e =? tag) && (me_sector_id e =? sector_id).

(** [MSHR::lookup]; no caller uses the root entry. *)
Definition mshr_lookup (m : MSHR) (set_id tag sector_id : Z) : bool :=
  existsb (fun e => negb (is_type (me_type e) RNone) && me_matches set_id tag sector_id e) (ms_entries m).

(** [MSHR::has_pending_fill]; the excluded entry is [None] for -1. *)
Definition has_pending_fill (m : MSHR) (set_id tag sector_id : Z) (exclude : option nat) : bool :=
  existsb (fun '(i, e) => negb (bool_decide (exclude = Some i)) && is_type (me_type e) RCore && me_matches set_id tag sector_id e)
    (imap pair (ms_entries m)).

(** [MSHR::enqueue] *)
Definition mshr_enqueue (m : MSHR) (r : bank_req_t) (set_id tag sector_id : Z) : option (MSHR * nat) :=
  if is_type (br_type r) RCore then
    '(i, e) ← list_find (fun e => me_type e = RNone) (ms_entries m);
    let e := {| me_req := r; me_set_id := set_id; me_addr_tag := tag; me_sector_id := sector_id; me_line_id := 0;
                me_seq := br_adm_seq r |} in
    Some (m <| ms_entries := <[i := e]> (ms_entries m) |> <| ms_size := u32 (ms_size m + 1) |>, i)
  else None.

(** [MSHR::replay]; the count of the entries that become ready is added. *)
Definition mshr_replay (m : MSHR) (id : nat) : option MSHR :=
  root ← ms_entries m !! id;
  if is_type (me_type root) RCore then
    let hit e := is_type (me_type e) RCore && me_matches (me_set_id root) (me_addr_tag root) (me_sector_id root) e in
    Some (m <| ms_entries := map (fun e => if hit e then set_type RReplay e else e) (ms_entries m) |>
            <| ms_ready_reqs := u32 (ms_ready_reqs m + Z.of_nat (length (filter (fun e => Is_true (hit e)) (ms_entries m)))) |>)
  else None.

(** [MSHR::defer_to_replay] *)
Definition defer_to_replay (m : MSHR) (id : nat) : option MSHR :=
  e ← ms_entries m !! id;
  if is_type (me_type e) RCore then
    Some (m <| ms_entries := <[id := set_type RReplay e]> (ms_entries m) |> <| ms_ready_reqs := u32 (ms_ready_reqs m + 1) |>)
  else None.

(** The loop of [peek_next_replay] and [dequeue]: the ready entry with the
    smallest sequence number, the first of equals. *)
Definition next_ready (picked : option (nat * mshr_entry_t)) (x : nat * mshr_entry_t) : option (nat * mshr_entry_t) :=
  if is_type (me_type (snd x)) RReplay then
    match picked with
    | None => Some x
    | Some q => if me_seq (snd x) <? me_seq (snd q) then Some x else picked
    end
  else picked.

Definition peek_next_replay (m : MSHR) : option (nat * mshr_entry_t) := fold_left next_ready (imap pair (ms_entries m)) None.

(** [MSHR::dequeue] *)
Definition mshr_dequeue (m : MSHR) : option (MSHR * bank_req_t) :=
  if 0 <? ms_ready_reqs m then
    '(i, e) ← peek_next_replay m;
    Some (m <| ms_entries := <[i := set_type RNone e]> (ms_entries m) |> <| ms_ready_reqs := u32 (ms_ready_reqs m - 1) |>
            <| ms_size := u32 (ms_size m - 1) |>, me_req e)
  else None.

Definition mshr_reset (m : MSHR) : MSHR :=
  {| ms_entries := map (fun _ => mshr_entry_reset) (ms_entries m); ms_ready_reqs := 0; ms_size := 0 |}.

(** ** The bank *)

Record PerfStats := {
  ps_reads : Z; ps_writes : Z; ps_read_misses : Z; ps_write_misses : Z; ps_evictions : Z; ps_mshr_stalls : Z; ps_mem_latency : Z
}.

Definition AMO_PASSTHRU_CAP : nat := 8.

Record amo_passthru_entry_t := { ap_valid : bool; ap_req_tag : Z; ap_cid : Z; ap_uuid : Z }.

Record CacheBank := {
  core_req_in : chan MemReq; core_rsp_out : chan MemRsp; mem_req_out : chan MemReq; mem_rsp_in : chan MemRsp;
  sets_ : list set_t;
  mshr_ : MSHR;
  pending_mshr_size_ : Z;
  pending_amo_probes_ : Z;
  pipe_core_lines_ : list (Z * Z);
  pipe_req_ : TFifo bank_req_t;
  perf_stats_ : PerfStats;
  pending_fill_reqs_ : Z;
  rand_ctr_ : Z;
  adm_seq_ctr_ : Z;
  fwd_active_ : bool; fwd_set_ : Z; fwd_tag_ : Z; fwd_sector_ : Z; crsp_sent_ : bool;
  flushing_ : bool; flush_set_idx_ : nat; flush_way_idx_ : nat; flush_sector_idx_ : nat;
  amo_unit_ : AmoUnit;
  amo_passthru_ : list amo_passthru_entry_t
}.

Definition perf_zero : PerfStats :=
  {| ps_reads := 0; ps_writes := 0; ps_read_misses := 0; ps_write_misses := 0; ps_evictions := 0; ps_mshr_stalls := 0; ps_mem_latency := 0 |}.

Definition count_read (b : CacheBank) : CacheBank := b <| perf_stats_ ::= fun s => s <| ps_reads := u64 (ps_reads s + 1) |> |>.
Definition count_write (b : CacheBank) : CacheBank := b <| perf_stats_ ::= fun s => s <| ps_writes := u64 (ps_writes s + 1) |> |>.
Definition count_read_miss (b : CacheBank) : CacheBank := b <| perf_stats_ ::= fun s => s <| ps_read_misses := u64 (ps_read_misses s + 1) |> |>.
Definition count_write_miss (b : CacheBank) : CacheBank := b <| perf_stats_ ::= fun s => s <| ps_write_misses := u64 (ps_write_misses s + 1) |> |>.
Definition count_eviction (b : CacheBank) : CacheBank := b <| perf_stats_ ::= fun s => s <| ps_evictions := u64 (ps_evictions s + 1) |> |>.
Definition count_mshr_stall (b : CacheBank) : CacheBank := b <| perf_stats_ ::= fun s => s <| ps_mshr_stalls := u64 (ps_mshr_stalls s + 1) |> |>.

(** The channel operations, on the bank. *)
Definition send_core_rsp (b : CacheBank) (r : MemRsp) : option CacheBank :=
  c ← ch_send (core_rsp_out b) r; Some (b <| core_rsp_out := c |>).
Definition send_mem_req (b : CacheBank) (r : MemReq) : option CacheBank :=
  c ← ch_send (mem_req_out b) r; Some (b <| mem_req_out := c |>).
Definition push_pipe (b : CacheBank) (r : bank_req_t) : option CacheBank :=
  f ← tf_push (pipe_req_ b) r; Some (b <| pipe_req_ := f |>).
Definition pop_pipe (b : CacheBank) : CacheBank := b <| pipe_req_ := tf_pop (pipe_req_ b) |>.
Definition pop_core_req (b : CacheBank) : CacheBank := b <| core_req_in := ch_pop (core_req_in b) |>.
Definition pop_mem_rsp (b : CacheBank) : CacheBank := b <| mem_rsp_in := ch_pop (mem_rsp_in b) |>.

Section Bank.
Context (cfg : Config) (p : params_t) (bank_id : Z) (ext_a : bool).

(** [CacheBank::CacheBank]; [cap] is the capacity of the ports. *)
Definition CacheBank_init (cap : nat) : CacheBank := {|
  core_req_in := {| ch_cap := cap; ch_q := [] |}; core_rsp_out := {| ch_cap := cap; ch_q := [] |};
  mem_req_out := {| ch_cap := cap; ch_q := [] |}; mem_rsp_in := {| ch_cap := cap; ch_q := [] |};
  sets_ := replicate (Z.to_nat (sets_per_bank p)) (set_init (lines_per_set p) (sectors_per_line p));
  mshr_ := MSHR_init (mshr_size cfg); pending_mshr_size_ := 0; pending_amo_probes_ := 0; pipe_core_lines_ := [];
  pipe_req_ := {| tf_capacity := 2; tf_q := []; tf_fly := [] |}; perf_stats_ := perf_zero; pending_fill_reqs_ := 0;
  rand_ctr_ := 0; adm_seq_ctr_ := 0; fwd_active_ := false; fwd_set_ := 0; fwd_tag_ := 0; fwd_sector_ := 0;
  crsp_sent_ := false; flushing_ := false; flush_set_idx_ := 0; flush_way_idx_ := 0; flush_sector_idx_ := 0;
  amo_unit_ := ∅;
  amo_passthru_ := replicate AMO_PASSTHRU_CAP {| ap_valid := false; ap_req_tag := 0; ap_cid := 0; ap_uuid := 0 |} |}.

(** [CacheBank::on_reset] *)
Definition bank_on_reset (b : CacheBank) : CacheBank :=
  b <| perf_stats_ := perf_zero |> <| pending_mshr_size_ := 0 |> <| pending_amo_probes_ := 0 |> <| pipe_core_lines_ := [] |>
    <| pending_fill_reqs_ := 0 |> <| rand_ctr_ := 0 |> <| adm_seq_ctr_ := 0 |> <| sets_ ::= map set_reset |>
    <| mshr_ ::= mshr_reset |> <| fwd_active_ := false |> <| fwd_set_ := 0 |> <| fwd_tag_ := 0 |> <| fwd_sector_ := 0 |>
    <| crsp_sent_ := false |> <| flushing_ := false |> <| flush_set_idx_ := 0%nat |> <| flush_way_idx_ := 0%nat |>
    <| flush_sector_idx_ := 0%nat |> <| amo_unit_ := if ext_a then ∅ else amo_unit_ b |>
    <| amo_passthru_ := if ext_a then replicate AMO_PASSTHRU_CAP {| ap_valid := false; ap_req_tag := 0; ap_cid := 0; ap_uuid := 0 |}
                        else amo_passthru_ b |>.

(** [CacheBank::flush_begin] *)
Definition flush_begin (b : CacheBank) : CacheBank :=
  b <| flushing_ := write_back cfg |> <| flush_set_idx_ := 0%nat |> <| flush_way_idx_ := 0%nat |> <| flush_sector_idx_ := 0%nat |>.

Definition amo_passthru_tag_base (b : CacheBank) : Z := ms_capacity (mshr_ b).

(** The response [MemRsp{tag, hart, uuid}] of a request, with its data. *)
Definition rsp_of (r : bank_req_t) (data : option (list Z)) : MemRsp :=
  {| rs_tag := br_req_tag r; rs_hart_id := br_hart_id r; rs_uuid := br_uuid r; rs_data := data |}.

Definition line_addr (addr : Z) : Z := u64 (Z.shiftl (Z.shiftr addr (cf_L cfg)) (cf_L cfg)).

(** The sector of a way, and its update. *)
Definition sector_at (s : set_t) (way : nat) (sector_id : Z) : option sector_t :=
  l ← st_lines s !! way; ln_sectors l !! Z.to_nat sector_id.
Definition put_sector (s : set_t) (way : nat) (sector_id : Z) (sec : sector_t) : set_t :=
  s <| st_lines := alter (fun l => l <| ln_sectors := <[Z.to_nat sector_id := sec]> (ln_sectors l) |>) way (st_lines s) |>.
Definition put_set (b : CacheBank) (set_id : Z) (s : set_t) : CacheBank := b <| sets_ := <[Z.to_nat set_id := s]> (sets_ b) |>.

(** The sector hit of the pipeline: a resident line with the sector valid. *)
Definition sector_hit (b : CacheBank) (s : set_t) (tag sector_id : Z) : option (option nat) :=
  match fst (fst (tag_match s tag (repl_policy cfg) (rand_ctr_ b))) with
  | None => Some None
  | Some way => sec ← sector_at s way sector_id; Some (if sc_valid sec then Some way else None)
  end.

Definition touch_lru (b : CacheBank) (set_id : Z) (hit : option nat) : option CacheBank :=
  match repl_policy cfg with
  | PLRU => s ← sets_ b !! Z.to_nat set_id; Some (put_set b set_id (update_lru s hit))
  | _ => Some b
  end.

Definition need_core_rsp (r : bank_req_t) : bool := negb (br_write r) || write_reponse cfg || fl_strsp (br_flags r).

(** The fill request of a miss. *)
Definition fill_req (set_id tag sector_id : Z) (mshr_id : nat) (r : bank_req_t) : MemReq :=
  {| rq_op := MLD; rq_addr := mem_addr_sector p bank_id set_id tag sector_id; rq_data := None; rq_byteen := 0;
     rq_tag := Z.of_nat mshr_id; rq_hart_id := br_hart_id r; rq_uuid := br_uuid r; rq_flags := 0 |}.

(** A store sent downstream. *)
Definition store_req (addr : Z) (hart_id uuid : Z) (data : option (list Z)) (byteen : Z) : MemReq :=
  {| rq_op := MST; rq_addr := addr; rq_data := data; rq_byteen := byteen; rq_tag := 0; rq_hart_id := hart_id;
     rq_uuid := uuid; rq_flags := 0 |}.

(** [CacheBank::pipeLineErase] *)
Definition pipeLineErase (b : CacheBank) (set_id tag : Z) : option CacheBank :=
  '(i, _) ← list_find (fun x => x = (set_id, tag)) (pipe_core_lines_ b);
  Some (b <| pipe_core_lines_ := delete i (pipe_core_lines_ b) |>).

(** The end of the handling of a core request. *)
Definition retire_core (b : CacheBank) (set_id tag : Z) : option CacheBank :=
  b ← pipeLineErase (b <| pending_mshr_size_ := u32 (pending_mshr_size_ b - 1) |>) set_id tag;
  Some (pop_pipe b).

Definition invalidate_reservations (b : CacheBank) (addr hart_id : Z) : CacheBank :=
  b <| amo_unit_ := amo_invalidate (amo_unit_ b) (line_addr addr) hart_id |>.

(** [CacheBank::processForward] *)
Definition processForward (b : CacheBank) : option (CacheBank * bool) :=
  if negb (has_ready_reqs (mshr_ b)) then Some (b <| fwd_active_ := false |>, false)
  else
    match peek_next_replay (mshr_ b) with
    | None => Some (b, false)
    | Some (_, head) =>
        if negb (me_matches (fwd_set_ b) (fwd_tag_ b) (fwd_sector_ b) head) || br_write (me_req head) || memop_is_atomic (br_op (me_req head))
        then Some (b <| fwd_active_ := false |>, false)
        else
          s ← sets_ b !! Z.to_nat (me_set_id head);
          match find_resident s (me_addr_tag head) with
          | None => Some (b <| fwd_active_ := false |>, false)
          | Some way =>
              sec ← sector_at s way (me_sector_id head);
              if negb (sc_valid sec) then Some (b <| fwd_active_ := false |>, false)
              else if crsp_sent_ b || ch_full (core_rsp_out b) then Some (b, false)
              else
                '(m, req) ← mshr_dequeue (mshr_ b);
                b ← send_core_rsp (b <| mshr_ := m |>) (rsp_of req (sc_data sec));
                Some (b, true)
          end
    end.

(** [CacheBank::emitWritethrough]; the result is [false] on a stall. *)
Definition emitWritethrough (b : CacheBank) (set_id tag sector_id full_addr hart_id uuid : Z) (data : option (list Z)) (byteen : Z)
    (need_rsp : bool) (rsp_tag : Z) : option (CacheBank * bool) :=
  if ch_full (mem_req_out b) then Some (b, false)
  else if need_rsp && ch_full (core_rsp_out b) then Some (b, false)
  else
    b ← send_mem_req b (store_req (mem_addr_sector p bank_id set_id tag sector_id) hart_id uuid data byteen);
    let b := if ext_a && is_llc cfg then invalidate_reservations b full_addr hart_id else b in
    b ← (if need_rsp then
           b ← send_core_rsp b {| rs_tag := rsp_tag; rs_hart_id := hart_id; rs_uuid := uuid; rs_data := None |};
           Some (b <| crsp_sent_ := true |>)
         else Some b);
    Some (b, true).

(** [__builtin_popcountll] *)
Definition popcount64 (z : Z) : Z := Z.of_nat (length (filter (fun i => Is_true (Z.testbit z (Z.of_nat i))) (seq 0 64))).

(** [CacheBank::commitAmo] *)
Definition commitAmo (b : CacheBank) (r : bank_req_t) (hit : nat) (set_id : Z) : option (CacheBank * bool) :=
  let sector_id := addr_sector_id p (br_addr r) in
  s ← sets_ b !! Z.to_nat set_id;
  sec ← sector_at s hit sector_id;
  let la := line_addr (br_addr r) in
  let byte_off := Z.land (br_addr r) (VX_CFG_MEM_BLOCK_SIZE - 1) in
  let op := br_op r in
  let width := if 8 <=? popcount64 (br_byteen r) then 3 else 2 in
  let hid := br_hart_id r in
  rhs ← match br_data r with Some d => amo_load_word d byte_off width | None => Some 0 end;
  let sc_fail := bool_decide (op = MAMO_SC) && negb (amo_check (amo_unit_ b) hid la) in
  let do_store := negb (bool_decide (op = MAMO_LR)) && negb sc_fail in
  if ch_full (core_rsp_out b) then Some (b, false)
  else if do_store && negb (write_back cfg) && ch_full (mem_req_out b) then Some (b, false)
  else
    old_word ← match sc_data sec with Some d => amo_load_word d byte_off width | None => Some 0 end;
    rmw ← amo_compute op width old_word rhs (fl_amo_unsigned (br_flags r));
    let rsp_word := if bool_decide (op = MAMO_SC) then b2z sc_fail else ret_word rmw in
    rsp_block ← amo_store_word zero_block byte_off width rsp_word;
    let b := if bool_decide (op = MAMO_LR) then b <| amo_unit_ := amo_reserve (amo_unit_ b) hid la |>
             else if bool_decide (op = MAMO_SC) then b <| amo_unit_ := amo_clear (amo_unit_ b) hid la |> else b in
    b ← (if do_store then
           store_block ← amo_store_word zero_block byte_off width (new_word rmw);
           let byteen := amo_byteen byte_off width in
           let sec := sector_merge sec (Some store_block) byteen in
           let sec := if write_back cfg then sec <| sc_dirty := true |> <| sc_dirty_mask := Z.lor (sc_dirty_mask sec) byteen |> else sec in
           let b := put_set b set_id (put_sector s hit sector_id sec) in
           b ← (if write_back cfg then Some b
                else send_mem_req b (store_req (mem_addr_sector p bank_id set_id (addr_tag p (br_addr r)) sector_id)
                                       (br_hart_id r) (br_uuid r) (Some store_block) byteen));
           Some (b <| amo_unit_ := amo_invalidate (amo_unit_ b) la hid |>)
         else Some b);
    b ← send_core_rsp b (rsp_of r (Some rsp_block));
    Some (b <| crsp_sent_ := true |>, true).

(** [CacheBank::processRequests], case [AmoProbe]. *)
Definition process_amo_probe (b : CacheBank) (r : bank_req_t) : option CacheBank :=
  if memop_is_amo_rmw (br_op r) || negb (is_llc cfg) then
    let set_id := addr_set_id p (br_addr r) in
    let tag := addr_tag p (br_addr r) in
    let sector_id := addr_sector_id p (br_addr r) in
    s ← sets_ b !! Z.to_nat set_id;
    hit ← sector_hit b s tag sector_id;
    sec ← match hit with Some way => Some <$> sector_at s way sector_id | None => Some None end;
    let dirty := match sec with Some sec => sc_dirty sec | None => false end in
    let out_slots_needed := if dirty then 2%nat else 1%nat in
    if (ch_cap (mem_req_out b) <? length (ch_q (mem_req_out b)) + out_slots_needed)%nat then Some b
    else
      match list_find (fun e => ap_valid e = false) (amo_passthru_ b) with
      | None => Some b
      | Some (pid, _) =>
          b ← match hit, sec with
              | Some way, Some sec =>
                  b ← (if sc_dirty sec then
                         l ← st_lines s !! way;
                         b ← send_mem_req b (store_req (mem_addr_sector p bank_id set_id (ln_tag l) sector_id) (br_hart_id r) (br_uuid r)
                                               (sc_data sec) (sc_dirty_mask sec));
                         Some (count_eviction b)
                       else Some b);
                  Some (put_set b set_id (put_sector s way sector_id sector_reset))
              | _, _ => Some b
              end;
          let e := {| ap_valid := true; ap_req_tag := br_req_tag r; ap_cid := br_hart_id r; ap_uuid := br_uuid r |} in
          b ← send_mem_req (b <| amo_passthru_ := <[pid := e]> (amo_passthru_ b) |>)
                {| rq_op := br_op r; rq_addr := br_addr r; rq_data := br_data r; rq_byteen := br_byteen r;
                   rq_tag := u32 (amo_passthru_tag_base b + Z.of_nat pid); rq_hart_id := br_hart_id r; rq_uuid := br_uuid r;
                   rq_flags := br_flags r |};
          Some (pop_pipe (b <| pending_fill_reqs_ := u64 (pending_fill_reqs_ b + 1) |>
                            <| pending_amo_probes_ := u32 (pending_amo_probes_ b - 1) |>))
      end
  else None.

(** The writebacks of the dirty sectors of a line, from the sector [i] on. *)
Fixpoint write_back_sectors (b : CacheBank) (set_id tag : Z) (r : bank_req_t) (i : nat) (secs : list sector_t) : option CacheBank :=
  match secs with
  | [] => Some b
  | sec :: secs =>
      b ← (if write_back cfg && sc_valid sec && sc_dirty sec then
             b ← send_mem_req b (store_req (mem_addr_sector p bank_id set_id tag (Z.of_nat i)) (br_hart_id r) (br_uuid r)
                                   (sc_data sec) (sc_dirty_mask sec));
             Some (count_eviction b)
           else Some b);
      write_back_sectors b set_id tag r (S i) secs
  end.

Definition dirty_sectors (l : line_t) : nat := length (filter (fun s => Is_true (sc_valid s && sc_dirty s)) (ln_sectors l)).

(** The eviction of the victim of a fill; [None] in the result is a stall. *)
Definition evict_for (b : CacheBank) (set_id tag : Z) (r : bank_req_t) : option (option (CacheBank * nat)) :=
  s ← sets_ b !! Z.to_nat set_id;
  let way := select_victim s (repl_policy cfg) (rand_ctr_ b) in
  victim ← st_lines s !! way;
  let wb_count := if write_back cfg then dirty_sectors victim else 0%nat in
  if (0 <? wb_count)%nat && (ch_cap (mem_req_out b) <? length (ch_q (mem_req_out b)) + wb_count)%nat then Some None
  else
    let '(s, b) := match repl_policy cfg with
                   | FIFO => (s <| st_fifo_ptr := (st_fifo_ptr s + 1) mod Z.of_nat (length (st_lines s)) |>, b)
                   | RANDOM => (s, b <| rand_ctr_ := u32 (rand_ctr_ b + 1) |>)
                   | PLRU => (s, b)
                   end in
    b ← write_back_sectors b set_id (ln_tag victim) r 0 (ln_sectors victim);
    Some (Some (put_set b set_id (s <| st_lines := <[way := (line_reset victim) <| ln_tag := tag |>]> (st_lines s) |>), way)).

(** [CacheBank::processRequests], case [Fill]. *)
Definition process_fill (b : CacheBank) (r : bank_req_t) : option CacheBank :=
  let set_id := addr_set_id p (br_addr r) in
  let tag := addr_tag p (br_addr r) in
  let sector_id := addr_sector_id p (br_addr r) in
  s ← sets_ b !! Z.to_nat set_id;
  place ← match find_resident s tag with
          | Some way => Some (Some (b, way))
          | None => evict_for b set_id tag r
          end;
  match place with
  | None => Some b
  | Some (b, way) =>
      s ← sets_ b !! Z.to_nat set_id;
      l ← st_lines s !! way;
      _ ← ln_sectors l !! Z.to_nat sector_id;
      let sec := {| sc_valid := true; sc_dirty := false; sc_dirty_mask := 0; sc_data := br_data r |} in
      let l := {| ln_tag := tag; ln_lru_ctr := 0; ln_sectors := <[Z.to_nat sector_id := sec]> (ln_sectors l) |} in
      let b := put_set b set_id (s <| st_lines := <[way := l]> (st_lines s) |>) in
      m ← mshr_replay (mshr_ b) (br_mshr_id r);
      Some (pop_pipe (b <| mshr_ := m |> <| fwd_active_ := true |> <| fwd_set_ := set_id |> <| fwd_tag_ := tag |> <| fwd_sector_ := sector_id |>))
  end.

(** A miss that is tracked: the entry, and the fill unless one is under way. *)
Definition track_miss (b : CacheBank) (r : bank_req_t) (set_id tag sector_id : Z) (fill_pending : bool) : option CacheBank :=
  '(m, id) ← mshr_enqueue (mshr_ b) r set_id tag sector_id;
  let b := b <| mshr_ := m |> in
  if fill_pending then Some b
  else
    b ← send_mem_req b (fill_req set_id tag sector_id id r);
    Some (b <| pending_fill_reqs_ := u64 (pending_fill_reqs_ b + 1) |>).

(** [CacheBank::processRequests], case [Replay]. *)
Definition process_replay (b : CacheBank) (r : bank_req_t) : option CacheBank :=
  let set_id := addr_set_id p (br_addr r) in
  let tag := addr_tag p (br_addr r) in
  let sector_id := addr_sector_id p (br_addr r) in
  s ← sets_ b !! Z.to_nat set_id;
  hit ← sector_hit b s tag sector_id;
  match hit with
  | None =>
      if br_write r && br_skip_core_rsp r then Some (pop_pipe b)
      else
        let fill_pending := has_pending_fill (mshr_ b) set_id tag sector_id None in
        if negb fill_pending && ch_full (mem_req_out b) then Some b
        else
          full ← ms_full (mshr_ b);
          if full : bool then Some b
          else
            b ← track_miss b (r <| br_type := RCore |>) set_id tag sector_id fill_pending;
            Some (pop_pipe b)
  | Some way =>
      if ext_a && memop_is_atomic (br_op r) then
        if memop_is_amo_rmw (br_op r) then None
        else
          '(b, done) ← commitAmo b r way set_id;
          if done : bool then b ← touch_lru b set_id hit; Some (pop_pipe b) else Some b
      else if need_core_rsp r && ch_full (core_rsp_out b) then Some b
      else
        sec ← sector_at s way sector_id;
        '(b, sec) ← (if br_write r then
                       if negb (write_back cfg) && negb (br_skip_core_rsp r) then None
                       else
                         let sec := sector_merge sec (br_data r) (br_byteen r) in
                         let sec := if write_back cfg
                                    then sec <| sc_dirty := true |> <| sc_dirty_mask := Z.lor (sc_dirty_mask sec) (br_byteen r) |> else sec in
                         let b := put_set b set_id (put_sector s way sector_id sec) in
                         Some (if ext_a && is_llc cfg && write_back cfg then invalidate_reservations b (br_addr r) (br_hart_id r) else b, sec)
                     else Some (b, sec));
        b ← (if need_core_rsp r && negb (br_skip_core_rsp r) then
               b ← send_core_rsp b (rsp_of r (if br_write r then None else sc_data sec));
               Some (b <| crsp_sent_ := true |>)
             else Some b);
        b ← touch_lru b set_id hit;
        Some (pop_pipe b)
  end.

(** [processRequests], case [Core], on a hit. *)
Definition process_core_hit (b : CacheBank) (r : bank_req_t) (s : set_t) (way : nat) (set_id tag sector_id : Z) : option CacheBank :=
  if mshr_lookup (mshr_ b) set_id tag sector_id then
    if br_write r && negb (write_back cfg) then
      '(b, sent) ← emitWritethrough b set_id tag sector_id (br_addr r) (br_hart_id r) (br_uuid r) (br_data r) (br_byteen r)
                     (need_core_rsp r) (br_req_tag r);
      if sent : bool then
        full ← ms_full (mshr_ b);
        if full : bool then None
        else
          '(m, id) ← mshr_enqueue (mshr_ b) (r <| br_skip_core_rsp := true |>) set_id tag sector_id;
          m ← defer_to_replay m id;
          retire_core (b <| mshr_ := m |>) set_id tag
      else Some b
    else
      full ← ms_full (mshr_ b);
      if full : bool then None
      else
        '(m, id) ← mshr_enqueue (mshr_ b) r set_id tag sector_id;
        m ← defer_to_replay m id;
        retire_core (b <| mshr_ := m |>) set_id tag
  else if ext_a && memop_is_atomic (br_op r) then
    if is_llc cfg then
      '(b, done) ← commitAmo b r way set_id;
      if done : bool then b ← touch_lru b set_id (Some way); retire_core b set_id tag else Some b
    else None
  else
    let need_rsp := need_core_rsp r in
    let need_mem := br_write r && negb (write_back cfg) in
    if need_mem && ch_full (mem_req_out b) then Some b
    else if need_rsp && ch_full (core_rsp_out b) then Some b
    else
      sec ← sector_at s way sector_id;
      '(b, sec) ← (if br_write r then
                     let sec := sector_merge sec (br_data r) (br_byteen r) in
                     let sec := if write_back cfg
                                then sec <| sc_dirty := true |> <| sc_dirty_mask := Z.lor (sc_dirty_mask sec) (br_byteen r) |> else sec in
                     let b := put_set b set_id (put_sector s way sector_id sec) in
                     b ← (if write_back cfg then Some b
                          else send_mem_req b (store_req (mem_addr_sector p bank_id set_id tag sector_id) (br_hart_id r) (br_uuid r)
                                                 (br_data r) (br_byteen r)));
                     Some (if ext_a && is_llc cfg then invalidate_reservations b (br_addr r) (br_hart_id r) else b, sec)
                   else Some (b, sec));
      b ← (if need_rsp then
             b ← send_core_rsp b (rsp_of r (if br_write r then None else sc_data sec));
             Some (b <| crsp_sent_ := true |>)
           else Some b);
      b ← touch_lru b set_id (Some way);
      retire_core b set_id tag.

(** [processRequests], case [Core], on a miss. *)
Definition process_core_miss (b : CacheBank) (r : bank_req_t) (set_id tag sector_id : Z) : option CacheBank :=
  let fill_pending := has_pending_fill (mshr_ b) set_id tag sector_id None in
  let finish b :=
    let b := if br_write r then count_write_miss b else count_read_miss b in
    b ← touch_lru b set_id None; retire_core b set_id tag in
  if br_write r && negb (write_back cfg) then
    full ← (if fill_pending then ms_full (mshr_ b) else Some false);
    if full : bool then Some b
    else
      '(b, sent) ← emitWritethrough b set_id tag sector_id (br_addr r) (br_hart_id r) (br_uuid r) (br_data r) (br_byteen r)
                     (need_core_rsp r) (br_req_tag r);
      if sent : bool then
        b ← (if fill_pending then
               '(m, _) ← mshr_enqueue (mshr_ b) (r <| br_skip_core_rsp := true |>) set_id tag sector_id;
               Some (b <| mshr_ := m |>)
             else Some b);
        finish b
      else Some b
  else if negb fill_pending && ch_full (mem_req_out b) then Some b
  else
    full ← ms_full (mshr_ b);
    if full : bool then None
    else b ← track_miss b r set_id tag sector_id fill_pending; finish b.

Definition process_core (b : CacheBank) (r : bank_req_t) : option CacheBank :=
  let set_id := addr_set_id p (br_addr r) in
  let tag := addr_tag p (br_addr r) in
  let sector_id := addr_sector_id p (br_addr r) in
  s ← sets_ b !! Z.to_nat set_id;
  hit ← sector_hit b s tag sector_id;
  match hit with
  | Some way => process_core_hit b r s way set_id tag sector_id
  | None => process_core_miss b r set_id tag sector_id
  end.

(** [CacheBank::processRequests] *)
Definition processRequests (b : CacheBank) : option CacheBank :=
  match tf_q (pipe_req_ b) with
  | [] => None
  | r :: _ =>
      match br_type r with
      | RNone => Some (pop_pipe b)
      | RAmoProbe => if ext_a then process_amo_probe b r else None
      | RFill => process_fill b r
      | RReplay => process_replay b r
      | RCore => process_core b r
      end
  end.

(** The bank request made of a core request. *)
Definition bank_req_of (q : MemReq) (seq : Z) (t : ReqType) : bank_req_t :=
  {| br_addr := rq_addr q; br_hart_id := rq_hart_id q; br_req_tag := rq_tag q; br_uuid := rq_uuid q; br_mshr_id := 0;
     br_type := t; br_write := bool_decide (rq_op q = MST); br_op := rq_op q; br_skip_core_rsp := false; br_data := rq_data q;
     br_byteen := rq_byteen q; br_flags := rq_flags q; br_adm_seq := seq |}.

(** [processInputs], the response of a read from below: a fill or an atomic
    operation that was passed through. *)
Definition input_mem_rsp (b : CacheBank) (rsp : MemRsp) : option CacheBank :=
  let base := amo_passthru_tag_base b in
  if ext_a && (base <=? rs_tag rsp) && (rs_tag rsp <? base + Z.of_nat AMO_PASSTHRU_CAP) then
    let pid := Z.to_nat (rs_tag rsp - base) in
    e ← amo_passthru_ b !! pid;
    if ap_valid e then
      if ch_full (core_rsp_out b) then Some b
      else
        b ← send_core_rsp b {| rs_tag := ap_req_tag e; rs_hart_id := ap_cid e; rs_uuid := ap_uuid e; rs_data := rs_data rsp |};
        Some (pop_mem_rsp (b <| amo_passthru_ := <[pid := e <| ap_valid := false |>]> (amo_passthru_ b) |>
                             <| pending_fill_reqs_ := u64 (pending_fill_reqs_ b - 1) |>))
    else None
  else
    let id := Z.to_nat (u32 (rs_tag rsp)) in
    root ← ms_entries (mshr_ b) !! id;
    b ← push_pipe b (bank_req_reset <| br_type := RFill |>
          <| br_addr := mem_addr_sector p bank_id (me_set_id root) (me_addr_tag root) (me_sector_id root) |>
          <| br_hart_id := br_hart_id (me_req root) |> <| br_uuid := br_uuid (me_req root) |> <| br_mshr_id := id |>
          <| br_data := rs_data rsp |>);
    Some (pop_mem_rsp (b <| pending_fill_reqs_ := u64 (pending_fill_reqs_ b - 1) |>)).

(** The admission of an atomic operation that is passed through is deferred
    while no table slot is free or an older access to the line is in flight. *)
Definition amo_deferred (b : CacheBank) (addr : Z) : bool :=
  let free_slots := Z.of_nat (length (filter (fun e => ap_valid e = false) (amo_passthru_ b))) in
  let set_id := addr_set_id p addr in
  let tag := addr_tag p addr in
  (free_slots <=? pending_amo_probes_ b) || mshr_lookup (mshr_ b) set_id tag (addr_sector_id p addr)
  || existsb (fun kv => (fst kv =? set_id) && (snd kv =? tag)) (pipe_core_lines_ b).

(** [processInputs], a core request. *)
Definition input_core_req (b : CacheBank) (q : MemReq) : option CacheBank :=
  let is_amo := memop_is_atomic (rq_op q) in
  let passthru := ext_a && is_amo && (memop_is_amo_rmw (rq_op q) || negb (is_llc cfg)) in
  if passthru && amo_deferred b (rq_addr q) then Some (count_mshr_stall b)
  else if negb passthru && (ms_capacity (mshr_ b) <=? u32 (ms_size (mshr_ b) + pending_mshr_size_ b)) then Some (count_mshr_stall b)
  else
    let set_id := addr_set_id p (rq_addr q) in
    let tag := addr_tag p (rq_addr q) in
    let sector_id := addr_sector_id p (rq_addr q) in
    let is_wt_store := bool_decide (rq_op q = MST) && negb (write_back cfg) in
    let seq := adm_seq_ctr_ b in
    if negb passthru && negb is_wt_store && negb (ms_size (mshr_ b) =? 0) && mshr_lookup (mshr_ b) set_id tag sector_id then
      full ← ms_full (mshr_ b);
      if full : bool then None
      else
        '(m, id) ← mshr_enqueue (mshr_ b) (bank_req_of q seq RCore) set_id tag sector_id;
        m ← (if has_pending_fill m set_id tag sector_id (Some id) then Some m else defer_to_replay m id);
        let b := b <| mshr_ := m |> <| adm_seq_ctr_ := u64 (seq + 1) |> in
        let b := if memop_is_write (rq_op q) then count_write_miss (count_write b) else count_read_miss (count_read b) in
        Some (pop_core_req b)
    else
      b ← push_pipe (b <| adm_seq_ctr_ := u64 (seq + 1) |>) (bank_req_of q seq (if passthru then RAmoProbe else RCore));
      let b := if passthru then b <| pending_amo_probes_ := u32 (pending_amo_probes_ b + 1) |>
               else b <| pending_mshr_size_ := u32 (pending_mshr_size_ b + 1) |>
                      <| pipe_core_lines_ := pipe_core_lines_ b ++ [(set_id, tag)] |> in
      let b := if memop_is_write (rq_op q) then count_write b else count_read b in
      Some (pop_core_req b).

(** [CacheBank::processInputs] *)
Definition processInputs (b : CacheBank) (fwd_consumed : bool) : option CacheBank :=
  if has_ready_reqs (mshr_ b) && negb fwd_consumed then
    '(m, r) ← mshr_dequeue (mshr_ b);
    push_pipe (b <| mshr_ := m |>) r
  else
    match ch_q (mem_rsp_in b), fwd_active_ b with
    | rsp :: _, false => input_mem_rsp b rsp
    | _, _ => match ch_q (core_req_in b) with
              | [] => Some b
              | q :: _ => input_core_req b q
              end
    end.

(** [CacheBank::processFlush]: the walk resumes at the saved indices; [true]
    in the result means that the line, the set or the cache is done. *)
Fixpoint flush_sectors (fuel : nat) (b : CacheBank) : option (CacheBank * bool) :=
  s ← sets_ b !! flush_set_idx_ b;
  l ← st_lines s !! flush_way_idx_ b;
  match ln_sectors l !! flush_sector_idx_ b with
  | None => Some (b, true)
  | Some sec =>
      if sc_valid sec && sc_dirty sec && ch_full (mem_req_out b) then Some (b, false)
      else
        b ← (if sc_valid sec && sc_dirty sec then
               b ← send_mem_req b (store_req (mem_addr_sector p bank_id (Z.of_nat (flush_set_idx_ b)) (ln_tag l) (Z.of_nat (flush_sector_idx_ b)))
                                     0 0 (sc_data sec) (sc_dirty_mask sec));
               let sec := sec <| sc_dirty := false |> <| sc_dirty_mask := 0 |> in
               Some (put_set (count_eviction b) (Z.of_nat (flush_set_idx_ b))
                       (put_sector s (flush_way_idx_ b) (Z.of_nat (flush_sector_idx_ b)) sec))
             else Some b);
        match fuel with
        | O => None
        | S fuel => flush_sectors fuel (b <| flush_sector_idx_ := S (flush_sector_idx_ b) |>)
        end
  end.

Fixpoint flush_ways (fuel : nat) (b : CacheBank) : option (CacheBank * bool) :=
  s ← sets_ b !! flush_set_idx_ b;
  if (flush_way_idx_ b <? length (st_lines s))%nat then
    '(b, done) ← flush_sectors (Z.to_nat (sectors_per_line p)) b;
    if done : bool then
      match fuel with
      | O => None
      | S fuel => flush_ways fuel (b <| flush_sector_idx_ := 0%nat |> <| flush_way_idx_ := S (flush_way_idx_ b) |>)
      end
    else Some (b, false)
  else Some (b, true).

Fixpoint flush_sets (fuel : nat) (b : CacheBank) : option (CacheBank * bool) :=
  if Z.of_nat (flush_set_idx_ b) <? sets_per_bank p then
    '(b, done) ← flush_ways (Z.to_nat (lines_per_set p)) b;
    if done : bool then
      match fuel with
      | O => None
      | S fuel => flush_sets fuel (b <| flush_set_idx_ := S (flush_set_idx_ b) |> <| flush_way_idx_ := 0%nat |>)
      end
    else Some (b, false)
  else Some (b, true).

Definition processFlush (b : CacheBank) : option CacheBank :=
  if negb (pending_fill_reqs_ b =? 0) || negb (tf_empty (pipe_req_ b)) || negb (ms_size (mshr_ b) =? 0) then Some b
  else
    '(b, done) ← flush_sets (Z.to_nat (sets_per_bank p)) b;
    Some (if done : bool then b <| flushing_ := false |> else b).

(** [CacheBank::on_tick] *)
Definition bank_on_tick (b : CacheBank) : option CacheBank :=
  let b := b <| crsp_sent_ := false |> in
  b ← (if tf_empty (pipe_req_ b) then Some b else processRequests b);
  '(b, fwd_consumed) ← (if fwd_active_ b then processForward b else Some (b, false));
  b ← (if tf_full (pipe_req_ b) then Some b else processInputs b fwd_consumed);
  b ← (if flushing_ b then processFlush b else Some b);
  Some (b <| perf_stats_ ::= fun s => s <| ps_mem_latency := u64 (ps_mem_latency s + pending_fill_reqs_ b) |> |>).

End Bank.
