(* ===== verification/CacheWorld.v ===== *)
(** * A cache bank between a core and the memory

    The memory of [sim/simx/mem/memory.cpp] serves the requests of a port in
    the order they arrive: a write is applied and a read captures its block at
    arrival, the response comes back any time later, in any order.  A [world]
    is a bank with its ports connected to a core and to that memory, with the
    history of the requests made and the responses taken. *)

From S2P Require Import Prelude MemTypes Amo Cache.

(** ** The memory ([Memory::Impl]) *)

Definition memory := Z -> Z.

Definition block_of (addr : Z) : Z := Z.land addr (u64 (Z.lnot (VX_CFG_MEM_BLOCK_SIZE - 1))).

(** [RAM::read] of a block, and the byte-enabled write of a block. *)
Definition read_block (m : memory) (la : Z) : list Z := map (fun b => m (la + Z.of_nat b)) (seq 0 (Z.to_nat VX_CFG_MEM_BLOCK_SIZE)).
Definition write_block (m : memory) (la : Z) (d : list Z) (byteen : Z) : memory := fun a =>
  if (la <=? a) && (a <? la + VX_CFG_MEM_BLOCK_SIZE) && Z.testbit byteen (a - la)
  then default 0 (d !! Z.to_nat (a - la)) else m a.

(** [Memory::Impl::tick] on one request that is not an atomic operation. *)
Definition mem_access (m : memory) (q : MemReq) : memory * option MemRsp :=
  let la := block_of (rq_addr q) in
  if memop_is_write (rq_op q) then
    (match rq_data q with Some d => write_block m la d (rq_byteen q) | None => m end, None)
  else
    (m, Some {| rs_tag := rq_tag q; rs_hart_id := rq_hart_id q; rs_uuid := rq_uuid q; rs_data := Some (read_block m la) |}).

(** [Memory::Impl::execute_amo_rmw] *)
Definition execute_amo_rmw (m : memory) (q : MemReq) : option (memory * MemRsp) :=
  let width := if 8 <=? popcount64 (rq_byteen q) then 3 else 2 in
  let n := Z.to_nat (Z.shiftl 1 width) in
  let byte_off := Z.land (rq_addr q) (VX_CFG_MEM_BLOCK_SIZE - 1) in
  rhs ← match rq_data q with Some d => amo_load_word d byte_off width | None => Some 0 end;
  old_word ← amo_load_word (map (fun b => m (rq_addr q + Z.of_nat b)) (seq 0 n)) 0 width;
  rmw ← amo_compute (rq_op q) width old_word rhs (fl_amo_unsigned (rq_flags q));
  word ← amo_store_word (replicate 8 0) 0 width (new_word rmw);
  rsp_block ← amo_store_word zero_block byte_off width (ret_word rmw);
  Some (fun a => if (rq_addr q <=? a) && (a <? rq_addr q + Z.of_nat n) then default 0 (word !! Z.to_nat (a - rq_addr q)) else m a,
        {| rs_tag := rq_tag q; rs_hart_id := rq_hart_id q; rs_uuid := rq_uuid q; rs_data := Some rsp_block |}).

(** One request of the port. *)
Definition mem_serve (ext_a : bool) (m : memory) (q : MemReq) : option (memory * option MemRsp) :=
  if ext_a && memop_is_amo_rmw (rq_op q) then '(m, r) ← execute_amo_rmw m q; Some (m, Some r)
  else Some (mem_access m q).

(** ** The world *)

Record world := {
  w_bank : CacheBank;
  w_mem : memory;
  w_reads : list MemRsp;
  w_hist : list MemReq;
  w_log : list MemRsp
}.

Inductive event := EvReq (q : MemReq) | EvRsp | EvMem | EvReply (i : nat) | EvPipe | EvTick | EvFlush.

(** An event that is not possible leaves the world as it is: a request that
    finds the port full, a response that is not there. *)
Definition world_step (cfg : Config) (p : params_t) (bank_id : Z) (ext_a : bool) (w : world) (ev : event) : option world :=
  let b := w_bank w in
  match ev with
  | EvReq q =>
      if ch_full (core_req_in b) then Some w
      else Some (w <| w_bank := b <| core_req_in := ch_push (core_req_in b) q |> |> <| w_hist := w_hist w ++ [q] |>)
  | EvRsp =>
      match ch_q (core_rsp_out b) with
      | [] => Some w
      | r :: _ => Some (w <| w_bank := b <| core_rsp_out := ch_pop (core_rsp_out b) |> |> <| w_log := w_log w ++ [r] |>)
      end
  | EvMem =>
      match ch_q (mem_req_out b) with
      | [] => Some w
      | q :: _ =>
          '(m, r) ← mem_serve ext_a (w_mem w) q;
          Some (w <| w_bank := b <| mem_req_out := ch_pop (mem_req_out b) |> |> <| w_mem := m |>
                  <| w_reads := match r with Some r => w_reads w ++ [r] | None => w_reads w end |>)
      end
  | EvReply i =>
      match w_reads w !! i with
      | Some r =>
          if ch_full (mem_rsp_in b) then Some w
          else Some (w <| w_bank := b <| mem_rsp_in := ch_push (mem_rsp_in b) r |> |> <| w_reads := delete i (w_reads w) |>)
      | None => Some w
      end
  | EvPipe => Some (w <| w_bank := b <| pipe_req_ := tf_arrive (pipe_req_ b) |> |>)
  | EvTick => b ← bank_on_tick cfg p bank_id ext_a b; Some (w <| w_bank := b |>)
  | EvFlush => Some (w <| w_bank := flush_begin cfg b |>)
  end.

Definition world_run (cfg : Config) (p : params_t) (bank_id : Z) (ext_a : bool) (w : world) (evs : list event) : option world :=
  fold_left (fun w ev => w ← w; world_step cfg p bank_id ext_a w ev) evs (Some w).

Definition world_init (cfg : Config) (p : params_t) (cap : nat) (m : memory) : world :=
  {| w_bank := CacheBank_init cfg p cap; w_mem := m; w_reads := []; w_hist := []; w_log := [] |}.
