(* ===== verification/AmoProofs.v ===== *)
(** * Atomic operations at the memory

    The read-modify-write executor of [memory.cpp] against the operations of
    the A extension: the addressed word is replaced by the result, every other
    byte is kept, the old word is returned; and when the check of a
    store-conditional succeeds. *)

From S2P Require Import Prelude MemTypes Amo Cache CacheWorld.

(** ** Words of a block *)

Definition slice (l : list Z) (off n : nat) : list Z := take n (drop off l).

Lemma slice_lookup l off n i : (i < n)%nat -> slice l off n !! i = l !! (off + i)%nat.
Proof. intros Hi. unfold slice. by rewrite lookup_take_lt, lookup_drop. Qed.

Lemma length_slice l off n : (off + n <= length l)%nat -> length (slice l off n) = n.
Proof. intros Hl. unfold slice. rewrite length_take, length_drop. lia. Qed.

Lemma mapM_slice l off n : (off + n <= length l)%nat -> mapM (fun i => l !! (off + i)%nat) (seq 0 n) = Some (slice l off n).
Proof.
  intros Hl. apply mapM_Some. apply Forall2_same_length_lookup. split; [by rewrite length_seq, length_slice|].
  intros i x y Hx Hy. apply lookup_seq in Hx as [-> Hi]. rewrite slice_lookup in Hy by done. by rewrite Nat.add_0_l.
Qed.

Lemma load_from bs : Forall is_byte bs -> forall k v, (k + length bs <= 8)%nat ->
  fold_left (fun v '(i, x) => Z.lor v (u64 (Z.shiftl x (8 * Z.of_nat i)))) (zip (seq k (length bs)) bs) v = Z.lor v (Z.shiftl (le_word bs) (8 * Z.of_nat k)).
Proof.
  induction 1 as [|b bs Hb Hbs IH]; intros k v Hk; simpl.
  - by rewrite Z.shiftl_0_l, Z.lor_0_r.
  - simpl in Hk. rewrite IH by lia. rewrite (wrap_small 64).
    + rewrite Z.shiftl_lor, Z.shiftl_shiftl by lia. replace (8 + 8 * Z.of_nat k) with (8 * Z.of_nat (S k)) by lia. by rewrite Z.lor_assoc.
    + rewrite Z.shiftl_mul_pow2 by lia. unfold is_byte, in_u in *. assert (2 ^ (8 * Z.of_nat k) <= 2 ^ 56) by (apply Z.pow_le_mono_r; lia).
      assert (0 < 2 ^ (8 * Z.of_nat k)) by (apply pow2_pos; lia). nia.
Qed.

Lemma load_word_spec l off width : Forall is_byte l -> width = 2 \/ width = 3 -> 0 <= off -> (Z.to_nat off + Z.to_nat (2 ^ width) <= length l)%nat ->
  amo_load_word l off width = Some (le_word (slice l (Z.to_nat off) (Z.to_nat (2 ^ width)))).
Proof.
  intros Hl Hw Ho Hb. unfold amo_load_word. rewrite Z.shiftl_1_l, mapM_slice by done. simpl. f_equal.
  rewrite <- (length_slice l (Z.to_nat off) (Z.to_nat (2 ^ width)) Hb) at 1. rewrite load_from.
  - by rewrite Z.lor_0_l, Z.mul_0_r, Z.shiftl_0_r.
  - unfold slice. by apply Forall_take, Forall_drop.
  - rewrite length_slice by done. destruct Hw as [-> | ->]; simpl; lia.
Qed.

Lemma store_from (off : nat) v : forall n k (l : list Z), (off + k + n <= length l)%nat ->
  let l' := fold_left (fun l i => <[(off + i)%nat := Z.land (Z.shiftr v (8 * Z.of_nat i)) 0xff]> l) (seq k n) l in
  length l' = length l /\ forall j, l' !! j = if decide (off + k <= j < off + k + n)%nat then Some (Z.land (Z.shiftr v (8 * Z.of_nat (j - off))) 0xff) else l !! j.
Proof.
  induction n as [|n IH]; intros k l Hl; simpl.
  - split; [done|]. intros j. by rewrite decide_False by lia.
  - destruct (IH (S k) (<[(off + k)%nat := Z.land (Z.shiftr v (8 * Z.of_nat k)) 0xff]> l)) as [L1 L2]; [rewrite length_insert; lia|].
    rewrite length_insert in L1. split; [done|]. intros j. rewrite L2. destruct (decide (j = off + k)%nat) as [->|Hne].
    + rewrite decide_False, decide_True, list_lookup_insert_eq by lia. do 3 f_equal. lia.
    + rewrite list_lookup_insert_ne by done. destruct (decide (off + S k <= j < off + S k + n)%nat); [rewrite decide_True by lia; done|rewrite decide_False by lia; done].
Qed.

Lemma store_word_spec l off width v : 0 <= off -> 0 <= width -> (Z.to_nat off + Z.to_nat (2 ^ width) <= length l)%nat ->
  exists l', amo_store_word l off width v = Some l' /\ length l' = length l /\ slice l' (Z.to_nat off) (Z.to_nat (2 ^ width)) = le_bytes (Z.to_nat (2 ^ width)) v /\
    (Forall is_byte l -> Forall is_byte l').
Proof.
  intros Ho Hw Hb. unfold amo_store_word. rewrite Z.shiftl_1_l. set (n := Z.to_nat (2 ^ width)) in *. destruct (Nat.leb_spec (Z.to_nat off + n) (length l)); [|lia].
  destruct (store_from (Z.to_nat off) v n 0 l) as [L1 L2]; [lia|]. eexists. split; [reflexivity|]. split; [done|]. split.
  - apply list_eq. intros i. destruct (decide (i < n)%nat) as [Hi|Hi].
    + rewrite slice_lookup, le_bytes_lookup, L2, decide_True by lia. do 3 f_equal. lia.
    + rewrite !lookup_ge_None_2; [done|rewrite length_le_bytes; lia|]. rewrite length_slice; [lia|]. by rewrite L1.
  - intros Hl. apply list.Forall_lookup. intros j x Hx. rewrite L2 in Hx. case_decide; [|by eapply list.Forall_lookup_1].
    injection Hx as <-. apply land_in_u_r; [lia|]. unfold in_u. lia.
Qed.

(** ** The kernel *)

(** The A extension, on words of [w] bits. *)
Definition amo_isa (op : MemOp) (unsigned : bool) (w old rs2 : Z) : Z :=
  let lt a b := if unsigned then a <? b else sint w a <? sint w b in
  match op with
  | MAMO_SWAP => rs2
  | MAMO_ADD => wrap w (old + rs2)
  | MAMO_AND => Z.land old rs2
  | MAMO_OR => Z.lor old rs2
  | MAMO_XOR => Z.lxor old rs2
  | MAMO_MIN => if lt old rs2 then old else rs2
  | MAMO_MAX => if lt rs2 old then old else rs2
  | _ => old
  end.

Lemma wrap_32_64 z : wrap 32 (u64 z) = wrap 32 z.
Proof. apply Z.mod_mod_divide. exists (2 ^ 32). reflexivity. Qed.

Lemma compute_spec op width old rhs u : memop_is_amo_rmw op = true -> width = 2 \/ width = 3 -> in_u (8 * 2 ^ width) old -> in_u (8 * 2 ^ width) rhs ->
  amo_compute op width old rhs u = Some {| new_word := amo_isa op u (8 * 2 ^ width) old rhs; ret_word := old |}.
Proof.
  intros Hop Hw Ho Hr. unfold amo_compute. change 0xFFFFFFFF with (Z.ones 32). destruct Hw as [-> | ->]; simpl (_ =? _); change (8 * 2 ^ 2) with 32 in *; change (8 * 2 ^ 3) with 64 in *.
  - rewrite !land_ones_wrap by lia. rewrite !(wrap_small 32) by done.
    assert (W : forall x, in_u 32 x -> wrap 32 (u64 (sint 32 x)) = x).
    { intros x Hx. rewrite wrap_32_64, wrap_sint by lia. by apply wrap_small. }
    destruct op; try done; simpl; do 2 f_equal; rewrite ?land_ones_wrap by lia.
    + by apply wrap_small.
    + apply wrap_32_64.
    + apply wrap_small. by apply land_in_u_l.
    + apply wrap_small. by apply lor_in_u.
    + apply wrap_small. by apply lxor_in_u.
    + destruct u; [destruct (old <? rhs); by apply wrap_small|]. destruct (sint 32 old <? sint 32 rhs); by apply W.
    + destruct u; [destruct (rhs <? old); by apply wrap_small|]. destruct (sint 32 rhs <? sint 32 old); by apply W.
  - assert (W : forall x, in_u 64 x -> u64 (sint 64 x) = x) by (intros x Hx; rewrite wrap_sint by lia; by apply wrap_small).
    destruct op; try done; simpl; do 2 f_equal.
    + destruct u; [done|]. destruct (sint 64 old <? sint 64 rhs); by apply W.
    + destruct u; [done|]. destruct (sint 64 rhs <? sint 64 old); by apply W.
Qed.

Lemma isa_range op u w old rs2 : 0 <= w -> in_u w old -> in_u w rs2 -> in_u w (amo_isa op u w old rs2).
Proof.
  intros Hw Ho Hr. unfold amo_isa. destruct op; try done.
  - by apply wrap_range.
  - by apply land_in_u_l.
  - by apply lor_in_u.
  - by apply lxor_in_u.
  - by case_match.
  - by case_match.
Qed.

(** ** The executor *)

Definition read_bytes (m : memory) (a : Z) (n : nat) : list Z := map (fun b => m (a + Z.of_nat b)) (seq 0 n).

Definition amo_width (q : MemReq) : Z := if 8 <=? popcount64 (rq_byteen q) then 3 else 2.
Definition amo_bytes (q : MemReq) : nat := Z.to_nat (2 ^ amo_width q).
Definition amo_off (q : MemReq) : nat := Z.to_nat (rq_addr q mod 64).

Definition byte_memory (m : memory) : Prop := forall a, is_byte (m a).
Definition byte_block (d : list Z) : Prop := length d = 64%nat /\ Forall is_byte d.

(** A request with a block of bytes, or none where it may be missing; the word
    of an atomic operation lies in its block. *)
Definition typed_req (q : MemReq) : Prop :=
  0 <= rq_addr q /\ (forall d, rq_data q = Some d -> byte_block d) /\
  (memop_is_amo_rmw (rq_op q) = true -> (amo_off q + amo_bytes q <= 64)%nat).

Lemma length_read_bytes m a n : length (read_bytes m a n) = n.
Proof. unfold read_bytes. by rewrite length_map, length_seq. Qed.

Lemma read_bytes_lookup m a n i : (i < n)%nat -> read_bytes m a n !! i = Some (m (a + Z.of_nat i)).
Proof. intros Hi. unfold read_bytes. by rewrite list_lookup_fmap, lookup_seq_lt by done. Qed.

Lemma read_bytes_typed m a n : byte_memory m -> Forall is_byte (read_bytes m a n).
Proof. intros Hm. apply list.Forall_lookup. intros i x Hx. unfold read_bytes in Hx. rewrite list_lookup_fmap in Hx. destruct (seq 0 n !! i); [|done]. injection Hx as <-. apply Hm. Qed.

Lemma width_cases q : amo_width q = 2 \/ amo_width q = 3.
Proof. unfold amo_width. destruct (8 <=? _); auto. Qed.

Lemma bits_bytes q : 8 * Z.of_nat (amo_bytes q) = 8 * 2 ^ amo_width q.
Proof. unfold amo_bytes. destruct (width_cases q) as [-> | ->]; reflexivity. Qed.

Lemma slice_all l n : length l = n -> slice l 0 n = l.
Proof. intros <-. unfold slice. by rewrite drop_0, firstn_all. Qed.

Lemma word_range bs q : Forall is_byte bs -> length bs = amo_bytes q -> in_u (8 * 2 ^ amo_width q) (le_word bs).
Proof. intros Hb Hl. rewrite <- bits_bytes, <- Hl. by apply le_word_range. Qed.

(** The bytes of the operand; a request without data has operand 0. *)
Definition amo_operand (q : MemReq) : Z := match rq_data q with Some d => le_word (slice d (amo_off q) (amo_bytes q)) | None => 0 end.

Lemma execute_spec m q : byte_memory m -> typed_req q -> memop_is_amo_rmw (rq_op q) = true ->
  let old := le_word (read_bytes m (rq_addr q) (amo_bytes q)) in
  exists m' blk, execute_amo_rmw m q = Some (m', {| rs_tag := rq_tag q; rs_hart_id := rq_hart_id q; rs_uuid := rq_uuid q; rs_data := Some blk |}) /\
    byte_memory m' /\ byte_block blk /\ slice blk (amo_off q) (amo_bytes q) = le_bytes (amo_bytes q) old /\
    le_word (read_bytes m' (rq_addr q) (amo_bytes q)) = amo_isa (rq_op q) (fl_amo_unsigned (rq_flags q)) (8 * 2 ^ amo_width q) old (amo_operand q) /\
    (forall a, ~ (rq_addr q <= a < rq_addr q + Z.of_nat (amo_bytes q)) -> m' a = m a).
Proof.
  intros Hm (Ha & Hd & Hoff) Hop old. specialize (Hoff Hop). set (n := amo_bytes q) in *. pose proof (width_cases q) as Hw.
  assert (Eoff : Z.land (rq_addr q) (VX_CFG_MEM_BLOCK_SIZE - 1) = rq_addr q mod 64) by (change (VX_CFG_MEM_BLOCK_SIZE - 1) with (Z.ones 6); by rewrite Z.land_ones).
  pose proof (Z.mod_pos_bound (rq_addr q) 64 ltac:(lia)) as Hmod. pose proof (read_bytes_typed m (rq_addr q) n Hm) as Hrb.
  assert (Hn8 : (n <= 8)%nat) by (unfold n, amo_bytes; destruct Hw as [-> | ->]; simpl; lia).
  assert (Ho : in_u (8 * 2 ^ amo_width q) old) by (apply word_range; [done|apply length_read_bytes]).
  assert (Hrhs : (match rq_data q with Some d => amo_load_word d (rq_addr q mod 64) (amo_width q) | None => Some 0 end) = Some (amo_operand q) /\ in_u (8 * 2 ^ amo_width q) (amo_operand q)).
  { unfold amo_operand. destruct (rq_data q) as [d|]; [|split; [done|unfold in_u; destruct Hw as [-> | ->]; simpl; lia]]. destruct (Hd d eq_refl) as [Hl Hdb]. split.
    - apply load_word_spec; [done|done|lia|]. rewrite Hl. exact Hoff.
    - apply word_range; [unfold slice; by apply Forall_take, Forall_drop|]. apply length_slice. rewrite Hl. exact Hoff. }
  destruct Hrhs as [Erhs Hr]. unfold execute_amo_rmw. fold (amo_width q). rewrite Z.shiftl_1_l. fold (amo_bytes q). fold n. rewrite Eoff, Erhs. simpl. fold (read_bytes m (rq_addr q) n).
  rewrite (load_word_spec (read_bytes m (rq_addr q) n) 0 (amo_width q)); [|done|done|lia|rewrite length_read_bytes; simpl; unfold n, amo_bytes; lia].
  simpl. fold (amo_bytes q). fold n. rewrite slice_all by apply length_read_bytes. fold old. rewrite compute_spec by done. simpl.
  set (res := amo_isa _ _ _ _ _).
  destruct (store_word_spec (replicate 8 0) 0 (amo_width q) res) as (word & Ew & Lw & Sw & Bw); [lia|lia|rewrite length_replicate; fold (amo_bytes q); fold n; simpl; lia|].
  change [0; 0; 0; 0; 0; 0; 0; 0] with (replicate 8 0). rewrite Ew. simpl. destruct (store_word_spec zero_block (rq_addr q mod 64) (amo_width q) old) as (blk & Eb & Lb & Sb & Bb); [lia|lia|exact Hoff|].
  rewrite Eb. simpl. fold (amo_bytes q) in Sw, Sb. fold n in Sw, Sb. simpl in Sw.
  assert (Bword : Forall is_byte word) by (apply Bw; apply Forall_replicate; unfold is_byte, in_u; lia).
  assert (Hlk : forall i, (i < n)%nat -> word !! i = le_bytes n res !! i) by (intros i Hi; rewrite <- Sw; by rewrite slice_lookup).
  eexists _, blk. split; [reflexivity|]. split_and!.
  - intros a. destruct ((rq_addr q <=? a) && _) eqn:E; [|apply Hm]. destruct (word !! Z.to_nat (a - rq_addr q)) as [x|] eqn:Ex; [|unfold is_byte, in_u; simpl; lia].
    simpl. by eapply list.Forall_lookup_1.
  - split; [by rewrite Lb|]. apply Bb. apply Forall_replicate. unfold is_byte, in_u. lia.
  - exact Sb.
  - transitivity (le_word (le_bytes n res)).
    + f_equal. apply list_eq. intros i. destruct (decide (i < n)%nat) as [Hi|Hi].
      * rewrite read_bytes_lookup, <- Hlk by done. destruct (Z.leb_spec (rq_addr q) (rq_addr q + Z.of_nat i)), (Z.ltb_spec (rq_addr q + Z.of_nat i) (rq_addr q + Z.of_nat n)); try lia. simpl.
        replace (rq_addr q + Z.of_nat i - rq_addr q) with (Z.of_nat i) by lia. rewrite Nat2Z.id, Hlk, le_bytes_lookup by done. done.
      * rewrite !lookup_ge_None_2; [done|rewrite length_le_bytes; lia|rewrite length_read_bytes; lia].
    + rewrite le_word_le_bytes. unfold n. rewrite bits_bytes. apply wrap_small. apply isa_range; [|done..]. destruct Hw as [-> | ->]; simpl; lia.
  - intros a Hna. destruct (Z.leb_spec (rq_addr q) a), (Z.ltb_spec a (rq_addr q + Z.of_nat n)); try done. lia.
Qed.

(** ** Theorems *)

(** C35 (equivalence): an atomic read-modify-write that reaches the memory is
    the operation of the A extension, for words and double words and for the
    signed and unsigned comparisons: the addressed word becomes the result, the
    response carries the old word at its place in the block, and no other byte
    of the memory changes. *)
Theorem amo_memory_executes m q :
  byte_memory m -> typed_req q -> memop_is_amo_rmw (rq_op q) = true ->
  let old := le_word (read_bytes m (rq_addr q) (amo_bytes q)) in
  exists m' r blk, mem_serve true m q = Some (m', Some r) /\ rs_tag r = rq_tag q /\ rs_data r = Some blk /\
    slice blk (amo_off q) (amo_bytes q) = le_bytes (amo_bytes q) old /\
    le_word (read_bytes m' (rq_addr q) (amo_bytes q)) = amo_isa (rq_op q) (fl_amo_unsigned (rq_flags q)) (8 * 2 ^ amo_width q) old (amo_operand q) /\
    (forall a, ~ (rq_addr q <= a < rq_addr q + Z.of_nat (amo_bytes q)) -> m' a = m a).
Proof.
  intros Hm Hq Hop old. destruct (execute_spec m q Hm Hq Hop) as (m' & blk & E & _ & _ & Hs & Hw & Ho). unfold mem_serve. rewrite Hop, E. simpl.
  eexists m', _, blk. split; [reflexivity|]. split_and!; try done.
Qed.

(** ** Reservations *)

(** The operations on the table: a load-reserved, a committed store, the clearing
    by a store-conditional. *)
Inductive amo_event := AReserve (h a : Z) | AStore (a h : Z) | AClear (h a : Z).

Definition amo_step (u : AmoUnit) (ev : amo_event) : AmoUnit :=
  match ev with AReserve h a => amo_reserve u h a | AStore a h => amo_invalidate u a h | AClear h a => amo_clear u h a end.

Definition breaks (h a : Z) (ev : amo_event) : bool :=
  match ev with
  | AReserve h' a' => (h' =? h) && negb (a' =? a)
  | AStore a' h' => (a' =? a) && negb (h' =? h)
  | AClear h' a' => (h' =? h) && (a' =? a)
  end.
Definition makes (h a : Z) (ev : amo_event) : bool := match ev with AReserve h' a' => (h' =? h) && (a' =? a) | _ => false end.

Lemma check_step u ev h a : amo_check (amo_step u ev) h a = makes h a ev || (amo_check u h a && negb (breaks h a ev)).
Proof.
  destruct ev as [h' a'|a' h'|h' a']; unfold amo_check; simpl.
  - unfold amo_reserve, AmoUnit in *. destruct (Z.eqb_spec h' h) as [->|Hne]; simpl.
    + rewrite lookup_insert_eq. destruct (Z.eqb_spec a' a); simpl; [done|]. by rewrite andb_false_r.
    + rewrite lookup_insert_ne by done. by rewrite andb_true_r.
  - unfold amo_invalidate, AmoUnit in *. destruct (u !! h) as [b|] eqn:E.
    + destruct (decide (b = a' /\ h <> h')) as [[-> Hh]|Hn].
      * rewrite map_lookup_filter_None_2 by (right; intros x Hx; rewrite E in Hx; injection Hx as <-; tauto).
        destruct (Z.eqb_spec a' a); simpl; [|done]. destruct (Z.eqb_spec h' h); simpl; [congruence|done].
      * rewrite (map_lookup_filter_Some_2 _ _ h b E) by tauto. destruct (Z.eqb_spec b a) as [->|]; simpl; [|done].
        destruct (Z.eqb_spec a' a) as [->|], (Z.eqb_spec h' h) as [->|]; simpl; try done. exfalso. apply Hn. done.
    + rewrite map_lookup_filter_None_2 by (by left). done.
  - unfold amo_clear, AmoUnit in *. destruct (Z.eqb_spec h' h) as [->|Hne]; simpl.
    + destruct (u !! h) as [b|] eqn:E; [|by rewrite E]. destruct (Z.eqb_spec b a') as [->|]; simpl.
      * rewrite lookup_delete_eq. destruct (Z.eqb_spec a' a); done.
      * rewrite E. destruct (Z.eqb_spec b a) as [->|]; [|done]. destruct (Z.eqb_spec a' a); [congruence|done].
    + rewrite andb_true_r. destruct (u !! h') as [b|]; [|done]. destruct (b =? a'); [|done]. by rewrite lookup_delete_ne.
Qed.

(** C36 (invariant): the check of a store-conditional succeeds exactly when the
    hart has reserved the line and since then it has neither cleared it nor
    reserved another line and no other hart has committed a store to it.  The
    table has an entry per hart and evicts nothing, where a comment and the
    design document speak of a bounded table with LRU eviction. *)
Theorem reservation_unbroken evs h a :
  amo_check (fold_left amo_step evs ∅) h a = true <->
  exists evs1 ev evs2, evs = evs1 ++ ev :: evs2 /\ makes h a ev = true /\ Forall (fun e => breaks h a e = false) evs2.
Proof.
  induction evs as [|e evs IH] using rev_ind.
  - split; [done|]. intros ([|] & ? & ? & ? & _); done.
  - rewrite fold_left_app. cbn [fold_left]. rewrite check_step, orb_true_iff, andb_true_iff, IH, negb_true_iff. split.
    + intros [Hm|[(l1 & ev & l2 & -> & Hm & Hl) Hb]].
      * exists evs, e, []. split_and!; [done..|constructor].
      * exists l1, ev, (l2 ++ [e]). split_and!; [by rewrite <- app_assoc|done|]. apply Forall_app. split; [done|by constructor].
    + intros (l1 & ev & l2 & E & Hm & Hl). destruct (rev_ind (fun l2 => l2 = [] \/ exists y l2', l2 = l2' ++ [y]) (or_introl eq_refl) ltac:(intros y l' _; right; by exists y, l') l2) as [->|(y & l2' & ->)].
      * apply app_inj_tail in E as [-> ->]. by left.
      * right. rewrite app_comm_cons, app_assoc in E. apply app_inj_tail in E as [-> ->]. apply Forall_app in Hl as [Hl1 Hl2]. split; [by exists l1, ev, l2'|].
        by inversion Hl2.
Qed.

Module AmoDemo.
(** AMOMIN.W of -3 with 5 at address 68, in a memory of ones. *)
Definition ones : memory := fun a => if a =? 68 then 0xfd else 0xff.
Definition req : MemReq := {| rq_op := MAMO_MIN; rq_addr := 68; rq_data := Some (<[4%nat := 5]> (replicate 64 0)); rq_byteen := 0xf0; rq_tag := 9; rq_hart_id := 1; rq_uuid := 0; rq_flags := 0 |}.

Lemma ones_typed : byte_memory ones.
Proof. intros a. unfold ones, is_byte, in_u. destruct (a =? 68); lia. Qed.

Lemma req_typed : typed_req req.
Proof.
  split; [simpl; lia|]. split; [|intros _; vm_compute; lia]. intros d [= <-]. split; [reflexivity|]. repeat constructor; simpl; lia.
Qed.

Lemma amo_memory_executes_witness : le_word (read_bytes ones 68 (amo_bytes req)) = 0xfffffffd /\
  exists m' r blk, mem_serve true ones req = Some (m', Some r) /\ rs_tag r = 9 /\ rs_data r = Some blk /\
    slice blk (amo_off req) (amo_bytes req) = le_bytes (amo_bytes req) (le_word (read_bytes ones 68 (amo_bytes req))) /\
    le_word (read_bytes m' 68 (amo_bytes req)) = amo_isa MAMO_MIN false (8 * 2 ^ amo_width req) (le_word (read_bytes ones 68 (amo_bytes req))) (amo_operand req) /\
    (forall a, ~ (68 <= a < 68 + Z.of_nat (amo_bytes req)) -> m' a = ones a).
Proof. split; [vm_compute; reflexivity|]. apply (amo_memory_executes ones req ones_typed req_typed eq_refl). Defined.
End AmoDemo.
