(* ===== verification/CacheAddr.v ===== *)
(** * Address fields of a cache

    The bank, set, tag and sector of an address determine its block, and the
    address rebuilt from them is the address of the block. *)

From S2P Require Import Prelude MemTypes Amo Cache CacheWorld.

(** ** Blocks read from memory *)

Lemma length_read_block m la : length (read_block m la) = 64%nat.
Proof. unfold read_block. by rewrite length_map, length_seq. Qed.

(** ** Bit fields *)

Lemma testbit_u64_max i : 0 <= i -> Z.testbit U64_MAX i = (i <? 64).
Proof. intros. change U64_MAX with (Z.ones 64). rewrite Z.testbit_ones_nonneg by lia. done. Qed.

Lemma bit_getw_bit x s e i : 0 <= s <= e -> e <= 63 -> 0 <= i -> Z.testbit (bit_getw x s e) i = (s + i <=? e) && Z.testbit x (s + i).
Proof.
  intros. unfold bit_getw. testbits.
  destruct (Z.leb_spec (s + i) e); repeat split_index; rewrite ?andb_true_l, ?andb_false_l; try done; by (f_equal; lia).
Qed.

Lemma bit_setw_bit x s e v i : 0 <= s <= e -> e <= 63 -> in_u 64 x -> 0 <= i ->
  Z.testbit (bit_setw x s e v) i = if (s <=? i) && (i <=? e) then Z.testbit v (i - s) else Z.testbit x i.
Proof.
  intros Hs He Hx Hi. unfold bit_setw, bit_clrw. testbits. rewrite (testbit_u64_max i) by lia.
  destruct (Z.leb_spec s i).
  - rewrite testbit_u64_max by lia. replace (i + (63 - e) - (63 - e + s)) with (i - s) by lia.
    destruct (Z.leb_spec i e); repeat split_index; kill_high; btauto.
  - rewrite !(Z.testbit_neg_r _ (i + (63 - e) - _)) by lia. repeat split_index; kill_high; btauto.
Qed.

Lemma bit_setw_range x s e v : 0 <= s <= e -> e <= 63 -> in_u 64 x -> 0 <= v -> in_u 64 (bit_setw x s e v).
Proof.
  intros. unfold bit_setw, bit_clrw. apply lor_in_u; [lia| |].
  - by apply land_in_u_l.
  - apply shiftr_in_u; [lia..|]. apply wrap_range. lia.
Qed.

Lemma block_of_bit a i : 0 <= i < 64 -> Z.testbit (block_of a) i = (6 <=? i) && Z.testbit a i.
Proof.
  intros. unfold block_of. change (VX_CFG_MEM_BLOCK_SIZE - 1) with (Z.ones 6). testbits.
  destruct (Z.leb_spec 6 i); repeat split_index; simpl; rewrite ?andb_true_r, ?andb_false_r; done.
Qed.

Lemma block_of_range a : in_u 64 (block_of a).
Proof. apply land_in_u_r; [lia|]. apply wrap_range. lia. Qed.

Lemma block_of_mod a : in_u 64 a -> block_of a = a - a mod 64.
Proof.
  intros Ha. assert (E : block_of a = Z.ldiff a (Z.ones 6)).
  { apply Z.bits_inj'. intros i Hi. rewrite Z.ldiff_spec, Z.testbit_ones_nonneg by lia. destruct (Z.ltb_spec i 64).
    - rewrite block_of_bit by lia. destruct (Z.leb_spec 6 i), (Z.ltb_spec i 6); try lia; simpl; rewrite ?andb_true_r, ?andb_false_r; done.
    - pose proof (block_of_range a). kill_high. done. }
  rewrite E, Z.ldiff_ones_r by lia. rewrite Z.shiftr_div_pow2, Z.shiftl_mul_pow2 by lia.
  pose proof (Z.div_mod a (2 ^ 6) ltac:(lia)). change (2 ^ 6) with 64 in *. lia.
Qed.

Section Addresses.
Context (cfg : Config) (p : params_t) (bank_id : Z).
Hypothesis Hp : make_params cfg = Some p.

(** A configuration whose sector is a memory block and whose fields fit an
    address. *)
Record addr_config : Prop := {
  ac_W : 0 <= cf_W cfg; ac_S : cf_S cfg = 6; ac_A : 0 <= cf_A cfg; ac_B : 0 <= cf_B cfg < 32;
  ac_L : cf_L cfg - cf_S cfg < 32; ac_index : cf_C cfg - (cf_L cfg + cf_A cfg + cf_B cfg) < 32;
  ac_tag : cf_C cfg - cf_A cfg < cf_addr_width cfg; ac_width : cf_addr_width cfg <= 64
}.
Hypothesis Hc : addr_config.

(** The key of a request: set, tag and sector. *)
Definition key : Type := Z * Z * Z.
Definition key_of (addr : Z) : key := (addr_set_id p addr, addr_tag p addr, addr_sector_id p addr).
Definition saddr (k : key) : Z := let '(s, t, x) := k in mem_addr_sector p bank_id s t x.

Definition legal_addr (a : Z) : Prop := in_u (cf_addr_width cfg) a /\ addr_bank_id p a = bank_id.
Definition legal_key (k : key) : Prop := exists a, legal_addr a /\ key_of a = k.

Definition index_bits : Z := cf_C cfg - (cf_L cfg + cf_A cfg + cf_B cfg).

Lemma params_eq : 0 <= index_bits /\ cf_W cfg <= cf_L cfg /\ 6 <= cf_L cfg /\
  sets_per_bank p = 2 ^ index_bits /\ sectors_per_line p = 2 ^ (cf_L cfg - 6) /\ lines_per_set p = 2 ^ cf_A cfg /\
  sector_select_addr_start p = 6 /\ sector_select_addr_end p = cf_L cfg - 1 /\
  bank_select_addr_start p = cf_L cfg /\ bank_select_addr_end p = cf_L cfg + cf_B cfg - 1 /\
  set_select_addr_start p = cf_L cfg + cf_B cfg /\ set_select_addr_end p = cf_L cfg + cf_B cfg + index_bits - 1 /\
  tag_select_addr_start p = cf_L cfg + cf_B cfg + index_bits /\ tag_select_addr_end p = cf_addr_width cfg - 1.
Proof using Hp Hc.
  destruct Hc. unfold make_params in Hp. case_match eqn:E; [|done]. bool_hyps. injection Hp as <-. unfold index_bits in *. simpl.
  rewrite ac_S0 in *. rewrite !Z.shiftl_1_l. repeat split; try lia.
Qed.

Lemma field_bit (a s e i : Z) : 0 <= s -> e <= 63 -> e - s < 32 -> 0 <= i ->
  Z.testbit (if s <=? e then u32 (bit_getw a s e) else 0) i = (s + i <=? e) && Z.testbit a (s + i).
Proof.
  intros. destruct (Z.leb_spec s e).
  - rewrite testbit_wrap, bit_getw_bit by lia. destruct (Z.ltb_spec i 32), (Z.leb_spec (s + i) e); try lia; done.
  - rewrite Z.bits_0. destruct (Z.leb_spec (s + i) e); [lia|done].
Qed.

Lemma set_field (x s e v i : Z) : 0 <= s -> e <= 63 -> in_u 64 x -> 0 <= i ->
  Z.testbit (if s <=? e then bit_setw x s e v else x) i = if (s <=? i) && (i <=? e) then Z.testbit v (i - s) else Z.testbit x i.
Proof.
  intros. destruct (Z.leb_spec s e); [by apply bit_setw_bit; try lia|].
  destruct (Z.leb_spec s i), (Z.leb_spec i e); try lia; done.
Qed.

Lemma set_field_range (x s e v : Z) : 0 <= s -> e <= 63 -> in_u 64 x -> 0 <= v -> in_u 64 (if s <=? e then bit_setw x s e v else x).
Proof. intros. destruct (Z.leb_spec s e); [|done]. apply bit_setw_range; done || lia. Qed.

Lemma bank_bit a i : 0 <= i -> Z.testbit (addr_bank_id p a) i = (i <? cf_B cfg) && Z.testbit a (cf_L cfg + i).
Proof using Hp Hc.
  intros. destruct params_eq as (? & ? & ? & _ & _ & _ & _ & _ & E1 & E2 & _). destruct Hc. unfold addr_bank_id, index_bits in *.
  rewrite E1, E2, field_bit by lia. f_equal. destruct (Z.leb_spec (cf_L cfg + i) (cf_L cfg + cf_B cfg - 1)), (Z.ltb_spec i (cf_B cfg)); lia.
Qed.

Lemma set_bit a i : 0 <= i -> Z.testbit (addr_set_id p a) i = (i <? index_bits) && Z.testbit a (cf_L cfg + cf_B cfg + i).
Proof using Hp Hc.
  intros. destruct params_eq as (? & ? & ? & _ & _ & _ & _ & _ & _ & _ & E1 & E2 & _). destruct Hc. unfold addr_set_id, index_bits in *.
  rewrite E1, E2, field_bit by lia. f_equal. match goal with |- (?a <=? ?b) = (?c <? ?d) => destruct (Z.leb_spec a b), (Z.ltb_spec c d) end; lia.
Qed.

Lemma sector_bit a i : 0 <= i -> Z.testbit (addr_sector_id p a) i = (i <? cf_L cfg - 6) && Z.testbit a (6 + i).
Proof using Hp Hc.
  intros. destruct params_eq as (? & ? & ? & _ & _ & _ & E1 & E2 & _). destruct Hc. unfold addr_sector_id, index_bits in *.
  rewrite E1, E2, field_bit by lia. f_equal. destruct (Z.leb_spec (6 + i) (cf_L cfg - 1)), (Z.ltb_spec i (cf_L cfg - 6)); lia.
Qed.

Definition tag_start : Z := cf_L cfg + cf_B cfg + index_bits.

Lemma tag_bit a i : 0 <= i -> Z.testbit (addr_tag p a) i = (tag_start + i <? cf_addr_width cfg) && Z.testbit a (tag_start + i).
Proof using Hp Hc.
  intros. destruct params_eq as (? & ? & ? & _ & _ & _ & _ & _ & _ & _ & _ & _ & E1 & E2). destruct Hc. unfold addr_tag, tag_start, index_bits in *.
  rewrite E1, E2. destruct (Z.leb_spec (cf_L cfg + cf_B cfg + (cf_C cfg - (cf_L cfg + cf_A cfg + cf_B cfg))) (cf_addr_width cfg - 1)); [|lia].
  rewrite bit_getw_bit by lia. f_equal. match goal with |- (?a <=? ?b) = (?c <? ?d) => destruct (Z.leb_spec a b), (Z.ltb_spec c d) end; lia.
Qed.

Lemma in_u_bits w x : 0 <= w -> (forall i, w <= i -> Z.testbit x i = false) -> in_u w x.
Proof.
  intros Hw Hx. replace x with (wrap w x); [by apply wrap_range|].
  apply Z.bits_inj'. intros i Hi. rewrite testbit_wrap by lia. destruct (Z.ltb_spec i w); [done|]. by rewrite Hx.
Qed.

Lemma saddr_bit s t x i : in_u 32 bank_id -> 0 <= s -> 0 <= t -> 0 <= x -> 0 <= i ->
  Z.testbit (saddr (s, t, x)) i =
    if (6 <=? i) && (i <? cf_L cfg) then Z.testbit x (i - 6)
    else if (tag_start <=? i) && (i <? cf_addr_width cfg) then Z.testbit t (i - tag_start)
    else if (cf_L cfg + cf_B cfg <=? i) && (i <? tag_start) then Z.testbit s (i - (cf_L cfg + cf_B cfg))
    else (cf_L cfg <=? i) && (i <? cf_L cfg + cf_B cfg) && Z.testbit bank_id (i - cf_L cfg).
Proof using Hp Hc.
  intros Hb Hs Ht Hx Hi. destruct params_eq as (P1 & P2 & P3 & _ & _ & _ & E1 & E2 & E3 & E4 & E5 & E6 & E7 & E8). destruct Hc.
  unfold saddr, mem_addr_sector, mem_addr, tag_start. unfold index_bits in *. rewrite E1, E2, E3, E4, E5, E6, E7, E8.
  assert (R0 : in_u 64 0) by (split; lia).
  set (m1 := if cf_L cfg <=? cf_L cfg + cf_B cfg - 1 then _ else 0).
  assert (R1 : in_u 64 m1) by (apply set_field_range; unfold in_u in *; lia).
  match goal with |- context [bit_setw m1 ?s ?e ?v] => set (m2 := if s <=? e then bit_setw m1 s e v else m1) end.
  assert (R2 : in_u 64 m2) by (apply set_field_range; unfold in_u in *; lia).
  match goal with |- context [bit_setw m2 ?s ?e ?v] => set (m3 := if s <=? e then bit_setw m2 s e v else m2) end.
  assert (R3 : in_u 64 m3) by (apply set_field_range; unfold in_u in *; lia).
  rewrite set_field by (done || lia). unfold m3. rewrite set_field by (done || lia). unfold m2. rewrite set_field by (done || lia).
  unfold m1. rewrite set_field, Z.bits_0 by (done || lia).
  repeat match goal with |- context [?a <=? ?b] => destruct (Z.leb_spec a b); try lia | |- context [?a <? ?b] => destruct (Z.ltb_spec a b); try lia end; simpl; try done; f_equal; lia.
Qed.

Lemma legal_range a : legal_addr a -> in_u 64 a /\ in_u 32 bank_id /\ 0 <= addr_set_id p a /\ 0 <= addr_tag p a /\ 0 <= addr_sector_id p a.
Proof using Hp Hc.
  intros [Ha <-]. pose proof params_eq as (P1 & P2 & P3 & _). destruct Hc. unfold index_bits in *.
  assert (H64 : in_u 64 a).
  { unfold in_u in *. pose proof (Z.pow_le_mono_r 2 (cf_addr_width cfg) 64 ltac:(lia) ltac:(lia)). lia. }
  split_and!; [done| | | |].
  - apply in_u_bits; [lia|]. intros i Hi. rewrite bank_bit by lia. destruct (Z.ltb_spec i (cf_B cfg)); [lia|done].
  - unfold addr_set_id. case_if; [|lia]. apply wrap_range. lia.
  - unfold addr_tag. case_if; [|lia]. unfold bit_getw. apply Z.shiftr_nonneg. apply wrap_range. lia.
  - unfold addr_sector_id. case_if; [|lia]. apply wrap_range. lia.
Qed.

(** The address rebuilt from the fields of an address is its block. *)
Lemma saddr_key a : legal_addr a -> saddr (key_of a) = block_of a.
Proof using Hp Hc.
  intros Ha. destruct (legal_range a Ha) as (H64 & Hb & Hs & Ht & Hx). pose proof params_eq as (P1 & P2 & P3 & _).
  apply Z.bits_inj'. intros i Hi. unfold key_of. rewrite saddr_bit by done.
  destruct Ha as [Ha Hbk]. destruct (Z.lt_ge_cases i 64) as [Hi64|Hi64].
  - rewrite block_of_bit by lia. destruct Hc. unfold tag_start, index_bits in *.
    repeat match goal with |- context [?a <=? ?b] => destruct (Z.leb_spec a b); try lia | |- context [?a <? ?b] => destruct (Z.ltb_spec a b); try lia end; simpl;
      rewrite <- ?Hbk; rewrite ?sector_bit, ?tag_bit, ?set_bit, ?bank_bit by lia; unfold tag_start, index_bits in *;
      repeat match goal with |- context [?a <? ?b] => destruct (Z.ltb_spec a b); try lia end; simpl;
      try (f_equal; lia); try (symmetry; apply (testbit_in_u (cf_addr_width cfg)); done || lia).
  - rewrite (testbit_in_u 64 (block_of a)) by (done || apply block_of_range || lia). destruct Hc. unfold tag_start, index_bits in *.
    repeat match goal with |- context [?a <=? ?b] => destruct (Z.leb_spec a b); try lia | |- context [?a <? ?b] => destruct (Z.ltb_spec a b); try lia end; done.
Qed.

Lemma key_block a : legal_addr a -> key_of (block_of a) = key_of a.
Proof using Hp Hc.
  intros Ha. destruct Ha as [Ha Hbk]. pose proof params_eq as (P1 & P2 & P3 & _). destruct Hc. unfold key_of. assert (0 <= cf_addr_width cfg) by (unfold index_bits in *; lia).
  assert (E : forall i, 6 <= i -> Z.testbit (block_of a) i = Z.testbit a i).
  { intros i Hi. destruct (Z.lt_ge_cases i 64).
    - rewrite block_of_bit by lia. destruct (Z.leb_spec 6 i); [done|lia].
    - rewrite (testbit_in_u 64 (block_of a)) by (done || apply block_of_range || lia). symmetry. apply (testbit_in_u (cf_addr_width cfg)); done || lia. }
  f_equal; [f_equal|]; apply Z.bits_inj'; intros i Hi.
  - rewrite !set_bit by lia. unfold index_bits in *. by rewrite E by lia.
  - rewrite !tag_bit by lia. unfold tag_start, index_bits in *. by rewrite E by lia.
  - rewrite !sector_bit by lia. by rewrite E by lia.
Qed.

Lemma legal_block a : legal_addr a -> legal_addr (block_of a).
Proof using Hp Hc.
  intros Ha. pose proof (legal_range a Ha) as (H64 & _). destruct Ha as [Ha Hbk]. pose proof params_eq as (P1 & P2 & P3 & _). split; [clear Hbk|].
  - rewrite block_of_mod by done. unfold in_u in *. pose proof (Z.mod_pos_bound a 64 ltac:(lia)). assert (0 <= a) by lia. pose proof (Z.mod_le a 64 ltac:(lia) ltac:(lia)). lia.
  - rewrite <- Hbk. apply Z.bits_inj'. intros i Hi. rewrite !bank_bit by lia. destruct (Z.ltb_spec i (cf_B cfg)); [|done]. simpl.
    destruct Hc. unfold index_bits in *. rewrite block_of_bit by lia. destruct (Z.leb_spec 6 (cf_L cfg + i)); [done|lia].
Qed.

Lemma saddr_inj k k' : legal_key k -> legal_key k' -> saddr k = saddr k' -> k = k'.
Proof using Hp Hc.
  intros (a & Ha & <-) (a' & Ha' & <-). rewrite !saddr_key by done. intros E. rewrite <- (key_block a), <- (key_block a') by done. by rewrite E.
Qed.

Lemma key_saddr k : legal_key k -> key_of (saddr k) = k.
Proof using Hp Hc. intros (a & Ha & <-). by rewrite saddr_key, key_block. Qed.

Lemma block_of_saddr k : legal_key k -> block_of (saddr k) = saddr k.
Proof using Hp Hc.
  intros (a & Ha & <-). rewrite saddr_key by done. pose proof (legal_range a Ha) as (H64 & _).
  rewrite (block_of_mod (block_of a)) by apply block_of_range. rewrite block_of_mod by done.
  pose proof (Z.div_mod a 64 ltac:(lia)). replace (a - a mod 64) with (0 + (a / 64) * 64) by lia. rewrite Z_mod_plus_full, Zmod_0_l. lia.
Qed.

Lemma saddr_aligned k : legal_key k -> saddr k mod 64 = 0.
Proof using Hp Hc.
  intros (a & Ha & <-). rewrite saddr_key by done. pose proof (legal_range a Ha) as (H64 & _). rewrite block_of_mod by done.
  pose proof (Z.div_mod a 64 ltac:(lia)). replace (a - a mod 64) with (0 + (a / 64) * 64) by lia. rewrite Z_mod_plus_full, Zmod_0_l. lia.
Qed.

Lemma set_in_range a : legal_addr a -> 0 <= addr_set_id p a < sets_per_bank p.
Proof using Hp Hc.
  intros Ha. pose proof params_eq as (P1 & P2 & P3 & E & _). rewrite E. apply (in_u_bits index_bits); [done|].
  intros i Hi. rewrite set_bit by lia. destruct (Z.ltb_spec i index_bits); [lia|done].
Qed.

Lemma sector_in_range a : legal_addr a -> 0 <= addr_sector_id p a < sectors_per_line p.
Proof using Hp Hc.
  intros Ha. pose proof params_eq as (P1 & P2 & P3 & _ & E & _). rewrite E. apply (in_u_bits (cf_L cfg - 6)); [lia|].
  intros i Hi. rewrite sector_bit by lia. destruct (Z.ltb_spec i (cf_L cfg - 6)); [lia|done].
Qed.
End Addresses.
