(* ===== verification/CacheSets.v ===== *)
(** * Contents of the sets of a cache

    What a set holds is a partial function from tags and sectors to sectors;
    the lookups of the bank read it and the updates of a line change it at one
    tag. *)

From S2P Require Import Prelude MemTypes Amo Cache CacheWorld CacheAddr.

Definition vsec (l : line_t) (x : Z) : option sector_t :=
  sec ← ln_sectors l !! Z.to_nat x; if sc_valid sec then Some sec else None.

Definition sview (s : set_t) (t x : Z) : option sector_t :=
  way ← find_resident s t; l ← st_lines s !! way; vsec l x.

Record set_wf (ways secs : nat) (s : set_t) : Prop := {
  sw_ways : length (st_lines s) = ways;
  sw_secs : forall i l, st_lines s !! i = Some l -> length (ln_sectors l) = secs;
  sw_uniq : forall i j l l', st_lines s !! i = Some l -> st_lines s !! j = Some l' -> any_valid l = true -> any_valid l' = true ->
              ln_tag l = ln_tag l' -> i = j
}.

Lemma vsec_valid l x sec : vsec l x = Some sec -> any_valid l = true /\ sc_valid sec = true /\ ln_sectors l !! Z.to_nat x = Some sec.
Proof.
  unfold vsec. destruct (_ !! _) as [y|] eqn:E; [|done]. simpl. destruct (sc_valid y) eqn:V; [|done]. intros [= <-].
  split_and!; try done. apply existsb_exists. exists y. split; [|done]. apply list_elem_of_In. by eapply list_elem_of_lookup_2.
Qed.

Lemma resident_spec s t w : find_resident s t = Some w <->
  exists l, st_lines s !! w = Some l /\ any_valid l = true /\ ln_tag l = t /\
    forall j l', (j < w)%nat -> st_lines s !! j = Some l' -> ~ (any_valid l' = true /\ ln_tag l' = t).
Proof.
  unfold find_resident. split.
  - destruct (list_find _ _) as [[i l]|] eqn:E; [|done]. simpl. intros [= <-]. apply list_find_Some in E as (H1 & H2 & H3).
    apply Is_true_true in H2. bool_hyps. exists l. split_and!; try done. intros j l' Hj Hl [V T]. eapply H3; [done..|]. apply Is_true_true. rewrite V. lia.
  - intros (l & H1 & H2 & H3 & H4). rewrite (proj2 (list_find_Some _ _ w l)); [done|]. split; [done|split; [apply Is_true_true; rewrite H2; lia|]].
    intros j y Hy Hj Hp. apply Is_true_true in Hp. bool_hyps. by eapply H4.
Qed.

Lemma resident_none s t : find_resident s t = None <-> forall j l, st_lines s !! j = Some l -> any_valid l = true -> ln_tag l <> t.
Proof.
  unfold find_resident. split.
  - destruct (list_find _ _) as [[i l]|] eqn:E; [done|]. intros _ j l Hl V T. apply list_find_None in E.
    rewrite list.Forall_forall in E. apply (E l); [by eapply list_elem_of_lookup_2|]. apply Is_true_true. rewrite V. lia.
  - intros H. rewrite (proj2 (list_find_None _ _)); [done|]. apply list.Forall_forall. intros l Hl Hp. apply list_elem_of_lookup_1 in Hl as [j Hj].
    apply Is_true_true in Hp. bool_hyps. by eapply H.
Qed.

Section OneSet.
Context {ways secs : nat}.
Implicit Type s : set_t.

Lemma resident_line s w l : set_wf ways secs s -> st_lines s !! w = Some l -> any_valid l = true -> find_resident s (ln_tag l) = Some w.
Proof.
  intros Hs Hl V. apply resident_spec. exists l. split_and!; try done. intros j l' Hj Hl' [V' T]. pose proof (sw_uniq _ _ _ Hs _ _ _ _ Hl Hl' V V'). rewrite T in *. lia.
Qed.

Lemma sview_spec s t x sec : set_wf ways secs s ->
  sview s t x = Some sec <-> exists w l, st_lines s !! w = Some l /\ ln_tag l = t /\ vsec l x = Some sec.
Proof.
  intros Hs. unfold sview. split.
  - destruct (find_resident s t) as [w|] eqn:E; [|done]. simpl. apply resident_spec in E as (l & Hl & V & T & _). rewrite Hl. simpl. eauto.
  - intros (w & l & Hl & <- & Hv). pose proof (vsec_valid _ _ _ Hv) as (V & _). rewrite (resident_line s w l) by done. simpl. by rewrite Hl.
Qed.

(** The search of the pipeline finds the resident line. *)
Lemma match_from_hit pol t ls : forall m i, mt_hit (tag_match_from pol t m i ls) =
  match list.last (filter (fun '(_, l) => Is_true (any_valid l && (ln_tag l =? t))) (imap (fun j l => ((i + j)%nat, l)) ls)) with
  | Some (w, _) => Some w
  | None => mt_hit m
  end.
Proof.
  induction ls as [|l ls IH]; intros m i; [done|]. cbn [tag_match_from imap]. rewrite IH, filter_cons.
  assert (E : imap ((fun j l => ((i + j)%nat, l)) ∘ S) ls = imap (fun j l => ((S i + j)%nat, l)) ls).
  { apply imap_ext. intros. simpl. f_equal. lia. }
  rewrite E. set (F := filter _ (imap _ ls)).
  assert (M : mt_hit (tag_match_step pol t m i l) = if any_valid l && (ln_tag l =? t) then Some i else mt_hit m).
  { unfold tag_match_step. destruct (any_valid l); simpl; [|by destruct (mt_free m)].
    destruct (ln_tag l =? t); simpl; destruct pol; simpl; try done; case_match; done. }
  rewrite M. case_decide as D.
  - apply Is_true_true in D. rewrite D, last_cons. destruct (list.last F) as [[]|]; [done|]. f_equal. lia.
  - destruct (any_valid l && (ln_tag l =? t)); [exfalso; by apply D|done].
Qed.

Lemma tag_match_resident s t pol r : set_wf ways secs s -> fst (fst (tag_match s t pol r)) = find_resident s t.
Proof.
  intros Hs. unfold tag_match. simpl. rewrite match_from_hit. change (imap _ _) with (imap pair (st_lines s)).
  set (F := filter _ _).
  assert (HF : forall w l, (w, l) ∈ F <-> st_lines s !! w = Some l /\ any_valid l = true /\ ln_tag l = t).
  { intros w l. unfold F. rewrite list_elem_of_filter. rewrite list_elem_of_lookup. split.
    - intros [D (i & Hi)]. rewrite list_lookup_imap in Hi. destruct (st_lines s !! i) as [y|] eqn:Ey; [|done]. simpl in Hi. injection Hi as -> ->.
      apply Is_true_true in D. bool_hyps. done.
    - intros (Hl & V & T). split; [apply Is_true_true; rewrite V; lia|]. exists w. rewrite list_lookup_imap, Hl. done. }
  destruct (list.last F) as [[w l]|] eqn:L.
  - apply last_Some_elem_of in L. apply HF in L as (Hl & V & T). rewrite <- T. symmetry. by apply resident_line.
  - apply last_None in L. simpl. symmetry. apply resident_none. intros j l Hl V T. assert ((j, l) ∈ F) by by apply HF. rewrite L in *. set_solver.
Qed.

(** A line replaced: its tag holds its sectors, the tag of the line it replaces
    is gone, the others are untouched. *)
Lemma replace_line s (w : nat) (l l' : line_t) : set_wf ways secs s -> st_lines s !! w = Some l -> length (ln_sectors l') = secs -> any_valid l' = true ->
  (forall j lj, j <> w -> st_lines s !! j = Some lj -> any_valid lj = true -> ln_tag lj <> ln_tag l') ->
  let s' := s <| st_lines := <[w := l']> (st_lines s) |> in
  set_wf ways secs s' /\ forall t x, sview s' t x = if t =? ln_tag l' then vsec l' x else if any_valid l && (t =? ln_tag l) then None else sview s t x.
Proof.
  intros Hs Hl Hn V Hu s'. assert (Hw : (w < length (st_lines s))%nat) by by eapply lookup_lt_Some.
  assert (Hwf : set_wf ways secs s').
  { destruct Hs as [H1 H2 H3]. constructor; unfold s'; rproj.
    - by rewrite length_insert.
    - intros i y Hi. destruct (decide (i = w)) as [->|]; [rewrite list_lookup_insert_eq in Hi by done; by injection Hi as <-|].
      rewrite list_lookup_insert_ne in Hi by done. eauto.
    - intros i j y z Hi Hj Vy Vz T. destruct (decide (i = w)) as [->|], (decide (j = w)) as [->|]; [done|..];
        rewrite ?list_lookup_insert_eq in * by done; rewrite ?list_lookup_insert_ne in * by done; simplify_eq.
      + exfalso. by eapply (Hu j).
      + exfalso. by eapply (Hu i).
      + eauto. }
  split; [done|]. intros t x. destruct (Z.eqb_spec t (ln_tag l')) as [->|Ht].
  - apply option_eq. intros sec. rewrite (sview_spec s') by done. split.
    + intros (j & y & Hj & T & Hy). unfold s' in Hj. rproj. destruct (decide (j = w)) as [->|]; [rewrite list_lookup_insert_eq in Hj by done; by injection Hj as <-|].
      rewrite list_lookup_insert_ne in Hj by done. apply vsec_valid in Hy as (Vy & _). exfalso. by eapply (Hu j).
    + intros Hx. exists w, l'. unfold s'. rproj. by rewrite list_lookup_insert_eq.
  - apply option_eq. intros sec. rewrite (sview_spec s') by done. unfold s'. rproj. split.
    + intros (j & y & Hj & T & Hy). destruct (decide (j = w)) as [->|]; [rewrite list_lookup_insert_eq in Hj by done; injection Hj as <-; done|].
      rewrite list_lookup_insert_ne in Hj by done. destruct (any_valid l && (t =? ln_tag l)) eqn:D.
      * bool_hyps. apply vsec_valid in Hy as (Vy & _). subst t. by pose proof (sw_uniq _ _ _ Hs _ _ _ _ Hj Hl Vy ltac:(done) ltac:(done)).
      * apply sview_spec; [done|]. eauto.
    + destruct (any_valid l && (t =? ln_tag l)) eqn:D; [done|]. intros (j & y & Hj & T & Hy)%sview_spec; [|done]. exists j, y. split; [|done].
      rewrite list_lookup_insert_ne; [done|]. intros ->. simplify_eq. apply vsec_valid in Hy as (Vy & _). rewrite Vy, Z.eqb_refl in D. done.
Qed.

Lemma vsec_insert t c (x : Z) l sec y : (Z.to_nat x < length (ln_sectors l))%nat -> 0 <= x -> 0 <= y -> sc_valid sec = true ->
  vsec {| ln_tag := t; ln_lru_ctr := c; ln_sectors := <[Z.to_nat x := sec]> (ln_sectors l) |} y = if y =? x then Some sec else vsec l y.
Proof.
  intros Hx H0 Hy V. unfold vsec. simpl. destruct (Z.eqb_spec y x) as [->|].
  - rewrite list_lookup_insert_eq by done. simpl. by rewrite V.
  - rewrite list_lookup_insert_ne by lia. done.
Qed.

Lemma any_valid_insert t c n l sec : (n < length (ln_sectors l))%nat -> sc_valid sec = true ->
  any_valid {| ln_tag := t; ln_lru_ctr := c; ln_sectors := <[n := sec]> (ln_sectors l) |} = true.
Proof.
  intros Hn V. apply existsb_exists. exists sec. split; [|done]. apply list_elem_of_In. apply (list_elem_of_lookup_2 _ n). simpl. by rewrite list_lookup_insert_eq.
Qed.

(** A valid sector updated in place. *)
Lemma put_sector_view s (w : nat) (l : line_t) x sec sec' t : set_wf ways secs s -> st_lines s !! w = Some l -> ln_tag l = t -> 0 <= x -> vsec l x = Some sec ->
  sc_valid sec' = true ->
  set_wf ways secs (put_sector s w x sec') /\ forall u y, 0 <= y -> sview (put_sector s w x sec') u y = if (u =? t) && (y =? x) then Some sec' else sview s u y.
Proof.
  intros Hs Hl Ht Hx Hsec V'. destruct (vsec_valid _ _ _ Hsec) as (V & _ & Hlk).
  assert (Hlen : (Z.to_nat x < length (ln_sectors l))%nat) by by eapply lookup_lt_Some.
  set (l' := {| ln_tag := ln_tag l; ln_lru_ctr := ln_lru_ctr l; ln_sectors := <[Z.to_nat x := sec']> (ln_sectors l) |}).
  assert (E : put_sector s w x sec' = s <| st_lines := <[w := l']> (st_lines s) |>).
  { unfold put_sector. rewrite (list_insert_alter (st_lines s)).
    rewrite (list_alter_ext _ (fun _ => l') (st_lines s) (st_lines s) w); [done| |done]. intros y Hy. rewrite Hl in Hy. by injection Hy as <-. }
  rewrite E. destruct (replace_line s w l l') as [H1 H2]; [done..| | | |].
  - unfold l'. simpl. rewrite length_insert. by eapply sw_secs.
  - by apply any_valid_insert.
  - intros j lj Hj Hlj Vj Tj. apply Hj. by eapply sw_uniq.
  - split; [done|]. intros u y Hy. rewrite H2. change (ln_tag l') with (ln_tag l). rewrite Ht. destruct (Z.eqb_spec u t) as [->|Hu]; simpl.
    + unfold l'. rewrite vsec_insert by done. destruct (y =? x); [done|]. unfold sview. rewrite <- Ht, (resident_line s w l) by done. simpl. by rewrite Hl.
    + rewrite V. simpl. destruct (Z.eqb_spec u t); done.
Qed.

Lemma update_lru_view s hit : set_wf ways secs s -> set_wf ways secs (update_lru s hit) /\ forall t x, sview (update_lru s hit) t x = sview s t x.
Proof.
  intros Hs. assert (L : forall j y, st_lines (update_lru s hit) !! j = Some y -> exists l, st_lines s !! j = Some l /\ ln_tag y = ln_tag l /\ ln_sectors y = ln_sectors l).
  { intros j y. unfold update_lru. rproj. rewrite list_lookup_imap. destruct (st_lines s !! j) as [l|]; [|done]. simpl. intros [= <-]. exists l.
    destruct (any_valid l); simpl; [case_bool_decide|]; done. }
  assert (L' : forall j l, st_lines s !! j = Some l -> exists y, st_lines (update_lru s hit) !! j = Some y /\ ln_tag y = ln_tag l /\ ln_sectors y = ln_sectors l).
  { intros j l Hl. destruct (st_lines (update_lru s hit) !! j) as [y|] eqn:E.
    - destruct (L j y E) as (l' & Hl' & ?). simplify_eq. eauto.
    - unfold update_lru in E. rproj. rewrite list_lookup_imap, Hl in E. done. }
  assert (Hwf : set_wf ways secs (update_lru s hit)).
  { constructor.
    - unfold update_lru. rproj. rewrite length_imap. apply Hs.
    - intros i y Hy. destruct (L i y Hy) as (l & Hl & _ & ->). by eapply sw_secs.
    - intros i j y z Hy Hz Vy Vz T. destruct (L i y Hy) as (l & Hl & T1 & S1), (L j z Hz) as (l' & Hl' & T2 & S2).
      unfold any_valid in *. rewrite S1 in Vy. rewrite S2 in Vz. eapply sw_uniq; [done..|congruence]. }
  split; [done|]. intros t x. apply option_eq. intros sec. rewrite !sview_spec by done. unfold vsec. split.
  - intros (w & y & Hy & T & Hv). destruct (L w y Hy) as (l & Hl & T1 & S1). exists w, l. rewrite <- S1, <- T1. done.
  - intros (w & l & Hl & T & Hv). destruct (L' w l Hl) as (y & Hy & T1 & S1). exists w, y. rewrite S1, T1. done.
Qed.
End OneSet.

Lemma select_from_lt pol ls : forall m i n, (mt_repl m < n)%nat -> (forall f, mt_free m = Some f -> (f < n)%nat) -> (i + length ls <= n)%nat ->
  (mt_repl (select_from pol m i ls) < n)%nat /\ forall f, mt_free (select_from pol m i ls) = Some f -> (f < n)%nat.
Proof.
  induction ls as [|l ls IH]; intros m i n H1 H2 H3; [done|]. cbn [select_from]. simpl in H3. apply IH; [| |lia].
  - unfold select_step. destruct (any_valid l); simpl; [|by destruct (mt_free m)]. destruct pol; simpl; try done. case_match; simpl; unfold const; [lia|done].
  - intros f. unfold select_step. destruct (any_valid l); simpl.
    + destruct pol; simpl; eauto. case_match; simpl; eauto.
    + destruct (mt_free m) eqn:E; simpl; unfold const; [rewrite E; eauto|]. intros [= <-]. lia.
Qed.

Lemma select_victim_lt s pol r : (0 < length (st_lines s))%nat -> (select_victim s pol r < length (st_lines s))%nat.
Proof.
  intros Hn. destruct (select_from_lt pol (st_lines s) match_init 0 (length (st_lines s))) as [H1 H2]; [done|done|lia|].
  unfold select_victim. destruct (mt_free _) as [f|] eqn:E; [eauto|]. unfold policy_victim. destruct pol.
  - pose proof (Z.mod_pos_bound r (Z.of_nat (length (st_lines s))) ltac:(lia)). lia.
  - pose proof (Z.mod_pos_bound (st_fifo_ptr s) (Z.of_nat (length (st_lines s))) ltac:(lia)). lia.
  - destruct (mt_has _); [done|]. rewrite E. done.
Qed.

Section Fill.
Context {ways secs : nat}.
Implicit Type s : set_t.

Definition filled (t x : Z) (sec : sector_t) (l : line_t) : line_t :=
  {| ln_tag := t; ln_lru_ctr := 0; ln_sectors := <[Z.to_nat x := sec]> (ln_sectors l) |}.

Lemma fill_resident s (w : nat) (l : line_t) t x sec : set_wf ways secs s -> find_resident s t = Some w -> st_lines s !! w = Some l ->
  0 <= x < Z.of_nat secs -> sc_valid sec = true ->
  let s' := s <| st_lines := <[w := filled t x sec l]> (st_lines s) |> in
  set_wf ways secs s' /\ forall u y, 0 <= y -> sview s' u y = if (u =? t) && (y =? x) then Some sec else sview s u y.
Proof.
  intros Hs Hr Hl Hx V s'. pose proof Hr as (l0 & Hl0 & Vl & T & _)%resident_spec. simplify_eq.
  assert (Hlen : length (ln_sectors l) = secs) by by eapply sw_secs.
  destruct (replace_line (ways:=ways) (secs:=secs) s w l (filled (ln_tag l) x sec l)) as [H1 H2]; [done|done| | | |].
  - simpl. by rewrite length_insert.
  - apply any_valid_insert; [lia|done].
  - intros j lj Hj Hlj Vj Tj. apply Hj. by eapply sw_uniq.
  - split; [done|]. intros u y Hy. unfold s'. rewrite H2. simpl. destruct (Z.eqb_spec u (ln_tag l)) as [->|]; simpl.
    + unfold filled. rewrite vsec_insert by (done || lia). destruct (y =? x); [done|]. unfold sview. rewrite Hr. simpl. by rewrite Hl.
    + by rewrite andb_false_r.
Qed.

Lemma fill_victim s (w : nat) (l : line_t) t x sec : set_wf ways secs s -> find_resident s t = None -> st_lines s !! w = Some l ->
  0 <= x < Z.of_nat secs -> sc_valid sec = true ->
  let s' := s <| st_lines := <[w := filled t x sec (line_reset l)]> (st_lines s) |> in
  set_wf ways secs s' /\
  forall u y, 0 <= y -> sview s' u y = if (u =? t) && (y =? x) then Some sec else if any_valid l && (u =? ln_tag l) then None else sview s u y.
Proof.
  intros Hs Hr Hl Hx V s'. rewrite resident_none in Hr.
  assert (Hlen : length (ln_sectors (line_reset l)) = secs) by (unfold line_reset; rproj; rewrite length_map; by eapply sw_secs).
  destruct (replace_line (ways:=ways) (secs:=secs) s w l (filled t x sec (line_reset l))) as [H1 H2]; [done|done| | | |].
  - simpl. by rewrite length_insert.
  - apply any_valid_insert; [lia|done].
  - intros j lj Hj Hlj Vj Tj. by eapply Hr.
  - split; [done|]. intros u y Hy. unfold s'. rewrite H2. simpl. destruct (Z.eqb_spec u t) as [->|]; simpl; [|done].
    unfold filled. rewrite vsec_insert by (done || lia). destruct (y =? x); [done|].
    assert (N : sview s t y = None). { unfold sview. rewrite (proj2 (resident_none s t)); done. }
    rewrite N. destruct (any_valid l && (t =? ln_tag l)); (unfold vsec, line_reset; rproj; rewrite list_lookup_fmap; by destruct (ln_sectors l !! _)).
Qed.

(** The valid sectors of a line are what its set holds for its tag. *)
Lemma sview_line s (w : nat) (l : line_t) x : set_wf ways secs s -> st_lines s !! w = Some l -> any_valid l = true -> sview s (ln_tag l) x = vsec l x.
Proof. intros Hs Hl V. unfold sview. rewrite (resident_line s w l) by done. simpl. by rewrite Hl. Qed.
End Fill.

(** ** All sets *)

Definition view (ss : list set_t) (k : key) : option sector_t := let '(i, t, x) := k in s ← ss !! Z.to_nat i; sview s t x.

Section Sets.
Context (p : params_t).

Definition ways : nat := Z.to_nat (lines_per_set p).
Definition secs : nat := Z.to_nat (sectors_per_line p).

Record sets_wf (ss : list set_t) : Prop := {
  ssw_len : length ss = Z.to_nat (sets_per_bank p);
  ssw_set : forall i s, ss !! i = Some s -> set_wf ways secs s
}.

Lemma sets_put ss i s s' : sets_wf ss -> ss !! i = Some s -> set_wf ways secs s' -> sets_wf (<[i := s']> ss).
Proof.
  intros [H1 H2] Hi Hs. constructor; [by rewrite length_insert|]. intros j y Hj. destruct (decide (i = j)) as [->|].
  - rewrite list_lookup_insert_eq in Hj by by eapply lookup_lt_Some. by injection Hj as <-.
  - rewrite list_lookup_insert_ne in Hj by done. eauto.
Qed.

Lemma view_put ss i s s' t x : ss !! Z.to_nat i = Some s -> 0 <= i -> forall j, 0 <= j ->
  view (<[Z.to_nat i := s']> ss) (j, t, x) = if j =? i then sview s' t x else view ss (j, t, x).
Proof.
  intros Hi H0 j Hj. unfold view. destruct (Z.eqb_spec j i) as [->|].
  - rewrite list_lookup_insert_eq by by eapply lookup_lt_Some. done.
  - by rewrite list_lookup_insert_ne by lia.
Qed.
End Sets.
