(* ===== verification/CacheInv.v ===== *)
(** * The invariant of a write-back cache bank

    Loads and stores through a write-back bank, with the memory of
    [CacheWorld] below.  The clauses: what the MSHR entries and the pipeline
    hold ([entry_ok], [pipe_ok]), the order in which requests for the same
    block leave them ([order_ok]), the fills under way ([fills_ok]), the
    resident sectors ([sectors_ok]), the value a pending request will see
    ([values_ok]) and the responses given so far ([answers_ok]). *)

From S2P Require Import Prelude MemTypes Amo Cache CacheWorld CacheAddr CacheSets.

(** ** Blocks *)

Lemma read_block_lookup m la b : (b < 64)%nat -> read_block m la !! b = Some (m (la + Z.of_nat b)).
Proof. intros Hb. unfold read_block. rewrite list_lookup_fmap, lookup_seq_lt by done. done. Qed.

Lemma length_merge d s e : length (merge_bytes d s e) = length d.
Proof. unfold merge_bytes. by rewrite length_imap. Qed.

Lemma merge_lookup d s e b : merge_bytes d s e !! b = (fun x => if Z.testbit e (Z.of_nat b) then default 0 (s !! b) else x) <$> d !! b.
Proof. unfold merge_bytes. by rewrite list_lookup_imap. Qed.

Lemma aligned_blocks la la' i : la mod 64 = 0 -> la' mod 64 = 0 -> la <= la' + i < la + 64 -> 0 <= i < 64 -> la = la'.
Proof. intros H1 H2 H3 H4. pose proof (Z.div_mod la 64). pose proof (Z.div_mod la' 64). lia. Qed.

Lemma read_write_block m la la' d e : la mod 64 = 0 -> la' mod 64 = 0 ->
  read_block (write_block m la d e) la' = if la =? la' then merge_bytes (read_block m la) d e else read_block m la'.
Proof.
  intros H1 H2. destruct (Z.eqb_spec la la') as [<-|Hne].
  - apply list_eq. intros b. rewrite merge_lookup. destruct (decide (b < 64)%nat) as [Hb|Hb].
    + rewrite !read_block_lookup by done. simpl. f_equal. unfold write_block. change VX_CFG_MEM_BLOCK_SIZE with 64.
      destruct (Z.leb_spec la (la + Z.of_nat b)), (Z.ltb_spec (la + Z.of_nat b) (la + 64)); try lia. simpl.
      replace (la + Z.of_nat b - la) with (Z.of_nat b) by lia. rewrite Nat2Z.id. done.
    + rewrite !(lookup_ge_None_2 (read_block _ _)) by (rewrite length_read_block; lia). done.
  - apply list_eq. intros b. destruct (decide (b < 64)%nat) as [Hb|Hb].
    + rewrite !read_block_lookup by done. f_equal. unfold write_block. change VX_CFG_MEM_BLOCK_SIZE with 64.
      destruct (Z.leb_spec la (la' + Z.of_nat b)), (Z.ltb_spec (la' + Z.of_nat b) (la + 64)); try done. simpl.
      exfalso. apply Hne. apply (aligned_blocks la la' (Z.of_nat b)); lia.
    + rewrite !lookup_ge_None_2 by (rewrite length_read_block; lia). done.
Qed.

(** A sector agrees with the memory outside its dirty bytes exactly when
    writing the dirty bytes back gives the sector. *)
Lemma merge_same d m : merge_bytes d d m = d.
Proof. apply list_eq. intros b. rewrite merge_lookup. destruct (d !! b); simpl; [|done]. by destruct (Z.testbit m _). Qed.

Lemma merge_none v d : length v = length d -> merge_bytes v d 0 = d -> v = d.
Proof. intros Hl H. rewrite <- H at 1. apply list_eq. intros b. rewrite merge_lookup, Z.bits_0. by destruct (v !! b). Qed.

Lemma merge_store v d s m e : length v = length d -> merge_bytes v d m = d ->
  merge_bytes v (merge_bytes d s e) (Z.lor m e) = merge_bytes d s e.
Proof.
  intros Hl H. apply list_eq. intros b. assert (Hb : merge_bytes v d m !! b = d !! b) by by rewrite H.
  rewrite !merge_lookup in *. rewrite Z.lor_spec. destruct (v !! b) as [x|] eqn:Ev, (d !! b) as [y|] eqn:Ed; simpl in *; try done.
  - f_equal. destruct (Z.testbit m _) eqn:Em; simpl in *; [done|]. destruct (Z.testbit e _); [done|]. by injection Hb.
Qed.

Lemma merge_more v d m e : length v = length d -> merge_bytes v d m = d -> merge_bytes v d (Z.lor m e) = d.
Proof.
  intros Hl H. apply list_eq. intros b. assert (Hb : merge_bytes v d m !! b = d !! b) by by rewrite H.
  rewrite !merge_lookup in *. rewrite Z.lor_spec. destruct (v !! b) as [x|] eqn:Ev, (d !! b) as [y|] eqn:Ed; simpl in *; try done.
  destruct (Z.testbit m _) eqn:Em; simpl in *; [done|]. by destruct (Z.testbit e _).
Qed.

(** ** The reference: the memory itself *)

Definition serve_all (m : memory) (qs : list MemReq) : memory := fold_left (fun m q => fst (mem_access m q)) qs m.

#[global] Arguments serve_all : simpl never.

Lemma serve_all_app m l l' : serve_all m (l ++ l') = serve_all (serve_all m l) l'.
Proof. apply fold_left_app. Qed.

(** A load or a store. *)
Definition is_write (q : MemReq) : bool := bool_decide (rq_op q = MST).

Definition apply_store (v : list Z) (q : MemReq) : list Z :=
  match rq_data q with Some d => merge_bytes v d (rq_byteen q) | None => v end.

Lemma length_apply_store v q : length (apply_store v q) = length v.
Proof. unfold apply_store. destruct (rq_data q); [apply length_merge|done]. Qed.

#[global] Arguments read_block : simpl never.
#[global] Arguments write_block : simpl never.
#[global] Arguments mem_access : simpl never.

#[global] Arguments CacheAddr.saddr : simpl never.
#[global] Arguments view : simpl never.

Section Inv.
Context (cfg : Config) (p : params_t) (bank_id : Z) (ext_a : bool) (m0 : memory).

Abbreviation key_of := (key_of p).
Abbreviation saddr := (saddr p bank_id).
Abbreviation legal_addr := (legal_addr cfg p bank_id).
Abbreviation legal_key := (legal_key cfg p bank_id).

(** Requests for this bank: loads and stores. *)
Definition legal_req (q : MemReq) : Prop := (rq_op q = MLD \/ rq_op q = MST) /\ legal_addr (rq_addr q).

Definition qkey (q : MemReq) : key := key_of (rq_addr q).

(** The memory after the first [i] requests of a history, and the response it
    gives to the request [i]. *)
Definition spec_mem (H : list MemReq) (i : nat) : memory := serve_all m0 (take i H).

Definition answer (H : list MemReq) (i : nat) (q : MemReq) : MemRsp :=
  {| rs_tag := rq_tag q; rs_hart_id := rq_hart_id q; rs_uuid := rq_uuid q;
     rs_data := if is_write q then None else Some (read_block (spec_mem H i) (block_of (rq_addr q))) |}.

(** The requests that get a response. *)
Definition wants_rsp (q : MemReq) : bool := negb (is_write q) || write_reponse cfg || fl_strsp (rq_flags q).

Definition stores_to (k : key) (q : MemReq) : bool := is_write q && bool_decide (qkey q = k).

(** The value of a block when the pending requests [P] before [i] have been
    applied to [v]. *)
Definition pval (H : list MemReq) (P : list Z) (k : key) (i : nat) (v : list Z) : list Z :=
  fold_left (fun v j => match H !! j with
                        | Some q => if bool_decide (Z.of_nat j ∈ P) && stores_to k q then apply_store v q else v
                        | None => v
                        end) (seq 0 i) v.

(** ** Clauses *)

Definition is_acc (r : bank_req_t) : bool := is_type (br_type r) RCore || is_type (br_type r) RReplay.
Definition live (e : mshr_entry_t) : bool := negb (is_type (me_type e) RNone).
Definition rkey (r : bank_req_t) : key := key_of (br_addr r).
Definition ekey (e : mshr_entry_t) : key := (me_set_id e, me_addr_tag e, me_sector_id e).

(** A request of the bank is a request of the history. *)
Definition req_ok (H : list MemReq) (n : nat) (r : bank_req_t) : Prop :=
  exists i q, (i < n)%nat /\ H !! i = Some q /\ r = bank_req_of q (Z.of_nat i) (br_type r).

Definition entry_ok (H : list MemReq) (n : nat) (e : mshr_entry_t) : Prop :=
  live e = true -> req_ok H n (me_req e) /\ me_seq e = br_adm_seq (me_req e) /\ ekey e = rkey (me_req e) /\ is_acc (me_req e) = true.

(** A fill in the pipeline names a waiting entry and carries [mv] of its key. *)
Definition fill_ok (mv : key -> list Z) (es : list mshr_entry_t) (r : bank_req_t) : Prop :=
  exists e, es !! br_mshr_id r = Some e /\ me_type e = RCore /\ br_addr r = saddr (ekey e) /\ br_data r = Some (mv (ekey e)).

Definition pipe_ok (H : list MemReq) (n : nat) (mv : key -> list Z) (es : list mshr_entry_t) (r : bank_req_t) : Prop :=
  (is_acc r = true /\ req_ok H n r) \/ (br_type r = RFill /\ fill_ok mv es r).

(** The pending requests. *)
Definition pend (es : list mshr_entry_t) (pipe : list bank_req_t) : list Z :=
  map br_adm_seq (filter (fun r => Is_true (is_acc r)) pipe) ++ map me_seq (filter (fun e => Is_true (live e)) es).

Record order_ok (es : list mshr_entry_t) (pipe : list bank_req_t) (fwd : option key) : Prop := {
  oo_pipe : forall i j r r', (i < j)%nat -> pipe !! i = Some r -> pipe !! j = Some r' -> is_acc r = true -> is_acc r' = true ->
              rkey r = rkey r' -> br_adm_seq r < br_adm_seq r';
  oo_core : forall r e, r ∈ pipe -> br_type r = RCore -> e ∈ es -> me_type e = RReplay -> ekey e <> rkey r;
  oo_fill : forall i r e, pipe !! i = Some r -> br_type r = RFill -> e ∈ es -> me_type e = RReplay -> ekey e <> rkey r;
  oo_behind : forall i j r r', (i < j)%nat -> pipe !! i = Some r -> pipe !! j = Some r' -> br_type r = RFill -> is_acc r' = true -> rkey r' <> rkey r;
  oo_replay : forall r e, r ∈ pipe -> br_type r = RReplay -> e ∈ es -> me_type e = RReplay -> ekey e = rkey r -> br_adm_seq r < me_seq e;
  oo_fwd : forall k r, fwd = Some k -> r ∈ pipe -> br_type r = RReplay -> rkey r = k -> br_write r = false
}.

(** The tags of the fills under way: requested, captured, returned, in the
    pipeline. *)
Definition fill_tags (outq : list MemReq) (rsps : list MemRsp) (pipe : list bank_req_t) : list Z :=
  map rq_tag (filter (fun q => rq_op q = MLD) outq) ++ map rs_tag rsps ++
  map (fun r => Z.of_nat (br_mshr_id r)) (filter (fun r => br_type r = RFill) pipe).

Definition tag_key (es : list mshr_entry_t) (t : Z) : option key := ekey <$> es !! Z.to_nat t.

Record fills_ok (mv : key -> list Z) (es : list mshr_entry_t) (outq : list MemReq) (rsps : list MemRsp) (pipe : list bank_req_t) : Prop := {
  fo_core : forall t, t ∈ fill_tags outq rsps pipe -> 0 <= t /\ exists e, es !! Z.to_nat t = Some e /\ me_type e = RCore;
  fo_uniq : NoDup (map (tag_key es) (fill_tags outq rsps pipe));
  fo_cover : forall e, e ∈ es -> me_type e = RCore -> exists t, t ∈ fill_tags outq rsps pipe /\ tag_key es t = Some (ekey e);
  fo_ops : forall q, q ∈ outq -> rq_op q = MLD \/ (rq_op q = MST /\ exists k, legal_key k /\ rq_addr q = saddr k);
  fo_req : forall l1 q l2, outq = l1 ++ q :: l2 -> rq_op q = MLD ->
             exists k, tag_key es (rq_tag q) = Some k /\ rq_addr q = saddr k /\ forall s, s ∈ l2 -> rq_op s = MST -> rq_addr s <> saddr k;
  fo_rsp : forall r, r ∈ rsps -> exists k, tag_key es (rs_tag r) = Some k /\ rs_data r = Some (mv k)
}.

(** A resident sector: of this bank, in agreement with the memory outside its
    dirty bytes, and nobody waits for it. *)
Record sector_ok (mv : key -> list Z) (es : list mshr_entry_t) (k : key) (sec : sector_t) : Prop := {
  so_legal : legal_key k;
  so_data : exists d, sc_data sec = Some d /\ merge_bytes (mv k) d (sc_dirty_mask sec) = d;
  so_clean : sc_dirty sec = false -> sc_dirty_mask sec = 0;
  so_idle : forall e, e ∈ es -> me_type e = RCore -> ekey e <> k
}.

Definition sectors_ok (mv : key -> list Z) (es : list mshr_entry_t) (vw : key -> option sector_t) : Prop :=
  forall i t x sec, 0 <= i -> 0 <= x -> vw (i, t, x) = Some sec -> sector_ok mv es (i, t, x) sec.

(** The value of a block now. *)
Definition cur (mv : key -> list Z) (vw : key -> option sector_t) (k : key) : list Z :=
  match vw k with Some sec => default [] (sc_data sec) | None => mv k end.

Definition values_ok (H : list MemReq) (n : nat) (P : list Z) (c : key -> list Z) : Prop :=
  forall k i, legal_key k -> (i <= n)%nat -> (i = n \/ (Z.of_nat i ∈ P /\ exists q, H !! i = Some q /\ qkey q = k)) ->
  pval H P k i (c k) = read_block (spec_mem H i) (saddr k).

(** The responses given are the answers of distinct requests that are no longer
    pending, and all of those that want one. *)
Definition answers_ok (H : list MemReq) (n : nat) (P : list Z) (rsps : list MemRsp) : Prop :=
  exists ids : list nat, NoDup ids /\
    Forall2 (fun i r => exists q, H !! i = Some q /\ r = answer H i q /\ wants_rsp q = true) ids rsps /\
    (forall i, i ∈ ids -> (i < n)%nat /\ Z.of_nat i ∉ P) /\
    (forall i q, (i < n)%nat -> H !! i = Some q -> wants_rsp q = true -> Z.of_nat i ∉ P -> i ∈ ids).

(** The counters of the bank. *)
Record counts_ok (ms : MSHR) (pipe : list bank_req_t) (pending : Z) (lines : list (Z * Z)) : Prop := {
  co_cap : length (ms_entries ms) = mshr_size cfg;
  co_size : ms_size ms = Z.of_nat (length (filter (fun e => Is_true (live e)) (ms_entries ms)));
  co_ready : ms_ready_reqs ms = Z.of_nat (length (filter (fun e => me_type e = RReplay) (ms_entries ms)));
  co_pending : pending = Z.of_nat (length (filter (fun r => br_type r = RCore) pipe));
  co_lines : Permutation lines (map (fun r => (addr_set_id p (br_addr r), addr_tag p (br_addr r))) (filter (fun r => br_type r = RCore) pipe))
}.

(** ** Values *)

Hypothesis Hp : make_params cfg = Some p.
Hypothesis Hc : addr_config cfg.

Lemma pval_ext H P P' k i v : (forall j, (j < i)%nat -> Z.of_nat j ∈ P <-> Z.of_nat j ∈ P') -> pval H P k i v = pval H P' k i v.
Proof.
  unfold pval. intros HP. revert v. assert (HF : Forall (fun j => (j < i)%nat) (seq 0 i)).
  { apply list.Forall_forall. intros j [_ Hj]%elem_of_seq. lia. }
  induction HF as [|j l Hj HF IH]; intros v; [done|]. simpl. rewrite IH. f_equal.
  destruct (H !! j); [|done]. rewrite (bool_decide_ext _ _ (HP j Hj)). done.
Qed.

Lemma pval_S H P k i v q : H !! i = Some q ->
  pval H P k (S i) v = if bool_decide (Z.of_nat i ∈ P) && stores_to k q then apply_store (pval H P k i v) q else pval H P k i v.
Proof. intros Hq. unfold pval. rewrite seq_S, fold_left_app. simpl. by rewrite Hq. Qed.

Lemma pval_none H P k i v : (forall j q, (j < i)%nat -> H !! j = Some q -> Z.of_nat j ∈ P -> stores_to k q = false) -> pval H P k i v = v.
Proof.
  induction i as [|i IH]; intros HP; [done|]. assert (E : pval H P k i v = v) by (apply IH; intros j q Hj; apply HP; lia).
  destruct (H !! i) as [q|] eqn:Hq.
  - rewrite (pval_S _ _ _ _ _ q), E by done. case_bool_decide; [|done]. simpl. by rewrite (HP i q) by (done || lia).
  - unfold pval in *. rewrite seq_S, fold_left_app. simpl. rewrite Hq. apply E.
Qed.

(** The pending requests [P] without the request [j] are [P']. *)
Definition removes (P : list Z) (j : nat) (P' : list Z) : Prop :=
  (Z.of_nat j ∉ P') /\ (forall z, z ∈ P <-> (z = Z.of_nat j \/ z ∈ P')).

Lemma removes_perm P j P' : NoDup P -> Permutation P (Z.of_nat j :: P') -> removes P j P'.
Proof.
  intros Hn HP. rewrite HP in Hn. apply list.NoDup_cons in Hn as [Hn _]. split; [done|]. intros z. rewrite HP. by rewrite elem_of_cons.
Qed.

Lemma removes_other P j P' i : removes P j P' -> i <> j -> Z.of_nat i ∈ P <-> Z.of_nat i ∈ P'.
Proof. intros [H1 H2] Hi. rewrite H2. split; [|by right]. intros [?|?]; [lia|done]. Qed.

Lemma pval_skip H P P' k i v j : removes P j P' -> (forall q, H !! j = Some q -> stores_to k q = false) -> pval H P k i v = pval H P' k i v.
Proof.
  intros HP Hj. induction i as [|i IH]; [done|]. destruct (H !! i) as [q|] eqn:Hq.
  - rewrite !(pval_S _ _ _ _ _ q) by done. rewrite <- IH. destruct (decide (i = j)) as [->|Hij].
    + rewrite (Hj q Hq). by rewrite !andb_false_r.
    + by rewrite (bool_decide_ext _ _ (removes_other P j P' i HP Hij)).
  - unfold pval in *. rewrite !seq_S, !fold_left_app. simpl. rewrite Hq. apply IH.
Qed.

(** Applying the oldest pending store to the block. *)
Lemma pval_apply H P P' k i v j q : removes P j P' -> H !! j = Some q -> stores_to k q = true -> (j < i)%nat -> (i <= length H)%nat ->
  (forall l q', (l < j)%nat -> H !! l = Some q' -> Z.of_nat l ∈ P -> stores_to k q' = false) ->
  pval H P k i v = pval H P' k i (apply_store v q).
Proof.
  intros HP Hq Hs Hji Hi Ho. induction i as [|i IH]; [lia|]. destruct (lookup_lt_is_Some_2 H i) as [qi Hqi]; [lia|].
  rewrite !(pval_S _ _ _ _ _ qi) by done. destruct (decide (i = j)) as [->|Hij].
  - assert (qi = q) as -> by congruence. rewrite Hs, !andb_true_r. rewrite bool_decide_eq_true_2 by (apply HP; by left).
    rewrite bool_decide_eq_false_2 by apply HP. rewrite pval_none by done. rewrite pval_none; [done|].
    intros l q' Hl Hq' HlP. apply (Ho l q' Hl Hq'). apply (removes_other P j P'); [done|lia|done].
  - rewrite IH by lia. by rewrite (bool_decide_ext _ _ (removes_other P j P' i HP Hij)).
Qed.

Lemma mem_access_block m q k : legal_req q -> legal_key k ->
  read_block (fst (mem_access m q)) (saddr k) = if stores_to k q then apply_store (read_block m (saddr k)) q else read_block m (saddr k).
Proof using Hp Hc.
  intros [Hop Ha] Hk. unfold mem_access, stores_to, is_write, apply_store, qkey. destruct Hop as [-> | ->]; simpl; [done|].
  rewrite <- (saddr_key cfg p bank_id Hp Hc) by done. pose proof (saddr_aligned cfg p bank_id Hp Hc k Hk).
  assert (Hk' : legal_key (key_of (rq_addr q))) by by exists (rq_addr q). pose proof (saddr_aligned cfg p bank_id Hp Hc _ Hk').
  destruct (rq_data q) as [d|]; [|by case_bool_decide]. rewrite read_write_block by done. destruct (Z.eqb_spec (saddr (key_of (rq_addr q))) (saddr k)) as [E|E].
  - apply (saddr_inj cfg p bank_id Hp Hc) in E; [|done..]. rewrite bool_decide_eq_true_2 by done. by rewrite E.
  - rewrite bool_decide_eq_false_2; [done|]. intros <-. done.
Qed.

Lemma spec_mem_S H i q : H !! i = Some q -> spec_mem H (S i) = fst (mem_access (spec_mem H i) q).
Proof. intros Hq. unfold spec_mem. rewrite (take_S_r _ _ q) by done. rewrite serve_all_app. done. Qed.

Lemma spec_mem_app H l i : (i <= length H)%nat -> spec_mem (H ++ l) i = spec_mem H i.
Proof. intros Hi. unfold spec_mem. by rewrite take_app_le by done. Qed.

Lemma pval_app H l P k i v : (i <= length H)%nat -> pval (H ++ l) P k i v = pval H P k i v.
Proof.
  intros Hi. induction i as [|i IH]; [done|]. destruct (lookup_lt_is_Some_2 H i) as [q Hq]; [lia|].
  rewrite !(pval_S _ _ _ _ _ q) by (done || by apply lookup_app_l_Some). by rewrite IH by lia.
Qed.

Lemma values_same H n P P' c c' : values_ok H n P c -> (forall z, z ∈ P <-> z ∈ P') -> (forall k, legal_key k -> c k = c' k) -> values_ok H n P' c'.
Proof.
  intros HV HP Hcc k i Hk Hi Hw. rewrite <- (Hcc k Hk), <- (pval_ext H P P') by (intros; apply HP). apply HV; [done..|].
  destruct Hw as [?|[? ?]]; [by left|right]. split; [by apply HP|done].
Qed.

Lemma values_admit H n P c q : values_ok H n P c -> H !! n = Some q -> legal_req q -> (forall z, z ∈ P -> z < Z.of_nat n) ->
  values_ok H (S n) (Z.of_nat n :: P) c.
Proof using Hp Hc.
  intros HV Hq Hl HP k i Hk Hi Hw. assert (HE : forall i, (i <= n)%nat -> pval H (Z.of_nat n :: P) k i (c k) = pval H P k i (c k)).
  { intros i' Hi'. apply pval_ext. intros j Hj. rewrite elem_of_cons. split; [|by right]. intros [?|?]; [lia|done]. }
  destruct (decide (i = S n)) as [->|].
  - rewrite (pval_S _ _ _ _ _ q), (spec_mem_S _ _ q), mem_access_block by done. rewrite bool_decide_eq_true_2 by by left. simpl. rewrite HE by done.
    rewrite (HV k n Hk); [done|lia|by left].
  - rewrite HE by lia. apply HV; [done|lia|]. destruct Hw as [?|[Hw Hx]]; [lia|]. apply elem_of_cons in Hw as [?|?]; [left; lia|by right].
Qed.

(** A load leaves; a store leaves and its block is updated. *)
Lemma values_load H n P P' c j q : values_ok H n P c -> removes P j P' -> H !! j = Some q -> is_write q = false -> values_ok H n P' c.
Proof.
  intros HV HP Hq Hl k i Hk Hi Hw. rewrite <- (pval_skip H P P' k i _ j) by (done || (intros; simplify_eq; unfold stores_to; by rewrite Hl)).
  apply HV; [done..|]. destruct Hw as [?|[Hw Hx]]; [by left|right]. split; [apply HP; by right|done].
Qed.

Lemma values_store H n P P' c c' j q : values_ok H n P c -> removes P j P' -> H !! j = Some q -> (j < n <= length H)%nat -> is_write q = true -> legal_key (qkey q) ->
  (forall l q', (l < j)%nat -> H !! l = Some q' -> Z.of_nat l ∈ P -> qkey q' <> qkey q) ->
  c' (qkey q) = apply_store (c (qkey q)) q -> (forall k, legal_key k -> k <> qkey q -> c' k = c k) -> values_ok H n P' c'.
Proof.
  intros HV HP Hq Hj Hw Hlk Ho Hck Hco k i Hk Hi Hwant. destruct (decide (k = qkey q)) as [->|Hne].
  - rewrite Hck. assert (Hji : (j < i)%nat).
    { destruct Hwant as [->|(Hi' & q' & Hq' & Hk')]; [lia|]. destruct (decide (i < j)%nat).
      - exfalso. apply (Ho i q'); [done|done| |done]. apply HP. by right.
      - assert (i <> j); [|lia]. intros ->. by apply HP in Hi'. }
    rewrite <- (pval_apply H P P' (qkey q) i (c (qkey q)) j q); [|done..| |done|lia|].
    + apply HV; [done..|]. destruct Hwant as [?|[Hi' Hx]]; [by left|right]. split; [apply HP; by right|done].
    + unfold stores_to. rewrite Hw. by rewrite bool_decide_eq_true_2.
    + intros l q' Hl Hq' HlP. unfold stores_to. rewrite bool_decide_eq_false_2 by by eapply Ho. by rewrite andb_false_r.
  - rewrite Hco by done. rewrite <- (pval_skip H P P' k i _ j); [|done|].
    + apply HV; [done..|]. destruct Hwant as [?|[Hi' Hx]]; [by left|right]. split; [apply HP; by right|done].
    + intros q' Hq'. simplify_eq. unfold stores_to. rewrite bool_decide_eq_false_2 by congruence. by rewrite andb_false_r.
Qed.

(** ** Answers *)

Lemma answers_same H n P P' rs : answers_ok H n P rs -> (forall z, z ∈ P <-> z ∈ P') -> answers_ok H n P' rs.
Proof.
  intros (ids & H1 & H2 & H3 & H4) HP. exists ids. split_and!; [done|done| |].
  - intros i Hi. rewrite <- HP. by apply H3.
  - intros i q Hi Hq Hw Hn. eapply H4; [done..|]. by rewrite HP.
Qed.

Lemma answers_admit H n P rs : answers_ok H n P rs -> answers_ok H (S n) (Z.of_nat n :: P) rs.
Proof.
  intros (ids & H1 & H2 & H3 & H4). exists ids. split_and!; [done|done| |].
  - intros i Hi. destruct (H3 i Hi). split; [lia|]. rewrite not_elem_of_cons. split; [lia|done].
  - intros i q Hi Hq Hw Hn. apply not_elem_of_cons in Hn as [? ?]. eapply H4; [lia|done..].
Qed.

(** A request that wants no response leaves; one that does gets it. *)
Lemma answers_silent H n P P' rs j q : answers_ok H n P rs -> removes P j P' -> H !! j = Some q -> wants_rsp q = false -> answers_ok H n P' rs.
Proof.
  intros (ids & H1 & H2 & H3 & H4) HP Hq Hw. exists ids. split_and!; [done|done| |].
  - intros i Hi. destruct (H3 i Hi) as [Hi1 Hi2]. split; [done|]. intros ?. apply Hi2. apply HP. by right.
  - intros i q' Hi Hq' Hw' Hn. eapply H4; [done..|]. intros [E|?]%HP; [|done]. assert (i = j) by lia. congruence.
Qed.

Lemma answers_respond H n P P' rs j q : answers_ok H n P rs -> removes P j P' -> H !! j = Some q -> (j < n)%nat -> wants_rsp q = true ->
  answers_ok H n P' (rs ++ [answer H j q]).
Proof.
  intros (ids & H1 & H2 & H3 & H4) HP Hq Hj Hw. exists (ids ++ [j]). split_and!.
  - apply list.NoDup_app. split_and!; [done| |apply NoDup_singleton]. intros i Hi. rewrite list_elem_of_singleton. intros ->. destruct (H3 j Hi) as [_ Hn]. apply Hn, HP. by left.
  - apply Forall2_app; [done|]. constructor; [|constructor]. eauto.
  - intros i [Hi|Hi]%elem_of_app.
    + destruct (H3 i Hi) as [Hi1 Hi2]. split; [done|]. intros ?. apply Hi2. apply HP. by right.
    + apply list_elem_of_singleton in Hi as ->. split; [done|apply HP].
  - intros i q' Hi Hq' Hw' Hn. apply elem_of_app. destruct (decide (i = j)) as [->|Hij]; [right; by apply list_elem_of_singleton|left].
    eapply H4; [done..|]. intros [E|?]%HP; [lia|done].
Qed.

(** ** Pending requests *)

Lemma pend_pop es r pipe : pend es (r :: pipe) = if is_acc r then br_adm_seq r :: pend es pipe else pend es pipe.
Proof. unfold pend. rewrite filter_cons. destruct (is_acc r); [by rewrite decide_True by done|by rewrite decide_False by auto]. Qed.

Lemma pend_push es pipe r : Permutation (pend es (pipe ++ [r])) (if is_acc r then br_adm_seq r :: pend es pipe else pend es pipe).
Proof.
  unfold pend. rewrite list.filter_app, filter_cons, filter_nil. destruct (is_acc r).
  - rewrite decide_True, map_app by done. simpl. rewrite <- app_assoc. symmetry. apply Permutation_middle.
  - rewrite decide_False, app_nil_r by auto. done.
Qed.

Lemma filter_insert {A} (P : A -> Prop) `{!forall x, Decision (P x)} (l : list A) i x y : l !! i = Some x ->
  filter P (<[i := y]> l) = filter P (take i l) ++ filter P [y] ++ filter P (drop (S i) l) /\
  filter P l = filter P (take i l) ++ filter P [x] ++ filter P (drop (S i) l).
Proof.
  intros Hi. split.
  - rewrite insert_take_drop by by eapply lookup_lt_Some. rewrite list.filter_app. f_equal. by rewrite <- list.filter_app.
  - rewrite <- (take_drop_middle l i x Hi) at 1. rewrite list.filter_app. f_equal. by rewrite <- list.filter_app.
Qed.

Lemma pend_enqueue es pipe i e e' : es !! i = Some e -> live e = false -> live e' = true ->
  Permutation (pend (<[i := e']> es) pipe) (me_seq e' :: pend es pipe).
Proof.
  intros Hi L L'. unfold pend. destruct (filter_insert (fun e => Is_true (live e)) es i e e' Hi) as [-> ->].
  rewrite !filter_cons, !filter_nil. rewrite (decide_True (P := Is_true (live e'))) by (by rewrite L'). rewrite (decide_False (P := Is_true (live e))) by (rewrite L; intros []).
  rewrite !map_app. simpl. rewrite <- !Permutation_middle. done.
Qed.

Lemma pend_kill es pipe i e e' : es !! i = Some e -> live e = true -> live e' = false ->
  Permutation (pend es pipe) (me_seq e :: pend (<[i := e']> es) pipe).
Proof.
  intros Hi L L'. unfold pend. destruct (filter_insert (fun e => Is_true (live e)) es i e e' Hi) as [-> ->].
  rewrite !filter_cons, !filter_nil. rewrite (decide_True (P := Is_true (live e))) by (by rewrite L). rewrite (decide_False (P := Is_true (live e'))) by (rewrite L'; intros []).
  rewrite !map_app. simpl. rewrite <- !Permutation_middle. done.
Qed.

(** Entries that change their type and stay live. *)
Lemma pend_mark es pipe f : (forall e, live (f e) = live e /\ me_seq (f e) = me_seq e) -> pend (map f es) pipe = pend es pipe.
Proof.
  intros Hf. unfold pend. f_equal. induction es as [|e es IH]; [done|]. simpl. rewrite !filter_cons. destruct (Hf e) as [HL HS]. rewrite HL.
  case_decide; simpl; [by rewrite HS, IH|done].
Qed.

Lemma pend_elem es pipe z : z ∈ pend es pipe <-> (exists r, r ∈ pipe /\ is_acc r = true /\ br_adm_seq r = z) \/ (exists e, e ∈ es /\ live e = true /\ me_seq e = z).
Proof.
  unfold pend. rewrite elem_of_app, !list_elem_of_fmap. split.
  - intros [(r & -> & Hr)|(e & -> & He)]; [left; exists r|right; exists e].
    + apply list_elem_of_filter in Hr. split_and!; [apply Hr|by apply Is_true_true; apply Hr|done].
    + apply list_elem_of_filter in He. split_and!; [apply He|by apply Is_true_true; apply He|done].
  - intros [(r & Hr & Ha & <-)|(e & He & Hl & <-)]; [left; exists r|right; exists e]; (split; [done|]); apply list_elem_of_filter; (split; [by apply Is_true_true|done]).
Qed.
End Inv.

#[global] Arguments fill_tags : simpl never.
#[global] Arguments pend : simpl never.
#[global] Arguments tag_key : simpl never.
