(* ===== verification/CacheOps.v ===== *)
(** * Steps of the invariant of a cache bank

    The part of a world the invariant speaks of, the invariant, and its
    preservation by the elementary steps of the bank: a request admitted or
    chained, a fill or a replay pushed, a read forwarded, a miss tracked, a hit
    committed, a sector written back, a fill installed, a request served by the
    memory. *)

From S2P Require Import Prelude MemTypes Amo Cache CacheWorld CacheAddr CacheSets CacheInv.

Record core := {
  c_sets : list set_t; c_ms : MSHR; c_pipe : list bank_req_t; c_mem : memory; c_out : list MemReq;
  c_rsps : list MemRsp; c_ans : list MemRsp; c_pending : Z; c_lines : list (Z * Z); c_fwd : option key
}.

Section Ops.
Context (cfg : Config) (p : params_t) (bank_id : Z) (m0 : memory).
Hypothesis Hp : make_params cfg = Some p.
Hypothesis Hc : addr_config cfg.
#[local] Set Default Proof Using "All".

Abbreviation key_of := (key_of p).
Abbreviation rkey := (rkey p).
Abbreviation qkey := (qkey p).
Abbreviation saddr := (saddr p bank_id).
Abbreviation legal_key := (legal_key cfg p bank_id).
Abbreviation legal_req := (legal_req cfg p bank_id).

Definition es (c : core) : list mshr_entry_t := ms_entries (c_ms c).
Definition mv (c : core) (k : key) : list Z := read_block (serve_all (c_mem c) (c_out c)) (saddr k).
Definition P (c : core) : list Z := pend (es c) (c_pipe c).
Definition cval (c : core) : key -> list Z := cur (mv c) (view (c_sets c)).

Record inv (H : list MemReq) (n : nat) (c : core) : Prop := {
  i_legal : Forall legal_req H;
  i_bound : (n <= length H)%nat;
  i_sets : sets_wf p (c_sets c);
  i_entries : forall e, e ∈ es c -> entry_ok p H n e;
  i_pipe : forall r, r ∈ c_pipe c -> pipe_ok p bank_id H n (mv c) (es c) r;
  i_nodup : NoDup (P c);
  i_order : order_ok p (es c) (c_pipe c) (c_fwd c);
  i_fills : fills_ok cfg p bank_id (mv c) (es c) (c_out c) (c_rsps c) (c_pipe c);
  i_sectors : sectors_ok cfg p bank_id (mv c) (es c) (view (c_sets c));
  i_values : values_ok cfg p bank_id m0 H n (P c) (cval c);
  i_answers : answers_ok cfg m0 H n (P c) (c_ans c);
  i_counts : counts_ok cfg p (c_ms c) (c_pipe c) (c_pending c) (c_lines c)
}.

(** ** Facts of the clauses *)

Lemma req_ok_facts H n r : Forall legal_req H -> req_ok H n r -> is_acc r = true ->
  exists i q, (i < n)%nat /\ H !! i = Some q /\ br_adm_seq r = Z.of_nat i /\ rkey r = qkey q /\ legal_req q /\
    br_write r = is_write q /\ br_data r = rq_data q /\ br_byteen r = rq_byteen q /\ br_skip_core_rsp r = false /\
    need_core_rsp cfg r = wants_rsp cfg q /\ br_op r = rq_op q /\
    forall d, rsp_of r d = {| rs_tag := rq_tag q; rs_hart_id := rq_hart_id q; rs_uuid := rq_uuid q; rs_data := d |}.
Proof.
  intros HL (i & q & Hi & Hq & E) Ha. exists i, q. rewrite E. unfold CacheInv.rkey, CacheInv.qkey, need_core_rsp, wants_rsp, is_write, rsp_of. simpl.
  rewrite list.Forall_forall in HL. split_and!; try done. apply HL. by eapply list_elem_of_lookup_2.
Qed.

Lemma req_ok_mono H H' n n' r : req_ok H n r -> (n <= n')%nat -> (forall i q, H !! i = Some q -> H' !! i = Some q) -> req_ok H' n' r.
Proof. intros (i & q & Hi & Hq & E) Hn HH. exists i, q. split_and!; [lia|by apply HH|done]. Qed.

Lemma req_ok_key H n r : Forall legal_req H -> req_ok H n r -> is_acc r = true -> legal_key (rkey r).
Proof. intros HL Hr Ha. destruct (req_ok_facts H n r HL Hr Ha) as (i & q & _ & _ & _ & -> & [_ Hq] & _). by exists (rq_addr q). Qed.

Lemma live_entry H n c e : inv H n c -> e ∈ es c -> live e = true -> legal_key (ekey e).
Proof. intros Hi He Hl. destruct (i_entries _ _ _ Hi e He Hl) as (Hr & _ & -> & Ha). eapply req_ok_key; [apply Hi|done..]. Qed.

Lemma pipe_acc H n c r : inv H n c -> r ∈ c_pipe c -> is_acc r = true -> req_ok H n r.
Proof. intros Hi Hr Ha. destruct (i_pipe _ _ _ Hi r Hr) as [[_ ?]|[Ht _]]; [done|]. unfold is_acc in Ha. rewrite Ht in Ha. done. Qed.

Lemma core_acc r : br_type r = RCore -> is_acc r = true.
Proof. unfold is_acc. intros ->. done. Qed.
Lemma replay_acc r : br_type r = RReplay -> is_acc r = true.
Proof. unfold is_acc. intros ->. done. Qed.
Lemma core_live e : me_type e = RCore -> live e = true.
Proof. unfold live. intros ->. done. Qed.
Lemma replay_live e : me_type e = RReplay -> live e = true.
Proof. unfold live. intros ->. done. Qed.
Lemma dead_type e : live e = false -> me_type e = RNone.
Proof. unfold live, is_type. case_bool_decide; done. Qed.

Lemma pend_lt H n c z : inv H n c -> z ∈ P c -> 0 <= z < Z.of_nat n.
Proof.
  intros Hi Hz. apply pend_elem in Hz as [(r & Hr & Ha & <-)|(e & He & Hl & <-)].
  - destruct (req_ok_facts H n r) as (i & q & Hin & _ & -> & _); [apply Hi|by eapply pipe_acc|done|lia].
  - destruct (i_entries _ _ _ Hi e He Hl) as (Hr & -> & _ & Ha). destruct (req_ok_facts H n (me_req e)) as (i & q & Hin & _ & -> & _); [apply Hi|done..|lia].
Qed.

#[local] Hint Resolve core_acc replay_acc core_live replay_live : core.

(** ** Steps outside the bank *)

Lemma inv_hist H n c q : inv H n c -> legal_req q -> inv (H ++ [q]) n c.
Proof.
  intros [? Hb ? ? ? ? ? ? ? HV HA ?] Hq. constructor; try done.
  - apply Forall_app. split; [done|]. by constructor.
  - rewrite length_app. lia.
  - intros e He Hl. destruct (i_entries0 e He Hl) as (Hr & ?). split; [|done]. eapply req_ok_mono; [done|done|]. intros. by apply lookup_app_l_Some.
  - intros r Hr. destruct (i_pipe0 r Hr) as [[Ha Hok]|Hf]; [left|by right]. split; [done|]. eapply req_ok_mono; [done|done|]. intros. by apply lookup_app_l_Some.
  - intros k i Hk Hi Hw. rewrite pval_app, spec_mem_app by lia. apply HV; [done..|]. destruct Hw as [?|(? & q' & Hq' & ?)]; [by left|].
    destruct (decide (i = n)); [by left|]. right. split; [done|]. exists q'. rewrite lookup_app_l in Hq' by lia. done.
  - destruct HA as (ids & H1 & H2 & H3 & H4). exists ids. split_and!; [done| |done|].
    + eapply list.Forall2_impl; [exact H2|]. intros i r (q' & Hq' & -> & Hw). exists q'. split_and!; [by apply lookup_app_l_Some| |done].
      unfold answer. apply lookup_lt_Some in Hq'. by rewrite spec_mem_app by lia.
    + intros i q' Hi Hq'. rewrite lookup_app_l in Hq' by lia. by apply H4.
Qed.

Lemma store_block_view m k k' d e q : legal_key k -> legal_key k' -> rq_op q = MST -> rq_addr q = saddr k -> rq_data q = Some d -> rq_byteen q = e ->
  read_block (fst (mem_access m q)) (saddr k') = if decide (k = k') then merge_bytes (read_block m (saddr k)) d e else read_block m (saddr k').
Proof using Hp Hc.
  intros Hk Hk' Ho Ha Hd He. unfold mem_access. rewrite Ho, Ha, Hd, He. simpl. rewrite (block_of_saddr cfg p bank_id Hp Hc) by done.
  rewrite read_write_block by by apply (saddr_aligned cfg p bank_id Hp Hc). case_decide as D.
  - subst k'. by rewrite Z.eqb_refl.
  - destruct (Z.eqb_spec (saddr k) (saddr k')) as [E|]; [|done]. exfalso. apply D. by apply (saddr_inj cfg p bank_id Hp Hc).
Qed.

Definition out_op (q : MemReq) : Prop := rq_op q = MLD \/ (rq_op q = MST /\ exists k, legal_key k /\ rq_addr q = saddr k).

Lemma serve_skip k l : legal_key k -> forall m, (forall s, s ∈ l -> out_op s) -> (forall s, s ∈ l -> rq_op s = MST -> rq_addr s <> saddr k) ->
  read_block (serve_all m l) (saddr k) = read_block m (saddr k).
Proof using Hp Hc.
  intros Hk. induction l as [|s l IH]; intros m Ho Hn; [done|]. change (serve_all m (s :: l)) with (serve_all (fst (mem_access m s)) l).
  rewrite IH by (intros; (apply Ho || apply Hn); try done; by right).
  destruct (Ho s) as [Hs|(Hs & k' & Hk' & Ha)]; [by left| |].
  - unfold mem_access. rewrite Hs. done.
  - unfold mem_access. rewrite Hs. simpl. destruct (rq_data s) as [d|]; [|done]. rewrite Ha, (block_of_saddr cfg p bank_id Hp Hc) by done.
    rewrite read_write_block by by apply (saddr_aligned cfg p bank_id Hp Hc). destruct (Z.eqb_spec (saddr k') (saddr k)) as [E|]; [|done].
    exfalso. apply (Hn s); [by left|done|]. congruence.
Qed.

Lemma tag_legal H n c t k : inv H n c -> t ∈ fill_tags (c_out c) (c_rsps c) (c_pipe c) -> tag_key (es c) t = Some k -> legal_key k.
Proof.
  intros Hi Ht Hk. destruct (fo_core _ _ _ _ _ _ _ _ (i_fills _ _ _ Hi) t Ht) as (_ & e & He & Hte). unfold tag_key in Hk. rewrite He in Hk. injection Hk as <-.
  eapply live_entry; [done|by eapply list_elem_of_lookup_2|auto].
Qed.

(** The memory serves the oldest request of the bank. *)
Lemma inv_mem H n c q out : inv H n c -> c_out c = q :: out ->
  inv H n (c <| c_mem := fst (mem_access (c_mem c) q) |> <| c_out := out |>
             <| c_rsps := c_rsps c ++ match snd (mem_access (c_mem c) q) with Some r => [r] | None => [] end |>).
Proof using Hp Hc.
  intros Hi Ho. destruct c as [sets ms pipe m out0 rsps ans pe lines fwd]. simpl in Ho. subst out0.
  pose proof Hi as [? ? ? ? ? ? ? HF ? ? ? ?]. unfold cval, P, es in *. simpl in *.
  constructor; rproj; try done. destruct HF as [F1 F2 F3 F4 F5 F6]. unfold es in *. simpl in *.
  assert (HT : Permutation (fill_tags (q :: out) rsps pipe)
                 (fill_tags out (rsps ++ match snd (mem_access m q) with Some r => [r] | None => [] end) pipe)).
  { unfold fill_tags. rewrite filter_cons. destruct (F4 q) as [Hq|(Hq & _)]; [by left| |]; unfold mem_access; rewrite Hq; simpl.
    - rewrite map_app, <- !app_assoc, !(app_assoc (map rq_tag _)). apply Permutation_middle.
    - by rewrite app_nil_r. }
  assert (F4' : forall s, s ∈ out -> out_op s) by (intros; apply F4; by right).
  constructor; rewrite <- ?HT; try done.
  - intros t Ht. rewrite <- HT in Ht. by apply F1.
  - intros e He Ht. destruct (F3 e He Ht) as (t & ? & ?). exists t. by rewrite <- HT.
  - intros l1 q' l2 -> Hq'. by apply (F5 (q :: l1)).
  - intros r [Hr|Hr]%elem_of_app; [by apply F6|]. destruct (F4 q) as [Hq|(Hq & _)]; [by left| |]; unfold mem_access in *; rewrite Hq in *; simpl in *; [|set_solver].
    apply list_elem_of_singleton in Hr as ->. destruct (F5 [] q out eq_refl Hq) as (k & Hk & Ha & Hs). exists k. split; [done|]. simpl. f_equal.
    assert (Hl : legal_key k). { eapply tag_legal; [exact Hi| |exact Hk]. simpl. unfold fill_tags. rewrite filter_cons, decide_True by done. by left. }
    unfold mv. simpl. rewrite Ha, (block_of_saddr cfg p bank_id Hp Hc) by done. by rewrite serve_skip.
Qed.

Lemma inv_rsps H n c rsps : inv H n c -> Permutation (c_rsps c) rsps -> inv H n (c <| c_rsps := rsps |>).
Proof.
  intros [] HR. constructor; try done. destruct i_fills0 as [F1 F2 F3 F4 F5 F6].
  assert (HT : Permutation (fill_tags (c_out c) (c_rsps c) (c_pipe c)) (fill_tags (c_out c) rsps (c_pipe c))) by (unfold fill_tags; by rewrite HR).
  constructor; rproj; try done.
  - intros t Ht. rewrite <- HT in Ht. by apply F1.
  - by rewrite <- HT.
  - intros e He Ht. destruct (F3 e He Ht) as (t & ? & ?). exists t. by rewrite <- HT.
  - intros r Hr. apply F6. by rewrite HR.
Qed.

(** The sets change and hold the same sectors. *)
Lemma inv_same_view H n c ss : inv H n c -> sets_wf p ss -> (forall i t x, 0 <= i -> 0 <= x -> view ss (i, t, x) = view (c_sets c) (i, t, x)) ->
  inv H n (c <| c_sets := ss |>).
Proof.
  intros [] Hw Hv. constructor; try done.
  - intros i t x sec Hi Hx Hs. rproj. rewrite Hv in Hs by done. by apply i_sectors0.
  - eapply values_same; [done|done|]. intros [[i t] x] (a & Ha & E). unfold cval, cur. rproj. rewrite Hv; [done|..].
    + destruct (legal_range cfg p bank_id Hp Hc a Ha) as (_ & _ & Hi & _). unfold CacheAddr.key_of in E. congruence.
    + destruct (legal_range cfg p bank_id Hp Hc a Ha) as (_ & _ & _ & _ & Hx). unfold CacheAddr.key_of in E. congruence.
Qed.

Lemma inv_fwd_off H n c : inv H n c -> inv H n (c <| c_fwd := None |>).
Proof. intros []. constructor; try done. destruct i_order0. constructor; try done. Qed.

Lemma legal_nonneg i t x : legal_key (i, t, x) -> 0 <= i /\ 0 <= t /\ 0 <= x.
Proof using Hp Hc.
  intros (a & Ha & E). destruct (legal_range cfg p bank_id Hp Hc a Ha) as (_ & _ & H1 & H2 & H3). unfold CacheAddr.key_of in E. by injection E as <- <- <-.
Qed.

Lemma mv_store c k d e q k' : legal_key k -> legal_key k' -> rq_op q = MST -> rq_addr q = saddr k -> rq_data q = Some d -> rq_byteen q = e ->
  mv (c <| c_out := c_out c ++ [q] |>) k' = if decide (k = k') then merge_bytes (mv c k) d e else mv c k'.
Proof using Hp Hc. intros. unfold mv. rproj. rewrite serve_all_app. by erewrite <- store_block_view. Qed.

Lemma snoc_split {A} (l : list A) x l1 q l2 : l ++ [x] = l1 ++ q :: l2 -> (l2 = [] /\ q = x /\ l = l1) \/ exists l2', l2 = l2' ++ [x] /\ l = l1 ++ q :: l2'.
Proof.
  intros E. destruct (rev_ind (fun l2 => l2 = [] \/ exists y l2', l2 = l2' ++ [y]) (or_introl eq_refl)
    ltac:(intros y l' _; right; by exists y, l') l2) as [->|(y & l2' & ->)].
  - left. apply app_inj_tail in E as [-> ->]. done.
  - right. exists l2'. rewrite app_comm_cons, app_assoc in E. apply app_inj_tail in E as [-> ->]. done.
Qed.

(** A resident sector is written back. *)
Lemma inv_writeback H n c i t x sec hart uuid :
  inv H n c -> 0 <= i -> 0 <= x -> view (c_sets c) (i, t, x) = Some sec ->
  let q := store_req (saddr (i, t, x)) hart uuid (sc_data sec) (sc_dirty_mask sec) in
  let c' := c <| c_out := c_out c ++ [q] |> in
  inv H n c' /\ Some (mv c' (i, t, x)) = sc_data sec /\ forall k, legal_key k -> k <> (i, t, x) -> mv c' k = mv c k.
Proof using Hp Hc.
  intros Hinv H0 Hx Hv q c'. pose proof Hinv as [? ? ? ? HPi ? ? HF HS HV ? ?].
  destruct (HS i t x sec H0 Hx Hv) as [Hk (d & Hd & Hm) Hcl Hidle]. set (k := (i, t, x)) in *.
  assert (M : forall k', legal_key k' -> mv c' k' = if decide (k = k') then d else mv c k').
  { intros k' Hk'. unfold c'. rewrite (mv_store c k d (sc_dirty_mask sec)) by (done || exact Hd). by rewrite Hm. }
  assert (Mk : mv c' k = d) by (rewrite M by done; by rewrite decide_True).
  assert (Mo : forall k', legal_key k' -> k' <> k -> mv c' k' = mv c k') by (intros k' ? ?; rewrite M by done; by rewrite decide_False).
  assert (Me : forall e, e ∈ es c -> me_type e = RCore -> mv c' (ekey e) = mv c (ekey e)).
  { intros e He Ht. apply Mo; [eapply live_entry; [done..|auto]|by apply Hidle]. }
  split_and!; [|by rewrite Mk|done]. constructor; try done.
  - intros r Hr. destruct (HPi r Hr) as [?|(Ht & e & He & Hte & Ha & Hda)]; [by left|right]. split; [done|]. exists e. split_and!; [done..|].
    rewrite Me; [done| |done]. by eapply list_elem_of_lookup_2.
  - destruct HF as [F1 F2 F3 F4 F5 F6]. assert (HT : fill_tags (c_out c ++ [q]) (c_rsps c) (c_pipe c) = fill_tags (c_out c) (c_rsps c) (c_pipe c)).
    { unfold fill_tags. by rewrite list.filter_app, filter_cons_False, filter_nil, app_nil_r by done. }
    assert (Mt : forall u k', u ∈ fill_tags (c_out c) (c_rsps c) (c_pipe c) -> tag_key (es c) u = Some k' -> k' <> k /\ mv c' k' = mv c k').
    { intros u k' Hu Hku. destruct (F1 u Hu) as (_ & e & He & Hte). unfold tag_key in Hku. rewrite He in Hku. injection Hku as <-.
      apply list_elem_of_lookup_2 in He. split; [by apply Hidle|by apply Me]. }
    constructor; rproj; rewrite ?HT; try done.
    + intros s [Hs|Hs]%elem_of_app; [by apply F4|]. apply list_elem_of_singleton in Hs as ->. right. split; [done|]. by exists k.
    + intros l1 s l2 Hl Hs. apply snoc_split in Hl as [(_ & -> & _)|(l2' & -> & Hl)]; [done|]. destruct (F5 l1 s l2' Hl Hs) as (k' & Hk' & Ha & Hn).
      exists k'. split_and!; [done..|]. intros s' [Hs'|Hs']%elem_of_app; [by apply Hn|]. apply list_elem_of_singleton in Hs' as ->. intros _.
      assert (Hin : rq_tag s ∈ fill_tags (c_out c) (c_rsps c) (c_pipe c)).
      { unfold fill_tags. apply elem_of_app. left. apply list_elem_of_fmap. exists s. split; [done|]. apply list_elem_of_filter. split; [done|]. rewrite Hl. set_solver. }
      destruct (Mt _ _ Hin Hk') as [Hne _]. simpl. intros E. apply Hne. symmetry. apply (saddr_inj cfg p bank_id Hp Hc); [done| |done]. by eapply tag_legal.
    + intros r Hr. destruct (F6 r Hr) as (k' & Hk' & Hd'). exists k'. split; [done|]. rewrite Hd'. f_equal. symmetry. eapply Mt; [|done].
      unfold fill_tags. apply elem_of_app. right. apply elem_of_app. left. apply list_elem_of_fmap. by exists r.
  - intros i' t' x' sec' Hi' Hx' Hv'. rproj. destruct (HS i' t' x' sec' Hi' Hx' Hv') as [Hk' (d' & Hd' & Hm') Hcl' Hidle']. constructor; try done.
    exists d'. split; [done|]. destruct (decide ((i', t', x') = k)) as [E|Hne]; [|by rewrite Mo].
    rewrite E, Mk. rewrite E in Hv'. rewrite Hv in Hv'. injection Hv' as <-. rewrite Hd in Hd'. injection Hd' as <-. apply merge_same.
  - eapply values_same; [done|done|]. intros k' Hk'. unfold cval, cur. rproj. destruct (view (c_sets c) k') eqn:Ev; [done|].
    symmetry. apply Mo; [done|]. intros ->. congruence.
Qed.

(** A sector equal to the memory is marked clean. *)
Lemma inv_clean H n c ss i t x sec : inv H n c -> 0 <= i -> 0 <= x -> view (c_sets c) (i, t, x) = Some sec -> Some (mv c (i, t, x)) = sc_data sec ->
  sets_wf p ss ->
  (forall i' t' x', 0 <= i' -> 0 <= x' -> view ss (i', t', x') =
     if decide ((i', t', x') = (i, t, x)) then Some (sec <| sc_dirty := false |> <| sc_dirty_mask := 0 |>) else view (c_sets c) (i', t', x')) ->
  inv H n (c <| c_sets := ss |>).
Proof.
  intros [] H0 Hx Hv Hm Hw Hvw. constructor; try done.
  - intros i' t' x' sec' Hi' Hx' Hs. rproj. rewrite Hvw in Hs by done. case_decide as D; [|by apply i_sectors0]. injection Hs as <-. rewrite D.
    destruct (i_sectors0 i t x sec H0 Hx Hv) as [Hk _ _ Hid]. constructor; rproj; try done. exists (mv c (i, t, x)). split; [done|]. apply merge_same.
  - eapply values_same; [done|done|]. intros [[i' t'] x'] Hk'. destruct (legal_nonneg _ _ _ Hk') as (? & _ & ?). unfold cval, cur. rproj.
    rewrite Hvw by done. case_decide as D; [|done]. injection D as -> -> ->. rewrite Hv. rproj. done.
Qed.

(** ** Admission *)

Lemma qkey_legal H n q : Forall legal_req H -> H !! n = Some q -> legal_req q /\ legal_key (qkey q).
Proof.
  intros HL Hq. rewrite list.Forall_forall in HL. assert (Hl : legal_req q) by (apply HL; by eapply list_elem_of_lookup_2). split; [done|]. exists (rq_addr q). split; [apply Hl|done].
Qed.

Lemma entry_mono H n n' e : entry_ok p H n e -> (n <= n')%nat -> entry_ok p H n' e.
Proof. intros He Hn Hl. destruct (He Hl) as (Hr & ?). split; [|done]. by eapply req_ok_mono. Qed.

Lemma pipe_mono H n n' m l r : pipe_ok p bank_id H n m l r -> (n <= n')%nat -> pipe_ok p bank_id H n' m l r.
Proof. intros [[Ha Hr]|Hf] Hn; [left|by right]. split; [done|]. by eapply req_ok_mono. Qed.

Lemma lookup_snoc_cases {A} (l : list A) x i y : (l ++ [x]) !! i = Some y -> (l !! i = Some y /\ (i < length l)%nat) \/ (i = length l /\ y = x).
Proof.
  intros [Hl|[Hl Hx]]%lookup_app_Some; [left; split; [done|by eapply lookup_lt_Some]|right].
  apply list_lookup_singleton_Some in Hx as [Hx <-]. split; [lia|done].
Qed.

Lemma elem_snoc {A} (l : list A) x y : y ∈ l ++ [x] <-> y ∈ l \/ y = x.
Proof. by rewrite elem_of_app, list_elem_of_singleton. Qed.

(** A request for a block that no entry waits for enters the pipeline. *)
Lemma inv_admit H n c q : inv H n c -> H !! n = Some q -> (forall e, e ∈ es c -> live e = true -> ekey e <> qkey q) ->
  let r := bank_req_of q (Z.of_nat n) RCore in
  inv H (S n) (c <| c_pipe := c_pipe c ++ [r] |> <| c_pending := c_pending c + 1 |>
                 <| c_lines := c_lines c ++ [(addr_set_id p (rq_addr q), addr_tag p (rq_addr q))] |>).
Proof.
  intros Hi Hq Hno r. pose proof Hi as [? ? ? HE HPi HN HO HF HS HV HA HC]. destruct (qkey_legal H n q) as [Hlq Hlk]; [done..|].
  assert (HP : Permutation (pend (es c) (c_pipe c ++ [r])) (Z.of_nat n :: P c)) by (rewrite pend_push; done).
  assert (Hlt : forall z, z ∈ P c -> z < Z.of_nat n) by (intros z Hz; by apply (pend_lt H n c)).
  assert (Hseq : forall r', r' ∈ c_pipe c -> is_acc r' = true -> br_adm_seq r' < Z.of_nat n).
  { intros r' Hr' Ha. apply Hlt. apply pend_elem. left. by exists r'. }
  constructor; try done.
  - by eapply lookup_lt_Some.
  - intros e He. eapply entry_mono; [by apply HE|lia].
  - intros r' [Hr'| ->]%elem_snoc; [eapply pipe_mono; [by apply HPi|lia]|]. left. split; [done|]. exists n, q. split_and!; [lia|done|done].
  - unfold P. rproj. rewrite HP. apply list.NoDup_cons. split; [|done]. intros Hz. specialize (Hlt _ Hz). lia.
  - destruct HO as [O1 O2 O3 O4 O5 O6]. constructor; rproj.
    + intros i j r1 r2 Hij [[H1 _]|[-> ->]]%lookup_snoc_cases [[H2 ?]|[-> ->]]%lookup_snoc_cases A1 A2 K; [exact (O1 i j r1 r2 Hij H1 H2 A1 A2 K)| |lia|lia].
      apply Hseq; [by eapply list_elem_of_lookup_2|done].
    + intros r' e [Hr'| ->]%elem_snoc Ht He Hte; [by eapply O2|]. apply Hno; [done|auto].
    + intros i r' e [[Hr' _]|[-> ->]]%lookup_snoc_cases Ht He Hte; [by eapply O3|done].
    + intros i j r1 r2 Hij [[H1 _]|[-> ->]]%lookup_snoc_cases [[H2 ?]|[-> ->]]%lookup_snoc_cases T1 A2; [exact (O4 i j r1 r2 Hij H1 H2 T1 A2)| |lia|lia].
      intros K. destruct (HPi r1) as [[A1 _]|(_ & e & He & Hte & Ha & _)]; [by eapply list_elem_of_lookup_2|unfold is_acc in A1; by rewrite T1 in A1|].
      apply list_elem_of_lookup_2 in He. apply (Hno e He); [auto|]. unfold CacheInv.rkey in K. rewrite Ha in K. rewrite (key_saddr cfg p bank_id Hp Hc) in K; [done|]. eapply live_entry; [done..|auto].
    + intros r' e [Hr'| ->]%elem_snoc Ht; [by apply O5|done].
    + intros k r' Hk [Hr'| ->]%elem_snoc Ht; [by apply (O6 k)|done].
  - destruct HF as [F1 F2 F3 F4 F5 F6]. assert (HT : fill_tags (c_out c) (c_rsps c) (c_pipe c ++ [r]) = fill_tags (c_out c) (c_rsps c) (c_pipe c)).
    { unfold fill_tags. by rewrite list.filter_app, (filter_cons_False _ r), filter_nil, app_nil_r by done. }
    constructor; rproj; rewrite ?HT; try done.
  - eapply values_same; [apply (values_admit cfg p bank_id m0 Hp Hc H n (P c) (cval c) q); done| |done]. intros z. unfold P at 2. rproj. by rewrite HP.
  - eapply answers_same; [by apply answers_admit|]. intros z. unfold P at 2. rproj. by rewrite HP.
  - destruct HC as [C1 C2 C3 C4 C5]. constructor; rproj; try done.
    + rewrite list.filter_app, (filter_cons_True _ r), filter_nil, length_app by done. simpl. lia.
    + rewrite list.filter_app, (filter_cons_True _ r), filter_nil, map_app by done. simpl. by rewrite C5.
Qed.

(** ** A new entry in a free slot *)

Section NewEntry.
Context (l : list mshr_entry_t) (id : nat) (e0 e' : mshr_entry_t).
Hypothesis H0 : l !! id = Some e0.
Hypothesis D0 : live e0 = false.
Hypothesis L' : live e' = true.

Lemma ins_elem e : live e = true -> e ∈ <[id := e']> l <-> e = e' \/ e ∈ l.
Proof.
  intros Hl. assert (Hid : (id < length l)%nat) by by eapply lookup_lt_Some. rewrite !list_elem_of_lookup. split.
  - intros (i & Hi). destruct (decide (i = id)) as [->|Hne]; [rewrite list_lookup_insert_eq in Hi by done; left; congruence|].
    rewrite list_lookup_insert_ne in Hi by done. right. by exists i.
  - intros [->|(i & Hi)]; [exists id; by rewrite list_lookup_insert_eq|]. exists i. rewrite list_lookup_insert_ne; [done|]. intros <-. congruence.
Qed.

Lemma ins_lookup i e : l !! i = Some e -> live e = true -> <[id := e']> l !! i = Some e.
Proof using H0 D0. clear L'. intros Hi Hl. rewrite list_lookup_insert_ne; [done|]. intros <-. congruence. Qed.

Lemma ins_tags m outq rsps pipe t : fills_ok cfg p bank_id m l outq rsps pipe -> t ∈ fill_tags outq rsps pipe -> tag_key (<[id := e']> l) t = tag_key l t.
Proof using H0 D0 Hc Hp m0.
  intros HF Ht. destruct (fo_core _ _ _ _ _ _ _ _ HF t Ht) as (_ & e & He & Hte). unfold tag_key. rewrite (ins_lookup _ e); [by rewrite He|done|auto].
Qed.

Lemma ins_count (Q : mshr_entry_t -> Prop) `{!forall e, Decision (Q e)} : ~ Q e0 ->
  Z.of_nat (length (filter Q (<[id := e']> l))) = Z.of_nat (length (filter Q l)) + if decide (Q e') then 1 else 0.
Proof using H0.
  intros Hn. destruct (filter_insert Q l id e0 e' H0) as [-> ->]. rewrite !length_app, !filter_cons, !filter_nil.
  rewrite (decide_False (P := Q e0)) by done. destruct (decide (Q e')); simpl; lia.
Qed.
End NewEntry.

Lemma fills_new_entry m m' l id e0 e' outq rsps pipe : fills_ok cfg p bank_id m l outq rsps pipe -> l !! id = Some e0 -> live e0 = false -> live e' = true ->
  (forall e, e ∈ l -> me_type e = RCore -> m' (ekey e) = m (ekey e)) ->
  (me_type e' = RCore -> exists e, e ∈ l /\ me_type e = RCore /\ ekey e = ekey e') -> fills_ok cfg p bank_id m' (<[id := e']> l) outq rsps pipe.
Proof.
  intros HF H0 D0 L' Hm Hcov. pose proof HF as [F1 F2 F3 F4 F5 F6].
  assert (HT : forall t, t ∈ fill_tags outq rsps pipe -> tag_key (<[id := e']> l) t = tag_key l t) by (intros; by eapply ins_tags).
  constructor; try done.
  - intros t Ht. destruct (F1 t Ht) as (? & e & He & Hte). split; [done|]. exists e. split; [|done]. eapply ins_lookup; [done..|auto].
  - erewrite (map_ext_in _ (tag_key l)); [done|]. intros t Ht%list_elem_of_In. by apply HT.
  - intros e He Hte. apply (ins_elem l id e0 e' H0 D0 L') in He as [->|He]; [|destruct (F3 e He Hte) as (t & Ht & Hk); exists t; by rewrite HT|auto].
    destruct (Hcov Hte) as (e1 & He1 & Ht1 & Hk1). destruct (F3 e1 He1 Ht1) as (t & Ht & Hk). exists t. rewrite HT by done. by rewrite <- Hk1.
  - intros l1 q l2 E Hq. destruct (F5 l1 q l2 E Hq) as (k & Hk & ?). exists k. rewrite HT; [done|]. subst outq. unfold fill_tags.
    apply elem_of_app. left. apply list_elem_of_fmap. exists q. split; [done|]. apply list_elem_of_filter. split; [done|]. set_solver.
  - intros r Hr. destruct (F6 r Hr) as (k & Hk & Hd).
    assert (Hin : rs_tag r ∈ fill_tags outq rsps pipe).
    { unfold fill_tags. apply elem_of_app. right. apply elem_of_app. left. apply list_elem_of_fmap. by exists r. }
    exists k. rewrite HT by done. split; [done|]. rewrite Hd. f_equal. destruct (F1 _ Hin) as (_ & e & He & Hte). unfold tag_key in Hk. rewrite He in Hk. injection Hk as <-.
    symmetry. apply Hm; [by eapply list_elem_of_lookup_2|done].
Qed.

Lemma sectors_new_entry m l id e0 e' vw : sectors_ok cfg p bank_id m l vw -> l !! id = Some e0 -> live e0 = false -> live e' = true ->
  (me_type e' = RCore -> legal_key (ekey e') -> vw (ekey e') = None) -> legal_key (ekey e') -> sectors_ok cfg p bank_id m (<[id := e']> l) vw.
Proof.
  intros HS H0 D0 L' Hn Hl i t x sec Hi Hx Hv. destruct (HS i t x sec Hi Hx Hv) as [S1 S2 S3 S4]. constructor; try done.
  intros e He Hte. apply (ins_elem l id e0 e' H0 D0 L') in He as [->|He]; [|by apply S4|auto]. intros E. rewrite E in Hn. rewrite Hn in Hv; [done..|]. by rewrite <- E.
Qed.

Definition new_entry (r : bank_req_t) : mshr_entry_t :=
  {| me_req := r; me_set_id := addr_set_id p (br_addr r); me_addr_tag := addr_tag p (br_addr r); me_sector_id := addr_sector_id p (br_addr r);
     me_line_id := 0; me_seq := br_adm_seq r |}.

Lemma ekey_new r : ekey (new_entry r) = rkey r.
Proof. done. Qed.

Lemma dead_not_replay e : live e = false -> me_type e <> RReplay.
Proof. intros Hd Ht. rewrite (replay_live e Ht) in Hd. done. Qed.

Lemma live_acc H n c e : inv H n c -> e ∈ es c -> live e = true -> me_type e = RCore \/ me_type e = RReplay.
Proof.
  intros Hi He Hl. destruct (i_entries _ _ _ Hi e He Hl) as (_ & _ & _ & Ha). unfold is_acc, is_type, me_type in *.
  destruct (br_type (me_req e)); simpl in Ha; try done; auto.
Qed.

Lemma fill_entry m l id e0 e' r : fill_ok p bank_id m l r -> l !! id = Some e0 -> live e0 = false -> fill_ok p bank_id m (<[id := e']> l) r.
Proof. intros (e & He & Hte & ?) H0 D0. exists e. split; [|done]. apply (ins_lookup l id e0 e'); auto. Qed.

(** A request for a block that is waited for joins the entries. *)
Lemma inv_coalesce H n c q id e0 t ms : inv H n c -> H !! n = Some q -> es c !! id = Some e0 -> live e0 = false ->
  (exists e1, e1 ∈ es c /\ live e1 = true /\ ekey e1 = qkey q) ->
  ((t = RCore /\ exists e1, e1 ∈ es c /\ me_type e1 = RCore /\ ekey e1 = qkey q) \/
   (t = RReplay /\ forall e1, e1 ∈ es c -> me_type e1 = RCore -> ekey e1 <> qkey q)) ->
  ms_entries ms = <[id := new_entry (bank_req_of q (Z.of_nat n) t)]> (es c) -> ms_size ms = ms_size (c_ms c) + 1 ->
  ms_ready_reqs ms = ms_ready_reqs (c_ms c) + (if decide (t = RReplay) then 1 else 0) ->
  inv H (S n) (c <| c_ms := ms |>).
Proof.
  intros Hi Hq H0 D0 (e1 & He1 & Hl1 & Hk1) Ht Hes Hsz Hrd. pose proof Hi as [? ? ? HE HPi HN HO HF HS HV HA HC].
  destruct (qkey_legal H n q) as [Hlq Hlk]; [done..|]. set (e' := new_entry (bank_req_of q (Z.of_nat n) t)) in *.
  assert (Kt : me_type e' = t) by done. assert (L' : live e' = true) by (unfold live; rewrite Kt; by destruct Ht as [[-> _]|[-> _]]).
  assert (Ke : ekey e' = qkey q) by done.
  assert (IN : forall e, live e = true -> e ∈ <[id := e']> (es c) <-> e = e' \/ e ∈ es c) by (intros; by eapply ins_elem).
  assert (HP : Permutation (pend (<[id := e']> (es c)) (c_pipe c)) (Z.of_nat n :: P c)) by (by erewrite pend_enqueue).
  assert (Hlt : forall z, z ∈ P c -> z < Z.of_nat n) by (intros z Hz; by apply (pend_lt H n c)).
  assert (R1 : t = RReplay -> me_type e1 = RReplay).
  { intros ->. destruct Ht as [[? _]|[_ Hno]]; [done|]. destruct (live_acc H n c e1 Hi He1 Hl1) as [Hc1|?]; [|done]. exfalso. by eapply Hno. }
  constructor; unfold cval, P, es in *; rproj; rewrite ?Hes; try done.
  - by eapply lookup_lt_Some.
  - intros e He. destruct (live e) eqn:Hl; [|intros E; congruence]. apply IN in He as [->|He]; [|eapply entry_mono; [by apply HE|lia]|done].
    intros _. split_and!; [|done|done|]. { exists n, q. split_and!; [lia|done|done]. } destruct Ht as [[-> _]|[-> _]]; done.
  - intros r Hr. destruct (pipe_mono H n (S n) _ _ r (HPi r Hr) ltac:(lia)) as [?|[? ?]]; [by left|right]. split; [done|]. by eapply fill_entry.
  - rewrite HP. apply list.NoDup_cons. split; [|done]. intros Hz. specialize (Hlt _ Hz). lia.
  - destruct HO as [O1 O2 O3 O4 O5 O6]. constructor; try done.
    + intros r e Hr Htr He Hte. apply IN in He as [->|He]; [|by eapply O2|auto]. rewrite Ke, <- Hk1. apply O2; [done..|]. by apply R1.
    + intros i r e Hr Htr He Hte. apply IN in He as [->|He]; [|by eapply O3|auto]. rewrite Ke, <- Hk1. eapply O3; [done..|]. by apply R1.
    + intros r e Hr Htr He Hte Hk. apply IN in He as [->|He]; [|by eapply O5|auto]. simpl. apply Hlt, pend_elem. left. exists r. auto.
  - eapply fills_new_entry; [done..|]. intros Hte. rewrite Ke. destruct Ht as [[_ ?]|[-> _]]; [done|]. done.
  - eapply sectors_new_entry; [done..| |done]. intros Hte _. destruct Ht as [[_ (e2 & He2 & Ht2 & Hk2)]|[-> _]]; [|done].
    rewrite Ke. destruct (qkey q) as [[i u] x] eqn:Eq. destruct (legal_nonneg _ _ _ Hlk) as (? & _ & ?).
    destruct (view (c_sets c) (i, u, x)) as [sec|] eqn:Ev; [|done]. exfalso. by eapply (so_idle _ _ _ _ _ _ _ (HS i u x sec ltac:(done) ltac:(done) Ev)).
  - eapply values_same; [apply (values_admit cfg p bank_id m0 Hp Hc H n _ _ q HV); done| |done]. intros z. by rewrite HP.
  - eapply answers_same; [by apply answers_admit|]. intros z. by rewrite HP.
  - destruct HC as [C1 C2 C3 C4 C5]. unfold es in *. constructor; rewrite ?Hes; try done.
    + by rewrite length_insert.
    + rewrite (ins_count _ id e0 e' H0). 2: { rewrite D0. by intros []. } rewrite decide_True by (by rewrite L'). lia.
    + rewrite (ins_count _ id e0 e' H0). 2: { by apply dead_not_replay. } by rewrite Hrd, C3.
Qed.

(** ** The head of the pipeline leaves *)

Definition popped (r : bank_req_t) (pe pe' : Z) (lines lines' : list (Z * Z)) : Prop :=
  if decide (br_type r = RCore)
  then pe' = pe - 1 /\ Permutation lines ((addr_set_id p (br_addr r), addr_tag p (br_addr r)) :: lines')
  else pe' = pe /\ lines' = lines.

Lemma counts_pop ms r pipe pe pe' lines lines' : counts_ok cfg p ms (r :: pipe) pe lines -> popped r pe pe' lines lines' -> counts_ok cfg p ms pipe pe' lines'.
Proof.
  intros [C1 C2 C3 C4 C5]. unfold popped. rewrite filter_cons in C4, C5. case_decide; intros [E1 E2].
  - constructor; try done; [simpl in C4; lia|]. rewrite E2 in C5. simpl in C5. by apply Permutation_cons_inv in C5.
  - subst. by constructor.
Qed.

Lemma order_pop l r pipe fwd : order_ok p l (r :: pipe) fwd -> order_ok p l pipe fwd.
Proof.
  intros [O1 O2 O3 O4 O5 O6]. constructor.
  - intros i j r1 r2 Hij. apply (O1 (S i) (S j)). lia.
  - intros r1 e Hr. apply O2. by right.
  - intros i r1 e Hr. by apply (O3 (S i)).
  - intros i j r1 r2 Hij. apply (O4 (S i) (S j)). lia.
  - intros r1 e Hr. apply O5. by right.
  - intros k r1 Hk Hr. apply (O6 k); [done|]. by right.
Qed.

Lemma pipe_ext H n m m' l r : (forall e, e ∈ l -> me_type e = RCore -> m (ekey e) = m' (ekey e)) -> pipe_ok p bank_id H n m l r -> pipe_ok p bank_id H n m' l r.
Proof.
  intros Hm [?|(Ht & e & He & Hte & Ha & Hd)]; [by left|right]. split; [done|]. exists e. split_and!; try done. rewrite Hd. f_equal. apply Hm; [by eapply list_elem_of_lookup_2|done].
Qed.

Lemma sectors_ext m m' l vw : (forall i t x sec, 0 <= i -> 0 <= x -> vw (i, t, x) = Some sec -> legal_key (i, t, x) -> m (i, t, x) = m' (i, t, x)) ->
  sectors_ok cfg p bank_id m l vw -> sectors_ok cfg p bank_id m' l vw.
Proof.
  intros Hm HS i t x sec Hi Hx Hv. destruct (HS i t x sec Hi Hx Hv) as [S1 (d & Hd & Hmd) S3 S4]. constructor; try done. exists d. rewrite <- (Hm i t x sec); done.
Qed.

Lemma tags_pop_acc outq rsps r pipe : is_acc r = true -> fill_tags outq rsps (r :: pipe) = fill_tags outq rsps pipe.
Proof.
  intros Ha. unfold fill_tags. rewrite filter_cons_False; [done|]. intros Ht. unfold is_acc in Ha. by rewrite Ht in Ha.
Qed.

Lemma fills_pop m l outq rsps r pipe : is_acc r = true -> fills_ok cfg p bank_id m l outq rsps (r :: pipe) -> fills_ok cfg p bank_id m l outq rsps pipe.
Proof.
  intros Ha [F1 F2 F3 F4 F5 F6]. rewrite (tags_pop_acc outq rsps r pipe Ha) in *. by constructor.
Qed.

(** A fill is requested for the entry [e'] of a block nobody waits for. *)
Lemma fills_request m l id e0 e' outq rsps pipe q : fills_ok cfg p bank_id m l outq rsps pipe -> l !! id = Some e0 -> live e0 = false -> me_type e' = RCore ->
  (forall e, e ∈ l -> me_type e = RCore -> ekey e <> ekey e') -> rq_op q = MLD -> rq_tag q = Z.of_nat id -> rq_addr q = saddr (ekey e') ->
  fills_ok cfg p bank_id m (<[id := e']> l) (outq ++ [q]) rsps pipe.
Proof.
  intros HF H0 D0 Ht' Hno Hop Htag Hadr. pose proof HF as [F1 F2 F3 F4 F5 F6]. assert (L' : live e' = true) by auto.
  assert (Hid : (id < length l)%nat) by by eapply lookup_lt_Some.
  assert (HT : forall t, t ∈ fill_tags outq rsps pipe -> tag_key (<[id := e']> l) t = tag_key l t) by (intros; by eapply ins_tags).
  assert (HN : Permutation (fill_tags (outq ++ [q]) rsps pipe) (Z.of_nat id :: fill_tags outq rsps pipe)).
  { unfold fill_tags. rewrite list.filter_app, (filter_cons_True _ q), filter_nil, map_app by done. simpl. rewrite Htag, <- app_assoc. symmetry. apply Permutation_middle. }
  assert (HK : tag_key (<[id := e']> l) (Z.of_nat id) = Some (ekey e')).
  { unfold tag_key. rewrite Nat2Z.id, list_lookup_insert_eq by done. done. }
  constructor; try done.
  - intros t Ht. rewrite HN in Ht. apply elem_of_cons in Ht as [->|Ht].
    + split; [lia|]. exists e'. by rewrite Nat2Z.id, list_lookup_insert_eq.
    + destruct (F1 t Ht) as (? & e & He & Hte). split; [done|]. exists e. split; [|done]. apply (ins_lookup l id e0 e'); auto.
  - rewrite HN. simpl. rewrite HK. erewrite (map_ext_in _ (tag_key l)) by (intros t Ht%list_elem_of_In; by apply HT). apply list.NoDup_cons. split; [|done].
    intros (t & Hk & Ht)%list_elem_of_fmap. destruct (F1 t Ht) as (_ & e & He & Hte). unfold tag_key in Hk. rewrite He in Hk. simpl in Hk.
    apply (Hno e); [by eapply list_elem_of_lookup_2|done|congruence].
  - intros e He Hte. apply (ins_elem l id e0 e' H0 D0 L') in He as [->|He]; [| |auto].
    + exists (Z.of_nat id). rewrite HN. split; [by left|done].
    + destruct (F3 e He Hte) as (t & Ht & Hk). exists t. rewrite HN, HT by done. split; [by right|done].
  - intros s [Hs| ->]%elem_snoc; [by apply F4|by left].
  - intros l1 s l2 E Hs. apply snoc_split in E as [(-> & -> & _)|(l2' & -> & E)].
    + exists (ekey e'). rewrite Htag. split_and!; [done..|]. intros s Hs'. by apply not_elem_of_nil in Hs'.
    + destruct (F5 l1 s l2' E Hs) as (k & Hk & Ha & Hn). exists k. rewrite HT.
      * split_and!; [done..|]. intros s' [Hs'| ->]%elem_snoc; [by apply Hn|congruence].
      * subst outq. unfold fill_tags. apply elem_of_app. left. apply list_elem_of_fmap. exists s. split; [done|]. apply list_elem_of_filter. split; [done|]. set_solver.
  - intros r Hr. destruct (F6 r Hr) as (k & Hk & Hd). exists k. rewrite HT; [done|].
    unfold fill_tags. apply elem_of_app. right. apply elem_of_app. left. apply list_elem_of_fmap. by exists r.
Qed.

Lemma mv_load c q k : rq_op q = MLD -> mv (c <| c_out := c_out c ++ [q] |>) k = mv c k.
Proof. intros Hq. unfold mv. rproj. rewrite serve_all_app. unfold serve_all at 1. simpl. unfold mem_access. by rewrite Hq. Qed.

Lemma head_acc H n c r pipe : inv H n c -> c_pipe c = r :: pipe -> is_acc r = true -> req_ok H n r /\ legal_key (rkey r).
Proof.
  intros Hi Ep Ha. assert (Hr : r ∈ c_pipe c) by (rewrite Ep; by left). pose proof (pipe_acc H n c r Hi Hr Ha). split; [done|]. eapply req_ok_key; [apply Hi|done..].
Qed.

Lemma req_ok_type H n r t : req_ok H n r -> req_ok H n (r <| br_type := t |>).
Proof. intros (i & q & Hi & Hq & E). exists i, q. split_and!; [done..|]. rewrite E. done. Qed.

(** A miss is tracked; [qs] is the fill request unless one is under way. *)
Lemma inv_miss H n c r pipe id e0 ms qs pe lines : inv H n c -> c_pipe c = r :: pipe -> is_acc r = true -> es c !! id = Some e0 -> live e0 = false ->
  view (c_sets c) (rkey r) = None ->
  ((qs = [] /\ exists e, e ∈ es c /\ me_type e = RCore /\ ekey e = rkey r) \/
   (exists q, qs = [q] /\ rq_op q = MLD /\ rq_tag q = Z.of_nat id /\ rq_addr q = saddr (rkey r) /\ forall e, e ∈ es c -> me_type e = RCore -> ekey e <> rkey r)) ->
  ms_entries ms = <[id := new_entry (r <| br_type := RCore |>)]> (es c) -> ms_size ms = ms_size (c_ms c) + 1 -> ms_ready_reqs ms = ms_ready_reqs (c_ms c) ->
  popped r (c_pending c) pe (c_lines c) lines ->
  inv H n (c <| c_ms := ms |> <| c_pipe := pipe |> <| c_out := c_out c ++ qs |> <| c_pending := pe |> <| c_lines := lines |>).
Proof.
  intros Hi Ep Ha H0 D0 Hv Hqs Hes Hsz Hrd Hpop. destruct (head_acc H n c r pipe Hi Ep Ha) as [Hr Hk]. pose proof Hi as [? ? ? HE HPi HN HO HF HS HV HA HC].
  set (e' := new_entry (r <| br_type := RCore |>)) in *. assert (Ke : ekey e' = rkey r) by done. assert (Kt : me_type e' = RCore) by done. assert (L' : live e' = true) by done.
  assert (Ks : me_seq e' = br_adm_seq r) by done.
  assert (IN : forall e, live e = true -> e ∈ <[id := e']> (es c) <-> e = e' \/ e ∈ es c) by (intros; by eapply ins_elem).
  assert (HP : Permutation (pend (<[id := e']> (es c)) pipe) (P c)).
  { unfold P. rewrite Ep, pend_pop, Ha. erewrite pend_enqueue by done. by rewrite Ks. }
  assert (Hmv : forall k, mv (c <| c_out := c_out c ++ qs |>) k = mv c k).
  { intros k. destruct Hqs as [[-> _]|(q & -> & Hq & _)]; [unfold mv; rproj; by rewrite app_nil_r|by apply mv_load]. }
  assert (Hpi' : forall r', r' ∈ pipe -> r' ∈ c_pipe c) by (intros; rewrite Ep; by right).
  assert (Hmv' : forall k, mv (c <| c_ms := ms |> <| c_pipe := pipe |> <| c_out := c_out c ++ qs |> <| c_pending := pe |> <| c_lines := lines |>) k = mv c k) by done.
  set (c' := c <| c_ms := ms |> <| c_pipe := pipe |> <| c_out := c_out c ++ qs |> <| c_pending := pe |> <| c_lines := lines |>) in *.
  assert (Ees : es c' = <[id := e']> (es c)) by exact Hes. assert (EP : P c' = pend (<[id := e']> (es c)) pipe) by (unfold P; by rewrite Ees).
  constructor; try done.
  - intros e. rewrite Ees. intros He. destruct (live e) eqn:Hl; [|intros E; congruence]. apply IN in He as [->|He]; [|by apply HE|done].
    intros _. split_and!; [by apply req_ok_type|done..].
  - intros r' Hr'. rewrite Ees. apply (pipe_ext H n (mv c)); [by intros; rewrite Hmv'|]. destruct (HPi r' (Hpi' r' Hr')) as [?|[? ?]]; [by left|right]. split; [done|]. by eapply fill_entry.
  - rewrite EP, HP. done.
  - rewrite Ees. apply order_pop with (r := r). destruct HO as [O1 O2 O3 O4 O5 O6]. rewrite Ep in *. constructor; try done.
    + intros r1 e Hr1 Ht1 He Hte. apply IN in He as [->|He]; [done|by eapply O2|auto].
    + intros i r1 e Hr1 Ht1 He Hte. apply IN in He as [->|He]; [done|by eapply O3|auto].
    + intros r1 e Hr1 Ht1 He Hte. apply IN in He as [->|He]; [done|by eapply O5|auto].
  - rewrite Ees. rewrite Ep in HF. apply fills_pop in HF; [|done].
    assert (HG : fills_ok cfg p bank_id (mv c) (<[id := e']> (es c)) (c_out c ++ qs) (c_rsps c) pipe).
    { clear c' Hmv' Ees EP. destruct Hqs as [[-> (e2 & He2 & Ht2 & Hk2)]|(q & -> & Hop & Htag & Hadr & Hno)]; [|by eapply fills_request].
      rewrite app_nil_r. eapply fills_new_entry; [done..|]. intros _. exists e2. by rewrite Ke. }
    destruct HG as [G1 G2 G3 G4 G5 G6]. constructor; try done. intros r' Hr'. destruct (G6 r' Hr') as (k & ? & ?). exists k. by rewrite Hmv'.
  - rewrite Ees. apply (sectors_ext (mv c) (mv c')); [by intros; rewrite Hmv'|]. by eapply sectors_new_entry.
  - eapply values_same; [done|intros z; by rewrite EP, HP|]. intros k _. unfold cval, cur. change (c_sets c') with (c_sets c). by rewrite Hmv'.
  - eapply answers_same; [done|]. intros z. by rewrite EP, HP.
  - rewrite Ep in HC. eapply counts_pop; [|done]. destruct HC as [C1 C2 C3 C4 C5]. unfold es in *. constructor; unfold c'; rproj; rewrite ?Hes; try done.
    + by rewrite length_insert.
    + rewrite (ins_count _ id e0 e' H0). 2: { rewrite D0. by intros []. } rewrite decide_True by done. lia.
    + rewrite (ins_count _ id e0 e' H0). 2: { by apply dead_not_replay. } rewrite decide_False by done. lia.
Qed.

(** ** Commits *)

Lemma seq_inj H n r r' : req_ok H n r -> req_ok H n r' -> br_adm_seq r = br_adm_seq r' -> rkey r = rkey r' /\ br_write r = br_write r'.
Proof.
  intros (i & q & Hi & Hq & E) (i' & q' & Hi' & Hq' & E'). rewrite E, E'. simpl. intros Hz. assert (i = i') as -> by lia. assert (q = q') as -> by congruence. done.
Qed.

(** What is pending, by its position. *)
Lemma pend_cases H n c l q : inv H n c -> H !! l = Some q -> Z.of_nat l ∈ P c ->
  (exists r, r ∈ c_pipe c /\ is_acc r = true /\ br_adm_seq r = Z.of_nat l /\ rkey r = qkey q /\ br_write r = is_write q) \/
  (exists e, e ∈ es c /\ live e = true /\ me_seq e = Z.of_nat l /\ ekey e = qkey q /\ br_write (me_req e) = is_write q).
Proof.
  intros Hi Hq Hz. apply pend_elem in Hz as [(r & Hr & Ha & Hs)|(e & He & Hl & Hs)]; [left; exists r|right; exists e].
  - destruct (req_ok_facts H n r) as (i & q' & _ & Hq' & Hs' & Hk & _ & Hw & _); [apply Hi|by eapply pipe_acc|done|].
    assert (i = l) as -> by lia. assert (q' = q) as -> by congruence. done.
  - destruct (i_entries _ _ _ Hi e He Hl) as (Hr & Hs1 & Hk1 & Ha). destruct (req_ok_facts H n (me_req e)) as (i & q' & _ & Hq' & Hs' & Hk & _ & Hw & _); [apply Hi|done..|].
    assert (i = l) as -> by lia. assert (q' = q) as -> by congruence. split_and!; [done..|congruence|done].
Qed.

Lemma view_idle H n c k sec e : inv H n c -> legal_key k -> view (c_sets c) k = Some sec -> e ∈ es c -> me_type e = RCore -> ekey e <> k.
Proof.
  intros Hi Hk Hv He Ht. destruct k as [[i t] x]. destruct (legal_nonneg _ _ _ Hk) as (? & _ & ?).
  by eapply (so_idle _ _ _ _ _ _ _ (i_sectors _ _ _ Hi i t x sec ltac:(done) ltac:(done) Hv)).
Qed.

(** The head of the pipeline is the oldest request for a resident block. *)
Lemma head_oldest H n c r pipe sec l q : inv H n c -> c_pipe c = r :: pipe -> is_acc r = true -> view (c_sets c) (rkey r) = Some sec ->
  H !! l = Some q -> Z.of_nat l ∈ P c -> qkey q = rkey r -> br_adm_seq r <= Z.of_nat l.
Proof.
  intros Hi Ep Ha Hv Hq Hz Hk. destruct (head_acc H n c r pipe Hi Ep Ha) as [_ Hlk]. destruct (i_order _ _ _ Hi) as [O1 O2 O3 O4 O5 O6].
  assert (Hr : r ∈ c_pipe c) by (rewrite Ep; by left).
  destruct (pend_cases H n c l q Hi Hq Hz) as [(r1 & Hr1 & Ha1 & Hs1 & Hk1 & _)|(e & He & Hl & Hs & Hke & _)].
  - rewrite Ep in Hr1, O1. apply elem_of_cons in Hr1 as [->|Hr1]; [lia|]. apply list_elem_of_lookup_1 in Hr1 as [j Hj].
    assert (br_adm_seq r < br_adm_seq r1); [|lia]. apply (O1 0%nat (S j)); try done; [lia|congruence].
  - destruct (live_acc H n c e Hi He Hl) as [Hte|Hte]; [exfalso; eapply view_idle; [exact Hi|exact Hlk|done|exact He|done|congruence]|].
    assert (Hty : br_type r = RCore \/ br_type r = RReplay) by (unfold is_acc, is_type in Ha; destruct (br_type r); simpl in Ha; try done; auto).
    destruct Hty as [Hty|Hty]; [exfalso; eapply (O2 r e); try done; congruence|]. rewrite <- Hs. apply Z.lt_le_incl, O5; try done. congruence.
Qed.

Lemma block_key q : legal_req q -> block_of (rq_addr q) = saddr (qkey q).
Proof. intros [_ Ha]. symmetry. by apply (saddr_key cfg p bank_id Hp Hc). Qed.

(** A load that no pending store precedes sees the value of its block now. *)
Lemma answer_now H n c i q sec : inv H n c -> H !! i = Some q -> Z.of_nat i ∈ P c -> is_write q = false -> view (c_sets c) (qkey q) = Some sec ->
  (forall l q', (l < i)%nat -> H !! l = Some q' -> Z.of_nat l ∈ P c -> stores_to p (qkey q) q' = false) ->
  answer m0 H i q = {| rs_tag := rq_tag q; rs_hart_id := rq_hart_id q; rs_uuid := rq_uuid q; rs_data := sc_data sec |}.
Proof.
  intros Hi Hq Hz Hw Hv Hno. destruct (qkey_legal H i q (i_legal _ _ _ Hi) Hq) as [Hlq Hlk]. unfold answer. rewrite Hw. f_equal. rewrite block_key by done.
  rewrite <- (i_values _ _ _ Hi (qkey q) i Hlk); [| |right; split; [done|by exists q]].
  - rewrite pval_none by done. unfold cval, cur. rewrite Hv. destruct (qkey q) as [[j t] x]. destruct (legal_nonneg _ _ _ Hlk) as (? & _ & ?).
    destruct (so_data _ _ _ _ _ _ _ (i_sectors _ _ _ Hi j t x sec ltac:(done) ltac:(done) Hv)) as (d & -> & _). done.
  - destruct (pend_lt H n c _ Hi Hz). lia.
Qed.

Lemma removes_pop H n c r pipe i : inv H n c -> c_pipe c = r :: pipe -> is_acc r = true -> br_adm_seq r = Z.of_nat i -> removes (P c) i (pend (es c) pipe).
Proof.
  intros Hi Ep Ha Hs. apply removes_perm; [apply Hi|]. unfold P. by rewrite Ep, pend_pop, Ha, Hs.
Qed.

(** A load commits at the head of the pipeline. *)
Lemma inv_commit_load H n c r pipe sec pe lines : inv H n c -> c_pipe c = r :: pipe -> is_acc r = true -> br_write r = false ->
  view (c_sets c) (rkey r) = Some sec -> popped r (c_pending c) pe (c_lines c) lines ->
  inv H n (c <| c_pipe := pipe |> <| c_ans := c_ans c ++ [rsp_of r (sc_data sec)] |> <| c_pending := pe |> <| c_lines := lines |>).
Proof.
  intros Hi Ep Ha Hwr Hv Hpop. destruct (head_acc H n c r pipe Hi Ep Ha) as [Hr Hk]. pose proof Hi as [? ? ? HE HPi HN HO HF HS HV HA HC].
  destruct (req_ok_facts H n r) as (i & q & Hin & Hq & Hs & Hkq & Hlq & Hw & _ & _ & _ & Hwant & _ & Hrsp); [done..|]. rewrite Hw in Hwr.
  pose proof (removes_pop H n c r pipe i Hi Ep Ha Hs) as HR.
  assert (Hz : Z.of_nat i ∈ P c) by (apply HR; by left).
  assert (Hpi' : forall r', r' ∈ pipe -> r' ∈ c_pipe c) by (intros; rewrite Ep; by right).
  assert (Hans : rsp_of r (sc_data sec) = answer m0 H i q).
  { rewrite Hrsp. symmetry. eapply answer_now; [done..|by rewrite <- Hkq|]. intros l q' Hl Hq' Hlp. unfold stores_to. case_bool_decide as D; [|by rewrite andb_false_r].
    exfalso. pose proof (head_oldest H n c r pipe sec l q' Hi Ep Ha Hv Hq' Hlp ltac:(congruence)). lia. }
  constructor; unfold cval, P, es in *; rproj; try done.
  - intros r' Hr'. by apply HPi, Hpi'.
  - unfold P in HN. rewrite Ep, pend_pop, Ha in HN. by apply list.NoDup_cons in HN as [_ ?].
  - rewrite Ep in HO. by eapply order_pop.
  - rewrite Ep in HF. by eapply fills_pop.
  - by eapply values_load.
  - rewrite Hans. eapply answers_respond; [done..|]. unfold wants_rsp. by rewrite Hwr.
  - rewrite Ep in HC. by eapply counts_pop.
Qed.

(** The sector a store leaves. *)
Definition stored (r : bank_req_t) (sec : sector_t) : sector_t :=
  let sec := sector_merge sec (br_data r) (br_byteen r) in
  sec <| sc_dirty := true |> <| sc_dirty_mask := Z.lor (sc_dirty_mask sec) (br_byteen r) |>.

Lemma length_mv c k : length (mv c k) = 64%nat.
Proof. apply length_read_block. Qed.

Lemma stored_ok m l k sec r q : sector_ok cfg p bank_id m l k sec -> length (m k) = 64%nat -> br_data r = rq_data q -> br_byteen r = rq_byteen q ->
  sector_ok cfg p bank_id m l k (stored r sec) /\ default [] (sc_data (stored r sec)) = apply_store (default [] (sc_data sec)) q.
Proof.
  intros [S1 (d & Hd & Hm) S3 S4] Hl Eb Ee. assert (Hld : length (m k) = length d) by (rewrite <- Hm at 1; by rewrite length_merge).
  unfold stored, sector_merge, apply_store. rewrite Hd, Eb, Ee. destruct (rq_data q) as [s|]; rproj; (split; [|done]); constructor; rproj; try done.
  - exists (merge_bytes d s (rq_byteen q)). split; [done|]. by apply merge_store.
  - exists d. split; [done|]. by apply merge_more.
Qed.

Lemma inv_commit_store H n c r pipe ss sec pe lines : inv H n c -> c_pipe c = r :: pipe -> is_acc r = true -> br_write r = true ->
  view (c_sets c) (rkey r) = Some sec -> popped r (c_pending c) pe (c_lines c) lines -> sets_wf p ss ->
  (forall i t x, 0 <= i -> 0 <= x -> view ss (i, t, x) = if decide ((i, t, x) = rkey r) then Some (stored r sec) else view (c_sets c) (i, t, x)) ->
  inv H n (c <| c_sets := ss |> <| c_pipe := pipe |> <| c_ans := c_ans c ++ (if need_core_rsp cfg r then [rsp_of r None] else []) |>
             <| c_pending := pe |> <| c_lines := lines |>).
Proof.
  intros Hi Ep Ha Hwr Hv Hpop Hss Hvw. destruct (head_acc H n c r pipe Hi Ep Ha) as [Hr Hk]. pose proof Hi as [? ? ? HE HPi HN HO HF HS HV HA HC].
  destruct (req_ok_facts H n r) as (i & q & Hin & Hq & Hs & Hkq & Hlq & Hw & Hda & Hbe & _ & Hwant & _ & Hrsp); [done..|]. rewrite Hw in Hwr.
  pose proof (removes_pop H n c r pipe i Hi Ep Ha Hs) as HR.
  assert (Hpi' : forall r', r' ∈ pipe -> r' ∈ c_pipe c) by (intros; rewrite Ep; by right).
  assert (Hvl : forall k, legal_key k -> view ss k = if decide (k = rkey r) then Some (stored r sec) else view (c_sets c) k).
  { intros [[j t] x] Hl. destruct (legal_nonneg _ _ _ Hl) as (? & _ & ?). by apply Hvw. }
  assert (Hok : sector_ok cfg p bank_id (mv c) (es c) (rkey r) sec).
  { destruct (rkey r) as [[j t] x]. destruct (legal_nonneg _ _ _ Hk) as (? & _ & ?). by apply HS. }
  destruct (stored_ok (mv c) (es c) (rkey r) sec r q Hok (length_mv _ _) Hda Hbe) as [Hok' Hval].
  constructor; unfold cval, P, es in *; rproj; try done.
  - intros r' Hr'. by apply HPi, Hpi'.
  - unfold P in HN. rewrite Ep, pend_pop, Ha in HN. by apply list.NoDup_cons in HN as [_ ?].
  - rewrite Ep in HO. by eapply order_pop.
  - rewrite Ep in HF. by eapply fills_pop.
  - intros j t x sec' Hj Hx Hs'. rewrite Hvw in Hs' by done. case_decide as D; [|by apply HS]. injection Hs' as <-. rewrite D. exact Hok'.
  - eapply (values_store cfg p bank_id m0 H n _ _ _ _ i q HV HR Hq); [lia|done|by rewrite <- Hkq| | |].
    + intros l q' Hl Hq' Hlp Hkk. pose proof (head_oldest H n c r pipe sec l q' Hi Ep Ha Hv Hq' Hlp ltac:(congruence)). lia.
    + unfold cur. rewrite <- Hkq. rewrite Hvl, Hv by done. by rewrite decide_True by done.
    + intros k Hkl Hne. unfold cur. rewrite Hvl by done. by rewrite decide_False by congruence.
  - rewrite Hwant. destruct (wants_rsp cfg q) eqn:Hwq; [|rewrite app_nil_r; by eapply answers_silent].
    rewrite Hrsp. assert (E : {| rs_tag := rq_tag q; rs_hart_id := rq_hart_id q; rs_uuid := rq_uuid q; rs_data := None |} = answer m0 H i q) by (unfold answer; by rewrite Hwr).
    rewrite E. by eapply answers_respond.
  - rewrite Ep in HC. by eapply counts_pop.
Qed.

(** ** Replays *)

Section DropEntry.
Context (l : list mshr_entry_t) (id : nat) (e e' : mshr_entry_t).
Hypothesis He : l !! id = Some e.
Hypothesis Le : live e = true.
Hypothesis Ne : me_type e = RReplay.
Hypothesis D' : live e' = false.

Lemma drop_elem x : live x = true -> x ∈ <[id := e']> l -> exists j, j <> id /\ l !! j = Some x.
Proof.
  intros Hx (j & Hj)%list_elem_of_lookup_1. exists j. destruct (decide (j = id)) as [->|Hne].
  - rewrite list_lookup_insert_eq in Hj by by eapply lookup_lt_Some. congruence.
  - by rewrite list_lookup_insert_ne in Hj by done.
Qed.

Lemma drop_lookup j x : l !! j = Some x -> me_type x = RCore -> <[id := e']> l !! j = Some x.
Proof. intros Hj Hx. rewrite list_lookup_insert_ne; [done|]. intros <-. congruence. Qed.

Lemma fills_drop m outq rsps pipe : fills_ok cfg p bank_id m l outq rsps pipe -> fills_ok cfg p bank_id m (<[id := e']> l) outq rsps pipe.
Proof.
  intros HF. pose proof HF as [F1 F2 F3 F4 F5 F6].
  assert (HT : forall t, t ∈ fill_tags outq rsps pipe -> tag_key (<[id := e']> l) t = tag_key l t).
  { intros t Ht. destruct (F1 t Ht) as (_ & x & Hx & Htx). unfold tag_key. by rewrite (drop_lookup _ x), Hx. }
  constructor; try done.
  - intros t Ht. destruct (F1 t Ht) as (? & x & Hx & Htx). split; [done|]. exists x. split; [|done]. by apply drop_lookup.
  - erewrite (map_ext_in _ (tag_key l)); [done|]. intros t Ht%list_elem_of_In. by apply HT.
  - intros x Hx Htx. apply drop_elem in Hx as (j & _ & Hj); [|auto]. apply list_elem_of_lookup_2 in Hj. destruct (F3 x Hj Htx) as (t & Ht & Hk). exists t. by rewrite HT.
  - intros l1 q l2 E Hq. destruct (F5 l1 q l2 E Hq) as (k & Hk & ?). exists k. rewrite HT; [done|]. subst outq. unfold fill_tags.
    apply elem_of_app. left. apply list_elem_of_fmap. exists q. split; [done|]. apply list_elem_of_filter. split; [done|]. set_solver.
  - intros r Hr. destruct (F6 r Hr) as (k & Hk & Hd). exists k. rewrite HT; [done|].
    unfold fill_tags. apply elem_of_app. right. apply elem_of_app. left. apply list_elem_of_fmap. by exists r.
Qed.

Lemma sectors_drop m vw : sectors_ok cfg p bank_id m l vw -> sectors_ok cfg p bank_id m (<[id := e']> l) vw.
Proof.
  intros HS i t x sec Hi Hx Hv. destruct (HS i t x sec Hi Hx Hv) as [S1 S2 S3 S4]. constructor; try done.
  intros y Hy Hty. apply drop_elem in Hy as (j & _ & Hj); [|auto]. apply S4; [by eapply list_elem_of_lookup_2|done].
Qed.

Lemma fill_drop m r : fill_ok p bank_id m l r -> fill_ok p bank_id m (<[id := e']> l) r.
Proof. intros (x & Hx & Htx & ?). exists x. split; [by apply drop_lookup|done]. Qed.

Lemma drop_count (Q : mshr_entry_t -> Prop) `{!forall e, Decision (Q e)} : Q e -> ~ Q e' ->
  Z.of_nat (length (filter Q (<[id := e']> l))) = Z.of_nat (length (filter Q l)) - 1.
Proof using He.
  intros Hq Hn. destruct (filter_insert Q l id e e' He) as [-> ->]. rewrite !length_app, !filter_cons, !filter_nil.
  rewrite (decide_True (P := Q e)), (decide_False (P := Q e')) by done. simpl. lia.
Qed.
End DropEntry.

Lemma nodup_filter_map {A B} (f : A -> B) (Q : A -> Prop) `{!forall x, Decision (Q x)} (l : list A) : forall i j x y,
  NoDup (map f (filter Q l)) -> l !! i = Some x -> l !! j = Some y -> Q x -> Q y -> f x = f y -> i = j.
Proof.
  induction l as [|z l IH]; intros i j x y Hn Hi Hj Qx Qy E; [done|]. rewrite filter_cons in Hn.
  assert (Hm : forall k w, l !! k = Some w -> Q w -> f w ∈ map f (filter Q l)).
  { intros k w Hk Qw. apply list_elem_of_fmap. exists w. split; [done|]. apply list_elem_of_filter. split; [done|]. by eapply list_elem_of_lookup_2. }
  destruct i as [|i], j as [|j]; simpl in Hi, Hj; [done|..].
  - injection Hi as ->. rewrite decide_True in Hn by done. apply list.NoDup_cons in Hn as [Hn _]. exfalso. apply Hn. rewrite E. by eapply Hm.
  - injection Hj as ->. rewrite decide_True in Hn by done. apply list.NoDup_cons in Hn as [Hn _]. exfalso. apply Hn. rewrite <- E. by eapply Hm.
  - f_equal. eapply IH; [|done..]. case_decide; [by apply list.NoDup_cons in Hn as [_ ?]|done].
Qed.

Lemma entry_seq_inj H n c i j e e' : inv H n c -> es c !! i = Some e -> es c !! j = Some e' -> live e = true -> live e' = true -> me_seq e = me_seq e' -> i = j.
Proof.
  intros Hi He He' L L' E. pose proof (i_nodup _ _ _ Hi) as HN. unfold P, pend in HN. apply list.NoDup_app in HN as (_ & _ & HN).
  eapply (nodup_filter_map me_seq (fun e => Is_true (live e))); [exact HN|done..| | |done]; by apply Is_true_true.
Qed.

(** The oldest ready entry. *)
Definition oldest_ready (c : core) (id : nat) (e : mshr_entry_t) : Prop :=
  es c !! id = Some e /\ me_type e = RReplay /\ forall e', e' ∈ es c -> me_type e' = RReplay -> me_seq e <= me_seq e'.

Lemma oldest_strict H n c id e j e' : inv H n c -> oldest_ready c id e -> es c !! j = Some e' -> me_type e' = RReplay -> j <> id -> me_seq e < me_seq e'.
Proof.
  intros Hi (He & Ht & Hmin) Hj Ht' Hne. pose proof (Hmin e' ltac:(by eapply list_elem_of_lookup_2) Ht'). assert (me_seq e <> me_seq e'); [|lia].
  intros E. apply Hne. symmetry. eapply entry_seq_inj; [done..| | |done]; auto.
Qed.

Definition dropped (c : core) (id : nat) (e : mshr_entry_t) (ms : MSHR) : Prop :=
  ms_entries ms = <[id := set_type RNone e]> (es c) /\ ms_size ms = ms_size (c_ms c) - 1 /\ ms_ready_reqs ms = ms_ready_reqs (c_ms c) - 1.

Lemma counts_drop H n c id e ms pe lines : inv H n c -> oldest_ready c id e -> dropped c id e ms -> counts_ok cfg p (c_ms c) (c_pipe c) pe lines ->
  counts_ok cfg p ms (c_pipe c) pe lines.
Proof.
  intros Hi (He & Ht & _) (E1 & E2 & E3) [C1 C2 C3 C4 C5]. unfold es in *. constructor; rewrite ?E1; try done.
  - by rewrite length_insert.
  - rewrite (drop_count _ id e); [lia|done|by rewrite replay_live|by intros []].
  - rewrite (drop_count _ id e); [lia|done|done|done].
Qed.

Lemma inv_push_replay H n c id e ms : inv H n c -> oldest_ready c id e -> dropped c id e ms ->
  (forall k, c_fwd c = Some k -> ekey e = k -> br_write (me_req e) = false) ->
  inv H n (c <| c_ms := ms |> <| c_pipe := c_pipe c ++ [me_req e] |>).
Proof.
  intros Hi Hold Hdr Hfw. pose proof Hi as [? ? ? HE HPi HN HO HF HS HV HA HC]. pose proof Hold as (He & Ht & Hmin). destruct Hdr as (E1 & E2 & E3).
  pose proof (list_elem_of_lookup_2 _ _ _ He) as Hin. assert (Le : live e = true) by auto. destruct (HE e Hin Le) as (Hr & Hs & Hk & Ha).
  assert (Htr : br_type (me_req e) = RReplay) by exact Ht. set (r := me_req e) in *. set (e' := set_type RNone e) in *. assert (D' : live e' = false) by done.
  assert (HP : Permutation (pend (<[id := e']> (es c)) (c_pipe c ++ [r])) (P c)).
  { rewrite pend_push, Ha, <- Hs. unfold P. by rewrite (pend_kill (es c) (c_pipe c) id e e'). }
  assert (DE : forall x, live x = true -> x ∈ <[id := e']> (es c) -> exists j, j <> id /\ es c !! j = Some x) by (intros; by eapply drop_elem).
  assert (DI : forall x, live x = true -> x ∈ <[id := e']> (es c) -> x ∈ es c) by (intros x Hx Hd; destruct (DE x Hx Hd) as (j & _ & Hj); by eapply list_elem_of_lookup_2).
  constructor; unfold cval, P, es in *; rproj; rewrite ?E1; try done.
  - intros x Hx. destruct (live x) eqn:Hl; [|intros E; congruence]. apply HE. by apply DI.
  - intros r' [Hr'| ->]%elem_snoc; [|by left]. destruct (HPi r' Hr') as [?|[? ?]]; [by left|right]. split; [done|]. by eapply fill_drop.
  - rewrite HP. done.
  - destruct HO as [O1 O2 O3 O4 O5 O6]. constructor.
    + intros i j r1 r2 Hij [[H1 _]|[-> ->]]%lookup_snoc_cases [[H2 ?]|[-> ->]]%lookup_snoc_cases A1 A2 K; [exact (O1 i j r1 r2 Hij H1 H2 A1 A2 K)| |lia|lia].
      apply list_elem_of_lookup_2 in H1. rewrite <- Hs.
      assert (Hty : br_type r1 = RCore \/ br_type r1 = RReplay) by (unfold is_acc, is_type in A1; destruct (br_type r1); simpl in A1; try done; auto).
      destruct Hty as [Hty|Hty]; [exfalso; eapply (O2 r1 e); try done; congruence|]. apply O5; try done. congruence.
    + intros r' x [Hr'| ->]%elem_snoc Ht' Hx Hxt; [|congruence]. eapply O2; [done..| |done]. apply DI; auto.
    + intros i r' x [[Hr' _]|[-> ->]]%lookup_snoc_cases Ht' Hx Hxt; [|congruence]. eapply O3; [done..| |done]. apply DI; auto.
    + intros i j r1 r2 Hij [[H1 _]|[-> ->]]%lookup_snoc_cases [[H2 ?]|[-> ->]]%lookup_snoc_cases T1 A2; [exact (O4 i j r1 r2 Hij H1 H2 T1 A2)| |lia|lia].
      rewrite <- Hk. by eapply O3.
    + intros r' x [Hr'| ->]%elem_snoc Ht' Hx Hxt Hkx; [apply O5; try done; apply DI; auto|]. destruct (DE x) as (j & Hj & Hx'); [auto|done|].
      rewrite <- Hs. by eapply (oldest_strict H n c id e j x).
    + intros k r' Hf [Hr'| ->]%elem_snoc Ht' Hkr; [by apply (O6 k)|]. apply (Hfw k); [done|]. congruence.
  - apply fills_drop with (e := e); try done. destruct HF as [F1 F2 F3 F4 F5 F6].
    assert (HT : fill_tags (c_out c) (c_rsps c) (c_pipe c ++ [r]) = fill_tags (c_out c) (c_rsps c) (c_pipe c)).
    { unfold fill_tags. rewrite list.filter_app, (filter_cons_False _ r), filter_nil, app_nil_r; [done|]. congruence. }
    constructor; rewrite ?HT; try done.
  - by eapply sectors_drop.
  - eapply values_same; [done|intros z; by rewrite HP|done].
  - eapply answers_same; [done|]. intros z. by rewrite HP.
  - assert (HC' : counts_ok cfg p ms (c_pipe c) (c_pending c) (c_lines c)) by (by eapply (counts_drop H n c id e)).
    destruct HC' as [C1 C2 C3 C4 C5]. assert (Ef : filter (fun r => br_type r = RCore) (c_pipe c ++ [r]) = filter (fun r => br_type r = RCore) (c_pipe c)).
    { rewrite list.filter_app, (filter_cons_False _ r), filter_nil, app_nil_r; [done|]. congruence. }
    constructor; rewrite ?Ef; try done.
Qed.

(** The oldest ready entry is a load on the armed block and is answered
    directly. *)
Lemma inv_forward H n c id e ms sec : inv H n c -> oldest_ready c id e -> dropped c id e ms -> c_fwd c = Some (ekey e) -> br_write (me_req e) = false ->
  view (c_sets c) (ekey e) = Some sec ->
  inv H n (c <| c_ms := ms |> <| c_ans := c_ans c ++ [rsp_of (me_req e) (sc_data sec)] |>).
Proof.
  intros Hi Hold Hdr Hfw Hwr Hv. pose proof Hi as [? ? ? HE HPi HN HO HF HS HV HA HC]. pose proof Hold as (He & Ht & Hmin). pose proof Hdr as (E1 & E2 & E3).
  pose proof (list_elem_of_lookup_2 _ _ _ He) as Hin. assert (Le : live e = true) by auto. destruct (HE e Hin Le) as (Hr & Hs & Hk & Ha).
  destruct (req_ok_facts H n (me_req e)) as (i & q & Hi' & Hq & Hsq & Hkq & Hlq & Hw & _ & _ & _ & Hwant & _ & Hrsp); [done..|]. rewrite Hw in Hwr.
  set (e' := set_type RNone e) in *. assert (D' : live e' = false) by done.
  assert (Hlk : legal_key (ekey e)) by (by eapply live_entry).
  assert (HR : removes (P c) i (pend (<[id := e']> (es c)) (c_pipe c))).
  { apply removes_perm; [done|]. rewrite <- Hsq, <- Hs. unfold P. by apply pend_kill. }
  assert (Hans : rsp_of (me_req e) (sc_data sec) = answer m0 H i q).
  { rewrite Hrsp. symmetry. eapply answer_now; [done|done|apply HR; by left|done|by rewrite <- Hkq, <- Hk|]. intros l q' Hl Hq' Hlp. unfold stores_to.
    case_bool_decide as D; [|by rewrite andb_false_r]. rewrite andb_true_r. destruct HO as [O1 O2 O3 O4 O5 O6].
    destruct (pend_cases H n c l q' Hi Hq' Hlp) as [(r & Hr' & Ha' & Hs' & Hk' & <-)|(x & Hx & Lx & Hsx & Hkx & <-)].
    - assert (Hty : br_type r = RCore \/ br_type r = RReplay) by (unfold is_acc, is_type in Ha'; destruct (br_type r); simpl in Ha'; try done; auto).
      destruct Hty as [Hty|Hty]; [exfalso; eapply (O2 r e); try done; congruence|]. eapply O6; [done..|]. congruence.
    - exfalso. destruct (live_acc H n c x Hi Hx Lx) as [Htx|Htx]; [by eapply view_idle; [exact Hi|exact Hlk|done|exact Hx|done|congruence]|].
      pose proof (Hmin x Hx Htx). lia. }
  assert (DI : forall x, live x = true -> x ∈ <[id := e']> (es c) -> x ∈ es c).
  { intros x Hx Hd. destruct (drop_elem (es c) id e e' He Le Ht D' x Hx Hd) as (j & _ & Hj). by eapply list_elem_of_lookup_2. }
  constructor; unfold cval, P, es in *; rproj; rewrite ?E1; try done.
  - intros x Hx. destruct (live x) eqn:Hl; [|intros E; congruence]. apply HE. by apply DI.
  - intros r' Hr'. destruct (HPi r' Hr') as [?|[? ?]]; [by left|right]. split; [done|]. by eapply fill_drop.
  - pose proof (pend_kill (ms_entries (c_ms c)) (c_pipe c) id e e' He Le D') as HK. rewrite HK in HN. by apply list.NoDup_cons in HN as [_ ?].
  - destruct HO as [O1 O2 O3 O4 O5 O6]. constructor; try done.
    + intros r x Hr' Htr Hx Htx. eapply O2; [done..| |done]. apply DI; auto.
    + intros j r x Hr' Htr Hx Htx. eapply O3; [done..| |done]. apply DI; auto.
    + intros r x Hr' Htr Hx Htx. apply O5; try done. apply DI; auto.
  - by eapply fills_drop.
  - by eapply sectors_drop.
  - by eapply values_load.
  - rewrite Hans. eapply answers_respond; [done..|]. unfold wants_rsp. by rewrite Hwr.
  - by eapply (counts_drop H n c id e).
Qed.

(** ** Fills *)

(** The response of a fill enters the pipeline while no replay is ready. *)
Lemma inv_push_fill H n c x rsps e r : inv H n c -> Permutation (c_rsps c) (x :: rsps) -> (forall e, e ∈ es c -> me_type e <> RReplay) ->
  es c !! Z.to_nat (rs_tag x) = Some e -> br_type r = RFill -> br_mshr_id r = Z.to_nat (rs_tag x) -> br_addr r = saddr (ekey e) -> br_data r = rs_data x ->
  inv H n (c <| c_pipe := c_pipe c ++ [r] |> <| c_rsps := rsps |>).
Proof.
  intros Hi HR Hno He Ht Hid Hadr Hdat. pose proof Hi as [? ? ? HE HPi HN HO HF HS HV HA HC]. pose proof HF as [F1 F2 F3 F4 F5 F6].
  assert (Nacc : is_acc r = false) by (unfold is_acc; by rewrite Ht).
  assert (Hx : x ∈ c_rsps c) by (rewrite HR; by left). destruct (F6 x Hx) as (k & Hk & Hd).
  assert (Htag : rs_tag x ∈ fill_tags (c_out c) (c_rsps c) (c_pipe c)).
  { unfold fill_tags. apply elem_of_app. right. apply elem_of_app. left. apply list_elem_of_fmap. by exists x. }
  destruct (F1 _ Htag) as (H0 & e1 & He1 & Hte). assert (e1 = e) as -> by congruence. unfold tag_key in Hk. rewrite He in Hk. injection Hk as <-.
  assert (HP : Permutation (pend (es c) (c_pipe c ++ [r])) (P c)) by (rewrite pend_push, Nacc; done).
  assert (HT : Permutation (fill_tags (c_out c) (c_rsps c) (c_pipe c)) (fill_tags (c_out c) rsps (c_pipe c ++ [r]))).
  { unfold fill_tags. rewrite HR, list.filter_app, (filter_cons_True _ r), filter_nil, map_app by done. simpl. rewrite Hid, Z2Nat.id by done.
    apply Permutation_app_head. rewrite app_assoc. symmetry. rewrite Permutation_app_comm. done. }
  constructor; unfold cval, P, es in *; rproj; try done.
  - intros r' [Hr'| ->]%elem_snoc; [by apply HPi|]. right. split; [done|]. exists e. rewrite Hid. split_and!; [done..|]. by rewrite Hdat, Hd.
  - by rewrite HP.
  - destruct HO as [O1 O2 O3 O4 O5 O6]. constructor.
    + intros i j r1 r2 Hij [[H1 _]|[-> ->]]%lookup_snoc_cases [[H2 ?]|[-> ->]]%lookup_snoc_cases A1 A2 K; [exact (O1 i j r1 r2 Hij H1 H2 A1 A2 K)|congruence|lia|lia].
    + intros r' y [Hr'| ->]%elem_snoc Ht' Hy Hyt; exfalso; by eapply Hno.
    + intros i r' y _ _ Hy Hyt. exfalso. by eapply Hno.
    + intros i j r1 r2 Hij [[H1 _]|[-> ->]]%lookup_snoc_cases [[H2 ?]|[-> ->]]%lookup_snoc_cases T1 A2; [exact (O4 i j r1 r2 Hij H1 H2 T1 A2)|congruence|lia|lia].
    + intros r' y _ _ Hy Hyt. exfalso. by eapply Hno.
    + intros k r' Hf [Hr'| ->]%elem_snoc Ht'; [by apply (O6 k)|congruence].
  - constructor; try done.
    + intros t Htt. rewrite <- HT in Htt. by apply F1.
    + by rewrite <- HT.
    + intros y Hy Hyt. destruct (F3 y Hy Hyt) as (t & ? & ?). exists t. by rewrite <- HT.
    + intros y Hy. apply F6. rewrite HR. by right.
  - eapply values_same; [done|intros z; by rewrite HP|done].
  - eapply answers_same; [done|]. intros z. by rewrite HP.
  - destruct HC as [C1 C2 C3 C4 C5]. assert (Ef : filter (fun r => br_type r = RCore) (c_pipe c ++ [r]) = filter (fun r => br_type r = RCore) (c_pipe c)).
    { rewrite list.filter_app, (filter_cons_False _ r), filter_nil, app_nil_r; [done|]. congruence. }
    constructor; rewrite ?Ef; try done.
Qed.

(** The entries of a block become ready. *)
Definition waits (k : key) (e : mshr_entry_t) : bool := is_type (me_type e) RCore && bool_decide (ekey e = k).
Definition mark (k : key) (e : mshr_entry_t) : mshr_entry_t := if waits k e then set_type RReplay e else e.

Lemma waits_spec k e : waits k e = true <-> me_type e = RCore /\ ekey e = k.
Proof. unfold waits, is_type. rewrite andb_true_iff, !bool_decide_eq_true. done. Qed.

Lemma mark_key k e : ekey (mark k e) = ekey e /\ me_seq (mark k e) = me_seq e /\ live (mark k e) = live e /\ br_adm_seq (me_req (mark k e)) = br_adm_seq (me_req e).
Proof.
  unfold mark. destruct (waits k e) eqn:E; [|done]. apply waits_spec in E as [Ht _]. split_and!; try done. by rewrite (core_live e Ht).
Qed.

Lemma mark_core k e : me_type (mark k e) = RCore -> mark k e = e /\ me_type e = RCore /\ ekey e <> k.
Proof.
  unfold mark. destruct (waits k e) eqn:E; [done|]. intros Ht. split_and!; [done..|]. intros Hk.
  assert (waits k e = true) by (by apply waits_spec). congruence.
Qed.

Lemma mark_replay k e : me_type (mark k e) = RReplay -> me_type e = RReplay \/ (me_type e = RCore /\ ekey e = k).
Proof. unfold mark. destruct (waits k e) eqn:E; [apply waits_spec in E; auto|auto]. Qed.

Lemma mark_elem k (l : list mshr_entry_t) x : x ∈ map (mark k) l -> exists e, e ∈ l /\ x = mark k e.
Proof. intros (e & -> & He)%list_elem_of_fmap. by exists e. Qed.

Lemma mark_ready k l : Z.of_nat (length (filter (fun e => me_type e = RReplay) (map (mark k) l))) =
  Z.of_nat (length (filter (fun e => me_type e = RReplay) l)) + Z.of_nat (length (filter (fun e => Is_true (waits k e)) l)).
Proof.
  induction l as [|e l IH]; [done|]. simpl. rewrite !filter_cons. destruct (waits k e) eqn:E.
  - pose proof E as [Ht _]%waits_spec. rewrite (decide_True (P := me_type (mark k e) = RReplay)) by (unfold mark; by rewrite E).
    rewrite (decide_False (P := me_type e = RReplay)) by congruence. rewrite (decide_True (P := Is_true true)) by done. simpl. lia.
  - rewrite (decide_False (P := Is_true false)) by auto. assert (Em : mark k e = e) by (unfold mark; by rewrite E). rewrite Em. case_decide; simpl; lia.
Qed.

Lemma mark_live k l : length (filter (fun e => Is_true (live e)) (map (mark k) l)) = length (filter (fun e => Is_true (live e)) l).
Proof.
  induction l as [|e l IH]; [done|]. simpl. rewrite !filter_cons. destruct (mark_key k e) as (_ & _ & HL & _). rewrite HL. case_decide; simpl; by rewrite IH.
Qed.

Lemma order_fill l r pipe fwd k : order_ok p l (r :: pipe) fwd -> br_type r = RFill -> rkey r = k ->
  (forall r', r' ∈ pipe -> br_type r' = RFill -> rkey r' <> k) -> order_ok p (map (mark k) l) pipe (Some k).
Proof.
  intros HO Ht Hk Hf. pose proof (order_pop _ _ _ _ HO) as [O1 O2 O3 O4 O5 O6].
  assert (HB : forall r', r' ∈ pipe -> is_acc r' = true -> rkey r' <> k).
  { intros r' (j & Hj)%list_elem_of_lookup_1 Ha. rewrite <- Hk. by apply (oo_behind _ _ _ _ HO 0 (S j)); [lia|..]. }
  constructor; try done.
  - intros r' x Hr' Ht' Hx Htx. apply mark_elem in Hx as (e & He & ->). destruct (mark_key k e) as (-> & _). destruct (mark_replay k e Htx) as [?|[_ ->]]; [by apply O2|].
    apply not_eq_sym, HB; auto.
  - intros i r' x Hr' Ht' Hx Htx. apply mark_elem in Hx as (e & He & ->). destruct (mark_key k e) as (-> & _). destruct (mark_replay k e Htx) as [?|[_ ->]]; [by eapply O3|].
    apply not_eq_sym, Hf; [by eapply list_elem_of_lookup_2|done].
  - intros r' x Hr' Ht' Hx Htx. apply mark_elem in Hx as (e & He & ->). destruct (mark_key k e) as (-> & -> & _). intros Hkx. destruct (mark_replay k e Htx) as [?|[_ Hke]]; [by apply O5|].
    exfalso. apply (HB r'); [done|auto|congruence].
  - intros k' r' [= <-] Hr' Ht' Hkr. exfalso. apply (HB r'); auto.
Qed.

Lemma fills_mark m l outq rsps r pipe k e : fills_ok cfg p bank_id m l outq rsps (r :: pipe) -> br_type r = RFill -> l !! br_mshr_id r = Some e -> ekey e = k ->
  fills_ok cfg p bank_id m (map (mark k) l) outq rsps pipe /\
  forall r' e', r' ∈ pipe -> br_type r' = RFill -> l !! br_mshr_id r' = Some e' -> ekey e' <> k.
Proof.
  intros HF Ht He Hk. pose proof HF as [F1 F2 F3 F4 F5 F6].
  assert (HT : Permutation (fill_tags outq rsps (r :: pipe)) (Z.of_nat (br_mshr_id r) :: fill_tags outq rsps pipe)).
  { unfold fill_tags. rewrite (filter_cons_True _ r) by done. simpl. rewrite app_assoc, <- Permutation_middle. by rewrite <- app_assoc. }
  assert (HK : forall t, tag_key (map (mark k) l) t = tag_key l t).
  { intros t. unfold tag_key. rewrite list_lookup_fmap. destruct (l !! Z.to_nat t) as [y|]; [|done]. simpl. f_equal. apply mark_key. }
  assert (Hr : tag_key l (Z.of_nat (br_mshr_id r)) = Some k) by (unfold tag_key; rewrite Nat2Z.id, He; simpl; by rewrite Hk).
  rewrite HT in F2. simpl in F2. rewrite Hr in F2. apply list.NoDup_cons in F2 as [F2n F2].
  assert (Hne : forall t, t ∈ fill_tags outq rsps pipe -> tag_key l t <> Some k).
  { intros t Hin E. apply F2n. apply list_elem_of_fmap. exists t. done. }
  split.
  - constructor; try done.
    + intros t Htt. destruct (F1 t) as (H0 & y & Hy & Hyt); [rewrite HT; by right|]. split; [done|]. exists y. split; [|done]. rewrite list_lookup_fmap, Hy. simpl. f_equal.
      unfold mark. destruct (waits k y) eqn:E; [|done]. apply waits_spec in E as [_ E]. exfalso. apply (Hne t Htt). unfold tag_key. by rewrite Hy, <- E.
    + by rewrite (map_ext _ (tag_key l)).
    + intros x Hx Htx. apply mark_elem in Hx as (y & Hy & ->). destruct (mark_core k y Htx) as (-> & Hyt & Hyk). destruct (F3 y Hy Hyt) as (t & Htt & Hkt).
      exists t. rewrite HK. split; [|done]. rewrite HT in Htt. apply elem_of_cons in Htt as [->|?]; [|done]. congruence.
    + intros l1 q l2 E Hq. destruct (F5 l1 q l2 E Hq) as (k' & ? & ?). exists k'. by rewrite HK.
    + intros y Hy. destruct (F6 y Hy) as (k' & ? & ?). exists k'. by rewrite HK.
  - intros r' e' Hr' Ht' He' Hk'. apply (Hne (Z.of_nat (br_mshr_id r'))).
    + unfold fill_tags. apply elem_of_app. right. apply elem_of_app. right. apply list_elem_of_fmap. exists r'. split; [done|]. by apply list_elem_of_filter.
    + unfold tag_key. rewrite Nat2Z.id, He'. simpl. congruence.
Qed.

(** A fill is installed. *)
Lemma inv_fill H n c r pipe ss ms e : inv H n c -> c_pipe c = r :: pipe -> br_type r = RFill -> es c !! br_mshr_id r = Some e -> sets_wf p ss ->
  ms_entries ms = map (mark (ekey e)) (es c) -> ms_size ms = ms_size (c_ms c) ->
  ms_ready_reqs ms = ms_ready_reqs (c_ms c) + Z.of_nat (length (filter (fun x => Is_true (waits (ekey e) x)) (es c))) ->
  (forall i t x, 0 <= i -> 0 <= x -> (i, t, x) <> ekey e -> view ss (i, t, x) = view (c_sets c) (i, t, x) \/
     (view ss (i, t, x) = None /\ exists sec, view (c_sets c) (i, t, x) = Some sec /\ sc_data sec = Some (mv c (i, t, x)))) ->
  view ss (ekey e) = Some {| sc_valid := true; sc_dirty := false; sc_dirty_mask := 0; sc_data := br_data r |} ->
  inv H n (c <| c_sets := ss |> <| c_ms := ms |> <| c_pipe := pipe |> <| c_fwd := Some (ekey e) |>).
Proof.
  intros Hi Ep Ht He Hss Ees Esz Erd Hvw Hvk. pose proof Hi as [? ? ? HE HPi HN HO HF HS HV HA HC]. set (k := ekey e) in *.
  assert (Hr : r ∈ c_pipe c) by (rewrite Ep; by left). assert (Nacc : is_acc r = false) by (unfold is_acc; by rewrite Ht).
  destruct (HPi r Hr) as [[? _]|(_ & e1 & He1 & Hte & Hadr & Hdat)]; [congruence|]. assert (e1 = e) as -> by congruence. fold k in Hadr, Hdat.
  pose proof (list_elem_of_lookup_2 _ _ _ He) as Hin. assert (Hlk : legal_key k) by (eapply live_entry; [done..|auto]).
  assert (Hrk : rkey r = k) by (unfold CacheInv.rkey; rewrite Hadr; by apply (key_saddr cfg p bank_id Hp Hc)).
  assert (Hpi' : forall r', r' ∈ pipe -> r' ∈ c_pipe c) by (intros; rewrite Ep; by right).
  assert (EP : pend (map (mark k) (es c)) pipe = P c) by (unfold P; rewrite Ep, pend_pop, Nacc; apply pend_mark; intros x; destruct (mark_key k x) as (_ & ? & ? & _); done).
  rewrite Ep in HF, HO, HC. destruct (fills_mark _ _ _ _ _ _ k e HF Ht He eq_refl) as [HF' Hother].
  assert (Hno : view (c_sets c) k = None).
  { destruct (view (c_sets c) k) as [sec|] eqn:E; [|done]. exfalso. by eapply (view_idle H n c k sec e). }
  constructor; unfold cval, P, es in *; rproj; rewrite ?Ees, ?EP; try done.
  - intros x Hx. apply mark_elem in Hx as (y & Hy & ->). intros Hl. destruct (mark_key k y) as (K1 & K2 & K3 & K4). rewrite K3 in Hl. destruct (HE y Hy Hl) as (Y1 & Y2 & Y3 & Y4).
    rewrite K1, K2, K4, Y3. unfold mark. destruct (waits k y); [|done]. split_and!; [by apply req_ok_type|done..].
  - intros r' Hr'. destruct (HPi r' (Hpi' r' Hr')) as [?|(Ht' & y & Hy & Hty & Ha & Hd)]; [by left|right]. split; [done|]. exists y. rewrite list_lookup_fmap, Hy. split_and!; try done.
    simpl. f_equal. unfold mark. destruct (waits k y) eqn:E; [|done]. apply waits_spec in E as [_ E]. exfalso. by eapply Hother.
  - eapply order_fill; [done..|]. intros r' Hr' Ht'. destruct (HPi r' (Hpi' r' Hr')) as [[Ha _]|(_ & y & Hy & Hty & Ha & _)]; [unfold is_acc in Ha; by rewrite Ht' in Ha|].
    unfold CacheInv.rkey. rewrite Ha, (key_saddr cfg p bank_id Hp Hc); [by eapply Hother|]. eapply live_entry; [exact Hi|by eapply list_elem_of_lookup_2|auto].
  - intros i t x sec Hi0 Hx Hv. assert (HI : forall y, y ∈ map (mark k) (ms_entries (c_ms c)) -> me_type y = RCore -> y ∈ ms_entries (c_ms c) /\ ekey y <> k).
    { intros y Hy Hty. apply mark_elem in Hy as (z & Hz & ->). destruct (mark_core k z Hty) as (-> & _ & ?). done. }
    destruct (decide ((i, t, x) = k)) as [Ek|Nk].
    + rewrite Ek in *. rewrite Hvk in Hv. injection Hv as <-. constructor; [done| |done|]; simpl.
      * exists (mv c k). split; [done|]. apply merge_same.
      * intros y Hy Hty. by apply HI.
    + destruct (Hvw i t x Hi0 Hx Nk) as [E|[E _]]; [|congruence]. rewrite E in Hv. destruct (HS i t x sec Hi0 Hx Hv) as [S1 S2 S3 S4]. constructor; try done.
      intros y Hy Hty. apply S4; [by apply HI|done].
  - eapply values_same; [done|done|]. intros k' Hk'. unfold cur. destruct (decide (k' = k)) as [->|Nk].
    + rewrite Hno, Hvk. simpl. rewrite Hdat. done.
    + destruct k' as [[i t] x]. destruct (legal_nonneg _ _ _ Hk') as (? & _ & ?). destruct (Hvw i t x) as [E|(E & sec & E1 & E2)]; [done..|by rewrite E|].
      rewrite E, E1, E2. done.
  - destruct HC as [C1 C2 C3 C4 C5]. unfold es in *. rewrite (filter_cons_False _ r) in C4, C5 by congruence. constructor; rewrite ?Ees; try done.
    + by rewrite length_map.
    + by rewrite mark_live, Esz.
    + rewrite mark_ready, Erd, C3. done.
Qed.
End Ops.
