(* ===== verification/CacheProofs.v ===== *)
(** * A write-back cache bank is transparent

    The handlers of [Cache] preserve the invariant of [CacheOps] and do not
    abort, except on one path that is characterised; so every response of the
    bank is the one the memory would give if it served the requests one by one
    in the order they arrived. *)

From S2P Require Import Prelude MemTypes Amo Cache CacheWorld CacheAddr CacheSets CacheInv CacheOps.

(** ** The operations of the MSHR *)

Lemma matches_spec i t x e : me_matches i t x e = true <-> ekey e = (i, t, x).
Proof.
  unfold me_matches, ekey. rewrite !andb_true_iff, !Z.eqb_eq. split; [intros [[-> ->] ->]; done|]. intros [= -> -> ->]. done.
Qed.

Lemma is_type_spec t u : is_type t u = true <-> t = u.
Proof. unfold is_type. by rewrite bool_decide_eq_true. Qed.

Lemma lookup_spec m i t x : mshr_lookup m i t x = true <-> exists e, e ∈ ms_entries m /\ live e = true /\ ekey e = (i, t, x).
Proof.
  unfold mshr_lookup. rewrite existsb_exists. split.
  - intros (e & He%list_elem_of_In & [H1 H2]%andb_true_iff). exists e. by rewrite <- matches_spec.
  - intros (e & He & Hl & Hk). exists e. split; [by apply list_elem_of_In|]. apply andb_true_iff. split; [done|]. by apply matches_spec.
Qed.

Lemma pending_spec m i t x ex : has_pending_fill m i t x ex = true <->
  exists j e, ms_entries m !! j = Some e /\ ex <> Some j /\ me_type e = RCore /\ ekey e = (i, t, x).
Proof.
  unfold has_pending_fill. rewrite existsb_exists. split.
  - intros ([j e] & Hj%list_elem_of_In & [[H1 H2]%andb_true_iff H3]%andb_true_iff). apply list_elem_of_lookup_1 in Hj as [k Hk].
    rewrite list_lookup_imap in Hk. destruct (ms_entries m !! k) as [y|] eqn:E; [|done]. simpl in Hk. injection Hk as -> ->.
    exists j, e. rewrite <- matches_spec, <- is_type_spec. split_and!; try done. by apply negb_true_iff, bool_decide_eq_false in H1.
  - intros (j & e & Hj & Hx & Ht & Hk). exists (j, e). split.
    + apply list_elem_of_In, (list_elem_of_lookup_2 _ j). rewrite list_lookup_imap, Hj. done.
    + rewrite !andb_true_iff, negb_true_iff, bool_decide_eq_false, is_type_spec, matches_spec. done.
Qed.

Lemma pending_all m i t x : has_pending_fill m i t x None = true <-> exists e, e ∈ ms_entries m /\ me_type e = RCore /\ ekey e = (i, t, x).
Proof.
  rewrite pending_spec. split; [intros (j & e & Hj & _ & ?); exists e; split; [by eapply list_elem_of_lookup_2|done]|].
  intros (e & (j & Hj)%list_elem_of_lookup_1 & ?). by exists j, e.
Qed.

Lemma pending_none m i t x : has_pending_fill m i t x None = false -> forall e, e ∈ ms_entries m -> me_type e = RCore -> ekey e <> (i, t, x).
Proof. intros H e He Ht Hk. assert (has_pending_fill m i t x None = true); [|congruence]. apply pending_all. by exists e. Qed.

Lemma next_ready_spec (l : list mshr_entry_t) : forall o acc,
  (forall j e, acc = Some (j, e) -> me_type e = RReplay) ->
  let res := fold_left next_ready (imap (fun j e => ((o + j)%nat, e)) l) acc in
  (res = None -> acc = None /\ forall e, e ∈ l -> me_type e <> RReplay) /\
  (forall j e, res = Some (j, e) -> me_type e = RReplay /\ (acc = Some (j, e) \/ ((o <= j)%nat /\ l !! (j - o)%nat = Some e)) /\
     (forall j' e', acc = Some (j', e') -> me_seq e <= me_seq e') /\ forall e', e' ∈ l -> me_type e' = RReplay -> me_seq e <= me_seq e').
Proof.
  induction l as [|x l IH]; intros o acc Hacc; simpl.
  - split; [intros; split; [done|]; intros e He; by apply not_elem_of_nil in He|]. intros j e ->. split_and!; [by eapply Hacc|by left| |].
    + intros ? ? [= <- <-]. lia.
    + intros e' He'. by apply not_elem_of_nil in He'.
  - assert (E : imap ((fun j e => ((o + j)%nat, e)) ∘ S) l = imap (fun j e => ((S o + j)%nat, e)) l) by (apply imap_ext; intros; simpl; f_equal; lia).
    rewrite E. set (acc' := next_ready acc ((o + 0)%nat, x)).
    assert (Ha : (is_type (me_type x) RReplay = false /\ acc' = acc) \/ (me_type x = RReplay /\ acc' = Some ((o + 0)%nat, x) /\ forall j e, acc = Some (j, e) -> me_seq x < me_seq e) \/
                 (exists j e, acc = Some (j, e) /\ acc' = acc /\ me_seq e <= me_seq x)).
    { unfold acc', next_ready. simpl. destruct (is_type (me_type x) RReplay) eqn:Et; [|by left]. apply is_type_spec in Et. right. destruct acc as [[j e]|]; [|left; done].
      simpl. destruct (Z.ltb_spec (me_seq x) (me_seq e)); [left; split_and!; [done..|]; intros ? ? [= <- <-]; done|right]. by exists j, e. }
    destruct (IH (S o) acc') as [I1 I2].
    { intros j e He. destruct Ha as [[_ Ha]|[(Ht & Ha & _)|(? & ? & _ & Ha & _)]]; rewrite Ha in He; [by eapply Hacc|by injection He as <- <-|by eapply Hacc]. }
    split.
    + intros Hn. destruct (I1 Hn) as [Hn' Hl]. destruct Ha as [[Hf Ha]|[(Ht & Ha & _)|(j & e & Hs & Ha & _)]]; [|congruence|congruence]. split; [congruence|].
      intros e [->|He]%elem_of_cons; [|by apply Hl]. intros Ht. by rewrite (proj2 (is_type_spec _ _) Ht) in Hf.
    + intros j e Hr. destruct (I2 j e Hr) as (Ht & Hin & Hmin & Hl). split; [done|]. split; [|split].
      * destruct Hin as [Hin|[Hj Hin]]; [|right; split; [lia|]; destruct (j - o)%nat as [|d] eqn:D; [lia|]; simpl; replace (j - S o)%nat with d in Hin by lia; done].
        destruct Ha as [[_ Ha]|[(_ & Ha & _)|(? & ? & _ & Ha & _)]]; rewrite Ha in Hin; [by left| |by left]. injection Hin as <- <-. right. split; [lia|]. by replace (o + 0 - o)%nat with 0%nat by lia.
      * intros j' e' Hj'. destruct Ha as [[_ Ha]|[(_ & Ha & Hlt)|(? & ? & _ & Ha & _)]]; [apply (Hmin j'); congruence| |apply (Hmin j'); congruence].
        pose proof (Hmin _ _ Ha). pose proof (Hlt _ _ Hj'). lia.
      * intros e' [->|He']%elem_of_cons Ht'; [|by apply Hl]. destruct Ha as [[Hf _]|[(_ & Ha & _)|(j' & e2 & Hs & Ha & Hle)]].
        -- by rewrite (proj2 (is_type_spec _ _) Ht') in Hf.
        -- by apply (Hmin _ _ Ha).
        -- pose proof (Hmin j' e2 ltac:(congruence)). lia.
Qed.

Lemma peek_spec m : match peek_next_replay m with
  | None => forall e, e ∈ ms_entries m -> me_type e <> RReplay
  | Some (id, e) => ms_entries m !! id = Some e /\ me_type e = RReplay /\ forall e', e' ∈ ms_entries m -> me_type e' = RReplay -> me_seq e <= me_seq e'
  end.
Proof.
  unfold peek_next_replay. destruct (next_ready_spec (ms_entries m) 0 None ltac:(done)) as [H1 H2]. change (imap pair (ms_entries m)) with (imap (fun j e => ((0 + j)%nat, e)) (ms_entries m)).
  destruct (fold_left _ _ _) as [[id e]|]; [|by apply H1]. destruct (H2 id e eq_refl) as (Ht & [?|[_ Hin]] & _ & Hl); [done|]. split_and!; [by rewrite Nat.sub_0_r in Hin|done..].
Qed.

(** ** The bank *)

Section Bank.
Context (cfg : Config) (p : params_t) (bank_id : Z) (ext_a : bool) (m0 : memory).
Hypothesis Hp : make_params cfg = Some p.
Hypothesis Hc : addr_config cfg.
Hypothesis Hwb : write_back cfg = true.
Hypothesis Hms : Z.of_nat (mshr_size cfg) < 2 ^ 16.
#[local] Set Default Proof Using "All".

Abbreviation key_of := (key_of p).
Abbreviation rkey := (rkey p).
Abbreviation qkey := (qkey p).
Abbreviation saddr := (saddr p bank_id).
Abbreviation legal_addr := (legal_addr cfg p bank_id).
Abbreviation legal_key := (legal_key cfg p bank_id).
Abbreviation legal_req := (legal_req cfg p bank_id).
Abbreviation inv := (inv cfg p bank_id m0).
Abbreviation new_entry := (new_entry p).

(** The surroundings of the bank: the memory, the reads it has captured and
    the responses taken by the core. *)
Record env := { en_mem : memory; en_reads : list MemRsp; en_log : list MemRsp }.

Definition pipe_of (b : CacheBank) : list bank_req_t := tf_q (pipe_req_ b) ++ tf_fly (pipe_req_ b).

Definition bcore (v : env) (b : CacheBank) : core := {|
  c_sets := sets_ b; c_ms := mshr_ b; c_pipe := pipe_of b; c_mem := en_mem v; c_out := ch_q (mem_req_out b);
  c_rsps := en_reads v ++ ch_q (mem_rsp_in b); c_ans := en_log v ++ ch_q (core_rsp_out b); c_pending := pending_mshr_size_ b;
  c_lines := pipe_core_lines_ b; c_fwd := if fwd_active_ b then Some (fwd_set_ b, fwd_tag_ b, fwd_sector_ b) else None |}.

Record bank_ok (v : env) (H : list MemReq) (n : nat) (b : CacheBank) : Prop := {
  bo_inv : inv H n (bcore v b);
  bo_seq : adm_seq_ctr_ b = Z.of_nat n;
  bo_in : ch_q (core_req_in b) = drop n H;
  bo_pipe : (length (pipe_of b) <= 2)%nat /\ tf_capacity (pipe_req_ b) = 2%nat
}.

(** The requests in the bank. *)
Definition outstanding (b : CacheBank) : Z :=
  ms_size (mshr_ b) + Z.of_nat (length (filter (fun r => Is_true (is_acc r)) (pipe_of b))) + Z.of_nat (length (ch_q (core_req_in b))).

Lemma size_bounds H n c : inv H n c -> 0 <= ms_ready_reqs (c_ms c) /\ 0 <= ms_size (c_ms c) <= ms_capacity (c_ms c) /\ ms_capacity (c_ms c) = Z.of_nat (mshr_size cfg) /\
  ms_ready_reqs (c_ms c) <= ms_size (c_ms c).
Proof.
  intros Hi. destruct (i_counts _ _ _ _ _ _ _ Hi) as [C1 C2 C3 _ _]. unfold ms_capacity. rewrite C1, C2, C3.
  assert (L1 : (length (filter (fun e => Is_true (live e)) (ms_entries (c_ms c))) <= length (ms_entries (c_ms c)))%nat) by apply length_filter.
  assert (L2 : (length (filter (fun e => me_type e = RReplay) (ms_entries (c_ms c))) <= length (filter (fun e => Is_true (live e)) (ms_entries (c_ms c))))%nat).
  { generalize (ms_entries (c_ms c)). intros l. induction l as [|e l IH]; [done|]. rewrite !filter_cons. destruct (decide (me_type e = RReplay)) as [Ht|_].
    - rewrite decide_True by (by rewrite (replay_live cfg p bank_id m0 Hp Hc e Ht)). simpl. lia.
    - case_decide; simpl; lia. }
  lia.
Qed.

Lemma ms_full_ok H n c : inv H n c -> ms_full (c_ms c) = Some (ms_size (c_ms c) =? ms_capacity (c_ms c)).
Proof. intros Hi. destruct (size_bounds H n c Hi) as (_ & [_ ?] & _). unfold ms_full. destruct (Z.leb_spec (ms_size (c_ms c)) (ms_capacity (c_ms c))); [done|lia]. Qed.

Lemma enqueue_ok H n c r : inv H n c -> ms_size (c_ms c) < ms_capacity (c_ms c) -> br_type r = RCore ->
  exists ms id e0, mshr_enqueue (c_ms c) r (addr_set_id p (br_addr r)) (addr_tag p (br_addr r)) (addr_sector_id p (br_addr r)) = Some (ms, id) /\
    es c !! id = Some e0 /\ live e0 = false /\ ms_entries ms = <[id := new_entry r]> (es c) /\ ms_size ms = ms_size (c_ms c) + 1 /\
    ms_ready_reqs ms = ms_ready_reqs (c_ms c).
Proof.
  intros Hi Hlt Ht. destruct (size_bounds H n c Hi) as (_ & [H0 _] & Hcap & _). destruct (i_counts _ _ _ _ _ _ _ Hi) as [C1 C2 _ _ _].
  unfold mshr_enqueue. rewrite (proj2 (is_type_spec _ _) Ht). destruct (list_find (fun e => me_type e = RNone) (ms_entries (c_ms c))) as [[id e0]|] eqn:E.
  - apply list_find_Some in E as (He & Hd & _). simpl. eexists _, id, e0. split; [reflexivity|]. split_and!; try done.
    + unfold live. by rewrite Hd.
    + rproj. apply wrap_small. unfold in_u. lia.
  - exfalso. apply list_find_None in E. assert (Hf : filter (fun e => Is_true (live e)) (ms_entries (c_ms c)) = ms_entries (c_ms c)).
    { clear -E. induction E as [|e l He E IH]; [done|]. rewrite filter_cons_True; [by rewrite IH|]. unfold live, is_type. by rewrite bool_decide_eq_false_2. }
    rewrite Hf in C2. unfold ms_capacity in *. lia.
Qed.

Lemma dequeue_ok H n c : inv H n c -> has_ready_reqs (c_ms c) = true ->
  exists ms id e, mshr_dequeue (c_ms c) = Some (ms, me_req e) /\ oldest_ready c id e /\ dropped c id e ms /\ peek_next_replay (c_ms c) = Some (id, e).
Proof.
  intros Hi Hr. destruct (size_bounds H n c Hi) as (R0 & [S0 S1] & Hcap & HR). destruct (i_counts _ _ _ _ _ _ _ Hi) as [C1 C2 C3 _ _].
  unfold has_ready_reqs in Hr. bool_hyps. unfold mshr_dequeue. destruct (Z.ltb_spec 0 (ms_ready_reqs (c_ms c))); [|lia]. pose proof (peek_spec (c_ms c)) as Hpk.
  destruct (peek_next_replay (c_ms c)) as [[id e]|].
  - simpl. eexists _, id, e. split; [reflexivity|]. split; [exact Hpk|]. split; [|done]. unfold dropped. rproj. split_and!; [done|..]; apply wrap_small; unfold in_u; lia.
  - exfalso. assert (Hf : filter (fun e => me_type e = RReplay) (ms_entries (c_ms c)) = []); [|rewrite Hf in C3; simpl in C3; lia].
    clear -Hpk. apply elem_of_nil_inv. intros y [? Hy]%list_elem_of_filter. by eapply Hpk.
Qed.

Lemma no_ready H n c : inv H n c -> has_ready_reqs (c_ms c) = false -> forall e, e ∈ es c -> me_type e <> RReplay.
Proof.
  intros Hi Hr e He Ht. destruct (i_counts _ _ _ _ _ _ _ Hi) as [_ _ C3 _ _]. unfold has_ready_reqs in Hr. bool_hyps. rewrite Hr in C3.
  assert (Hin : e ∈ filter (fun e => me_type e = RReplay) (es c)) by (apply list_elem_of_filter; done). unfold es in Hin.
  destruct (filter _ _); [by apply not_elem_of_nil in Hin|]. simpl in C3. lia.
Qed.

Lemma replay_ok H n c id e : inv H n c -> es c !! id = Some e -> me_type e = RCore ->
  exists ms, mshr_replay (c_ms c) id = Some ms /\ ms_entries ms = map (mark (ekey e)) (es c) /\ ms_size ms = ms_size (c_ms c) /\
    ms_ready_reqs ms = ms_ready_reqs (c_ms c) + Z.of_nat (length (filter (fun x => Is_true (waits (ekey e) x)) (es c))).
Proof.
  intros Hi He Ht. destruct (size_bounds H n c Hi) as (R0 & [S0 S1] & Hcap & HR). destruct (i_counts _ _ _ _ _ _ _ Hi) as [C1 C2 C3 _ _]. unfold es in *.
  unfold mshr_replay. rewrite He. simpl. rewrite (proj2 (is_type_spec _ _) Ht).
  assert (Hw : forall x, is_type (me_type x) RCore && me_matches (me_set_id e) (me_addr_tag e) (me_sector_id e) x = waits (ekey e) x).
  { intros x. unfold waits. f_equal. apply eq_true_iff_eq. rewrite matches_spec, bool_decide_eq_true. done. }
  eexists. split; [reflexivity|]. rproj. split_and!.
  - apply map_ext. intros x. unfold mark. by rewrite <- Hw.
  - done.
  - rewrite wrap_small.
    + f_equal. f_equal. f_equal. apply list_filter_iff. intros x. by rewrite Hw.
    + unfold in_u. assert ((length (filter (fun x => Is_true (is_type (me_type x) RCore && me_matches (me_set_id e) (me_addr_tag e) (me_sector_id e) x)) (ms_entries (c_ms c))) <= length (ms_entries (c_ms c)))%nat) by apply length_filter.
      unfold ms_capacity in *. lia.
Qed.

(** ** Lookups in the sets *)

Lemma set_at H n c a : inv H n c -> legal_addr a -> exists s, c_sets c !! Z.to_nat (addr_set_id p a) = Some s /\ set_wf (ways p) (secs p) s.
Proof.
  intros Hi Ha. pose proof (set_in_range cfg p bank_id Hp Hc a Ha) as Hr. pose proof (i_sets _ _ _ _ _ _ _ Hi) as [Hl Hs].
  destruct (lookup_lt_is_Some_2 (c_sets c) (Z.to_nat (addr_set_id p a))) as [s E]; [lia|]. exists s. split; [done|]. by eapply Hs.
Qed.

Lemma hit_spec v H n b a : inv H n (bcore v b) -> legal_addr a ->
  exists s, sets_ b !! Z.to_nat (addr_set_id p a) = Some s /\ set_wf (ways p) (secs p) s /\
   ((sector_hit cfg b s (addr_tag p a) (addr_sector_id p a) = Some None /\ view (sets_ b) (key_of a) = None) \/
    exists way l sec, sector_hit cfg b s (addr_tag p a) (addr_sector_id p a) = Some (Some way) /\ st_lines s !! way = Some l /\ ln_tag l = addr_tag p a /\
      vsec l (addr_sector_id p a) = Some sec /\ sector_at s way (addr_sector_id p a) = Some sec /\ view (sets_ b) (key_of a) = Some sec).
Proof.
  intros Hi Ha. destruct (set_at H n (bcore v b) a Hi Ha) as (s & Hs & Hw). simpl in Hs. exists s. split; [done|]. split; [done|].
  pose proof (sector_in_range cfg p bank_id Hp Hc a Ha) as Hx. unfold sector_hit, view, CacheAddr.key_of. rewrite (tag_match_resident s) by done. rewrite Hs. simpl. unfold sview.
  destruct (find_resident s (addr_tag p a)) as [way|] eqn:E; [|by left]. pose proof E as (l & Hl & V & T & _)%resident_spec. simpl. rewrite Hl. simpl.
  unfold sector_at. rewrite Hl. simpl. pose proof (sw_secs _ _ _ Hw _ _ Hl) as Hlen. unfold secs in Hlen.
  destruct (lookup_lt_is_Some_2 (ln_sectors l) (Z.to_nat (addr_sector_id p a))) as [sec Hsec]; [lia|]. rewrite Hsec. simpl. unfold vsec. rewrite Hsec. simpl.
  destruct (sc_valid sec) eqn:Vs; [right|by left]. exists way, l, sec. rewrite Hl, Hsec. simpl. by rewrite Hsec, Vs.
Qed.

Lemma touch_ok b i hit s : sets_wf p (sets_ b) -> sets_ b !! Z.to_nat i = Some s -> 0 <= i ->
  exists ss, touch_lru cfg b i hit = Some (b <| sets_ := ss |>) /\ sets_wf p ss /\ forall j t x, 0 <= j -> 0 <= x -> view ss (j, t, x) = view (sets_ b) (j, t, x).
Proof.
  intros Hw Hs H0. unfold touch_lru. assert (Eb : b = b <| sets_ := sets_ b |>) by (by destruct b). destruct (repl_policy cfg).
  - exists (sets_ b). by rewrite Eb at 1.
  - exists (sets_ b). by rewrite Eb at 1.
  - rewrite Hs. simpl. eexists. split; [reflexivity|]. destruct (update_lru_view s hit (ssw_set _ _ Hw _ _ Hs)) as [W1 W2]. split; [by eapply sets_put|].
    intros j t x Hj Hx. rewrite (view_put (sets_ b) i s) by done. destruct (Z.eqb_spec j i) as [->|]; [|done]. rewrite W2. unfold view. by rewrite Hs.
Qed.

Lemma retire_ok ms b r q : tf_q (pipe_req_ b) = r :: q -> br_type r = RCore -> counts_ok cfg p ms (pipe_of b) (pending_mshr_size_ b) (pipe_core_lines_ b) -> (length (pipe_of b) <= 2)%nat ->
  exists pe lines, retire_core b (addr_set_id p (br_addr r)) (addr_tag p (br_addr r)) =
    Some (b <| pending_mshr_size_ := pe |> <| pipe_core_lines_ := lines |> <| pipe_req_ := tf_pop (pipe_req_ b) |>) /\
    popped p r (pending_mshr_size_ b) pe (pipe_core_lines_ b) lines.
Proof.
  intros Eq Ht [_ _ _ C4 C5] Hlen. unfold retire_core, pipeLineErase, popped. rproj.
  assert (Hl : length (filter (fun r => br_type r = RCore) (pipe_of b)) = S (length (filter (fun r => br_type r = RCore) (q ++ tf_fly (pipe_req_ b))))).
  { unfold pipe_of. rewrite Eq. simpl. by rewrite filter_cons_True. }
  assert (Hin : (addr_set_id p (br_addr r), addr_tag p (br_addr r)) ∈ pipe_core_lines_ b).
  { rewrite C5. apply list_elem_of_fmap. exists r. split; [done|]. apply list_elem_of_filter. split; [done|]. unfold pipe_of. rewrite Eq. by left. }
  destruct (list_find _ _) as [[i y]|] eqn:E.
  - apply list_find_Some in E as (Hi & -> & _). simpl. eexists _, _. split; [reflexivity|]. rewrite decide_True by done. split.
    + apply wrap_small. unfold in_u. assert (length (filter (fun r => br_type r = RCore) (pipe_of b)) <= length (pipe_of b))%nat by apply length_filter. lia.
    + rewrite delete_take_drop. rewrite <- (take_drop_middle _ _ _ Hi) at 1. symmetry. apply Permutation_middle.
  - exfalso. apply list_find_None in E. rewrite list.Forall_forall in E. by eapply E.
Qed.

Lemma core_ext c c' : c_sets c = c_sets c' -> c_ms c = c_ms c' -> c_pipe c = c_pipe c' -> c_mem c = c_mem c' -> c_out c = c_out c' -> c_rsps c = c_rsps c' ->
  c_ans c = c_ans c' -> c_pending c = c_pending c' -> c_lines c = c_lines c' -> c_fwd c = c_fwd c' -> c = c'.
Proof using Type. destruct c, c'. simpl. by intros -> -> -> -> -> -> -> -> -> ->. Qed.

(** The invariant of a bank follows from the invariant of the same parts. *)
Lemma bank_ok_of v H n b c : inv H n c -> bcore v b = c -> adm_seq_ctr_ b = Z.of_nat n -> ch_q (core_req_in b) = drop n H ->
  (length (pipe_of b) <= 2)%nat /\ tf_capacity (pipe_req_ b) = 2%nat -> bank_ok v H n b.
Proof. intros Hi E Hs Hr Hq. constructor; [by rewrite E|done..]. Qed.

(** What a handler does: it keeps the invariant and admits nothing on its own;
    it aborts only when the bank holds more requests than the MSHR has
    entries. *)
Definition step_ok (v : env) (H : list MemReq) (b : CacheBank) (o : option CacheBank) : Prop :=
  match o with
  | Some b' => (exists n, bank_ok v H n b') /\ outstanding b' <= outstanding b
  | None => Z.of_nat (mshr_size cfg) < outstanding b
  end.

Lemma step_same v H n b : bank_ok v H n b -> step_ok v H b (Some b).
Proof using Type. intros Hb. split; [by exists n|done]. Qed.

Lemma step_bind v H b o f : step_ok v H b o -> (forall n b', bank_ok v H n b' -> step_ok v H b' (f b')) -> step_ok v H b (b' ← o; f b').
Proof using Type.
  intros Ho Hf. destruct o as [b'|]; [|done]. destruct Ho as [[n Hn] Hle]. specialize (Hf n b' Hn). simpl. unfold step_ok in *.
  destruct (f b') as [b2|]; [|lia]. destruct Hf. split; [done|lia].
Qed.

Lemma inv_eq H n c c' : inv H n c -> c = c' -> inv H n c'.
Proof using Type. by intros ? <-. Qed.

(** The head of the pipeline leaves. *)
Lemma step_pop v H n b b' r q : bank_ok v H n b -> tf_q (pipe_req_ b) = r :: q -> inv H n (bcore v b') ->
  adm_seq_ctr_ b' = adm_seq_ctr_ b -> core_req_in b' = core_req_in b -> pipe_req_ b' = tf_pop (pipe_req_ b) ->
  ms_size (mshr_ b') <= ms_size (mshr_ b) + (if is_acc r then 1 else 0) -> step_ok v H b (Some b').
Proof.
  intros [Hi Hs Hin [Hl Hcap]] Eq Hi' E1 E2 E3 Hsz. split.
  - exists n. constructor; [done|congruence|congruence|]. unfold pipe_of in *. rewrite E3. simpl. rewrite Eq in *. simpl in *. split; [lia|done].
  - unfold outstanding, pipe_of. rewrite E2, E3. simpl. rewrite Eq. simpl. rewrite filter_cons. destruct (is_acc r).
    + rewrite decide_True by done. simpl. lia.
    + rewrite decide_False by auto. lia.
Qed.

(** The pipeline head, as the handlers see it. *)
Lemma head_facts v H n b r q : bank_ok v H n b -> tf_q (pipe_req_ b) = r :: q -> is_acc r = true ->
  legal_addr (br_addr r) /\ memop_is_atomic (br_op r) = false /\ br_skip_core_rsp r = false /\ c_pipe (bcore v b) = r :: (q ++ tf_fly (pipe_req_ b)).
Proof.
  intros [Hi _ _ _] Eq Ha. assert (Ep : c_pipe (bcore v b) = r :: (q ++ tf_fly (pipe_req_ b))) by (simpl; unfold pipe_of; by rewrite Eq).
  destruct (head_acc cfg p bank_id m0 Hp Hc H n (bcore v b) r _ Hi Ep Ha) as [Hr _].
  pose proof Hr as (j & q1 & Hj & Hq1 & E). destruct (req_ok_facts cfg p bank_id m0 Hp Hc H n r (i_legal _ _ _ _ _ _ _ Hi) Hr Ha) as (i & q0 & _ & _ & _ & _ & [Hop _] & _ & _ & _ & Hsk & _ & Hbo & _).
  assert (Hl : legal_req q1). { pose proof (i_legal _ _ _ _ _ _ _ Hi) as HL. rewrite list.Forall_forall in HL. apply HL. by eapply list_elem_of_lookup_2. }
  split_and!; [rewrite E; apply Hl| |done|done]. rewrite Hbo. by destruct Hop as [-> | ->].
Qed.

(** What the retirement of a load or a store leaves alone. *)
Record retired (r : bank_req_t) (b b' : CacheBank) : Prop := {
  re_rsp : mem_rsp_in b' = mem_rsp_in b;
  re_req : core_req_in b' = core_req_in b;
  re_seq : adm_seq_ctr_ b' = adm_seq_ctr_ b;
  re_fwd : (fwd_active_ b', fwd_set_ b', fwd_tag_ b', fwd_sector_ b') = (fwd_active_ b, fwd_set_ b, fwd_tag_ b, fwd_sector_ b);
  re_pipe : pipe_req_ b' = tf_pop (pipe_req_ b);
  re_pop : popped p r (pending_mshr_size_ b) (pending_mshr_size_ b') (pipe_core_lines_ b) (pipe_core_lines_ b')
}.

Definition same_view (ss ss' : list set_t) : Prop := forall j t x, 0 <= j -> 0 <= x -> view ss' (j, t, x) = view ss (j, t, x).

Lemma commit_load v H n b b' r q sec : bank_ok v H n b -> tf_q (pipe_req_ b) = r :: q -> is_acc r = true -> br_write r = false ->
  view (sets_ b) (rkey r) = Some sec -> retired r b b' -> mshr_ b' = mshr_ b -> mem_req_out b' = mem_req_out b ->
  ch_q (core_rsp_out b') = ch_q (core_rsp_out b) ++ [rsp_of r (sc_data sec)] -> sets_wf p (sets_ b') -> same_view (sets_ b) (sets_ b') ->
  step_ok v H b (Some b').
Proof.
  intros Hb Eq Ha Hw Hv [R1 R2 R3 [= R4 R5 R6 R7] R8 R9] E1 E2 E3 Hss Hsv. pose proof (bo_inv _ _ _ _ Hb) as Hi.
  destruct (head_facts v H n b r q Hb Eq Ha) as (_ & _ & _ & Ep). eapply step_pop; try done.
  - eapply inv_eq; [eapply inv_same_view; [done..|eapply (inv_commit_load cfg p bank_id m0 Hp Hc H n (bcore v b) r _ sec); try done|exact Hss|exact Hsv]|].
    apply core_ext; rproj; try congruence.
    + unfold pipe_of. rewrite R8. simpl. by rewrite Eq.
    + by rewrite E3, app_assoc.
    + by rewrite R4, R5, R6, R7.
  - rewrite E1. destruct (is_acc r); lia.
Qed.

Lemma commit_store v H n b b' r q sec : bank_ok v H n b -> tf_q (pipe_req_ b) = r :: q -> is_acc r = true -> br_write r = true ->
  view (sets_ b) (rkey r) = Some sec -> retired r b b' -> mshr_ b' = mshr_ b -> mem_req_out b' = mem_req_out b ->
  ch_q (core_rsp_out b') = ch_q (core_rsp_out b) ++ (if need_core_rsp cfg r then [rsp_of r None] else []) -> sets_wf p (sets_ b') ->
  (forall i t x, 0 <= i -> 0 <= x -> view (sets_ b') (i, t, x) = if decide ((i, t, x) = rkey r) then Some (stored r sec) else view (sets_ b) (i, t, x)) ->
  step_ok v H b (Some b').
Proof.
  intros Hb Eq Ha Hw Hv [R1 R2 R3 [= R4 R5 R6 R7] R8 R9] E1 E2 E3 Hss Hsv. pose proof (bo_inv _ _ _ _ Hb) as Hi.
  destruct (head_facts v H n b r q Hb Eq Ha) as (_ & _ & _ & Ep). eapply step_pop; try done.
  - eapply inv_eq; [eapply (inv_commit_store cfg p bank_id m0 Hp Hc H n (bcore v b) r _ (sets_ b') sec); try done|].
    apply core_ext; rproj; try congruence.
    + unfold pipe_of. rewrite R8. simpl. by rewrite Eq.
    + by rewrite E3, app_assoc.
    + by rewrite R4, R5, R6, R7.
  - rewrite E1. destruct (is_acc r); lia.
Qed.

Lemma stored_valid r sec : sc_valid (stored r sec) = sc_valid sec.
Proof using Type. done. Qed.

(** The sets after a store. *)
Lemma store_sets ss r s way l sec : sets_wf p ss -> legal_addr (br_addr r) -> ss !! Z.to_nat (addr_set_id p (br_addr r)) = Some s ->
  st_lines s !! way = Some l -> ln_tag l = addr_tag p (br_addr r) -> vsec l (addr_sector_id p (br_addr r)) = Some sec ->
  let ss' := <[Z.to_nat (addr_set_id p (br_addr r)) := put_sector s way (addr_sector_id p (br_addr r)) (stored r sec)]> ss in
  sets_wf p ss' /\
  forall i t x, 0 <= i -> 0 <= x -> view ss' (i, t, x) = if decide ((i, t, x) = rkey r) then Some (stored r sec) else view ss (i, t, x).
Proof.
  intros Hw Ha Hs Hl Ht Hv. pose proof (set_in_range cfg p bank_id Hp Hc _ Ha) as Hr. pose proof (sector_in_range cfg p bank_id Hp Hc _ Ha) as Hx.
  destruct (vsec_valid _ _ _ Hv) as (_ & V & _).
  destruct (put_sector_view s way l (addr_sector_id p (br_addr r)) sec (stored r sec) _ (ssw_set _ _ Hw _ _ Hs) Hl Ht ltac:(lia) Hv V) as [W1 W2].
  split; [by eapply sets_put|]. intros i t x Hi0 Hx0. rewrite (view_put _ _ s) by (done || lia). unfold CacheInv.rkey, CacheAddr.key_of.
  destruct (Z.eqb_spec i (addr_set_id p (br_addr r))) as [->|Hne]; [|rewrite decide_False; [done|congruence]].
  rewrite W2 by done. case_decide as D.
  - injection D as -> ->. by rewrite !Z.eqb_refl.
  - destruct (Z.eqb_spec t (addr_tag p (br_addr r))), (Z.eqb_spec x (addr_sector_id p (br_addr r))); simpl; try (unfold view; by rewrite Hs). congruence.
Qed.

(** The end of the handling of a core request. *)
Lemma retire_tail v H n b b1 r q hit : bank_ok v H n b -> tf_q (pipe_req_ b) = r :: q -> br_type r = RCore ->
  pipe_req_ b1 = pipe_req_ b -> pending_mshr_size_ b1 = pending_mshr_size_ b -> pipe_core_lines_ b1 = pipe_core_lines_ b -> sets_wf p (sets_ b1) ->
  exists ss pe lines,
    (b ← touch_lru cfg b1 (addr_set_id p (br_addr r)) hit; retire_core b (addr_set_id p (br_addr r)) (addr_tag p (br_addr r))) =
      Some (b1 <| sets_ := ss |> <| pending_mshr_size_ := pe |> <| pipe_core_lines_ := lines |> <| pipe_req_ := tf_pop (pipe_req_ b1) |>) /\
    sets_wf p ss /\ same_view (sets_ b1) ss /\ popped p r (pending_mshr_size_ b) pe (pipe_core_lines_ b) lines.
Proof.
  intros Hb Eq Ht E1 E2 E3 Hw. pose proof (core_acc cfg p bank_id m0 Hp Hc r Ht) as Ha. pose proof (bo_inv _ _ _ _ Hb) as Hi.
  destruct (head_facts v H n b r q Hb Eq Ha) as (Hla & _). pose proof (set_in_range cfg p bank_id Hp Hc _ Hla) as Hr.
  destruct (lookup_lt_is_Some_2 (sets_ b1) (Z.to_nat (addr_set_id p (br_addr r)))) as [s Hs]; [rewrite (ssw_len _ _ Hw); lia|].
  destruct (touch_ok b1 (addr_set_id p (br_addr r)) hit s Hw Hs ltac:(lia)) as (ss & Et & Ws & Vs). rewrite Et. simpl.
  destruct (retire_ok (mshr_ b) (b1 <| sets_ := ss |>) r q) as (pe & lines & Er & Hpop).
  - simpl. unfold const. by rewrite E1.
  - done.
  - unfold pipe_of. simpl. unfold const. rewrite E1, E2, E3. apply (i_counts _ _ _ _ _ _ _ Hi).
  - unfold pipe_of. simpl. unfold const. rewrite E1. apply (bo_pipe _ _ _ _ Hb).
  - exists ss, pe, lines. rewrite Er. split_and!; try done. simpl in Hpop. unfold const in Hpop. by rewrite <- E2, <- E3.
Qed.

Lemma lookup_idle v H n b r q sec : bank_ok v H n b -> tf_q (pipe_req_ b) = r :: q -> br_type r = RCore -> view (sets_ b) (rkey r) = Some sec ->
  mshr_lookup (mshr_ b) (addr_set_id p (br_addr r)) (addr_tag p (br_addr r)) (addr_sector_id p (br_addr r)) = false.
Proof.
  intros Hb Eq Ht Hv. pose proof (bo_inv _ _ _ _ Hb) as Hi. destruct (head_facts v H n b r q Hb Eq (core_acc cfg p bank_id m0 Hp Hc r Ht)) as (Hl & _ & _ & Ep).
  apply not_true_iff_false. intros (e & He & Le & Hk)%lookup_spec. destruct (live_acc cfg p bank_id m0 Hp Hc H n (bcore v b) e Hi He Le) as [Hte|Hte].
  - eapply (view_idle cfg p bank_id m0 Hp Hc H n (bcore v b) (rkey r) sec e); try done. by exists (br_addr r).
  - apply (oo_core _ _ _ _ (i_order _ _ _ _ _ _ _ Hi) r e); try done. rewrite Ep. by left.
Qed.

Lemma send_rsp b r : ch_full (core_rsp_out b) = false -> send_core_rsp b r = Some (b <| core_rsp_out := ch_push (core_rsp_out b) r |>).
Proof using Type. intros E. unfold send_core_rsp, ch_send. by rewrite E. Qed.

Lemma core_hit_ok v H n b r q s way l sec : bank_ok v H n b -> tf_q (pipe_req_ b) = r :: q -> br_type r = RCore ->
  sets_ b !! Z.to_nat (addr_set_id p (br_addr r)) = Some s -> st_lines s !! way = Some l -> ln_tag l = addr_tag p (br_addr r) ->
  vsec l (addr_sector_id p (br_addr r)) = Some sec -> sector_at s way (addr_sector_id p (br_addr r)) = Some sec -> view (sets_ b) (rkey r) = Some sec ->
  step_ok v H b (process_core_hit cfg p bank_id ext_a b r s way (addr_set_id p (br_addr r)) (addr_tag p (br_addr r)) (addr_sector_id p (br_addr r))).
Proof.
  intros Hb Eq Ht Hs Hl Htag Hvs Hsec Hv. pose proof (core_acc cfg p bank_id m0 Hp Hc r Ht) as Ha. pose proof (bo_inv _ _ _ _ Hb) as Hi.
  destruct (head_facts v H n b r q Hb Eq Ha) as (Hla & Hat & Hsk & Ep). pose proof (set_in_range cfg p bank_id Hp Hc _ Hla) as Hr.
  unfold process_core_hit. rewrite (lookup_idle v H n b r q sec), Hat, andb_false_r, Hwb, andb_false_r, Hsec by done. simpl.
  destruct (need_core_rsp cfg r && ch_full (core_rsp_out b)) eqn:Est; [by eapply step_same|].
  pose proof (i_sets _ _ _ _ _ _ _ Hi) as Hwf. simpl in Hwf. destruct (br_write r) eqn:Hw.
  - destruct (store_sets (sets_ b) r s way l sec Hwf Hla Hs Hl Htag Hvs) as [W1 W2]. set (ss1 := <[_ := _]> (sets_ b)) in *. simpl.
    fold (stored r sec). unfold put_set. fold ss1.
    set (b1 := if ext_a && is_llc cfg then _ else _).
    set (b2 := if need_core_rsp cfg r then b1 <| core_rsp_out := ch_push (core_rsp_out b) (rsp_of r None) |> <| crsp_sent_ := true |> else b1).
    assert (E2 : (if need_core_rsp cfg r then b ← send_core_rsp b1 (rsp_of r None); Some (b <| crsp_sent_ := true |>) else Some b1) = Some b2).
    { unfold b2. destruct (need_core_rsp cfg r); [|done]. rewrite send_rsp; unfold b1; by destruct (ext_a && is_llc cfg). }
    rewrite E2. simpl. destruct (retire_tail v H n b b2 r q (Some way) Hb Eq Ht) as (ss & pe & lines & Er & Ws & Vs & Hpop);
      [unfold b2, b1; by destruct (need_core_rsp cfg r), (ext_a && is_llc cfg)..|].
    rewrite Er. assert (Es2 : sets_ b2 = ss1) by (unfold b2, b1; by destruct (need_core_rsp cfg r), (ext_a && is_llc cfg)).
    eapply commit_store; try done.
    + unfold b2, b1; destruct (need_core_rsp cfg r), (ext_a && is_llc cfg); constructor; done.
    + unfold b2, b1; by destruct (need_core_rsp cfg r), (ext_a && is_llc cfg).
    + unfold b2, b1; by destruct (need_core_rsp cfg r), (ext_a && is_llc cfg).
    + unfold b2, b1; destruct (need_core_rsp cfg r), (ext_a && is_llc cfg); simpl; unfold const; by rewrite ?app_nil_r.
    + intros i t x Hi0 Hx0. rewrite <- W2, <- Es2 by done. by apply Vs.
  - assert (Hn : need_core_rsp cfg r = true) by (unfold need_core_rsp; by rewrite Hw). rewrite Hn in *. simpl in Est.
    simpl. rewrite send_rsp by done. simpl. destruct (retire_tail v H n b (b <| core_rsp_out := ch_push (core_rsp_out b) (rsp_of r (sc_data sec)) |> <| crsp_sent_ := true |>) r q (Some way) Hb Eq Ht)
      as (ss & pe & lines & Er & Ws & Vs & Hpop); [done..|]. rewrite Er. by eapply commit_load.
Qed.

(** ** Misses *)

Lemma send_req b r : ch_full (mem_req_out b) = false -> send_mem_req b r = Some (b <| mem_req_out := ch_push (mem_req_out b) r |>).
Proof using Type. intros E. unfold send_mem_req, ch_send. by rewrite E. Qed.

Lemma retype r t : br_type r = t -> r <| br_type := t |> = r.
Proof using Type. intros <-. by destruct r. Qed.

Lemma track_ok v H n b r q : bank_ok v H n b -> tf_q (pipe_req_ b) = r :: q -> is_acc r = true -> view (sets_ b) (rkey r) = None ->
  ms_size (mshr_ b) < ms_capacity (mshr_ b) ->
  let fp := has_pending_fill (mshr_ b) (addr_set_id p (br_addr r)) (addr_tag p (br_addr r)) (addr_sector_id p (br_addr r)) None in
  (fp = false -> ch_full (mem_req_out b) = false) ->
  exists ms out pf,
    track_miss p bank_id b (r <| br_type := RCore |>) (addr_set_id p (br_addr r)) (addr_tag p (br_addr r)) (addr_sector_id p (br_addr r)) fp =
      Some (b <| mshr_ := ms |> <| mem_req_out := out |> <| pending_fill_reqs_ := pf |>) /\
    forall b', retired r b b' -> mshr_ b' = ms -> mem_req_out b' = out -> core_rsp_out b' = core_rsp_out b -> sets_wf p (sets_ b') ->
      same_view (sets_ b) (sets_ b') -> step_ok v H b (Some b').
Proof.
  intros Hb Eq Ha Hv Hlt fp Hfp. pose proof (bo_inv _ _ _ _ Hb) as Hi. destruct (head_facts v H n b r q Hb Eq Ha) as (Hla & _ & _ & Ep).
  destruct (enqueue_ok H n (bcore v b) (r <| br_type := RCore |>) Hi Hlt ltac:(done)) as (ms & id & e0 & Een & He0 & De0 & Ees & Esz & Erd).
  assert (Hstep : forall qs b', ((qs = [] /\ exists e, e ∈ es (bcore v b) /\ me_type e = RCore /\ ekey e = rkey r) \/
      (exists q, qs = [q] /\ rq_op q = MLD /\ rq_tag q = Z.of_nat id /\ rq_addr q = saddr (rkey r) /\ forall e, e ∈ es (bcore v b) -> me_type e = RCore -> ekey e <> rkey r)) ->
    retired r b b' -> mshr_ b' = ms -> ch_q (mem_req_out b') = ch_q (mem_req_out b) ++ qs -> core_rsp_out b' = core_rsp_out b -> sets_wf p (sets_ b') ->
    same_view (sets_ b) (sets_ b') -> step_ok v H b (Some b')).
  { intros qs b' Hqs [R1 R2 R3 [= R4 R5 R6 R7] R8 R9] E1 E2 E3 Hss Hsv. eapply step_pop; try done.
    - eapply inv_eq; [eapply inv_same_view; [done..|eapply (inv_miss cfg p bank_id m0 Hp Hc H n (bcore v b) r _ id e0 ms qs); try done|exact Hss|exact Hsv]|].
      apply core_ext; rproj; try congruence.
      + unfold pipe_of. rewrite R8. simpl. by rewrite Eq.
      + by rewrite R4, R5, R6, R7.
    - rewrite E1, Esz, Ha. simpl. lia. }
  change (mshr_enqueue (mshr_ b) (r <| br_type := RCore |>) (addr_set_id p (br_addr r)) (addr_tag p (br_addr r)) (addr_sector_id p (br_addr r)) = Some (ms, id)) in Een.
  unfold track_miss. rewrite Een. simpl. destruct fp eqn:Efp; unfold fp in Efp.
  - exists ms, (mem_req_out b), (pending_fill_reqs_ b). split; [by destruct b|]. intros b' HR E1 E2 E3 Hss Hsv.
    apply (Hstep []); try done; [|by rewrite E2, app_nil_r]. left. split; [done|]. apply pending_all in Efp. done.
  - rewrite send_req by (by apply Hfp). simpl. eexists _, _, _. split; [reflexivity|]. intros b' HR E1 E2 E3 Hss Hsv.
    eapply Hstep; try done; [|by rewrite E2]. right. eexists. split; [reflexivity|]. split_and!; try done. by apply pending_none.
Qed.

Lemma core_miss_ok v H n b r q : bank_ok v H n b -> tf_q (pipe_req_ b) = r :: q -> br_type r = RCore -> view (sets_ b) (rkey r) = None ->
  step_ok v H b (process_core_miss cfg p bank_id ext_a b r (addr_set_id p (br_addr r)) (addr_tag p (br_addr r)) (addr_sector_id p (br_addr r))).
Proof.
  intros Hb Eq Ht Hv. pose proof (core_acc cfg p bank_id m0 Hp Hc r Ht) as Ha. pose proof (bo_inv _ _ _ _ Hb) as Hi.
  unfold process_core_miss. rewrite Hwb, andb_false_r. simpl. set (fp := has_pending_fill _ _ _ _ _).
  destruct (negb fp && ch_full (mem_req_out b)) eqn:Est; [by eapply step_same|]. rewrite (ms_full_ok H n (bcore v b) Hi : ms_full (mshr_ b) = _). simpl.
  destruct (size_bounds H n (bcore v b) Hi) as (_ & [S0 S1] & Hcap & _). simpl in S0, S1, Hcap. destruct (Z.eqb_spec (ms_size (mshr_ b)) (ms_capacity (mshr_ b))) as [E|E].
  - unfold step_ok, outstanding. assert (0 < length (filter (fun r => Is_true (is_acc r)) (pipe_of b)))%nat; [|lia].
    unfold pipe_of. rewrite Eq. simpl. rewrite filter_cons_True by (by rewrite Ha). simpl. lia.
  - destruct (track_ok v H n b r q Hb Eq Ha Hv ltac:(lia)) as (ms & out & pf & Etr & Hstep). { fold fp. intros Ef. rewrite Ef in Est. done. }
    rewrite (retype r RCore Ht) in Etr. fold fp in Etr. rewrite Etr. simpl.
    set (b1 := b <| mshr_ := ms |> <| mem_req_out := out |> <| pending_fill_reqs_ := pf |>). set (b2 := if br_write r then _ else _).
    destruct (retire_tail v H n b b2 r q None Hb Eq Ht) as (ss & pe & lines & Er & Ws & Vs & Hpop); [unfold b2; by destruct (br_write r)..|unfold b2; destruct (br_write r); apply (i_sets _ _ _ _ _ _ _ Hi)|].
    rewrite Er. apply Hstep; unfold b2 in *; destruct (br_write r); try done.
Qed.

Lemma process_core_ok v H n b r q : bank_ok v H n b -> tf_q (pipe_req_ b) = r :: q -> br_type r = RCore -> step_ok v H b (process_core cfg p bank_id ext_a b r).
Proof.
  intros Hb Eq Ht. pose proof (core_acc cfg p bank_id m0 Hp Hc r Ht) as Ha. destruct (head_facts v H n b r q Hb Eq Ha) as (Hla & _).
  destruct (hit_spec v H n b (br_addr r) (bo_inv _ _ _ _ Hb) Hla) as (s & Hs & Hw & [[E Hv]|(way & l & sec & E & Hl & Htag & Hvs & Hsec & Hv)]);
    unfold process_core; rewrite Hs; simpl; rewrite E; simpl.
  - by eapply core_miss_ok.
  - by eapply core_hit_ok.
Qed.

(** ** Replays *)

Lemma touch_tail b1 i hit : sets_wf p (sets_ b1) -> 0 <= i < sets_per_bank p ->
  exists ss, touch_lru cfg b1 i hit = Some (b1 <| sets_ := ss |>) /\ sets_wf p ss /\ same_view (sets_ b1) ss.
Proof.
  intros Hw Hr. destruct (lookup_lt_is_Some_2 (sets_ b1) (Z.to_nat i)) as [s Hs]; [rewrite (ssw_len _ _ Hw); lia|].
  apply (touch_ok b1 i hit s Hw Hs). lia.
Qed.

Lemma replay_popped r pe lines : br_type r = RReplay -> popped p r pe pe lines lines.
Proof using Type. intros Ht. unfold popped. rewrite decide_False by congruence. done. Qed.

Lemma process_replay_ok v H n b r q : bank_ok v H n b -> tf_q (pipe_req_ b) = r :: q -> br_type r = RReplay -> step_ok v H b (process_replay cfg p bank_id ext_a b r).
Proof.
  intros Hb Eq Ht. pose proof (replay_acc cfg p bank_id m0 Hp Hc r Ht) as Ha. destruct (head_facts v H n b r q Hb Eq Ha) as (Hla & Hat & Hsk & Ep).
  pose proof (bo_inv _ _ _ _ Hb) as Hi. pose proof (i_sets _ _ _ _ _ _ _ Hi) as Hwf. simpl in Hwf. pose proof (set_in_range cfg p bank_id Hp Hc _ Hla) as Hr.
  pose proof (replay_popped r (pending_mshr_size_ b) (pipe_core_lines_ b) Ht) as Hpop.
  destruct (hit_spec v H n b (br_addr r) Hi Hla) as (s & Hs & Hw & [[E Hv]|(way & l & sec & E & Hl & Htag & Hvs & Hsec & Hv)]);
    unfold process_replay; rewrite Hs; simpl; rewrite E; simpl.
  - rewrite Hsk, andb_false_r. set (fp := has_pending_fill _ _ _ _ _).
    destruct (negb fp && ch_full (mem_req_out b)) eqn:Est; [by eapply step_same|]. rewrite (ms_full_ok H n (bcore v b) Hi : ms_full (mshr_ b) = _). simpl.
    destruct (size_bounds H n (bcore v b) Hi) as (_ & [S0 S1] & Hcap & _). simpl in S0, S1, Hcap.
    destruct (Z.eqb_spec (ms_size (mshr_ b)) (ms_capacity (mshr_ b))) as [E'|E']; [by eapply step_same|].
    destruct (track_ok v H n b r q Hb Eq Ha Hv ltac:(lia)) as (ms & out & pf & Etr & Hstep). { fold fp. intros Ef. rewrite Ef in Est. done. }
    fold fp in Etr. rewrite Etr. simpl. by apply Hstep.
  - rewrite Hat, andb_false_r, Hsk, Hwb, Hsec, andb_true_r. simpl. destruct (need_core_rsp cfg r && ch_full (core_rsp_out b)) eqn:Est; [by eapply step_same|].
    destruct (br_write r) eqn:Hwr.
    + destruct (store_sets (sets_ b) r s way l sec Hwf Hla Hs Hl Htag Hvs) as [W1 W2]. set (ss1 := <[_ := _]> (sets_ b)) in *. simpl.
      fold (stored r sec). unfold put_set. fold ss1. set (b1 := if ext_a && is_llc cfg && true then _ else _).
      set (b2 := if need_core_rsp cfg r then b1 <| core_rsp_out := ch_push (core_rsp_out b) (rsp_of r None) |> <| crsp_sent_ := true |> else b1).
      assert (E2 : (if need_core_rsp cfg r then b ← send_core_rsp b1 (rsp_of r None); Some (b <| crsp_sent_ := true |>) else Some b1) = Some b2).
      { unfold b2. destruct (need_core_rsp cfg r); [|done]. rewrite send_rsp; unfold b1; by destruct (ext_a && is_llc cfg && true). }
      rewrite E2. simpl. assert (Es2 : sets_ b2 = ss1) by (unfold b2, b1; by destruct (need_core_rsp cfg r), (ext_a && is_llc cfg && true)).
      destruct (touch_tail b2 (addr_set_id p (br_addr r)) (Some way)) as (ss & Er & Ws & Vs); [by rewrite Es2|done|].
      rewrite Er. simpl. eapply commit_store; try done.
      * unfold b2, b1; destruct (need_core_rsp cfg r), (ext_a && is_llc cfg && true); constructor; done.
      * unfold b2, b1; by destruct (need_core_rsp cfg r), (ext_a && is_llc cfg && true).
      * unfold b2, b1; by destruct (need_core_rsp cfg r), (ext_a && is_llc cfg && true).
      * unfold b2, b1; destruct (need_core_rsp cfg r), (ext_a && is_llc cfg && true); simpl; unfold const; by rewrite ?app_nil_r.
      * intros i t x Hi0 Hx0. rewrite <- W2, <- Es2 by done. by apply Vs.
    + assert (Hn : need_core_rsp cfg r = true) by (unfold need_core_rsp; by rewrite Hwr). rewrite Hn in *. simpl in Est.
      simpl. rewrite send_rsp by done. simpl.
      destruct (touch_tail (b <| core_rsp_out := ch_push (core_rsp_out b) (rsp_of r (sc_data sec)) |> <| crsp_sent_ := true |>) (addr_set_id p (br_addr r)) (Some way))
        as (ss & Er & Ws & Vs); [done..|]. rewrite Er. simpl. by eapply commit_load.
Qed.

(** ** Fills *)

Lemma clean_sector H n c i t x sec : inv H n c -> 0 <= i -> 0 <= x -> view (c_sets c) (i, t, x) = Some sec -> sc_dirty sec = false ->
  Some (mv p bank_id c (i, t, x)) = sc_data sec.
Proof.
  intros Hi H0 Hx Hv Hd. destruct (i_sectors _ _ _ _ _ _ _ Hi i t x sec H0 Hx Hv) as [_ (d & Ed & Em) Hcl _]. rewrite (Hcl Hd) in Em. rewrite Ed. f_equal.
  apply merge_none; [|done]. rewrite <- Em. by rewrite length_merge.
Qed.

Definition with_out (c : core) (out : list MemReq) : core := c <| c_out := out |>.

(** The writebacks of an eviction leave the memory with the data of the line. *)
Lemma write_back_one v H n i t r x sec b : inv H n (bcore v b) -> 0 <= i -> 0 <= x -> (sc_valid sec = true -> view (sets_ b) (i, t, x) = Some sec) ->
  (sc_valid sec && sc_dirty sec = true -> ch_full (mem_req_out b) = false) ->
  exists out pf, (if write_back cfg && sc_valid sec && sc_dirty sec
                  then b ← send_mem_req b (store_req (mem_addr_sector p bank_id i t x) (br_hart_id r) (br_uuid r) (sc_data sec) (sc_dirty_mask sec)); Some (count_eviction b)
                  else Some b) = Some (b <| mem_req_out := out |> <| perf_stats_ := pf |>) /\
    ch_cap out = ch_cap (mem_req_out b) /\ length (ch_q out) = (length (ch_q (mem_req_out b)) + if sc_valid sec && sc_dirty sec then 1 else 0)%nat /\
    inv H n (with_out (bcore v b) (ch_q out)) /\
    (sc_valid sec = true -> Some (mv p bank_id (with_out (bcore v b) (ch_q out)) (i, t, x)) = sc_data sec) /\
    (forall k, legal_key k -> k <> (i, t, x) -> mv p bank_id (with_out (bcore v b) (ch_q out)) k = mv p bank_id (bcore v b) k).
Proof.
  intros Hi H0 Hx Hv Hf. rewrite Hwb. simpl. destruct (sc_valid sec && sc_dirty sec) eqn:E.
  - apply andb_true_iff in E as [V D]. rewrite send_req by (by apply Hf). eexists _, _. split; [reflexivity|]. simpl.
    destruct (inv_writeback cfg p bank_id m0 Hp Hc H n (bcore v b) i t x sec (br_hart_id r) (br_uuid r) Hi H0 Hx (Hv V)) as (I1 & I2 & I3).
    split_and!; [done|rewrite length_app; done|done|done|done].
  - exists (mem_req_out b), (perf_stats_ b). split; [by destruct b|]. split; [done|]. split; [lia|].
    assert (Eb : with_out (bcore v b) (ch_q (mem_req_out b)) = bcore v b) by done. rewrite Eb. split_and!; [done| |done]. intros V. rewrite V in E. simpl in E.
    by apply (clean_sector H n (bcore v b)); [..|apply Hv|].
Qed.

Lemma write_back_ok v H n i t r : forall secs o b, inv H n (bcore v b) -> 0 <= i ->
  (forall j sec, secs !! j = Some sec -> sc_valid sec = true -> view (sets_ b) (i, t, Z.of_nat (o + j)) = Some sec) ->
  let k := length (filter (fun s => Is_true (sc_valid s && sc_dirty s)) secs) in k = 0%nat \/ (length (ch_q (mem_req_out b)) + k <= ch_cap (mem_req_out b))%nat ->
  exists out pf, write_back_sectors cfg p bank_id b i t r o secs = Some (b <| mem_req_out := out |> <| perf_stats_ := pf |>) /\
    inv H n (with_out (bcore v b) (ch_q out)) /\
    (forall j sec, secs !! j = Some sec -> sc_valid sec = true -> Some (mv p bank_id (with_out (bcore v b) (ch_q out)) (i, t, Z.of_nat (o + j))) = sc_data sec) /\
    (forall k, legal_key k -> (forall j, k <> (i, t, Z.of_nat (o + j))) -> mv p bank_id (with_out (bcore v b) (ch_q out)) k = mv p bank_id (bcore v b) k).
Proof.
  induction secs as [|sec secs IH]; intros o b Hi H0 Hvw w Hcap; subst w.
  - exists (mem_req_out b), (perf_stats_ b). split_and!; [by destruct b|eapply inv_eq; [done|by destruct b]|done|done].
  - cbn [write_back_sectors]. rewrite filter_cons in Hcap.
    assert (Hv0 : sc_valid sec = true -> view (sets_ b) (i, t, Z.of_nat o) = Some sec) by (intros V; specialize (Hvw 0%nat sec eq_refl V); by rewrite Nat.add_0_r in Hvw).
    destruct (write_back_one v H n i t r (Z.of_nat o) sec b Hi H0 ltac:(lia) Hv0) as (out & pf & E & Ecap & Elen & Hi1 & Hd & Hk).
    { intros E. rewrite E, decide_True in Hcap by done. simpl in Hcap. unfold ch_full. apply Nat.leb_gt. lia. }
    rewrite E. simpl. set (b1 := b <| mem_req_out := out |> <| perf_stats_ := pf |>).
    destruct (IH (S o) b1) as (out' & pf' & E' & Hi' & Hd' & Hk'); [done|done| | |].
    + intros j s Hj V. replace (S o + j)%nat with (o + S j)%nat by lia. by apply Hvw.
    + simpl. unfold const. rewrite Ecap, Elen. destruct (sc_valid sec && sc_dirty sec); [rewrite decide_True in Hcap by done|rewrite decide_False in Hcap by auto]; simpl in Hcap; (destruct Hcap; [left; done || lia|right; lia]).
    + exists out', pf'. split; [done|]. split; [done|]. split.
      * intros [|j] s Hj V; simpl in Hj.
        -- injection Hj as ->. rewrite Nat.add_0_r, <- Hd by done. f_equal. apply Hk'; [|intros j; intros [= Hj]; lia]. by eapply so_legal, (i_sectors _ _ _ _ _ _ _ Hi); [| |apply Hv0]; try lia.
        -- replace (o + S j)%nat with (S o + j)%nat by lia. by apply Hd'.
      * intros k Hl Hne. change (mv p bank_id (with_out (bcore v b1) (ch_q out')) k = mv p bank_id (bcore v b) k). rewrite Hk'; [apply Hk; [done|]|done|].
        -- specialize (Hne 0%nat). by rewrite Nat.add_0_r in Hne.
        -- intros j. specialize (Hne (S j)). by replace (S o + j)%nat with (o + S j)%nat by lia.
Qed.

(** The pipeline head is a fill. *)
Lemma fill_facts v H n b r q : bank_ok v H n b -> tf_q (pipe_req_ b) = r :: q -> br_type r = RFill ->
  exists e, ms_entries (mshr_ b) !! br_mshr_id r = Some e /\ me_type e = RCore /\
    ekey e = (addr_set_id p (br_addr r), addr_tag p (br_addr r), addr_sector_id p (br_addr r)) /\
    0 <= addr_set_id p (br_addr r) < sets_per_bank p /\ 0 <= addr_sector_id p (br_addr r) < sectors_per_line p.
Proof.
  intros Hb Eq Ht. pose proof (bo_inv _ _ _ _ Hb) as Hi. assert (Hr : r ∈ c_pipe (bcore v b)) by (simpl; unfold pipe_of; rewrite Eq; by left).
  destruct (i_pipe _ _ _ _ _ _ _ Hi r Hr) as [[Ha _]|(_ & e & He & Hte & Hadr & _)]; [unfold is_acc in Ha; by rewrite Ht in Ha|].
  assert (Hk : legal_key (ekey e)). { eapply (live_entry cfg p bank_id m0 Hp Hc H n (bcore v b)); [done|by eapply list_elem_of_lookup_2|by apply (core_live cfg p bank_id m0)]. }
  pose proof (key_saddr cfg p bank_id Hp Hc _ Hk) as Ek. rewrite <- Hadr in Ek. unfold CacheAddr.key_of in Ek. exists e. do 3 (split; [done|]).
  destruct Hk as (a & Ha & Eka). unfold CacheAddr.key_of in Eka. rewrite <- Eka in Ek. injection Ek as -> _ ->.
  split; [by apply (set_in_range cfg p bank_id)|by apply (sector_in_range cfg p bank_id)].
Qed.

Definition filled_sector (r : bank_req_t) : sector_t := {| sc_valid := true; sc_dirty := false; sc_dirty_mask := 0; sc_data := br_data r |}.

(** A fill is installed, the sets being those after an eviction or the same. *)
Lemma install_fill v H n b b1 r q s' : bank_ok v H n b -> tf_q (pipe_req_ b) = r :: q -> br_type r = RFill ->
  inv H n (bcore v b1) -> mshr_ b1 = mshr_ b -> pipe_req_ b1 = pipe_req_ b -> adm_seq_ctr_ b1 = adm_seq_ctr_ b -> core_req_in b1 = core_req_in b ->
  set_wf (ways p) (secs p) s' -> (exists s, sets_ b1 !! Z.to_nat (addr_set_id p (br_addr r)) = Some s /\
    forall u y, 0 <= y -> (u, y) <> (addr_tag p (br_addr r), addr_sector_id p (br_addr r)) -> sview s' u y = sview s u y \/
      (sview s' u y = None /\ exists sec, sview s u y = Some sec /\ sc_data sec = Some (mv p bank_id (bcore v b1) (addr_set_id p (br_addr r), u, y)))) ->
  sview s' (addr_tag p (br_addr r)) (addr_sector_id p (br_addr r)) = Some (filled_sector r) ->
  step_ok v H b (m ← mshr_replay (mshr_ b1) (br_mshr_id r);
                 Some (pop_pipe ((put_set b1 (addr_set_id p (br_addr r)) s') <| mshr_ := m |> <| fwd_active_ := true |> <| fwd_set_ := addr_set_id p (br_addr r) |>
                        <| fwd_tag_ := addr_tag p (br_addr r) |> <| fwd_sector_ := addr_sector_id p (br_addr r) |>))).
Proof.
  intros Hb Eq Ht Hi1 E1 E2 E3 E4 Ws' (s & Hs & Hvw) Hvk. destruct (fill_facts v H n b r q Hb Eq Ht) as (e & He & Hte & Ek & Hset & Hsec).
  destruct (replay_ok H n (bcore v b1) (br_mshr_id r) e Hi1) as (ms & Er & Ees & Esz & Erd); [simpl; unfold es; simpl; by rewrite E1|done|]. simpl in Er. rewrite Er. simpl.
  pose proof (i_sets _ _ _ _ _ _ _ Hi1) as Hwf. simpl in Hwf. eapply step_pop; try done.
  - eapply inv_eq; [eapply (inv_fill cfg p bank_id m0 Hp Hc H n (bcore v b1) r (q ++ tf_fly (pipe_req_ b)) (<[Z.to_nat (addr_set_id p (br_addr r)) := s']> (sets_ b1)) ms e); try done|].
    + simpl. unfold pipe_of. by rewrite E2, Eq.
    + unfold es. simpl. by rewrite E1.
    + by eapply sets_put.
    + intros i t x Hi0 Hx0 Hne. rewrite (view_put _ _ s) by (done || lia). simpl. destruct (Z.eqb_spec i (addr_set_id p (br_addr r))) as [->|]; [|by left].
      destruct (Hvw t x Hx0) as [Hv|(Hv & sec & Hv1 & Hv2)]; [congruence|left|right]; unfold view; rewrite Hs; simpl; [done|]. split; [done|]. by exists sec.
    + rewrite Ek, (view_put _ _ s) by (done || lia). by rewrite Z.eqb_refl.
    + apply core_ext; rproj; try congruence; [|by rewrite Ek]. unfold pipe_of. simpl. unfold const. by rewrite E2, Eq.
  - simpl. unfold const. by rewrite E2.
  - simpl. unfold const. rewrite Esz. simpl. rewrite E1. destruct (is_acc r); lia.
Qed.

Lemma ways_pos : (0 < ways p)%nat.
Proof.
  unfold ways, make_params in *. destruct (_ && _); [|done]. injection Hp as <-. simpl. rewrite Z.shiftl_1_l. pose proof (pow2_pos (cf_A cfg) (ac_A _ Hc)). lia.
Qed.

Lemma put_put b i s s' : put_set (put_set b i s) i s' = put_set b i s'.
Proof using Type. unfold put_set. rproj. by rewrite list_insert_insert_eq. Qed.

Lemma evict_fill_ok v H n b r q s : bank_ok v H n b -> tf_q (pipe_req_ b) = r :: q -> br_type r = RFill ->
  sets_ b !! Z.to_nat (addr_set_id p (br_addr r)) = Some s -> find_resident s (addr_tag p (br_addr r)) = None -> step_ok v H b (process_fill cfg p bank_id b r).
Proof.
  intros Hb Eq Ht Hs Hnone. destruct (fill_facts v H n b r q Hb Eq Ht) as (e & He & Hte & Ek & Hset & Hsec). pose proof (bo_inv _ _ _ _ Hb) as Hi.
  pose proof (i_sets _ _ _ _ _ _ _ Hi) as Hwf. simpl in Hwf. pose proof (ssw_set _ _ Hwf _ _ Hs) as Ws. pose proof ways_pos as Hways.
  unfold process_fill. rewrite Hs. simpl. rewrite Hnone. unfold evict_for. rewrite Hs. simpl. rewrite Hwb.
  set (way := select_victim s (repl_policy cfg) (rand_ctr_ b)). assert (Hway : (way < length (st_lines s))%nat) by (apply select_victim_lt; rewrite (sw_ways _ _ _ Ws); done).
  destruct (lookup_lt_is_Some_2 (st_lines s) way Hway) as [l Hl]. rewrite Hl. simpl.
  destruct ((0 <? dirty_sectors l)%nat && _) eqn:Est; [simpl; by eapply step_same|].
  set (x := match repl_policy cfg with RANDOM => _ | FIFO => _ | PLRU => _ end).
  assert (Hx : exists fp rc, x = (s <| st_fifo_ptr := fp |>, b <| rand_ctr_ := rc |>)) by
    (unfold x; destruct (repl_policy cfg); [exists (st_fifo_ptr s)|eexists _, (rand_ctr_ b)|exists (st_fifo_ptr s), (rand_ctr_ b)]; try eexists; destruct s, b; reflexivity).
  destruct Hx as (fp & rc & ->). set (b0 := b <| rand_ctr_ := rc |>). set (s0 := s <| st_fifo_ptr := fp |>).
  assert (Ws0 : set_wf (ways p) (secs p) s0) by (destruct Ws; by constructor).
  assert (Hsv : any_valid l = true -> forall y, view (sets_ b) (addr_set_id p (br_addr r), ln_tag l, y) = vsec l y).
  { intros V y. unfold view. rewrite Hs. simpl. by apply (sview_line (ways := ways p) (secs := secs p) s way l). }
  destruct (write_back_ok v H n (addr_set_id p (br_addr r)) (ln_tag l) r (ln_sectors l) 0 b0) as (out & pf & Ewb & Hi1 & Hd & _); [done|lia| | |].
  { intros j sec Hj V. simpl. rewrite Hsv; [unfold vsec; rewrite Nat2Z.id, Hj; simpl; by rewrite V|]. apply existsb_exists. exists sec. split; [|done].
    apply list_elem_of_In. by eapply list_elem_of_lookup_2. }
  { apply andb_false_iff in Est as [Est|Est]; apply Nat.ltb_ge in Est; unfold dirty_sectors in Est; [left; lia|by right]. }
  rewrite Ewb. simpl. unfold const. rewrite list_lookup_insert_eq by by eapply lookup_lt_Some. simpl. rewrite list_lookup_insert_eq by done. simpl. unfold const.
  pose proof (sw_secs _ _ _ Ws _ _ Hl) as Hlen. unfold secs in Hlen.
  destruct (lookup_lt_is_Some_2 (map (fun _ => sector_reset) (ln_sectors l)) (Z.to_nat (addr_sector_id p (br_addr r)))) as [z Hz]; [rewrite length_map; lia|].
  rewrite Hz, put_put, list_insert_insert_eq. simpl.
  destruct (fill_victim (ways := ways p) (secs := secs p) s0 way l (addr_tag p (br_addr r)) (addr_sector_id p (br_addr r)) (filled_sector r)) as [W1 W2]; [done|done|done|unfold secs; lia|done|].
  pose proof (install_fill v H n b (b0 <| mem_req_out := out |> <| perf_stats_ := pf |>) r q
    (s0 <| st_lines := <[way := filled (addr_tag p (br_addr r)) (addr_sector_id p (br_addr r)) (filled_sector r) (line_reset l)]> (st_lines s0) |>)) as Hin.
  apply Hin; clear Hin; [exact Hb|exact Eq|exact Ht|exact Hi1|reflexivity..|exact W1| |].
  - exists s. split; [done|]. intros u y Hy Hne. rewrite W2 by done.
    destruct (Z.eqb_spec u (addr_tag p (br_addr r))), (Z.eqb_spec y (addr_sector_id p (br_addr r))); simpl; [congruence|..].
    all: destruct (any_valid l) eqn:V; [|by left]; simpl; destruct (Z.eqb_spec u (ln_tag l)) as [Eu|]; [|by left]; rewrite Eu.
    all: rewrite (sview_line (ways := ways p) (secs := secs p) s way l) by done; destruct (vsec l y) as [sec|] eqn:Evs; [right|by left]; split; [done|]; exists sec; split; [done|].
    all: destruct (vsec_valid _ _ _ Evs) as (_ & Vs & Hlk); specialize (Hd _ _ Hlk Vs); simpl in Hd; rewrite Z2Nat.id in Hd by done; by rewrite <- Hd.
  - rewrite W2 by lia. by rewrite !Z.eqb_refl.
Qed.

Lemma process_fill_ok v H n b r q : bank_ok v H n b -> tf_q (pipe_req_ b) = r :: q -> br_type r = RFill -> step_ok v H b (process_fill cfg p bank_id b r).
Proof.
  intros Hb Eq Ht. destruct (fill_facts v H n b r q Hb Eq Ht) as (e & He & Hte & Ek & Hset & Hsec). pose proof (bo_inv _ _ _ _ Hb) as Hi.
  pose proof (i_sets _ _ _ _ _ _ _ Hi) as Hwf. simpl in Hwf.
  destruct (lookup_lt_is_Some_2 (sets_ b) (Z.to_nat (addr_set_id p (br_addr r)))) as [s Hs]; [rewrite (ssw_len _ _ Hwf); lia|].
  pose proof (ssw_set _ _ Hwf _ _ Hs) as Ws. destruct (find_resident s (addr_tag p (br_addr r))) as [way|] eqn:E; [|by eapply evict_fill_ok].
  unfold process_fill. rewrite Hs. simpl. rewrite E. simpl. rewrite Hs. simpl. pose proof E as (l & Hl & V & T & _)%resident_spec. rewrite Hl. simpl.
  pose proof (sw_secs _ _ _ Ws _ _ Hl) as Hlen. unfold secs in Hlen.
  destruct (lookup_lt_is_Some_2 (ln_sectors l) (Z.to_nat (addr_sector_id p (br_addr r)))) as [z Hz]; [lia|]. rewrite Hz. simpl.
  destruct (fill_resident (ways := ways p) (secs := secs p) s way l (addr_tag p (br_addr r)) (addr_sector_id p (br_addr r)) (filled_sector r)) as [W1 W2]; [done|done|done|unfold secs; lia|done|].
  pose proof (install_fill v H n b b r q (s <| st_lines := <[way := filled (addr_tag p (br_addr r)) (addr_sector_id p (br_addr r)) (filled_sector r) l]> (st_lines s) |>)) as Hin.
  apply Hin; clear Hin; [exact Hb|exact Eq|exact Ht|exact Hi|reflexivity..|exact W1| |].
  - exists s. split; [done|]. intros u y Hy Hne. rewrite W2 by done. left.
    destruct (Z.eqb_spec u (addr_tag p (br_addr r))), (Z.eqb_spec y (addr_sector_id p (br_addr r))); simpl; congruence.
  - rewrite W2 by lia. by rewrite !Z.eqb_refl.
Qed.

Lemma processRequests_ok v H n b : bank_ok v H n b -> tf_empty (pipe_req_ b) = false -> step_ok v H b (processRequests cfg p bank_id ext_a b).
Proof.
  intros Hb He. unfold processRequests, tf_empty in *. destruct (tf_q (pipe_req_ b)) as [|r q] eqn:Eq; [done|]. pose proof (bo_inv _ _ _ _ Hb) as Hi.
  assert (Hr : r ∈ c_pipe (bcore v b)) by (simpl; unfold pipe_of; rewrite Eq; by left).
  pose proof (i_pipe _ _ _ _ _ _ _ Hi r Hr) as Hpr. unfold pipe_ok, is_acc in Hpr. destruct (br_type r) eqn:Ht; simpl in Hpr; try (destruct Hpr as [[? _]|[? _]]; done).
  - by eapply process_fill_ok.
  - by eapply process_replay_ok.
  - by eapply process_core_ok.
Qed.

(** ** The forward window *)

Definition fwd_post (b : CacheBank) (consumed : bool) : Prop :=
  (consumed = true -> fwd_active_ b = true) /\
  (consumed = false -> fwd_active_ b = true -> forall id e, peek_next_replay (mshr_ b) = Some (id, e) -> br_write (me_req e) = false).

Lemma fwd_closed b consumed : consumed = false -> fwd_active_ b = false -> fwd_post b consumed.
Proof using Type. intros -> E. split; [done|]. congruence. Qed.

Lemma close_window v H n b : bank_ok v H n b -> bank_ok v H n (b <| fwd_active_ := false |>).
Proof. intros [Hi ? ? ?]. constructor; try done. apply (inv_fwd_off cfg p bank_id m0 Hp Hc H n _ Hi). Qed.

Lemma processForward_ok v H n b : bank_ok v H n b -> fwd_active_ b = true ->
  exists b' consumed, processForward b = Some (b', consumed) /\ bank_ok v H n b' /\ outstanding b' <= outstanding b /\ fwd_post b' consumed /\ pipe_req_ b' = pipe_req_ b.
Proof.
  intros Hb Hf. pose proof (bo_inv _ _ _ _ Hb) as Hi. pose proof (close_window v H n b Hb) as Hcl.
  assert (Close : exists b' consumed, Some (b <| fwd_active_ := false |>, false) = Some (b', consumed) /\ bank_ok v H n b' /\ outstanding b' <= outstanding b /\ fwd_post b' consumed /\ pipe_req_ b' = pipe_req_ b).
  { eexists _, _. split; [reflexivity|]. split_and!; [done|unfold outstanding, pipe_of; simpl; unfold const; lia|by apply fwd_closed|done]. }
  unfold processForward. destruct (has_ready_reqs (mshr_ b)) eqn:Hr; simpl; [|exact Close].
  destruct (dequeue_ok H n (bcore v b) Hi Hr) as (ms & id & e & Edq & Hold & Hdr & Epk). simpl in Edq, Epk. rewrite Epk.
  destruct (negb _ || _ || _) eqn:Ec; [exact Close|]. bool_hyps. apply matches_spec in H0.
  pose proof Hold as (He & Hte & _). assert (Le : live e = true) by (by apply (replay_live cfg p bank_id m0)).
  pose proof (list_elem_of_lookup_2 _ _ _ He) as Hin. pose proof (live_entry cfg p bank_id m0 Hp Hc H n (bcore v b) e Hi Hin Le) as (a & Ha & Eka).
  unfold CacheAddr.key_of in Eka. pose proof Eka as Eke. unfold ekey in Eke. injection Eke as E1 E2 E3.
  destruct (set_at H n (bcore v b) a Hi Ha) as (s & Hs & Hw). simpl in Hs. rewrite <- E1, Hs. simpl.
  assert (Hv : view (sets_ b) (ekey e) = sview s (me_addr_tag e) (me_sector_id e)) by (unfold view, ekey; rewrite <- E1, Hs; done).
  unfold sview in Hv. destruct (find_resident s (me_addr_tag e)) as [way|] eqn:Efr; [|exact Close]. pose proof Efr as (l & Hl & V & T & _)%resident_spec.
  simpl in Hv. rewrite Hl in Hv. simpl in Hv. unfold vsec in Hv. unfold sector_at. rewrite Hl. simpl.
  pose proof (sector_in_range cfg p bank_id Hp Hc a Ha) as Hx. pose proof (sw_secs _ _ _ Hw _ _ Hl) as Hlen. unfold secs in Hlen.
  destruct (lookup_lt_is_Some_2 (ln_sectors l) (Z.to_nat (me_sector_id e))) as [sec Hsec]; [rewrite <- E3; lia|]. rewrite Hsec in Hv |- *. simpl in Hv |- *.
  destruct (sc_valid sec) eqn:Vs; simpl; [|exact Close]. destruct (crsp_sent_ b || ch_full (core_rsp_out b)) eqn:Est.
  - eexists _, _. split; [reflexivity|]. split_and!; [done|done| |done]. split; [done|]. intros _ _ id' e' Epk'. rewrite Epk in Epk'. by injection Epk' as <- <-.
  - apply orb_false_iff in Est as [_ Est]. rewrite Edq. simpl. rewrite send_rsp by done. simpl. eexists _, _. split; [reflexivity|].
    assert (Hfk : c_fwd (bcore v b) = Some (ekey e)) by (simpl; by rewrite Hf, H0).
    pose proof (inv_forward cfg p bank_id m0 Hp Hc H n (bcore v b) id e ms sec Hi Hold Hdr Hfk ltac:(done) Hv) as Hi'. destruct Hb as [_ B2 B3 B4]. split_and!.
    + constructor; [|done..]. eapply inv_eq; [exact Hi'|]. apply core_ext; rproj; try done. by rewrite app_assoc.
    + unfold outstanding, pipe_of. simpl. unfold const. destruct Hdr as (_ & Esz & _). simpl in Esz. lia.
    + split; [done|]. done.
    + done.
Qed.

(** ** Inputs *)

Lemma push_ok b r : tf_full (pipe_req_ b) = false ->
  push_pipe b r = Some (b <| pipe_req_ := {| tf_capacity := tf_capacity (pipe_req_ b); tf_q := tf_q (pipe_req_ b); tf_fly := tf_fly (pipe_req_ b) ++ [r] |} |>).
Proof using Type. intros E. unfold push_pipe, tf_push. by rewrite E. Qed.

Lemma room v H n b : bank_ok v H n b -> tf_full (pipe_req_ b) = false -> (length (pipe_of b) < 2)%nat.
Proof. intros Hb E. destruct (bo_pipe _ _ _ _ Hb) as [_ Hcap]. unfold tf_full in E. apply Nat.leb_gt in E. unfold pipe_of. rewrite length_app. lia. Qed.

(** A state with one more request in the pipeline. *)
Lemma step_push v H n n' b b' r k : bank_ok v H n b -> tf_full (pipe_req_ b) = false ->
  pipe_req_ b' = {| tf_capacity := tf_capacity (pipe_req_ b); tf_q := tf_q (pipe_req_ b); tf_fly := tf_fly (pipe_req_ b) ++ [r] |} ->
  inv H n' (bcore v b') -> adm_seq_ctr_ b' = Z.of_nat n' -> ch_q (core_req_in b') = drop n' H ->
  ms_size (mshr_ b') = ms_size (mshr_ b) - k -> Z.of_nat (length (drop n' H)) + (if is_acc r then 1 else 0) <= Z.of_nat (length (drop n H)) + k -> step_ok v H b (Some b').
Proof.
  intros Hb Hf Ep Hi Hs Hq Hsz Hle. pose proof (room v H n b Hb Hf) as Hr. destruct (bo_pipe _ _ _ _ Hb) as [_ Hcap]. split.
  - exists n'. constructor; try done. unfold pipe_of in *. rewrite Ep. simpl. split; [|done]. rewrite length_app in *. rewrite length_app. simpl. lia.
  - unfold outstanding, pipe_of. rewrite Ep, Hsz, Hq, (bo_in _ _ _ _ Hb). simpl. rewrite app_assoc, list.filter_app, length_app, filter_cons, filter_nil.
    destruct (is_acc r); [rewrite decide_True by done|rewrite decide_False by auto]; simpl; lia.
Qed.

Lemma input_replay_ok v H n b : bank_ok v H n b -> tf_full (pipe_req_ b) = false -> fwd_post b false -> has_ready_reqs (mshr_ b) = true ->
  step_ok v H b ('(m, r) ← mshr_dequeue (mshr_ b); push_pipe (b <| mshr_ := m |>) r).
Proof.
  intros Hb Hf [_ Hfw] Hr. pose proof (bo_inv _ _ _ _ Hb) as Hi. destruct (dequeue_ok H n (bcore v b) Hi Hr) as (ms & id & e & Edq & Hold & Hdr & Epk).
  simpl in Edq, Epk. rewrite Edq. simpl. rewrite push_ok by done. pose proof Hold as (_ & Hte & _). destruct Hdr as (D1 & D2 & D3) eqn:Edr. simpl in D2.
  eapply (step_push v H n n b _ (me_req e) 1); try done.
  - eapply inv_eq; [eapply (inv_push_replay cfg p bank_id m0 Hp Hc H n (bcore v b) id e ms Hi Hold); [done|]|].
    + intros k Hk _. simpl in Hk. destruct (fwd_active_ b) eqn:Ea; [|done]. by eapply (Hfw eq_refl eq_refl).
    + apply core_ext; rproj; try done. unfold pipe_of. simpl. by rewrite app_assoc.
  - apply Hb.
  - apply Hb.
  - rewrite (replay_acc cfg p bank_id m0 Hp Hc _ Hte). lia.
Qed.

Lemma input_fill_ok v H n b rsp rest : bank_ok v H n b -> tf_full (pipe_req_ b) = false -> has_ready_reqs (mshr_ b) = false -> ch_q (mem_rsp_in b) = rsp :: rest ->
  step_ok v H b (input_mem_rsp p bank_id ext_a b rsp).
Proof.
  intros Hb Hf Hr Eq. pose proof (bo_inv _ _ _ _ Hb) as Hi. pose proof (i_fills _ _ _ _ _ _ _ Hi) as HF.
  assert (Hin : rsp ∈ c_rsps (bcore v b)) by (simpl; rewrite Eq; set_solver).
  assert (Htag : rs_tag rsp ∈ fill_tags (c_out (bcore v b)) (c_rsps (bcore v b)) (c_pipe (bcore v b))).
  { unfold fill_tags. apply elem_of_app. right. apply elem_of_app. left. apply list_elem_of_fmap. by exists rsp. }
  destruct (fo_core _ _ _ _ _ _ _ _ HF _ Htag) as (H0 & e & He & Hte). pose proof (lookup_lt_Some _ _ _ He) as Hlt.
  destruct (size_bounds H n (bcore v b) Hi) as (_ & _ & Hcap & _). unfold es, ms_capacity in *. simpl in Hlt, Hcap, He.
  unfold input_mem_rsp, amo_passthru_tag_base, ms_capacity. destruct (Z.leb_spec (Z.of_nat (length (ms_entries (mshr_ b)))) (rs_tag rsp)); [lia|]. rewrite andb_false_r. simpl.
  rewrite (wrap_small 32) by (unfold in_u; lia). rewrite He. simpl. rewrite push_ok by done. simpl.
  set (r := bank_req_reset <| br_type ::= _ |> <| br_addr ::= _ |> <| br_hart_id ::= _ |> <| br_uuid ::= _ |> <| br_mshr_id ::= _ |> <| br_data ::= _ |>).
  eapply (step_push v H n n b _ r 0); try done.
  - eapply inv_eq; [eapply (inv_push_fill cfg p bank_id m0 Hp Hc H n (bcore v b) rsp (en_reads v ++ rest) e r Hi); [simpl; rewrite Eq; symmetry; apply Permutation_middle|by apply (no_ready H n)|done..]|].
    apply core_ext; rproj; try done; [unfold pipe_of; simpl; by rewrite app_assoc|by rewrite Eq].
  - apply Hb.
  - apply Hb.
  - simpl. lia.
Qed.

Lemma bank_ok_same v H n b b' : bank_ok v H n b -> bcore v b' = bcore v b -> adm_seq_ctr_ b' = adm_seq_ctr_ b -> core_req_in b' = core_req_in b ->
  pipe_req_ b' = pipe_req_ b -> bank_ok v H n b'.
Proof using Type. intros [B1 B2 B3 B4] E1 E2 E3 E4. constructor; [by rewrite E1|by rewrite E2|by rewrite E3|unfold pipe_of in *; by rewrite E4]. Qed.

Lemma step_stall v H n b : bank_ok v H n b -> step_ok v H b (Some (count_mshr_stall b)).
Proof using Type. intros Hb. split; [exists n; by apply (bank_ok_same v H n b)|done]. Qed.

Lemma head_req v H n b q rest : bank_ok v H n b -> ch_q (core_req_in b) = q :: rest -> H !! n = Some q /\ drop (S n) H = rest /\ (n < length H)%nat.
Proof using Type.
  intros Hb Eq. rewrite (bo_in _ _ _ _ Hb) in Eq. assert (Hq : H !! n = Some q).
  { assert (E : drop n H !! 0%nat = Some q) by by rewrite Eq. by rewrite lookup_drop, Nat.add_0_r in E. }
  split_and!; [done| |by eapply lookup_lt_Some]. rewrite (drop_S H q n Hq) in Eq. by injection Eq.
Qed.

(** A request joins the entries that wait for its block. *)
Lemma coalesce_ok v H n b q rest : bank_ok v H n b -> Z.of_nat (length H) < 2 ^ 64 -> ch_q (core_req_in b) = q :: rest -> ms_size (mshr_ b) < ms_capacity (mshr_ b) ->
  mshr_lookup (mshr_ b) (addr_set_id p (rq_addr q)) (addr_tag p (rq_addr q)) (addr_sector_id p (rq_addr q)) = true ->
  step_ok v H b (
    '(m, id) ← mshr_enqueue (mshr_ b) (bank_req_of q (adm_seq_ctr_ b) RCore) (addr_set_id p (rq_addr q)) (addr_tag p (rq_addr q)) (addr_sector_id p (rq_addr q));
    m ← (if has_pending_fill m (addr_set_id p (rq_addr q)) (addr_tag p (rq_addr q)) (addr_sector_id p (rq_addr q)) (Some id) then Some m else defer_to_replay m id);
    let b := b <| mshr_ := m |> <| adm_seq_ctr_ := u64 (adm_seq_ctr_ b + 1) |> in
    let b := if memop_is_write (rq_op q) then count_write_miss (count_write b) else count_read_miss (count_read b) in
    Some (pop_core_req b)).
Proof.
  intros Hb HH Eq Hlt Hlk. pose proof (bo_inv _ _ _ _ Hb) as Hi. destruct (head_req v H n b q rest Hb Eq) as (Hq & Hdrop & Hn).
  pose proof (bo_seq _ _ _ _ Hb) as Es. destruct (enqueue_ok H n (bcore v b) (bank_req_of q (Z.of_nat n) RCore) Hi Hlt eq_refl) as (ms & id & e0 & Een & He0 & De0 & Ees & Esz & Erd).
  simpl in Een, Esz, Erd. rewrite Es. rewrite Een. simpl. apply lookup_spec in Hlk.
  destruct (size_bounds H n (bcore v b) Hi) as (R0 & [S0 S1] & Hcap & HR). simpl in R0, S0, S1, Hcap, HR.
  assert (Hfin : forall ms' t, ((t = RCore /\ exists e1, e1 ∈ es (bcore v b) /\ me_type e1 = RCore /\ ekey e1 = qkey q) \/
     (t = RReplay /\ forall e1, e1 ∈ es (bcore v b) -> me_type e1 = RCore -> ekey e1 <> qkey q)) ->
     ms_entries ms' = <[id := new_entry (bank_req_of q (Z.of_nat n) t)]> (es (bcore v b)) -> ms_size ms' = ms_size (mshr_ b) + 1 ->
     ms_ready_reqs ms' = ms_ready_reqs (mshr_ b) + (if decide (t = RReplay) then 1 else 0) ->
     step_ok v H b (Some (pop_core_req (if memop_is_write (rq_op q) then count_write_miss (count_write (b <| mshr_ := ms' |> <| adm_seq_ctr_ := u64 (Z.of_nat n + 1) |>))
       else count_read_miss (count_read (b <| mshr_ := ms' |> <| adm_seq_ctr_ := u64 (Z.of_nat n + 1) |>)))))).
  { intros ms' t Ht E1 E2 E3. pose proof (inv_coalesce cfg p bank_id m0 Hp Hc H n (bcore v b) q id e0 t ms' Hi Hq He0 De0 Hlk Ht E1 E2 E3) as Hi'.
    assert (Ew : u64 (Z.of_nat n + 1) = Z.of_nat (S n)) by (rewrite (wrap_small 64); [lia|unfold in_u; lia]). rewrite Ew.
    destruct Hb as [_ _ B3 B4]. split.
    - exists (S n). constructor; [|by destruct (memop_is_write (rq_op q))| |by destruct (memop_is_write (rq_op q))].
      + eapply inv_eq; [exact Hi'|]. by destruct (memop_is_write (rq_op q)).
      + rewrite Hdrop. destruct (memop_is_write (rq_op q)); simpl; unfold const; by rewrite Eq.
    - unfold outstanding, pipe_of. destruct (memop_is_write (rq_op q)); simpl; unfold const; rewrite E2, Eq; simpl; lia. }
  assert (Hpid : has_pending_fill ms (addr_set_id p (rq_addr q)) (addr_tag p (rq_addr q)) (addr_sector_id p (rq_addr q)) (Some id) = true <->
    exists e1, e1 ∈ es (bcore v b) /\ me_type e1 = RCore /\ ekey e1 = qkey q).
  { rewrite pending_spec, Ees. split.
    - intros (j & e & Hj & Hne & Hte & Hke). rewrite list_lookup_insert_ne in Hj by congruence. exists e. split; [by eapply list_elem_of_lookup_2|done].
    - intros (e & (j & Hj)%list_elem_of_lookup_1 & Hte & Hke). exists j, e. split; [|split; [|done]].
      + rewrite list_lookup_insert_ne; [done|]. intros ->. rewrite He0 in Hj. injection Hj as ->. by rewrite (core_live cfg p bank_id m0 Hp Hc e Hte) in De0.
      + intros [= ->]. rewrite He0 in Hj. injection Hj as ->. by rewrite (core_live cfg p bank_id m0 Hp Hc e Hte) in De0. }
  destruct (has_pending_fill ms _ _ _ _) eqn:Epf.
  - simpl. apply (Hfin ms RCore); [left; split; [done|by apply Hpid]|done|done|]. rewrite decide_False by done. lia.
  - unfold defer_to_replay. rewrite Ees, list_lookup_insert_eq by by eapply lookup_lt_Some. simpl.
    apply (Hfin _ RReplay); rproj.
    + right. split; [done|]. intros e1 He1 Ht1 Hk1. assert (false = true); [|done]. apply Hpid. by exists e1.
    + by rewrite list_insert_insert_eq.
    + done.
    + rewrite Erd, decide_True by done. apply wrap_small. unfold in_u. lia.
Qed.

Lemma admit_ok v H n b q rest : bank_ok v H n b -> Z.of_nat (length H) < 2 ^ 64 -> tf_full (pipe_req_ b) = false -> ch_q (core_req_in b) = q :: rest ->
  (forall e, e ∈ ms_entries (mshr_ b) -> live e = true -> ekey e <> qkey q) ->
  step_ok v H b (
    b ← push_pipe (b <| adm_seq_ctr_ := u64 (adm_seq_ctr_ b + 1) |>) (bank_req_of q (adm_seq_ctr_ b) RCore);
    let b := b <| pending_mshr_size_ := u32 (pending_mshr_size_ b + 1) |> <| pipe_core_lines_ := pipe_core_lines_ b ++ [(addr_set_id p (rq_addr q), addr_tag p (rq_addr q))] |> in
    let b := if memop_is_write (rq_op q) then count_write b else count_read b in
    Some (pop_core_req b)).
Proof.
  intros Hb HH Hf Eq Hno. pose proof (bo_inv _ _ _ _ Hb) as Hi. destruct (head_req v H n b q rest Hb Eq) as (Hq & Hdrop & Hn).
  pose proof (bo_seq _ _ _ _ Hb) as Es. rewrite Es. rewrite push_ok by done. simpl.
  pose proof (inv_admit cfg p bank_id m0 Hp Hc H n (bcore v b) q Hi Hq Hno) as Hi'. set (r := bank_req_of q (Z.of_nat n) RCore) in *.
  assert (Ew : u64 (Z.of_nat n + 1) = Z.of_nat (S n)) by (rewrite (wrap_small 64); [lia|unfold in_u; lia]). rewrite Ew.
  assert (Ep : u32 (pending_mshr_size_ b + 1) = pending_mshr_size_ b + 1).
  { apply wrap_small. unfold in_u. pose proof (co_pending _ _ _ _ _ _ (i_counts _ _ _ _ _ _ _ Hi)) as C4. simpl in C4. destruct (bo_pipe _ _ _ _ Hb) as [Hl _].
    assert (length (filter (fun r => br_type r = RCore) (pipe_of b)) <= length (pipe_of b))%nat by apply length_filter. lia. }
  rewrite Ep. eapply (step_push v H n (S n) b _ r 0); try done.
  - by destruct (memop_is_write (rq_op q)).
  - eapply inv_eq; [exact Hi'|]. destruct (memop_is_write (rq_op q)); (apply core_ext; rproj; try done; unfold pipe_of; simpl; by rewrite app_assoc).
  - by destruct (memop_is_write (rq_op q)).
  - rewrite Hdrop. destruct (memop_is_write (rq_op q)); simpl; unfold const; by rewrite Eq.
  - destruct (memop_is_write (rq_op q)); simpl; unfold const; lia.
  - rewrite <- (bo_in _ _ _ _ Hb), Hdrop, Eq. simpl. lia.
Qed.

Lemma input_core_ok v H n b q rest : bank_ok v H n b -> Z.of_nat (length H) < 2 ^ 64 -> tf_full (pipe_req_ b) = false -> ch_q (core_req_in b) = q :: rest ->
  step_ok v H b (input_core_req cfg p ext_a b q).
Proof.
  intros Hb HH Hf Eq. pose proof (bo_inv _ _ _ _ Hb) as Hi. destruct (head_req v H n b q rest Hb Eq) as (Hq & _ & _).
  destruct (qkey_legal cfg p bank_id m0 Hp Hc H n q (i_legal _ _ _ _ _ _ _ Hi) Hq) as [[Hop _] _].
  assert (Hat : memop_is_atomic (rq_op q) = false) by (by destruct Hop as [-> | ->]).
  unfold input_core_req. rewrite Hat, Hwb, andb_false_r. simpl. rewrite andb_false_r. simpl.
  destruct (size_bounds H n (bcore v b) Hi) as (_ & [S0 S1] & Hcap & _). simpl in S0, S1, Hcap.
  assert (Epd : 0 <= pending_mshr_size_ b <= 2).
  { pose proof (co_pending _ _ _ _ _ _ (i_counts _ _ _ _ _ _ _ Hi)) as C4. simpl in C4. destruct (bo_pipe _ _ _ _ Hb) as [Hl _].
    assert (length (filter (fun r => br_type r = RCore) (pipe_of b)) <= length (pipe_of b))%nat by apply length_filter. lia. }
  rewrite (wrap_small 32) by (unfold in_u; lia). destruct (Z.leb_spec (ms_capacity (mshr_ b)) (ms_size (mshr_ b) + pending_mshr_size_ b)); [by eapply step_stall|].
  destruct (negb (ms_size (mshr_ b) =? 0) && mshr_lookup _ _ _ _) eqn:Elk.
  - apply andb_true_iff in Elk as [_ Elk]. rewrite (ms_full_ok H n (bcore v b) Hi : ms_full (mshr_ b) = _). simpl.
    destruct (Z.eqb_spec (ms_size (mshr_ b)) (ms_capacity (mshr_ b))); [lia|]. eapply coalesce_ok; try done; lia.
  - eapply admit_ok; try done. intros e He Le Hk. apply andb_false_iff in Elk as [Elk|Elk].
    + bool_hyps. pose proof (co_size _ _ _ _ _ _ (i_counts _ _ _ _ _ _ _ Hi)) as C2. simpl in C2. rewrite Elk in C2.
      assert (Hin : e ∈ filter (fun e => Is_true (live e)) (ms_entries (mshr_ b))) by (apply list_elem_of_filter; split; [by rewrite Le|done]).
      destruct (filter _ _); [by apply not_elem_of_nil in Hin|simpl in C2; lia].
    + apply not_true_iff_false in Elk. apply Elk, lookup_spec. by exists e.
Qed.

Lemma processInputs_ok v H n b consumed : bank_ok v H n b -> Z.of_nat (length H) < 2 ^ 64 -> fwd_post b consumed -> tf_full (pipe_req_ b) = false ->
  step_ok v H b (processInputs cfg p bank_id ext_a b consumed).
Proof.
  intros Hb HH Hfw Hf. unfold processInputs.
  assert (Hcore : step_ok v H b (match ch_q (core_req_in b) with [] => Some b | q :: _ => input_core_req cfg p ext_a b q end)).
  { destruct (ch_q (core_req_in b)) as [|q rest] eqn:Eq; [by eapply step_same|by eapply input_core_ok]. }
  destruct (has_ready_reqs (mshr_ b)) eqn:Hr, consumed; simpl.
  - destruct Hfw as [Hfw _]. rewrite (Hfw eq_refl). destruct (ch_q (mem_rsp_in b)); exact Hcore.
  - by eapply input_replay_ok.
  - destruct Hfw as [Hfw _]. rewrite (Hfw eq_refl). destruct (ch_q (mem_rsp_in b)); exact Hcore.
  - destruct (ch_q (mem_rsp_in b)) as [|rsp rest] eqn:Em; [exact Hcore|]. destruct (fwd_active_ b); [exact Hcore|]. by eapply input_fill_ok.
Qed.

(** ** Flushes *)

(** The progress of the flush walk. *)
Record flushed (v : env) (H : list MemReq) (n : nat) (b b' : CacheBank) : Prop := {
  fl_ok : bank_ok v H n b';
  fl_out : outstanding b' = outstanding b;
  fl_set : flush_set_idx_ b' = flush_set_idx_ b
}.

Lemma flushed_trans v H n b b' b'' : flushed v H n b b' -> flushed v H n b' b'' -> flushed v H n b b''.
Proof using Type. intros [_ O1 S1] [K O2 S2]. by constructor; [|congruence..]. Qed.

Lemma flush_one v H n b s way l sec : bank_ok v H n b -> sets_ b !! flush_set_idx_ b = Some s -> st_lines s !! way = Some l ->
  ln_sectors l !! flush_sector_idx_ b = Some sec -> sc_valid sec = true -> ch_full (mem_req_out b) = false ->
  bank_ok v H n (put_set (count_eviction (b <| mem_req_out := ch_push (mem_req_out b) (store_req
    (mem_addr_sector p bank_id (Z.of_nat (flush_set_idx_ b)) (ln_tag l) (Z.of_nat (flush_sector_idx_ b))) 0 0 (sc_data sec) (sc_dirty_mask sec)) |>))
    (Z.of_nat (flush_set_idx_ b)) (put_sector s way (Z.of_nat (flush_sector_idx_ b)) (sec <| sc_dirty := false |> <| sc_dirty_mask := 0 |>))).
Proof.
  intros Hb Hs Hl Hsec V Hf. pose proof (bo_inv _ _ _ _ Hb) as Hi. pose proof (i_sets _ _ _ _ _ _ _ Hi) as Hwf. simpl in Hwf.
  pose proof (ssw_set _ _ Hwf _ _ Hs) as Ws. set (i := Z.of_nat (flush_set_idx_ b)). set (x := Z.of_nat (flush_sector_idx_ b)).
  assert (Hs' : sets_ b !! Z.to_nat i = Some s) by (unfold i; by rewrite Nat2Z.id).
  assert (Hvs : vsec l x = Some sec) by (unfold vsec, x; rewrite Nat2Z.id, Hsec; simpl; by rewrite V).
  assert (Hv : view (sets_ b) (i, ln_tag l, x) = Some sec).
  { unfold view. rewrite Hs'. simpl. rewrite (sview_line (ways := ways p) (secs := secs p) s way l); [done|done|done|]. by eapply vsec_valid. }
  destruct (inv_writeback cfg p bank_id m0 Hp Hc H n (bcore v b) i (ln_tag l) x sec 0 0 Hi ltac:(lia) ltac:(lia) Hv) as (I1 & I2 & _).
  destruct (put_sector_view (ways := ways p) (secs := secs p) s way l x sec (sec <| sc_dirty := false |> <| sc_dirty_mask := 0 |>) (ln_tag l)) as [W1 W2]; try done; [lia|].
  destruct Hb as [_ B2 B3 B4]. constructor; try done. set (s' := put_sector s way x _) in *.
  eapply inv_eq; [eapply (inv_clean cfg p bank_id m0 Hp Hc H n _ (<[Z.to_nat i := s']> (sets_ b)) i (ln_tag l) x sec I1 ltac:(lia) ltac:(lia) Hv I2)|].
  - by eapply sets_put.
  - intros i' t' x' Hi' Hx'. simpl. rewrite (view_put _ _ s) by (done || lia). destruct (Z.eqb_spec i' i) as [->|Hne].
    + rewrite W2 by done. case_decide as D; [injection D as -> ->; by rewrite !Z.eqb_refl|]. destruct (Z.eqb_spec t' (ln_tag l)), (Z.eqb_spec x' x); simpl; try (unfold view; by rewrite Hs'). congruence.
    + rewrite decide_False by congruence. done.
  - done.
Qed.

Lemma flush_sectors_ok v H n : forall fuel b, bank_ok v H n b -> (flush_set_idx_ b < Z.to_nat (sets_per_bank p))%nat -> (flush_way_idx_ b < ways p)%nat ->
  (secs p <= fuel + flush_sector_idx_ b)%nat ->
  exists b' d, flush_sectors p bank_id fuel b = Some (b', d) /\ flushed v H n b b' /\ flush_way_idx_ b' = flush_way_idx_ b.
Proof.
  induction fuel as [|fuel IH]; intros b Hb Hset Hway Hfuel; pose proof (i_sets _ _ _ _ _ _ _ (bo_inv _ _ _ _ Hb)) as Hwf; simpl in Hwf.
  all: destruct (lookup_lt_is_Some_2 (sets_ b) (flush_set_idx_ b)) as [s Hs]; [rewrite (ssw_len _ _ Hwf); lia|]; pose proof (ssw_set _ _ Hwf _ _ Hs) as Ws.
  all: destruct (lookup_lt_is_Some_2 (st_lines s) (flush_way_idx_ b)) as [l Hl]; [rewrite (sw_ways _ _ _ Ws); lia|]; pose proof (sw_secs _ _ _ Ws _ _ Hl) as Hlen.
  all: cbn [flush_sectors]; rewrite Hs; simpl; rewrite Hl; simpl; destruct (ln_sectors l !! flush_sector_idx_ b) as [sec|] eqn:Hsec;
    [|exists b, true; split; [done|]; split; [by constructor|done]].
  - apply lookup_lt_Some in Hsec. lia.
  - destruct (sc_valid sec && sc_dirty sec) eqn:Ed; simpl.
    + destruct (ch_full (mem_req_out b)) eqn:Ef; [exists b, false; split; [done|]; split; [by constructor|done]|]. rewrite send_req by done. simpl.
      apply andb_true_iff in Ed as [V _]. pose proof (flush_one v H n b s (flush_way_idx_ b) l sec Hb Hs Hl Hsec V Ef) as Hb1.
      match goal with |- context [flush_sectors p bank_id fuel ?x] => set (b1 := x) end.
      destruct (IH b1) as (b' & d & E & F & G); [by eapply bank_ok_same|done|done|unfold b1; simpl; unfold const; lia|]. exists b', d. split; [done|]. split; [|done].
      eapply flushed_trans; [|exact F]. constructor; [by eapply bank_ok_same|done|done].
    + destruct (IH (b <| flush_sector_idx_ := S (flush_sector_idx_ b) |>)) as (b' & d & E & F & G); [by eapply bank_ok_same|done|done|simpl; unfold const; lia|].
      exists b', d. split; [done|]. split; [|done]. eapply flushed_trans; [|exact F]. constructor; [by eapply bank_ok_same|done|done].
Qed.

Lemma flush_ways_ok v H n : forall fuel b, bank_ok v H n b -> (flush_set_idx_ b < Z.to_nat (sets_per_bank p))%nat -> (ways p <= fuel + flush_way_idx_ b)%nat ->
  exists b' d, flush_ways p bank_id fuel b = Some (b', d) /\ flushed v H n b b'.
Proof.
  induction fuel as [|fuel IH]; intros b Hb Hset Hfuel; pose proof (i_sets _ _ _ _ _ _ _ (bo_inv _ _ _ _ Hb)) as Hwf; simpl in Hwf.
  all: destruct (lookup_lt_is_Some_2 (sets_ b) (flush_set_idx_ b)) as [s Hs]; [rewrite (ssw_len _ _ Hwf); lia|]; pose proof (sw_ways _ _ _ (ssw_set _ _ Hwf _ _ Hs)) as Ws.
  all: cbn [flush_ways]; rewrite Hs; simpl; destruct (Nat.ltb_spec (flush_way_idx_ b) (length (st_lines s))); [|exists b, true; split; [done|by constructor]].
  - lia.
  - destruct (flush_sectors_ok v H n (Z.to_nat (sectors_per_line p)) b Hb Hset ltac:(lia) ltac:(unfold secs; lia)) as (b1 & d & E & F & G). rewrite E. simpl.
    destruct d; [|by exists b1, false]. pose proof F as [K O Ei]. rewrite G.
    destruct (IH (b1 <| flush_sector_idx_ := 0%nat |> <| flush_way_idx_ := S (flush_way_idx_ b) |>)) as (b' & d & E' & F'); [by eapply bank_ok_same|by rewrite <- Ei in Hset|simpl; unfold const; lia|].
    exists b', d. split; [done|]. eapply flushed_trans; [exact F|]. eapply flushed_trans; [|exact F']. by constructor; [eapply bank_ok_same|..].
Qed.

Lemma flush_sets_ok v H n : forall fuel b, bank_ok v H n b -> (Z.to_nat (sets_per_bank p) <= fuel + flush_set_idx_ b)%nat ->
  exists b' d, flush_sets p bank_id fuel b = Some (b', d) /\ bank_ok v H n b' /\ outstanding b' = outstanding b.
Proof.
  induction fuel as [|fuel IH]; intros b Hb Hfuel; cbn [flush_sets].
  all: destruct (Z.ltb_spec (Z.of_nat (flush_set_idx_ b)) (sets_per_bank p)); [|by exists b, true].
  - lia.
  - destruct (flush_ways_ok v H n (Z.to_nat (lines_per_set p)) b Hb ltac:(lia) ltac:(unfold ways; lia)) as (b1 & d & E & [K O Ei]). rewrite E. simpl.
    destruct d; [|by exists b1, false]. destruct (IH (b1 <| flush_set_idx_ := S (flush_set_idx_ b1) |> <| flush_way_idx_ := 0%nat |>)) as (b' & d & E' & K' & O');
      [by eapply bank_ok_same|simpl; unfold const; lia|]. exists b', d. split; [done|]. split; [done|]. rewrite O'. exact O.
Qed.

Lemma processFlush_ok v H n b : bank_ok v H n b -> step_ok v H b (processFlush p bank_id b).
Proof.
  intros Hb. unfold processFlush. destruct (_ || _ || _); [by eapply step_same|].
  destruct (flush_sets_ok v H n (Z.to_nat (sets_per_bank p)) b Hb ltac:(lia)) as (b' & d & E & K & O). rewrite E. simpl.
  split; [exists n; destruct d; [by eapply bank_ok_same|done]|]. rewrite <- O. by destruct d.
Qed.

Lemma bank_on_tick_ok v H n b : bank_ok v H n b -> Z.of_nat (length H) < 2 ^ 64 -> step_ok v H b (bank_on_tick cfg p bank_id ext_a b).
Proof.
  intros Hb HH. unfold bank_on_tick. set (b0 := b <| crsp_sent_ := false |>). assert (Hb0 : bank_ok v H n b0) by by eapply bank_ok_same.
  change (step_ok v H b) with (step_ok v H b0). apply step_bind.
  { destruct (tf_empty (pipe_req_ b0)) eqn:E; [by eapply step_same|by eapply processRequests_ok]. }
  intros n1 b1 Hb1.
  assert (Hfin : forall n2 b2 consumed, bank_ok v H n2 b2 -> fwd_post b2 consumed -> step_ok v H b2 (
    b ← (if tf_full (pipe_req_ b2) then Some b2 else processInputs cfg p bank_id ext_a b2 consumed);
    b ← (if flushing_ b then processFlush p bank_id b else Some b);
    Some (b <| perf_stats_ ::= fun s => s <| ps_mem_latency := u64 (ps_mem_latency s + pending_fill_reqs_ b) |> |>))).
  { intros n2 b2 consumed Hb2 Hfw. apply step_bind. { destruct (tf_full (pipe_req_ b2)) eqn:E; [by eapply step_same|by eapply processInputs_ok]. }
    intros n3 b3 Hb3. apply step_bind. { destruct (flushing_ b3); [by eapply processFlush_ok|by eapply step_same]. }
    intros n4 b4 Hb4. split; [exists n4; by eapply bank_ok_same|done]. }
  destruct (fwd_active_ b1) eqn:Ef; [|simpl; apply (Hfin n1); [done|by apply fwd_closed]].
  destruct (processForward_ok v H n1 b1 Hb1 Ef) as (b2 & consumed & E & Hb2 & Ho & Hfw & _). rewrite E. simpl.
  specialize (Hfin n1 b2 consumed Hb2 Hfw). unfold step_ok in *. destruct (_ ≫= _); [|lia]. destruct Hfin. split; [done|lia].
Qed.
End Bank.
