(* ===== verification/CacheTheorems.v ===== *)
(** * A write-back cache bank is transparent: the theorems

    The bank of [Cache] in the world of [CacheWorld]: requests arrive, the
    memory serves what the bank sends and answers in any order, the pipeline
    delay elapses and the bank ticks, in any interleaving. *)

From S2P Require Import Prelude MemTypes Amo Cache CacheWorld CacheAddr CacheSets CacheInv CacheOps CacheProofs.

Definition world_env (w : world) : env := {| en_mem := w_mem w; en_reads := w_reads w; en_log := w_log w |}.

Definition legal_event (cfg : Config) (p : params_t) (bank_id : Z) (ev : event) : Prop :=
  match ev with EvReq q => legal_req cfg p bank_id q | _ => True end.

(** Nothing is under way in the bank. *)
Definition idle (w : world) : Prop :=
  ch_q (core_req_in (w_bank w)) = [] /\ pipe_of (w_bank w) = [] /\ ms_size (mshr_ (w_bank w)) = 0 /\ ch_q (core_rsp_out (w_bank w)) = [].

(** No sector is dirty and every writeback has reached the memory. *)
Definition clean (w : world) : Prop :=
  ch_q (mem_req_out (w_bank w)) = [] /\
  Forall (fun s => Forall (fun l => Forall (fun sec => sc_valid sec && sc_dirty sec = false) (ln_sectors l)) (st_lines s)) (sets_ (w_bank w)).

(** At most [bound] requests are in the bank at every point of a run. *)
Fixpoint run_below (cfg : Config) (p : params_t) (bank_id : Z) (ext_a : bool) (bound : Z) (w : world) (evs : list event) : Prop :=
  outstanding (w_bank w) <= bound /\
  match evs with
  | [] => True
  | ev :: evs => match world_step cfg p bank_id ext_a w ev with Some w => run_below cfg p bank_id ext_a bound w evs | None => True end
  end.

Section World.
Context (cfg : Config) (p : params_t) (bank_id : Z) (ext_a : bool) (m0 : memory).
Hypothesis Hp : make_params cfg = Some p.
Hypothesis Hc : addr_config cfg.
Hypothesis Hwb : write_back cfg = true.
Hypothesis Hms : Z.of_nat (mshr_size cfg) < 2 ^ 16.
#[local] Set Default Proof Using "All".

Definition world_ok (w : world) : Prop := exists n, bank_ok cfg p bank_id m0 (world_env w) (w_hist w) n (w_bank w).

Lemma set_init_wf : set_wf (ways p) (secs p) (set_init (lines_per_set p) (sectors_per_line p)).
Proof using Type.
  constructor; simpl.
  - by rewrite length_replicate.
  - intros i l [-> _]%lookup_replicate. simpl. by rewrite length_replicate.
  - intros i j l l' [-> _]%lookup_replicate _ V. exfalso. unfold any_valid in V. simpl in V. apply existsb_exists in V as (s & Hs%list_elem_of_In & Vs).
    by apply elem_of_replicate in Hs as [-> _].
Qed.

Lemma view_init cap k : view (sets_ (CacheBank_init cfg p cap)) k = None.
Proof using Type.
  destruct k as [[i t] x]. unfold view. simpl. destruct (replicate _ _ !! Z.to_nat i) as [s|] eqn:E; [|done]. apply lookup_replicate in E as [-> _]. simpl.
  unfold sview. assert (En : find_resident (set_init (lines_per_set p) (sectors_per_line p)) t = None); [|by rewrite En].
  apply resident_none. intros j l [-> _]%lookup_replicate V. exfalso. unfold any_valid in V. simpl in V. apply existsb_exists in V as (s & Hs%list_elem_of_In & Vs).
  by apply elem_of_replicate in Hs as [-> _].
Qed.

Lemma world_init_ok cap : world_ok (world_init cfg p cap m0).
Proof.
  exists 0%nat. constructor; [|done|done|simpl; lia].
  assert (Dead : forall e, e ∈ replicate (mshr_size cfg) mshr_entry_reset -> live e = false) by (intros e [-> _]%elem_of_replicate; done).
  assert (DeadT : forall e t, e ∈ replicate (mshr_size cfg) mshr_entry_reset -> me_type e = t -> t = RNone) by (intros e t [-> _]%elem_of_replicate <-; done).
  assert (NoLive : filter (fun e => Is_true (live e)) (replicate (mshr_size cfg) mshr_entry_reset) = []).
  { apply elem_of_nil_inv. intros e [L He]%list_elem_of_filter. by rewrite (Dead e He) in L. }
  constructor; simpl; unfold P, es, cval; simpl; change (pipe_of (CacheBank_init cfg p cap)) with (@nil bank_req_t); try done.
  - constructor; simpl; [by rewrite length_replicate|]. intros i s [-> _]%lookup_replicate. apply set_init_wf.
  - intros e He Le. by rewrite (Dead e He) in Le.
  - intros r Hr. by apply not_elem_of_nil in Hr.
  - unfold pend. rewrite NoLive. constructor.
  - constructor; try done; intros; by (exfalso; eapply not_elem_of_nil).
  - constructor; try done; try (intros ? Hn; by apply not_elem_of_nil in Hn).
    + constructor.
    + intros e He Ht. by apply DeadT in Ht.
    + intros [|] ? ? E; done.
  - intros i t x sec _ _ Hv. by rewrite (view_init cap) in Hv.
  - intros k i Hk Hi _. assert (i = 0%nat) as -> by lia. unfold cur. by rewrite (view_init cap).
  - exists []. split_and!; [constructor|constructor|set_solver|intros; lia].
  - constructor; simpl; try done; [by rewrite length_replicate|by rewrite NoLive|].
    assert (E : filter (fun e => me_type e = RReplay) (replicate (mshr_size cfg) mshr_entry_reset) = []); [|by rewrite E].
    apply elem_of_nil_inv. intros e [L He]%list_elem_of_filter. by apply DeadT in L.
Qed.

Lemma drop_snoc {A} (l : list A) x n : (n <= length l)%nat -> drop n (l ++ [x]) = drop n l ++ [x].
Proof using Type. intros Hn. by rewrite drop_app_le. Qed.

(** An event keeps the invariant, and only a tick can fail, when the bank holds
    more requests than the MSHR has entries. *)
Lemma world_step_ok w ev : world_ok w -> legal_event cfg p bank_id ev -> Z.of_nat (length (w_hist w)) < 2 ^ 64 ->
  match world_step cfg p bank_id ext_a w ev with
  | Some w' => world_ok w' /\ (length (w_hist w') <= S (length (w_hist w)))%nat
  | None => Z.of_nat (mshr_size cfg) < outstanding (w_bank w)
  end.
Proof.
  intros [n Hb] Hev HH. pose proof Hb as [Hi Hs Hin Hpi]. destruct ev as [q| | |i| | |]; simpl.
  - destruct (ch_full _); [split; [by exists n|lia]|]. split; [|rproj; rewrite length_app; simpl; lia]. exists n. constructor; try done.
    + apply (inv_hist cfg p bank_id m0 Hp Hc (w_hist w) n _ q Hi Hev).
    + rproj. rewrite Hin. symmetry. apply drop_snoc. apply Hi.
  - destruct (ch_q (core_rsp_out (w_bank w))) as [|r l] eqn:E; [split; [by exists n|lia]|]. split; [|rproj; lia]. exists n. constructor; try done.
    eapply inv_eq; [exact Hi|]. apply core_ext; rproj; try done. rewrite E. simpl. by rewrite <- app_assoc.
  - destruct (ch_q (mem_req_out (w_bank w))) as [|q l] eqn:E; [split; [by exists n|lia]|].
    assert (Hop : memop_is_amo_rmw (rq_op q) = false).
    { destruct (fo_ops _ _ _ _ _ _ _ _ (i_fills _ _ _ _ _ _ _ Hi) q) as [-> |[-> _]]; [simpl; rewrite E; by left|done|done]. }
    unfold mem_serve. rewrite Hop, andb_false_r. simpl. destruct (mem_access (w_mem w) q) as [m r] eqn:Em. simpl. split; [|rproj; lia]. exists n. constructor; try done.
    pose proof (inv_mem cfg p bank_id m0 Hp Hc (w_hist w) n _ q l Hi E) as Hi'. simpl in Hi'. rewrite Em in Hi'. simpl in Hi'.
    eapply inv_eq; [eapply (inv_rsps cfg p bank_id m0 Hp Hc _ n _ (match r with Some r => w_reads w ++ [r] | None => w_reads w end ++ ch_q (mem_rsp_in (w_bank w))) Hi')|].
    + rproj. destruct r as [r|]; [|by rewrite app_nil_r]. rewrite <- !app_assoc. apply Permutation_app_head. apply Permutation_app_comm.
    + apply core_ext; rproj; try done. by rewrite E.
  - destruct (w_reads w !! i) as [r|] eqn:E; [|split; [by exists n|lia]]. destruct (ch_full _); [split; [by exists n|lia]|]. split; [|rproj; lia]. exists n. constructor; try done.
    eapply inv_eq; [eapply (inv_rsps cfg p bank_id m0 Hp Hc _ n _ (delete i (w_reads w) ++ ch_q (mem_rsp_in (w_bank w)) ++ [r]) Hi)|].
    + rproj. rewrite (delete_Permutation _ _ _ E) at 1. simpl. rewrite (Permutation_app_comm _ [r]). simpl. by rewrite Permutation_middle.
    + apply core_ext; rproj; done.
  - split; [|rproj; lia]. exists n. assert (Ep : pipe_of ((w_bank w) <| pipe_req_ := tf_arrive (pipe_req_ (w_bank w)) |>) = pipe_of (w_bank w)).
    { unfold pipe_of, tf_arrive. simpl. unfold const. destruct (tf_fly (pipe_req_ (w_bank w))) as [|x l] eqn:E; simpl; [by rewrite E|]. by rewrite <- app_assoc. }
    constructor; try done.
    + eapply inv_eq; [exact Hi|]. apply core_ext; rproj; try done.
    + destruct Hpi as [L C]. rewrite <- Ep in L. split; [exact L|]. simpl. unfold const, tf_arrive. by destruct (tf_fly _).
  - pose proof (bank_on_tick_ok cfg p bank_id ext_a m0 Hp Hc Hwb Hms _ _ n _ Hb HH) as Ht. unfold step_ok in Ht.
    destruct (bank_on_tick cfg p bank_id ext_a (w_bank w)) as [b|]; simpl; [|done]. split; [|rproj; lia]. destruct Ht as [[n' Hb'] _]. exists n'. exact Hb'.
  - split; [|rproj; lia]. exists n. by constructor.
Qed.

Lemma run_cons w ev evs : world_run cfg p bank_id ext_a w (ev :: evs) = (w ← world_step cfg p bank_id ext_a w ev; world_run cfg p bank_id ext_a w evs).
Proof using Type.
  unfold world_run. simpl. destruct (world_step cfg p bank_id ext_a w ev) as [w'|]; [done|]. simpl. induction evs as [|e evs IH]; [done|]. simpl. exact IH.
Qed.

Lemma run_ok evs : forall w, world_ok w -> Forall (legal_event cfg p bank_id) evs -> Z.of_nat (length (w_hist w) + length evs) < 2 ^ 64 ->
  match world_run cfg p bank_id ext_a w evs with
  | Some w' => world_ok w'
  | None => ~ run_below cfg p bank_id ext_a (Z.of_nat (mshr_size cfg)) w evs
  end.
Proof.
  induction evs as [|ev evs IH]; intros w Hw HL HH; [done|]. inversion_clear HL as [|? ? Hev HL']. rewrite run_cons. simpl in HH.
  pose proof (world_step_ok w ev Hw Hev ltac:(lia)) as Hs. simpl. destruct (world_step cfg p bank_id ext_a w ev) as [w1|]; simpl; [|lia].
  destruct Hs as [Hw1 Hl]. specialize (IH w1 Hw1 HL' ltac:(lia)). destruct (world_run cfg p bank_id ext_a w1 evs); [done|]. tauto.
Qed.

(** An idle bank has taken and completed everything. *)
Lemma idle_pend H n v b : bank_ok cfg p bank_id m0 v H n b -> ch_q (core_req_in b) = [] -> pipe_of b = [] -> ms_size (mshr_ b) = 0 ->
  n = length H /\ P (bcore v b) = [].
Proof.
  intros [Hi _ Hin _] E1 E2 E3. split.
  - rewrite Hin in E1. apply (f_equal length) in E1. rewrite length_drop in E1. simpl in E1. pose proof (i_bound _ _ _ _ _ _ _ Hi). lia.
  - unfold P, es, pend. simpl. rewrite E2. simpl. pose proof (co_size _ _ _ _ _ _ (i_counts _ _ _ _ _ _ _ Hi)) as C. simpl in C. rewrite E3 in C.
    destruct (filter _ (ms_entries _)); [done|simpl in C; lia].
Qed.

Lemma log_answers w : world_ok w -> exists ids, NoDup ids /\
  Forall2 (fun i r => exists q, w_hist w !! i = Some q /\ r = answer m0 (w_hist w) i q /\ wants_rsp cfg q = true) ids (w_log w) /\
  (idle w -> forall i q, w_hist w !! i = Some q -> wants_rsp cfg q = true -> i ∈ ids).
Proof.
  intros [n Hb]. destruct (i_answers _ _ _ _ _ _ _ (bo_inv _ _ _ _ _ _ _ _ Hb)) as (ids & N1 & N2 & N3 & N4). simpl in N2.
  apply Forall2_app_inv_r in N2 as (ids1 & ids2 & F1 & F2 & ->). exists ids1. split_and!; [by apply list.NoDup_app in N1 as [? _]|done|].
  intros (I1 & I2 & I3 & I4) i q Hq Hw. rewrite I4 in F2. inversion F2; subst. rewrite app_nil_r in *.
  destruct (idle_pend _ _ _ _ Hb I1 I2 I3) as [-> EP]. apply (N4 i q); [by eapply lookup_lt_Some|done|done|]. rewrite EP. apply not_elem_of_nil.
Qed.

(** The sectors that a lookup finds are among those of the sets. *)
Lemma view_sector ss k sec : view ss k = Some sec -> exists s l, s ∈ ss /\ l ∈ st_lines s /\ sec ∈ ln_sectors l /\ sc_valid sec = true.
Proof using Type.
  destruct k as [[i t] x]. unfold view, sview. destruct (ss !! Z.to_nat i) as [s|] eqn:E; [|done]. simpl. destruct (find_resident s t) as [way|]; [|done]. simpl.
  destruct (st_lines s !! way) as [l|] eqn:El; [|done]. simpl. intros (_ & V & Hl)%vsec_valid. exists s, l. split_and!; [by eapply list_elem_of_lookup_2..|done].
Qed.

Lemma clean_memory w a : world_ok w -> idle w -> clean w -> legal_addr cfg p bank_id a ->
  read_block (w_mem w) (block_of a) = read_block (serve_all m0 (w_hist w)) (block_of a).
Proof.
  intros [n Hb] (I1 & I2 & I3 & _) [Ho Hcl] Ha. destruct (idle_pend _ _ _ _ Hb I1 I2 I3) as [-> EP]. pose proof (bo_inv _ _ _ _ _ _ _ _ Hb) as Hi.
  assert (Hk : legal_key cfg p bank_id (key_of p a)) by by exists a. pose proof (i_values _ _ _ _ _ _ _ Hi (key_of p a) (length (w_hist w)) Hk ltac:(done) ltac:(by left)) as HV.
  rewrite EP, pval_none in HV by (intros ? ? _ _ Hn; by apply not_elem_of_nil in Hn). unfold spec_mem in HV. rewrite firstn_all in HV.
  rewrite (saddr_key cfg p bank_id Hp Hc a Ha) in HV. rewrite <- HV. unfold cval, cur. simpl.
  assert (Emv : read_block (w_mem w) (block_of a) = mv p bank_id (bcore (world_env w) (w_bank w)) (key_of p a)).
  { unfold mv. simpl. rewrite Ho, (saddr_key cfg p bank_id Hp Hc a Ha). done. }
  rewrite Emv. destruct (view (sets_ (w_bank w)) (key_of p a)) as [sec|] eqn:Ev; [|done]. destruct (view_sector _ _ _ Ev) as (s & l & Hs & Hl & Hsec & V).
  rewrite list.Forall_forall in Hcl. specialize (Hcl s Hs). rewrite list.Forall_forall in Hcl. specialize (Hcl l Hl). rewrite list.Forall_forall in Hcl.
  specialize (Hcl sec Hsec). rewrite V in Hcl. simpl in Hcl. destruct (legal_range cfg p bank_id Hp Hc a Ha) as (_ & _ & H1 & _ & H3).
  rewrite <- (clean_sector cfg p bank_id ext_a m0 Hp Hc Hwb Hms _ _ _ _ _ _ sec Hi H1 H3 Ev Hcl). done.
Qed.
End World.

(** ** Theorems *)

(** C1 (refinement): a write-back bank is transparent to loads and stores.
    Whatever the interleaving of requests, memory service, out-of-order memory
    responses, flushes and ticks, every response the core has taken is the
    response the memory itself would have given to that request had it served
    the requests one at a time in the order they arrived; no request is
    answered twice, and when the bank is idle every request that wants a
    response has had it. *)
Theorem bank_linearizable cfg p bank_id ext_a cap m evs w :
  make_params cfg = Some p -> addr_config cfg -> write_back cfg = true -> Z.of_nat (mshr_size cfg) < 2 ^ 16 ->
  Forall (legal_event cfg p bank_id) evs -> Z.of_nat (length evs) < 2 ^ 64 ->
  world_run cfg p bank_id ext_a (world_init cfg p cap m) evs = Some w ->
  exists ids, NoDup ids /\
    Forall2 (fun i r => exists q, w_hist w !! i = Some q /\ r = answer m (w_hist w) i q /\ wants_rsp cfg q = true) ids (w_log w) /\
    (idle w -> forall i q, w_hist w !! i = Some q -> wants_rsp cfg q = true -> i ∈ ids).
Proof.
  intros Hp Hc Hwb Hms HL HH Hrun. apply (log_answers cfg p bank_id ext_a m Hp Hc Hwb Hms).
  pose proof (run_ok cfg p bank_id ext_a m Hp Hc Hwb Hms evs (world_init cfg p cap m) (world_init_ok cfg p bank_id ext_a m Hp Hc Hwb Hms cap) HL ltac:(simpl; lia)) as Hr.
  by rewrite Hrun in Hr.
Qed.

(** C6 (safety): as long as a write-back bank that is sent loads and stores
    holds at most as many requests as its MSHR has entries, counting those at
    its input port, no assertion of the bank fails, no channel or pipeline
    overruns and no index is out of range, whatever the interleaving. *)
Theorem bank_never_aborts cfg p bank_id ext_a cap m evs :
  make_params cfg = Some p -> addr_config cfg -> write_back cfg = true -> Z.of_nat (mshr_size cfg) < 2 ^ 16 ->
  Forall (legal_event cfg p bank_id) evs -> Z.of_nat (length evs) < 2 ^ 64 ->
  run_below cfg p bank_id ext_a (Z.of_nat (mshr_size cfg)) (world_init cfg p cap m) evs ->
  exists w, world_run cfg p bank_id ext_a (world_init cfg p cap m) evs = Some w.
Proof.
  intros Hp Hc Hwb Hms HL HH Hb.
  pose proof (run_ok cfg p bank_id ext_a m Hp Hc Hwb Hms evs (world_init cfg p cap m) (world_init_ok cfg p bank_id ext_a m Hp Hc Hwb Hms cap) HL ltac:(simpl; lia)) as Hr.
  destruct (world_run cfg p bank_id ext_a (world_init cfg p cap m) evs) as [w|]; [by exists w|contradiction].
Qed.

(** C34 (functional): when a write-back bank that was sent loads and stores is
    idle and holds no dirty sector, every block of the bank has in memory the
    value it has after all the requests in the order they arrived. *)
Theorem bank_clean_memory cfg p bank_id ext_a cap m evs w a :
  make_params cfg = Some p -> addr_config cfg -> write_back cfg = true -> Z.of_nat (mshr_size cfg) < 2 ^ 16 ->
  Forall (legal_event cfg p bank_id) evs -> Z.of_nat (length evs) < 2 ^ 64 ->
  world_run cfg p bank_id ext_a (world_init cfg p cap m) evs = Some w -> idle w -> clean w -> legal_addr cfg p bank_id a ->
  read_block (w_mem w) (block_of a) = read_block (serve_all m (w_hist w)) (block_of a).
Proof.
  intros Hp Hc Hwb Hms HL HH Hrun Hid Hcl Ha. apply (clean_memory cfg p bank_id ext_a m Hp Hc Hwb Hms w a); try done.
  pose proof (run_ok cfg p bank_id ext_a m Hp Hc Hwb Hms evs (world_init cfg p cap m) (world_init_ok cfg p bank_id ext_a m Hp Hc Hwb Hms cap) HL ltac:(simpl; lia)) as Hr.
  by rewrite Hrun in Hr.
Qed.

(** ** Examples: a direct-mapped bank of eight lines *)

Module CacheDemo.

Definition cfg (wb : bool) (ms : nat) : Config := {|
  cf_bypass := false; cf_C := 9; cf_L := 6; cf_S := 6; cf_W := 2; cf_A := 0; cf_B := 0; cf_addr_width := 32; cf_num_inputs := 1; cf_mem_ports := 1;
  write_back := wb; write_reponse := false; mshr_size := ms; cf_latency := 2; repl_policy := PLRU; is_llc := true |}.

Definition pp : params_t := {|
  sets_per_bank := 8; lines_per_set := 1; words_per_line := 16; sectors_per_line := 1; sector_select_addr_start := 6; sector_select_addr_end := 5;
  word_select_addr_start := 2; word_select_addr_end := 5; bank_select_addr_start := 6; bank_select_addr_end := 5;
  set_select_addr_start := 6; set_select_addr_end := 8; tag_select_addr_start := 9; tag_select_addr_end := 31 |}.

Definition ld (t a : Z) : event := EvReq {| rq_op := MLD; rq_addr := a; rq_data := None; rq_byteen := 0; rq_tag := t; rq_hart_id := 0; rq_uuid := 0; rq_flags := 0 |}.
Definition st (t a v : Z) : event :=
  EvReq {| rq_op := MST; rq_addr := a; rq_data := Some (replicate 64 v); rq_byteen := 15; rq_tag := t; rq_hart_id := 0; rq_uuid := 0; rq_flags := 0 |}.
Definition cyc : list event := [EvTick; EvPipe; EvRsp].
Definition full_cyc : list event := [EvTick; EvPipe; EvMem; EvReply 0; EvRsp].
Definition rep (n : nat) (l : list event) : list event := concat (replicate n l).
Definition ramp : memory := fun a => a mod 256.
Definition start (wb : bool) (ms : nat) : world := world_init (cfg wb ms) pp 2 ramp.
Definition run (wb : bool) (ms : nat) (evs : list event) : option world := world_run (cfg wb ms) pp 0 false (start wb ms) evs.

(** What the core saw: the tag and the first byte of each response. *)
Definition seen (w : world) : list (Z * Z) := map (fun r => (rs_tag r, default (-1) (d ← rs_data r; d !! 0%nat))) (w_log w).

(** A miss, a store and a load that join it, an eviction of the dirty line, and a flush. *)
Definition script : list event :=
  [ld 1 256; st 2 256 7] ++ full_cyc ++ [ld 3 256] ++ rep 10 full_cyc ++ [ld 4 768] ++ rep 10 full_cyc ++ [st 5 768 9] ++ rep 6 full_cyc ++ [EvFlush] ++ rep 4 full_cyc.

Definition final : world := default (start true 4) (world_run (cfg true 4) pp 0 false (world_init (cfg true 4) pp 2 ramp) script).

Lemma run_some (o : option world) d : match o with Some _ => true | None => false end = true -> o = Some (default d o).
Proof. by destruct o. Qed.

Lemma final_run : world_run (cfg true 4) pp 0 false (world_init (cfg true 4) pp 2 ramp) script = Some final.
Proof. apply run_some. vm_compute. reflexivity. Qed.

Lemma demo_config ms : addr_config (cfg true ms).
Proof. constructor; simpl; lia. Qed.

Lemma script_legal : Forall (legal_event (cfg true 4) pp 0) script.
Proof. repeat constructor; simpl; (by left) || (by right) || (unfold in_u; lia) || (vm_compute; reflexivity) || done. Qed.

Lemma bank_linearizable_witness : seen final = [(1, 0); (3, 7); (4, 0)] /\ exists ids, NoDup ids /\
  Forall2 (fun i r => exists q, w_hist final !! i = Some q /\ r = answer ramp (w_hist final) i q /\ wants_rsp (cfg true 4) q = true) ids (w_log final) /\
  (idle final -> forall i q, w_hist final !! i = Some q -> wants_rsp (cfg true 4) q = true -> i ∈ ids).
Proof.
  split; [vm_compute; reflexivity|].
  apply (bank_linearizable (cfg true 4) pp 0 false 2 ramp script final); [reflexivity|apply demo_config|reflexivity|reflexivity|apply script_legal|reflexivity|exact final_run].
Defined.

Lemma bank_never_aborts_witness : run_below (cfg true 4) pp 0 false 4 (world_init (cfg true 4) pp 2 ramp) script /\
  exists w, world_run (cfg true 4) pp 0 false (world_init (cfg true 4) pp 2 ramp) script = Some w.
Proof.
  assert (Hb : run_below (cfg true 4) pp 0 false 4 (world_init (cfg true 4) pp 2 ramp) script) by (vm_compute; repeat split; discriminate). split; [exact Hb|].
  apply (bank_never_aborts (cfg true 4) pp 0 false 2 ramp script); [reflexivity|apply demo_config|reflexivity|reflexivity|apply script_legal|reflexivity|exact Hb].
Defined.

Lemma final_idle : idle final.
Proof. split_and!; vm_compute; reflexivity. Qed.

Lemma final_clean : clean final.
Proof. split; vm_compute; [reflexivity|]. repeat constructor. Qed.

Lemma bank_clean_memory_witness : w_mem final 256 = 7 /\ w_mem final 768 = 9 /\
  read_block (w_mem final) (block_of 768) = read_block (serve_all ramp (w_hist final)) (block_of 768).
Proof.
  split; [vm_compute; reflexivity|]. split; [vm_compute; reflexivity|].
  apply (bank_clean_memory (cfg true 4) pp 0 false 2 ramp script final 768);
    [reflexivity|apply demo_config|reflexivity|reflexivity|apply script_legal|reflexivity|exact final_run|exact final_idle|exact final_clean|].
  split; [unfold in_u; simpl; lia|reflexivity].
Defined.

(** ** Findings *)

(** With write-through stores, the load with tag 7 arrives after the store with
    tag 6 to the same block and is answered with the value before the store: the
    store waits at the head of the pipeline for room to the memory while the
    load, chained to the draining fill, is forwarded. *)
Definition wt_script : list event :=
  [ld 1 256] ++ rep 2 cyc ++ [EvMem; ld 2 256] ++ rep 2 cyc ++ [ld 3 256] ++ cyc ++ [st 4 1024 9; st 5 2112 9] ++ rep 5 cyc ++ [EvReply 0] ++ cyc ++
  [st 6 256 7; ld 7 256] ++ rep 6 cyc ++ rep 10 full_cyc.

Lemma wt_load_overtakes_store :
  (w ← run false 8 wt_script; r ← list_find (fun r => rs_tag r = 7) (w_log w); d ← rs_data (snd r); d !! 0%nat) = Some 0 /\
  (w ← run false 8 wt_script; Some (map (fun q => (rq_tag q, is_write q)) (w_hist w))) = Some [(1, false); (2, false); (3, false); (4, true); (5, true); (6, true); (7, false)] /\
  (w ← run false 8 wt_script; q ← w_hist w !! 6%nat; d ← rs_data (answer ramp (w_hist w) 6 q); d !! 0%nat) = Some 7.
Proof. split_and!; vm_compute; reflexivity. Qed.

(** Two fills of one set in the pipeline evict each other's line; the replays
    that miss take the entries the admission had kept for the requests in the
    pipeline, and the next miss finds the MSHR full. *)
Definition overflow_script : list event :=
  [st 1 256 7; ld 2 768] ++ rep 4 cyc ++ [st 3 256 8] ++ rep 4 cyc ++ [EvMem; EvMem; EvReply 0; EvReply 0; EvTick; EvTick; EvPipe; EvPipe; ld 4 0; ld 5 64] ++
  rep 12 cyc ++ [EvMem; EvTick].

Lemma mshr_overflow_aborts : run true 3 overflow_script = None.
Proof. vm_compute. reflexivity. Qed.

(** A flush that starts while a store is in the delay line of the pipeline is
    done before the store, and leaves its line dirty. *)
Definition early_flush_script : list event := [ld 1 256] ++ rep 8 full_cyc ++ [st 2 256 7; EvFlush; EvTick; EvPipe; EvTick] ++ rep 4 full_cyc.

Lemma flush_misses_store :
  (w ← run true 4 early_flush_script; Some (flushing_ (w_bank w), ch_q (core_req_in (w_bank w)), w_mem w 256, existsb any_dirty (mjoin (map st_lines (sets_ (w_bank w)))))) =
  Some (false, [], 0, true).
Proof. vm_compute. reflexivity. Qed.
End CacheDemo.
