(* ===== verification/LsuTypes.v ===== *)
(** * Packets of the load/store path

    What the load/store unit, the local-memory switch, the coalescer and the
    lane adapter share ([sim/simx/types.h]): the per-warp request and response
    with one slot per lane, the address classes, the identifier of a hart and
    the table of outstanding requests.  A failed assertion, or an index out of
    the range of a [std::vector::at], is [None]. *)

From S2P Require Import Prelude MemTypes Sched.

(** ** Bit vectors, as lists of bits ([sw/common/bitvector.h]) *)

Definition bv_set (m : list bool) (i : nat) : list bool := <[i := true]> m.
Definition bv_reset (m : list bool) (i : nat) : list bool := <[i := false]> m.
Definition bv_or (a b : list bool) : list bool := zip_with orb a b.
Definition bv_andn (a b : list bool) : list bool := zip_with (fun x y => x && negb y) a b.
Definition bv_none (m : list bool) : bool := negb (any m).

(** ** Address classes *)

Inductive AddrType := Global | Shared | IO.

(** The address map of the generated configuration headers. *)
Record addr_map := { VX_MEM_IO_BASE_ADDR : Z; VX_MEM_IO_END_ADDR : Z; VX_CFG_LMEM_ENABLED : bool; VX_MEM_LMEM_BASE_ADDR : Z; VX_CFG_LMEM_LOG_SIZE : Z }.

Definition get_addr_type (am : addr_map) (addr : Z) : AddrType :=
  if (VX_MEM_IO_BASE_ADDR am <=? addr) && (addr <? VX_MEM_IO_END_ADDR am) then IO
  else if VX_CFG_LMEM_ENABLED am && ((VX_MEM_LMEM_BASE_ADDR am <=? addr) && (addr - VX_MEM_LMEM_BASE_ADDR am <? Z.shiftl 1 (VX_CFG_LMEM_LOG_SIZE am)))
  then Shared
  else Global.

#[export] Instance AddrType_eq_dec : EqDecision AddrType.
Proof. solve_decision. Defined.

(** Assigning a one-bit field of [MemFlags]. *)
Definition fl_set (flags i : Z) (b : bool) : Z :=
  if b then Z.lor flags (Z.shiftl 1 i) else Z.land flags (u32 (Z.lnot (Z.shiftl 1 i))).

(** [mr.flags = in_req.flags; mr.flags.io = ...; mr.flags.local = ...] *)
Definition class_flags (am : addr_map) (flags addr : Z) : Z :=
  let t := get_addr_type am addr in
  fl_set (fl_set flags 1 (bool_decide (t = IO))) 2 (bool_decide (t = Shared)).

(** ** Harts *)

Record hart_cfg := { LOG_WARPS : Z; LOG_THREADS : Z }.

Definition make_hart_id (hc : hart_cfg) (cid wid tid : Z) : Z :=
  Z.lor (Z.lor (u32 (Z.shiftl cid (LOG_WARPS hc + LOG_THREADS hc))) (u32 (Z.shiftl wid (LOG_THREADS hc)))) tid.

(** ** Packets *)

Abbreviation block := (list Z).

Record LsuReq := {
  lq_op : MemOp; lq_flags : Z; lq_addrs : list Z; lq_data : list (option block); lq_byteen : list Z;
  lq_mask : list bool; lq_tids : list Z; lq_tag : Z; lq_cid : Z; lq_wid : Z; lq_uuid : Z
}.

Definition LsuReq_init (size : nat) : LsuReq := {|
  lq_op := MLD; lq_flags := 0; lq_addrs := replicate size 0; lq_data := replicate size None; lq_byteen := replicate size 0;
  lq_mask := zeros size; lq_tids := replicate size 0; lq_tag := 0; lq_cid := 0; lq_wid := 0; lq_uuid := 0 |}.

Definition lq_is_write (q : LsuReq) : bool := memop_is_write (lq_op q).
Definition lq_is_amo (q : LsuReq) : bool := memop_is_atomic (lq_op q).

Record LsuRsp := { lr_mask : list bool; lr_tag : Z; lr_cid : Z; lr_uuid : Z; lr_data : list (option block) }.

Definition LsuRsp_init (size : nat) : LsuRsp :=
  {| lr_mask := zeros size; lr_tag := 0; lr_cid := 0; lr_uuid := 0; lr_data := replicate size None |}.

(** Per-lane fields; every vector of a request has one slot per lane. *)
Definition lane_addr (q : LsuReq) (i : nat) : Z := default 0 (lq_addrs q !! i).
Definition lane_data (q : LsuReq) (i : nat) : option block := default None (lq_data q !! i).
Definition lane_be (q : LsuReq) (i : nat) : Z := default 0 (lq_byteen q !! i).
Definition lane_tid (q : LsuReq) (i : nat) : Z := default 0 (lq_tids q !! i).

(** ** The table of outstanding requests ([HashTable]) *)

Record HashTable (T : Type) := { ht_entries : list (option T); ht_size : nat }.
Arguments ht_entries {T}. Arguments ht_size {T}.

Definition HashTable_init {T} (capacity : nat) : HashTable T := {| ht_entries := replicate capacity None; ht_size := 0 |}.
Definition ht_empty {T} (h : HashTable T) : bool := (ht_size h =? 0)%nat.
Definition ht_full {T} (h : HashTable T) : bool := (ht_size h =? length (ht_entries h))%nat.
Definition ht_at {T} (h : HashTable T) (index : Z) : option T := v ← ht_entries h !! Z.to_nat index; v.
Definition ht_put {T} (h : HashTable T) (index : Z) (x : T) : HashTable T := h <| ht_entries := <[Z.to_nat index := Some x]> (ht_entries h) |>.

(** The first free entry. *)
Fixpoint ht_free {T} (l : list (option T)) : option nat :=
  match l with
  | [] => None
  | None :: _ => Some O
  | Some _ :: l => S <$> ht_free l
  end.

Definition ht_allocate {T} (h : HashTable T) (x : T) : option (Z * HashTable T) :=
  i ← ht_free (ht_entries h);
  Some (Z.of_nat i, {| ht_entries := <[i := Some x]> (ht_entries h); ht_size := S (ht_size h) |}).

Definition ht_release {T} (h : HashTable T) (index : Z) : option (HashTable T) :=
  _ ← ht_at h index;
  Some {| ht_entries := <[Z.to_nat index := None]> (ht_entries h); ht_size := pred (ht_size h) |}.

(** ** Ports, one channel per lane *)

Definition port_head {A} (chs : list (chan A)) (j : nat) : option A := ch ← chs !! j; head (ch_q ch).

(** The first port of [n] that has a packet. *)
Definition first_port {A} (n : nat) (chs : list (chan A)) : option nat :=
  find (fun j => match port_head chs j with Some _ => true | None => false end) (seq 0 n).

(** The ports from [o] on whose first response carries [tag]. *)
Definition tag_ports (n : nat) (chs : list (chan MemRsp)) (o : nat) (tag : Z) : list bool :=
  map (fun j => (o <=? j)%nat && match port_head chs j with Some r => rs_tag r =? tag | None => false end) (seq 0 n).

Definition pop_ports {A} (ports : list bool) (chs : list (chan A)) : list (chan A) :=
  imap (fun j ch => if test ports j then ch_pop ch else ch) chs.

(** [try_send] of the request of lane [o], if it is still to be sent. *)
Definition send_lane (reqs : list MemReq) (st : list bool * list (chan MemReq)) (o : nat) : list bool * list (chan MemReq) :=
  let '(lanes, chs) := st in
  if test lanes o then
    match chs !! o, reqs !! o with
    | Some ch, Some r => if ch_full ch then (lanes, chs) else (bv_reset lanes o, <[o := ch_push ch r]> chs)
    | _, _ => (lanes, chs)
    end
  else (lanes, chs).

Definition send_lanes (n : nat) (reqs : list MemReq) (lanes : list bool) (chs : list (chan MemReq)) : list bool * list (chan MemReq) :=
  fold_left (send_lane reqs) (seq 0 n) (lanes, chs).

Lemma fold_left_map_l {A B C} (f : A -> B -> A) (g : C -> B) l a : fold_left f (map g l) a = fold_left (fun a x => f a (g x)) l a.
Proof. revert a. induction l as [|x l IH]; intros a; [done|]. apply IH. Qed.

(** ** Lemmas on bit vectors *)

Lemma length_bv_set m i : length (bv_set m i) = length m.
Proof. apply length_insert. Qed.

Lemma length_bv_reset m i : length (bv_reset m i) = length m.
Proof. apply length_insert. Qed.

Lemma length_bv_or a b : length a = length b -> length (bv_or a b) = length a.
Proof. intros. unfold bv_or. rewrite length_zip_with. lia. Qed.

Lemma length_bv_andn a b : length a = length b -> length (bv_andn a b) = length a.
Proof. intros. unfold bv_andn. rewrite length_zip_with. lia. Qed.

Lemma test_bv_set m i j : test (bv_set m i) j = test m j || ((j =? i)%nat && (j <? length m)%nat).
Proof.
  unfold test, bv_set. destruct (Nat.eqb_spec j i) as [->|].
  - destruct (Nat.ltb_spec i (length m)).
    + rewrite list_lookup_insert_eq by done. cbn. by rewrite orb_true_r.
    + rewrite list_insert_ge by lia. by rewrite orb_false_r.
  - rewrite list_lookup_insert_ne by done. by rewrite orb_false_r.
Qed.

Lemma test_bv_reset m i j : test (bv_reset m i) j = test m j && negb (j =? i)%nat.
Proof.
  unfold test, bv_reset. destruct (Nat.eqb_spec j i) as [->|].
  - rewrite andb_false_r. destruct (decide (i < length m)%nat).
    + by rewrite list_lookup_insert_eq by done.
    + rewrite list_insert_ge by lia. by rewrite lookup_ge_None_2 by lia.
  - rewrite list_lookup_insert_ne by done. by rewrite andb_true_r.
Qed.

Lemma test_bv_or a b j : length a = length b -> test (bv_or a b) j = test a j || test b j.
Proof.
  intros E. unfold test, bv_or. rewrite lookup_zip_with. destruct (a !! j) eqn:Ha.
  - destruct (lookup_lt_is_Some_2 b j) as [y Hy]; [rewrite <- E; by eapply lookup_lt_Some|]. by rewrite Hy.
  - rewrite (lookup_ge_None_2 b); [done|]. rewrite <- E. by apply lookup_ge_None.
Qed.

Lemma test_bv_andn a b j : length a = length b -> test (bv_andn a b) j = test a j && negb (test b j).
Proof.
  intros E. unfold test, bv_andn. rewrite lookup_zip_with. destruct (a !! j) eqn:Ha; [|done].
  destruct (lookup_lt_is_Some_2 b j) as [y Hy]; [rewrite <- E; by eapply lookup_lt_Some|]. by rewrite Hy.
Qed.

Lemma test_ge m j : (length m <= j)%nat -> test m j = false.
Proof. intros. unfold test. by rewrite lookup_ge_None_2. Qed.

Lemma any_spec m : any m = true <-> exists j, test m j = true.
Proof.
  unfold any. rewrite existsb_exists. split.
  - intros (b & Hin & Hb). destruct b; [|done]. apply list_elem_of_In, list_elem_of_lookup in Hin as [j Hj]. exists j. unfold test. by rewrite Hj.
  - intros [j Hj]. unfold test in Hj. destruct (m !! j) as [b|] eqn:E; [|done]. cbn in Hj. subst b.
    exists true. split; [|done]. apply list_elem_of_In. by eapply list_elem_of_lookup_2.
Qed.

Lemma bv_none_spec m : bv_none m = true <-> forall j, test m j = false.
Proof.
  unfold bv_none. rewrite negb_true_iff. split.
  - intros H j. destruct (test m j) eqn:E; [|done]. assert (any m = true) by (apply any_spec; eauto). congruence.
  - intros H. apply not_true_is_false. intros [j Hj]%any_spec. by rewrite H in Hj.
Qed.

Lemma bv_none_false m : bv_none m = false <-> exists j, test m j = true.
Proof. unfold bv_none. rewrite negb_false_iff. apply any_spec. Qed.

#[export] Hint Rewrite length_bv_set length_bv_reset test_bv_set test_bv_reset test_zeros : grx_rw.

(** ** Lemmas on the table *)

Section Table.
Context {T : Type}.
Implicit Types (h : HashTable T) (x : T).

Definition ht_live h : nat := length (omap id (ht_entries h)).
Definition ht_ok h : Prop := ht_size h = ht_live h.

Lemma ht_live_le h : (ht_live h <= length (ht_entries h))%nat.
Proof. unfold ht_live. induction (ht_entries h) as [|[?|] l IH]; cbn; lia. Qed.

Lemma ht_free_spec (l : list (option T)) i : ht_free l = Some i -> l !! i = Some None.
Proof.
  revert i. induction l as [|[y|] l IH]; intros i H; cbn in H; simplify_eq; [|done].
  apply fmap_Some in H as (j & Hj & ->). by apply IH.
Qed.

Lemma ht_free_Some (l : list (option T)) : (length (omap id l) < length l)%nat -> exists i, ht_free l = Some i.
Proof.
  induction l as [|[y|] l IH]; cbn; [lia| |eauto]. intros H. destruct IH as [i ->]; [lia|]. by exists (S i).
Qed.

Lemma ht_live_insert (l : list (option T)) i v w : l !! i = Some v ->
  (length (omap id (<[i := w]> l)) + (if v is Some _ then 1 else 0) = length (omap id l) + (if w is Some _ then 1 else 0))%nat.
Proof.
  revert i. induction l as [|y l IH]; intros [|i] H; cbn in H; simplify_eq.
  - change (<[0%nat:=w]> (v :: l)) with (w :: l). destruct v, w; cbn; lia.
  - change (<[S i:=w]> (y :: l)) with (y :: <[i:=w]> l). specialize (IH i H). destruct y; cbn; lia.
Qed.

Lemma ht_allocate_ok h x : ht_ok h -> ht_full h = false -> exists i h', ht_allocate h x = Some (Z.of_nat i, h') /\ ht_ok h' /\
  ht_entries h !! i = Some None /\ ht_entries h' = <[i := Some x]> (ht_entries h).
Proof.
  intros Hok Hf. unfold ht_full in Hf. apply Nat.eqb_neq in Hf. pose proof (ht_live_le h) as Hle. unfold ht_ok in *.
  destruct (ht_free_Some (ht_entries h)) as [i Hi]; [unfold ht_live in *; lia|].
  exists i, {| ht_entries := <[i := Some x]> (ht_entries h); ht_size := S (ht_size h) |}. unfold ht_allocate. rewrite Hi. cbn.
  pose proof (ht_free_spec _ _ Hi) as Hl. split_and!; try done.
  pose proof (ht_live_insert _ i None (Some x) Hl). unfold ht_live in *. cbn in *. lia.
Qed.

Lemma ht_put_ok h (i : nat) x y : ht_ok h -> ht_entries h !! i = Some (Some y) -> ht_ok (ht_put h (Z.of_nat i) x).
Proof.
  intros Hok Hl. unfold ht_ok, ht_live, ht_put in *. rsimp. rewrite Nat2Z.id.
  pose proof (ht_live_insert _ i (Some y) (Some x) Hl). cbn in *. lia.
Qed.

Lemma ht_release_ok h (i : nat) x : ht_ok h -> ht_entries h !! i = Some (Some x) ->
  exists h', ht_release h (Z.of_nat i) = Some h' /\ ht_ok h' /\ ht_entries h' = <[i := None]> (ht_entries h).
Proof.
  intros Hok Hl. unfold ht_release, ht_at. rewrite Nat2Z.id, Hl. cbn. eexists. split; [done|]. cbn. split; [|done].
  pose proof (ht_live_insert _ i (Some x) None Hl). unfold ht_ok, ht_live in *. cbn in *. lia.
Qed.

Lemma ht_at_nat h (i : nat) : ht_at h (Z.of_nat i) = ht_entries h !! i ≫= id.
Proof. unfold ht_at. by rewrite Nat2Z.id. Qed.

Lemma ht_init_ok n : ht_ok (HashTable_init (T := T) n).
Proof. unfold ht_ok, ht_live, HashTable_init. cbn. by induction n. Qed.

End Table.
