(* ===== verification/Fetch.v ===== *)
(** * The fetch stage

    [Core::fetch] of [sim/simx/core.cpp], with compressed instructions: the
    stage hands icache responses to the decompressor, pushes complete
    instructions into the decode latch, and sends the next request, a refetch
    before a fresh trace.  The icache answers requests in any order; the world
    of the stage below holds the requests that are not answered yet. *)

From S2P Require Import Prelude LsuTypes Rvc.

(** ** The stage *)

(** Traces are shared by pointer in the source: the code written into a trace
    is not read before it leaves the stage, so the copies held here are not
    updated. *)
Record FetchStage := { fetch_latch_ : list fetch_trace; pending_icache_ : HashTable fetch_trace; decompressor_ : Decompressor }.

Definition FetchStage_init (num_warps : nat) : FetchStage :=
  {| fetch_latch_ := []; pending_icache_ := HashTable_init num_warps; decompressor_ := Decompressor_init num_warps |}.

Section Stage.
Context (XLEN MEM_BLOCK_SIZE : Z).

(** A response is at the head of its channel: [(tag, line)]; [room] says that
    the decode latch accepts a trace.  The result says whether the response
    was popped and which trace was pushed into the latch. *)
Definition fetch_rsp (s : FetchStage) (rsp : Z * list Z) (room : bool) : option (FetchStage * bool * option fetch_trace) :=
  let '(tag, line) := rsp in
  trace ← ht_at (pending_icache_ s) tag;
  '(d, emit) ← on_icache_rsp XLEN MEM_BLOCK_SIZE (decompressor_ s) trace line;
  let s := s <| decompressor_ := d |> in
  let progressed := match emit with Some _ => room | None => true end in
  if progressed then
    table ← ht_release (pending_icache_ s) tag;
    Some (s <| pending_icache_ := table |>, true, emit)
  else Some (s, false, None).

(** [ready] says that the request channel accepts a request; the result holds
    the tag and the address sent. *)
Definition fetch_req (s : FetchStage) (ready : bool) : option (FetchStage * option (Z * Z)) :=
  pick ← pick_request XLEN (decompressor_ s) (head (fetch_latch_ s));
  match pick with
  | None => Some (s, None)
  | Some p =>
      if ht_full (pending_icache_ s) then Some (s, None) else
      '(tag, table) ← ht_allocate (pending_icache_ s) (p_trace p);
      let s := s <| pending_icache_ := table |> in
      if ready then
        let s := s <| decompressor_ ::= fun d => commit_request d (from_refetch p) |> in
        let s := if from_refetch p then s else s <| fetch_latch_ ::= tail |> in
        Some (s, Some (tag, p_addr p))
      else
        table ← ht_release (pending_icache_ s) tag;
        Some (s <| pending_icache_ := table |>, None)
  end.

Definition fetch (s : FetchStage) (rsp : option (Z * list Z)) (room ready : bool) :
    option (FetchStage * bool * option fetch_trace * option (Z * Z)) :=
  '(s, popped, emit) ← match rsp with Some r => fetch_rsp s r room | None => Some (s, false, None) end;
  '(s, req) ← fetch_req s ready;
  Some (s, popped, emit, req).

End Stage.

(** ** The stage and its icache *)

Section World.
Context (XLEN m : Z) (num_warps : nat) (mem : Z -> Z).

#[local] Abbreviation B := (2 ^ m).

(** The requests not answered or not popped yet; the traces scheduled and the
    traces pushed into the decode latch so far; the warps with a trace between
    the two. *)
Record fetch_world := {
  fw_stage : FetchStage;
  fw_mem : list (nat * Z);
  fw_in : list fetch_trace;
  fw_out : list fetch_trace;
  fw_live : list nat
}.

(** The scheduler pushes a trace; a cycle of the stage, with the response to
    the [k]-th outstanding request at the head of its channel. *)
Inductive fetch_event :=
| FvSchedule (t : fetch_trace)
| FvCycle (rsp : option nat) (room ready : bool).

Definition answer (w : fetch_world) (k : option nat) : option (Z * list Z) :=
  '(n, a) ← k ≫= fun k => fw_mem w !! k; Some (Z.of_nat n, line_of m mem a).

Definition drop_answer (k : option nat) (popped : bool) (l : list (nat * Z)) : list (nat * Z) :=
  match k with Some k => if popped then delete k l else l | None => l end.

Definition gone (emit : option fetch_trace) (live : list nat) : list nat :=
  match emit with Some t => filter (fun i => i <> wid t) live | None => live end.

Definition fetch_step (w : fetch_world) (e : fetch_event) : option fetch_world :=
  match e with
  | FvSchedule t => Some (w <| fw_stage ::= set fetch_latch_ (fun q => q ++ [t]) |> <| fw_in ::= fun l => l ++ [t] |> <| fw_live ::= cons (wid t) |>)
  | FvCycle k room ready =>
      '(s, popped, emit, req) ← fetch XLEN B (fw_stage w) (answer w k) room ready;
      Some {| fw_stage := s;
              fw_mem := drop_answer k popped (fw_mem w) ++ option_list (prod_map Z.to_nat id <$> req);
              fw_in := fw_in w; fw_out := fw_out w ++ option_list emit; fw_live := gone emit (fw_live w) |}
  end.

(** A 32-bit instruction whose halves are in different lines. *)
Definition straddles (pc : Z) : bool := split mem pc && (pc mod B =? B - 2).

(** A warp has one trace at a time before the decode latch, at an even PC that
    does not wrap; a response belongs to a request, and the second one of an
    instruction that straddles two lines finds room in the decode latch. *)
Definition fetch_allowed (w : fetch_world) (e : fetch_event) : Prop :=
  match e with
  | FvSchedule t => (wid t < num_warps)%nat /\ (wid t ∉ fw_live w) /\ pc_ok XLEN (PC t)
  | FvCycle None _ _ => True
  | FvCycle (Some k) room _ =>
      exists n a, fw_mem w !! k = Some (n, a) /\
        (room = true \/ forall t, ht_at (pending_icache_ (fw_stage w)) (Z.of_nat n) = Some t -> a = align4 XLEN (PC t) + 4 -> straddles (PC t) = false)
  end.

Definition fetch_world_init : fetch_world :=
  {| fw_stage := FetchStage_init num_warps; fw_mem := []; fw_in := []; fw_out := []; fw_live := [] |}.

Inductive fetch_reach : fetch_world -> Prop :=
| fetch_reach_init : fetch_reach fetch_world_init
| fetch_reach_step w e w' : fetch_reach w -> fetch_allowed w e -> fetch_step w e = Some w' -> fetch_reach w'.

(** ** Invariant *)

(** The state of a warp's slot while its trace is in the stage. *)
Definition slot_open (st : list RvcSlot) (i : nat) : Prop := exists r, st !! i = Some r /\ needs_second r = false.
Definition slot_half (st : list RvcSlot) (t : fetch_trace) : Prop := st !! wid t = Some (half_slot mem (PC t)) /\ split mem (PC t) = true.

(** What an outstanding request of a trace asks for: the first word, or the
    second one.  A response to the second that found no room has released the
    slot, and its line holds the first word too. *)
Definition req_ok (st : list RvcSlot) (t : fetch_trace) (a : Z) : Prop :=
  (slot_open st (wid t) /\ (a = align4 XLEN (PC t) \/ (a = align4 XLEN (PC t) + 4 /\ split mem (PC t) = true /\ straddles (PC t) = false))) \/
  (slot_half st t /\ a = align4 XLEN (PC t) + 4).

(** The traces in the stage. *)
Definition traces (table : HashTable fetch_trace) (rq latch : list fetch_trace) : list fetch_trace := omap id (ht_entries table) ++ rq ++ latch.

Record finv (latch : list fetch_trace) (table : HashTable fetch_trace) (st : list RvcSlot) (rq : list fetch_trace)
    (reqs : list (nat * Z)) (ins outs : list fetch_trace) (live : list nat) : Prop := {
  fi_table : ht_ok table;
  fi_size : length (ht_entries table) = num_warps;
  fi_idle : forall i, (i < num_warps)%nat -> i ∉ live -> slot_open st i;
  fi_nodup : NoDup reqs.*1;
  fi_reqs : forall n a, (n, a) ∈ reqs -> exists t, ht_entries table !! n = Some (Some t) /\ req_ok st t a;
  fi_pend : forall n t, ht_entries table !! n = Some (Some t) -> n ∈ reqs.*1;
  fi_refetch : forall t, t ∈ rq -> slot_half st t;
  fi_latch : forall t, t ∈ latch -> slot_open st (wid t);
  fi_live : live ≡ₚ map wid (traces table rq latch);
  fi_warps : NoDup live;
  fi_pcs : forall t, t ∈ traces table rq latch -> pc_ok XLEN (PC t);
  fi_account : outs ++ map (coded mem) (traces table rq latch) ≡ₚ map (coded mem) ins
}.

Definition stage_inv (s : FetchStage) : list (nat * Z) -> list fetch_trace -> list fetch_trace -> list nat -> Prop :=
  finv (fetch_latch_ s) (pending_icache_ s) (state_ (decompressor_ s)) (refetch_queue_ (decompressor_ s)).

(** Occupying and releasing an entry of the table. *)
Lemma entries_take (l : list (option fetch_trace)) n t : l !! n = Some (Some t) -> omap id l ≡ₚ t :: omap id (<[n := None]> l).
Proof.
  revert n. induction l as [|x l IH]; intros [|n]; try done; cbn.
  - by intros [= ->].
  - intros H. destruct x; cbn; rewrite (IH n H); [apply Permutation_swap|done].
Qed.

Lemma entries_put (l : list (option fetch_trace)) n t : l !! n = Some None -> omap id (<[n := Some t]> l) ≡ₚ t :: omap id l.
Proof.
  intros H. rewrite (entries_take _ n t) by (by rewrite list_lookup_insert_eq by (by eapply lookup_lt_Some)).
  by rewrite list_insert_insert_eq, list_insert_id.
Qed.

Lemma entries_elem (l : list (option fetch_trace)) n t : l !! n = Some (Some t) -> t ∈ omap id l.
Proof. intros H. apply list_elem_of_omap. exists (Some t). split; [by eapply list_elem_of_lookup_2|done]. Qed.

Lemma gone_cons (live : list nat) i rest : live ≡ₚ i :: rest -> NoDup live -> filter (fun j => j <> i) live ≡ₚ rest.
Proof.
  intros E Hn. rewrite E in Hn. apply list.NoDup_cons in Hn as [Hi _]. rewrite E, filter_cons_False by (intros H; by apply H).
  clear -Hi. induction rest as [|j rest IH]; [done|]. rewrite filter_cons_True by set_solver. rewrite IH; [done|set_solver].
Qed.

Lemma keys_inj (l : list (nat * Z)) n a b : NoDup l.*1 -> (n, a) ∈ l -> (n, b) ∈ l -> a = b.
Proof.
  induction l as [|[n' c] l IH]; [by intros _ ?%elem_of_nil|]. intros [Hn Hnd]%list.NoDup_cons Ha Hb.
  assert (Hk : forall x, (n', x) ∉ l) by (intros x Hx; apply Hn, list_elem_of_fmap; by exists (n', x)).
  apply elem_of_cons in Ha as [[= -> ->]|Ha], Hb as [E|Hb]; [by injection E|by apply Hk in Hb|injection E as -> ->; by apply Hk in Ha|by apply IH].
Qed.

Section Others.
Context latch table st rq reqs ins outs live (I : finv latch table st rq reqs ins outs live).
Context n t (Hn : ht_entries table !! n = Some (Some t)).

#[local] Abbreviation rest := (omap id (<[n := None]> (ht_entries table)) ++ rq ++ latch).

Lemma traces_take : traces table rq latch ≡ₚ t :: rest.
Proof using Hn. unfold traces. by rewrite (entries_take _ n t Hn). Qed.

Lemma live_take : live ≡ₚ wid t :: map wid rest.
Proof using Hn I. rewrite (fi_live _ _ _ _ _ _ _ _ I). by rewrite traces_take. Qed.

Lemma other_warp t' : t' ∈ rest -> wid t' <> wid t.
Proof using Hn I.
  intros Ht E. pose proof (fi_warps _ _ _ _ _ _ _ _ I) as Hnd. rewrite live_take in Hnd. apply list.NoDup_cons in Hnd as [Hni _].
  apply Hni. rewrite <- E. by apply list_elem_of_fmap_2.
Qed.

(** The other traces do not see a change of the warp's slot. *)
Lemma other_slots st' : (forall i, i <> wid t -> st' !! i = st !! i) ->
  (forall n' a, (n', a) ∈ reqs -> n' <> n -> exists t', ht_entries table !! n' = Some (Some t') /\ req_ok st' t' a) /\
  (forall t', t' ∈ rq -> slot_half st' t') /\ (forall t', t' ∈ latch -> slot_open st' (wid t')) /\
  (forall i, (i < num_warps)%nat -> i ∉ live -> slot_open st' i).
Proof using Hn I.
  intros Hst. split_and!.
  - intros n' a Hin Hne. destruct (fi_reqs _ _ _ _ _ _ _ _ I _ _ Hin) as (t' & Ht' & Hok). exists t'. split; [done|].
    unfold req_ok, slot_open, slot_half in *. rewrite Hst; [done|]. apply other_warp. apply elem_of_app. left.
    apply (entries_elem _ n'). by rewrite list_lookup_insert_ne.
  - intros t' Ht'. unfold slot_half. rewrite Hst; [by apply (fi_refetch _ _ _ _ _ _ _ _ I)|]. apply other_warp. set_solver.
  - intros t' Ht'. unfold slot_open. rewrite Hst; [by apply (fi_latch _ _ _ _ _ _ _ _ I)|]. apply other_warp. set_solver.
  - intros i Hi Hl. unfold slot_open. rewrite Hst; [by apply (fi_idle _ _ _ _ _ _ _ _ I)|]. intros ->. apply Hl. rewrite live_take. set_solver.
Qed.

(** The response is popped and the instruction pushed into the latch. *)
Lemma pop_emit table' st' k a : reqs !! k = Some (n, a) -> ht_ok table' -> ht_entries table' = <[n := None]> (ht_entries table) ->
  (forall i, i <> wid t -> st' !! i = st !! i) -> slot_open st' (wid t) ->
  finv latch table' st' rq (delete k reqs) ins (outs ++ [coded mem t]) (filter (fun i => i <> wid t) live).
Proof using Hn I.
  intros Hk Ht He Hst Hfree. destruct (other_slots st' Hst) as (O1 & O2 & O3 & O4). pose proof (delete_Permutation _ _ _ Hk) as Hp.
  pose proof (fi_nodup _ _ _ _ _ _ _ _ I) as Hnd. rewrite Hp in Hnd. cbn in Hnd. apply list.NoDup_cons in Hnd as [Hni Hnd].
  pose proof (gone_cons _ _ _ live_take (fi_warps _ _ _ _ _ _ _ _ I)) as Hg. constructor; rewrite ?He; try done.
  - rewrite length_insert. apply I.
  - intros i Hi Hl. destruct (decide (i = wid t)) as [->|Hne]; [done|]. apply O4; [done|]. intros Hin. apply Hl. by apply list_elem_of_filter.
  - intros n' a' Hin. assert (Hne : n' <> n) by (intros ->; apply Hni; apply list_elem_of_fmap; by exists (n, a')).
    rewrite list_lookup_insert_ne by done. apply O1; [rewrite Hp; set_solver|done].
  - intros n' t' Hn'. destruct (decide (n' = n)) as [->|Hne]; [rewrite list_lookup_insert_eq in Hn' by (by eapply lookup_lt_Some); done|].
    rewrite list_lookup_insert_ne in Hn' by done. apply (fi_pend _ _ _ _ _ _ _ _ I) in Hn'. rewrite Hp in Hn'. cbn in Hn'. set_solver.
  - unfold traces. rewrite He. exact Hg.
  - apply list.NoDup_filter, (fi_warps _ _ _ _ _ _ _ _ I).
  - intros t' Ht'. apply (fi_pcs _ _ _ _ _ _ _ _ I). rewrite traces_take. unfold traces in Ht'. rewrite He in Ht'. set_solver.
  - rewrite <- (fi_account _ _ _ _ _ _ _ _ I). rewrite traces_take. unfold traces. rewrite He, <- app_assoc. done.
Qed.

(** The response is popped and the trace waits for its second word. *)
Lemma pop_refetch table' st' k a : reqs !! k = Some (n, a) -> ht_ok table' -> ht_entries table' = <[n := None]> (ht_entries table) ->
  (forall i, i <> wid t -> st' !! i = st !! i) -> slot_half st' t ->
  finv latch table' st' (rq ++ [t]) (delete k reqs) ins outs live.
Proof using Hn I.
  intros Hk Ht He Hst Hhalf. destruct (other_slots st' Hst) as (O1 & O2 & O3 & O4). pose proof (delete_Permutation _ _ _ Hk) as Hp.
  pose proof (fi_nodup _ _ _ _ _ _ _ _ I) as Hnd. rewrite Hp in Hnd. cbn in Hnd. apply list.NoDup_cons in Hnd as [Hni Hnd].
  assert (Htr : traces table' (rq ++ [t]) latch ≡ₚ traces table rq latch).
  { rewrite traces_take. unfold traces. rewrite He. solve_Permutation. }
  constructor; rewrite ?He, ?Htr, ?length_insert; try apply I; try done.
  - intros n' a' Hin. assert (Hne : n' <> n) by (intros ->; apply Hni; apply list_elem_of_fmap; by exists (n, a')).
    rewrite list_lookup_insert_ne by done. apply O1; [rewrite Hp; set_solver|done].
  - intros n' t' Hn'. destruct (decide (n' = n)) as [->|Hne]; [rewrite list_lookup_insert_eq in Hn' by (by eapply lookup_lt_Some); done|].
    rewrite list_lookup_insert_ne in Hn' by done. apply (fi_pend _ _ _ _ _ _ _ _ I) in Hn'. rewrite Hp in Hn'. cbn in Hn'. set_solver.
  - intros t' [Ht'| ->%list_elem_of_singleton]%elem_of_app; [by apply O2|done].
  - intros t'. rewrite Htr. apply (fi_pcs _ _ _ _ _ _ _ _ I).
Qed.

(** The response stays; the slot has changed, as the request allows. *)
Lemma keep_answer st' a : (n, a) ∈ reqs -> (forall i, i <> wid t -> st' !! i = st !! i) -> req_ok st' t a ->
  finv latch table st' rq reqs ins outs live.
Proof using Hn I.
  intros Hk Hst Hok. destruct (other_slots st' Hst) as (O1 & O2 & O3 & O4). constructor; try apply I; try done.
  intros n' a' Hin. destruct (decide (n' = n)) as [->|Hne]; [|by apply O1]. exists t. split; [done|].
  assert (a' = a) as ->; [|done]. pose proof (fi_nodup _ _ _ _ _ _ _ _ I) as Hnd. by eapply keys_inj.
Qed.

End Others.

(** ** A cycle *)

Ltac fproj := unfold stage_inv; cbv [set const]; cbn [fetch_latch_ pending_icache_ decompressor_ state_ refetch_queue_ option_list drop_answer gone].

Lemma set_slot (st : list RvcSlot) i r : st !! i = Some r -> forall x, <[i := x]> st !! i = Some x.
Proof. intros H x. rewrite list_lookup_insert_eq; [done|]. by eapply lookup_lt_Some. Qed.

(** How many steps the traces of the stage still take at most. *)
Definition weight (st : list RvcSlot) (t : fetch_trace) : nat :=
  match st !! wid t with Some r => if needs_second r then 2 else 4 | None => 4 end.
Definition work (s : FetchStage) : nat :=
  sum_list_with (weight (state_ (decompressor_ s))) (omap id (ht_entries (pending_icache_ s))) +
  3 * length (refetch_queue_ (decompressor_ s)) + 5 * length (fetch_latch_ s).

Lemma weight_pos st t : (0 < weight st t)%nat.
Proof. unfold weight. destruct (st !! wid t) as [r|]; [destruct (needs_second r)|]; lia. Qed.

Lemma weight_rest latch table st rq reqs ins outs live n t st' : finv latch table st rq reqs ins outs live -> ht_entries table !! n = Some (Some t) ->
  (forall i, i <> wid t -> st' !! i = st !! i) ->
  sum_list_with (weight st) (omap id (ht_entries table)) = (weight st t + sum_list_with (weight st') (omap id (<[n := None]> (ht_entries table))))%nat.
Proof.
  intros I Hn Hst. rewrite (entries_take _ n t Hn). cbn. f_equal. assert (H : forall t', t' ∈ omap id (<[n := None]> (ht_entries table)) -> weight st' t' = weight st t').
  { intros t' Ht'. unfold weight. rewrite Hst; [done|]. eapply other_warp; [done|done|]. apply elem_of_app. by left. }
  revert H. generalize (omap id (<[n := None]> (ht_entries table))) as l. induction l as [|x l IH]; intros H; [done|]. cbn. rewrite IH, (H x); set_solver.
Qed.

Context (Hm : 2 <= m < 32) (HX : 32 <= XLEN) (Hbyte : forall a, is_byte (mem a)).

(** A response is handled without a failure and the invariant holds after. *)
Lemma first_word s reqs ins outs live k n t a room : stage_inv s reqs ins outs live -> reqs !! k = Some (n, a) ->
  ht_entries (pending_icache_ s) !! n = Some (Some t) -> slot_open (state_ (decompressor_ s)) (wid t) -> line_of m mem a = line_of m mem (align4 XLEN (PC t)) ->
  exists s' popped emit, fetch_rsp XLEN B s (Z.of_nat n, line_of m mem a) room = Some (s', popped, emit) /\
    stage_inv s' (drop_answer (Some k) popped reqs) ins (outs ++ option_list emit) (gone emit live) /\ (room = true -> (work s' < work s)%nat).
Proof using Hm HX Hbyte.
  intros I Hk Hn (r & Hr & Hnr) Hline.
  assert (Hpc : pc_ok XLEN (PC t)) by (apply (fi_pcs _ _ _ _ _ _ _ _ I); apply elem_of_app; left; by eapply entries_elem).
  destruct (ht_release_ok _ n t (fi_table _ _ _ _ _ _ _ _ I) Hn) as (table & Hrel & Hht & He).
  assert (Hw : weight (state_ (decompressor_ s)) t = 4%nat) by (unfold weight; by rewrite Hr, Hnr).
  unfold fetch_rsp. rewrite ht_at_nat, Hn, Hline. cbn [mbind option_bind id]. rewrite (rsp_first XLEN m mem Hm HX Hbyte _ t r Hr Hnr Hpc).
  destruct (split mem (PC t)) eqn:Hsp; cbn [mbind option_bind]; fproj.
  - rewrite Hrel. cbn [mbind option_bind]. do 3 eexists. split; [reflexivity|]. unfold work. fproj. rewrite app_nil_r.
    assert (Hst : forall i, i <> wid t -> <[wid t := half_slot mem (PC t)]> (state_ (decompressor_ s)) !! i = state_ (decompressor_ s) !! i) by (intros i Hi; by apply list_lookup_insert_ne).
    split; [apply (pop_refetch _ _ _ _ _ _ _ _ I n t Hn _ _ k a); try done; split; [by eapply set_slot|done]|].
    intros _. rewrite He, (weight_rest _ _ _ _ _ _ _ _ n t _ I Hn Hst), length_app. cbn [length]. lia.
  - destruct room.
    + rewrite Hrel. cbn [mbind option_bind]. do 3 eexists. split; [reflexivity|]. unfold work. fproj.
      split; [apply (pop_emit _ _ _ _ _ _ _ _ I n t Hn _ _ k a); try done; by exists r|].
      intros _. rewrite He, (weight_rest _ _ _ _ _ _ _ _ n t _ I Hn (fun _ _ => eq_refl)). lia.
    + do 3 eexists. split; [reflexivity|]. fproj. rewrite app_nil_r. split; [exact I|done].
Qed.

Lemma rsp_cycle s reqs ins outs live k n a room : stage_inv s reqs ins outs live -> reqs !! k = Some (n, a) ->
  (room = true \/ forall t, ht_at (pending_icache_ s) (Z.of_nat n) = Some t -> a = align4 XLEN (PC t) + 4 -> straddles (PC t) = false) ->
  exists s' popped emit, fetch_rsp XLEN B s (Z.of_nat n, line_of m mem a) room = Some (s', popped, emit) /\
    stage_inv s' (drop_answer (Some k) popped reqs) ins (outs ++ option_list emit) (gone emit live) /\ (room = true -> (work s' < work s)%nat).
Proof using Hm HX Hbyte.
  intros I Hk Hroom. pose proof (list_elem_of_lookup_2 _ _ _ Hk) as Hin. destruct (fi_reqs _ _ _ _ _ _ _ _ I _ _ Hin) as (t & Hn & Hok).
  assert (Hpc : pc_ok XLEN (PC t)) by (apply (fi_pcs _ _ _ _ _ _ _ _ I); apply elem_of_app; left; by eapply entries_elem).
  destruct Hok as [[Hfree [->|(-> & Hsp & Hst)]]|[[Hhalf Hsp] ->]].
  - by eapply first_word.
  - eapply first_word; [done..|]. unfold straddles in Hst. rewrite Hsp in Hst. cbn in Hst. apply Z.eqb_neq in Hst. by apply next_word_line.
  - destruct (ht_release_ok _ n t (fi_table _ _ _ _ _ _ _ _ I) Hn) as (table & Hrel & Hht & He). rewrite ht_at_nat, Hn in Hroom. cbn in Hroom.
    unfold fetch_rsp. rewrite ht_at_nat, Hn. cbn [mbind option_bind id].
    rewrite (rsp_second XLEN m mem Hm HX Hbyte _ t Hhalf Hsp Hpc). cbn [mbind option_bind]. fproj.
    assert (Hnew : slot_open (<[wid t := RvcSlot_init]> (state_ (decompressor_ s))) (wid t)) by (exists RvcSlot_init; split; [by eapply set_slot|done]).
    assert (Hst : forall i, i <> wid t -> <[wid t := RvcSlot_init]> (state_ (decompressor_ s)) !! i = state_ (decompressor_ s) !! i) by (intros i Hi; by apply list_lookup_insert_ne).
    destruct room.
    + rewrite Hrel. cbn [mbind option_bind]. do 3 eexists. split; [reflexivity|]. unfold work. fproj.
      split; [by apply (pop_emit _ _ _ _ _ _ _ _ I n t Hn _ _ k _ Hk)|].
      intros _. rewrite He, (weight_rest _ _ _ _ _ _ _ _ n t _ I Hn Hst). pose proof (weight_pos (state_ (decompressor_ s)) t). lia.
    + do 3 eexists. split; [reflexivity|]. fproj. rewrite app_nil_r. split; [|done].
      apply (keep_answer _ _ _ _ _ _ _ _ I n t Hn _ _ Hin); [done|]. left. split; [done|]. right.
      destruct Hroom as [|Hroom]; [done|]. auto.
Qed.

(** A request is sent, or nothing changes. *)
Lemma send_request latch table st rq reqs ins outs live latch' rq' table' n t a :
  finv latch table st rq reqs ins outs live -> rq ++ latch ≡ₚ t :: rq' ++ latch' -> (forall t', t' ∈ rq' -> t' ∈ rq) -> (forall t', t' ∈ latch' -> t' ∈ latch) ->
  ht_entries table !! n = Some None -> ht_ok table' -> ht_entries table' = <[n := Some t]> (ht_entries table) -> req_ok st t a ->
  finv latch' table' st rq' (reqs ++ [(n, a)]) ins outs live.
Proof.
  intros I Hp Hrq Hla Hn Ht He Hok. assert (Htr : traces table' rq' latch' ≡ₚ traces table rq latch).
  { unfold traces. rewrite He, entries_put by done. rewrite Hp. cbn. apply Permutation_middle. }
  assert (Hfresh : n ∉ reqs.*1).
  { intros ([n' a'] & -> & Hin)%list_elem_of_fmap. destruct (fi_reqs _ _ _ _ _ _ _ _ I _ _ Hin) as (t' & Ht' & _). cbn in *. congruence. }
  assert (Hlt : (n < length (ht_entries table))%nat) by (by eapply lookup_lt_Some).
  constructor; rewrite ?He, ?Htr, ?length_insert; try apply I; try done.
  - rewrite fmap_app. apply list.NoDup_app. split; [apply I|]. split; [|by apply NoDup_singleton]. intros x Hx ->%list_elem_of_singleton. done.
  - intros n' a' [Hin|[= -> ->]%list_elem_of_singleton]%elem_of_app; [|exists t; by rewrite list_lookup_insert_eq].
    destruct (fi_reqs _ _ _ _ _ _ _ _ I _ _ Hin) as (t' & Ht' & Hok'). exists t'. split; [|done]. rewrite list_lookup_insert_ne; [done|]. intros <-. congruence.
  - intros n' t' Hn'. rewrite fmap_app. apply elem_of_app. destruct (decide (n' = n)) as [->|Hne]; [right; by apply list_elem_of_singleton|].
    left. rewrite list_lookup_insert_ne in Hn' by done. by eapply (fi_pend _ _ _ _ _ _ _ _ I).
  - intros t' Ht'. by apply (fi_refetch _ _ _ _ _ _ _ _ I), Hrq.
  - intros t' Ht'. by apply (fi_latch _ _ _ _ _ _ _ _ I), Hla.
  - intros t'. rewrite Htr. apply (fi_pcs _ _ _ _ _ _ _ _ I).
Qed.

(** What the decompressor picks. *)
Lemma pick_ok s reqs ins outs live : stage_inv s reqs ins outs live ->
  let rq := refetch_queue_ (decompressor_ s) in let latch := fetch_latch_ s in let st := state_ (decompressor_ s) in
  exists pick, pick_request XLEN (decompressor_ s) (head latch) = Some pick /\
  match pick with
  | None => rq = [] /\ latch = []
  | Some p => req_ok st (p_trace p) (p_addr p) /\
      if from_refetch p then rq = p_trace p :: tail rq /\ weight st (p_trace p) = 2%nat
      else rq = [] /\ latch = p_trace p :: tail latch /\ weight st (p_trace p) = 4%nat
  end.
Proof using Hm HX Hbyte.
  intros I rq latch st. unfold pick_request. fold rq. destruct rq as [|t rq'] eqn:Erq.
  - destruct latch as [|t latch'] eqn:El; cbn [head]; [by exists None|]. eexists. split; [reflexivity|]. cbn [p_trace p_addr from_refetch tail].
    destruct (fi_latch _ _ _ _ _ _ _ _ I t) as (r & Hr & Hnr); [fold latch; rewrite El; set_solver|]. split; [left; split; [by exists r|by left]|].
    split_and!; try done. unfold weight. unfold st. by rewrite Hr, Hnr.
  - destruct (fi_refetch _ _ _ _ _ _ _ _ I t) as [Hs Hsp]; [fold rq; rewrite Erq; set_solver|]. fold st in Hs |- *. rewrite Hs. eexists. split; [reflexivity|].
    cbn [p_trace p_addr from_refetch tail inst_pc half_slot].
    assert (Hpc : pc_ok XLEN (PC t)) by (apply (fi_pcs _ _ _ _ _ _ _ _ I); unfold traces; fold rq; rewrite Erq; set_solver).
    destruct (align4_pc XLEN HX _ Hpc) as (_ & _ & Hu & _). rewrite (wrap_small XLEN) by done. split; [by right|]. split; [done|]. unfold weight. by rewrite Hs.
Qed.

(** A cycle's request half does not fail and keeps the invariant. *)
Lemma req_cycle s reqs ins outs live ready : stage_inv s reqs ins outs live ->
  exists s' req, fetch_req XLEN s ready = Some (s', req) /\
    stage_inv s' (reqs ++ option_list (prod_map Z.to_nat id <$> req)) ins outs live /\ (work s' <= work s)%nat /\
    (ready = true -> ht_full (pending_icache_ s) = false -> refetch_queue_ (decompressor_ s) ++ fetch_latch_ s <> [] -> (work s' < work s)%nat).
Proof using Hm HX Hbyte.
  intros I. destruct (pick_ok _ _ _ _ _ I) as (pick & Hpick & Hp). cbv zeta in Hp. unfold fetch_req. rewrite Hpick. cbn [mbind option_bind].
  destruct pick as [p|].
  2:{ destruct Hp as [E1 E2]. do 2 eexists. split; [reflexivity|]. cbn. rewrite app_nil_r. split; [done|]. split; [lia|]. by rewrite E1, E2. }
  destruct (ht_full (pending_icache_ s)) eqn:Hf; [do 2 eexists; split; [reflexivity|]; cbn; rewrite app_nil_r; split; [done|]; split; [lia|done]|].
  destruct (ht_allocate_ok _ (p_trace p) (fi_table _ _ _ _ _ _ _ _ I) Hf) as (n & table & Ha & Ht & Hn & He). rewrite Ha. cbn [mbind option_bind].
  assert (Hlt : (n < length (ht_entries (pending_icache_ s)))%nat) by (by eapply lookup_lt_Some). destruct ready.
  - destruct Hp as [Hok Hp]. do 2 eexists. split; [reflexivity|]. unfold commit_request.
    destruct (from_refetch p); unfold work; fproj; cbn [fmap option_fmap option_map prod_map id fst snd option_list]; rewrite Nat2Z.id, He, entries_put by done; cbn [sum_list_with].
    + destruct Hp as [Hp Hw]. split; [|rewrite Hw, Hp; cbn [length tail]; split; [lia|intros; lia]].
      apply (send_request _ _ _ _ _ _ _ _ _ _ _ _ (p_trace p) _ I); try done; [by rewrite Hp at 1|rewrite Hp; set_solver].
    + destruct Hp as (Hq & Hp & Hw). split; [|rewrite Hw, Hp; cbn [length tail]; split; [lia|intros; lia]].
      apply (send_request _ _ _ _ _ _ _ _ _ _ _ _ (p_trace p) _ I); try done; [rewrite Hq; cbn; by rewrite Hp at 1|rewrite Hp; set_solver].
  - fproj. destruct (ht_release_ok table n (p_trace p) Ht) as (table' & Hr & Ht' & He'); [by rewrite He, list_lookup_insert_eq|].
    rewrite Hr. cbn [mbind option_bind]. do 2 eexists. split; [reflexivity|].
    assert (E : ht_entries table' = ht_entries (pending_icache_ s)) by (by rewrite He', He, list_insert_insert_eq, list_insert_id).
    unfold work. fproj. cbn [fmap option_fmap option_map option_list]. rewrite E, app_nil_r. split; [|split; [lia|done]].
    destruct I. constructor; unfold traces in *; rewrite ?E; done.
Qed.

Lemma schedule_trace s reqs ins outs live t : stage_inv s reqs ins outs live -> (wid t < num_warps)%nat -> wid t ∉ live -> pc_ok XLEN (PC t) ->
  stage_inv (s <| fetch_latch_ ::= fun q => q ++ [t] |>) reqs (ins ++ [t]) outs (wid t :: live).
Proof using.
  clear Hm HX Hbyte. intros I Hlt Hl Hpc. assert (Htr : forall table rq latch, traces table rq (latch ++ [t]) ≡ₚ t :: traces table rq latch).
  { intros table rq latch. unfold traces. rewrite !app_assoc. symmetry. apply Permutation_cons_append. }
  fproj. constructor; rewrite ?Htr; try apply I.
  - intros i Hi Hn. apply (fi_idle _ _ _ _ _ _ _ _ I); [done|set_solver].
  - intros t' [Ht'| ->%list_elem_of_singleton]%elem_of_app; [by apply (fi_latch _ _ _ _ _ _ _ _ I)|by apply (fi_idle _ _ _ _ _ _ _ _ I)].
  - cbn [map]. by rewrite (fi_live _ _ _ _ _ _ _ _ I).
  - apply list.NoDup_cons. split; [done|apply I].
  - intros t'. rewrite Htr. intros [->|Ht']%elem_of_cons; [done|]. by apply (fi_pcs _ _ _ _ _ _ _ _ I).
  - rewrite map_app. cbn [map]. rewrite <- (fi_account _ _ _ _ _ _ _ _ I). rewrite <- Permutation_middle. apply Permutation_cons_append.
Qed.

Definition world_inv (w : fetch_world) : Prop := stage_inv (fw_stage w) (fw_mem w) (fw_in w) (fw_out w) (fw_live w).
Definition stage_traces (w : fetch_world) : list fetch_trace :=
  traces (pending_icache_ (fw_stage w)) (refetch_queue_ (decompressor_ (fw_stage w))) (fetch_latch_ (fw_stage w)).

Lemma step_ok w e : world_inv w -> fetch_allowed w e -> exists w', fetch_step w e = Some w' /\ world_inv w'.
Proof using Hm HX Hbyte.
  intros I He. destruct e as [t|k room ready]; cbn [fetch_allowed fetch_step] in *.
  - destruct He as (H1 & H2 & H3). eexists. split; [reflexivity|]. by apply schedule_trace.
  - unfold fetch, answer. destruct k as [k|].
    + destruct He as (n & a & Hk & Hroom). cbn [mbind option_bind]. rewrite Hk.
      destruct (rsp_cycle _ _ _ _ _ k n a room I Hk Hroom) as (s1 & popped & emit & Er & I1 & _). cbn [mbind option_bind]. rewrite Er.
      destruct (req_cycle _ _ _ _ _ ready I1) as (s2 & req & Eq & I2 & _). cbn [mbind option_bind]. rewrite Eq. by eexists.
    + cbn [mbind option_bind]. destruct (req_cycle _ _ _ _ _ ready I) as (s2 & req & Eq & I2 & _). rewrite Eq. eexists. split; [reflexivity|].
      unfold world_inv. cbn [fw_stage fw_mem fw_in fw_out fw_live option_list gone drop_answer]. by rewrite app_nil_r.
Qed.

Lemma init_world_inv : world_inv (fetch_world_init).
Proof using.
  assert (E : omap id (replicate num_warps (@None fetch_trace)) = []) by (induction num_warps as [|n IH]; [done|exact IH]).
  constructor; cbn; unfold traces; cbn; rewrite ?E; try done; try (by intros ? ?%elem_of_nil).
  - apply ht_init_ok.
  - apply length_replicate.
  - intros i Hi _. exists RvcSlot_init. split; [by apply lookup_replicate_2|done].
  - constructor.
  - by intros ? ? ?%elem_of_nil.
  - intros n t [[=] _]%lookup_replicate.
  - constructor.
Qed.

Lemma fetch_reach_inv w : fetch_reach w -> world_inv w.
Proof using Hm HX Hbyte.
  induction 1 as [|w e w' _ IH He Hs]; [apply init_world_inv|]. destruct (step_ok w e IH He) as (w1 & E & I). rewrite Hs in E. by injection E as ->.
Qed.

(** ** Draining *)

(** Cycles with the first outstanding request answered and no back-pressure. *)
Fixpoint fetch_drain (n : nat) (w : fetch_world) : option fetch_world :=
  match n with
  | O => Some w
  | S n => w ← fetch_step w (FvCycle (match fw_mem w with [] => None | _ => Some 0%nat end) true true); fetch_drain n w
  end.

Lemma no_traces w : stage_traces w = [] <-> work (fw_stage w) = 0%nat.
Proof using.
  unfold stage_traces, traces, work. destruct (omap id _) as [|t l]; [|pose proof (weight_pos (state_ (decompressor_ (fw_stage w))) t); cbn; split; [done|lia]].
  cbn. destruct (refetch_queue_ _), (fetch_latch_ _); cbn; split; try done; lia.
Qed.

Lemma work_bound w : (work (fw_stage w) <= 5 * length (stage_traces w))%nat.
Proof using.
  unfold stage_traces, traces, work. rewrite !length_app. generalize (omap id (ht_entries (pending_icache_ (fw_stage w)))) as l. intros l.
  assert (H : (sum_list_with (weight (state_ (decompressor_ (fw_stage w)))) l <= 4 * length l)%nat); [|lia].
  induction l as [|t l IH]; cbn; [lia|]. unfold weight at 1. destruct (_ !! wid t) as [r|]; [destruct (needs_second r)|]; lia.
Qed.

(** With no request outstanding the table is empty. *)
Lemma idle_table latch table st rq ins outs live : (0 < num_warps)%nat -> finv latch table st rq [] ins outs live ->
  omap id (ht_entries table) = [] /\ ht_full table = false.
Proof using Hm HX Hbyte.
  intros Hw I. assert (E : omap id (ht_entries table) = []).
  { destruct (omap id (ht_entries table)) as [|t l] eqn:E; [done|]. exfalso. assert (Hin : t ∈ omap id (ht_entries table)) by (rewrite E; set_solver).
    apply list_elem_of_omap in Hin as (x & Hx & Ex). cbn in Ex. subst x. apply list_elem_of_lookup_1 in Hx as [n Hn].
    apply (fi_pend _ _ _ _ _ _ _ _ I) in Hn. by apply elem_of_nil in Hn. }
  split; [done|]. unfold ht_full. rewrite (fi_table _ _ _ _ _ _ _ _ I), (fi_size _ _ _ _ _ _ _ _ I). unfold ht_live. rewrite E. apply Nat.eqb_neq. cbn. lia.
Qed.

Lemma drain_cycle w : (0 < num_warps)%nat -> world_inv w -> exists w', fetch_step w (FvCycle (match fw_mem w with [] => None | _ => Some 0%nat end) true true) = Some w' /\
  world_inv w' /\ fw_in w' = fw_in w /\ (work (fw_stage w') <= pred (work (fw_stage w)))%nat.
Proof using Hm HX Hbyte.
  intros Hw I. cbn [fetch_step]. unfold fetch, answer. destruct (fw_mem w) as [|[n a] reqs] eqn:Er.
  - cbn [mbind option_bind]. destruct (req_cycle _ _ _ _ _ true I) as (s2 & req & Eq & I2 & Hle & Hlt). rewrite Eq. eexists. split; [reflexivity|].
    cbn [fw_stage fw_in]. split; [unfold world_inv; cbn [fw_stage fw_mem fw_in fw_out fw_live option_list gone drop_answer]; rewrite Er in I2; by rewrite app_nil_r|]. split; [done|].
    destruct (decide (stage_traces w = [])) as [E|E]; [apply no_traces in E; lia|].
    pose proof I as I0. unfold world_inv, stage_inv in I0. rewrite Er in I0. destruct (idle_table _ _ _ _ _ _ _ Hw I0) as [Hemp Hfull]. specialize (Hlt eq_refl Hfull). unfold stage_traces, traces in E. rewrite Hemp in E.
    specialize (Hlt E). lia.
  - cbn [mbind option_bind lookup list_lookup]. destruct (rsp_cycle _ _ _ _ _ 0 n a true I) as (s1 & popped & emit & Ea & I1 & Hlt); [by rewrite Er|by left|]. rewrite Ea.
    cbn [mbind option_bind]. destruct (req_cycle _ _ _ _ _ true I1) as (s2 & req & Eq & I2 & Hle & _). rewrite Eq. eexists. split; [reflexivity|]. cbn [fw_stage fw_in].
    rewrite Er in I2. split; [done|]. split; [done|]. specialize (Hlt eq_refl). lia.
Qed.

Lemma drain_ok n w : (0 < num_warps)%nat -> world_inv w -> (work (fw_stage w) <= n)%nat ->
  exists w', fetch_drain n w = Some w' /\ fw_out w' ≡ₚ map (coded mem) (fw_in w).
Proof using Hm HX Hbyte.
  intros Hw. revert w. induction n as [|n IH]; intros w I Hn; cbn [fetch_drain].
  - exists w. split; [done|]. pose proof (proj2 (no_traces w) ltac:(lia)) as E. pose proof (fi_account _ _ _ _ _ _ _ _ I) as Ha.
    unfold stage_traces in E. rewrite E, app_nil_r in Ha. exact Ha.
  - destruct (drain_cycle w Hw I) as (w1 & -> & I1 & Ein & Hlt). cbn [mbind option_bind]. rewrite <- Ein. apply IH; [done|lia].
Qed.

(** C13 (functional): the fetch stage reassembles the instruction stream.  Its
    decompressor picks and commits requests, a refetch before a fresh trace;
    the icache answers them in any order, the request port and the decode
    latch push back at any time, and any number of warps, each with one trace
    at a time before the decode latch, run even PCs below the top of the
    address space.  Then no cycle fails; every trace scheduled has been pushed
    into the decode latch exactly once, with the 16 or 32 bits that memory
    holds at its PC, or is in the stage; and when requests are answered and
    nothing pushes back, five cycles per trace in the stage deliver all of
    them.  The one condition on back-pressure is that the second response of
    an instruction that straddles two lines finds room in the decode latch. *)
Theorem fetch_reassembles w : (0 < num_warps)%nat -> fetch_reach w ->
  (forall e, fetch_allowed w e -> exists w', fetch_step w e = Some w') /\
  fw_out w ++ map (coded mem) (stage_traces w) ≡ₚ map (coded mem) (fw_in w) /\
  forall n, (5 * length (stage_traces w) <= n)%nat -> exists w', fetch_drain n w = Some w' /\ fw_out w' ≡ₚ map (coded mem) (fw_in w).
Proof using Hm HX Hbyte.
  intros Hw Hr. pose proof (fetch_reach_inv w Hr) as I. split; [|split].
  - intros e He. destruct (step_ok w e I He) as (w' & E & _). by exists w'.
  - exact (fi_account _ _ _ _ _ _ _ _ I).
  - intros n Hn. apply drain_ok; [done|done|]. pose proof (work_bound w). lia.
Qed.

End World.

(** ** Two warps *)

Module FetchDemo.

(** Lines of 64 bytes.  Warp 1 runs [addi a0, x0, 1] at 0x3E, across a line;
    warp 0 a compressed [nop] at 4; at 0x7C a word that is not an
    instruction. *)
Definition demo_mem (a : Z) : Z :=
  match a with 4 => 0x01 | 0x3E => 0x13 | 0x3F => 0x05 | 0x40 => 0x10 | 0x7E => 0xAA | _ => 0 end.
Definition warp0 : fetch_trace := {| wid := 0; PC := 4; code := 0 |}.
Definition warp1 : fetch_trace := {| wid := 1; PC := 0x3E; code := 0 |}.

Lemma demo_byte a : is_byte (demo_mem a).
Proof. unfold demo_mem, is_byte, in_u. repeat case_match; lia. Qed.

Definition next (w : fetch_world) (e : fetch_event) : fetch_world := default w (fetch_step 32 6 demo_mem w e).

(** Both traces are scheduled and requested; the first response for warp 1
    queues its refetch, and warp 0's trace is scheduled. *)
Definition world1 : fetch_world := Eval vm_compute in next (fetch_world_init 2) (FvSchedule warp1).
Definition world2 : fetch_world := Eval vm_compute in next world1 (FvCycle None true true).
Definition world3 : fetch_world := Eval vm_compute in next world2 (FvSchedule warp0).
Definition world4 : fetch_world := Eval vm_compute in next world3 (FvCycle (Some 0%nat) true true).

Lemma world3_reach : fetch_reach 32 6 2 demo_mem world3.
Proof.
  apply (fetch_reach_step 32 6 2 demo_mem world2 (FvSchedule warp0)); [|cbn; split; [lia|split; [set_solver|repeat split; vm_compute; done]]|vm_compute; reflexivity].
  apply (fetch_reach_step 32 6 2 demo_mem world1 (FvCycle None true true)); [|exact I|vm_compute; reflexivity].
  apply (fetch_reach_step 32 6 2 demo_mem (fetch_world_init 2) (FvSchedule warp1)); [constructor|cbn; split; [lia|split; [set_solver|repeat split; vm_compute; done]]|vm_compute; reflexivity].
Qed.

Lemma world4_reach : fetch_reach 32 6 2 demo_mem world4.
Proof.
  apply (fetch_reach_step 32 6 2 demo_mem world3 (FvCycle (Some 0%nat) true true)); [exact world3_reach| |vm_compute; reflexivity].
  exists 0%nat, 0x3C. split; [reflexivity|by left].
Qed.

(** Both instructions arrive, each once. *)
Lemma fetch_reassembles_witness :
  exists w, fetch_drain 32 6 demo_mem 10 world4 = Some w /\ fw_out w ≡ₚ [warp1 <| code := 0x00100513 |>; warp0 <| code := 0x0001 |>].
Proof.
  destruct (fetch_reassembles 32 6 2 demo_mem ltac:(lia) ltac:(lia) demo_byte world4) as (_ & _ & H); [lia|exact world4_reach|].
  exact (H 10%nat ltac:(vm_compute; lia)).
Defined.

(** The response for the second word of warp 1 finds the decode latch full.
    The decompressor has released its slot, so the retry takes the line for
    the one with the first word: the trace leaves with the halfword 0x00AA of
    address 0x7E instead of the instruction 0x00100513 of address 0x3E. *)
Lemma fetch_retry_corrupts :
  let line := Rvc.line_of 6 demo_mem 0x40 in
  let s := fw_stage world4 in
  ht_at (pending_icache_ s) 0 = Some warp1 /\ fetched demo_mem (PC warp1) = 0x00100513 /\
  ('(s, popped, _) ← fetch_rsp 32 64 s (0, line) false; '(_, popped', emit) ← fetch_rsp 32 64 s (0, line) true; Some (popped, popped', emit)) =
    Some (false, true, Some (warp1 <| code := 0x00AA |>)).
Proof. split_and!; vm_compute; reflexivity. Qed.

End FetchDemo.
