(* ===== verification/Coalescer.v ===== *)
(** * Memory coalescer

    [sim/simx/mem/mem_coalescer.{h,cpp}].  A warp's request carries one access
    per lane; the lanes are split into as many groups as the cache has ports,
    and the accesses of a group that fall in one line leave as one request of
    the group's port.  A round takes one line of every group; a request whose
    lanes need several lines takes several rounds.  Responses come back per
    port, under the tag of the round, and are spread over the lanes.

    [on_tick] is split at its comments: the response, the pending round, the
    new round.  [None] is a failed assertion. *)

From S2P Require Import Prelude MemTypes Sched Cache LsuTypes.

Record co_config := { input_size_ : nat; output_size_ : nat; line_size_ : Z; co_queue_size : nat }.

Record pending_req_t := { pr_tag : Z; pr_mask : list bool }.

Record out_round_t := { or_valid : bool; or_lanes : list bool; or_reqs : list MemReq; or_cur_mask : list bool }.

Record MemCoalescer := {
  co_ReqIn : chan LsuReq; co_RspOut : chan LsuRsp;
  co_ReqOut : list (chan MemReq); co_RspIn : list (chan MemRsp);
  pending_rd_reqs_ : HashTable pending_req_t;
  sent_mask_ : list bool;
  out_round_ : out_round_t;
  co_misses : Z
}.

(** [MemReq{}] *)
Definition MemReq_default : MemReq :=
  {| rq_op := MLD; rq_addr := 0; rq_data := None; rq_byteen := 0; rq_tag := 0; rq_hart_id := 0; rq_uuid := 0; rq_flags := 0 |}.

Definition ch_init {A} (cap : nat) : chan A := {| ch_cap := cap; ch_q := [] |}.

(** The arrays a round is built in. *)
Record round_t := {
  rd_out_mask : list bool; rd_out_addrs : list Z; rd_out_data : list (option block);
  rd_out_byteen : list Z; rd_out_tids : list Z; rd_cur_mask : list bool
}.

Section Coalescer.
Context (c : co_config) (am : addr_map) (hc : hart_cfg).

Definition output_ratio_ : nat := input_size_ c / output_size_ c.

Definition MemCoalescer_init (cap : nat) : MemCoalescer := {|
  co_ReqIn := ch_init cap; co_RspOut := ch_init cap;
  co_ReqOut := replicate (output_size_ c) (ch_init cap); co_RspIn := replicate (output_size_ c) (ch_init cap);
  pending_rd_reqs_ := HashTable_init (co_queue_size c);
  sent_mask_ := zeros (input_size_ c);
  out_round_ := {| or_valid := false; or_lanes := []; or_reqs := []; or_cur_mask := [] |};
  co_misses := 0 |}.

Definition co_on_reset (s : MemCoalescer) : MemCoalescer :=
  s <| sent_mask_ := zeros (length (sent_mask_ s)) |>
    <| out_round_ := (out_round_ s) <| or_valid := false |> <| or_lanes := zeros (length (or_lanes (out_round_ s))) |> <| or_reqs := [] |> |>.

(** ** Responses *)

(** Input lane [i] belongs to output lane [i / output_ratio_]. *)
Definition group_of (i : nat) : nat := i / output_ratio_.

Definition rsp_mask_of (entry : pending_req_t) (lane_mask : list bool) : list bool :=
  map (fun i => test lane_mask (group_of i) && test (pr_mask entry) i) (seq 0 (input_size_ c)).

Definition rsp_data_of (s : MemCoalescer) (rsp_mask : list bool) : list (option block) :=
  map (fun i => if test rsp_mask i then port_head (co_RspIn s) (group_of i) ≫= rs_data else None) (seq 0 (input_size_ c)).

Definition co_response (s : MemCoalescer) : option MemCoalescer :=
  match first_port (output_size_ c) (co_RspIn s) with
  | None => Some s
  | Some o =>
      if ch_full (co_RspOut s) then Some s else
      rsp0 ← port_head (co_RspIn s) o;
      entry ← ht_at (pending_rd_reqs_ s) (rs_tag rsp0);
      let lane_mask := tag_ports (output_size_ c) (co_RspIn s) o (rs_tag rsp0) in
      let rsp_mask := rsp_mask_of entry lane_mask in
      let out_rsp := {| lr_mask := rsp_mask; lr_tag := pr_tag entry; lr_cid := rs_hart_id rsp0; lr_uuid := rs_uuid rsp0;
                        lr_data := rsp_data_of s rsp_mask |} in
      if bv_none (pr_mask entry) then None else
      let entry := entry <| pr_mask := bv_andn (pr_mask entry) rsp_mask |> in
      table ← (if bv_none (pr_mask entry) then ht_release (pending_rd_reqs_ s) (rs_tag rsp0)
               else Some (ht_put (pending_rd_reqs_ s) (rs_tag rsp0) entry));
      Some (s <| co_RspOut := ch_push (co_RspOut s) out_rsp |> <| pending_rd_reqs_ := table |>
              <| co_RspIn := pop_ports lane_mask (co_RspIn s) |>)
  end.

(** ** Issuing a pending round *)

Definition flush_out_round (s : MemCoalescer) : option MemCoalescer :=
  let r := out_round_ s in
  let '(lanes, chs) := send_lanes (output_size_ c) (or_reqs r) (or_lanes r) (co_ReqOut s) in
  let s := s <| co_ReqOut := chs |> <| out_round_ := r <| or_lanes := lanes |> |> in
  if any lanes then Some s else
  let s := s <| out_round_ := (out_round_ s) <| or_valid := false |> |> in
  in_req ← head (ch_q (co_ReqIn s));
  let sent := bv_or (sent_mask_ s) (or_cur_mask r) in
  if bool_decide (sent = lq_mask in_req) then
    Some (s <| co_ReqIn := ch_pop (co_ReqIn s) |> <| sent_mask_ := zeros (length sent) |>)
  else Some (s <| sent_mask_ := sent |>).

(** ** Building a round *)

Definition addr_mask : Z := u64 (Z.lnot (line_size_ c - 1)).
Definition line_of (q : LsuReq) (i : nat) : Z := Z.land (lane_addr q i) addr_mask.

Definition pending_lane (sent : list bool) (q : LsuReq) (i : nat) : bool := negb (test sent i) && test (lq_mask q) i.

Definition round_init : round_t := {|
  rd_out_mask := zeros (output_size_ c); rd_out_addrs := replicate (output_size_ c) 0; rd_out_data := replicate (output_size_ c) None;
  rd_out_byteen := replicate (output_size_ c) 0; rd_out_tids := replicate (output_size_ c) 0; rd_cur_mask := zeros (input_size_ c) |}.

(** The lanes after the seed that access its line. *)
Definition mark_lane (sent : list bool) (q : LsuReq) (seed_addr : Z) (o : nat) (cur : list bool) (s : nat) : list bool :=
  let j := (o * output_ratio_ + s)%nat in
  if pending_lane sent q j && (line_of q j =? seed_addr) then bv_set cur j else cur.

(** The byte-enabled merge of the payload of one lane. *)
Definition merge_lane (q : LsuReq) (cur : list bool) (o : nat) (st : option block * Z) (s : nat) : option block * Z :=
  let j := (o * output_ratio_ + s)%nat in
  match test cur j, lane_data q j with
  | true, Some d => (Some (merge_bytes (default zero_block (fst st)) d (lane_be q j)), Z.lor (snd st) (lane_be q j))
  | _, _ => st
  end.

Definition build_group (sent : list bool) (q : LsuReq) (rd : round_t) (o : nat) : round_t :=
  match find (fun r => pending_lane sent q (o * output_ratio_ + r)) (seq 0 output_ratio_) with
  | None => rd
  | Some r =>
      let i := (o * output_ratio_ + r)%nat in
      let seed_addr := line_of q i in
      let cur := bv_set (rd_cur_mask rd) i in
      let cur := if lq_is_amo q then cur
                 else fold_left (mark_lane sent q seed_addr o) (seq (r + 1) (output_ratio_ - (r + 1))) cur in
      let tids := if lq_is_amo q && (i <? length (lq_tids q))%nat then <[o := lane_tid q i]> (rd_out_tids rd) else rd_out_tids rd in
      let rd := rd <| rd_cur_mask := cur |> <| rd_out_tids := tids |> in
      let rd := if lq_is_write q || lq_is_amo q then
                  let '(merged, merged_byteen) := fold_left (merge_lane q cur o) (seq r (output_ratio_ - r)) (None, 0) in
                  rd <| rd_out_data := <[o := merged]> (rd_out_data rd) |> <| rd_out_byteen := <[o := merged_byteen]> (rd_out_byteen rd) |>
                else rd in
      rd <| rd_out_mask := bv_set (rd_out_mask rd) o |>
         <| rd_out_addrs := <[o := if lq_is_amo q then lane_addr q i else seed_addr]> (rd_out_addrs rd) |>
  end.

Definition build_round (sent : list bool) (q : LsuReq) : round_t := fold_left (build_group sent q) (seq 0 (output_size_ c)) round_init.

(** The request of output lane [o]. *)
Definition round_req (q : LsuReq) (rd : round_t) (tag : Z) (o : nat) : MemReq :=
  if test (rd_out_mask rd) o then
    let addr := default 0 (rd_out_addrs rd !! o) in
    {| rq_op := lq_op q; rq_addr := addr; rq_data := default None (rd_out_data rd !! o); rq_byteen := default 0 (rd_out_byteen rd !! o);
       rq_tag := tag; rq_hart_id := make_hart_id hc (lq_cid q) (lq_wid q) (default 0 (rd_out_tids rd !! o)); rq_uuid := lq_uuid q;
       rq_flags := class_flags am (lq_flags q) addr |}
  else MemReq_default.

Definition co_request (s : MemCoalescer) : option MemCoalescer :=
  match ch_q (co_ReqIn s) with
  | [] => Some s
  | in_req :: _ =>
      if negb (length (lq_mask in_req) =? input_size_ c)%nat || bv_none (lq_mask in_req) then None else
      if ht_full (pending_rd_reqs_ s) then Some s else
      let rd := build_round (sent_mask_ s) in_req in
      if bv_none (rd_out_mask rd) then None else
      '(tag, table) ← (if negb (lq_is_write in_req) || lq_is_amo in_req
                       then ht_allocate (pending_rd_reqs_ s) {| pr_tag := lq_tag in_req; pr_mask := rd_cur_mask rd |}
                       else Some (0, pending_rd_reqs_ s));
      Some (s <| pending_rd_reqs_ := table |>
              <| out_round_ := {| or_valid := true; or_lanes := rd_out_mask rd; or_cur_mask := rd_cur_mask rd;
                                  or_reqs := map (round_req in_req rd tag) (seq 0 (output_size_ c)) |} |>
              <| co_misses := u64 (co_misses s + b2z (negb (Sched.count (rd_cur_mask rd) =? Sched.count (lq_mask in_req))%nat)) |>)
  end.

Definition co_on_tick (s : MemCoalescer) : option MemCoalescer :=
  s ← co_response s;
  if or_valid (out_round_ s) then flush_out_round s else co_request s.

End Coalescer.
