(* ===== verification/CoalescerRound.v ===== *)
(** * The rounds of the coalescer

    What a port of the coalescer is to send for a request, independently of
    the rounds: the active lanes of its group are cut into the sets that
    access one line, in the order of their first lanes; an atomic operation
    is never merged.  [build_round] takes the first set of every group. *)

From S2P Require Import Prelude MemTypes Sched Cache LsuTypes Coalescer.

Definition needs_rsp (op : MemOp) : bool := negb (memop_is_write op) || memop_is_atomic op.

Section Spec.
Context (c : co_config) (am : addr_map) (hc : hart_cfg).
Implicit Types (q : LsuReq) (L P : list nat).

(** The lanes of group [o] among those of a mask, in increasing order. *)
Definition group_lanes (m : list bool) (o : nat) : list nat :=
  filter (fun i => test m i = true) (seq (o * output_ratio_ c) (output_ratio_ c)).

Definition slot_first q P : list nat :=
  match P with
  | [] => []
  | i :: P => if lq_is_amo q then [i] else i :: filter (fun j => line_of c q j = line_of c q i) P
  end.
Definition slot_rest q P : list nat :=
  match P with
  | [] => []
  | i :: P => if lq_is_amo q then P else filter (fun j => line_of c q j <> line_of c q i) P
  end.
Fixpoint slots_fuel q (n : nat) P : list (list nat) :=
  match n, P with
  | S n, _ :: _ => slot_first q P :: slots_fuel q n (slot_rest q P)
  | _, _ => []
  end.
Definition slots q P : list (list nat) := slots_fuel q (length P) P.

(** The payloads of the lanes of a set, merged in lane order. *)
Definition payload_step q (st : option block * Z) (j : nat) : option block * Z :=
  match lane_data q j with
  | Some d => (Some (merge_bytes (default zero_block (fst st)) d (lane_be q j)), Z.lor (snd st) (lane_be q j))
  | None => st
  end.
Definition payload q L : option block * Z := if lq_is_write q || lq_is_amo q then fold_left (payload_step q) L (None, 0) else (None, 0).

(** The request of the lanes [L] of [q], which access one line. *)
Definition slot_addr q L : Z := let i := default O (head L) in if lq_is_amo q then lane_addr q i else line_of c q i.
Definition slot_req q (tag : Z) L : MemReq :=
  {| rq_op := lq_op q; rq_addr := slot_addr q L; rq_data := fst (payload q L); rq_byteen := snd (payload q L); rq_tag := tag;
     rq_hart_id := make_hart_id hc (lq_cid q) (lq_wid q) (if lq_is_amo q then lane_tid q (default O (head L)) else 0);
     rq_uuid := lq_uuid q; rq_flags := class_flags am (lq_flags q) (slot_addr q L) |}.

(** ** The sets *)

Lemma slot_rest_length q P : (length (slot_rest q P) <= pred (length P))%nat.
Proof. destruct P as [|i P]; cbn; [lia|]. case_match; [lia|]. apply length_filter. Qed.

Lemma slots_fuel_enough q n m P : (length P <= n)%nat -> (length P <= m)%nat -> slots_fuel q n P = slots_fuel q m P.
Proof.
  revert m P. induction n as [|n IH]; intros [|m] [|i P] Hn Hm; cbn [length] in *; try lia; try done.
  cbn [slots_fuel]. f_equal. pose proof (slot_rest_length q (i :: P)) as H. cbn [length pred] in H. apply IH; lia.
Qed.

Lemma slots_cons q i P : slots q (i :: P) = slot_first q (i :: P) :: slots q (slot_rest q (i :: P)).
Proof.
  unfold slots. cbn [length slots_fuel]. f_equal. pose proof (slot_rest_length q (i :: P)) as H. cbn [length pred] in H.
  apply slots_fuel_enough; lia.
Qed.

Lemma slots_ne q P : P <> [] -> slots q P = slot_first q P :: slots q (slot_rest q P).
Proof. destruct P; [done|]. intros _. apply slots_cons. Qed.

Lemma slot_split q P i : i ∈ P <-> i ∈ slot_first q P \/ i ∈ slot_rest q P.
Proof.
  destruct P as [|j P]; cbn; [set_solver|]. case_match; [set_solver|].
  rewrite !elem_of_cons, !list_elem_of_filter. destruct (decide (line_of c q i = line_of c q j)); naive_solver.
Qed.

Lemma slot_disjoint q P i : NoDup P -> i ∈ slot_first q P -> i ∈ slot_rest q P -> False.
Proof.
  destruct P as [|j P]; cbn; [set_solver|]. intros [Hj HP]%list.NoDup_cons. case_match; [set_solver|].
  rewrite elem_of_cons, !list_elem_of_filter. naive_solver.
Qed.

Lemma slot_rest_sub q P i : i ∈ slot_rest q P -> i ∈ P.
Proof. rewrite (slot_split q P). auto. Qed.

Lemma slot_rest_nodup q P : NoDup P -> NoDup (slot_rest q P).
Proof. destruct P as [|j P]; cbn; [done|]. intros [Hj HP]%list.NoDup_cons. case_match; [done|]. by apply list.NoDup_filter. Qed.

Lemma slot_first_nodup q P : NoDup P -> NoDup (slot_first q P).
Proof.
  destruct P as [|j P]; cbn; [done|]. intros [Hj HP]%list.NoDup_cons. case_match; [apply NoDup_singleton|].
  apply list.NoDup_cons. split; [|by apply list.NoDup_filter]. rewrite list_elem_of_filter. tauto.
Qed.

(** What is left after the first set are the lanes outside it. *)
Lemma slot_rest_filter q P : NoDup P -> slot_rest q P = filter (fun i => i ∉ slot_first q P) P.
Proof.
  destruct P as [|j P]; [done|]. intros [Hj HP]%list.NoDup_cons. cbn [slot_rest slot_first].
  rewrite filter_cons_False by (case_match; set_solver). case_match.
  - symmetry. apply filter_all. intros i Hi. set_solver.
  - apply filter_ext_in. intros i Hi. rewrite elem_of_cons, list_elem_of_filter. set_solver.
Qed.

Lemma slot_first_filter q P : NoDup P -> slot_first q P = filter (fun i => i ∈ slot_first q P) P.
Proof.
  destruct P as [|j P]; [done|]. intros [Hj HP]%list.NoDup_cons. cbn [slot_first].
  rewrite filter_cons_True by (case_match; set_solver). case_match.
  - f_equal. symmetry. apply filter_none. intros i Hi. set_solver.
  - f_equal. apply filter_ext_in. intros i Hi. rewrite elem_of_cons, list_elem_of_filter. set_solver.
Qed.

Lemma group_lanes_spec m o i : i ∈ group_lanes m o <-> test m i = true /\ (o * output_ratio_ c <= i < o * output_ratio_ c + output_ratio_ c)%nat.
Proof. unfold group_lanes. rewrite list_elem_of_filter, elem_of_seq. done. Qed.

Lemma group_lanes_nodup m o : NoDup (group_lanes m o).
Proof. apply list.NoDup_filter, list.NoDup_seq. Qed.

(** Two masks with the same lanes in a group. *)
Lemma group_lanes_ext m m' o : (forall i, (o * output_ratio_ c <= i < o * output_ratio_ c + output_ratio_ c)%nat -> test m i = test m' i) ->
  group_lanes m o = group_lanes m' o.
Proof. intros H. apply filter_ext_in. intros i Hi%elem_of_seq. by rewrite H. Qed.

(** Taking lanes away from a mask. *)
Lemma group_lanes_andn m m' o : length m = length m' -> group_lanes (bv_andn m m') o = filter (fun i => test m' i = false) (group_lanes m o).
Proof.
  intros E. unfold group_lanes. rewrite list_filter_filter. apply filter_ext_in. intros i Hi.
  rewrite test_bv_andn by done. destruct (test m i), (test m' i); cbn; naive_solver.
Qed.

(** ** The scan of a group *)

Lemma find_seq_filter (f : nat -> bool) a n :
  match find f (seq a n) with
  | Some r => (a <= r < a + n)%nat /\ filter (fun s => f s = true) (seq a n) = r :: filter (fun s => f s = true) (seq (r + 1) (a + n - (r + 1)))
  | None => filter (fun s => f s = true) (seq a n) = []
  end.
Proof.
  revert a. induction n as [|n IH]; intros a; [done|]. cbn [seq find]. destruct (f a) eqn:Ha.
  - split; [lia|]. rewrite filter_cons_True by done. do 3 f_equal; lia.
  - specialize (IH (S a)). rewrite filter_cons_False by congruence. destruct (find f (seq (S a) n)) as [r|]; [|done].
    destruct IH as [Hr ->]. split; [lia|]. do 3 f_equal; lia.
Qed.

(** The pending lanes of a group, as the scan meets them. *)
Definition todo (sent : list bool) q (o : nat) : list nat := filter (fun i => pending_lane sent q i = true) (seq (o * output_ratio_ c) (output_ratio_ c)).

Lemma todo_find sent q o :
  match find (fun r => pending_lane sent q (o * output_ratio_ c + r)) (seq 0 (output_ratio_ c)) with
  | Some r => (r < output_ratio_ c)%nat /\ pending_lane sent q (o * output_ratio_ c + r) = true /\
      todo sent q o = (o * output_ratio_ c + r)%nat :: filter (fun i => pending_lane sent q i = true) (seq (o * output_ratio_ c + (r + 1)) (output_ratio_ c - (r + 1)))
  | None => todo sent q o = []
  end.
Proof.
  unfold todo. set (b := (o * output_ratio_ c)%nat). set (n := output_ratio_ c).
  assert (Hshift : forall a k, filter (fun i => pending_lane sent q i = true) (seq (b + a) k) =
    map (Nat.add b) (filter (fun r => pending_lane sent q (b + r) = true) (seq a k))).
  { intros a k. revert a. induction k as [|k IH]; intros a; [done|]. cbn [seq]. rewrite !filter_cons, <- Nat.add_succ_r, IH. by case_decide. }
  pose proof (find_seq_filter (fun r => pending_lane sent q (b + r)) 0 n) as H.
  pose proof (Hshift O n) as H0. rewrite Nat.add_0_r in H0. rewrite H0.
  destruct (find _ _) as [r|] eqn:Hf.
  - destruct H as [Hr ->]. cbn [map]. rewrite Hshift. split; [lia|]. split; [by apply find_some in Hf as [_ ?]|done].
  - by rewrite H.
Qed.

Lemma todo_nodup sent q o : NoDup (todo sent q o).
Proof. apply list.NoDup_filter, list.NoDup_seq. Qed.

Lemma todo_spec sent q o i : i ∈ todo sent q o <-> pending_lane sent q i = true /\ (o * output_ratio_ c <= i < o * output_ratio_ c + output_ratio_ c)%nat.
Proof. unfold todo. rewrite list_elem_of_filter, elem_of_seq. done. Qed.

(** ** Marking and merging *)

Lemma mark_fold sent q addr o l cur : length (lq_mask q) = input_size_ c -> length cur = input_size_ c ->
  length (fold_left (mark_lane c sent q addr o) l cur) = input_size_ c /\
  forall j, test (fold_left (mark_lane c sent q addr o) l cur) j =
    test cur j || (pending_lane sent q j && (line_of c q j =? addr) && existsb (fun s => (j =? o * output_ratio_ c + s)%nat) l).
Proof.
  intros Hm. revert cur. induction l as [|s l IH]; intros cur Hc; cbn [fold_left existsb].
  - split; [done|]. intros j. by rewrite andb_false_r, orb_false_r.
  - assert (Hc' : length (mark_lane c sent q addr o cur s) = input_size_ c).
    { unfold mark_lane. case_match; [by rewrite length_bv_set|done]. }
    destruct (IH _ Hc') as [IHl IHt]. split; [done|]. intros j. rewrite IHt. unfold mark_lane.
    destruct (Nat.eqb_spec j (o * output_ratio_ c + s)) as [->|Hne].
    + destruct (pending_lane sent q _ && (line_of c q _ =? addr)) eqn:E.
      * rewrite test_bv_set, Nat.eqb_refl. apply andb_true_iff in E as [Hp _]. unfold pending_lane in Hp. apply andb_true_iff in Hp as [_ Hp].
        apply test_lt in Hp. rewrite Hm in Hp. apply Nat.ltb_lt in Hp. rewrite Hc, Hp. cbn. by rewrite !orb_true_r.
      * done.
    + cbn [orb]. case_match; [|done]. rewrite test_bv_set. apply Nat.eqb_neq in Hne. rewrite Hne. cbn. by rewrite orb_false_r.
Qed.

Lemma merge_fold q cur o l st :
  fold_left (merge_lane c q cur o) l st = fold_left (payload_step q) (filter (fun j => test cur j = true) (map (fun s => o * output_ratio_ c + s)%nat l)) st.
Proof.
  revert st. induction l as [|s l IH]; intros st; [done|]. cbn [fold_left map]. rewrite IH, filter_cons. unfold merge_lane.
  destruct (test cur _) eqn:E; case_decide; try done.
Qed.

Lemma map_add_seq b a n : map (fun s => b + s)%nat (seq a n) = seq (b + a) n.
Proof. revert a. induction n as [|n IH]; intros a; [done|]. cbn [seq map]. rewrite IH. do 2 f_equal. lia. Qed.

(** ** A round *)

Definition first_lanes (sent : list bool) q (o : nat) : list nat := slot_first q (todo sent q o).

Lemma first_lanes_sub sent q o i : i ∈ first_lanes sent q o -> i ∈ todo sent q o.
Proof. intros H. apply (slot_split q). by left. Qed.

(** The marked lanes of the group, read off the seed [i = o * output_ratio_ + r]. *)
Definition marked sent q (o r : nat) (cur : list bool) : list bool :=
  let i := (o * output_ratio_ c + r)%nat in
  if lq_is_amo q then bv_set cur i
  else fold_left (mark_lane c sent q (line_of c q i) o) (seq (r + 1) (output_ratio_ c - (r + 1))) (bv_set cur i).

Lemma existsb_seq j b a n : existsb (fun s => (j =? b + s)%nat) (seq a n) = ((b + a <=? j) && (j <? b + a + n))%nat.
Proof.
  apply eq_iff_eq_true. rewrite existsb_exists, andb_true_iff, Nat.leb_le, Nat.ltb_lt. split.
  - intros (s & Hs%in_seq & ->%Nat.eqb_eq). lia.
  - intros H. exists (j - b)%nat. rewrite in_seq, Nat.eqb_eq. lia.
Qed.

Lemma marked_spec sent q o r cur : length (lq_mask q) = input_size_ c -> length cur = input_size_ c ->
  find (fun r => pending_lane sent q (o * output_ratio_ c + r)) (seq 0 (output_ratio_ c)) = Some r ->
  length (marked sent q o r cur) = input_size_ c /\
  forall j, test (marked sent q o r cur) j = true <-> test cur j = true \/ j ∈ first_lanes sent q o.
Proof.
  intros Hm Hc Hf. pose proof (todo_find sent q o) as H. rewrite Hf in H. destruct H as (Hr & Hp & Ht).
  unfold first_lanes. rewrite Ht. cbn [slot_first]. set (i := (o * output_ratio_ c + r)%nat) in *.
  assert (Hi : (i < input_size_ c)%nat).
  { unfold pending_lane in Hp. apply andb_true_iff in Hp as [_ Hp]. apply test_lt in Hp. lia. }
  assert (Hs : forall j, test (bv_set cur i) j = true <-> test cur j = true \/ j = i).
  { intros j. rewrite test_bv_set, orb_true_iff, andb_true_iff, Nat.eqb_eq, Nat.ltb_lt, Hc. naive_solver. }
  unfold marked. fold i. destruct (lq_is_amo q).
  - split; [by rewrite length_bv_set|]. intros j. rewrite Hs, list_elem_of_singleton. done.
  - pose proof (mark_fold sent q (line_of c q i) o (seq (r + 1) (output_ratio_ c - (r + 1))) (bv_set cur i) Hm ltac:(by rewrite length_bv_set)) as [Hl HT].
    split; [done|]. intros j. rewrite HT, orb_true_iff, Hs, !andb_true_iff, Z.eqb_eq, existsb_seq, andb_true_iff, Nat.leb_le, Nat.ltb_lt.
    rewrite elem_of_cons, !list_elem_of_filter, elem_of_seq. naive_solver.
Qed.

(** The lanes merged into the payload are those of the set. *)
Lemma marked_merge sent q o r cur : length (lq_mask q) = input_size_ c -> length cur = input_size_ c ->
  (forall j, test cur j = true -> j < o * output_ratio_ c)%nat ->
  find (fun r => pending_lane sent q (o * output_ratio_ c + r)) (seq 0 (output_ratio_ c)) = Some r ->
  filter (fun j => test (marked sent q o r cur) j = true) (map (fun s => o * output_ratio_ c + s)%nat (seq r (output_ratio_ c - r))) = first_lanes sent q o.
Proof.
  intros Hm Hc Hlow Hf. destruct (marked_spec sent q o r cur Hm Hc Hf) as [_ HT].
  pose proof (todo_find sent q o) as H. rewrite Hf in H. destruct H as (Hr & Hp & Ht).
  rewrite map_add_seq. rewrite (filter_ext_in _ (fun j => j ∈ first_lanes sent q o)).
  2:{ intros j Hj%elem_of_seq. rewrite HT. split; [|tauto]. intros [Hj'|]; [|done]. apply Hlow in Hj'. lia. }
  etrans; [|symmetry; apply slot_first_filter, todo_nodup]. fold (first_lanes sent q o).
  unfold todo. rewrite list_filter_filter_l by (intros x Hx%first_lanes_sub%todo_spec; tauto).
  replace (output_ratio_ c) with (r + (output_ratio_ c - r))%nat at 4 by lia.
  rewrite seq_app, list.filter_app. rewrite (filter_none _ (seq (o * output_ratio_ c) r)); [done|].
  intros j Hj%elem_of_seq Hin%first_lanes_sub. rewrite Ht in Hin. apply elem_of_cons in Hin as [->|[_ Hin%elem_of_seq]%list_elem_of_filter]; lia.
Qed.

Definition slot_state q (rd : round_t) (o : nat) L : Prop :=
  if bool_decide (L = []) then
    test (rd_out_mask rd) o = false /\ rd_out_data rd !! o = Some None /\ rd_out_byteen rd !! o = Some 0 /\ rd_out_tids rd !! o = Some 0
  else
    test (rd_out_mask rd) o = true /\ rd_out_addrs rd !! o = Some (slot_addr q L) /\
    rd_out_data rd !! o = Some (fst (payload q L)) /\ rd_out_byteen rd !! o = Some (snd (payload q L)) /\
    rd_out_tids rd !! o = Some (if lq_is_amo q then lane_tid q (default O (head L)) else 0).

Record round_inv sent q (n : nat) (rd : round_t) : Prop := {
  ri_cur : length (rd_cur_mask rd) = input_size_ c;
  ri_mask : length (rd_out_mask rd) = output_size_ c;
  ri_addrs : length (rd_out_addrs rd) = output_size_ c;
  ri_lanes : forall j, test (rd_cur_mask rd) j = true <-> exists o, (o < n)%nat /\ j ∈ first_lanes sent q o;
  ri_slots : forall o, (o < output_size_ c)%nat -> slot_state q rd o (if (o <? n)%nat then first_lanes sent q o else [])
}.

Lemma build_group_some sent q rd o r : find (fun r => pending_lane sent q (o * output_ratio_ c + r)) (seq 0 (output_ratio_ c)) = Some r ->
  let i := (o * output_ratio_ c + r)%nat in
  let cur := marked sent q o r (rd_cur_mask rd) in
  let L := filter (fun j => test cur j = true) (map (fun s => o * output_ratio_ c + s)%nat (seq r (output_ratio_ c - r))) in
  build_group c sent q rd o = {|
    rd_out_mask := bv_set (rd_out_mask rd) o;
    rd_out_addrs := <[o := if lq_is_amo q then lane_addr q i else line_of c q i]> (rd_out_addrs rd);
    rd_out_data := if lq_is_write q || lq_is_amo q then <[o := fst (payload q L)]> (rd_out_data rd) else rd_out_data rd;
    rd_out_byteen := if lq_is_write q || lq_is_amo q then <[o := snd (payload q L)]> (rd_out_byteen rd) else rd_out_byteen rd;
    rd_out_tids := if lq_is_amo q && (i <? length (lq_tids q))%nat then <[o := lane_tid q i]> (rd_out_tids rd) else rd_out_tids rd;
    rd_cur_mask := cur |}.
Proof.
  intros Hf i cur L. unfold build_group, payload. rewrite Hf. fold i. cbv zeta.
  fold (marked sent q o r (rd_cur_mask rd)). subst L. fold i cur. destruct (lq_is_write q || lq_is_amo q); [|done]. rewrite (merge_fold q cur). by destruct (fold_left _ _ _).
Qed.

Lemma lane_tid_oob q i : (length (lq_tids q) <= i)%nat -> lane_tid q i = 0.
Proof. intros. unfold lane_tid. by rewrite lookup_ge_None_2. Qed.

(** The group's own slot after its scan. *)
Lemma build_group_own sent q o rd : length (lq_mask q) = input_size_ c -> (o < output_size_ c)%nat -> round_inv sent q o rd ->
  slot_state q (build_group c sent q rd o) o (first_lanes sent q o).
Proof.
  intros Hm Ho [Rc Rm Ra Rl Rs]. pose proof (Rs o Ho) as Hs. rewrite Nat.ltb_irrefl in Hs. unfold slot_state in Hs.
  rewrite bool_decide_true in Hs by done. destruct Hs as (H1 & H2 & H3 & H4).
  pose proof (todo_find sent q o) as Ht. destruct (find _ _) as [r|] eqn:Hf.
  2:{ unfold build_group, slot_state, first_lanes. rewrite Hf, Ht. done. }
  destruct Ht as (Hr & Hp & Ht).
  assert (Hlow : forall j, test (rd_cur_mask rd) j = true -> (j < o * output_ratio_ c)%nat).
  { intros j (o' & Ho' & Hj%first_lanes_sub%todo_spec)%Rl. nia. }
  rewrite (build_group_some sent q rd o r Hf), (marked_merge sent q o r _ Hm Rc Hlow Hf). cbv zeta.
  set (i := (o * output_ratio_ c + r)%nat) in *.
  assert (HL : head (first_lanes sent q o) = Some i). { unfold first_lanes. rewrite Ht. cbn. by case_match. }
  unfold slot_state. rewrite bool_decide_false by (intros E; by rewrite E in HL). cbn [rd_out_mask rd_out_addrs rd_out_data rd_out_byteen rd_out_tids].
  assert (Hd : (o < length (rd_out_data rd))%nat) by (by eapply lookup_lt_Some).
  assert (Hb : (o < length (rd_out_byteen rd))%nat) by (by eapply lookup_lt_Some).
  assert (Htd : (o < length (rd_out_tids rd))%nat) by (by eapply lookup_lt_Some).
  split_and!.
  - rewrite test_bv_set, Nat.eqb_refl, Rm. apply Nat.ltb_lt in Ho. rewrite Ho. by rewrite orb_true_r.
  - rewrite list_lookup_insert_eq by lia. unfold slot_addr. by rewrite HL.
  - unfold payload. destruct (_ || _); [by rewrite list_lookup_insert_eq by lia|done].
  - unfold payload. destruct (_ || _); [by rewrite list_lookup_insert_eq by lia|done].
  - rewrite HL. cbn [default from_option]. destruct (lq_is_amo q); cbn [andb]; [|done].
    destruct (Nat.ltb_spec i (length (lq_tids q))); [by rewrite list_lookup_insert_eq by lia|]. by rewrite lane_tid_oob.
Qed.

(** The scan of a group leaves the other slots alone. *)
Lemma build_group_other sent q o o' rd L : o' <> o -> slot_state q rd o' L -> slot_state q (build_group c sent q rd o) o' L.
Proof.
  intros Hne H. destruct (find (fun r => pending_lane sent q (o * output_ratio_ c + r)) (seq 0 (output_ratio_ c))) as [r|] eqn:Hf.
  2:{ unfold build_group. by rewrite Hf. }
  rewrite (build_group_some sent q rd o r Hf). unfold slot_state in *. cbn [rd_out_mask rd_out_addrs rd_out_data rd_out_byteen rd_out_tids].
  apply Nat.eqb_neq in Hne as Hne'. rewrite test_bv_set, Hne'. cbn [andb]. rewrite orb_false_r.
  case_match; destruct H as (? & ? & ? & H); repeat case_match; rewrite ?list_lookup_insert_ne by congruence; done.
Qed.

Lemma build_group_inv sent q o rd : length (lq_mask q) = input_size_ c -> (o < output_size_ c)%nat ->
  round_inv sent q o rd -> round_inv sent q (S o) (build_group c sent q rd o).
Proof.
  intros Hm Ho R. pose proof (build_group_own sent q o rd Hm Ho R) as Hown. pose proof R as [Rc Rm Ra Rl Rs].
  assert (Hother : forall o', (o' < output_size_ c)%nat -> slot_state q (build_group c sent q rd o) o' (if (o' <? S o)%nat then first_lanes sent q o' else [])).
  { intros o' Ho'. destruct (decide (o' = o)) as [->|Hne]; [by rewrite (proj2 (Nat.ltb_lt o (S o)) ltac:(lia))|].
    apply build_group_other; [done|]. replace (o' <? S o)%nat with (o' <? o)%nat; [by apply Rs|].
    apply eq_iff_eq_true. rewrite !Nat.ltb_lt. lia. }
  destruct (find (fun r => pending_lane sent q (o * output_ratio_ c + r)) (seq 0 (output_ratio_ c))) as [r|] eqn:Hf.
  - destruct (marked_spec sent q o r _ Hm Rc Hf) as [Hl HT].
    constructor; [..|exact Hother]; rewrite (build_group_some sent q rd o r Hf);
      cbn [rd_out_mask rd_out_addrs rd_cur_mask]; rewrite ?length_bv_set, ?length_insert; try done.
    intros j. rewrite HT, Rl. split.
    + intros [(o' & ? & ?)|?]; [exists o'|exists o]; (split; [lia|done]).
    + intros (o' & ? & ?). destruct (decide (o' = o)) as [->|]; [by right|]. left. exists o'. split; [lia|done].
  - constructor; [..|exact Hother]; unfold build_group; rewrite Hf; try done.
    intros j. rewrite Rl. split; intros (o' & ? & Hj).
    + exists o'. split; [lia|done].
    + destruct (decide (o' = o)) as [->|]; [|exists o'; split; [lia|done]].
      pose proof (todo_find sent q o) as Ht. rewrite Hf in Ht. unfold first_lanes in Hj. rewrite Ht in Hj. by apply elem_of_nil in Hj.
Qed.

Lemma build_round_inv sent q : length (lq_mask q) = input_size_ c -> round_inv sent q (output_size_ c) (build_round c sent q).
Proof.
  intros Hm. unfold build_round. assert (H : forall n, (n <= output_size_ c)%nat -> round_inv sent q n (fold_left (build_group c sent q) (seq 0 n) (round_init c))).
  2:{ by apply H. }
  induction n as [|n IH]; intros Hn.
  - cbn. constructor; cbn [round_init rd_cur_mask rd_out_mask rd_out_addrs rd_out_data rd_out_byteen rd_out_tids];
      unfold zeros; rewrite ?length_replicate; try done.
    + intros j. fold (zeros (input_size_ c)). rewrite test_zeros. split; [done|]. intros (? & ? & _). lia.
    + intros o Ho. unfold slot_state, round_init. cbn. fold (zeros (output_size_ c)). rewrite test_zeros, !lookup_replicate_2 by done. done.
  - rewrite seq_S, fold_left_app. cbn [fold_left]. apply build_group_inv; [done|lia|]. apply IH. lia.
Qed.

(** What a round is: the first set of every group that has a pending lane. *)
Theorem build_round_spec sent q tag o : length (lq_mask q) = input_size_ c -> (o < output_size_ c)%nat ->
  let rd := build_round c sent q in
  test (rd_out_mask rd) o = negb (bool_decide (todo sent q o = [])) /\
  (todo sent q o <> [] -> round_req am hc q rd tag o = slot_req q tag (first_lanes sent q o)).
Proof.
  intros Hm Ho rd. destruct (build_round_inv sent q Hm) as [_ _ _ _ Rs]. fold rd in Rs. specialize (Rs o Ho).
  rewrite (proj2 (Nat.ltb_lt _ _) Ho) in Rs. unfold slot_state in Rs.
  assert (E : first_lanes sent q o = [] <-> todo sent q o = []).
  { unfold first_lanes. destruct (todo sent q o); [done|]. cbn. destruct (lq_is_amo q); split; done. }
  rewrite (bool_decide_ext _ _ E) in Rs. destruct (bool_decide (todo sent q o = [])) eqn:Ed; [apply bool_decide_eq_true in Ed|apply bool_decide_eq_false in Ed].
  - split; [by rewrite (proj1 Rs)|done].
  - destruct Rs as (H1 & H2 & H3 & H4 & H5). split; [done|]. intros _. unfold round_req, slot_req. rewrite H1, H2, H3, H4, H5. done.
Qed.

(** ** One round after another *)

Lemma todo_zeros q n o : todo (zeros n) q o = group_lanes (lq_mask q) o.
Proof. apply filter_ext_in. intros i _. unfold pending_lane. by rewrite test_zeros. Qed.

Lemma cur_group sent q o i : length (lq_mask q) = input_size_ c -> (o < output_size_ c)%nat ->
  (o * output_ratio_ c <= i < o * output_ratio_ c + output_ratio_ c)%nat ->
  test (rd_cur_mask (build_round c sent q)) i = true <-> i ∈ first_lanes sent q o.
Proof.
  intros Hm Ho Hi. rewrite (ri_lanes _ _ _ _ (build_round_inv sent q Hm)). split; [|eauto].
  intros (o' & Ho' & Hin). pose proof (first_lanes_sub _ _ _ _ Hin) as [_ ?]%todo_spec.
  assert (o' = o) as -> by nia. done.
Qed.

Lemma todo_next sent q o : length (lq_mask q) = input_size_ c -> length sent = input_size_ c -> (o < output_size_ c)%nat ->
  todo (bv_or sent (rd_cur_mask (build_round c sent q))) q o = slot_rest q (todo sent q o).
Proof.
  intros Hm Hs Ho. rewrite slot_rest_filter by apply todo_nodup. fold (first_lanes sent q o). unfold todo. rewrite list_filter_filter. apply filter_ext_in.
  intros i Hi%elem_of_seq. rewrite <- (cur_group sent q o i Hm Ho Hi). unfold pending_lane.
  rewrite test_bv_or by (rewrite (ri_cur _ _ _ _ (build_round_inv sent q Hm)); done).
  destruct (test sent i), (test (rd_cur_mask _) i), (test (lq_mask q) i); cbn; naive_solver.
Qed.

(** Input lanes are cut into groups without remainder. *)
Definition sizes_ok : Prop := input_size_ c = (output_size_ c * output_ratio_ c)%nat.

Lemma lane_group i : sizes_ok -> (i < input_size_ c)%nat ->
  exists o, (o < output_size_ c)%nat /\ (o * output_ratio_ c <= i < o * output_ratio_ c + output_ratio_ c)%nat /\ group_of c i = o.
Proof.
  intros Hs Hi. unfold sizes_ok in Hs. unfold group_of. assert (output_ratio_ c <> 0%nat) by (intros E; rewrite E in Hs; lia).
  pose proof (Nat.div_mod i (output_ratio_ c) ltac:(done)). pose proof (Nat.mod_upper_bound i (output_ratio_ c) ltac:(done)).
  exists (i / output_ratio_ c)%nat. split; [|split; [lia|done]]. apply Nat.Div0.div_lt_upper_bound. lia.
Qed.

Lemma group_of_lane o i : (o * output_ratio_ c <= i < o * output_ratio_ c + output_ratio_ c)%nat -> group_of c i = o.
Proof.
  intros Hi. unfold group_of. symmetry. apply (Nat.div_unique _ _ _ (i - o * output_ratio_ c)); lia.
Qed.

(** The lanes sent so far are lanes of the request. *)
Definition sent_ok (sent : list bool) q : Prop := length sent = input_size_ c /\ forall i, test sent i = true -> test (lq_mask q) i = true.

Lemma sent_next sent q : length (lq_mask q) = input_size_ c -> sent_ok sent q -> sent_ok (bv_or sent (rd_cur_mask (build_round c sent q))) q.
Proof.
  intros Hm [Hl Hs]. pose proof (build_round_inv sent q Hm) as R. pose proof (ri_cur _ _ _ _ R) as Hc. split.
  - rewrite length_bv_or; congruence.
  - intros i. rewrite test_bv_or by congruence. intros [H|H]%orb_true_iff; [by apply Hs|].
    apply (ri_lanes _ _ _ _ R) in H as (o & Ho & [Hp _]%first_lanes_sub%todo_spec). unfold pending_lane in Hp. by apply andb_true_iff in Hp as [_ ?].
Qed.

(** Every lane is sent exactly when no group has one pending. *)
Lemma all_sent sent q : sizes_ok -> length (lq_mask q) = input_size_ c -> sent_ok sent q ->
  sent = lq_mask q <-> forall o, (o < output_size_ c)%nat -> todo sent q o = [].
Proof.
  intros Hz Hm [Hl Hs]. split.
  - intros -> o _. apply filter_none. intros i _. unfold pending_lane. by destruct (test (lq_mask q) i).
  - intros H. apply test_ext; [congruence|]. intros i. destruct (test (lq_mask q) i) eqn:E.
    + destruct (test sent i) eqn:Es; [done|]. pose proof (test_lt _ _ E) as Hi. rewrite Hm in Hi.
      destruct (lane_group i Hz Hi) as (o & Ho & Hr & _). exfalso. assert (Hin : i ∈ todo sent q o).
      { apply todo_spec. unfold pending_lane. by rewrite Es, E. }
      rewrite H in Hin by done. by apply elem_of_nil in Hin.
    + destruct (test sent i) eqn:Es; [|done]. apply Hs in Es. congruence.
Qed.

(** The rounds of a request, and what they put on a port. *)
Fixpoint co_rounds (n : nat) (sent : list bool) q : list round_t :=
  match n with
  | O => []
  | S n => if bool_decide (sent = lq_mask q) then []
           else let rd := build_round c sent q in rd :: co_rounds n (bv_or sent (rd_cur_mask rd)) q
  end.
Definition port_reqs (tag : Z) q (rds : list round_t) (o : nat) : list MemReq :=
  flat_map (fun rd => if test (rd_out_mask rd) o then [round_req am hc q rd tag o] else []) rds.
Definition rounds_sent (sent : list bool) (rds : list round_t) : list bool := fold_left (fun s rd => bv_or s (rd_cur_mask rd)) rds sent.

Lemma co_rounds_spec n sent q tag : sizes_ok -> length (lq_mask q) = input_size_ c -> sent_ok sent q ->
  (forall o, (o < output_size_ c)%nat -> (length (todo sent q o) <= n)%nat) ->
  rounds_sent sent (co_rounds n sent q) = lq_mask q /\
  forall o, (o < output_size_ c)%nat -> port_reqs tag q (co_rounds n sent q) o = map (slot_req q tag) (slots q (todo sent q o)).
Proof.
  intros Hz Hm. revert sent. induction n as [|n IH]; intros sent Hs Hn.
  - assert (Hnil : forall o, (o < output_size_ c)%nat -> todo sent q o = []) by (intros o Ho; apply nil_length_inv; specialize (Hn o Ho); lia).
    split; [by apply all_sent|]. intros o Ho. by rewrite Hnil.
  - cbn [co_rounds]. case_bool_decide as Hd.
    { split; [done|]. intros o Ho. by rewrite (proj1 (all_sent sent q Hz Hm Hs) Hd o Ho). }
    set (rd := build_round c sent q). destruct (IH _ (sent_next sent q Hm Hs)) as [IH1 IH2].
    { intros o Ho. rewrite todo_next by (done || apply Hs). pose proof (slot_rest_length q (todo sent q o)). specialize (Hn o Ho). lia. }
    split; [done|]. intros o Ho. cbn [port_reqs flat_map]. change (flat_map _ (co_rounds n _ q)) with (port_reqs tag q (co_rounds n (bv_or sent (rd_cur_mask rd)) q) o).
    unfold rd in *. rewrite IH2, todo_next by (done || apply Hs). pose proof (build_round_spec sent q tag o Hm Ho) as [-> Hreq].
    case_bool_decide as Ht; cbn [negb].
    + by rewrite Ht.
    + rewrite (slots_ne q (todo sent q o) Ht), Hreq by done. done.
Qed.

Lemma todo_bound sent q o : (length (todo sent q o) <= output_ratio_ c)%nat.
Proof. unfold todo. etrans; [apply length_filter|]. by rewrite length_seq. Qed.

End Spec.
