(* ===== verification/LsuPath.v ===== *)
(** * From the load/store unit to the memories

    The switch that sends the lanes of a request to the local memory or to
    the data cache ([sim/simx/mem/local_mem_switch.cpp]), the adapter that
    turns a request into one memory request per lane
    ([sim/simx/mem/lsu_mem_adapter.cpp]) and the banks of the local memory
    ([sim/simx/mem/local_mem.cpp]; the crossbar in front of the banks is not
    modelled). *)

From S2P Require Import Prelude MemTypes Sched Cache CacheWorld LsuTypes Coalescer.

(** ** Lane adapter *)

Record LsuMemAdapter := {
  ad_ReqIn : chan LsuReq; ad_RspOut : chan LsuRsp;
  ad_ReqOut : list (chan MemReq); ad_RspIn : list (chan MemRsp);
  pending_mask_ : list bool
}.

Section Adapter.
Context (am : addr_map) (hc : hart_cfg).

Definition LsuMemAdapter_init (num_inputs cap : nat) : LsuMemAdapter := {|
  ad_ReqIn := ch_init cap; ad_RspOut := ch_init cap; ad_ReqOut := replicate num_inputs (ch_init cap);
  ad_RspIn := replicate num_inputs (ch_init cap); pending_mask_ := zeros num_inputs |}.

Definition ad_on_reset (s : LsuMemAdapter) : LsuMemAdapter := s <| pending_mask_ := zeros (length (pending_mask_ s)) |>.

(** The memory request of lane [i]; lane 0 of a one-lane adapter is bound to
    the same function. *)
Definition lane_req (q : LsuReq) (i : nat) : MemReq :=
  {| rq_op := lq_op q; rq_addr := lane_addr q i; rq_data := lane_data q i; rq_byteen := lane_be q i; rq_tag := lq_tag q;
     rq_hart_id := make_hart_id hc (lq_cid q) (lq_wid q) (lane_tid q i); rq_uuid := lq_uuid q;
     rq_flags := class_flags am (lq_flags q) (lane_addr q i) |}.

(** [RspIn.at(0).bind(&RspOut, ...)] *)
Definition bypass_rsp (r : MemRsp) : LsuRsp :=
  {| lr_mask := bv_set (zeros 1) 0; lr_tag := rs_tag r; lr_cid := rs_hart_id r; lr_uuid := rs_uuid r; lr_data := [rs_data r] |}.

Definition ad_response (s : LsuMemAdapter) : LsuMemAdapter :=
  let n := length (ad_ReqOut s) in
  match first_port n (ad_RspIn s) with
  | None => s
  | Some i =>
      if ch_full (ad_RspOut s) then s else
      match port_head (ad_RspIn s) i with
      | None => s
      | Some rsp_in =>
          let ports := tag_ports n (ad_RspIn s) i (rs_tag rsp_in) in
          let out_rsp := {| lr_mask := ports; lr_tag := rs_tag rsp_in; lr_cid := rs_hart_id rsp_in; lr_uuid := rs_uuid rsp_in;
                            lr_data := map (fun j => if test ports j then port_head (ad_RspIn s) j ≫= rs_data else None) (seq 0 n) |} in
          s <| ad_RspOut := ch_push (ad_RspOut s) out_rsp |> <| ad_RspIn := pop_ports ports (ad_RspIn s) |>
      end
  end.

Definition ad_request (s : LsuMemAdapter) : option LsuMemAdapter :=
  let n := length (ad_ReqOut s) in
  match ch_q (ad_ReqIn s) with
  | [] => Some s
  | in_req :: _ =>
      if negb (length (lq_mask in_req) =? n)%nat then None else
      let pending := if bv_none (pending_mask_ s) then lq_mask in_req else pending_mask_ s in
      if bv_none pending then None else
      let '(pending, chs) := send_lanes n (map (lane_req in_req) (seq 0 n)) pending (ad_ReqOut s) in
      let s := s <| pending_mask_ := pending |> <| ad_ReqOut := chs |> in
      Some (if bv_none pending then s <| ad_ReqIn := ch_pop (ad_ReqIn s) |> else s)
  end.

Definition ad_on_tick (s : LsuMemAdapter) : option LsuMemAdapter :=
  if (length (ad_ReqOut s) =? 1)%nat then Some s else ad_request (ad_response s).

End Adapter.

(** ** Local-memory switch *)

Record LocalMemSwitch := {
  sw_ReqIn : chan LsuReq; sw_RspOut : chan LsuRsp;
  sw_ReqOutLmem : chan LsuReq; sw_RspInLmem : chan LsuRsp;
  sw_ReqOutDC : chan LsuReq; sw_RspInDC : chan LsuRsp
}.

Section Switch.
Context (am : addr_map).

Definition sw_init (cap : nat) : LocalMemSwitch :=
  {| sw_ReqIn := ch_init cap; sw_RspOut := ch_init cap; sw_ReqOutLmem := ch_init cap; sw_RspInLmem := ch_init cap;
     sw_ReqOutDC := ch_init cap; sw_RspInDC := ch_init cap |}.

(** Lane [i] copied from the request into one of the two outgoing requests. *)
Definition copy_lane (q out : LsuReq) (i : nat) : LsuReq :=
  out <| lq_mask := bv_set (lq_mask out) i |> <| lq_addrs := <[i := lane_addr q i]> (lq_addrs out) |>
      <| lq_data := <[i := lane_data q i]> (lq_data out) |> <| lq_byteen := <[i := lane_be q i]> (lq_byteen out) |>.

(** An atomic operation on the local memory is a failed assertion. *)
Definition route_lane (q : LsuReq) (st : option (LsuReq * LsuReq)) (i : nat) : option (LsuReq * LsuReq) :=
  '(dc, lmem) ← st;
  if test (lq_mask q) i then
    let type := get_addr_type am (lane_addr q i) in
    if lq_is_amo q && bool_decide (type = Shared) then None
    else if bool_decide (type = Shared) then Some (dc, copy_lane q lmem i) else Some (copy_lane q dc i, lmem)
  else Some (dc, lmem).

Definition route (q : LsuReq) : option (LsuReq * LsuReq) :=
  let n := length (lq_mask q) in
  let dc := (LsuReq_init n) <| lq_tag := lq_tag q |> <| lq_cid := lq_cid q |> <| lq_uuid := lq_uuid q |> <| lq_wid := lq_wid q |>
              <| lq_op := lq_op q |> <| lq_flags := lq_flags q |> <| lq_tids := lq_tids q |> in
  let lmem := (LsuReq_init n) <| lq_tag := lq_tag q |> <| lq_cid := lq_cid q |> <| lq_uuid := lq_uuid q |> <| lq_wid := lq_wid q |>
                <| lq_op := lq_op q |> in
  fold_left (route_lane q) (seq 0 n) (Some (dc, lmem)).

(** A response of either memory, the local memory first. *)
Definition sw_forward (rsp : chan LsuRsp) (out : chan LsuRsp) : chan LsuRsp * chan LsuRsp :=
  match ch_q rsp with
  | [] => (rsp, out)
  | r :: _ => if ch_full out then (rsp, out) else (ch_pop rsp, ch_push out r)
  end.

Definition sw_on_tick (s : LocalMemSwitch) : option LocalMemSwitch :=
  let '(lmem, out) := sw_forward (sw_RspInLmem s) (sw_RspOut s) in
  let '(dc, out) := sw_forward (sw_RspInDC s) out in
  let s := s <| sw_RspInLmem := lmem |> <| sw_RspInDC := dc |> <| sw_RspOut := out |> in
  match ch_q (sw_ReqIn s) with
  | [] => Some s
  | in_req :: _ =>
      '(out_dc_req, out_lmem_req) ← route in_req;
      let send_to_dc := negb (bv_none (lq_mask out_dc_req)) in
      let send_to_lmem := negb (bv_none (lq_mask out_lmem_req)) in
      if send_to_dc && ch_full (sw_ReqOutDC s) then Some s else
      if send_to_lmem && ch_full (sw_ReqOutLmem s) then Some s else
      let s := if send_to_dc then s <| sw_ReqOutDC := ch_push (sw_ReqOutDC s) out_dc_req |> else s in
      let s := if send_to_lmem then s <| sw_ReqOutLmem := ch_push (sw_ReqOutLmem s) out_lmem_req |> else s in
      Some (s <| sw_ReqIn := ch_pop (sw_ReqIn s) |>)
  end.

End Switch.

(** ** Local memory *)

Record lmem_config := { lm_capacity : Z; lm_B : nat; lm_write_response : bool }.

Record LocalMem := { ram_ : memory; xbar_ReqOut : list (chan MemReq); xbar_RspIn : list (chan MemRsp); lm_reads : Z; lm_writes : Z }.

Section LocalMem.
Context (lc : lmem_config).

Definition addr_bits_ : Z := Z.log2_up (lm_capacity lc).

Definition to_local_addr (addr : Z) : Z := bit_getw addr 0 (addr_bits_ - 1).

Definition lm_line (addr : Z) : Z := Z.land (to_local_addr addr) (u64 (Z.lnot (VX_CFG_MEM_BLOCK_SIZE - 1))).

(** [LocalMem::read_word], for the host *)
Definition lm_read_word (s : LocalMem) (addr : Z) : Z :=
  let local := to_local_addr addr in
  let base := Z.land local (u64 (Z.lnot 3)) in
  let word := le_word (map (fun b => ram_ s (base + Z.of_nat b)) (seq 0 8)) in
  Z.land (Z.shiftr word (Z.land local 3 * 8)) 0xFFFFFFFF.

(** One bank of [tick]; a response that finds the port full leaves the
    request for the next cycle, after its write. *)
Definition lm_bank (s : LocalMem) (i : nat) : LocalMem :=
  match port_head (xbar_ReqOut s) i, xbar_ReqOut s !! i, xbar_RspIn s !! i with
  | Some q, Some reqs, Some rsps =>
      let ram := match memop_is_write (rq_op q), rq_data q with
                 | true, Some d => write_block (ram_ s) (lm_line (rq_addr q)) d (rq_byteen q)
                 | _, _ => ram_ s
                 end in
      let s := s <| ram_ := ram |> in
      let responds := negb (memop_is_write (rq_op q)) || lm_write_response lc || fl_strsp (rq_flags q) in
      let rsp := {| rs_tag := rq_tag q; rs_hart_id := rq_hart_id q; rs_uuid := rq_uuid q;
                    rs_data := if memop_is_write (rq_op q) then None else Some (read_block ram (lm_line (rq_addr q))) |} in
      if responds && ch_full rsps then s else
      let s := if responds then s <| xbar_RspIn := <[i := ch_push rsps rsp]> (xbar_RspIn s) |> else s in
      s <| lm_reads := u64 (lm_reads s + b2z (negb (memop_is_write (rq_op q)))) |> <| lm_writes := u64 (lm_writes s + b2z (memop_is_write (rq_op q))) |>
        <| xbar_ReqOut := <[i := ch_pop reqs]> (xbar_ReqOut s) |>
  | _, _, _ => s
  end.

Definition lm_tick (s : LocalMem) : LocalMem := fold_left lm_bank (seq 0 (2 ^ lm_B lc)) s.

End LocalMem.
