(* ===== verification/CoalescerMem.v ===== *)
(** * Merging lanes does not change the memory

    The requests a port of the coalescer sends for a group of lanes, served
    by the memory, have the effect of the lanes' own requests (those of the
    lane adapter) served one by one in lane order, and every lane reads the
    block its own request would read.  The ports are not ordered among each
    other: across groups the lane order is kept for bytes that only one group
    writes. *)

From S2P Require Import Prelude MemTypes Sched Cache CacheWorld CacheAddr LsuTypes Coalescer CoalescerRound LsuPath.

Section Mem.
Context (c : co_config) (am : addr_map) (hc : hart_cfg).
Implicit Types (q : LsuReq) (L P : list nat) (m : memory).

(** The line size is a power of two, no larger than a memory block. *)
Definition line_ok : Prop := exists k, 0 <= k <= 6 /\ line_size_ c = 2 ^ k.

(** An address of a lane is 64 bits, and the bytes it writes are in its line. *)
Definition in_line q (i : nat) (b : Z) : Prop := Z.land (block_of (lane_addr q i) + b) (addr_mask c) = line_of c q i.
Definition lane_ok q (i : nat) : Prop :=
  in_u 64 (lane_addr q i) /\ forall b, 0 <= b < 64 -> Z.testbit (lane_be q i) b = true -> in_line q i b.

Lemma line_bit k a i : 0 <= k <= 6 -> line_size_ c = 2 ^ k -> 0 <= i < 64 -> Z.testbit (Z.land a (addr_mask c)) i = (k <=? i) && Z.testbit a i.
Proof.
  intros Hk Hl Hi. unfold addr_mask. rewrite Hl. replace (2 ^ k - 1) with (Z.ones k) by (rewrite Z.ones_equiv; lia). testbits.
  destruct (Z.leb_spec k i); repeat split_index; simpl; rewrite ?andb_true_r, ?andb_false_r; done.
Qed.

Lemma block_line a a' : line_ok -> Z.land a (addr_mask c) = Z.land a' (addr_mask c) -> block_of a = block_of a'.
Proof.
  intros (k & Hk & Hl) E. apply Z.bits_inj'. intros i Hi. destruct (Z.ltb_spec i 64).
  - rewrite !block_of_bit by lia. destruct (Z.leb_spec 6 i); [|done]. cbn [andb].
    apply (f_equal (fun z => Z.testbit z i)) in E. rewrite !(line_bit k) in E by lia. destruct (Z.leb_spec k i); [done|lia].
  - pose proof (block_of_range a). pose proof (block_of_range a'). kill_high. done.
Qed.

Lemma land_mask_idem a : Z.land (Z.land a (addr_mask c)) (addr_mask c) = Z.land a (addr_mask c).
Proof. by rewrite <- Z.land_assoc, Z.land_diag. Qed.

Lemma block_slot q i j : line_ok -> line_of c q j = line_of c q i -> block_of (line_of c q i) = block_of (lane_addr q j).
Proof. intros Hl E. apply block_line; [done|]. unfold line_of in *. by rewrite land_mask_idem. Qed.

(** ** One byte *)

(** The last byte written at offset [b] of the block. *)
Definition byte_step q (b : Z) (v : option Z) (j : nat) : option Z :=
  match lane_data q j with
  | Some d => if Z.testbit (lane_be q j) b then Some (default 0 (d !! Z.to_nat b)) else v
  | None => v
  end.

Lemma payload_byte q b L st v : 0 <= b < 64 -> (forall B, fst st = Some B -> length B = 64%nat) ->
  (Z.testbit (snd st) b = true -> exists B, fst st = Some B) ->
  v = (if Z.testbit (snd st) b then B ← fst st; B !! Z.to_nat b else None) ->
  let st' := fold_left (payload_step q) L st in
  (forall B, fst st' = Some B -> length B = 64%nat) /\ (Z.testbit (snd st') b = true -> exists B, fst st' = Some B) /\
  fold_left (byte_step q b) L v = (if Z.testbit (snd st') b then B ← fst st'; B !! Z.to_nat b else None).
Proof.
  intros Hb. revert st v. induction L as [|j L IH]; intros st v Hlen Hsome Hv; [done|]. cbn [fold_left].
  apply (IH (payload_step q st j) (byte_step q b v j)); unfold payload_step, byte_step; destruct (lane_data q j) as [d|]; try done; cbn [fst snd].
  all: set (B0 := default zero_block (fst st)); assert (HB0 : length B0 = 64%nat) by (unfold B0; destruct (fst st) eqn:E; [by apply Hlen|done]).
  - intros B [= <-]. unfold merge_bytes. by rewrite length_imap.
  - eauto.
  - rewrite Z.lor_spec. unfold merge_bytes. destruct (Z.testbit (lane_be q j) b) eqn:E.
    + rewrite orb_true_r. cbn. rewrite list_lookup_imap. destruct (lookup_lt_is_Some_2 B0 (Z.to_nat b)) as [x Hx]; [lia|]. rewrite Hx. cbn.
      by rewrite Z2Nat.id, E by lia.
    + rewrite orb_false_r, Hv. destruct (Z.testbit (snd st) b) eqn:Es; [|done]. destruct (Hsome eq_refl) as [B HB]. unfold B0. rewrite HB. cbn.
      rewrite list_lookup_imap. destruct (B !! Z.to_nat b); cbn; [|done]. by rewrite Z2Nat.id, E by lia.
Qed.

(** A byte after one request. *)
Definition in_block (la a : Z) : bool := (la <=? a) && (a <? la + 64).

Lemma slot_store_byte q tag L m a : lq_op q = MST ->
  fst (mem_access m (slot_req c am hc q tag L)) a =
  let la := block_of (slot_addr c q L) in if in_block la a then default (m a) (fold_left (byte_step q (a - la)) L None) else m a.
Proof.
  intros Hop. cbv zeta. unfold mem_access. cbn [slot_req rq_op rq_addr rq_data rq_byteen]. set (la := block_of (slot_addr c q L)).
  unfold payload, lq_is_write, lq_is_amo. rewrite Hop. cbn [memop_is_write memop_is_atomic memop_is_amo_rmw orb fst].
  destruct (in_block la a) eqn:Hin.
  - assert (0 <= a - la < 64) by (unfold in_block in Hin; bool_hyps; lia).
    destruct (payload_byte q (a - la) L (None, 0) None) as (Hlen & Hsome & ->); [done|done|by rewrite Z.bits_0|by rewrite Z.bits_0|].
    destruct (fold_left (payload_step q) L (None, 0)) as [[B|] be]; cbn [fst snd] in *; [|by destruct (Z.testbit be (a - la))].
    unfold write_block. change VX_CFG_MEM_BLOCK_SIZE with 64. unfold in_block in Hin. rewrite Hin. cbn [andb].
    destruct (Z.testbit be (a - la)) eqn:Eb; [|done]. cbn. destruct (lookup_lt_is_Some_2 B (Z.to_nat (a - la))) as [x Hx]; [rewrite (Hlen B) by done; lia|].
    by rewrite Hx.
  - destruct (fst _) as [B|]; [|done]. unfold write_block. change VX_CFG_MEM_BLOCK_SIZE with 64. unfold in_block in Hin. by rewrite Hin.
Qed.

Lemma lane_store_byte q i m a : lq_op q = MST ->
  fst (mem_access m (lane_req am hc q i)) a =
  let la := block_of (lane_addr q i) in if in_block la a then default (m a) (byte_step q (a - la) None i) else m a.
Proof.
  intros Hop. cbv zeta. unfold mem_access. cbn [lane_req rq_op rq_addr rq_data rq_byteen]. rewrite Hop. cbn [memop_is_write fst].
  unfold byte_step. destruct (lane_data q i) as [d|]; cbn; [|by case_match]. unfold write_block, in_block. change VX_CFG_MEM_BLOCK_SIZE with 64.
  destruct ((_ <=? a) && (a <? _)); cbn; [|done]. by case_match.
Qed.

(** ** A list of lanes *)

(** What lane [j] writes at address [a]. *)
Definition lane_byte q (a : Z) (j : nat) : option Z :=
  let la := block_of (lane_addr q j) in if in_block la a then byte_step q (a - la) None j else None.

Definition over (v w : option Z) : option Z := match w with Some _ => w | None => v end.
Definition last_byte q a L : option Z := fold_left (fun v j => over v (lane_byte q a j)) L None.

Lemma over_fold (f : nat -> option Z) L v : fold_left (fun v j => over v (f j)) L v = over v (fold_left (fun v j => over v (f j)) L None).
Proof.
  revert v. induction L as [|j L IH]; intros v; [done|]. cbn [fold_left]. rewrite IH, (IH (over None (f j))).
  destruct (fold_left _ L None), (f j), v; done.
Qed.

Lemma last_byte_app q a L L' : last_byte q a (L ++ L') = over (last_byte q a L) (last_byte q a L').
Proof. unfold last_byte. rewrite fold_left_app. apply over_fold. Qed.

Lemma default_over x v w : default (default x v) w = default x (over v w).
Proof. by destruct w. Qed.

Lemma lanes_byte q P m a : lq_op q = MST ->
  fold_left (fun m i => fst (mem_access m (lane_req am hc q i))) P m a = default (m a) (last_byte q a P).
Proof.
  intros Hop. revert m. induction P as [|i P IH]; intros m; [done|]. cbn [fold_left]. rewrite IH, lane_store_byte by done.
  change (i :: P) with ([i] ++ P). rewrite last_byte_app, <- default_over. f_equal. unfold last_byte, lane_byte. cbn [fold_left over]. cbv zeta.
  destruct (in_block _ _); [|done]. by destruct (byte_step _ _ _ _).
Qed.

(** The lanes of one set share a block. *)
Definition one_line q L : Prop := forall i, i ∈ L -> line_of c q i = line_of c q (default O (head L)).

Lemma slot_byte q tag L m a : line_ok -> lq_op q = MST -> one_line q L ->
  fst (mem_access m (slot_req c am hc q tag L)) a = default (m a) (last_byte q a L).
Proof.
  intros Hl Hop H1. rewrite slot_store_byte by done. cbv zeta. unfold slot_addr, lq_is_amo. rewrite Hop. cbn [memop_is_atomic].
  set (la := block_of (line_of c q (default O (head L)))).
  assert (Hla : forall i, i ∈ L -> block_of (lane_addr q i) = la) by (intros i Hi; symmetry; by apply block_slot, H1).
  clearbody la. clear H1 Hop. unfold last_byte. destruct (in_block la a) eqn:Hin.
  - f_equal. generalize (None (A := Z)) as v. induction L as [|i L IH]; intros v; [done|]. cbn [fold_left].
    unfold lane_byte at 2. rewrite (Hla i) by set_solver. cbv zeta. rewrite Hin.
    replace (over v (byte_step q (a - la) None i)) with (byte_step q (a - la) v i).
    + apply IH. set_solver.
    + unfold byte_step. destruct (lane_data q i); [|done]. by destruct (Z.testbit _ _).
  - replace (fold_left _ L None) with (None (A := Z)); [done|]. induction L as [|i L IH]; [done|]. cbn [fold_left].
    unfold lane_byte at 2. rewrite (Hla i) by set_solver. cbv zeta. rewrite Hin. apply IH. set_solver.
Qed.

Lemma slots_byte q tag Ls m a : line_ok -> lq_op q = MST -> Forall (one_line q) Ls ->
  fold_left (fun m L => fst (mem_access m (slot_req c am hc q tag L))) Ls m a = default (m a) (last_byte q a (concat Ls)).
Proof.
  intros Hl Hop. revert m. induction Ls as [|L Ls IH]; intros m H; [done|]. apply list.Forall_cons in H as [HL HLs].
  cbn [fold_left concat]. rewrite IH, slot_byte, last_byte_app, default_over by done. done.
Qed.

(** ** The sets of a group *)

Lemma slot_first_line q P : one_line q (slot_first c q P).
Proof.
  destruct P as [|i P]; cbn [slot_first]; [intros i Hi; by apply elem_of_nil in Hi|]. case_match; intros j.
  - by intros ->%list_elem_of_singleton.
  - intros [->|[E _]%list_elem_of_filter]%elem_of_cons; done.
Qed.

Lemma slots_lines q P : Forall (one_line q) (slots c q P).
Proof.
  remember (length P) as n eqn:Hn. revert P Hn. induction n as [n IH] using lt_wf_ind. intros P ->. destruct P as [|i P]; [constructor|].
  rewrite slots_cons. constructor; [apply slot_first_line|]. pose proof (slot_rest_length c q (i :: P)) as Hl. cbn [length pred] in Hl.
  eapply (IH (length (slot_rest c q (i :: P)))); [cbn [length]; lia|done].
Qed.

(** Lanes of one line keep their order, and no lane is lost. *)
Lemma slots_order q P (W : nat -> Prop) `{!forall x, Decision (W x)} : NoDup P -> lq_is_amo q = false ->
  (forall i j, i ∈ P -> j ∈ P -> W i -> W j -> line_of c q i = line_of c q j) -> filter W (concat (slots c q P)) = filter W P.
Proof.
  intros Hnd Ha. remember (length P) as n eqn:Hn. revert P Hn Hnd. induction n as [n IH] using lt_wf_ind. intros P -> Hnd HW.
  destruct P as [|i P]; [done|]. pose proof (slot_rest_length c q (i :: P)) as Hl. cbn [length pred] in Hl.
  assert (HI : filter W (concat (slots c q (slot_rest c q (i :: P)))) = filter W (slot_rest c q (i :: P))).
  { eapply (IH (length (slot_rest c q (i :: P)))); [cbn [length]; lia|done|by apply slot_rest_nodup|].
    intros j k Hj%slot_rest_sub Hk%slot_rest_sub. by apply HW. }
  rewrite slots_cons. cbn [concat]. rewrite list.filter_app, HI. clear HI IH. cbn [slot_first slot_rest]. rewrite Ha.
  rewrite !filter_cons, !list_filter_filter.
  destruct (decide (Exists (fun j => W j /\ line_of c q j = line_of c q i) (i :: P))) as [(k & Hk & HWk & Ek)%list.Exists_exists|Hno].
  - rewrite (filter_none (fun a => W a /\ line_of c q a <> line_of c q i) P).
    2:{ intros j Hj [HWj Hne]. apply Hne. rewrite <- Ek. apply HW; set_solver. }
    rewrite app_nil_r. rewrite (filter_ext_in (fun a => W a /\ line_of c q a = line_of c q i) W); [done|].
    intros j Hj. split; [tauto|]. intros HWj. split; [done|]. rewrite <- Ek. apply HW; set_solver.
  - rewrite list.Exists_exists in Hno. assert (Hi : ~ W i) by (intros Hi; apply Hno; exists i; set_solver). case_decide; [done|].
    rewrite (filter_none (fun a => W a /\ line_of c q a = line_of c q i) P).
    2:{ intros j Hj [HWj He]. apply Hno. exists j. set_solver. }
    cbn [app]. apply filter_ext_in. intros j Hj. split; [tauto|]. intros HWj. split; [done|]. intros He. apply Hno. exists j. set_solver.
Qed.

Lemma slots_perm q P : NoDup P -> concat (slots c q P) ≡ₚ P.
Proof.
  remember (length P) as n eqn:Hn. revert P Hn. induction n as [n IH] using lt_wf_ind. intros P -> Hnd. destruct P as [|i P]; [done|].
  pose proof (slot_rest_length c q (i :: P)) as Hl. cbn [length pred] in Hl. rewrite slots_cons. cbn [concat].
  rewrite (IH (length (slot_rest c q (i :: P)))); [|cbn [length]; lia|done|by apply slot_rest_nodup].
  rewrite (slot_rest_filter c q (i :: P) Hnd).
  transitivity (filter (fun j => j ∈ slot_first c q (i :: P)) (i :: P) ++ filter (fun j => j ∉ slot_first c q (i :: P)) (i :: P)).
  { by rewrite <- slot_first_filter. }
  apply filter_app_complement.
Qed.

Lemma last_byte_filter q a P : last_byte q a P = last_byte q a (filter (fun j => is_Some (lane_byte q a j)) P).
Proof.
  induction P as [|i P IH]; [done|]. change (i :: P) with ([i] ++ P). rewrite list.filter_app, !last_byte_app, <- IH. f_equal.
  rewrite filter_cons. case_decide as E; [done|]. unfold last_byte. cbn. apply eq_None_not_Some in E. by rewrite E.
Qed.

Lemma lane_byte_line q a i : lane_ok q i -> is_Some (lane_byte q a i) -> line_of c q i = Z.land a (addr_mask c).
Proof.
  intros [_ Hb] [v Hv]. unfold lane_byte in Hv. cbv zeta in Hv. destruct (in_block _ a) eqn:Hin; [|done]. unfold in_block in Hin. bool_hyps.
  unfold byte_step in Hv. destruct (lane_data q i); [|done]. destruct (Z.testbit _ _) eqn:E; [|done].
  specialize (Hb (a - block_of (lane_addr q i)) ltac:(lia) E). unfold in_line in Hb. rewrite <- Hb. f_equal. lia.
Qed.

Lemma slots_amo q P : lq_is_amo q = true -> slots c q P = map (fun i => [i]) P.
Proof.
  intros Ha. induction P as [|i P IH]; [done|]. rewrite slots_cons. cbn [slot_first slot_rest map]. by rewrite Ha, IH.
Qed.

Lemma slot_req_amo q i d : lq_is_amo q = true -> lane_data q i = Some d -> merge_bytes zero_block d (lane_be q i) = d ->
  slot_req c am hc q (lq_tag q) [i] = lane_req am hc q i.
Proof.
  intros Ha Hd Hc. unfold slot_req, lane_req, slot_addr, payload. rewrite Ha, orb_true_r. cbn [fold_left head default from_option]. unfold payload_step.
  rewrite Hd. cbn [fst snd default from_option]. rewrite Hc, Z.lor_0_l. done.
Qed.

Lemma coalesce_equiv q o m : sizes_ok c -> line_ok -> length (lq_mask q) = input_size_ c -> (o < output_size_ c)%nat ->
  (forall i, test (lq_mask q) i = true -> lane_ok q i) ->
  let rds := co_rounds c (output_ratio_ c) (zeros (input_size_ c)) q in
  let reqs := port_reqs am hc (lq_tag q) q rds o in
  let P := group_lanes c (lq_mask q) o in
  rounds_sent (zeros (input_size_ c)) rds = lq_mask q /\
  exists Ls, concat Ls ≡ₚ P /\ reqs = map (slot_req c am hc q (lq_tag q)) Ls /\
  (lq_op q = MST -> forall a,
     fold_left (fun m r => fst (mem_access m r)) reqs m a = fold_left (fun m i => fst (mem_access m (lane_req am hc q i))) P m a) /\
  (lq_op q = MLD -> forall L i, L ∈ Ls -> i ∈ L ->
     (rs_data <$> snd (mem_access m (slot_req c am hc q (lq_tag q) L))) = (rs_data <$> snd (mem_access m (lane_req am hc q i)))) /\
  (lq_is_amo q = true -> (forall i d, i ∈ P -> lane_data q i = Some d -> merge_bytes zero_block d (lane_be q i) = d) ->
     (forall i, i ∈ P -> is_Some (lane_data q i)) -> reqs = map (lane_req am hc q) P).
Proof.
  intros Hz Hl Hm Ho Hok rds reqs P.
  assert (Hs : sent_ok c (zeros (input_size_ c)) q).
  { split; [unfold zeros; by rewrite length_replicate|]. intros i. by rewrite test_zeros. }
  destruct (co_rounds_spec c am hc (output_ratio_ c) (zeros (input_size_ c)) q (lq_tag q) Hz Hm Hs ltac:(intros; apply todo_bound)) as [Hall Hreq].
  split; [exact Hall|]. exists (slots c q P). specialize (Hreq o Ho). rewrite todo_zeros in Hreq. fold rds in Hreq. fold reqs P in Hreq.
  assert (Hnd : NoDup P) by apply group_lanes_nodup.
  assert (HokP : forall i, i ∈ P -> lane_ok q i) by (intros i [Hi _]%group_lanes_spec; by apply Hok).
  split; [by apply slots_perm|]. split; [exact Hreq|]. split_and!.
  - intros Hop a. rewrite Hreq, fold_left_map_l, slots_byte, lanes_byte by (done || apply slots_lines). f_equal.
    rewrite last_byte_filter, (slots_order q P), <- last_byte_filter; [done|done|unfold lq_is_amo; by rewrite Hop|].
    intros i j Hi Hj Wi Wj. by rewrite (lane_byte_line q a i), (lane_byte_line q a j) by eauto.
  - intros Hop L i HL Hi. unfold mem_access. cbn [slot_req lane_req rq_op rq_addr]. rewrite Hop. cbn. do 3 f_equal. unfold slot_addr, lq_is_amo. rewrite Hop. cbn [memop_is_atomic].
    apply block_slot; [done|]. pose proof (slots_lines q P) as HF. rewrite list.Forall_forall in HF. by apply (HF L).
  - intros Ha Hc Hd. rewrite Hreq, slots_amo, map_map by done. apply map_ext_in. intros i Hi%list_elem_of_In. destruct (Hd i Hi) as [d Hd']. by eapply slot_req_amo; eauto.
Qed.

(** ** All ports *)

(** Lanes of different groups do not write the same byte. *)
Definition groups_apart q : Prop := forall i j a, test (lq_mask q) i = true -> test (lq_mask q) j = true ->
  group_of c i <> group_of c j -> is_Some (lane_byte q a i) -> lane_byte q a j = None.

(** An order in which the requests of all ports reach the memory: a request
    comes with its port, and each port keeps its own order. *)
Definition interleaves q (reqs : list (nat * MemReq)) : Prop :=
  (forall p r, (p, r) ∈ reqs -> (p < output_size_ c)%nat) /\
  forall o, (o < output_size_ c)%nat ->
    (filter (fun x => fst x = o) reqs).*2 = port_reqs am hc (lq_tag q) q (co_rounds c (output_ratio_ c) (zeros (input_size_ c)) q) o.

Lemma last_byte_none q a L : (forall i, i ∈ L -> lane_byte q a i = None) -> last_byte q a L = None.
Proof.
  intros H. rewrite last_byte_filter, filter_none; [done|]. intros i Hi. rewrite H by done. by intros [? ?].
Qed.

(** Requests that leave a byte alone can be skipped. *)
Lemma fold_port a o (reqs : list (nat * MemReq)) m m' :
  (forall p r, (p, r) ∈ reqs -> exists v, (forall m, fst (mem_access m r) a = default (m a) v) /\ (p <> o -> v = None)) -> m a = m' a ->
  fold_left (fun m r => fst (mem_access m r)) reqs.*2 m a = fold_left (fun m r => fst (mem_access m r)) (filter (fun x => fst x = o) reqs).*2 m' a.
Proof.
  revert m m'. induction reqs as [|[p r] reqs IH]; intros m m' H Hm; [done|]. destruct (H p r) as (v & Hv & Hp); [set_solver|].
  rewrite filter_cons. case_decide as E; cbn [fst] in E; cbn [fmap list_fmap fold_left snd]; (apply IH; [intros p' r' Hin; apply H; set_solver|]).
  - by rewrite !Hv, Hm.
  - by rewrite Hv, Hp.
Qed.

Lemma port_effect q o a r : sizes_ok c -> line_ok -> length (lq_mask q) = input_size_ c -> (o < output_size_ c)%nat -> lq_op q = MST ->
  r ∈ port_reqs am hc (lq_tag q) q (co_rounds c (output_ratio_ c) (zeros (input_size_ c)) q) o ->
  exists L, (forall i, i ∈ L -> i ∈ group_lanes c (lq_mask q) o) /\ forall m, fst (mem_access m r) a = default (m a) (last_byte q a L).
Proof.
  intros Hz Hl Hm Ho Hop Hr.
  assert (Hs : sent_ok c (zeros (input_size_ c)) q).
  { split; [unfold zeros; by rewrite length_replicate|]. intros i. by rewrite test_zeros. }
  destruct (co_rounds_spec c am hc (output_ratio_ c) (zeros (input_size_ c)) q (lq_tag q) Hz Hm Hs ltac:(intros; apply todo_bound)) as [_ Hreq].
  rewrite (Hreq o Ho), todo_zeros in Hr. apply list_elem_of_fmap in Hr as (L & -> & HL). exists L.
  pose proof (slots_lines q (group_lanes c (lq_mask q) o)) as HF. rewrite list.Forall_forall in HF. split; [|intros m; by apply slot_byte, HF].
  intros i Hi. rewrite <- (slots_perm q) by apply group_lanes_nodup. apply list_elem_of_In, in_concat. exists L. split; by apply list_elem_of_In.
Qed.

(** The active lanes of a group, among all active lanes. *)
Lemma writers_of_group q o a : sizes_ok c -> (o < output_size_ c)%nat ->
  (forall i, test (lq_mask q) i = true -> group_of c i <> o -> lane_byte q a i = None) ->
  last_byte q a (filter (fun i => test (lq_mask q) i = true) (seq 0 (input_size_ c))) = last_byte q a (group_lanes c (lq_mask q) o).
Proof.
  intros Hz Ho H. set (R := output_ratio_ c) in *.
  assert (Hsz : (o * R + R <= input_size_ c)%nat).
  { unfold sizes_ok in Hz. fold R in Hz. clearbody R. nia. }
  assert (HR : input_size_ c <> 0%nat -> R <> 0%nat) by (intros Hn E0; unfold sizes_ok in Hz; fold R in Hz; rewrite E0 in Hz; lia).
  replace (input_size_ c) with (o * R + (R + (input_size_ c - (o * R + R))))%nat by lia.
  rewrite !seq_app, !list.filter_app, !last_byte_app. unfold group_lanes. fold R. cbn [Nat.add].
  rewrite (last_byte_none q a (filter _ (seq 0 (o * R)))), (last_byte_none q a (filter _ (seq (o * R + R) _))).
  - by destruct (last_byte q a _).
  - intros i [Ht Hi%elem_of_seq]%list_elem_of_filter. apply H; [done|]. unfold group_of. fold R. intros E. assert (R <> 0)%nat by (apply HR; lia).
    pose proof (Nat.div_mod_eq i R) as Hd. pose proof (Nat.mod_upper_bound i R ltac:(done)). rewrite E in Hd. clearbody R. nia.
  - intros i [Ht Hi%elem_of_seq]%list_elem_of_filter. apply H; [done|]. unfold group_of. fold R. intros E. assert (R <> 0)%nat by (apply HR; lia).
    pose proof (Nat.div_mod_eq i R) as Hd. rewrite E in Hd. clearbody R. nia.
Qed.

(** In whatever order the ports' requests reach the memory, the stores of a
    request are its lanes' stores in lane order, when lanes of different
    groups write different bytes. *)
Lemma merged_stores q reqs m a : sizes_ok c -> line_ok -> (0 < output_size_ c)%nat -> length (lq_mask q) = input_size_ c -> lq_op q = MST ->
  (forall i, test (lq_mask q) i = true -> lane_ok q i) -> groups_apart q -> interleaves q reqs ->
  fold_left (fun m r => fst (mem_access m r)) reqs.*2 m a =
  fold_left (fun m i => fst (mem_access m (lane_req am hc q i))) (filter (fun i => test (lq_mask q) i = true) (seq 0 (input_size_ c))) m a.
Proof.
  intros Hz Hl H0 Hm Hop Hok Hap [Hp Hi].
  assert (Hg : exists o, (o < output_size_ c)%nat /\ forall i, test (lq_mask q) i = true -> group_of c i <> o -> lane_byte q a i = None).
  { destruct (decide (Exists (fun i => test (lq_mask q) i = true /\ is_Some (lane_byte q a i)) (seq 0 (input_size_ c)))) as [(j & Hj & Ht & Hs)%list.Exists_exists|Hno].
    - exists (group_of c j). apply elem_of_seq in Hj. split.
      + destruct (lane_group c j Hz ltac:(lia)) as (o & Ho & _ & ->). exact Ho.
      + intros i Hti Hne. eapply (Hap j i); [done|done|congruence|done].
    - exists O. split; [done|]. intros i Hti _. apply eq_None_not_Some. intros Hs. apply Hno, list.Exists_exists. exists i. split; [|done].
      apply elem_of_seq. apply test_lt in Hti. lia. }
  destruct Hg as (o & Ho & Hg). rewrite (fold_port a o reqs m m); [|..|done].
  - rewrite (Hi o Ho). destruct (coalesce_equiv q o m Hz Hl Hm Ho Hok) as (_ & _ & _ & _ & Hst & _). rewrite (Hst Hop a), !lanes_byte by done.
    by rewrite writers_of_group with (o := o).
  - intros p r Hin. pose proof (Hp p r Hin) as Hpo.
    destruct (port_effect q p a r Hz Hl Hm Hpo Hop) as (L & HL & He).
    { rewrite <- (Hi p Hpo). apply list_elem_of_fmap. exists (p, r). split; [done|]. by apply list_elem_of_filter. }
    exists (last_byte q a L). split; [done|]. intros Hne. apply last_byte_none. intros i Hin'. apply HL, group_lanes_spec in Hin' as [Ht Hr].
    apply Hg; [done|]. by rewrite (group_of_lane c p i).
Qed.

(** C19 (equivalence): coalescing is transparent to the memory, port by port.
    Take a request whose active lanes have 64-bit addresses and write only
    bytes of their own line.  The rounds the coalescer builds for it end, after
    no more rounds than a group has lanes, with every active lane sent; the
    lanes of a group leave in exactly one request of their port each.  If the
    lanes store, the requests of a port have the effect on every byte of the
    memory of the requests of the lanes of its own group taken in lane order;
    if they load, every lane reads in its merged request the block its own
    request reads; an atomic operation whose lanes carry data that is zero
    outside the byte enables leaves as the lane's own request.  Ports are not
    ordered: for the stores of all ports together, in whatever order they reach
    the memory, the effect is that of all lanes in lane order when lanes of
    different groups write different bytes. *)
Theorem coalesce_transparent q o m : sizes_ok c -> line_ok -> length (lq_mask q) = input_size_ c -> (o < output_size_ c)%nat ->
  (forall i, test (lq_mask q) i = true -> lane_ok q i) ->
  let rds := co_rounds c (output_ratio_ c) (zeros (input_size_ c)) q in
  let reqs := port_reqs am hc (lq_tag q) q rds o in
  let P := group_lanes c (lq_mask q) o in
  rounds_sent (zeros (input_size_ c)) rds = lq_mask q /\
  exists Ls, concat Ls ≡ₚ P /\ reqs = map (slot_req c am hc q (lq_tag q)) Ls /\
  (lq_op q = MST -> forall a,
     fold_left (fun m r => fst (mem_access m r)) reqs m a = fold_left (fun m i => fst (mem_access m (lane_req am hc q i))) P m a) /\
  (lq_op q = MLD -> forall L i, L ∈ Ls -> i ∈ L ->
     (rs_data <$> snd (mem_access m (slot_req c am hc q (lq_tag q) L))) = (rs_data <$> snd (mem_access m (lane_req am hc q i)))) /\
  (lq_is_amo q = true -> (forall i d, i ∈ P -> lane_data q i = Some d -> merge_bytes zero_block d (lane_be q i) = d) ->
     (forall i, i ∈ P -> is_Some (lane_data q i)) -> reqs = map (lane_req am hc q) P) /\
  (lq_op q = MST -> groups_apart q -> forall all, interleaves q all -> forall a,
     fold_left (fun m r => fst (mem_access m r)) all.*2 m a =
     fold_left (fun m i => fst (mem_access m (lane_req am hc q i))) (filter (fun i => test (lq_mask q) i = true) (seq 0 (input_size_ c))) m a).
Proof.
  intros Hz Hl Hm Ho Hok. destruct (coalesce_equiv q o m Hz Hl Hm Ho Hok) as (H1 & Ls & H2 & H3 & H4 & H5 & H6).
  split; [exact H1|]. exists Ls. split_and!; [exact H2|exact H3|exact H4|exact H5|exact H6|].
  intros Hop Hap all Hi a. apply merged_stores; try done. lia.
Qed.

End Mem.

(** ** A store of four lanes *)

Module CoalesceDemo.

(** Four lanes on two ports, lines of 16 bytes; lanes 0 and 1 write words of
    one line, lane 3 overwrites half of the word of lane 2. *)
Definition demo_c : co_config := {| input_size_ := 4; output_size_ := 2; line_size_ := 16; co_queue_size := 2 |}.
Definition demo_am : addr_map :=
  {| VX_MEM_IO_BASE_ADDR := 0x40; VX_MEM_IO_END_ADDR := 0x80; VX_CFG_LMEM_ENABLED := true; VX_MEM_LMEM_BASE_ADDR := 0xFFFF0000; VX_CFG_LMEM_LOG_SIZE := 14 |}.
Definition demo_hc : hart_cfg := {| LOG_WARPS := 2; LOG_THREADS := 2 |}.
Definition word_at (off x : Z) : option block := Some (merge_bytes zero_block (replicate 64 x) (Z.shiftl 0xF off)).
Definition demo_store : LsuReq := {|
  lq_op := MST; lq_flags := 0; lq_addrs := [0x1000; 0x1004; 0x1010; 0x1012];
  lq_data := [word_at 0 1; word_at 4 2; word_at 16 3; word_at 18 4];
  lq_byteen := [0xF; Z.shiftl 0xF 4; Z.shiftl 0xF 16; Z.shiftl 0xF 18];
  lq_mask := [true; true; true; true]; lq_tids := [0; 1; 2; 3]; lq_tag := 7; lq_cid := 0; lq_wid := 1; lq_uuid := 9 |}.

Lemma lane_ok_check c q i : in_u 64 (lane_addr q i) ->
  forallb (fun b => negb (Z.testbit (lane_be q i) (Z.of_nat b)) || (Z.land (block_of (lane_addr q i) + Z.of_nat b) (addr_mask c) =? line_of c q i)) (seq 0 64) = true ->
  lane_ok c q i.
Proof.
  intros Ha H. split; [done|]. intros b Hb Hbe. rewrite forallb_forall in H. specialize (H (Z.to_nat b) ltac:(apply in_seq; lia)).
  rewrite Z2Nat.id, Hbe in H by lia. cbn in H. by apply Z.eqb_eq.
Qed.

Lemma demo_lanes i : test (lq_mask demo_store) i = true -> lane_ok demo_c demo_store i.
Proof.
  intros Hi. apply test_lt in Hi. cbn in Hi. apply lane_ok_check; do 4 (destruct i as [|i]; [vm_compute; repeat split; done|]); lia.
Qed.

(** The second port writes the bytes of lane 3 over those of lane 2. *)
Lemma coalesce_transparent_witness :
  let rds := co_rounds demo_c 2 (zeros 4) demo_store in
  let reqs := port_reqs demo_am demo_hc 7 demo_store rds 1 in
  length reqs = 1%nat /\ map (fold_left (fun m r => fst (mem_access m r)) reqs (fun _ => 0)) [0x1010; 0x1011; 0x1012; 0x1015; 0x1016] = [3; 3; 4; 4; 0] /\
  forall a, fold_left (fun m r => fst (mem_access m r)) reqs (fun _ => 0) a =
            fold_left (fun m i => fst (mem_access m (lane_req demo_am demo_hc demo_store i))) [2%nat; 3%nat] (fun _ => 0) a.
Proof.
  destruct (coalesce_transparent demo_c demo_am demo_hc demo_store 1 (fun _ => 0)) as (_ & Ls & _ & _ & Hst & _).
  - reflexivity.
  - exists 4. split; [lia|reflexivity].
  - reflexivity.
  - cbn. lia.
  - exact demo_lanes.
  - split; [vm_compute; reflexivity|]. split; [vm_compute; reflexivity|]. intros a. exact (Hst eq_refl a).
Defined.

End CoalesceDemo.
