(* ===== verification/CoalescerInv.v ===== *)
(** * The coalescer between a load/store unit and a memory

    A [cworld] is a coalescer whose ports are connected to a load/store unit
    and to a memory that takes the requests of every port in order, and
    answers those that need an answer any time later, in any order, with any
    data.  The invariant relates what is on the ports to the stream of lane
    sets that the requests accepted so far ask for ([port_stream]), and the
    tags to the lanes that wait for an answer. *)

From S2P Require Import Prelude MemTypes Sched Cache LsuTypes Coalescer CoalescerRound.

(** ** The world *)

Record cworld := {
  cw_co : MemCoalescer;
  cw_hist : list LsuReq;                       (* requests accepted *)
  cw_served : list (nat * (MemReq * block));   (* requests taken from the ports, with the data read *)
  cw_fly : list (nat * MemRsp);                (* answers on their way *)
  cw_log : list LsuRsp                         (* responses taken *)
}.

Inductive cevent := CReq (q : LsuReq) | CServe (o : nat) (d : block) | CReply (n : nat) | CTick | CRsp.

Definition at_port {A} (o : nat) (l : list (nat * A)) : list A := omap (fun '(o', x) => if (o' =? o)%nat then Some x else None) l.
Definition port_q {A} (chs : list (chan A)) (o : nat) : list A := match chs !! o with Some ch => ch_q ch | None => [] end.

Definition answer (r : MemReq) (d : block) : MemRsp := {| rs_tag := rq_tag r; rs_hart_id := rq_hart_id r; rs_uuid := rq_uuid r; rs_data := Some d |}.

Section World.
Context (c : co_config) (am : addr_map) (hc : hart_cfg).

(** An event that is not possible leaves the world as it is. *)
Definition cworld_step (w : cworld) (ev : cevent) : option cworld :=
  let s := cw_co w in
  match ev with
  | CReq q =>
      if ch_full (co_ReqIn s) then Some w
      else Some (w <| cw_co := s <| co_ReqIn := ch_push (co_ReqIn s) q |> |> <| cw_hist := cw_hist w ++ [q] |>)
  | CServe o d =>
      match co_ReqOut s !! o with
      | Some ch =>
          match ch_q ch with
          | [] => Some w
          | r :: _ =>
              Some (w <| cw_co := s <| co_ReqOut := <[o := ch_pop ch]> (co_ReqOut s) |> |> <| cw_served := cw_served w ++ [(o, (r, d))] |>
                      <| cw_fly := if needs_rsp (rq_op r) then cw_fly w ++ [(o, answer r d)] else cw_fly w |>)
          end
      | None => Some w
      end
  | CReply n =>
      match cw_fly w !! n with
      | Some (o, r) =>
          match co_RspIn s !! o with
          | Some ch => if ch_full ch then Some w
                       else Some (w <| cw_co := s <| co_RspIn := <[o := ch_push ch r]> (co_RspIn s) |> |> <| cw_fly := delete n (cw_fly w) |>)
          | None => Some w
          end
      | None => Some w
      end
  | CTick => s ← co_on_tick c am hc s; Some (w <| cw_co := s |>)
  | CRsp =>
      match ch_q (co_RspOut s) with
      | [] => Some w
      | r :: _ => Some (w <| cw_co := s <| co_RspOut := ch_pop (co_RspOut s) |> |> <| cw_log := cw_log w ++ [r] |>)
      end
  end.

Definition cworld_run (w : cworld) (evs : list cevent) : option cworld := fold_left (fun w ev => w ← w; cworld_step w ev) evs (Some w).

Definition cworld_init (cap : nat) : cworld :=
  {| cw_co := MemCoalescer_init c cap; cw_hist := []; cw_served := []; cw_fly := []; cw_log := [] |}.

(** ** What a port is to send *)

(** The sets of lanes of the requests [qs], the first of which has number [k]. *)
Definition stream_from (k : nat) (qs : list LsuReq) (o : nat) : list (nat * list nat) :=
  concat (imap (fun j q => map (pair (k + j)%nat) (slots c q (group_lanes c (lq_mask q) o))) qs).
Definition port_stream (hist : list LsuReq) (o : nat) : list (nat * list nat) := stream_from 0 hist o.

Lemma stream_from_cons k q qs o : stream_from k (q :: qs) o = map (pair k) (slots c q (group_lanes c (lq_mask q) o)) ++ stream_from (S k) qs o.
Proof.
  unfold stream_from. cbn [imap concat]. rewrite Nat.add_0_r. f_equal. f_equal. apply imap_ext. intros j x _. cbn. by rewrite Nat.add_succ_r.
Qed.

Lemma stream_from_app k qs qs' o : stream_from k (qs ++ qs') o = stream_from k qs o ++ stream_from (k + length qs) qs' o.
Proof.
  revert k. induction qs as [|q qs IH]; intros k; cbn [app length]; [by rewrite Nat.add_0_r|].
  rewrite !stream_from_cons, IH, app_assoc. do 2 f_equal. lia.
Qed.

(** What is still to be sent: the pending lanes of the request at the head of
    the queue, [cov] of them sent or in the round that waits, and the requests
    behind it. *)
Definition rest_of (k : nat) (cov : list bool) (qs : list LsuReq) (o : nat) : list (nat * list nat) :=
  match qs with
  | [] => []
  | q :: qs => map (pair k) (slots c q (todo c cov q o)) ++ stream_from (S k) qs o
  end.

Definition covered (s : MemCoalescer) : list bool :=
  if or_valid (out_round_ s) then bv_or (sent_mask_ s) (or_cur_mask (out_round_ s)) else sent_mask_ s.

(** The requests on their way out of port [o]: those in its channel and the
    one of the round that waits. *)
Definition stage (s : MemCoalescer) (o : nat) : list MemReq :=
  if or_valid (out_round_ s) && test (or_lanes (out_round_ s)) o then option_list (or_reqs (out_round_ s) !! o) else [].
Definition outq (s : MemCoalescer) (o : nat) : list MemReq := port_q (co_ReqOut s) o ++ stage s o.

(** Request [r] of a port is the one of the lanes [L] of request number [k]. *)
Definition matches (hist : list LsuReq) (r : MemReq) (x : nat * list nat) : Prop :=
  exists q, hist !! fst x = Some q /\ r = slot_req c am hc q (rq_tag r) (snd x).

(** ** Tags *)

(** The packets of tag [t] at a port: none if no lane of the group waits under
    the tag; else exactly one, the request of these lanes or its answer. *)
Definition tag_item (st : list (nat * list nat)) (sv : list (MemReq * block)) (oq : list MemReq) (rs : list MemRsp) (t : Z) (k : nat) (L : list nat) : Prop :=
  let rq := filter (fun r => needs_rsp (rq_op r) = true /\ rq_tag r = t) oq in
  let rp := filter (fun r => rs_tag r = t) rs in
  if bool_decide (L = []) then rq = [] /\ rp = []
  else (rp = [] /\ exists p r, rq = [r] /\ oq !! p = Some r /\ st !! (length sv + p)%nat = Some (k, L)) \/
       (rq = [] /\ exists r p mr d, rp = [r] /\ sv !! p = Some (mr, d) /\ st !! p = Some (k, L) /\ rs_data r = Some d).

Definition live (s : MemCoalescer) (t : Z) : option pending_req_t := if 0 <=? t then ht_at (pending_rd_reqs_ s) t else None.
Definition tag_lanes (s : MemCoalescer) (t : Z) (o : nat) : list nat :=
  match live s t with Some e => group_lanes c (pr_mask e) o | None => [] end.

(** ** Answered lanes *)

Definition answers (w : cworld) (r : LsuRsp) (k : nat) : Prop :=
  exists q, cw_hist w !! k = Some q /\ needs_rsp (lq_op q) = true /\ lr_tag r = lq_tag q /\
  forall i, test (lr_mask r) i = true -> exists o p mr d L,
    at_port o (cw_served w) !! p = Some (mr, d) /\ port_stream (cw_hist w) o !! p = Some (k, L) /\ i ∈ L /\ lr_data r !! i = Some (Some d).

(** How many responses of request [k] carry lane [i]. *)
Definition times_answered (rs : list LsuRsp) (ks : list nat) (k i : nat) : nat :=
  length (filter (fun x => snd x = k /\ test (lr_mask (fst x)) i = true) (zip rs ks)).

Definition tag_waits (s : MemCoalescer) (g : Z -> nat) (k i : nat) (n : nat) : bool :=
  match ht_entries (pending_rd_reqs_ s) !! n with
  | Some (Some e) => (g (Z.of_nat n) =? k)%nat && test (pr_mask e) i
  | _ => false
  end.
Definition times_waiting (s : MemCoalescer) (g : Z -> nat) (k i : nat) : nat :=
  length (filter (fun n => tag_waits s g k i n = true) (seq 0 (length (ht_entries (pending_rd_reqs_ s))))).

(** Whether lane [i] of request [k] is yet to enter a round. *)
Definition times_ahead (base : nat) (cov : list bool) (q : LsuReq) (k i : nat) : nat :=
  if (k <? base)%nat then 0
  else if (k =? base)%nat then Nat.b2n (pending_lane cov q i)
  else Nat.b2n (test (lq_mask q) i).

(** ** The invariant *)

Definition req_ok (q : LsuReq) : Prop := length (lq_mask q) = input_size_ c /\ any (lq_mask q) = true.

Definition head_ok (s : MemCoalescer) : Prop :=
  match ch_q (co_ReqIn s) with
  | [] => sent_mask_ s = zeros (input_size_ c) /\ or_valid (out_round_ s) = false
  | q :: _ => sent_ok c (covered s) q /\ (or_valid (out_round_ s) = false -> sent_mask_ s <> lq_mask q)
  end.

Record shape (s : MemCoalescer) : Prop := {
  sh_out : length (co_ReqOut s) = output_size_ c;
  sh_in : length (co_RspIn s) = output_size_ c;
  sh_sent : length (sent_mask_ s) = input_size_ c;
  sh_round : or_valid (out_round_ s) = true -> length (or_lanes (out_round_ s)) = output_size_ c /\ length (or_reqs (out_round_ s)) = output_size_ c /\
             length (or_cur_mask (out_round_ s)) = input_size_ c;
  sh_table : ht_ok (pending_rd_reqs_ s)
}.

Definition stream_ok (w : cworld) (base o : nat) : Prop :=
  let s := cw_co w in
  exists Q, port_stream (cw_hist w) o = Q ++ rest_of base (covered s) (ch_q (co_ReqIn s)) o /\
    Forall2 (matches (cw_hist w)) (map fst (at_port o (cw_served w)) ++ outq s o) Q.

Definition entry_ok (hist : list LsuReq) (g : Z -> nat) (n : nat) (e : pending_req_t) : Prop :=
  exists q, hist !! g (Z.of_nat n) = Some q /\ pr_tag e = lq_tag q /\ needs_rsp (lq_op q) = true /\
    length (pr_mask e) = input_size_ c /\ any (pr_mask e) = true.

Definition rsps (w : cworld) (o : nat) : list MemRsp := at_port o (cw_fly w) ++ port_q (co_RspIn (cw_co w)) o.

Record cinv (w : cworld) (base : nat) (g : Z -> nat) (ks : list nat) : Prop := {
  ci_shape : shape (cw_co w);
  ci_reqs : Forall req_ok (cw_hist w);
  ci_queue : drop base (cw_hist w) = ch_q (co_ReqIn (cw_co w)) /\ (base <= length (cw_hist w))%nat;
  ci_head : head_ok (cw_co w);
  ci_stream : forall o, (o < output_size_ c)%nat -> stream_ok w base o;
  ci_entries : forall n e, ht_entries (pending_rd_reqs_ (cw_co w)) !! n = Some (Some e) -> entry_ok (cw_hist w) g n e;
  ci_items : forall o t, (o < output_size_ c)%nat ->
    tag_item (port_stream (cw_hist w) o) (at_port o (cw_served w)) (outq (cw_co w) o) (rsps w o) t (g t) (tag_lanes (cw_co w) t o);
  ci_answers : Forall2 (answers w) (cw_log w ++ ch_q (co_RspOut (cw_co w))) ks;
  ci_once : forall k q i, cw_hist w !! k = Some q -> needs_rsp (lq_op q) = true ->
    (times_answered (cw_log w ++ ch_q (co_RspOut (cw_co w))) ks k i + times_waiting (cw_co w) g k i + times_ahead base (covered (cw_co w)) q k i)%nat
    = Nat.b2n (test (lq_mask q) i)
}.

End World.
