(* ===== verification/CoalescerProofs.v ===== *)
(** * Every lane is served once

    Every event preserves the invariant of [CoalescerInv], whatever the memory
    answers and in whatever order: the coalescer does not abort, every port
    sends the sets of lanes the requests ask for, in order, and every lane of
    a load or an atomic operation is answered once, with the data read by the
    request that carried it. *)

From S2P Require Import Prelude MemTypes Sched Cache LsuTypes Coalescer CoalescerRound CoalescerInv.

(** ** Ports *)

Lemma at_port_app {A} o (l l' : list (nat * A)) : at_port o (l ++ l') = at_port o l ++ at_port o l'.
Proof. apply omap_app. Qed.

Lemma at_port_one {A} o o' (x : A) : at_port o [(o', x)] = if (o' =? o)%nat then [x] else [].
Proof. cbn. by destruct (o' =? o)%nat. Qed.

Lemma at_port_delete {A} o n o' (x : A) l : l !! n = Some (o', x) ->
  at_port o l ≡ₚ (if (o' =? o)%nat then [x] else []) ++ at_port o (delete n l).
Proof.
  intros H. rewrite <- (take_drop_middle l n (o', x) H) at 1. rewrite delete_take_drop. change ((o', x) :: drop (S n) l) with ([(o', x)] ++ drop (S n) l).
  rewrite !at_port_app, at_port_one. solve_Permutation || (rewrite app_assoc, (Permutation_app_comm (at_port o (take n l))), <- app_assoc; done).
Qed.

Lemma port_q_insert {A} (chs : list (chan A)) o o' ch x : chs !! o = Some x ->
  port_q (<[o := ch]> chs) o' = if (o' =? o)%nat then ch_q ch else port_q chs o'.
Proof.
  intros H. unfold port_q. destruct (Nat.eqb_spec o' o) as [->|].
  - rewrite list_lookup_insert_eq; [done|by eapply lookup_lt_Some].
  - by rewrite list_lookup_insert_ne by done.
Qed.

Lemma port_head_q {A} (chs : list (chan A)) o : port_head chs o = head (port_q chs o).
Proof. unfold port_head, port_q. by destruct (chs !! o). Qed.

(** ** The packets of a tag *)

Section TagItem.
Implicit Types (st : list (nat * list nat)) (sv : list (MemReq * block)) (oq : list MemReq) (rs : list MemRsp).

Lemma tag_item_stream st x sv oq rs t k L : tag_item st sv oq rs t k L -> tag_item (st ++ x) sv oq rs t k L.
Proof.
  unfold tag_item. case_match; [done|]. intros [(? & p & r & ? & ? & Hst)|(? & r & p & mr & d & ? & ? & Hst & ?)].
  - left. split; [done|]. exists p, r. split_and!; try done. by apply lookup_app_l_Some.
  - right. split; [done|]. exists r, p, mr, d. split_and!; try done. by apply lookup_app_l_Some.
Qed.

Lemma filter_perm_nil {A} (P : A -> Prop) `{!forall x, Decision (P x)} l l' : l ≡ₚ l' -> filter P l = [] -> filter P l' = [].
Proof. intros Hp Hf. apply Permutation_nil_r. by rewrite <- Hp, Hf. Qed.

Lemma filter_perm_one {A} (P : A -> Prop) `{!forall x, Decision (P x)} l l' x : l ≡ₚ l' -> filter P l = [x] -> filter P l' = [x].
Proof. intros Hp Hf. symmetry. apply Permutation_singleton_l. by rewrite <- Hp, Hf. Qed.

Lemma tag_item_perm st sv oq rs rs' t k L : rs ≡ₚ rs' -> tag_item st sv oq rs t k L -> tag_item st sv oq rs' t k L.
Proof.
  intros Hp. unfold tag_item. case_match.
  - intros [H1 H2]. split; [done|]. by eapply filter_perm_nil.
  - intros [(H1 & ?)|(? & r & p & mr & d & H2 & ?)].
    + left. split; [by eapply filter_perm_nil|done].
    + right. split; [done|]. exists r, p, mr, d. split; [by eapply filter_perm_one|done].
Qed.

Lemma tag_item_none st sv oq rs t k : tag_item st sv oq rs t k [] <->
  filter (fun r => needs_rsp (rq_op r) = true /\ rq_tag r = t) oq = [] /\ filter (fun r => rs_tag r = t) rs = [].
Proof. done. Qed.

(** The memory takes the first request of the port. *)
Lemma tag_item_serve st sv r oq rs d t k L :
  tag_item st sv (r :: oq) rs t k L ->
  tag_item st (sv ++ [(r, d)]) oq (rs ++ (if needs_rsp (rq_op r) then [answer r d] else [])) t k L.
Proof.
  unfold tag_item. set (P := fun r => needs_rsp (rq_op r) = true /\ rq_tag r = t).
  assert (Hrp : ~ P r -> filter (fun r => rs_tag r = t) (rs ++ (if needs_rsp (rq_op r) then [answer r d] else [])) = filter (fun r => rs_tag r = t) rs).
  { intros Hn. rewrite list.filter_app. rewrite (filter_none (fun r => rs_tag r = t) (if needs_rsp (rq_op r) then [answer r d] else [])); [by rewrite app_nil_r|].
    intros x Hx. unfold P in Hn. destruct (needs_rsp (rq_op r)); [|by apply elem_of_nil in Hx]. apply list_elem_of_singleton in Hx as ->. cbn. tauto. }
  rewrite filter_cons. destruct (decide (P r)) as [HP|HP].
  - case_bool_decide; [by intros [[=] _]|]. intros [(Hrs & p & r' & [= <- Hnil] & Hp & Hst)|([=] & _)]. right. split; [done|].
    assert (p = 0%nat) as ->.
    { destruct p as [|p]; [done|]. cbn in Hp. apply list_elem_of_lookup_2 in Hp. assert (Hin : r ∈ filter P oq) by (by apply list_elem_of_filter).
      rewrite Hnil in Hin. by apply elem_of_nil in Hin. }
    destruct HP as [Hneed Htag]. rewrite Hneed. exists (answer r d), (length sv), r, d. split_and!; [| |by rewrite Nat.add_0_r in Hst|done].
    + rewrite list.filter_app, Hrs, filter_cons_True by done. done.
    + rewrite lookup_app_r, Nat.sub_diag by done. done.
  - rewrite (Hrp HP). case_bool_decide; [done|]. intros [(Hrs & p & r' & Hrq & Hp & Hst)|(Hrq & r' & p & mr & d' & Hrs & Hsv & Hst & Hd)].
    + left. split; [done|]. destruct p as [|p].
      { cbn in Hp. simplify_eq. exfalso. apply HP. assert (Hin : r' ∈ filter P oq) by (rewrite Hrq; by left). by apply list_elem_of_filter in Hin as [? _]. }
      exists p, r'. split_and!; [done|done|]. rewrite length_app. cbn [length]. rewrite <- Hst. f_equal. lia.
    + right. split; [done|]. exists r', p, mr, d'. split_and!; try done. by apply lookup_app_l_Some.
Qed.

(** A new request of another tag, or one that needs no answer. *)
Lemma tag_item_other st sv oq rs r t k L : ~ (needs_rsp (rq_op r) = true /\ rq_tag r = t) ->
  tag_item st sv oq rs t k L -> tag_item st sv (oq ++ [r]) rs t k L.
Proof.
  intros Hn. unfold tag_item. rewrite list.filter_app, (filter_cons_False _ r []) by done. rewrite app_nil_r. case_bool_decide; [done|].
  intros [(Hrs & p & r' & Hrq & Hp & Hst)|H']; [left|by right]. split; [done|]. exists p, r'. split_and!; try done. by apply lookup_app_l_Some.
Qed.

(** A new request under a tag that was free. *)
Lemma tag_item_new st sv oq rs r t k k' L : needs_rsp (rq_op r) = true -> rq_tag r = t -> L <> [] ->
  st !! (length sv + length oq)%nat = Some (k, L) ->
  tag_item st sv oq rs t k' [] -> tag_item st sv (oq ++ [r]) rs t k L.
Proof.
  intros Hr Ht HL Hst [Hrq Hrs]%tag_item_none. unfold tag_item. rewrite bool_decide_false by done. left. split; [done|].
  exists (length oq), r. rewrite list.filter_app, Hrq, filter_cons_True by done. split_and!; [done| |done].
  rewrite lookup_app_r, Nat.sub_diag by done. done.
Qed.

(** The answer under the tag is at the head of a port: the request was served,
    and the port holds no other packet of the tag. *)
Lemma tag_item_answered st sv oq rs r rs' t k L : rs ≡ₚ r :: rs' -> rs_tag r = t -> tag_item st sv oq rs t k L ->
  L <> [] /\ (exists p mr d, sv !! p = Some (mr, d) /\ st !! p = Some (k, L) /\ rs_data r = Some d) /\ (forall k', tag_item st sv oq rs' t k' []).
Proof.
  intros Hp Ht H. eapply tag_item_perm in H; [|exact Hp]. unfold tag_item in H. rewrite filter_cons_True in H by done.
  case_bool_decide; [by destruct H as [_ [=]]|]. split; [done|].
  destruct H as [([=] & _)|(Hrq & r' & p & mr & d & [= <- Hrs] & ? & ? & ?)]. split; [by exists p, mr, d|]. intros k'. by apply tag_item_none.
Qed.

(** The answer popped at a port carries another tag. *)
Lemma tag_item_pop_other st sv oq rs r rs' t k L : rs ≡ₚ r :: rs' -> rs_tag r <> t -> tag_item st sv oq rs t k L -> tag_item st sv oq rs' t k L.
Proof.
  intros Hp Ht H. eapply tag_item_perm in H; [|exact Hp]. unfold tag_item in *. by rewrite filter_cons_False in H by done.
Qed.

End TagItem.

(** ** Issuing a round *)

(** What is on its way out of a port does not change when a lane is sent. *)
Definition lane_out (reqs : list MemReq) (st : list bool * list (chan MemReq)) (o : nat) : list MemReq :=
  port_q (snd st) o ++ (if test (fst st) o then option_list (reqs !! o) else []).

Lemma send_lane_out reqs st o : 
  length (fst (send_lane reqs st o)) = length (fst st) /\ length (snd (send_lane reqs st o)) = length (snd st) /\
  forall o', lane_out reqs (send_lane reqs st o) o' = lane_out reqs st o'.
Proof.
  destruct st as [lanes chs]. unfold send_lane. destruct (test lanes o) eqn:Ho; [|done]. destruct (chs !! o) as [ch|] eqn:Hch; [|done].
  destruct (reqs !! o) as [r|] eqn:Hr; [|done]. destruct (ch_full ch); [done|]. cbn [fst snd]. rewrite length_bv_reset, length_insert.
  split_and!; try done. intros o'. unfold lane_out. cbn [fst snd]. rewrite (port_q_insert _ _ _ _ _ Hch), test_bv_reset.
  destruct (Nat.eqb_spec o' o) as [->|]; cbn [negb].
  - rewrite andb_false_r, app_nil_r, Ho, Hr. unfold port_q. by rewrite Hch.
  - by rewrite andb_true_r.
Qed.

Lemma send_lanes_out n reqs lanes chs :
  let st := send_lanes n reqs lanes chs in
  length (fst st) = length lanes /\ length (snd st) = length chs /\ forall o, lane_out reqs st o = lane_out reqs (lanes, chs) o.
Proof.
  assert (H : forall l st, length (fst (fold_left (send_lane reqs) l st)) = length (fst st) /\
    length (snd (fold_left (send_lane reqs) l st)) = length (snd st) /\
    forall o, lane_out reqs (fold_left (send_lane reqs) l st) o = lane_out reqs st o).
  2:{ apply (H _ (lanes, chs)). }
  induction l as [|o l IH]; intros st; cbn [fold_left]; [done|].
  destruct (send_lane_out reqs st o) as (H1 & H2 & H3). destruct (IH (send_lane reqs st o)) as (I1 & I2 & I3).
  split; [by rewrite I1, H1|]. split; [by rewrite I2, H2|]. intros o'. by rewrite I3, H3.
Qed.

(** Projections of an updated world. *)
Ltac wproj :=
  cbv [set const]; cbn [cw_co cw_hist cw_served cw_fly cw_log co_ReqIn co_RspOut co_ReqOut co_RspIn pending_rd_reqs_ sent_mask_ out_round_ co_misses
    or_valid or_lanes or_reqs or_cur_mask ch_push ch_pop ch_q ch_cap].

Section Steps.
Context (c : co_config) (am : addr_map) (hc : hart_cfg).
Hypothesis Hz : sizes_ok c.

(** ** Monotonicity *)

Lemma matches_app hist x r k : matches c am hc hist r k -> matches c am hc (hist ++ x) r k.
Proof. intros (q & Hq & E). exists q. split; [by apply lookup_app_l_Some|done]. Qed.

Lemma answers_mono w w' r k x y : cw_hist w' = cw_hist w ++ x -> cw_served w' = cw_served w ++ y -> answers c w r k -> answers c w' r k.
Proof.
  intros Hh Hs (q & Hq & Hn & Ht & Hi). exists q. rewrite Hh, Hs. split; [by apply lookup_app_l_Some|]. split; [done|]. split; [done|].
  intros i (o & p & mr & d & L & H1 & H2 & H3)%Hi. exists o, p, mr, d, L. rewrite at_port_app. split; [by apply lookup_app_l_Some|].
  split; [|done]. unfold port_stream. rewrite stream_from_app. by apply lookup_app_l_Some.
Qed.

Lemma rest_of_push k cov qs q o : (qs = [] -> todo c cov q o = group_lanes c (lq_mask q) o) ->
  rest_of c k cov (qs ++ [q]) o = rest_of c k cov qs o ++ map (pair (k + length qs)%nat) (slots c q (group_lanes c (lq_mask q) o)).
Proof.
  intros H. destruct qs as [|q' qs]; cbn [app rest_of].
  - rewrite H by done. unfold stream_from. cbn. by rewrite app_nil_r, Nat.add_0_r.
  - rewrite stream_from_app, app_assoc. f_equal. unfold stream_from. cbn. rewrite app_nil_r, Nat.add_0_r. by rewrite Nat.add_succ_r.
Qed.

Lemma times_answered_fresh rs ks k i w : Forall2 (answers c w) rs ks -> (length (cw_hist w) <= k)%nat -> times_answered rs ks k i = 0%nat.
Proof.
  intros H Hk. unfold times_answered. induction H as [|r k' rs ks Hr _ IH]; [done|]. cbn [zip zip_with]. rewrite filter_cons_False; [exact IH|].
  cbn. intros [-> _]. destruct Hr as (q & Hq & _). apply lookup_lt_Some in Hq. lia.
Qed.

Lemma tag_waits_spec s g k i n : tag_waits s g k i n = true <->
  exists e, ht_entries (pending_rd_reqs_ s) !! n = Some (Some e) /\ g (Z.of_nat n) = k /\ test (pr_mask e) i = true.
Proof.
  unfold tag_waits. split.
  - destruct (_ !! n) as [[e|]|]; try done. intros [?%Nat.eqb_eq ?]%andb_true_iff. eauto.
  - intros (e & -> & ? & ?). apply andb_true_iff. by rewrite Nat.eqb_eq.
Qed.

Lemma times_waiting_fresh s g hist k i : (forall n e, ht_entries (pending_rd_reqs_ s) !! n = Some (Some e) -> entry_ok c hist g n e) ->
  (length hist <= k)%nat -> times_waiting s g k i = 0%nat.
Proof.
  intros He Hk. unfold times_waiting. rewrite filter_none; [done|]. intros n _ (e & Hn & Hg & _)%tag_waits_spec.
  destruct (He _ _ Hn) as (q & Hq & _). apply lookup_lt_Some in Hq. lia.
Qed.

Lemma Forall2_impl_in {A B} (P Q : A -> B -> Prop) l k : (forall x y, P x y -> Q x y) -> Forall2 P l k -> Forall2 Q l k.
Proof. intros H F. by eapply Forall2_impl. Qed.

(** ** A new request *)

Lemma step_req w base g ks q : cinv c am hc w base g ks -> req_ok c q ->
  let s := cw_co w in
  cinv c am hc (w <| cw_co := s <| co_ReqIn := ch_push (co_ReqIn s) q |> |> <| cw_hist := cw_hist w ++ [q] |>) base g ks.
Proof.
  intros [[S1 S2 S3 S4 S5] R [Qd Qb] Hd St En It An On] Hq s.
  assert (Hlen : (base + length (ch_q (co_ReqIn s)))%nat = length (cw_hist w)) by (unfold s; rewrite <- Qd, length_drop; lia).
  assert (Hfirst : ch_q (co_ReqIn s) = [] -> covered s = zeros (input_size_ c)).
  { intros E. unfold head_ok in Hd. fold s in Hd. rewrite E in Hd. destruct Hd as [Hd1 Hd2]. unfold covered. by rewrite Hd2. }
  wproj. constructor; try (constructor; assumption); wproj.
  - apply Forall_app. split; [done|]. by apply Forall_singleton.
  - rewrite drop_app_le, length_app, Qd by done. split; [done|]. lia.
  - unfold head_ok in *. fold s in Hd. wproj. destruct (ch_q (co_ReqIn s)) as [|q' qs] eqn:E; [|exact Hd]. cbn [app]. destruct Hd as [Hd1 Hd2]. destruct Hq as [Hq1 Hq2].
    unfold covered. wproj. rewrite Hd2, Hd1. split; [split; [unfold zeros; by rewrite length_replicate|intros i; by rewrite test_zeros]|].
    intros _ E'. rewrite <- E' in Hq2. apply any_spec in Hq2 as [j Hj]. by rewrite test_zeros in Hj.
  - intros o Ho. destruct (St o Ho) as (Q & HQ & HF). exists Q. wproj. split.
    + unfold port_stream in *. rewrite stream_from_app, HQ. cbn [Nat.add]. rewrite (rest_of_push base _ _ q o).
      * change (covered ?x) with (covered s). fold s. rewrite <- app_assoc. do 2 f_equal. unfold stream_from. cbn. rewrite app_nil_r, Nat.add_0_r. by rewrite Hlen.
      * intros E. fold s in E. change (covered ?x) with (covered s). rewrite (Hfirst E). apply todo_zeros.
    + eapply Forall2_impl_in; [|exact HF]. intros. by apply matches_app.
  - intros n e Hn. destruct (En n e Hn) as (q' & Hq' & He). exists q'. split; [by apply lookup_app_l_Some|done].
  - intros o t Ho. unfold port_stream. rewrite stream_from_app. by apply tag_item_stream, (It o t Ho).
  - eapply Forall2_impl_in; [|exact An]. intros r k. apply (answers_mono w _ r k [q] []); cbn; by rewrite ?app_nil_r.
  - intros k q' i Hk Hn. change (covered ?x) with (covered s). change (times_waiting ?x g k i) with (times_waiting s g k i).
    destruct (decide (k < length (cw_hist w))%nat) as [Hlt|Hge].
    + rewrite lookup_app_l in Hk by done. by apply (On k q' i Hk Hn).
    + rewrite (times_answered_fresh _ _ _ _ _ An), (times_waiting_fresh _ _ _ _ _ En) by lia. apply lookup_lt_Some in Hk as Hl. rewrite length_app in Hl. cbn in Hl.
      assert (k = length (cw_hist w)) as -> by lia. rewrite lookup_app_r, Nat.sub_diag in Hk by done. injection Hk as <-.
      unfold times_ahead. rewrite (proj2 (Nat.ltb_ge _ _)) by lia. cbn [Nat.add]. destruct (Nat.eqb_spec (length (cw_hist w)) base) as [Eb|]; [|done].
      rewrite Hfirst by (apply nil_length_inv; lia). unfold pending_lane. by rewrite test_zeros.
Qed.

(** ** The memory takes a request *)

Lemma step_serve w base g ks o d ch r l : cinv c am hc w base g ks -> co_ReqOut (cw_co w) !! o = Some ch -> ch_q ch = r :: l ->
  let s := cw_co w in
  cinv c am hc (w <| cw_co := s <| co_ReqOut := <[o := ch_pop ch]> (co_ReqOut s) |> |> <| cw_served := cw_served w ++ [(o, (r, d))] |>
                  <| cw_fly := if needs_rsp (rq_op r) then cw_fly w ++ [(o, answer r d)] else cw_fly w |>) base g ks.
Proof.
  intros [[S1 S2 S3 S4 S5] R Qd Hd St En It An On] Hch Hl s. wproj.
  match goal with |- cinv _ _ _ ?w' _ _ _ => set (w2 := w') end.
  assert (Hsv : forall o', at_port o' (cw_served w2) = at_port o' (cw_served w) ++ (if (o =? o')%nat then [(r, d)] else [])).
  { intros o'. cbn [w2 cw_served]. by rewrite at_port_app, at_port_one. }
  assert (Hoq : forall o', outq s o' = (if (o =? o')%nat then [r] else []) ++ outq (cw_co w2) o').
  { intros o'. unfold outq. change (stage (cw_co w2) o') with (stage s o'). cbn [w2 cw_co co_ReqOut]. rewrite (port_q_insert _ _ _ _ _ Hch), app_assoc. f_equal.
    rewrite (Nat.eqb_sym o' o). destruct (Nat.eqb_spec o o') as [<-|]; [|done]. unfold port_q. fold s in Hch. rewrite Hch, Hl. wproj. by rewrite Hl. }
  assert (Hrs : forall o', rsps w2 o' ≡ₚ rsps w o' ++ (if (o =? o')%nat then if needs_rsp (rq_op r) then [answer r d] else [] else [])).
  { intros o'. unfold rsps. change (port_q (co_RspIn (cw_co w2)) o') with (port_q (co_RspIn s) o'). cbn [w2 cw_fly].
    destruct (needs_rsp (rq_op r)); [rewrite at_port_app, at_port_one|by case_match; rewrite app_nil_r].
    rewrite <- !app_assoc. apply Permutation_app_head, Permutation_app_comm. }
  constructor; try assumption.
  - constructor; try assumption. cbn [w2 cw_co co_ReqOut]. by rewrite length_insert.
  - intros o' Ho'. destruct (St o' Ho') as (Q & HQ & HF). exists Q. split; [exact HQ|]. rewrite Hsv, map_app, <- app_assoc. fold s in HF. rewrite Hoq in HF.
    by destruct (o =? o')%nat.
  - intros o' t Ho'. specialize (It o' t Ho'). fold s in It. rewrite Hoq in It. eapply tag_item_perm; [symmetry; apply Hrs|]. rewrite Hsv.
    destruct (o =? o')%nat; [by apply tag_item_serve|]. by rewrite !app_nil_r.
  - eapply Forall2_impl_in; [|exact An]. intros r' k. apply (answers_mono w _ r' k [] [(o, (r, d))]); [by rewrite app_nil_r|done].
Qed.

(** ** An answer comes back *)

Lemma step_reply w base g ks n o r ch : cinv c am hc w base g ks -> cw_fly w !! n = Some (o, r) -> co_RspIn (cw_co w) !! o = Some ch ->
  let s := cw_co w in
  cinv c am hc (w <| cw_co := s <| co_RspIn := <[o := ch_push ch r]> (co_RspIn s) |> |> <| cw_fly := delete n (cw_fly w) |>) base g ks.
Proof.
  intros [[S1 S2 S3 S4 S5] R Qd Hd St En It An On] Hf Hch s. wproj.
  match goal with |- cinv _ _ _ ?w' _ _ _ => set (w2 := w') end.
  assert (Hrs : forall o', rsps w o' ≡ₚ rsps w2 o').
  { intros o'. unfold rsps. fold s in Hch |- *. cbn [w2 cw_fly cw_co co_RspIn]. rewrite (port_q_insert _ _ _ _ _ Hch), (at_port_delete o' _ _ _ _ Hf), (Nat.eqb_sym o' o).
    destruct (Nat.eqb_spec o o') as [<-|]; [|done]. unfold port_q. rewrite Hch. wproj. rewrite <- app_assoc, (Permutation_app_comm [r]), <- app_assoc. done. }
  constructor; try assumption.
  - constructor; try assumption. cbn [w2 cw_co co_RspIn]. by rewrite length_insert.
  - intros o' t Ho'. eapply tag_item_perm; [apply Hrs|]. exact (It o' t Ho').
Qed.

(** ** A response is taken *)

Lemma step_rsp w base g ks r l : cinv c am hc w base g ks -> ch_q (co_RspOut (cw_co w)) = r :: l ->
  let s := cw_co w in
  cinv c am hc (w <| cw_co := s <| co_RspOut := ch_pop (co_RspOut s) |> |> <| cw_log := cw_log w ++ [r] |>) base g ks.
Proof.
  intros [[S1 S2 S3 S4 S5] R Qd Hd St En It An On] Hq s. wproj.
  constructor; try assumption; wproj.
  - by constructor.
  - fold s in An, Hq |- *. rewrite Hq in An |- *. cbn [tail]. by rewrite <- app_assoc.
  - fold s in On, Hq |- *. rewrite Hq in On |- *. cbn [tail]. by rewrite <- app_assoc.
Qed.

(** ** The waiting round is issued *)

Definition with_co (w : cworld) (s : MemCoalescer) : cworld :=
  {| cw_co := s; cw_hist := cw_hist w; cw_served := cw_served w; cw_fly := cw_fly w; cw_log := cw_log w |}.

(** A step that moves requests from the round to the ports only. *)
Lemma cinv_moved w base g ks s' : let s := cw_co w in
  cinv c am hc w base g ks -> shape c s' -> head_ok c s' -> co_ReqIn s' = co_ReqIn s -> covered s' = covered s -> (forall o, outq s' o = outq s o) ->
  co_RspIn s' = co_RspIn s -> pending_rd_reqs_ s' = pending_rd_reqs_ s -> co_RspOut s' = co_RspOut s ->
  cinv c am hc (with_co w s') base g ks.
Proof.
  intros s [S R Qd Hd St En It An On] Hs Hh Eq Ec Eo Ei Et Er. unfold with_co. constructor; try done; wproj.
  - rewrite Eq. exact Qd.
  - intros o Ho. destruct (St o Ho) as (Q & HQ & HF). exists Q. wproj. rewrite Ec, Eq, Eo. done.
  - rewrite Et. exact En.
  - intros o t Ho. specialize (It o t Ho). unfold rsps, tag_lanes, live in *. wproj. rewrite Ei, Et, Eo. exact It.
  - rewrite Er. exact An.
  - intros k q i Hk Hn. rewrite Er, Ec. unfold times_waiting, tag_waits. rewrite Et. exact (On k q i Hk Hn).
Qed.

Lemma sent_ok_zeros q : sent_ok c (zeros (input_size_ c)) q.
Proof. split; [unfold zeros; by rewrite length_replicate|]. intros i. by rewrite test_zeros. Qed.

Lemma req_not_zeros q : req_ok c q -> zeros (input_size_ c) <> lq_mask q.
Proof. intros [_ H] E. rewrite <- E in H. apply any_spec in H as [j Hj]. by rewrite test_zeros in Hj. Qed.

Lemma rest_of_next k q qs o : rest_of c k (lq_mask q) (q :: qs) o = stream_from c (S k) qs o.
Proof.
  cbn [rest_of]. replace (todo c (lq_mask q) q o) with (@nil nat); [done|]. symmetry. apply filter_none. intros i _. unfold pending_lane.
  by destruct (test (lq_mask q) i).
Qed.

Lemma rest_of_zeros k qs o : rest_of c k (zeros (input_size_ c)) qs o = stream_from c k qs o.
Proof. destruct qs as [|q qs]; [done|]. rewrite stream_from_cons. cbn [rest_of]. by rewrite todo_zeros. Qed.

(** The last lanes of a request are sent, and the request leaves the queue. *)
Lemma cinv_popped w base g ks s' q qs : let s := cw_co w in
  cinv c am hc w base g ks -> ch_q (co_ReqIn s) = q :: qs -> covered s = lq_mask q -> shape c s' ->
  ch_q (co_ReqIn s') = qs -> sent_mask_ s' = zeros (input_size_ c) -> or_valid (out_round_ s') = false -> (forall o, outq s' o = outq s o) ->
  co_RspIn s' = co_RspIn s -> pending_rd_reqs_ s' = pending_rd_reqs_ s -> co_RspOut s' = co_RspOut s ->
  cinv c am hc (with_co w s') (S base) g ks.
Proof.
  intros s [S R [Qd Qb] Hd St En It An On] Hq Ec Hs Eq Ez Ev Eo Ei Et Er. fold s in Qd. rewrite Hq in Qd.
  assert (Hb : (base < length (cw_hist w))%nat).
  { destruct (decide (base < length (cw_hist w))%nat); [done|]. rewrite drop_ge in Qd by lia. done. }
  assert (Hqs : drop (Datatypes.S base) (cw_hist w) = qs) by (rewrite <- Nat.add_1_l, Nat.add_comm, <- drop_drop, Qd; done).
  assert (Hz' : covered s' = zeros (input_size_ c)) by (unfold covered; by rewrite Ev).
  unfold with_co. constructor; try done; wproj.
  - rewrite Eq. split; [done|lia].
  - unfold head_ok. rewrite Eq, Ev, Hz', Ez. destruct qs as [|q' qs']; [done|]. split; [apply sent_ok_zeros|]. intros _. apply req_not_zeros.
    eapply Forall_forall in R; [exact R|]. apply list_elem_of_In. eapply (list_elem_of_lookup_2 _ (Datatypes.S base)).
    rewrite <- (Nat.add_0_r (Datatypes.S base)), <- lookup_drop, Hqs. done.
  - intros o Ho. destruct (St o Ho) as (Q & HQ & HF). fold s in HQ, HF. exists Q. wproj. rewrite Eq, Hz', rest_of_zeros, Eo. split; [|done].
    rewrite HQ, Hq, Ec, rest_of_next. done.
  - rewrite Et. exact En.
  - intros o t Ho. specialize (It o t Ho). unfold rsps, tag_lanes, live in *. wproj. rewrite Ei, Et, Eo. exact It.
  - rewrite Er. exact An.
  - intros k q' i Hk Hn. specialize (On k q' i Hk Hn). fold s in On. rewrite Er, Hz'. unfold times_waiting, tag_waits in *. rewrite Et. rewrite <- On. f_equal.
    rewrite Ec. unfold times_ahead. destruct (Nat.ltb_spec k base), (Nat.ltb_spec k (Datatypes.S base)); try lia; try done.
    + assert (k = base) as -> by lia. rewrite Nat.eqb_refl. rewrite <- (Nat.add_0_r base), <- lookup_drop, Qd in Hk. injection Hk as <-.
      unfold pending_lane. by destruct (test (lq_mask q) i).
    + destruct (Nat.eqb_spec k base); [lia|]. case_match; [|done]. unfold pending_lane. by rewrite test_zeros.
Qed.

Lemma step_flush w base g ks : cinv c am hc w base g ks -> or_valid (out_round_ (cw_co w)) = true ->
  exists s' base', flush_out_round c (cw_co w) = Some s' /\ cinv c am hc (with_co w s') base' g ks.
Proof.
  intros I Hv. pose proof I as [[S1 S2 S3 S4 S5] R Qd Hd St En It An On]. set (s := cw_co w) in *. destruct (S4 Hv) as (L1 & L2 & L3).
  unfold flush_out_round. pose proof (send_lanes_out (output_size_ c) (or_reqs (out_round_ s)) (or_lanes (out_round_ s)) (co_ReqOut s)) as Hsl. cbv zeta in Hsl.
  destruct (send_lanes _ _ _ _) as [lanes chs] eqn:Es. cbn [fst snd] in Hsl. destruct Hsl as (N1 & N2 & N3). wproj.
  assert (Hout : forall o, outq s o = lane_out (or_reqs (out_round_ s)) (lanes, chs) o).
  { intros o. rewrite N3. unfold outq, stage, lane_out. rewrite Hv. done. }
  destruct (any lanes) eqn:Ha.
  - eexists _, base. split; [reflexivity|]. apply cinv_moved; try done.
    + constructor; wproj; try done; [by rewrite N2|]. intros _. split_and!; try done. by rewrite N1.
    + intros o. rewrite Hout. unfold outq, stage, lane_out. wproj. by rewrite Hv.
  - assert (Hnone : forall o, lane_out (or_reqs (out_round_ s)) (lanes, chs) o = port_q chs o).
    { intros o. unfold lane_out. cbn [fst snd]. destruct (test lanes o) eqn:E; [|by rewrite app_nil_r].
      assert (any lanes = true) by (apply any_spec; eauto). congruence. }
    unfold head_ok in Hd. destruct (ch_q (co_ReqIn s)) as [|q qs] eqn:Eq; [by destruct Hd as [_ Hd]; rewrite Hd in Hv|]. cbn [head mbind option_bind].
    destruct Hd as [Hd _]. assert (Hcov : covered s = bv_or (sent_mask_ s) (or_cur_mask (out_round_ s))) by (unfold covered; by rewrite Hv).
    rewrite <- Hcov in *. case_bool_decide as Hm.
    + eexists _, (Datatypes.S base). split; [reflexivity|]. apply (cinv_popped w base g ks _ q qs); try done; wproj; fold s; try done.
      * constructor; wproj; try done; [by rewrite N2|]. unfold zeros. rewrite length_replicate. apply Hd.
      * by rewrite Eq.
      * f_equal. apply Hd.
      * intros o. rewrite Hout, Hnone. unfold outq, stage. wproj. by rewrite app_nil_r.
    + eexists _, base. split; [reflexivity|]. apply cinv_moved; try done; wproj; fold s; try done.
      * constructor; wproj; try done; [by rewrite N2|]. apply Hd.
      * unfold head_ok, covered. wproj. rewrite Eq. done.
      * intros o. rewrite Hout, Hnone. unfold outq, stage. wproj. by rewrite app_nil_r.
Qed.

(** ** A round is built *)

Lemma count_update (f f' : nat -> bool) N n : (n < N)%nat -> (forall m, m <> n -> f' m = f m) ->
  (length (filter (fun m => f' m = true) (seq 0 N)) + Nat.b2n (f n) = length (filter (fun m => f m = true) (seq 0 N)) + Nat.b2n (f' n))%nat.
Proof.
  intros Hn Hf. replace N with (n + S (N - S n))%nat by lia. rewrite seq_app, !list.filter_app. cbn [seq Nat.add]. rewrite !filter_cons, !length_app.
  rewrite (filter_ext_in (fun m => f' m = true) (fun m => f m = true) (seq 0 n)) by (intros m Hm%elem_of_seq; rewrite Hf by lia; done).
  rewrite (filter_ext_in (fun m => f' m = true) (fun m => f m = true) (seq (S n) (N - S n))) by (intros m Hm%elem_of_seq; rewrite Hf by lia; done).
  destruct (f n), (f' n); repeat case_decide; try done; cbn [length Nat.b2n]; lia.
Qed.

Lemma group_lanes_cur sent q o : length (lq_mask q) = input_size_ c -> (o < output_size_ c)%nat ->
  group_lanes c (rd_cur_mask (build_round c sent q)) o = first_lanes c sent q o.
Proof.
  intros Hm Ho. unfold first_lanes. rewrite (slot_first_filter c q (todo c sent q o) (todo_nodup _ _ _ _)). fold (first_lanes c sent q o).
  unfold todo, group_lanes. rewrite list_filter_filter. apply filter_ext_in. intros i Hi%elem_of_seq. rewrite (cur_group c sent q o i Hm Ho Hi).
  split; [|tauto]. intros Hin. split; [done|]. by apply first_lanes_sub, todo_spec in Hin as [? _].
Qed.

Lemma first_lanes_nil sent q o : first_lanes c sent q o = [] <-> todo c sent q o = [].
Proof. unfold first_lanes. destruct (todo c sent q o); [done|]. cbn. destruct (lq_is_amo q); split; done. Qed.

Lemma cur_split sent q i : length (lq_mask q) = input_size_ c -> length sent = input_size_ c ->
  let cur := rd_cur_mask (build_round c sent q) in
  (Nat.b2n (test cur i) + Nat.b2n (pending_lane (bv_or sent cur) q i) = Nat.b2n (pending_lane sent q i))%nat.
Proof.
  intros Hm Hs cur. pose proof (build_round_inv c sent q Hm) as R. pose proof (ri_cur _ _ _ _ _ R) as Hc. fold cur in Hc.
  unfold pending_lane. rewrite test_bv_or by congruence. destruct (test cur i) eqn:E.
  - apply (ri_lanes _ _ _ _ _ R) in E as (o & Ho & [Hp _]%first_lanes_sub%todo_spec). unfold pending_lane in Hp. rewrite Hp.
    apply andb_true_iff in Hp as [Hp _]. rewrite orb_true_r. done.
  - by rewrite orb_false_r.
Qed.

(** The requests the round adds at the ports. *)
Definition round_stage sent q tag o : list MemReq := if bool_decide (todo c sent q o = []) then [] else [slot_req c am hc q tag (first_lanes c sent q o)].

(** The state after the round is built, with the tag and the table it is given. *)
Definition built (s : MemCoalescer) q tag table misses : MemCoalescer :=
  let rd := build_round c (sent_mask_ s) q in
  {| co_ReqIn := co_ReqIn s; co_RspOut := co_RspOut s; co_ReqOut := co_ReqOut s; co_RspIn := co_RspIn s; pending_rd_reqs_ := table; sent_mask_ := sent_mask_ s;
     out_round_ := {| or_valid := true; or_lanes := rd_out_mask rd; or_reqs := map (round_req am hc q rd tag) (seq 0 (output_size_ c)); or_cur_mask := rd_cur_mask rd |};
     co_misses := misses |}.

Lemma built_outq s q tag table misses o : or_valid (out_round_ s) = false -> length (lq_mask q) = input_size_ c -> (o < output_size_ c)%nat ->
  outq (built s q tag table misses) o = outq s o ++ round_stage (sent_mask_ s) q tag o.
Proof.
  intros Hv Hm Ho. unfold outq, stage, built. wproj. rewrite Hv, app_nil_r. f_equal. cbn [andb].
  destruct (build_round_spec c am hc (sent_mask_ s) q tag o Hm Ho) as [-> Hr]. unfold round_stage. case_bool_decide as Ht; [done|]. cbn [negb].
  rewrite list_lookup_fmap, lookup_seq_lt by done. cbn. by rewrite Hr.
Qed.

Lemma built_stream w base g ks q qs tag table misses o : let s := cw_co w in
  cinv c am hc w base g ks -> or_valid (out_round_ s) = false -> ch_q (co_ReqIn s) = q :: qs -> req_ok c q -> cw_hist w !! base = Some q -> (o < output_size_ c)%nat ->
  stream_ok c am hc (with_co w (built s q tag table misses)) base o /\
  (todo c (sent_mask_ s) q o <> [] ->
   port_stream c (cw_hist w) o !! (length (at_port o (cw_served w)) + length (outq s o))%nat = Some (base, first_lanes c (sent_mask_ s) q o)).
Proof.
  intros s I Hv Hq [Hm _] Hb Ho. destruct (ci_stream _ _ _ _ _ _ _ I o Ho) as (Q & HQ & HF). fold s in HQ, HF.
  pose proof (sh_sent _ _ (ci_shape _ _ _ _ _ _ _ I)) as Hs. fold s in Hs.
  assert (Hc : covered s = sent_mask_ s) by (unfold covered; by rewrite Hv). rewrite Hc, Hq in HQ.
  assert (Hlen : length Q = (length (at_port o (cw_served w)) + length (outq s o))%nat).
  { rewrite <- (Forall2_length HF), length_app, length_map. done. }
  unfold stream_ok, with_co. wproj. rewrite built_outq by done. unfold round_stage.
  change (covered (built s q tag table misses)) with (bv_or (sent_mask_ s) (rd_cur_mask (build_round c (sent_mask_ s) q))).
  change (co_ReqIn (built s q tag table misses)) with (co_ReqIn s). rewrite Hq. cbn [rest_of] in HQ |- *. rewrite todo_next by done.
  case_bool_decide as Ht.
  - split; [|done]. exists Q. rewrite app_nil_r. split; [|done]. rewrite Ht in HQ |- *. done.
  - rewrite (slots_ne c q _ Ht) in HQ. fold (first_lanes c (sent_mask_ s) q o) in HQ. cbn [map app] in HQ. split.
    + exists (Q ++ [(base, first_lanes c (sent_mask_ s) q o)]). split; [by rewrite <- app_assoc|]. rewrite app_assoc. apply Forall2_app; [done|].
      constructor; [|constructor]. exists q. done.
    + intros _. rewrite HQ, <- Hlen, lookup_app_r, Nat.sub_diag by done. done.
Qed.

Lemma step_built w base g ks q qs misses : let s := cw_co w in
  cinv c am hc w base g ks -> or_valid (out_round_ s) = false -> ch_q (co_ReqIn s) = q :: qs -> req_ok c q -> cw_hist w !! base = Some q ->
  needs_rsp (lq_op q) = false -> cinv c am hc (with_co w (built s q 0 (pending_rd_reqs_ s) misses)) base g ks.
Proof.
  intros s I Hv Hq Hok Hb Hn. pose proof I as [[S1 S2 S3 S4 S5] R Qd Hd St En It An On]. fold s in S1, S2, S3, S4, S5.
  pose proof (build_round_inv c (sent_mask_ s) q (proj1 Hok)) as RI.
  assert (Hc : covered s = sent_mask_ s) by (unfold covered; by rewrite Hv).
  unfold head_ok in Hd. fold s in Hd. rewrite Hq, Hc in Hd.
  unfold with_co. constructor; try done; wproj.
  - constructor; try done. intros _. unfold built; wproj. rewrite length_map, length_seq. split_and!; [apply RI|done|apply RI].
  - unfold head_ok. change (co_ReqIn (built s q 0 _ _)) with (co_ReqIn s). rewrite Hq. split; [|done]. apply sent_next; [apply Hok|apply Hd].
  - intros o Ho. by apply (built_stream w base g ks q qs 0 (pending_rd_reqs_ s) misses o I Hv Hq Hok Hb Ho).
  - intros o t Ho. specialize (It o t Ho). unfold with_co. wproj. fold s in It. rewrite built_outq by (done || apply Hok). unfold round_stage.
    case_bool_decide; [by rewrite app_nil_r|]. apply tag_item_other; [|exact It]. cbn. rewrite Hn. by intros [? _].
  - intros k q' i Hk Hn'. rewrite <- (On k q' i Hk Hn'). fold s. f_equal. rewrite Hc. unfold times_ahead.
    destruct (Nat.ltb_spec k base); [done|]. destruct (Nat.eqb_spec k base) as [->|]; [|done]. congruence.
Qed.

(** Looking up a table in which one entry changed. *)
Lemma live_insert s table n v t : ht_entries table = <[n := v]> (ht_entries (pending_rd_reqs_ s)) -> (n < length (ht_entries (pending_rd_reqs_ s)))%nat ->
  forall s', pending_rd_reqs_ s' = table -> live s' t = if t =? Z.of_nat n then v else live s t.
Proof.
  intros He Hn s' Hs'. unfold live, ht_at. rewrite Hs', He. destruct (Z.eqb_spec t (Z.of_nat n)) as [->|Hne].
  - rewrite (proj2 (Z.leb_le _ _)) by lia. rewrite Nat2Z.id, list_lookup_insert_eq by done. done.
  - destruct (Z.leb_spec 0 t); [|done]. rewrite list_lookup_insert_ne by lia. done.
Qed.

Definition upd_tag (g : Z -> nat) (n : nat) (k : nat) : Z -> nat := fun t => if t =? Z.of_nat n then k else g t.

Definition entry_waits (k i : nat) (v : option pending_req_t) (kn : nat) : nat :=
  match v with Some e => Nat.b2n ((kn =? k)%nat && test (pr_mask e) i) | None => 0 end.

Lemma times_waiting_update s s' g g' n v v' k i : ht_entries (pending_rd_reqs_ s) !! n = Some v ->
  ht_entries (pending_rd_reqs_ s') = <[n := v']> (ht_entries (pending_rd_reqs_ s)) -> (forall m, m <> n -> g' (Z.of_nat m) = g (Z.of_nat m)) ->
  (times_waiting s' g' k i + entry_waits k i v (g (Z.of_nat n)) = times_waiting s g k i + entry_waits k i v' (g' (Z.of_nat n)))%nat.
Proof.
  intros Hv He Hg. assert (Hn : (n < length (ht_entries (pending_rd_reqs_ s)))%nat) by (by eapply lookup_lt_Some).
  pose proof (count_update (tag_waits s g k i) (tag_waits s' g' k i) _ n Hn) as Hcu. unfold times_waiting. rewrite He, length_insert.
  assert (E : Nat.b2n (tag_waits s g k i n) = entry_waits k i v (g (Z.of_nat n))) by (unfold tag_waits, entry_waits; rewrite Hv; by destruct v).
  assert (E' : Nat.b2n (tag_waits s' g' k i n) = entry_waits k i v' (g' (Z.of_nat n))).
  { unfold tag_waits, entry_waits. rewrite He, list_lookup_insert_eq by done. by destruct v'. }
  rewrite <- E, <- E'. apply Hcu. intros m Hm. unfold tag_waits. by rewrite He, list_lookup_insert_ne, Hg by done.
Qed.

Lemma step_built_rsp w base g ks q qs misses n table : let s := cw_co w in let cur := rd_cur_mask (build_round c (sent_mask_ s) q) in
  cinv c am hc w base g ks -> or_valid (out_round_ s) = false -> ch_q (co_ReqIn s) = q :: qs -> req_ok c q -> cw_hist w !! base = Some q ->
  needs_rsp (lq_op q) = true -> ht_ok table -> ht_entries (pending_rd_reqs_ s) !! n = Some None ->
  ht_entries table = <[n := Some {| pr_tag := lq_tag q; pr_mask := cur |}]> (ht_entries (pending_rd_reqs_ s)) -> any cur = true ->
  cinv c am hc (with_co w (built s q (Z.of_nat n) table misses)) base (upd_tag g n base) ks.
Proof.
  intros s cur I Hv Hq Hok Hb Hn Htab Hfree Hent Hany. pose proof I as [[S1 S2 S3 S4 S5] R Qd Hd St En It An On]. fold s in S1, S2, S3, S4, S5.
  pose proof (build_round_inv c (sent_mask_ s) q (proj1 Hok)) as RI.
  assert (Hc : covered s = sent_mask_ s) by (unfold covered; by rewrite Hv).
  unfold head_ok in Hd. fold s in Hd. rewrite Hq, Hc in Hd.
  assert (Hnl : (n < length (ht_entries (pending_rd_reqs_ s)))%nat) by (by eapply lookup_lt_Some).
  set (s' := built s q (Z.of_nat n) table misses).
  assert (Hlive : forall t, live s' t = if t =? Z.of_nat n then Some {| pr_tag := lq_tag q; pr_mask := cur |} else live s t)
    by (intros t; by apply (live_insert s table n _ t Hent Hnl s')).
  unfold with_co. constructor; try done; wproj.
  - constructor; try done. intros _. unfold s', built; wproj. rewrite length_map, length_seq. split_and!; [apply RI|done|apply RI].
  - unfold head_ok. change (co_ReqIn s') with (co_ReqIn s). rewrite Hq. split; [|done]. apply sent_next; [apply Hok|apply Hd].
  - intros o Ho. by apply (built_stream w base g ks q qs (Z.of_nat n) table misses o I Hv Hq Hok Hb Ho).
  - intros m e Hm. change (pending_rd_reqs_ s') with table in Hm. rewrite Hent in Hm. unfold entry_ok, upd_tag.
    destruct (decide (m = n)) as [->|Hne].
    + rewrite list_lookup_insert_eq in Hm by done. injection Hm as <-. rewrite Z.eqb_refl. exists q. split_and!; try done. apply RI.
    + rewrite list_lookup_insert_ne in Hm by done. rewrite (proj2 (Z.eqb_neq _ _)) by lia. by apply En.
  - intros o t Ho. specialize (It o t Ho). fold s in It. unfold with_co. wproj. unfold s' at 1. rewrite built_outq by (done || apply Hok). unfold round_stage.
    change (rsps {| cw_co := s'; cw_hist := cw_hist w; cw_served := cw_served w; cw_fly := cw_fly w; cw_log := cw_log w |} o) with (rsps w o).
    unfold tag_lanes in *. rewrite Hlive. unfold upd_tag. destruct (Z.eqb_spec t (Z.of_nat n)) as [->|Hne].
    + cbn [pr_mask]. unfold cur. rewrite group_lanes_cur by (done || apply Hok). unfold live, ht_at in It. rewrite (proj2 (Z.leb_le 0 (Z.of_nat n))), Nat2Z.id, Hfree in It by lia. cbn in It.
      case_bool_decide as Ht.
      * rewrite app_nil_r, (proj2 (first_lanes_nil _ _ _) Ht). exact It.
      * eapply (tag_item_new _ _ _ _ _ _ _ O); [done|done|by rewrite first_lanes_nil| |exact It].
        by apply (built_stream w base g ks q qs (Z.of_nat n) table misses o I Hv Hq Hok Hb Ho).
    + case_bool_decide; [by rewrite app_nil_r|]. apply tag_item_other; [|exact It]. cbn. intros [_ ?]. congruence.
  - intros k q' i Hk Hn'. rewrite <- (On k q' i Hk Hn'). fold s. rewrite Hc.
    pose proof (times_waiting_update s s' g (upd_tag g n base) n None _ k i Hfree Hent) as Hw.
    specialize (Hw ltac:(intros m Hm; unfold upd_tag; by rewrite (proj2 (Z.eqb_neq _ _)) by lia)).
    assert (Hg : upd_tag g n base (Z.of_nat n) = base) by (unfold upd_tag; by rewrite Z.eqb_refl). rewrite Hg in Hw. cbn [entry_waits pr_mask] in Hw.
    change (covered s') with (bv_or (sent_mask_ s) cur). change (co_RspOut s') with (co_RspOut s). unfold times_ahead. rewrite (Nat.eqb_sym base k) in Hw. destruct (Nat.ltb_spec k base) as [Hlt|Hge].
    + rewrite (proj2 (Nat.eqb_neq k base)) in Hw by lia. cbn in Hw. lia.
    + destruct (Nat.eqb_spec k base) as [->|]; [|cbn in Hw; lia]. rewrite Hb in Hk. injection Hk as <-.
      pose proof (cur_split (sent_mask_ s) q i (proj1 Hok) S3) as Hcs. cbv zeta in Hcs. fold cur in Hcs. cbn [andb Nat.b2n] in Hw. lia.
Qed.

Lemma with_co_self w : with_co w (cw_co w) = w.
Proof. by destruct w. Qed.

Lemma queue_head w base g ks q qs : cinv c am hc w base g ks -> ch_q (co_ReqIn (cw_co w)) = q :: qs -> cw_hist w !! base = Some q /\ req_ok c q.
Proof.
  intros I Hq. destruct (ci_queue _ _ _ _ _ _ _ I) as [Qd _]. rewrite Hq in Qd.
  assert (Hb : cw_hist w !! base = Some q) by (rewrite <- (Nat.add_0_r base), <- lookup_drop, Qd; done). split; [done|].
  pose proof (ci_reqs _ _ _ _ _ _ _ I) as R. rewrite list.Forall_forall in R. apply R. by eapply list_elem_of_lookup_2.
Qed.

Lemma co_step_request w base g ks : cinv c am hc w base g ks -> or_valid (out_round_ (cw_co w)) = false ->
  exists s' g', co_request c am hc (cw_co w) = Some s' /\ cinv c am hc (with_co w s') base g' ks.
Proof using Hz.
  intros I Hv. set (s := cw_co w). assert (Hself : exists s' g', Some s = Some s' /\ cinv c am hc (with_co w s') base g' ks).
  { exists s, g. split; [done|]. unfold s. by rewrite with_co_self. }
  unfold co_request. destruct (ch_q (co_ReqIn s)) as [|q qs] eqn:Hq; [exact Hself|].
  destruct (queue_head w base g ks q qs I Hq) as [Hb Hok]. pose proof Hok as [Hm Ha]. rewrite Hm, Nat.eqb_refl. unfold bv_none at 1. rewrite Ha. cbn [negb orb].
  destruct (ht_full (pending_rd_reqs_ s)) eqn:Hfull; [exact Hself|]. set (rd := build_round c (sent_mask_ s) q).
  pose proof (build_round_inv c (sent_mask_ s) q Hm) as RI. fold rd in RI.
  pose proof (ci_head _ _ _ _ _ _ _ I) as Hd. unfold head_ok in Hd. fold s in Hd. rewrite Hq in Hd. unfold covered in Hd. fold s in Hv. rewrite Hv in Hd. destruct Hd as [Hs Hne].
  assert (Hout : bv_none (rd_out_mask rd) = false).
  { apply not_true_is_false. intros Hno. rewrite bv_none_spec in Hno. apply (Hne eq_refl), (all_sent c (sent_mask_ s) q Hz Hm Hs). intros o Ho.
    pose proof (build_round_spec c am hc (sent_mask_ s) q 0 o Hm Ho) as [Ho' _]. fold rd in Ho'. rewrite Hno in Ho'. symmetry in Ho'. apply negb_false_iff, bool_decide_eq_true in Ho'. done. }
  rewrite Hout. fold (needs_rsp (lq_op q)). unfold lq_is_write, lq_is_amo. change (negb (memop_is_write (lq_op q)) || memop_is_atomic (lq_op q)) with (needs_rsp (lq_op q)).
  destruct (needs_rsp (lq_op q)) eqn:Hn.
  - destruct (ht_allocate_ok (pending_rd_reqs_ s) {| pr_tag := lq_tag q; pr_mask := rd_cur_mask rd |} (sh_table _ _ (ci_shape _ _ _ _ _ _ _ I)) Hfull)
      as (n & table & -> & Htab & Hfree & Hent). cbn [mbind option_bind].
    eexists _, (upd_tag g n base). split; [reflexivity|]. eapply (step_built_rsp w base g ks q qs _ n table); try done.
    apply any_spec. apply bv_none_false in Hout as [o Ho]. assert (Hlt : (o < output_size_ c)%nat) by (rewrite <- (ri_mask _ _ _ _ _ RI); by apply test_lt).
    pose proof (build_round_spec c am hc (sent_mask_ s) q 0 o Hm Hlt) as [Ho' _]. fold rd in Ho'. rewrite Ho in Ho'. symmetry in Ho'. apply negb_true_iff, bool_decide_eq_false in Ho'.
    destruct (first_lanes c (sent_mask_ s) q o) as [|i L] eqn:EL; [by apply first_lanes_nil in EL|]. exists i. apply (ri_lanes _ _ _ _ _ RI). exists o. rewrite EL. split; [done|by left].
  - cbn [mbind option_bind]. eexists _, g. split; [reflexivity|]. by apply (step_built w base g ks q qs).
Qed.

(** ** A response is merged *)

Lemma test_mask_seq f n i : test (map f (seq 0 n)) i = (i <? n)%nat && f i.
Proof.
  unfold test. destruct (Nat.ltb_spec i n).
  - by rewrite list_lookup_fmap, lookup_seq_lt by done.
  - by rewrite list_lookup_fmap, lookup_seq_ge by done.
Qed.

Lemma first_port_spec {A} n (chs : list (chan A)) o : first_port n chs = Some o ->
  (o < n)%nat /\ (exists r, port_head chs o = Some r) /\ forall j, (j < o)%nat -> port_head chs j = None.
Proof.
  unfold first_port. intros H. pose proof (find_seq_filter (fun j => match port_head chs j with Some _ => true | None => false end) 0 n) as Hf.
  rewrite H in Hf. destruct Hf as [Ho Hfil]. apply find_some in H as [_ H]. split; [lia|]. split; [destruct (port_head chs o); [eauto|done]|].
  intros j Hj. destruct (port_head chs j) as [x|] eqn:E; [|done]. exfalso.
  assert (Hin : j ∈ filter (fun j => (match port_head chs j with Some _ => true | None => false end) = true) (seq 0 n)).
  { apply list_elem_of_filter. rewrite E, elem_of_seq. split; [done|lia]. }
  rewrite Hfil in Hin. apply elem_of_cons in Hin as [->|[_ Hin%elem_of_seq]%list_elem_of_filter]; lia.
Qed.

(** The ports whose first response carries the tag. *)
Lemma tag_ports_spec n chs o tag j : first_port n chs = Some o ->
  test (tag_ports n chs o tag) j = true <-> (j < n)%nat /\ exists r, port_head chs j = Some r /\ rs_tag r = tag.
Proof.
  intros (_ & _ & Hlow)%first_port_spec. unfold tag_ports. rewrite test_mask_seq, !andb_true_iff, Nat.ltb_lt, Nat.leb_le. split.
  - intros (? & ? & H). split; [done|]. destruct (port_head chs j) as [r|]; [|done]. apply Z.eqb_eq in H. eauto.
  - intros (? & r & Hr & <-). split; [done|]. split; [|by rewrite Hr, Z.eqb_refl]. destruct (decide (o <= j)%nat); [done|].
    rewrite Hlow in Hr by lia. done.
Qed.

Lemma pop_ports_q {A} ports (chs : list (chan A)) j : port_q (pop_ports ports chs) j = if test ports j then tail (port_q chs j) else port_q chs j.
Proof. unfold port_q, pop_ports. rewrite list_lookup_imap. destruct (chs !! j); cbn; by destruct (test ports j). Qed.

Lemma times_answered_snoc rs ks r kr k i : length rs = length ks ->
  times_answered (rs ++ [r]) (ks ++ [kr]) k i = (times_answered rs ks k i + Nat.b2n ((kr =? k)%nat && test (lr_mask r) i))%nat.
Proof.
  intros Hl. unfold times_answered. rewrite zip_with_app, list.filter_app, length_app by done. f_equal. cbn [zip zip_with]. rewrite filter_cons. cbn [fst snd].
  case_decide as H; [destruct H as [-> ->]; by rewrite Nat.eqb_refl|]. destruct (Nat.eqb_spec kr k), (test (lr_mask r) i); try done. tauto.
Qed.

(** The packets at a port whose first response is [r]. *)
Lemma rsps_head w j r : port_head (co_RspIn (cw_co w)) j = Some r ->
  rsps w j ≡ₚ r :: (at_port j (cw_fly w) ++ tail (port_q (co_RspIn (cw_co w)) j)).
Proof.
  rewrite port_head_q. intros H. unfold rsps. destruct (port_q _ j) as [|x l]; [done|]. injection H as ->. cbn [tail]. by rewrite Permutation_middle.
Qed.

(** The tag of a response at a port is one the table holds. *)
Lemma rsp_live w base g ks o r : cinv c am hc w base g ks -> (o < output_size_ c)%nat -> port_head (co_RspIn (cw_co w)) o = Some r ->
  exists n e, rs_tag r = Z.of_nat n /\ ht_entries (pending_rd_reqs_ (cw_co w)) !! n = Some (Some e).
Proof.
  intros I Ho Hr. pose proof (ci_items _ _ _ _ _ _ _ I o (rs_tag r) Ho) as Hi.
  destruct (tag_item_answered _ _ _ _ r _ _ _ _ (rsps_head w o r Hr) eq_refl Hi) as (HL & _ & _). unfold tag_lanes, live in HL.
  destruct (Z.leb_spec 0 (rs_tag r)); [|done]. unfold ht_at in HL. destruct (ht_entries _ !! _) as [[e|]|] eqn:E; [|done..].
  exists (Z.to_nat (rs_tag r)), e. split; [lia|done].
Qed.

Lemma rsp_mask_spec e ports i : length (pr_mask e) = input_size_ c ->
  test (rsp_mask_of c e ports) i = test ports (group_of c i) && test (pr_mask e) i.
Proof.
  intros Hl. unfold rsp_mask_of. rewrite test_mask_seq. destruct (Nat.ltb_spec i (input_size_ c)); [done|]. cbn. symmetry.
  rewrite (test_ge (pr_mask e)) by lia. apply andb_false_r.
Qed.

(** The lanes that still wait after the answers at [ports]. *)
Lemma group_lanes_left e ports j : length (pr_mask e) = input_size_ c ->
  group_lanes c (bv_andn (pr_mask e) (rsp_mask_of c e ports)) j = if test ports j then [] else group_lanes c (pr_mask e) j.
Proof.
  intros Hl. assert (Hl' : length (pr_mask e) = length (rsp_mask_of c e ports)) by (unfold rsp_mask_of; by rewrite length_map, length_seq).
  rewrite group_lanes_andn by done. destruct (test ports j) eqn:Hp; [apply filter_none|apply filter_all];
    intros i [Hi Hr]%group_lanes_spec; rewrite rsp_mask_spec, (group_of_lane c j i Hr), Hp, Hi by done; done.
Qed.

Lemma entry_left e ports i : length (pr_mask e) = input_size_ c ->
  (Nat.b2n (test (rsp_mask_of c e ports) i) + Nat.b2n (test (bv_andn (pr_mask e) (rsp_mask_of c e ports)) i) = Nat.b2n (test (pr_mask e) i))%nat.
Proof.
  intros Hl. rewrite test_bv_andn by (unfold rsp_mask_of; by rewrite length_map, length_seq). rewrite rsp_mask_spec by done.
  by destruct (test ports (group_of c i)), (test (pr_mask e) i).
Qed.

(** The table after the answers: the entry is released with its last lane. *)
Lemma answered_table s n e rsp_mask : ht_ok (pending_rd_reqs_ s) -> ht_entries (pending_rd_reqs_ s) !! n = Some (Some e) ->
  let e' := e <| pr_mask := bv_andn (pr_mask e) rsp_mask |> in
  exists table, (if bv_none (pr_mask e') then ht_release (pending_rd_reqs_ s) (Z.of_nat n) else Some (ht_put (pending_rd_reqs_ s) (Z.of_nat n) e')) = Some table /\
  ht_ok table /\ ht_entries table = <[n := if bv_none (pr_mask e') then None else Some e']> (ht_entries (pending_rd_reqs_ s)).
Proof.
  intros Hok Hn e'. destruct (bv_none (pr_mask e')).
  - destruct (ht_release_ok _ n e Hok Hn) as (t & -> & ? & ?). eauto.
  - eexists. split; [reflexivity|]. split; [by eapply ht_put_ok|]. unfold ht_put. cbv [set const]. cbn [ht_entries]. by rewrite Nat2Z.id.
Qed.

(** The state after the answers of tag [n] at [ports] are merged. *)
Definition answered (s : MemCoalescer) table ports out_rsp : MemCoalescer :=
  {| co_ReqIn := co_ReqIn s; co_RspOut := ch_push (co_RspOut s) out_rsp; co_ReqOut := co_ReqOut s; co_RspIn := pop_ports ports (co_RspIn s);
     pending_rd_reqs_ := table; sent_mask_ := sent_mask_ s; out_round_ := out_round_ s; co_misses := co_misses s |}.

Lemma step_answered w base g ks o n e table out_rsp : let s := cw_co w in
  let ports := tag_ports (output_size_ c) (co_RspIn s) o (Z.of_nat n) in
  let rsp_mask := rsp_mask_of c e ports in
  let mask' := bv_andn (pr_mask e) rsp_mask in
  cinv c am hc w base g ks -> first_port (output_size_ c) (co_RspIn s) = Some o -> ht_entries (pending_rd_reqs_ s) !! n = Some (Some e) ->
  ht_ok table -> ht_entries table = <[n := if bv_none mask' then None else Some {| pr_tag := pr_tag e; pr_mask := mask' |}]> (ht_entries (pending_rd_reqs_ s)) ->
  lr_mask out_rsp = rsp_mask -> lr_tag out_rsp = pr_tag e -> lr_data out_rsp = rsp_data_of c s rsp_mask ->
  cinv c am hc (with_co w (answered s table ports out_rsp)) base g (ks ++ [g (Z.of_nat n)]).
Proof using Hz.
  intros s ports rsp_mask mask' I Hfp Hn Htab Hent Om Ot Od. pose proof I as [[S1 S2 S3 S4 S5] R Qd Hd St En It An On]. fold s in S1, S2, S3, S4, S5, It, En.
  destruct (En n e Hn) as (q & Hq & Htag & Hneed & Hlen & Hany).
  assert (Hports : forall j, test ports j = true <-> (j < output_size_ c)%nat /\ exists r, port_head (co_RspIn s) j = Some r /\ rs_tag r = Z.of_nat n) by (intros j; by apply tag_ports_spec).
  assert (Hnl : (n < length (ht_entries (pending_rd_reqs_ s)))%nat) by (by eapply lookup_lt_Some).
  set (s' := answered s table ports out_rsp).
  assert (Hlen' : length mask' = input_size_ c) by (unfold mask'; rewrite length_bv_andn; [done|]; unfold rsp_mask, rsp_mask_of; by rewrite length_map, length_seq).
  assert (Hlive : forall t, live s' t = if t =? Z.of_nat n then (if bv_none mask' then None else Some {| pr_tag := pr_tag e; pr_mask := mask' |}) else live s t)
    by (intros t; by apply (live_insert s table n _ t Hent Hnl s')).
  assert (Hlanes : forall t j, tag_lanes c s' t j = if (t =? Z.of_nat n) && test ports j then [] else tag_lanes c s t j).
  { intros t j. unfold tag_lanes. rewrite Hlive. destruct (Z.eqb_spec t (Z.of_nat n)) as [->|]; [|done]. cbn [andb].
    unfold live. rewrite (proj2 (Z.leb_le 0 _)), ht_at_nat, Hn by lia. cbn [mbind option_bind id]. pose proof (group_lanes_left e ports j Hlen) as HG.
    rewrite <- HG. fold rsp_mask mask'. destruct (bv_none mask') eqn:E; [|done]. symmetry. apply filter_none. intros i _. by rewrite (proj1 (bv_none_spec mask') E). }
  assert (Hrs : forall j, rsps (with_co w s') j = at_port j (cw_fly w) ++ (if test ports j then tail (port_q (co_RspIn s) j) else port_q (co_RspIn s) j)).
  { intros j. unfold rsps, with_co. wproj. unfold s', answered. wproj. by rewrite pop_ports_q. }
  assert (Hlive0 : forall j, tag_lanes c s (Z.of_nat n) j = group_lanes c (pr_mask e) j).
  { intros j. unfold tag_lanes, live. rewrite (proj2 (Z.leb_le 0 _)), ht_at_nat, Hn by lia. done. }
  constructor; try done.
  - constructor; try done. unfold with_co, s', answered. wproj. unfold pop_ports. by rewrite length_imap.
  - intros m e' Hm. unfold with_co in Hm. cbn [cw_co] in Hm. change (pending_rd_reqs_ s') with table in Hm. rewrite Hent in Hm. destruct (decide (m = n)) as [->|Hne].
    + rewrite list_lookup_insert_eq in Hm by done. destruct (bv_none mask') eqn:E; [done|]. injection Hm as <-. exists q. split_and!; try done.
      apply bv_none_false, any_spec in E. done.
    + rewrite list_lookup_insert_ne in Hm by done. by apply En.
  - intros j t Hj. specialize (It j t Hj). rewrite Hrs. change (outq (cw_co (with_co w s')) j) with (outq s j). change (tag_lanes c (cw_co (with_co w s')) t j) with (tag_lanes c s' t j).
    rewrite Hlanes. destruct (test ports j) eqn:Hp; [|by rewrite andb_false_r].
    apply Hports in Hp as (_ & r & Hr & Ht). pose proof (rsps_head w j r Hr) as HP. fold s in HP. rewrite andb_true_r. destruct (Z.eqb_spec t (Z.of_nat n)) as [->|Hne].
    + by destruct (tag_item_answered _ _ _ _ r _ _ _ _ HP Ht It) as (_ & _ & Hi).
    + eapply tag_item_pop_other; [exact HP|congruence|exact It].
  - unfold with_co, s', answered. wproj. rewrite app_assoc. apply Forall2_app.
    { eapply Forall2_impl_in; [|exact An]. intros r k. apply (answers_mono w _ r k [] []); by rewrite app_nil_r. }
    constructor; [|constructor]. exists q. wproj. split_and!; [done|done|congruence|]. intros i Hi. rewrite Om in Hi. unfold rsp_mask in Hi.
    rewrite rsp_mask_spec in Hi by done. apply andb_true_iff in Hi as [Hp Hi].
    assert (Hil : (i < input_size_ c)%nat) by (rewrite <- Hlen; by apply test_lt). destruct (lane_group c i Hz Hil) as (j & Hj & Hrange & Hg). rewrite Hg in Hp.
    pose proof Hp as Hp'. apply Hports in Hp' as (_ & r & Hr & Ht). pose proof (rsps_head w j r Hr) as HP.
    destruct (tag_item_answered _ _ _ _ r _ _ _ _ HP Ht (It j (Z.of_nat n) Hj)) as (_ & (p & mr & d & Hsv & Hst & Hd') & _). rewrite Hlive0 in Hst.
    exists j, p, mr, d, (group_lanes c (pr_mask e) j). split_and!; [done|done|by apply group_lanes_spec|]. rewrite Od. unfold rsp_data_of.
    rewrite list_lookup_fmap, lookup_seq_lt by done. cbn. f_equal. unfold rsp_mask. rewrite rsp_mask_spec, Hg, Hp, Hi by done. cbn. rewrite Hr. done.
  - intros k q' i Hk Hn'. specialize (On k q' i Hk Hn'). fold s in On. rewrite <- On. change (covered (cw_co (with_co w s'))) with (covered s).
    change (cw_log (with_co w s') ++ ch_q (co_RspOut (cw_co (with_co w s')))) with (cw_log w ++ (ch_q (co_RspOut s) ++ [out_rsp])).
    rewrite app_assoc, times_answered_snoc by (by eapply Forall2_length). change (cw_co (with_co w s')) with s'.
    pose proof (times_waiting_update s s' g g n (Some e) _ k i Hn Hent ltac:(done)) as Hw. pose proof (entry_left e ports i Hlen) as He. fold rsp_mask mask' in He. rewrite Om.
    assert (Hv : entry_waits k i (if bv_none mask' then None else Some {| pr_tag := pr_tag e; pr_mask := mask' |}) (g (Z.of_nat n)) = Nat.b2n ((g (Z.of_nat n) =? k)%nat && test mask' i)).
    { destruct (bv_none mask') eqn:E; [|done]. cbn. by rewrite (proj1 (bv_none_spec mask') E), andb_false_r. }
    rewrite Hv in Hw. cbn [entry_waits] in Hw. destruct (g (Z.of_nat n) =? k)%nat; cbn [andb Nat.b2n] in Hw |- *; lia.
Qed.

Lemma co_step_response w base g ks : cinv c am hc w base g ks ->
  exists s' ks', co_response c (cw_co w) = Some s' /\ cinv c am hc (with_co w s') base g ks'.
Proof using Hz.
  intros I. set (s := cw_co w). assert (Hself : exists s' ks', Some s = Some s' /\ cinv c am hc (with_co w s') base g ks').
  { exists s, ks. split; [done|]. unfold s. by rewrite with_co_self. }
  unfold co_response. destruct (first_port _ _) as [o|] eqn:Hfp; [|exact Hself]. destruct (ch_full (co_RspOut s)); [exact Hself|].
  destruct (first_port_spec _ _ _ Hfp) as (Ho & (r & Hr) & _). rewrite Hr. cbn [mbind option_bind].
  destruct (rsp_live w base g ks o r I Ho Hr) as (n & e & Ht & Hn). fold s in Hn. rewrite Ht, ht_at_nat, Hn. cbn [mbind option_bind id].
  destruct (ci_entries _ _ _ _ _ _ _ I n e Hn) as (q & _ & _ & _ & _ & Hany). unfold bv_none at 1. rewrite Hany. cbn [negb].
  destruct (answered_table s n e (rsp_mask_of c e (tag_ports (output_size_ c) (co_RspIn s) o (Z.of_nat n))) (sh_table _ _ (ci_shape _ _ _ _ _ _ _ I)) Hn) as (table & -> & Htab & Hent).
  cbn [mbind option_bind]. eexists _, _. split; [reflexivity|]. eapply (step_answered w base g ks o n e table); done.
Qed.

(** ** Any event *)

Lemma co_step_tick w base g ks : cinv c am hc w base g ks ->
  exists s' base' g' ks', co_on_tick c am hc (cw_co w) = Some s' /\ cinv c am hc (with_co w s') base' g' ks'.
Proof using Hz.
  intros I. unfold co_on_tick. destruct (co_step_response w base g ks I) as (s1 & ks1 & -> & I1). cbn [mbind option_bind].
  destruct (or_valid (out_round_ s1)) eqn:Hv.
  - destruct (step_flush (with_co w s1) base g ks1 I1 Hv) as (s2 & b2 & H2 & I2). by exists s2, b2, g, ks1.
  - destruct (co_step_request (with_co w s1) base g ks1 I1 Hv) as (s2 & g2 & H2 & I2). by exists s2, base, g2, ks1.
Qed.

Definition event_ok (ev : cevent) : Prop := match ev with CReq q => req_ok c q | _ => True end.

Lemma step_event w base g ks ev : cinv c am hc w base g ks -> event_ok ev ->
  exists w' base' g' ks', cworld_step c am hc w ev = Some w' /\ cinv c am hc w' base' g' ks'.
Proof using Hz.
  intros I Hev. assert (Hself : exists w' base' g' ks', Some w = Some w' /\ cinv c am hc w' base' g' ks') by eauto 10.
  destruct ev as [q|o d|n| |]; cbn [cworld_step].
  - destruct (ch_full _); [exact Hself|]. eexists _, _, _, _. split; [reflexivity|]. by apply step_req.
  - destruct (co_ReqOut _ !! o) as [ch|] eqn:Hch; [|exact Hself]. destruct (ch_q ch) as [|r l] eqn:Hl; [exact Hself|].
    eexists _, _, _, _. split; [reflexivity|]. by eapply step_serve.
  - destruct (cw_fly w !! n) as [[o r]|] eqn:Hf; [|exact Hself]. destruct (co_RspIn _ !! o) as [ch|] eqn:Hch; [|exact Hself].
    destruct (ch_full ch); [exact Hself|]. eexists _, _, _, _. split; [reflexivity|]. by eapply step_reply.
  - destruct (co_step_tick w base g ks I) as (s' & b' & g' & ks' & -> & I'). cbn [mbind option_bind]. by exists (with_co w s'), b', g', ks'.
  - destruct (ch_q (co_RspOut (cw_co w))) as [|r l] eqn:Hl; [exact Hself|]. eexists _, _, _, _. split; [reflexivity|]. by eapply step_rsp.
Qed.

Lemma port_q_replicate {A} n cap o : port_q (replicate n (ch_init (A := A) cap)) o = [].
Proof. unfold port_q. destruct (_ !! o) as [ch|] eqn:E; [|done]. apply lookup_replicate in E as [-> _]. done. Qed.

Lemma replicate_entry {T} n m (e : T) : replicate n None !! m = Some (Some e) -> False.
Proof. intros [? _]%lookup_replicate. done. Qed.

Lemma cinv_init cap : cinv c am hc (cworld_init c cap) 0 (fun _ => O) [].
Proof.
  constructor; try done.
  - constructor; cbn; unfold zeros; rewrite ?length_replicate; try done. apply ht_init_ok.
  - intros o Ho. exists []. split; [done|]. unfold outq, stage. cbn [cworld_init cw_co MemCoalescer_init co_ReqOut]. rewrite port_q_replicate. constructor.
  - intros n e Hn. by apply replicate_entry in Hn.
  - intros o t Ho. assert (HL : tag_lanes c (cw_co (cworld_init c cap)) t o = []).
    { unfold tag_lanes, live. destruct (0 <=? t); [|done]. unfold ht_at. cbn. destruct (replicate _ _ !! _) as [[e|]|] eqn:E; [|done..].
      by apply replicate_entry in E. }
    rewrite HL. unfold outq, stage, rsps. cbn [cworld_init cw_co cw_fly MemCoalescer_init co_ReqOut co_RspIn]. rewrite !port_q_replicate. done.
Qed.

Lemma run_cinv w base g ks evs : cinv c am hc w base g ks -> Forall event_ok evs ->
  exists w' base' g' ks', cworld_run c am hc w evs = Some w' /\ cinv c am hc w' base' g' ks'.
Proof using Hz.
  unfold cworld_run. revert w base g ks. induction evs as [|ev evs IH]; intros w base g ks I Hev; [by exists w, base, g, ks|].
  apply list.Forall_cons in Hev as [Hev Hevs]. destruct (step_event w base g ks ev I Hev) as (w' & b' & g' & ks' & E & I').
  cbn [fold_left]. cbn [mbind option_bind]. rewrite E. by eapply IH.
Qed.

(** Nothing is on its way. *)
Record quiet (w : cworld) : Prop := {
  qt_in : ch_q (co_ReqIn (cw_co w)) = [];
  qt_rsp : ch_q (co_RspOut (cw_co w)) = [];
  qt_ports : forall o, port_q (co_ReqOut (cw_co w)) o = [] /\ port_q (co_RspIn (cw_co w)) o = [];
  qt_fly : cw_fly w = []
}.

Lemma quiet_outq w base g ks o : cinv c am hc w base g ks -> quiet w -> outq (cw_co w) o = [] /\ rsps w o = [].
Proof.
  intros I [Q1 Q2 Q3 Q4]. unfold outq, rsps. destruct (Q3 o) as [-> ->]. rewrite Q4.
  pose proof (ci_head _ _ _ _ _ _ _ I) as Hd. unfold head_ok in Hd. rewrite Q1 in Hd. destruct Hd as [_ Hv]. unfold stage. by rewrite Hv.
Qed.

Lemma quiet_waiting w base g ks k i : cinv c am hc w base g ks -> quiet w -> times_waiting (cw_co w) g k i = 0%nat.
Proof using Hz.
  intros I Q. unfold times_waiting. rewrite filter_none; [done|]. intros n _ (e & Hn & _ & Hi)%tag_waits_spec.
  destruct (ci_entries _ _ _ _ _ _ _ I n e Hn) as (q & _ & _ & _ & Hlen & _). assert (Hil : (i < input_size_ c)%nat) by (rewrite <- Hlen; by apply test_lt).
  destruct (lane_group c i Hz Hil) as (j & Hj & Hr & _). pose proof (ci_items _ _ _ _ _ _ _ I j (Z.of_nat n) Hj) as It.
  destruct (quiet_outq w base g ks j I Q) as [Ho Hs]. rewrite Ho, Hs in It. unfold tag_lanes, live in It. rewrite (proj2 (Z.leb_le 0 _)), ht_at_nat, Hn in It by lia.
  cbn [mbind option_bind id] in It. unfold tag_item in It. cbn in It. rewrite bool_decide_false in It.
  - destruct It as [(_ & p & r & [=] & _)|(_ & r & p & mr & d & [=] & _)].
  - intros E. assert (Hin : i ∈ group_lanes c (pr_mask e) j) by (by apply group_lanes_spec). rewrite E in Hin. by apply elem_of_nil in Hin.
Qed.

(** C37 (refinement): the ports of the coalescer refine the stream of lane sets.
    Whatever requests arrive, whatever the memory answers and in whatever
    order the ports move, no assertion of the coalescer fails, and every port
    has sent the requests of the lane sets its group is asked for, each set
    merged, in the order of the requests and of the sets, none twice and none
    left out; nothing is left to send once the ports are empty. *)
Theorem co_ports_refine cap evs : Forall event_ok evs ->
  exists w, cworld_run c am hc (cworld_init c cap) evs = Some w /\
  forall o, (o < output_size_ c)%nat -> exists sent rest, port_stream c (cw_hist w) o = sent ++ rest /\
    Forall2 (matches c am hc (cw_hist w)) (map fst (at_port o (cw_served w))) sent /\ (quiet w -> rest = []).
Proof using Hz.
  intros Hev. destruct (run_cinv _ _ _ _ evs (cinv_init cap) Hev) as (w & base & g & ks & Hrun & I). exists w. split; [exact Hrun|]. intros o Ho.
  destruct (ci_stream _ _ _ _ _ _ _ I o Ho) as (Q & HQ & HF). apply Forall2_app_inv_l in HF as (Q1 & Q2 & HF1 & HF2 & ->).
  exists Q1, (Q2 ++ rest_of c base (covered (cw_co w)) (ch_q (co_ReqIn (cw_co w))) o). rewrite HQ, app_assoc. split_and!; [done|done|].
  intros Hq. destruct (quiet_outq w base g ks o I Hq) as [Ho' _]. rewrite Ho' in HF2. invc HF2. by rewrite (qt_in _ Hq).
Qed.

(** C8 (safety): every lane is answered once, with its own data.  In any run,
    every response the load/store unit takes belongs to a request that waits
    for one, carries its tag, and gives each of its lanes the data read by
    the one request of the lane's port that carried the lane; no lane of a
    request is answered twice; and once nothing is on its way every active
    lane of every load and atomic operation has been answered exactly once. *)
Theorem co_lanes_once cap evs : Forall event_ok evs ->
  exists w ks, cworld_run c am hc (cworld_init c cap) evs = Some w /\ Forall2 (answers c w) (cw_log w) ks /\
  forall k q i, cw_hist w !! k = Some q -> needs_rsp (lq_op q) = true ->
    (times_answered (cw_log w) ks k i <= Nat.b2n (test (lq_mask q) i))%nat /\
    (quiet w -> times_answered (cw_log w) ks k i = Nat.b2n (test (lq_mask q) i)).
Proof using Hz.
  intros Hev. destruct (run_cinv _ _ _ _ evs (cinv_init cap) Hev) as (w & base & g & ks & Hrun & I). pose proof (ci_answers _ _ _ _ _ _ _ I) as An.
  pose proof An as An'. apply Forall2_app_inv_l in An as (ks1 & ks2 & A1 & A2 & ->). exists w, ks1. split; [exact Hrun|]. split; [exact A1|]. intros k q i Hk Hn.
  pose proof (ci_once _ _ _ _ _ _ _ I k q i Hk Hn) as On.
  assert (Happ : times_answered (cw_log w ++ ch_q (co_RspOut (cw_co w))) (ks1 ++ ks2) k i =
    (times_answered (cw_log w) ks1 k i + times_answered (ch_q (co_RspOut (cw_co w))) ks2 k i)%nat).
  { unfold times_answered. rewrite zip_with_app, list.filter_app, length_app by (by eapply Forall2_length). done. }
  rewrite Happ in On. split; [lia|]. intros Q. rewrite (quiet_waiting w base g (ks1 ++ ks2) k i I Q) in On. rewrite (qt_rsp _ Q) in On. cbn [times_answered] in On.
  assert (Ha : times_ahead base (covered (cw_co w)) q k i = 0%nat).
  { destruct (ci_queue _ _ _ _ _ _ _ I) as [Qd _]. rewrite (qt_in _ Q) in Qd. apply lookup_lt_Some in Hk. unfold times_ahead.
    assert (length (cw_hist w) <= base)%nat by (apply (f_equal length) in Qd; rewrite length_drop in Qd; cbn in Qd; lia).
    by rewrite (proj2 (Nat.ltb_lt k base)) by lia. }
  unfold times_answered at 2 in On. cbn in On. lia.
Qed.

End Steps.

(** ** A load and a store of four lanes *)

Module CoalescerDemo.

(** Four lanes on two ports, lines of 16 bytes: the lanes of the first port
    share a line, those of the second do not. *)
Definition demo_c : co_config := {| input_size_ := 4; output_size_ := 2; line_size_ := 16; co_queue_size := 2 |}.
Definition demo_am : addr_map :=
  {| VX_MEM_IO_BASE_ADDR := 0x40; VX_MEM_IO_END_ADDR := 0x80; VX_CFG_LMEM_ENABLED := true; VX_MEM_LMEM_BASE_ADDR := 0xFFFF0000; VX_CFG_LMEM_LOG_SIZE := 14 |}.
Definition demo_hc : hart_cfg := {| LOG_WARPS := 2; LOG_THREADS := 2 |}.
Definition demo_load : LsuReq := {|
  lq_op := MLD; lq_flags := 0; lq_addrs := [0x1000; 0x1004; 0x1010; 0x1022]; lq_data := replicate 4 None; lq_byteen := replicate 4 0;
  lq_mask := [true; true; true; true]; lq_tids := [0; 1; 2; 3]; lq_tag := 7; lq_cid := 0; lq_wid := 1; lq_uuid := 9 |}.
Definition demo_store : LsuReq := demo_load <| lq_op := MST |> <| lq_mask := [false; true; false; false] |>.

(** The second answer of the first round overtakes the first. *)
Definition demo_evs : list cevent :=
  [CReq demo_load; CReq demo_store; CTick; CTick; CServe 0 [10]; CServe 1 [20]; CReply 1; CTick; CRsp; CTick; CServe 1 [30]; CReply 1; CReply 0; CTick; CTick; CTick;
   CTick; CRsp; CRsp; CServe 0 []].

Lemma demo_evs_ok : Forall (event_ok demo_c) demo_evs.
Proof. repeat constructor. Qed.

(** Three responses, one lane of the second port in each of the first two. *)
Example demo_log : (fun w => (map lr_mask (cw_log w), map lr_data (cw_log w))) <$> cworld_run demo_c demo_am demo_hc (cworld_init demo_c 2) demo_evs =
  Some ([[false; false; true; false]; [true; true; false; false]; [false; false; false; true]],
        [[None; None; Some [20]; None]; [Some [10]; Some [10]; None; None]; [None; None; None; Some [30]]]).
Proof. vm_compute. reflexivity. Qed.

Lemma co_ports_refine_witness : Forall (event_ok demo_c) demo_evs /\
  exists w, cworld_run demo_c demo_am demo_hc (cworld_init demo_c 2) demo_evs = Some w /\
  forall o, (o < 2)%nat -> exists sent rest, port_stream demo_c (cw_hist w) o = sent ++ rest /\
    Forall2 (matches demo_c demo_am demo_hc (cw_hist w)) (map fst (at_port o (cw_served w))) sent /\ (quiet w -> rest = []).
Proof. split; [exact demo_evs_ok|]. exact (co_ports_refine demo_c demo_am demo_hc eq_refl 2 demo_evs demo_evs_ok). Defined.

Lemma co_lanes_once_witness : Forall (event_ok demo_c) demo_evs /\
  exists w ks, cworld_run demo_c demo_am demo_hc (cworld_init demo_c 2) demo_evs = Some w /\ Forall2 (answers demo_c w) (cw_log w) ks /\
  forall k q i, cw_hist w !! k = Some q -> needs_rsp (lq_op q) = true ->
    (times_answered (cw_log w) ks k i <= Nat.b2n (test (lq_mask q) i))%nat /\
    (quiet w -> times_answered (cw_log w) ks k i = Nat.b2n (test (lq_mask q) i)).
Proof. split; [exact demo_evs_ok|]. exact (co_lanes_once demo_c demo_am demo_hc eq_refl 2 demo_evs demo_evs_ok). Defined.

End CoalescerDemo.
