(* ===== verification/Lsu.v ===== *)
(** * Load/store unit

    One block of [sim/simx/lsu_unit.{h,cpp}], in the configuration without the
    tensor core's metadata client: the address generation, the packaging of
    the lanes of a warp into a request, the table of loads and atomic
    operations that wait for data, the formatting of the data returned, and
    fences.

    The traces are shared between the queue, the table and the pipeline, so
    they live in a heap and are named by their index.  [None] is a failed
    assertion, an abort, a variant read under the wrong alternative, or an
    access that runs over the end of a block. *)

From S2P Require Import Prelude MemTypes Sched Decode Cache LsuTypes Coalescer.

Record lsu_config := {
  VX_CFG_NUM_THREADS : nat; VX_CFG_NUM_LSU_LANES : nat; xlen : Z; VX_CFG_EXT_A_ENABLED : bool;
  VX_CFG_LSU_QUEUE_IN_SIZE : nat; VX_CFG_LSU_PENDING_SIZE : nat
}.

(** The part of [instr_trace_t] the unit uses; registers are 64-bit unions. *)
Record lsu_trace := {
  lt_op_type : OpType; lt_args : IntrArgs; lt_tmask : list bool; lt_src0 : list Z; lt_src1 : list Z;
  lt_wid : Z; lt_cid : Z; lt_uuid : Z; lt_dst_float : bool; lt_dst_bytesel : Z; lt_dst_data : list Z
}.

Record mem_addr_size_t := { as_addr : Z; as_size : Z; as_data : Z; as_tid : nat }.

(** [lsu_args] of an entry is read for its width only; every entry the unit
    allocates has [is_load] set. *)
Record lsu_pending_t := { pn_trace : nat; pn_count : Z; pn_eop : bool; pn_lanes : list mem_addr_size_t; pn_width : Z }.

Record LsuBlock := {
  lb_Input : chan nat; lb_Output : chan nat;
  sw_req : chan LsuReq; sw_rsp : chan LsuRsp;
  req_queue : list nat;
  pending_reqs : HashTable lsu_pending_t;
  fence_ : option nat;
  addr_list : list mem_addr_size_t; remain_addrs : nat;
  lb_heap : list lsu_trace;
  pending_loads_ : Z; st_loads : Z; st_stores : Z
}.

Definition mas_default : mem_addr_size_t := {| as_addr := 0; as_size := 0; as_data := 0; as_tid := 0 |}.

(** ** Operations of the memory system *)

Definition amo_to_memop (t : AmoType) : MemOp :=
  match t with
  | AMO_LR => MAMO_LR | AMO_SC => MAMO_SC | AMO_ADD => MAMO_ADD | AMO_SWAP => MAMO_SWAP | AMO_XOR => MAMO_XOR | AMO_OR => MAMO_OR
  | AMO_AND => MAMO_AND | AMO_MIN | AMO_MINU => MAMO_MIN | AMO_MAX | AMO_MAXU => MAMO_MAX
  end.

Definition amo_is_unsigned (t : AmoType) : bool := match t with AMO_MINU | AMO_MAXU => true | _ => false end.

Section Lsu.
Context (c : lsu_config).

Definition LsuBlock_init (cap : nat) (heap : list lsu_trace) : LsuBlock := {|
  lb_Input := ch_init cap; lb_Output := ch_init cap; sw_req := ch_init cap; sw_rsp := ch_init cap; req_queue := [];
  pending_reqs := HashTable_init (VX_CFG_LSU_PENDING_SIZE c); fence_ := None; addr_list := []; remain_addrs := 0; lb_heap := heap;
  pending_loads_ := 0; st_loads := 0; st_stores := 0 |}.

Definition lsu_on_reset (s : LsuBlock) : LsuBlock :=
  s <| req_queue := [] |> <| pending_reqs := HashTable_init (length (ht_entries (pending_reqs s))) |> <| fence_ := None |>
    <| addr_list := [] |> <| remain_addrs := 0%nat |> <| pending_loads_ := 0 |>.

(** One block of [LsuUnit::drained]. *)
Definition lsu_drained (s : LsuBlock) : bool :=
  match ch_q (lb_Input s), req_queue s with [], [] => ht_empty (pending_reqs s) | _, _ => false end.

(** ** Addresses *)

(** Operation, access width and address operands of a trace. *)
Record lsu_op := { op_is_amo : bool; op_is_write : bool; op_bytes : Z; op_offset : Z; op_stride : Z }.

Definition lsu_op_of (t : lsu_trace) : option lsu_op :=
  match lt_op_type t, lt_args t with
  | OpAmo _, AmoArgs width _ _ =>
      Some {| op_is_amo := true; op_is_write := false; op_bytes := Z.shiftl 1 (Z.land width 3); op_offset := 0; op_stride := 0 |}
  | OpLsu lt, LsuArgs width stride offset =>
      let is_write := match lt with LSU_STORE => true | _ => false end in
      if is_write && (3 <? width) then None
      else Some {| op_is_amo := false; op_is_write := is_write; op_bytes := Z.shiftl 1 (Z.land width 3); op_offset := offset; op_stride := stride |}
  | _, _ => None
  end.

Definition thread_access (t : lsu_trace) (o : lsu_op) (tid : nat) : mem_addr_size_t :=
  if test (lt_tmask t) tid then
    let rs1 := default 0 (lt_src0 t !! tid) in
    let rs2 := default 0 (lt_src1 t !! tid) in
    {| as_addr := wrap (xlen c) (u64 (sint (xlen c) rs1 + op_stride o * wrap (xlen c) rs2 + op_offset o)); as_size := op_bytes o;
       as_data := if op_is_write o || op_is_amo o then rs2 else 0; as_tid := tid |}
  else {| as_addr := 0; as_size := 0; as_data := 0; as_tid := tid |}.

(** Trailing holes are trimmed. *)
Definition trim_holes (l : list mem_addr_size_t) : list mem_addr_size_t :=
  foldr (fun e acc => match acc with [] => if as_size e =? 0 then [] else [e] | _ => e :: acc end) [] l.

Definition compute_addrs (t : lsu_trace) : option (list mem_addr_size_t) :=
  o ← lsu_op_of t; Some (trim_holes (map (thread_access t o) (seq 0 (VX_CFG_NUM_THREADS c)))).

(** ** Responses *)

(** [sext] of [sw/common/bitmanip.h] on a [Word]. *)
Definition sext (word width : Z) : option Z :=
  if (1 <? width) && (width <=? xlen c) then
    Some (if width =? xlen c then word
          else if Z.testbit word (width - 1) then Z.lor word (wrap (xlen c) (Z.lnot (Z.ones width))) else Z.land word (Z.ones width))
  else None.

(** [memcpy(&read_data, block + off, data_bytes)] *)
Definition read_data (d : block) (off n : Z) : option Z :=
  if (off + n <=? VX_CFG_MEM_BLOCK_SIZE) && (off + n <=? Z.of_nat (length d)) then Some (le_word (take (Z.to_nat n) (drop (Z.to_nat off) d))) else None.

Definition format_load (width : Z) (dst_float : bool) (rd : Z) : option Z :=
  let data_width := 8 * Z.shiftl 1 (Z.land width 3) in
  if (width =? 0) || (width =? 1) then sext (wrap (xlen c) rd) data_width
  else if width =? 2 then if dst_float then Some rd else sext (wrap (xlen c) rd) data_width
  else if (3 <=? width) && (width <=? 6) then Some rd
  else None.

(** [__builtin_ctz] of a non-zero byte select. *)
Definition ctz4 (x : Z) : Z := if Z.testbit x 0 then 0 else if Z.testbit x 1 then 1 else if Z.testbit x 2 then 2 else 3.

(** The value of [dst.u64] for the block of a lane. *)
Definition lane_value (t : lsu_trace) (width addr : Z) (d : block) : option Z :=
  let data_bytes := Z.shiftl 1 (Z.land width 3) in
  let data_bs := Z.land (lt_dst_bytesel t) 0x0F in
  let byte_off := if (data_bs =? 0) || (data_bs =? 0x0F) then 0 else ctz4 data_bs in
  let nan_box := lt_dst_float t && (data_bytes <? 8) in
  rd ← read_data d (Z.land addr (VX_CFG_MEM_BLOCK_SIZE - 1)) data_bytes;
  formatted ← format_load width (lt_dst_float t) rd;
  Some (Z.lor (u64 (Z.shiftl formatted (8 * byte_off))) (if nan_box then 0xFFFFFFFF00000000 else 0)).

(** One lane of a response; a lane without a block is a failed assertion. *)
Definition write_lane (e : lsu_pending_t) (r : LsuRsp) (t : option lsu_trace) (lane : nat) : option lsu_trace :=
  t ← t;
  if test (lr_mask r) lane then
    info ← pn_lanes e !! lane;
    d ← default None (lr_data r !! lane);
    v ← lane_value t (pn_width e) (as_addr info) d;
    _ ← lt_dst_data t !! as_tid info;
    Some (t <| lt_dst_data := <[as_tid info := v]> (lt_dst_data t) |>)
  else Some t.

Definition mask_count (m : list bool) : Z := Z.of_nat (Sched.count m).

Definition process_response_step (s : LsuBlock) : option LsuBlock :=
  match ch_q (sw_rsp s) with
  | [] => Some s
  | r :: _ =>
      e ← ht_at (pending_reqs s) (lr_tag r);
      let cnt := mask_count (lr_mask r) in
      if ((pn_count e =? cnt) && pn_eop e) && ch_full (lb_Output s) then Some s else
      if pn_count e =? 0 then None else
      t ← lb_heap s !! pn_trace e;
      t ← fold_left (write_lane e r) (seq 0 (length (lr_mask r))) (Some t);
      let s := s <| lb_heap := <[pn_trace e := t]> (lb_heap s) |> in
      let left := u32 (pn_count e - cnt) in
      s ← (if left =? 0 then
             table ← ht_release (pending_reqs s) (lr_tag r);
             let s := s <| pending_reqs := table |> in
             if pn_eop e then out ← ch_send (lb_Output s) (pn_trace e); Some (s <| lb_Output := out |>) else Some s
           else Some (s <| pending_reqs := ht_put (pending_reqs s) (lr_tag r) (e <| pn_count := left |>) |>));
      Some (s <| pending_loads_ := u64 (pending_loads_ s - cnt) |> <| sw_rsp := ch_pop (sw_rsp s) |>)
  end.

(** ** Inputs *)

Definition is_fence_trace (t : lsu_trace) : bool := match lt_op_type t with OpLsu LSU_FENCE => true | _ => false end.

Definition ingest_inputs (s : LsuBlock) : option LsuBlock :=
  match ch_q (lb_Input s) with
  | [] => Some s
  | p :: _ =>
      if (VX_CFG_LSU_QUEUE_IN_SIZE c <=? length (req_queue s))%nat then Some s else
      t ← lb_heap s !! p;
      if is_fence_trace t && negb (length (req_queue s) =? 0)%nat then Some s
      else Some (s <| req_queue := req_queue s ++ [p] |> <| lb_Input := ch_pop (lb_Input s) |>)
  end.

(** ** Requests *)

(** [FenceController::try_release] *)
Definition try_release (s : LsuBlock) : LsuBlock :=
  match fence_ s with
  | None => s
  | Some p => if ht_empty (pending_reqs s) && negb (ch_full (lb_Output s))
              then s <| lb_Output := ch_push (lb_Output s) p |> <| fence_ := None |> else s
  end.

(** Beats whose threads are all inactive are skipped. *)
Fixpoint skip_beats (fuel : nat) (l : list mem_addr_size_t) (remain : nat) : nat :=
  match fuel with
  | O => remain
  | S fuel =>
      if (remain =? 0)%nat then remain else
      let t0 := (length l - remain)%nat in
      let n := Nat.min (VX_CFG_NUM_LSU_LANES c) remain in
      if existsb (fun e => negb (as_size e =? 0)) (take n (drop t0 l)) then remain else skip_beats fuel l (remain - n)
  end.

(** The value of a thread as a block and its byte enables. *)
Definition lane_block (e : mem_addr_size_t) : option (block * Z) :=
  let off := Z.land (as_addr e) (VX_CFG_MEM_BLOCK_SIZE - 1) in
  if off + as_size e <=? VX_CFG_MEM_BLOCK_SIZE then
    Some (take (Z.to_nat off) zero_block ++ le_bytes (Z.to_nat (as_size e)) (as_data e) ++ drop (Z.to_nat (off + as_size e)) zero_block,
          u64 (Z.shiftl (Z.shiftl 1 (as_size e) - 1) off))
  else None.

Definition pack_lane (with_data : bool) (st : option (LsuReq * list mem_addr_size_t)) (x : nat * mem_addr_size_t) : option (LsuReq * list mem_addr_size_t) :=
  '(q, lanes) ← st;
  let '(i, e) := x in
  if as_size e =? 0 then Some (q, lanes) else
  let q := q <| lq_mask := bv_set (lq_mask q) i |> <| lq_addrs := <[i := as_addr e]> (lq_addrs q) |> <| lq_tids := <[i := Z.of_nat (as_tid e)]> (lq_tids q) |> in
  if with_data then
    '(d, be) ← lane_block e;
    Some (q <| lq_data := <[i := Some d]> (lq_data q) |> <| lq_byteen := <[i := be]> (lq_byteen q) |>, <[i := e]> lanes)
  else Some (q, <[i := e]> lanes).

(** The request of one beat, before its tag, and the table's lane entries. *)
Definition pack_beat (t : lsu_trace) (is_amo is_write : bool) (beat : list mem_addr_size_t) : option (LsuReq * list mem_addr_size_t) :=
  let q := LsuReq_init (VX_CFG_NUM_LSU_LANES c) in
  let q := q <| lq_wid := lt_wid t |> <| lq_op := match lt_op_type t with OpAmo a => amo_to_memop a | _ => if is_write then MST else MLD end |>
             <| lq_flags := match lt_op_type t with OpAmo a => fl_set 0 3 (amo_is_unsigned a) | _ => 0 end |> in
  fold_left (pack_lane (is_write || is_amo)) (imap pair beat) (Some (q, replicate (VX_CFG_NUM_LSU_LANES c) mas_default)).

(** The width the formatter uses for the entry. *)
Definition entry_width (t : lsu_trace) : option Z :=
  match lt_op_type t, lt_args t with
  | OpAmo _, AmoArgs width _ _ => Some (Z.land width 3)
  | OpLsu _, LsuArgs width _ _ => Some width
  | _, _ => None
  end.

(** The beat at the head of the address list, to the switch. *)
Definition send_beat (s : LsuBlock) (p : nat) (t : lsu_trace) (is_amo is_write : bool) : option LsuBlock :=
  let t0 := (length (addr_list s) - remain_addrs s)%nat in
  let beat_n := Nat.min (VX_CFG_NUM_LSU_LANES c) (remain_addrs s) in
  '(q, lanes) ← pack_beat t is_amo is_write (take beat_n (drop t0 (addr_list s)));
  let s := s <| remain_addrs := (remain_addrs s - beat_n)%nat |> in
  let cnt := mask_count (lq_mask q) in
  '(tag, s) ← (if negb (is_write) || is_amo then
                 width ← entry_width t;
                 '(tag, table) ← ht_allocate (pending_reqs s) {| pn_trace := p; pn_count := cnt; pn_eop := (remain_addrs s =? 0)%nat; pn_lanes := lanes; pn_width := width |};
                 Some (tag, s <| pending_reqs := table |>)
               else Some (0, s));
  let q := q <| lq_tag := tag |> <| lq_cid := lt_cid t |> <| lq_uuid := lt_uuid t |> in
  chn ← ch_send (sw_req s) q;
  let s := s <| sw_req := chn |> in
  Some (if is_write then s <| st_stores := u64 (st_stores s + cnt) |>
        else s <| st_loads := u64 (st_loads s + cnt) |> <| pending_loads_ := u64 (pending_loads_ s + cnt) |>).

(** The load, store or atomic operation at the head of the queue. *)
Definition dispatch_head (s : LsuBlock) (p : nat) (t : lsu_trace) (is_amo is_write : bool) (rest : list nat) : option LsuBlock :=
  if (negb (is_write) || is_amo) && ht_full (pending_reqs s) then Some s else
  s ← (if (remain_addrs s =? 0)%nat then l ← compute_addrs t; Some (s <| addr_list := l |> <| remain_addrs := length l |>) else Some s);
  let direct_commit := (is_write || (length (addr_list s) =? 0)%nat) && negb (is_amo) in
  let s := s <| remain_addrs := skip_beats (S (remain_addrs s)) (addr_list s) (remain_addrs s) |> in
  if direct_commit && (remain_addrs s <=? VX_CFG_NUM_LSU_LANES c)%nat && ch_full (lb_Output s) then Some s else
  if negb (remain_addrs s =? 0)%nat && ch_full (sw_req s) then Some s else
  s ← (if (remain_addrs s =? 0)%nat then Some s else send_beat s p t is_amo is_write);
  if (remain_addrs s =? 0)%nat then
    s ← (if direct_commit then out ← ch_send (lb_Output s) p; Some (s <| lb_Output := out |>) else Some s);
    Some (s <| req_queue := rest |>)
  else Some s.

Definition process_request_step (s : LsuBlock) : option LsuBlock :=
  match fence_ s with
  | Some _ => Some (try_release s)
  | None =>
      match req_queue s with
      | [] => Some s
      | p :: rest =>
          t ← lb_heap s !! p;
          match lt_op_type t with
          | OpLsu LSU_FENCE => Some (s <| fence_ := Some p |> <| req_queue := rest |>)
          | OpLsu k => dispatch_head s p t false (match k with LSU_STORE => true | _ => false end) rest
          | OpAmo _ => if VX_CFG_EXT_A_ENABLED c then dispatch_head s p t true false rest else None
          | _ => None
          end
      end
  end.

Definition lsu_on_tick (s : LsuBlock) : option LsuBlock :=
  s ← process_response_step s; s ← process_request_step s; ingest_inputs s.

End Lsu.
