(* ===== verification/LsuValues.v ===== *)
(** * What a load returns and what a store writes

    A lane's block, its byte enables and its formatted data against the
    memory: a store changes the bytes of its access and no other, and a load
    returns them, sign-extended, zero-extended or boxed as the instruction
    says. *)

From S2P Require Import Prelude MemTypes Sched Decode Cache CacheWorld CacheAddr LsuTypes Coalescer Lsu.

(** ** The instruction set's loads and stores *)

Definition load_bytes (m : memory) (addr n : Z) : Z := le_word (map (fun k => m (addr + Z.of_nat k)) (seq 0 (Z.to_nat n))).

Definition store_bytes (m : memory) (addr n v : Z) : memory := fun a =>
  if (addr <=? a) && (a <? addr + n) then Z.land (Z.shiftr v (8 * (a - addr))) 0xFF else m a.

(** Width and signedness of [funct3]. *)
Definition access_bytes (width : Z) : Z := Z.shiftl 1 (Z.land width 3).

Definition isa_load (c : lsu_config) (width : Z) (dst_float : bool) (v : Z) : Z :=
  if dst_float then if access_bytes width <? 8 then Z.lor v 0xFFFFFFFF00000000 else v
  else if width <? 3 then wrap (xlen c) (sint (8 * access_bytes width) v) else v.

(** ** Blocks *)

Definition offset_of (addr : Z) : Z := Z.land addr (VX_CFG_MEM_BLOCK_SIZE - 1).

Lemma offset_mod addr : offset_of addr = addr mod 64.
Proof. unfold offset_of. change (VX_CFG_MEM_BLOCK_SIZE - 1) with (Z.ones 6). by rewrite Z.land_ones by lia. Qed.

Lemma offset_range addr : 0 <= offset_of addr < 64.
Proof. rewrite offset_mod. apply Z.mod_pos_bound. lia. Qed.

Lemma block_offset addr : in_u 64 addr -> block_of addr + offset_of addr = addr.
Proof. intros. rewrite block_of_mod, offset_mod by done. lia. Qed.

Lemma take_drop_seq {A} (f : nat -> A) n o k : (o + k <= n)%nat -> take k (drop o (map f (seq 0 n))) = map (fun j => f (o + j)%nat) (seq 0 k).
Proof.
  intros H. replace n with (o + (k + (n - o - k)))%nat by lia. rewrite seq_app, map_app, drop_app_length' by (by rewrite length_map, length_seq).
  rewrite seq_app, map_app, take_app_length' by (by rewrite length_map, length_seq). cbn [Nat.add].
  rewrite <- (Nat.add_0_r o) at 1. generalize 0%nat as b. clear. induction k as [|k IH]; intros b; [done|]. cbn [seq map]. f_equal. by rewrite <- Nat.add_succ_r, IH.
Qed.

Lemma read_data_block m addr n : in_u 64 addr -> 0 <= n -> offset_of addr + n <= 64 ->
  read_data (read_block m (block_of addr)) (offset_of addr) n = Some (load_bytes m addr n).
Proof.
  intros Ha Hn Ho. pose proof (offset_range addr) as Hr. unfold read_data. rewrite length_read_block. change VX_CFG_MEM_BLOCK_SIZE with 64.
  rewrite (proj2 (Z.leb_le _ _)) by lia. cbn [andb]. rewrite (proj2 (Z.leb_le _ _)) by lia. f_equal. unfold load_bytes, read_block. f_equal.
  change VX_CFG_MEM_BLOCK_SIZE with 64. rewrite take_drop_seq by lia. apply map_ext. intros k. f_equal. rewrite Nat2Z.inj_add, Z2Nat.id by lia.
  pose proof (block_offset addr Ha). lia.
Qed.

Lemma load_bytes_range m addr n : (forall a, is_byte (m a)) -> 0 <= n -> in_u (8 * n) (load_bytes m addr n).
Proof.
  intros Hm Hn. unfold load_bytes. replace (8 * n) with (8 * Z.of_nat (length (map (fun k => m (addr + Z.of_nat k)) (seq 0 (Z.to_nat n))))).
  - apply le_word_range. apply Forall_map, Forall_true. intros x. apply Hm.
  - rewrite length_map, length_seq. lia.
Qed.

(** ** Stores *)

(** The bytes a store changes. *)
Lemma lane_block_stores e m : in_u 64 (as_addr e) -> 0 <= as_size e <= 8 -> offset_of (as_addr e) + as_size e <= 64 ->
  exists d be, lane_block e = Some (d, be) /\ length d = 64%nat /\
    forall a, write_block m (block_of (as_addr e)) d be a = store_bytes m (as_addr e) (as_size e) (as_data e) a.
Proof.
  intros Ha Hn Ho. pose proof (offset_range (as_addr e)) as Hr. unfold lane_block. fold (offset_of (as_addr e)). change VX_CFG_MEM_BLOCK_SIZE with 64.
  rewrite (proj2 (Z.leb_le _ _)) by lia. eexists _, _. split; [reflexivity|]. set (off := offset_of (as_addr e)) in *. set (n := as_size e) in *.
  assert (Hz : length zero_block = 64%nat) by done.
  split. { rewrite !length_app, length_take, length_drop, length_le_bytes, Hz. lia. }
  intros a. pose proof (block_offset (as_addr e) Ha) as Hb. fold off in Hb. unfold write_block, store_bytes. change VX_CFG_MEM_BLOCK_SIZE with 64.
  set (la := block_of (as_addr e)) in *.
  assert (Hbit : forall b, 0 <= b < 64 -> Z.testbit (u64 (Z.shiftl (Z.shiftl 1 n - 1) off)) b = (off <=? b) && (b <? off + n)).
  { intros b Hb'. replace (Z.shiftl 1 n - 1) with (Z.ones n) by (rewrite Z.ones_equiv, Z.shiftl_1_l; lia). testbits.
    destruct (Z.ltb_spec b 64); [|lia]. cbn [andb]. destruct (Z.leb_spec off b).
    - rewrite Z.testbit_ones_nonneg by lia. cbn [andb]. apply eq_iff_eq_true. rewrite !Z.ltb_lt. lia.
    - by rewrite Z.testbit_neg_r by lia. }
  destruct ((la <=? a) && (a <? la + 64)) eqn:Hin; cbn [andb]; bool_hyps.
  - rewrite Hbit by lia. replace ((as_addr e <=? a) && (a <? as_addr e + n)) with ((off <=? a - la) && (a - la <? off + n)).
    2:{ apply eq_iff_eq_true. rewrite !andb_true_iff, !Z.leb_le, !Z.ltb_lt. lia. }
    destruct ((off <=? a - la) && (a - la <? off + n)) eqn:E; [|done]. bool_hyps.
    rewrite lookup_app_r by (rewrite length_take, Hz; lia). rewrite length_take, Hz, lookup_app_l by (rewrite length_le_bytes; lia).
    replace (Z.to_nat (a - la) - Z.to_nat off `min` 64)%nat with (Z.to_nat (a - as_addr e)) by lia. rewrite le_bytes_lookup by lia. cbn. by rewrite Z2Nat.id by lia.
  - destruct ((as_addr e <=? a) && (a <? as_addr e + n)) eqn:E; [|done]. bool_hyps. apply andb_false_iff in Hin as [Hin|Hin]; bool_hyps; lia.
Qed.

(** ** Loads *)

Definition load_ok (width : Z) (dst_float : bool) : Prop := 0 <= width <= 6 /\ (dst_float = true -> 2 <= width).

Lemma access_bytes_range width : 0 <= width <= 6 -> access_bytes width = 1 \/ access_bytes width = 2 \/ access_bytes width = 4 \/ access_bytes width = 8.
Proof. intros H. assert (In width [0; 1; 2; 3; 4; 5; 6]) as Hin by (cbn; lia). unfold access_bytes. repeat (destruct Hin as [<-|Hin]; [cbn; tauto|]). destruct Hin. Qed.

Section Values.
Context (c : lsu_config).
Hypothesis Hx : xlen c = 32 \/ xlen c = 64.

Lemma lsu_sext_spec w v : 1 < w <= xlen c -> in_u (xlen c) v -> sext c v w = Some (wrap (xlen c) (sint w v)).
Proof using Hx.
  intros Hw Hv. unfold sext. rewrite (proj2 (Z.ltb_lt 1 w)), (proj2 (Z.leb_le w (xlen c))) by lia. cbn [andb]. f_equal.
  destruct (Z.eqb_spec w (xlen c)) as [->|Hne]; [rewrite wrap_sint by lia; by rewrite wrap_small|].
  assert (Hone : 2 ^ w = 2 * 2 ^ (w - 1)) by (rewrite <- Z.pow_succ_r by lia; f_equal; lia).
  assert (Hlt : 2 ^ w < 2 ^ xlen c) by (apply Z.pow_lt_mono_r; lia). pose proof (pow2_pos (w - 1) ltac:(lia)).
  pose proof (wrap_range w v ltac:(lia)) as Hwr. unfold in_u in Hwr.
  assert (Htop : Z.testbit v (w - 1) = (2 ^ (w - 1) <=? wrap w v)).
  { transitivity (Z.testbit (wrap w v) (w - 1)); [rewrite testbit_wrap by lia; by rewrite (proj2 (Z.ltb_lt _ _)) by lia|].
    rewrite Z.testbit_eqb by lia. assert (0 <= wrap w v / 2 ^ (w - 1) < 2) by (split; [apply Z.div_pos; lia|apply Z.div_lt_upper_bound; lia]).
    pose proof (Z.div_mod (wrap w v) (2 ^ (w - 1)) ltac:(lia)). pose proof (Z.mod_pos_bound (wrap w v) (2 ^ (w - 1)) ltac:(lia)).
    rewrite Z.mod_small by lia. destruct (Z.eqb_spec (wrap w v / 2 ^ (w - 1)) 1), (Z.leb_spec (2 ^ (w - 1)) (wrap w v)); try done; nia. }
  rewrite Htop. unfold sint. destruct (Z.leb_spec (2 ^ (w - 1)) (wrap w v)).
  - rewrite (proj2 (Z.ltb_ge _ _)) by lia.
    assert (E : wrap (xlen c) (wrap w v - 2 ^ w) = wrap w v + (2 ^ xlen c - 2 ^ w)).
    { unfold wrap at 1. rewrite <- (Z_mod_plus_full _ 1), Z.mul_1_l. rewrite Z.mod_small by lia. lia. }
    rewrite E. assert (E2 : wrap (xlen c) (Z.lnot (Z.ones w)) = 2 ^ xlen c - 2 ^ w).
    { unfold wrap, Z.lnot. rewrite Z.ones_equiv. rewrite <- (Z_mod_plus_full _ 1), Z.mul_1_l, Z.mod_small by lia. lia. }
    rewrite <- E2, <- lor_add_disjoint.
    + apply Z.bits_inj'. intros i Hi. testbits. destruct (Z.ltb_spec i w), (Z.ltb_spec i (xlen c)); try lia; kill_high; rewrite ?andb_true_r, ?orb_true_r, ?orb_false_r; done.
    + apply Z.bits_inj'. intros i Hi. testbits. destruct (Z.ltb_spec i w), (Z.ltb_spec i (xlen c)); try lia; rewrite ?andb_true_r, ?andb_false_r; done.
  - rewrite (proj2 (Z.ltb_lt _ _)) by lia. rewrite land_ones_wrap by lia. symmetry. apply wrap_small. unfold in_u. lia.
Qed.

Lemma format_load_isa width dst_float v : load_ok width dst_float -> in_u (8 * access_bytes width) v ->
  exists f, format_load c width dst_float v = Some f /\ in_u 64 f /\
    Z.lor f (if dst_float && (access_bytes width <? 8) then 0xFFFFFFFF00000000 else 0) = isa_load c width dst_float v.
Proof using Hx.
  intros [Hw Hf] Hv. assert (Hb : 8 <= 8 * access_bytes width <= 64) by (pose proof (access_bytes_range width Hw); lia).
  assert (H64 : in_u 64 v). { unfold in_u in *. assert (2 ^ (8 * access_bytes width) <= 2 ^ 64) by (apply Z.pow_le_mono_r; lia). lia. }
  unfold format_load, isa_load. fold (access_bytes width). destruct dst_float.
  - rewrite (proj2 (Z.eqb_neq width 0)), (proj2 (Z.eqb_neq width 1)) by (specialize (Hf eq_refl); lia). cbn [orb andb].
    destruct (Z.eqb_spec width 2); [|rewrite (proj2 (Z.leb_le 3 width)), (proj2 (Z.leb_le width 6)) by (specialize (Hf eq_refl); lia); cbn [andb]];
      (exists v; split_and!; [done|done|]; case_match; [done|by rewrite Z.lor_0_r]).
  - cbn [andb]. destruct (Z.ltb_spec width 3) as [H3|H3].
    + assert (Hx8 : 8 * access_bytes width <= 32) by (assert (width = 0 \/ width = 1 \/ width = 2) as [->|[->| ->]] by lia; by vm_compute).
      assert (Hvx : in_u (xlen c) v). { unfold in_u in *. assert (2 ^ (8 * access_bytes width) <= 2 ^ xlen c) by (apply Z.pow_le_mono_r; lia). lia. }
      exists (wrap (xlen c) (sint (8 * access_bytes width) v)). split_and!.
      * rewrite wrap_small by done. rewrite !lsu_sext_spec by (done || lia). assert (width = 0 \/ width = 1 \/ width = 2) as [->|[->| ->]] by lia; done.
      * pose proof (wrap_range (xlen c) (sint (8 * access_bytes width) v) ltac:(lia)) as Hr. unfold in_u in *.
        assert (2 ^ xlen c <= 2 ^ 64) by (apply Z.pow_le_mono_r; lia). lia.
      * by rewrite Z.lor_0_r.
    + rewrite (proj2 (Z.eqb_neq width 0)), (proj2 (Z.eqb_neq width 1)), (proj2 (Z.eqb_neq width 2)), (proj2 (Z.leb_le 3 width)), (proj2 (Z.leb_le width 6)) by lia.
      exists v. split_and!; [done|done|by rewrite Z.lor_0_r].
Qed.

(** The whole register is written: no byte select of a packed load. *)
Definition whole_reg (t : lsu_trace) : Prop := Z.land (lt_dst_bytesel t) 0x0F = 0 \/ Z.land (lt_dst_bytesel t) 0x0F = 0x0F.

Lemma lane_value_isa t width addr d v : load_ok width (lt_dst_float t) -> whole_reg t -> in_u (8 * access_bytes width) v ->
  read_data d (offset_of addr) (access_bytes width) = Some v -> lane_value c t width addr d = Some (isa_load c width (lt_dst_float t) v).
Proof using Hx.
  intros Hw Hb Hv Hr. unfold lane_value. fold (access_bytes width) (offset_of addr). rewrite Hr. cbn [mbind option_bind].
  destruct (format_load_isa width (lt_dst_float t) v Hw Hv) as (f & -> & Hf & Hi). cbn [mbind option_bind]. f_equal.
  assert (E : (Z.land (lt_dst_bytesel t) 15 =? 0) || (Z.land (lt_dst_bytesel t) 15 =? 15) = true) by (destruct Hb as [-> | ->]; done).
  rewrite E. change (8 * 0) with 0. rewrite Z.shiftl_0_r, wrap_small by done. exact Hi.
Qed.

(** C38 (functional): a load returns what the instruction set says.  For every
    width and destination, the value the unit writes into the destination of
    a thread, from the block the memory returns for the thread's address, is
    the bytes at that address, sign-extended to the register for a signed
    integer load, zero-extended for an unsigned one and boxed for a float
    narrower than the register. *)
Theorem lsu_load_isa t width addr m : load_ok width (lt_dst_float t) -> whole_reg t -> (forall a, is_byte (m a)) ->
  in_u 64 addr -> offset_of addr + access_bytes width <= 64 ->
  lane_value c t width addr (read_block m (block_of addr)) = Some (isa_load c width (lt_dst_float t) (load_bytes m addr (access_bytes width))).
Proof using Hx.
  intros Hw Hb Hm Ha Ho. assert (0 <= access_bytes width) by (pose proof (access_bytes_range width (proj1 Hw)); lia).
  apply lane_value_isa; [done|done|by apply load_bytes_range|by apply read_data_block].
Qed.

Lemma load_store_bytes m addr n v : 0 <= n -> load_bytes (store_bytes m addr n v) addr n = wrap (8 * n) v.
Proof.
  intros Hn. unfold load_bytes. replace (8 * n) with (8 * Z.of_nat (Z.to_nat n)) by lia. rewrite <- le_word_le_bytes. f_equal.
  apply list_eq. intros k. rewrite list_lookup_fmap. destruct (decide (k < Z.to_nat n)%nat) as [Hk|Hk].
  - rewrite lookup_seq_lt, le_bytes_lookup by done. cbn. unfold store_bytes. rewrite (proj2 (Z.leb_le _ _)), (proj2 (Z.ltb_lt _ _)) by lia. cbn. do 3 f_equal. lia.
  - rewrite lookup_seq_ge by lia. rewrite lookup_ge_None_2; [done|]. rewrite length_le_bytes. lia.
Qed.

(** C39 (roundtrip): a load after a store returns the value stored.  The block
    and the byte enables the unit packs for a thread's store change the bytes
    of its access, to the low bytes of its register, and no other byte of the
    memory; and the value a load of the same size then returns from that
    address is these bytes, extended as the instruction says. *)
Theorem lsu_store_load t width e m : load_ok width (lt_dst_float t) -> whole_reg t -> in_u 64 (as_addr e) -> as_size e = access_bytes width ->
  offset_of (as_addr e) + as_size e <= 64 ->
  exists d be, lane_block e = Some (d, be) /\
  let m' := write_block m (block_of (as_addr e)) d be in
  (forall a, m' a = store_bytes m (as_addr e) (as_size e) (as_data e) a) /\
  lane_value c t width (as_addr e) (read_block m' (block_of (as_addr e))) = Some (isa_load c width (lt_dst_float t) (wrap (8 * as_size e) (as_data e))).
Proof using Hx.
  intros Hw Hb Ha Hs Ho. pose proof (access_bytes_range width (proj1 Hw)) as Hr. destruct (lane_block_stores e m Ha ltac:(lia) Ho) as (d & be & Hd & _ & Hst).
  exists d, be. split; [exact Hd|]. cbv zeta. split; [exact Hst|]. rewrite Hs. rewrite <- (load_store_bytes m (as_addr e) (access_bytes width)) by lia.
  apply lane_value_isa; [done|done|rewrite load_store_bytes by lia; apply wrap_range; lia|].
  rewrite read_data_block by (done || lia). f_equal. unfold load_bytes. f_equal. apply map_ext. intros k. by rewrite Hst, Hs.
Qed.

End Values.

Module LsuValuesDemo.

Definition cfg64 : lsu_config :=
  {| VX_CFG_NUM_THREADS := 4; VX_CFG_NUM_LSU_LANES := 4; xlen := 64; VX_CFG_EXT_A_ENABLED := true; VX_CFG_LSU_QUEUE_IN_SIZE := 4; VX_CFG_LSU_PENDING_SIZE := 8 |}.
Definition lh : lsu_trace :=
  {| lt_op_type := OpLsu LSU_LOAD; lt_args := LsuArgs 1 0 0; lt_tmask := [true; true; true; true]; lt_src0 := []; lt_src1 := []; lt_wid := 0; lt_cid := 0; lt_uuid := 0;
     lt_dst_float := false; lt_dst_bytesel := 0xFF; lt_dst_data := [0; 0; 0; 0] |}.
Definition mem0 : memory := fun a => Z.land a 0xFF.
Definition sh_access : mem_addr_size_t := {| as_addr := 0x1042; as_size := 2; as_data := 0x12348001; as_tid := 0 |}.

(** [lh] from address 0x10FE reads the bytes 0xFE and 0xFF. *)
Lemma lsu_load_isa_witness : lane_value cfg64 lh 1 0x10FE (read_block mem0 (block_of 0x10FE)) = Some 0xFFFFFFFFFFFFFFFE.
Proof.
  rewrite (lsu_load_isa cfg64 (or_intror eq_refl) lh 1 0x10FE mem0); [vm_compute; reflexivity|..].
  - split; [lia|done].
  - right. reflexivity.
  - intros a. apply land_in_u_r; [lia|]. unfold in_u. lia.
  - unfold in_u. lia.
  - vm_compute. discriminate.
Defined.

(** [sh] then [lh] at address 0x1042: the negative halfword 0x8001. *)
Lemma lsu_store_load_witness : exists d be, lane_block sh_access = Some (d, be) /\
  lane_value cfg64 lh 1 0x1042 (read_block (write_block mem0 (block_of 0x1042) d be) (block_of 0x1042)) = Some 0xFFFFFFFFFFFF8001.
Proof.
  destruct (lsu_store_load cfg64 (or_intror eq_refl) lh 1 sh_access mem0) as (d & be & Hd & _ & Hl).
  - split; [lia|done].
  - right. reflexivity.
  - unfold in_u. cbn. lia.
  - reflexivity.
  - vm_compute. discriminate.
  - exists d, be. split; [exact Hd|]. etrans; [exact Hl|]. vm_compute. reflexivity.
Defined.

End LsuValuesDemo.
