(* ===== verification/LsuPack.v ===== *)
(** * A warp's accesses, from the registers to the memory

    The request of a beat carries the accesses of its threads, one per lane;
    a warp's store, packed by the unit, merged by the coalescer and applied by
    the memory, is its threads' stores, and a warp's load gives every thread
    the value at its own address. *)

From S2P Require Import Prelude MemTypes Sched Decode Cache CacheWorld CacheAddr LsuTypes Coalescer CoalescerRound LsuPath CoalescerMem Lsu LsuValues.

(** ** Packing a beat *)

Definition active (beat : list mem_addr_size_t) (i : nat) : bool := match beat !! i with Some e => negb (as_size e =? 0) | None => false end.

Definition fits (e : mem_addr_size_t) : Prop := offset_of (as_addr e) + as_size e <= 64.

(** What lane [i] of the request holds. *)
Definition lane_packed (with_data : bool) (beat : list mem_addr_size_t) (q : LsuReq) (lanes : list mem_addr_size_t) (i : nat) : Prop :=
  test (lq_mask q) i = active beat i /\
  forall e, beat !! i = Some e -> as_size e <> 0 ->
    lane_addr q i = as_addr e /\ lane_tid q i = Z.of_nat (as_tid e) /\ lanes !! i = Some e /\
    (with_data = true -> exists d be, lane_block e = Some (d, be) /\ lane_data q i = Some d /\ lane_be q i = be).

Record packed (N : nat) (with_data : bool) (q0 : LsuReq) (beat : list mem_addr_size_t) (q : LsuReq) (lanes : list mem_addr_size_t) : Prop := {
  pk_len : length (lq_mask q) = N /\ length (lq_addrs q) = N /\ length (lq_data q) = N /\ length (lq_byteen q) = N /\ length (lq_tids q) = N /\ length lanes = N;
  pk_head : lq_op q = lq_op q0 /\ lq_flags q = lq_flags q0 /\ lq_wid q = lq_wid q0 /\ (with_data = false -> lq_byteen q = lq_byteen q0);
  pk_lanes : forall i, lane_packed with_data beat q lanes i
}.

Ltac qproj := cbv [set const]; cbn [lq_op lq_flags lq_addrs lq_data lq_byteen lq_mask lq_tids lq_tag lq_cid lq_wid lq_uuid].

Lemma lane_block_fits e : fits e -> exists d be, lane_block e = Some (d, be).
Proof. unfold fits, lane_block, offset_of. change VX_CFG_MEM_BLOCK_SIZE with 64. intros H. rewrite (proj2 (Z.leb_le _ _)) by done. eauto. Qed.

(** The lane fields of a request after a lane is written. *)
Lemma lane_fields_insert {A} (d : A) l i j x : (i < length l)%nat -> default d (<[i := x]> l !! j) = if (j =? i)%nat then x else default d (l !! j).
Proof.
  intros H. destruct (Nat.eqb_spec j i) as [->|]; [by rewrite list_lookup_insert_eq|by rewrite list_lookup_insert_ne].
Qed.

Lemma pack_step N wd q0 beat e q lanes : (length beat < N)%nat -> (wd = true -> as_size e <> 0 -> fits e) -> packed N wd q0 beat q lanes ->
  exists q' lanes', pack_lane wd (Some (q, lanes)) (length beat, e) = Some (q', lanes') /\ packed N wd q0 (beat ++ [e]) q' lanes'.
Proof.
  intros HN Hfit [(L1 & L2 & L3 & L4 & L5 & L6) Hh Hl]. set (i := length beat) in *. cbn [pack_lane mbind option_bind].
  assert (Hnew : (beat ++ [e]) !! i = Some e) by (rewrite lookup_app_r, Nat.sub_diag; done).
  assert (Hold : forall j, j <> i -> (beat ++ [e]) !! j = beat !! j).
  { intros j Hj. destruct (decide (j < i)%nat); [by rewrite lookup_app_l|]. rewrite !lookup_ge_None_2; [done|unfold i in *; lia|rewrite length_app; cbn; unfold i in *; lia]. }
  assert (Hbi : beat !! i = None) by (by apply lookup_ge_None_2).
  assert (Hact : forall j, active (beat ++ [e]) j = if (j =? i)%nat then negb (as_size e =? 0) else active beat j).
  { intros j. unfold active. destruct (Nat.eqb_spec j i) as [->|Hne]; [by rewrite Hnew|by rewrite Hold]. }
  destruct (Z.eqb_spec (as_size e) 0) as [Hs|Hs].
  - exists q, lanes. split; [done|]. constructor; [done|done|]. intros j. destruct (Hl j) as [Hm He]. split.
    + rewrite Hact, Hm. destruct (Nat.eqb_spec j i) as [->|]; [|done]. unfold active. by rewrite Hbi.
    + intros e' Hj Hs'. destruct (decide (j = i)) as [->|Hne]; [congruence|]. rewrite Hold in Hj by done. by apply He.
  - assert (Hcase : exists dl bl, length dl = N /\ length bl = N /\ (forall j, j <> i -> dl !! j = lq_data q !! j /\ bl !! j = lq_byteen q !! j) /\
      if wd then exists d be, lane_block e = Some (d, be) /\ dl = <[i := Some d]> (lq_data q) /\ bl = <[i := be]> (lq_byteen q) else dl = lq_data q /\ bl = lq_byteen q).
    { destruct wd; [|by exists (lq_data q), (lq_byteen q)].
      destruct (lane_block_fits e (Hfit eq_refl Hs)) as (d & be & Hd). exists (<[i := Some d]> (lq_data q)), (<[i := be]> (lq_byteen q)).
      rewrite !length_insert. split_and!; [done|done| |eauto 10]. intros j Hj. by rewrite !list_lookup_insert_ne by done. }
    destruct Hcase as (dl & bl & D1 & D2 & D3 & D4).
    exists (q <| lq_data := dl |> <| lq_byteen := bl |> <| lq_mask := bv_set (lq_mask q) i |> <| lq_addrs := <[i := as_addr e]> (lq_addrs q) |>
              <| lq_tids := <[i := Z.of_nat (as_tid e)]> (lq_tids q) |>), (<[i := e]> lanes).
    split.
    { destruct wd; [destruct D4 as (d & be & -> & -> & ->)|destruct D4 as [-> ->]]; done. }
    constructor.
    + qproj. rewrite length_bv_set, !length_insert. done.
    + qproj. destruct Hh as (? & ? & ? & Hbe). split_and!; try done. intros ->. destruct D4 as [_ ->]. by apply Hbe.
    + intros j. destruct (Hl j) as [Hm He]. unfold lane_packed, lane_addr, lane_tid, lane_data, lane_be. qproj. rewrite Hact, test_bv_set, Hm, L1. rewrite !lane_fields_insert by lia. split.
      * destruct (Nat.eqb_spec j i) as [->|]; [|by rewrite orb_false_r]. rewrite (proj2 (Nat.ltb_lt i N)) by done. by rewrite orb_true_r.
      * intros e' Hj Hs'. destruct (Nat.eqb_spec j i) as [->|Hne].
        -- rewrite Hnew in Hj. injection Hj as <-. rewrite list_lookup_insert_eq by lia. split_and!; try done. intros ->. destruct D4 as (d & be & ? & -> & ->).
           exists d, be. by rewrite !list_lookup_insert_eq by lia.
        -- rewrite Hold in Hj by done. rewrite list_lookup_insert_ne by done. destruct (D3 j Hne) as [-> ->]. by apply He.
Qed.

Lemma pack_fold N wd q0 beat : length (lq_mask q0) = N -> (forall j, test (lq_mask q0) j = false) -> length (lq_addrs q0) = N -> length (lq_data q0) = N ->
  length (lq_byteen q0) = N -> length (lq_tids q0) = N -> (length beat <= N)%nat -> (wd = true -> Forall (fun e => as_size e <> 0 -> fits e) beat) ->
  exists q lanes, fold_left (pack_lane wd) (imap pair beat) (Some (q0, replicate N mas_default)) = Some (q, lanes) /\ packed N wd q0 beat q lanes.
Proof.
  intros L1 Hz L2 L3 L4 L5. induction beat as [|e beat IH] using rev_ind; intros Hn Hf.
  - exists q0, (replicate N mas_default). split; [done|]. constructor; [rewrite length_replicate; done|done|]. intros j. split; [by rewrite Hz|done].
  - rewrite length_app in Hn. cbn in Hn. destruct IH as (q & lanes & Hq & Hp); [lia|intros Hw; by apply Forall_app in Hf as [? _]|].
    rewrite imap_app, fold_left_app, Hq. cbn [imap fold_left]. rewrite Nat.add_0_r. apply (pack_step N wd q0 beat e q lanes); [lia| |done].
    intros Hw Hs. specialize (Hf Hw). apply Forall_app in Hf as [_ Hf]. apply list.Forall_cons in Hf as [Hf _]. auto.
Qed.

(** ** Aligned accesses stay in their line *)

Lemma line_div co k a : 0 <= k <= 6 -> line_size_ co = 2 ^ k -> in_u 64 a -> Z.land a (addr_mask co) = 2 ^ k * (a / 2 ^ k).
Proof.
  intros Hk Hl Ha. assert (E : Z.land a (addr_mask co) = Z.ldiff a (Z.ones k)).
  { apply Z.bits_inj'. intros i Hi. rewrite Z.ldiff_spec, Z.testbit_ones_nonneg by lia. destruct (Z.ltb_spec i 64).
    - rewrite (line_bit co k) by (done || lia). destruct (Z.leb_spec k i), (Z.ltb_spec i k); try lia; cbn; rewrite ?andb_true_r, ?andb_false_r; done.
    - rewrite Z.land_spec. kill_high. done. }
  rewrite E, Z.ldiff_ones_r, Z.shiftl_mul_pow2, Z.shiftr_div_pow2 by lia. lia.
Qed.

Lemma aligned_line co n j a b : line_ok co -> n = 2 ^ j -> 0 <= j -> n <= line_size_ co -> in_u 64 a -> in_u 64 (a + b) -> a mod n = 0 -> 0 <= b < n ->
  Z.land (a + b) (addr_mask co) = Z.land a (addr_mask co).
Proof.
  intros (k & Hk & Hl) -> Hj Hn Ha Hab Hm Hb. rewrite !(line_div co k) by done. f_equal. rewrite Hl in Hn. apply Z.pow_le_mono_r_iff in Hn; [|lia..].
  replace k with (j + (k - j)) by lia. rewrite Z.pow_add_r, <- !Z.div_div by (lia || (apply Z.pow_nonzero; lia) || (apply Z.pow_pos_nonneg; lia)). f_equal.
  assert (a = 2 ^ j * (a / 2 ^ j)) by (pose proof (Z.div_mod a (2 ^ j) ltac:(apply Z.pow_nonzero; lia)); lia).
  symmetry. apply (Z.div_unique _ _ _ b); lia.
Qed.

(** An access of a power of two of bytes, at a multiple of its size. *)
Definition access_ok (e : mem_addr_size_t) : Prop :=
  in_u 64 (as_addr e) /\ (as_size e = 1 \/ as_size e = 2 \/ as_size e = 4 \/ as_size e = 8) /\ as_addr e mod as_size e = 0.

Lemma access_fits e : access_ok e -> fits e.
Proof.
  intros (Ha & Hs & Hm). unfold fits. rewrite offset_mod. assert (H : (as_addr e mod 64) mod as_size e = 0).
  { rewrite <- Hm. destruct Hs as [->|[->|[->| ->]]]; apply Z.mod_mod_divide; [exists 64|exists 32|exists 16|exists 8]; lia. }
  pose proof (Z.mod_pos_bound (as_addr e) 64 ltac:(lia)). pose proof (Z.div_mod (as_addr e mod 64) (as_size e) ltac:(lia)).
  destruct Hs as [Hs|[Hs|[Hs|Hs]]]; rewrite Hs in *; lia.
Qed.

(** The byte enables of a packed lane. *)
Lemma lane_block_be e d be b : lane_block e = Some (d, be) -> 0 <= as_size e -> 0 <= b < 64 -> Z.testbit be b = true -> offset_of (as_addr e) <= b < offset_of (as_addr e) + as_size e.
Proof.
  unfold lane_block. fold (offset_of (as_addr e)). case_match; [|done]. intros [= _ <-] Hs Hb. pose proof (offset_range (as_addr e)).
  replace (Z.shiftl 1 (as_size e) - 1) with (Z.ones (as_size e)) by (rewrite Z.ones_equiv, Z.shiftl_1_l; lia). testbits. intros [_ Hbit]%andb_true_iff.
  destruct (Z.ltb_spec (b - offset_of (as_addr e)) 0); [by rewrite Z.testbit_neg_r in Hbit by lia|]. rewrite Z.testbit_ones_nonneg in Hbit by lia. bool_hyps. lia.
Qed.

Lemma packed_lane_ok co N q0 beat q lanes i e : line_ok co -> 8 <= line_size_ co -> packed N true q0 beat q lanes ->
  beat !! i = Some e -> as_size e <> 0 -> access_ok e -> lane_ok co q i.
Proof.
  intros Hl H8 Hp Hi Hs He. destruct (pk_lanes _ _ _ _ _ _ Hp i) as [_ Hlane]. destruct (Hlane e Hi Hs) as (Ha & _ & _ & Hd).
  destruct (Hd eq_refl) as (d & be & Hb & _ & Hbe). pose proof He as (Hu & Hsz & Hm). pose proof (access_fits e He) as Hf. unfold fits in Hf.
  split; [by rewrite Ha|]. intros b Hb' Hbit. rewrite Hbe in Hbit. pose proof (lane_block_be e d be b Hb ltac:(lia) Hb' Hbit) as Hr.
  unfold in_line, line_of. rewrite Ha. pose proof (block_offset (as_addr e) Hu) as Hbo.
  replace (block_of (as_addr e) + b) with (as_addr e + (b - offset_of (as_addr e))) by lia.
  assert (Hin : in_u 64 (as_addr e + (b - offset_of (as_addr e)))).
  { unfold in_u in *. rewrite offset_mod in *. pose proof (Z.div_mod (as_addr e) 64 ltac:(lia)). assert (as_addr e / 64 < 2 ^ 58) by (apply Z.div_lt_upper_bound; lia). lia. }
  destruct Hsz as [Hsz|[Hsz|[Hsz|Hsz]]]; rewrite Hsz in *;
    [apply (aligned_line co 1 0)|apply (aligned_line co 2 1)|apply (aligned_line co 4 2)|apply (aligned_line co 8 3)]; try done; lia.
Qed.

(** ** A warp's store *)

Lemma fold_stores_ext (f g : memory -> nat -> memory) P : (forall m m' i a, i ∈ P -> (forall a, m a = m' a) -> f m i a = g m' i a) ->
  forall m m' a, (forall a, m a = m' a) -> fold_left f P m a = fold_left g P m' a.
Proof.
  induction P as [|i P IH]; intros H m m' a Hm; [done|]. cbn [fold_left]. apply IH; [set_solver|]. intros a'. apply H; [set_solver|done].
Qed.

Section WarpStore.
Context (c : lsu_config) (co : co_config) (am : addr_map) (hc : hart_cfg).

Definition thread_store (beat : list mem_addr_size_t) (m : memory) (i : nat) : memory :=
  match beat !! i with Some e => store_bytes m (as_addr e) (as_size e) (as_data e) | None => m end.

(** Threads served by different ports store to disjoint bytes. *)
Definition ports_apart (beat : list mem_addr_size_t) : Prop := forall i j e f, beat !! i = Some e -> beat !! j = Some f -> as_size e <> 0 -> as_size f <> 0 ->
  group_of co i <> group_of co j -> as_addr e + as_size e <= as_addr f \/ as_addr f + as_size f <= as_addr e.

(** A packed lane writes only bytes of its access. *)
Lemma packed_byte N q0 beat q lanes i e a : packed N true q0 beat q lanes -> beat !! i = Some e -> as_size e <> 0 -> access_ok e ->
  is_Some (lane_byte q a i) -> as_addr e <= a < as_addr e + as_size e.
Proof.
  intros Hp Hi Hs (Hu & Hsz & _) [v Hv]. destruct (pk_lanes _ _ _ _ _ _ Hp i) as [_ Hl]. destruct (Hl e Hi Hs) as (Ha & _ & _ & Hd).
  destruct (Hd eq_refl) as (d & be & Hb & Hdat & Hbe). unfold lane_byte in Hv. rewrite Ha in Hv. cbv zeta in Hv.
  destruct (in_block _ a) eqn:Hin; [|done]. unfold in_block in Hin. bool_hyps. unfold byte_step in Hv. rewrite Hdat, Hbe in Hv.
  destruct (Z.testbit be _) eqn:Hbit; [|done]. pose proof (lane_block_be e d be (a - block_of (as_addr e)) Hb ltac:(lia) ltac:(lia) Hbit). pose proof (block_offset (as_addr e) Hu). lia.
Qed.

Lemma packed_apart N q0 beat q lanes : packed N true q0 beat q lanes -> Forall (fun e => as_size e <> 0 -> access_ok e) beat ->
  ports_apart beat -> groups_apart co q.
Proof.
  intros Hp Hok Hap i j a Hi Hj Hg Hs. apply eq_None_not_Some. intros Hs'. rewrite list.Forall_forall in Hok.
  assert (Hact : forall k, test (lq_mask q) k = true -> exists e, beat !! k = Some e /\ as_size e <> 0 /\ access_ok e).
  { intros k Hk. destruct (pk_lanes _ _ _ _ _ _ Hp k) as [Hm _]. rewrite Hm in Hk. unfold active in Hk. destruct (beat !! k) as [e|] eqn:E; [|done].
    apply negb_true_iff, Z.eqb_neq in Hk. exists e. split_and!; try done. apply Hok; [by eapply list_elem_of_lookup_2|done]. }
  destruct (Hact i Hi) as (e & He & Hse & Hoe), (Hact j Hj) as (f & Hf & Hsf & Hof).
  pose proof (packed_byte _ _ _ _ _ i e a Hp He Hse Hoe Hs). pose proof (packed_byte _ _ _ _ _ j f a Hp Hf Hsf Hof Hs').
  destruct (Hap i j e f He Hf Hse Hsf Hg); lia.
Qed.

(** The lanes' requests write what the threads store. *)
Lemma lanes_are_threads N q0 beat q lanes P m a : packed N true q0 beat q lanes -> Forall (fun e => as_size e <> 0 -> access_ok e) beat -> lq_op q = MST ->
  (forall i, i ∈ P -> active beat i = true) ->
  fold_left (fun m i => fst (mem_access m (lane_req am hc q i))) P m a = fold_left (thread_store beat) P m a.
Proof.
  intros Hp Hok Hmst HP. apply fold_stores_ext; [|done]. intros m1 m2 i a' Hi%HP Hm. rewrite list.Forall_forall in Hok.
  unfold active in Hi. unfold thread_store. destruct (beat !! i) as [e|] eqn:He; [|done]. apply negb_true_iff, Z.eqb_neq in Hi.
  assert (Hac : access_ok e) by (apply Hok; [by eapply list_elem_of_lookup_2|done]).
  destruct (pk_lanes _ _ _ _ _ _ Hp i) as [_ Hlane]. destruct (Hlane e He Hi) as (Ha & _ & _ & Hd). destruct (Hd eq_refl) as (d & be & Hb & Hd' & Hbe).
  unfold mem_access. cbn [lane_req rq_op rq_addr rq_data rq_byteen]. rewrite Hmst. cbn [memop_is_write fst]. rewrite Hd', Hbe, Ha.
  pose proof Hac as (Hu & Hsz & _). pose proof (access_fits e Hac) as Hf. unfold fits in Hf.
  destruct (lane_block_stores e m1 Hu ltac:(lia) Hf) as (d2 & be2 & Hb2 & _ & Hst2). rewrite Hb in Hb2. injection Hb2 as <- <-. rewrite Hst2.
  unfold store_bytes. by rewrite Hm.
Qed.

Lemma active_lt beat i : active beat i = true -> (i < length beat)%nat.
Proof. unfold active. destruct (beat !! i) eqn:E; [|done]. intros _. by eapply lookup_lt_Some. Qed.

(** C3 (refinement): a warp's store, one beat of it, with naturally aligned
    accesses, is its threads' stores.  The request the unit packs for the
    active threads of the beat is merged by the coalescer into the requests of
    its ports.  The requests of one port, applied by the memory, write at every
    address what the threads of the port's lanes write when their stores are
    executed one after the other in thread order.  The requests of all ports,
    in whatever order they reach the memory, write what all the threads write
    in thread order, provided that threads served by different ports do not
    store to the same byte; without that, the thread order is kept within each
    port only. *)
Theorem warp_store_isa t beat m : sizes_ok co -> (0 < output_size_ co)%nat -> input_size_ co = VX_CFG_NUM_LSU_LANES c -> line_ok co -> 8 <= line_size_ co ->
  lt_op_type t = OpLsu LSU_STORE -> (length beat <= VX_CFG_NUM_LSU_LANES c)%nat -> Forall (fun e => as_size e <> 0 -> access_ok e) beat ->
  exists q lanes, pack_beat c t false true beat = Some (q, lanes) /\
  (forall o a, (o < output_size_ co)%nat ->
     fold_left (fun m r => fst (mem_access m r)) (port_reqs am hc (lq_tag q) q (co_rounds co (output_ratio_ co) (zeros (input_size_ co)) q) o) m a
     = fold_left (thread_store beat) (filter (fun i => active beat i = true) (seq (o * output_ratio_ co) (output_ratio_ co))) m a) /\
  (ports_apart beat -> forall reqs, interleaves co am hc q reqs -> forall a,
     fold_left (fun m r => fst (mem_access m r)) reqs.*2 m a
     = fold_left (thread_store beat) (filter (fun i => active beat i = true) (seq 0 (input_size_ co))) m a).
Proof.
  intros Hz H0 Hin Hl H8 Hop Hlen Hok. unfold pack_beat. rewrite Hop. qproj.
  destruct (pack_fold (VX_CFG_NUM_LSU_LANES c) true ((LsuReq_init (VX_CFG_NUM_LSU_LANES c)) <| lq_wid := lt_wid t |> <| lq_op := MST |> <| lq_flags := 0 |>) beat) as (q & lanes & Hq & Hp);
    try (qproj; cbn; unfold zeros; by rewrite ?length_replicate).
  { intros j. qproj. cbn. apply test_zeros. }
  { intros _. eapply Forall_impl; [|exact Hok]. intros e He Hs. by apply access_fits, He. }
  exists q, lanes. split; [exact Hq|]. pose proof Hp as [(L1 & _) (Hqop & _) Hlanes].
  assert (Hmst : lq_op q = MST) by (rewrite Hqop; done).
  assert (Hmask : forall i, test (lq_mask q) i = active beat i) by (intros i; apply Hlanes).
  assert (HP : forall l, filter (fun i => test (lq_mask q) i = true) l = filter (fun i => active beat i = true) l) by (intros l; apply filter_ext_in; intros i _; by rewrite Hmask).
  assert (Hlok : forall i, test (lq_mask q) i = true -> lane_ok co q i).
  { intros i Hi. rewrite Hmask in Hi. pose proof (active_lt _ _ Hi) as [e He]%lookup_lt_is_Some_2. unfold active in Hi. rewrite He in Hi.
    apply negb_true_iff, Z.eqb_neq in Hi. eapply packed_lane_ok; try done. rewrite list.Forall_forall in Hok. eapply Hok; [by eapply list_elem_of_lookup_2|done]. }
  split.
  - intros o a Ho. destruct (coalesce_equiv co am hc q o m Hz Hl ltac:(congruence) Ho Hlok) as (_ & Ls & _ & _ & Hst & _).
    rewrite (Hst Hmst a). unfold group_lanes. rewrite HP. eapply lanes_are_threads; try done. by intros i [Hi _]%list_elem_of_filter.
  - intros Hap reqs Hi a. rewrite (merged_stores co am hc q reqs m a); try done; [|congruence|by eapply packed_apart].
    rewrite HP. eapply lanes_are_threads; try done. by intros i [Hi' _]%list_elem_of_filter.
Qed.

(** The lanes of a packed load carry no byte enables, so that each is in its
    own line. *)
Lemma packed_load_lane N q0 beat q lanes i e : packed N false q0 beat q lanes -> lq_byteen q0 = replicate N 0 ->
  beat !! i = Some e -> as_size e <> 0 -> in_u 64 (as_addr e) -> lane_ok co q i.
Proof.
  intros [_ (_ & _ & _ & Hbe) Hl] Hz Hi Hs Ha. destruct (Hl i) as [_ He]. destruct (He e Hi Hs) as (Ea & _). split; [by rewrite Ea|].
  intros b _ Hb. unfold lane_be in Hb. rewrite (Hbe eq_refl), Hz in Hb. exfalso. destruct (replicate N 0 !! i) as [x|] eqn:E; cbn in Hb; [|by rewrite Z.bits_0 in Hb].
  apply lookup_replicate in E as [-> _]. by rewrite Z.bits_0 in Hb.
Qed.

(** A warp's load gives every thread the value at its own
    address.  The request the unit packs for a beat of loads is merged by the
    coalescer into lane sets that cover every active lane of the port once;
    the block the memory returns for the request of a lane set makes the unit
    write, for every thread of the set, the bytes at the thread's own address,
    extended or boxed as the instruction says. *)
Theorem warp_load_isa t beat o m width stride offset : xlen c = 32 \/ xlen c = 64 -> sizes_ok co -> input_size_ co = VX_CFG_NUM_LSU_LANES c -> line_ok co ->
  (o < output_size_ co)%nat -> lt_op_type t = OpLsu LSU_LOAD -> lt_args t = LsuArgs width stride offset -> load_ok width (lt_dst_float t) -> whole_reg t ->
  (length beat <= VX_CFG_NUM_LSU_LANES c)%nat -> (forall a, is_byte (m a)) ->
  Forall (fun e => as_size e <> 0 -> in_u 64 (as_addr e) /\ as_size e = access_bytes width /\ fits e) beat ->
  exists q lanes, pack_beat c t false false beat = Some (q, lanes) /\ entry_width t = Some width /\
  exists Ls, concat Ls ≡ₚ filter (fun i => active beat i = true) (seq (o * output_ratio_ co) (output_ratio_ co)) /\
  port_reqs am hc (lq_tag q) q (co_rounds co (output_ratio_ co) (zeros (input_size_ co)) q) o = map (slot_req co am hc q (lq_tag q)) Ls /\
  forall L i, L ∈ Ls -> i ∈ L -> exists e d, lanes !! i = Some e /\ beat !! i = Some e /\
    (snd (mem_access m (slot_req co am hc q (lq_tag q) L)) ≫= rs_data) = Some d /\
    lane_value c t width (as_addr e) d = Some (isa_load c width (lt_dst_float t) (load_bytes m (as_addr e) (as_size e))).
Proof.
  intros Hx Hz Hin Hl Ho Hop Harg Hw Hb Hlen Hm Hok. unfold pack_beat, entry_width. rewrite Hop, Harg. qproj.
  destruct (pack_fold (VX_CFG_NUM_LSU_LANES c) false ((LsuReq_init (VX_CFG_NUM_LSU_LANES c)) <| lq_wid := lt_wid t |> <| lq_op := MLD |> <| lq_flags := 0 |>) beat) as (q & lanes & Hq & Hp);
    try (qproj; cbn; unfold zeros; by rewrite ?length_replicate).
  { intros j. qproj. cbn. apply test_zeros. }
  exists q, lanes. split; [exact Hq|]. split; [done|]. pose proof Hp as [(L1 & _) (Hqop & _) Hlanes].
  assert (Hmld : lq_op q = MLD) by (rewrite Hqop; done). assert (Hmask : forall i, test (lq_mask q) i = active beat i) by (intros i; apply Hlanes).
  assert (Hact : forall i, active beat i = true -> exists e, beat !! i = Some e /\ as_size e <> 0 /\ in_u 64 (as_addr e) /\ as_size e = access_bytes width /\ fits e).
  { intros i Hi. unfold active in Hi. destruct (beat !! i) as [e|] eqn:E; [|done]. apply negb_true_iff, Z.eqb_neq in Hi. exists e. split_and!; try done;
      rewrite list.Forall_forall in Hok; by destruct (Hok e ltac:(by eapply list_elem_of_lookup_2) Hi) as (? & ? & ?). }
  destruct (coalesce_equiv co am hc q o m) as (_ & Ls & HLs & Hreqs & _ & Hld & _); [done|done|congruence|done| |].
  { intros i Hi. rewrite Hmask in Hi. destruct (Hact i Hi) as (e & He & Hs & Ha & _). by eapply packed_load_lane. }
  assert (HP : group_lanes co (lq_mask q) o = filter (fun i => active beat i = true) (seq (o * output_ratio_ co) (output_ratio_ co))).
  { unfold group_lanes. apply filter_ext_in. intros i _. by rewrite Hmask. }
  rewrite HP in HLs. exists Ls. split; [done|]. split; [done|]. intros L i HL Hi.
  assert (Hai : active beat i = true).
  { assert (Hc : i ∈ concat Ls) by (apply list_elem_of_In, in_concat; exists L; split; by apply list_elem_of_In). rewrite HLs in Hc. by apply list_elem_of_filter in Hc as [? _]. }
  destruct (Hact i Hai) as (e & He & Hs & Ha & Hsz & Hf). destruct (Hlanes i) as [_ Hlane]. destruct (Hlane e He Hs) as (Ea & _ & Hle & _).
  exists e, (read_block m (block_of (as_addr e))). split; [done|]. split; [done|]. pose proof (Hld Hmld L i HL Hi) as Hd.
  unfold fits in Hf. rewrite Hsz in Hf |- *. split; [|by apply lane_value_isa; [done|done|done|apply load_bytes_range; [done|pose proof (access_bytes_range width (proj1 Hw)); lia]|
    apply read_data_block; [done|pose proof (access_bytes_range width (proj1 Hw)); lia|done]]].
  assert (Hy : (snd (mem_access m (lane_req am hc q i)) ≫= rs_data) = Some (read_block m (block_of (as_addr e)))).
  { unfold mem_access. cbn [lane_req rq_op rq_addr]. by rewrite Hmld, Ea. }
  rewrite <- Hy. destruct (snd (mem_access m (slot_req _ _ _ _ _ _))), (snd (mem_access m (lane_req _ _ _ _))); try done. cbn [fmap option_fmap option_map mbind option_bind] in Hd |- *. by injection Hd.
Qed.

End WarpStore.

Module WarpStoreDemo.

(** Four threads, thread 1 inactive; threads 2 and 3 store a word and a
    halfword of one line through the second port. *)
Definition store_c : lsu_config :=
  {| VX_CFG_NUM_THREADS := 4; VX_CFG_NUM_LSU_LANES := 4; xlen := 64; VX_CFG_EXT_A_ENABLED := true; VX_CFG_LSU_QUEUE_IN_SIZE := 4; VX_CFG_LSU_PENDING_SIZE := 8 |}.
Definition store_co : co_config := {| input_size_ := 4; output_size_ := 2; line_size_ := 16; co_queue_size := 2 |}.
Definition store_trace : lsu_trace :=
  {| lt_op_type := OpLsu LSU_STORE; lt_args := LsuArgs 2 0 0; lt_tmask := [true; false; true; true]; lt_src0 := []; lt_src1 := []; lt_wid := 1; lt_cid := 0; lt_uuid := 5;
     lt_dst_float := false; lt_dst_bytesel := 0xFF; lt_dst_data := [] |}.
Definition store_beat : list mem_addr_size_t :=
  [{| as_addr := 0x2000; as_size := 4; as_data := 0xAABBCCDD; as_tid := 0 |}; {| as_addr := 0; as_size := 0; as_data := 0; as_tid := 1 |};
   {| as_addr := 0x2010; as_size := 4; as_data := 0x11223344; as_tid := 2 |}; {| as_addr := 0x2012; as_size := 2; as_data := 0x5566; as_tid := 3 |}].

Lemma store_beat_ok : Forall (fun e => as_size e <> 0 -> access_ok e) store_beat.
Proof. repeat constructor; cbn in *; unfold in_u; lia || (intros; lia) || done. Qed.

Definition reqs_of (beat : list mem_addr_size_t) (o : nat) : list MemReq :=
  match pack_beat store_c store_trace false true beat with
  | Some (q, _) => port_reqs CoalesceDemo.demo_am CoalesceDemo.demo_hc (lq_tag q) q (co_rounds store_co (output_ratio_ store_co) (zeros (input_size_ store_co)) q) o
  | None => []
  end.

(** The second port's request overtakes the first port's. *)
Definition store_order : list (nat * MemReq) := map (pair 1%nat) (reqs_of store_beat 1) ++ map (pair 0%nat) (reqs_of store_beat 0).

Lemma store_beat_apart : ports_apart store_co store_beat.
Proof.
  intros i j e f Hi Hj Hse Hsf Hg. pose proof (lookup_lt_Some _ _ _ Hi) as Hli. pose proof (lookup_lt_Some _ _ _ Hj) as Hlj. cbn in Hli, Hlj.
  do 4 (destruct i as [|i]; [do 4 (destruct j as [|j]; [injection Hi as <-; injection Hj as <-; cbn in *; lia|]); lia|]). lia.
Qed.

Lemma store_ports o : (o < 2)%nat -> (filter (fun x => fst x = o) store_order).*2 = reqs_of store_beat o.
Proof. intros Ho. destruct o as [|[|o]]; [vm_compute; reflexivity|vm_compute; reflexivity|lia]. Qed.

Lemma store_order_ports p r : (p, r) ∈ store_order -> (p < 2)%nat.
Proof.
  unfold store_order. generalize (reqs_of store_beat 0) as l0, (reqs_of store_beat 1) as l1. intros l0 l1 Hin.
  apply elem_of_app in Hin as [Hin|Hin]; apply list_elem_of_fmap in Hin as (x & E & _); injection E as -> _; lia.
Qed.

Lemma reqs_of_packed q lanes o : pack_beat store_c store_trace false true store_beat = Some (q, lanes) ->
  reqs_of store_beat o = port_reqs CoalesceDemo.demo_am CoalesceDemo.demo_hc (lq_tag q) q (co_rounds store_co (output_ratio_ store_co) (zeros (input_size_ store_co)) q) o.
Proof. intros Hq. unfold reqs_of. rewrite Hq. reflexivity. Qed.

Lemma store_interleaves q lanes : pack_beat store_c store_trace false true store_beat = Some (q, lanes) ->
  interleaves store_co CoalesceDemo.demo_am CoalesceDemo.demo_hc q store_order.
Proof.
  intros Hq. split; [intros p r Hin; exact (store_order_ports p r Hin)|]. intros o Ho. rewrite <- (reqs_of_packed q lanes o Hq). exact (store_ports o Ho).
Qed.

Lemma store_lanes : filter (fun i => active store_beat i = true) (seq 0 (input_size_ store_co)) = [0%nat; 2%nat; 3%nat].
Proof. vm_compute. reflexivity. Qed.

Lemma store_order_length : length store_order = 2%nat.
Proof. vm_compute. reflexivity. Qed.

Lemma warp_store_isa_witness : length store_order = 2%nat /\ forall a, fold_left (fun m r => fst (mem_access m r)) store_order.*2 (fun _ => 0) a
    = fold_left (thread_store store_beat) [0%nat; 2%nat; 3%nat] (fun _ => 0) a.
Proof.
  destruct (warp_store_isa store_c store_co CoalesceDemo.demo_am CoalesceDemo.demo_hc store_trace store_beat (fun _ => 0)) as (q & lanes & Hq & _ & H).
  - reflexivity.
  - cbn. lia.
  - reflexivity.
  - exists 4. split; [lia|reflexivity].
  - cbn. lia.
  - reflexivity.
  - cbn. lia.
  - exact store_beat_ok.
  - split; [exact store_order_length|]. rewrite <- store_lanes. exact (H store_beat_apart store_order (store_interleaves q lanes Hq)).
Defined.

(** Threads 1 and 2 store to one word through different ports.  Thread 1's
    request is the second of its port; when the ports take turns it reaches
    the memory last, and the word keeps the value of thread 1. *)
Definition clash_beat : list mem_addr_size_t :=
  [{| as_addr := 0x2000; as_size := 4; as_data := 0xAA; as_tid := 0 |}; {| as_addr := 0x3000; as_size := 4; as_data := 0xBB; as_tid := 1 |};
   {| as_addr := 0x3000; as_size := 4; as_data := 0xCC; as_tid := 2 |}; {| as_addr := 0; as_size := 0; as_data := 0; as_tid := 3 |}].

Lemma ports_reorder_stores :
  match reqs_of clash_beat 0, reqs_of clash_beat 1 with
  | [r0; r1], [r2] => fold_left (fun m r => fst (mem_access m r)) [r0; r2; r1] (fun _ => 0) 0x3000 = 0xBB /\
                      fold_left (thread_store clash_beat) [0%nat; 1%nat; 2%nat] (fun _ => 0) 0x3000 = 0xCC
  | _, _ => False
  end.
Proof. vm_compute. split; reflexivity. Qed.

(** Threads 2 and 3 load halfwords of one line; thread 3 reads 0xF3F2. *)
Definition load_trace : lsu_trace := store_trace <| lt_op_type := OpLsu LSU_LOAD |> <| lt_args := LsuArgs 1 0 0 |>.
Definition load_beat : list mem_addr_size_t :=
  [{| as_addr := 0x2000; as_size := 2; as_data := 0; as_tid := 0 |}; {| as_addr := 0; as_size := 0; as_data := 0; as_tid := 1 |};
   {| as_addr := 0x20F0; as_size := 2; as_data := 0; as_tid := 2 |}; {| as_addr := 0x20F2; as_size := 2; as_data := 0; as_tid := 3 |}].

Lemma load_beat_ok : Forall (fun e => as_size e <> 0 -> in_u 64 (as_addr e) /\ as_size e = access_bytes 1 /\ fits e) load_beat.
Proof. repeat constructor; cbn in *; try done; unfold in_u; lia || (intros; lia) || (vm_compute; discriminate). Qed.

Lemma warp_load_isa_witness : exists q lanes L d, pack_beat store_c load_trace false false load_beat = Some (q, lanes) /\ 3%nat ∈ L /\
  (snd (mem_access LsuValuesDemo.mem0 (slot_req store_co CoalesceDemo.demo_am CoalesceDemo.demo_hc q (lq_tag q) L)) ≫= rs_data) = Some d /\
  lane_value store_c load_trace 1 0x20F2 d = Some 0xFFFFFFFFFFFFF3F2.
Proof.
  destruct (warp_load_isa store_c store_co CoalesceDemo.demo_am CoalesceDemo.demo_hc load_trace load_beat 1 LsuValuesDemo.mem0 1 0 0) as (q & lanes & Hq & _ & Ls & HLs & _ & H).
  - right. reflexivity.
  - reflexivity.
  - reflexivity.
  - exists 4. split; [lia|reflexivity].
  - cbn. lia.
  - reflexivity.
  - reflexivity.
  - split; [lia|discriminate].
  - right. reflexivity.
  - cbn. lia.
  - intros a. apply land_in_u_r; [lia|]. unfold in_u. lia.
  - exact load_beat_ok.
  - assert (H3 : In 3%nat (concat Ls)) by (rewrite HLs; vm_compute; tauto). apply in_concat in H3 as (L & HL & H3). apply list_elem_of_In in HL, H3.
    destruct (H L 3%nat HL H3) as (e & d & _ & He & Hd & Hv). injection He as <-. exists q, lanes, L, d. split; [exact Hq|]. split; [exact H3|]. split; [exact Hd|]. exact Hv.
Defined.

End WarpStoreDemo.
