(* ===== verification/LsuProofs.v ===== *)
(** * The load/store unit loses no trace

    A block of the unit between the pipeline and a memory that answers the
    lanes of a request in any order and in any grouping.  The unit never
    aborts on traces whose accesses stay in a block and whose atomic operations
    have an active thread; a trace that enters it is in exactly one place until
    it leaves, and a load or an atomic operation leaves when
    the last lane of its last request is answered. *)

From S2P Require Import Prelude MemTypes Sched Decode Cache CacheWorld LsuTypes Coalescer CoalescerRound Lsu LsuValues LsuPack.

(** ** The world *)

Record lworld := {
  lw_s : LsuBlock;
  lw_in : list nat;                    (* traces accepted *)
  lw_out : list nat;                   (* traces committed *)
  lw_mem : list (Z * list bool)        (* tag and lanes of the requests the memory holds *)
}.

Inductive levent := LIn (p : nat) | LTake | LRsp (k : nat) (frag : list bool) (data : list (option block)) | LTick | LOut.

(** A fragment answers lanes that wait, each with a whole block. *)
Definition frag_ok (m frag : list bool) (data : list (option block)) : bool :=
  (length frag =? length m)%nat && any frag && bv_none (bv_andn frag m) &&
  forallb (fun i => negb (test frag i) || match data !! i with Some (Some d) => (length d =? 64)%nat | _ => false end) (seq 0 (length frag)).

Section World.
Context (c : lsu_config).

Definition lworld_step (w : lworld) (ev : levent) : option lworld :=
  let s := lw_s w in
  match ev with
  | LIn p => if ch_full (lb_Input s) || (length (lb_heap s) <=? p)%nat then Some w else Some (w <| lw_s := s <| lb_Input := ch_push (lb_Input s) p |> |> <| lw_in := lw_in w ++ [p] |>)
  | LTake =>
      match ch_q (sw_req s) with
      | [] => Some w
      | q :: _ => Some (w <| lw_s := s <| sw_req := ch_pop (sw_req s) |> |>
                          <| lw_mem := if needs_rsp (lq_op q) then lw_mem w ++ [(lq_tag q, lq_mask q)] else lw_mem w |>)
      end
  | LRsp k frag data =>
      match lw_mem w !! k with
      | Some (t, m) =>
          if frag_ok m frag data && negb (ch_full (sw_rsp s)) then
            let left := bv_andn m frag in
            Some (w <| lw_s := s <| sw_rsp := ch_push (sw_rsp s) {| lr_mask := frag; lr_tag := t; lr_cid := 0; lr_uuid := 0; lr_data := data |} |> |>
                    <| lw_mem := if bv_none left then delete k (lw_mem w) else <[k := (t, left)]> (lw_mem w) |>)
          else Some w
      | None => Some w
      end
  | LTick => s ← lsu_on_tick c s; Some (w <| lw_s := s |>)
  | LOut =>
      match ch_q (lb_Output s) with
      | [] => Some w
      | p :: _ => Some (w <| lw_s := s <| lb_Output := ch_pop (lb_Output s) |> |> <| lw_out := lw_out w ++ [p] |>)
      end
  end.

Definition lworld_run (w : lworld) (evs : list levent) : option lworld := fold_left (fun w ev => w ← w; lworld_step w ev) evs (Some w).

Definition lworld_init (cap : nat) (heap : list lsu_trace) : lworld := {| lw_s := LsuBlock_init c cap heap; lw_in := []; lw_out := []; lw_mem := [] |}.

(** ** Traces the unit accepts *)

(** The operands match the operation, the accesses of the active threads do
    not cross a block, and an atomic operation has an active thread. *)
Definition trace_ok (t : lsu_trace) : Prop :=
  length (lt_dst_data t) = VX_CFG_NUM_THREADS c /\
  match lt_op_type t with
  | OpLsu LSU_FENCE => True
  | OpLsu _ => exists o w s f, lt_args t = LsuArgs w s f /\ lsu_op_of t = Some o /\ 0 <= w <= 6 /\
      forall tid, test (lt_tmask t) tid = true -> fits (thread_access c t o tid)
  | OpAmo _ => VX_CFG_EXT_A_ENABLED c = true /\ exists o w aq rl, lt_args t = AmoArgs w aq rl /\ lsu_op_of t = Some o /\ 0 <= w /\
      (exists tid, (tid < VX_CFG_NUM_THREADS c)%nat /\ test (lt_tmask t) tid = true) /\ forall tid, test (lt_tmask t) tid = true -> fits (thread_access c t o tid)
  | _ => False
  end.

(** ** Packets of a tag *)

Definition req_packets (l : list LsuReq) : list (Z * list bool) := map (fun q => (lq_tag q, lq_mask q)) (filter (fun q => needs_rsp (lq_op q) = true) l).
Definition packets (w : lworld) : list (Z * list bool) :=
  req_packets (ch_q (sw_req (lw_s w))) ++ lw_mem w ++ map (fun r => (lr_tag r, lr_mask r)) (ch_q (sw_rsp (lw_s w))).

Fixpoint lanes_out (t : Z) (l : list (Z * list bool)) : Z :=
  match l with
  | [] => 0
  | (t', m) :: l => (if t' =? t then mask_count m else 0) + lanes_out t l
  end.

(** The traces that leave with an entry of the table. *)
Definition waits_for (v : option lsu_pending_t) : option nat := e ← v; if pn_eop e then Some (pn_trace e) else None.
Definition waiting (s : LsuBlock) : list nat := omap waits_for (ht_entries (pending_reqs s)).

(** A lane of an entry whose data can be written back. *)
Definition info_ok (width : Z) (e : mem_addr_size_t) : Prop := as_size e = access_bytes width /\ fits e /\ (as_tid e < VX_CFG_NUM_THREADS c)%nat.

Definition entry_ok (w : lworld) (n : nat) (e : lsu_pending_t) : Prop :=
  pn_count e = lanes_out (Z.of_nat n) (packets w) /\ 0 < pn_count e <= Z.of_nat (VX_CFG_NUM_LSU_LANES c) /\ 0 <= pn_width e <= 6 /\
  exists t, lb_heap (lw_s w) !! pn_trace e = Some t /\ trace_ok t.

Definition packet_ok (s : LsuBlock) (x : Z * list bool) : Prop :=
  exists n e, fst x = Z.of_nat n /\ ht_entries (pending_reqs s) !! n = Some (Some e) /\ any (snd x) = true /\
    forall i, test (snd x) i = true -> exists info, pn_lanes e !! i = Some info /\ info_ok (pn_width e) info.

Definition rsp_ok (r : LsuRsp) : Prop := forall i, test (lr_mask r) i = true -> exists d, lr_data r !! i = Some (Some d) /\ length d = 64%nat.

Definition tokens (w : lworld) : list nat :=
  let s := lw_s w in lw_out w ++ ch_q (lb_Output s) ++ option_list (fence_ s) ++ waiting s ++ req_queue s ++ ch_q (lb_Input s).

Definition head_addrs (s : LsuBlock) : Prop :=
  remain_addrs s = 0%nat \/ exists p rest t, req_queue s = p :: rest /\ lb_heap s !! p = Some t /\ is_fence_trace t = false /\ compute_addrs c t = Some (addr_list s) /\
    (remain_addrs s <= length (addr_list s))%nat.

Record linv (w : lworld) : Prop := {
  li_tokens : tokens w ≡ₚ lw_in w;
  li_table : ht_ok (pending_reqs (lw_s w));
  li_heap : forall p, p ∈ lw_in w -> exists t, lb_heap (lw_s w) !! p = Some t /\ trace_ok t;
  li_all : Forall (trace_ok) (lb_heap (lw_s w));
  li_addrs : head_addrs (lw_s w);
  li_entries : forall n e, ht_entries (pending_reqs (lw_s w)) !! n = Some (Some e) -> entry_ok w n e;
  li_packets : Forall (packet_ok (lw_s w)) (packets w);
  li_rsps : Forall rsp_ok (ch_q (sw_rsp (lw_s w)))
}.

End World.

(** ** Counting lanes *)

Lemma mask_count_nonneg m : 0 <= mask_count m.
Proof. unfold mask_count. lia. Qed.

Lemma mask_count_pos m : any m = true -> 0 < mask_count m.
Proof.
  intros Ha. unfold mask_count. apply any_spec in Ha as [j Hj]. unfold test in Hj. destruct (m !! j) as [b|] eqn:E; [|done]. cbn in Hj. subst b.
  unfold Sched.count. apply list_elem_of_lookup_2 in E. assert (Hin : true ∈ filter (fun b => b = true) m) by (by apply list_elem_of_filter).
  destruct (filter _ m); [by apply elem_of_nil in Hin|]. cbn. lia.
Qed.

Lemma mask_count_split m frag : length frag = length m -> (forall i, test frag i = true -> test m i = true) ->
  mask_count m = mask_count frag + mask_count (bv_andn m frag).
Proof.
  unfold mask_count. revert frag. induction m as [|b m IH]; intros [|f frag] Hl Hs; try done. injection Hl as Hl.
  assert (Hs' : forall i, test frag i = true -> test m i = true) by (intros i; apply (Hs (S i))). specialize (IH frag Hl Hs').
  specialize (Hs 0%nat). unfold test in Hs. cbn in Hs. change (bv_andn (b :: m) (f :: frag)) with ((b && negb f) :: bv_andn m frag).
  unfold Sched.count in *. rewrite !filter_cons. destruct b, f; repeat case_decide; try done; cbn [length] in *; try lia.
Qed.

Lemma mask_count_le m : mask_count m <= Z.of_nat (length m).
Proof. unfold mask_count, Sched.count. apply inj_le, length_filter. Qed.

Lemma lanes_out_app t l l' : lanes_out t (l ++ l') = lanes_out t l + lanes_out t l'.
Proof. induction l as [|[t' m] l IH]; [done|]. cbn [app lanes_out]. rewrite IH. lia. Qed.

Lemma lanes_out_nonneg t l : 0 <= lanes_out t l.
Proof. induction l as [|[t' m] l IH]; cbn [lanes_out]; [lia|]. pose proof (mask_count_nonneg m). case_match; lia. Qed.

Lemma lanes_out_perm t l l' : l ≡ₚ l' -> lanes_out t l = lanes_out t l'.
Proof. induction 1 as [|[? ?]|[? ?] [? ?]|]; cbn [lanes_out]; lia. Qed.

(** Under a tag without lanes there is no packet. *)
Lemma lanes_out_zero t m l : lanes_out t l = 0 -> (t, m) ∈ l -> any m = true -> False.
Proof.
  intros Hz [l1 [l2 ->]]%list_elem_of_split Ha. rewrite lanes_out_app in Hz. cbn [lanes_out] in Hz. rewrite Z.eqb_refl in Hz.
  pose proof (lanes_out_nonneg t l1). pose proof (lanes_out_nonneg t l2). pose proof (mask_count_pos m Ha). lia.
Qed.

Lemma lanes_out_fresh t l : (forall m, (t, m) ∉ l) -> lanes_out t l = 0.
Proof.
  induction l as [|[t' m] l IH]; intros H; [done|]. cbn [lanes_out]. destruct (Z.eqb_spec t' t) as [->|].
  - exfalso. apply (H m). by left.
  - rewrite IH; [lia|]. intros m' Hin. apply (H m'). by right.
Qed.

(** ** The traces of a table *)

Lemma omap_insert_perm {A B} (f : A -> option B) l n v v' : l !! n = Some v ->
  option_list (f v) ++ omap f (<[n := v']> l) ≡ₚ option_list (f v') ++ omap f l.
Proof.
  revert n. induction l as [|x l IH]; intros [|n] H; cbn in H; simplify_eq.
  - change (<[0%nat := v']> (v :: l)) with (v' :: l). cbn. destruct (f v), (f v'); cbn; try done. apply perm_swap.
  - change (<[S n := v']> (x :: l)) with (x :: <[n := v']> l). cbn. destruct (f x) as [y|]; [|by apply IH].
    rewrite <- !Permutation_middle. by rewrite IH.
Qed.

Lemma delete_insert_list {A} (l : list A) k x : delete k (<[k := x]> l) = delete k l.
Proof. revert k. induction l as [|y l IH]; intros [|k]; try done. change (y :: delete k (<[k := x]> l) = y :: delete k l). by rewrite IH. Qed.

Ltac lproj :=
  cbv [set const]; cbn [lw_s lw_in lw_out lw_mem lb_Input lb_Output sw_req sw_rsp req_queue pending_reqs fence_ addr_list remain_addrs lb_heap pending_loads_ st_loads st_stores
    ch_push ch_pop ch_q ch_cap].

Section Steps.
Context (c : lsu_config).

(** A step of the environment: the tables and the heap stay, the packets are
    moved or split. *)
Lemma linv_env w w' : linv c w -> tokens w' ≡ₚ lw_in w' -> lw_in w' = lw_in w \/ (exists p t, lw_in w' = lw_in w ++ [p] /\ lb_heap (lw_s w) !! p = Some t /\ trace_ok c t) ->
  pending_reqs (lw_s w') = pending_reqs (lw_s w) -> lb_heap (lw_s w') = lb_heap (lw_s w) -> req_queue (lw_s w') = req_queue (lw_s w) ->
  addr_list (lw_s w') = addr_list (lw_s w) -> remain_addrs (lw_s w') = remain_addrs (lw_s w) ->
  (forall t, lanes_out t (packets w') = lanes_out t (packets w)) -> Forall (packet_ok c (lw_s w)) (packets w') -> Forall rsp_ok (ch_q (sw_rsp (lw_s w'))) -> linv c w'.
Proof.
  intros [I1 I2 I3 I0 I4 I5 I6 I7] Ht Hin Ep Eh Eq Ea Er El Hp Hr. constructor; try done.
  - by rewrite Ep.
  - rewrite Eh. destruct Hin as [->|(p & t & -> & Hp' & Hok)]; [done|]. intros p' [H|H%list_elem_of_singleton]%elem_of_app; [by apply I3|]. subst. eauto.
  - by rewrite Eh.
  - unfold head_addrs in *. rewrite Eh, Eq, Ea, Er. done.
  - rewrite Ep. intros n e Hn. destruct (I5 n e Hn) as (H1 & H2 & H3 & H4). unfold entry_ok. rewrite El, Eh. done.
  - eapply Forall_impl; [|exact Hp]. intros x (n & e & H1 & H2 & H3). exists n, e. rewrite Ep. done.
Qed.

Lemma step_in w p t : linv c w -> lb_heap (lw_s w) !! p = Some t -> trace_ok c t ->
  linv c (w <| lw_s := (lw_s w) <| lb_Input := ch_push (lb_Input (lw_s w)) p |> |> <| lw_in := lw_in w ++ [p] |>).
Proof.
  intros I Hp Ht. pose proof I as [I1 I2 I3 I0 I4 I5 I6 I7]. apply (linv_env w); try done; lproj.
  - unfold tokens in *. lproj. rewrite <- I1. by rewrite !app_assoc.
  - right. eauto.
Qed.

Lemma step_take w q l : linv c w -> ch_q (sw_req (lw_s w)) = q :: l ->
  linv c (w <| lw_s := (lw_s w) <| sw_req := ch_pop (sw_req (lw_s w)) |> |>
            <| lw_mem := if needs_rsp (lq_op q) then lw_mem w ++ [(lq_tag q, lq_mask q)] else lw_mem w |>).
Proof.
  intros I Hq. pose proof I as [I1 I2 I3 I0 I4 I5 I6 I7]. 
  assert (HP : forall s', ch_q (sw_req s') = l -> sw_rsp s' = sw_rsp (lw_s w) ->
    packets {| lw_s := s'; lw_in := lw_in w; lw_out := lw_out w; lw_mem := if needs_rsp (lq_op q) then lw_mem w ++ [(lq_tag q, lq_mask q)] else lw_mem w |} ≡ₚ packets w).
  { intros s' E1 E2. unfold packets. lproj. rewrite E1, E2, Hq. unfold req_packets. rewrite filter_cons. destruct (needs_rsp (lq_op q)) eqn:En.
    - rewrite decide_True by done. cbn [map app]. rewrite <- app_assoc. cbn [app]. rewrite <- !Permutation_middle. done.
    - by rewrite decide_False by done. }
  apply (linv_env w); try done; lproj.
  - by left.
  - intros t. apply lanes_out_perm, HP; [|done]. lproj. by rewrite Hq.
  - rewrite HP; [done| |done]. lproj. by rewrite Hq.
Qed.

Lemma frag_ok_spec m frag data : frag_ok m frag data = true -> length frag = length m /\ any frag = true /\ (forall i, test frag i = true -> test m i = true) /\
  forall i, test frag i = true -> exists d, data !! i = Some (Some d) /\ length d = 64%nat.
Proof.
  unfold frag_ok. rewrite !andb_true_iff. intros (((Hl & Ha) & Hs) & Hd). apply Nat.eqb_eq in Hl. split_and!; try done.
  - intros i Hi. rewrite bv_none_spec in Hs. specialize (Hs i). rewrite test_bv_andn, Hi in Hs by done. by destruct (test m i).
  - intros i Hi. rewrite forallb_forall in Hd. specialize (Hd i ltac:(apply in_seq; pose proof (test_lt _ _ Hi); lia)). rewrite Hi in Hd. cbn in Hd.
    destruct (data !! i) as [[d|]|]; try done. apply Nat.eqb_eq in Hd. eauto.
Qed.

Lemma step_frag w k t m frag data : linv c w -> lw_mem w !! k = Some (t, m) -> frag_ok m frag data = true ->
  linv c (w <| lw_s := (lw_s w) <| sw_rsp := ch_push (sw_rsp (lw_s w)) {| lr_mask := frag; lr_tag := t; lr_cid := 0; lr_uuid := 0; lr_data := data |} |> |>
            <| lw_mem := if bv_none (bv_andn m frag) then delete k (lw_mem w) else <[k := (t, bv_andn m frag)]> (lw_mem w) |>).
Proof.
  intros I Hk (Hl & Ha & Hs & Hd)%frag_ok_spec. pose proof I as [I1 I2 I3 I0 I4 I5 I6 I7]. set (left := bv_andn m frag).
  set (mem' := if bv_none left then delete k (lw_mem w) else <[k := (t, left)]> (lw_mem w)).
  assert (Hcount : mask_count m = mask_count frag + mask_count left) by (by apply mask_count_split).
  assert (Hm : exists rest, lw_mem w ≡ₚ (t, m) :: rest /\ mem' ≡ₚ (if bv_none left then [] else [(t, left)]) ++ rest).
  { exists (delete k (lw_mem w)). split; [by apply delete_Permutation|]. unfold mem'. case_match; [done|]. cbn [app].
    rewrite (delete_Permutation (<[k := (t, left)]> (lw_mem w)) k (t, left)) by (apply list_lookup_insert_eq; by eapply lookup_lt_Some). by rewrite delete_insert_list. }
  destruct Hm as (rest & Hm1 & Hm2).
  assert (HP : packets w ≡ₚ (t, m) :: (req_packets (ch_q (sw_req (lw_s w))) ++ rest ++ map (fun r => (lr_tag r, lr_mask r)) (ch_q (sw_rsp (lw_s w))))).
  { unfold packets. rewrite Hm1. cbn [app]. by rewrite <- Permutation_middle. }
  set (base := req_packets (ch_q (sw_req (lw_s w))) ++ rest ++ map (fun r => (lr_tag r, lr_mask r)) (ch_q (sw_rsp (lw_s w)))) in *.
  assert (HP' : forall s', sw_req s' = sw_req (lw_s w) -> ch_q (sw_rsp s') = ch_q (sw_rsp (lw_s w)) ++ [{| lr_mask := frag; lr_tag := t; lr_cid := 0; lr_uuid := 0; lr_data := data |}] ->
    packets {| lw_s := s'; lw_in := lw_in w; lw_out := lw_out w; lw_mem := mem' |} ≡ₚ (t, frag) :: (if bv_none left then [] else [(t, left)]) ++ base).
  { intros s' E1 E2. unfold packets, base. lproj. rewrite E1, E2, Hm2, map_app. cbn [map lr_tag lr_mask]. rewrite !app_assoc. rewrite <- Permutation_cons_append. apply perm_skip.
    rewrite <- !app_assoc. rewrite Permutation_app_swap_app. done. }
  assert (Hok : packet_ok c (lw_s w) (t, m)) by (rewrite HP in I6; by apply list.Forall_cons in I6 as [? _]).
  apply (linv_env w); try done; lproj.
  - by left.
  - intros t'. rewrite (lanes_out_perm t' _ ((t, frag) :: (if bv_none left then [] else [(t, left)]) ++ base)) by (by apply HP'). rewrite (lanes_out_perm t' _ _ HP). cbn [lanes_out]. rewrite lanes_out_app.
    assert (E : lanes_out t' (if bv_none left then [] else [(t, left)]) = if t =? t' then mask_count left else 0).
    { destruct (bv_none left) eqn:En; [|cbn; lia]. cbn. destruct (t =? t'); [|done]. unfold mask_count, Sched.count. symmetry.
      rewrite filter_none; [done|]. intros b Hb ->. apply list_elem_of_lookup in Hb as [j Hj]. rewrite bv_none_spec in En. specialize (En j). unfold test in En. by rewrite Hj in En. }
    rewrite E. destruct (t =? t'); lia.
  - rewrite HP' by done. rewrite HP in I6. apply list.Forall_cons in I6 as [_ I6]. destruct Hok as (n & e & H1 & H2 & _ & H4). cbn [fst snd] in *.
    constructor; [|apply Forall_app; split; [|done]].
    + exists n, e. cbn [fst snd]. split_and!; try done. intros i Hi. by apply H4, Hs.
    + destruct (bv_none left) eqn:En; [constructor|]. constructor; [|constructor]. apply bv_none_false, any_spec in En. exists n, e. cbn [fst snd]. split_and!; try done.
      intros i Hi. unfold left in Hi. rewrite test_bv_andn in Hi by done. apply andb_true_iff in Hi as [Hi _]. by apply H4.
  - apply Forall_app. split; [done|]. constructor; [|constructor]. exact Hd.
Qed.

Lemma step_out w p l : linv c w -> ch_q (lb_Output (lw_s w)) = p :: l ->
  linv c (w <| lw_s := (lw_s w) <| lb_Output := ch_pop (lb_Output (lw_s w)) |> |> <| lw_out := lw_out w ++ [p] |>).
Proof.
  intros I Hq. pose proof I as [I1 I2 I3 I0 I4 I5 I6 I7]. apply (linv_env w); try done; lproj.
  - unfold tokens in *. lproj. rewrite <- I1, Hq. cbn [tail]. by rewrite <- app_assoc.
  - by left.
Qed.

(** ** Responses *)

(** Writing back changes the data of a trace only. *)
Definition same_trace (t t' : lsu_trace) : Prop := exists d, t' = t <| lt_dst_data := d |> /\ length d = length (lt_dst_data t).

Lemma same_trace_refl t : same_trace t t.
Proof. exists (lt_dst_data t). by destruct t. Qed.

Lemma same_trace_trans t t' u : same_trace t t' -> same_trace t' u -> same_trace t u.
Proof. intros (d & -> & Hd) (d' & -> & Hd'). exists d'. split; [done|]. by rewrite <- Hd. Qed.

Lemma same_trace_ok t t' : same_trace t t' -> trace_ok c t -> trace_ok c t'.
Proof. intros (d & -> & Hd) [Hl Ht]. split; [by rewrite <- Hl, <- Hd|exact Ht]. Qed.

Lemma same_trace_addrs t t' : same_trace t t' -> compute_addrs c t' = compute_addrs c t.
Proof. by intros (d & -> & _). Qed.

Hypothesis Hx : xlen c = 32 \/ xlen c = 64.
Hypothesis Hlanes : 0 < Z.of_nat (VX_CFG_NUM_LSU_LANES c) < 2 ^ 32.

Lemma lane_value_some t width addr d : 0 <= width <= 6 -> length d = 64%nat -> offset_of addr + access_bytes width <= 64 ->
  exists v, lane_value c t width addr d = Some v.
Proof using Hx.
  intros Hw Hd Ho. unfold lane_value. fold (access_bytes width) (offset_of addr). unfold read_data. rewrite Hd. change VX_CFG_MEM_BLOCK_SIZE with 64.
  rewrite (proj2 (Z.leb_le _ _)) by lia. cbn [andb]. rewrite (proj2 (Z.leb_le _ _)) by lia. cbn [mbind option_bind].
  assert (Hf : forall rd, exists f, format_load c width (lt_dst_float t) rd = Some f).
  { intros rd. unfold format_load. fold (access_bytes width). assert (Hin : In width [0; 1; 2; 3; 4; 5; 6]) by (cbn; lia).
    unfold sext. repeat (destruct Hin as [<-|Hin]; [destruct (lt_dst_float t); destruct Hx as [-> | ->]; cbn; eauto|]). destruct Hin. }
  destruct (Hf (le_word (take (Z.to_nat (access_bytes width)) (drop (Z.to_nat (offset_of addr)) d)))) as [f ->]. cbn. eauto.
Qed.

Lemma write_lanes_ok e r t l : rsp_ok r -> (forall i, test (lr_mask r) i = true -> exists info, pn_lanes e !! i = Some info /\ info_ok c (pn_width e) info) ->
  0 <= pn_width e <= 6 -> length (lt_dst_data t) = VX_CFG_NUM_THREADS c -> exists t', fold_left (write_lane c e r) l (Some t) = Some t' /\ same_trace t t'.
Proof using Hx.
  intros Hr He Hw. revert t. induction l as [|i l IH]; intros t Ht; [exists t; split; [done|apply same_trace_refl]|].
  assert (Hstep : exists t1, write_lane c e r (Some t) i = Some t1 /\ same_trace t t1).
  { unfold write_lane. cbn [mbind option_bind]. destruct (test (lr_mask r) i) eqn:Hi; [|exists t; split; [done|apply same_trace_refl]].
    destruct (He i Hi) as (info & -> & Hs & Hf & Htid). destruct (Hr i Hi) as (d & Hd & Hdl). rewrite Hd. cbn [mbind option_bind default from_option id].
    unfold fits in Hf. rewrite Hs in Hf. destruct (lane_value_some t (pn_width e) (as_addr info) d Hw Hdl Hf) as [v ->]. cbn [mbind option_bind].
    destruct (lookup_lt_is_Some_2 (lt_dst_data t) (as_tid info)) as [x ->]; [lia|]. eexists. split; [reflexivity|]. eexists. split; [reflexivity|]. by rewrite length_insert. }
  destruct Hstep as (t1 & H1 & Hs1). cbn [fold_left]. rewrite H1. assert (Hl1 : length (lt_dst_data t1) = VX_CFG_NUM_THREADS c) by (destruct Hs1 as (d & -> & Hd); by rewrite <- Ht).
  destruct (IH t1 Hl1) as (t' & Hf & Hs'). exists t'. split; [done|]. by eapply same_trace_trans.
Qed.

(** The heap after a trace is written back. *)
Lemma heap_same (heap : list lsu_trace) p t t' q u : heap !! p = Some t -> same_trace t t' -> heap !! q = Some u ->
  exists u', <[p := t']> heap !! q = Some u' /\ same_trace u u'.
Proof.
  intros Hp Hs Hq. destruct (decide (q = p)) as [->|Hne].
  - rewrite list_lookup_insert_eq by (by eapply lookup_lt_Some). simplify_eq. eauto.
  - rewrite list_lookup_insert_ne by done. exists u. split; [done|apply same_trace_refl].
Qed.

(** A step that takes one packet of tag [n] and writes its trace back. *)
Lemma linv_written w w' n e t' m : linv c w -> ht_entries (pending_reqs (lw_s w)) !! n = Some (Some e) ->
  (forall t, lb_heap (lw_s w) !! pn_trace e = Some t -> same_trace t t') -> any m = true ->
  let left := pn_count e - mask_count m in
  lw_in w' = lw_in w -> lb_heap (lw_s w') = <[pn_trace e := t']> (lb_heap (lw_s w)) -> packets w ≡ₚ (Z.of_nat n, m) :: packets w' ->
  ht_ok (pending_reqs (lw_s w')) ->
  ht_entries (pending_reqs (lw_s w')) = <[n := if left =? 0 then None else Some (e <| pn_count := left |>)]> (ht_entries (pending_reqs (lw_s w))) ->
  tokens w' ≡ₚ lw_in w -> req_queue (lw_s w') = req_queue (lw_s w) -> addr_list (lw_s w') = addr_list (lw_s w) -> remain_addrs (lw_s w') = remain_addrs (lw_s w) ->
  Forall rsp_ok (ch_q (sw_rsp (lw_s w'))) -> linv c w'.
Proof using Hlanes.
  intros I Hn Hsame Hany left Ein Eh HP Htab Hent Htok Eq Ea Er Hrs. pose proof I as [I1 I2 I3 I0 I4 I5 I6 I7].
  destruct (I5 n e Hn) as (Hcnt & Hpos & Hw & t & Ht & Hok). specialize (Hsame t Ht).
  assert (Hnl : (n < length (ht_entries (pending_reqs (lw_s w))))%nat) by (by eapply lookup_lt_Some).
  assert (Hlanes_n : lanes_out (Z.of_nat n) (packets w') = left).
  { unfold left. rewrite Hcnt, (lanes_out_perm _ _ _ HP). cbn [lanes_out]. rewrite Z.eqb_refl. lia. }
  assert (Hheap : forall q u, lb_heap (lw_s w) !! q = Some u -> exists u', lb_heap (lw_s w') !! q = Some u' /\ same_trace u u') by (intros q u Hq; rewrite Eh; by eapply heap_same).
  constructor; try done.
  - by rewrite Ein.
  - rewrite Ein. intros p Hp. destruct (I3 p Hp) as (u & Hu & Huok). destruct (Hheap p u Hu) as (u' & Hu' & Hs'). exists u'. split; [done|]. by eapply same_trace_ok.
  - rewrite Eh. apply Forall_insert; [done|]. by eapply same_trace_ok.
  - unfold head_addrs in *. rewrite Eq, Ea, Er. destruct I4 as [?|(p & rest & u & H1 & H2 & H3 & H4 & H5)]; [by left|right].
    destruct (Hheap p u H2) as (u' & Hu' & Hs'). exists p, rest, u'. split_and!; try done; [by destruct Hs' as (d & -> & _)|by rewrite (same_trace_addrs _ _ Hs')].
  - rewrite Hent. intros k e' Hk. destruct (decide (k = n)) as [->|Hne].
    + rewrite list_lookup_insert_eq in Hk by done. destruct (Z.eqb_spec left 0); [done|]. injection Hk as <-. unfold entry_ok. cbv [set const]. cbn [pn_count pn_width pn_trace].
      split_and!; try lia. 1: pose proof (mask_count_nonneg m); pose proof (lanes_out_nonneg (Z.of_nat n) (packets w')); unfold left in *; lia.
      1: pose proof (mask_count_nonneg m); unfold left in *; lia. destruct (Hheap _ t Ht) as (u' & Hu' & Hs'). exists u'. split; [done|]. by eapply same_trace_ok.
    + rewrite list_lookup_insert_ne in Hk by done. destruct (I5 k e' Hk) as (K1 & K2 & K3 & u & K4 & K5). unfold entry_ok. split; [|split; [done|split; [done|]]].
      * rewrite K1, (lanes_out_perm _ _ _ HP). cbn [lanes_out]. rewrite (proj2 (Z.eqb_neq _ _)) by lia. done.
      * destruct (Hheap _ u K4) as (u' & Hu' & Hs'). exists u'. split; [done|]. by eapply same_trace_ok.
  - rewrite HP in I6. apply list.Forall_cons in I6 as [_ I6]. rewrite list.Forall_forall in I6 |- *. intros [tg m'] Hin. destruct (I6 _ Hin) as (k & e' & P1 & P2 & P3 & P4). cbn [fst snd] in *.
    destruct (decide (k = n)) as [->|Hne].
    + rewrite Hn in P2. injection P2 as <-. destruct (Z.eqb_spec left 0) as [Hz|Hz].
      * exfalso. subst tg. eapply lanes_out_zero; [|exact Hin|exact P3]. congruence.
      * exists n, (e <| pn_count := left |>). rewrite Hent, list_lookup_insert_eq by done. split_and!; done.
    + exists k, e'. rewrite Hent, list_lookup_insert_ne by done. done.
Qed.

Definition with_s (w : lworld) (s : LsuBlock) : lworld := {| lw_s := s; lw_in := lw_in w; lw_out := lw_out w; lw_mem := lw_mem w |}.

Lemma with_s_self w : with_s w (lw_s w) = w.
Proof. by destruct w. Qed.

Lemma lsu_step_response w : linv c w -> exists s', process_response_step c (lw_s w) = Some s' /\ linv c (with_s w s').
Proof using Hx Hlanes.
  intros I. pose proof I as [I1 I2 I3 I0 I4 I5 I6 I7]. set (s := lw_s w) in *.
  assert (Hself : exists s', Some s = Some s' /\ linv c (with_s w s')) by (exists s; split; [done|]; unfold s; by rewrite with_s_self).
  unfold process_response_step. destruct (ch_q (sw_rsp s)) as [|r l] eqn:Hr; [exact Hself|].
  assert (HP : forall w', sw_req (lw_s w') = sw_req s -> ch_q (sw_rsp (lw_s w')) = l -> lw_mem w' = lw_mem w -> packets w ≡ₚ (lr_tag r, lr_mask r) :: packets w').
  { intros w' E1 E2 E3. unfold packets. fold s. rewrite Hr, E1, E2, E3. cbn [map]. by rewrite <- !Permutation_middle. }
  assert (Hpk : packet_ok c s (lr_tag r, lr_mask r)).
  { rewrite list.Forall_forall in I6. apply I6. unfold packets. fold s. rewrite Hr. cbn [map]. set_solver. }
  destruct Hpk as (n & e & Etag & Hn & Hany & Hinfo). cbn [fst snd] in *. rewrite Etag, ht_at_nat, Hn. cbn [mbind option_bind id].
  destruct (I5 n e Hn) as (Hcnt & Hpos & Hw & t & Ht & Htok). fold s in Ht.
  assert (Hle : 0 < mask_count (lr_mask r) <= pn_count e).
  { split; [by apply mask_count_pos|]. rewrite Hcnt. set (w0 := with_s w (s <| sw_rsp := ch_pop (sw_rsp s) |>)).
    assert (E2 : ch_q (sw_rsp (lw_s w0)) = l) by (change (tail (ch_q (sw_rsp s)) = l); by rewrite Hr).
    rewrite (lanes_out_perm _ _ _ (HP w0 eq_refl E2 eq_refl)), Etag. cbn [lanes_out]. rewrite Z.eqb_refl. pose proof (lanes_out_nonneg (Z.of_nat n) (packets w0)). lia. }
  destruct (((pn_count e =? mask_count (lr_mask r)) && pn_eop e) && ch_full (lb_Output s)) eqn:Hstall; [exact Hself|].
  rewrite (proj2 (Z.eqb_neq (pn_count e) 0)) by lia. rewrite Ht. cbn [mbind option_bind].
  assert (Hrok : rsp_ok r) by (by apply list.Forall_cons in I7 as [? _]). assert (Hls : Forall rsp_ok l) by (by apply list.Forall_cons in I7 as [_ ?]).
  destruct (write_lanes_ok e r t (seq 0 (length (lr_mask r))) Hrok Hinfo Hw (proj1 Htok)) as (t' & -> & Hsame). cbn [mbind option_bind].
  assert (Hu32 : u32 (pn_count e - mask_count (lr_mask r)) = pn_count e - mask_count (lr_mask r)) by (apply wrap_small; unfold in_u; lia). rewrite Hu32. lproj.
  set (left := pn_count e - mask_count (lr_mask r)) in *.
  assert (Hsame' : forall t0, lb_heap s !! pn_trace e = Some t0 -> same_trace t0 t') by (intros t0 Ht0; congruence).
  destruct (Z.eqb_spec left 0) as [Hz|Hz].
  - destruct (ht_release_ok _ n e I2 Hn) as (table & -> & Htab & Hent). cbn [mbind option_bind].
    pose proof (omap_insert_perm waits_for (ht_entries (pending_reqs s)) n (Some e) None Hn) as Hom. cbn [option_list] in Hom.
    assert (Hwf : waits_for (Some e) = if pn_eop e then Some (pn_trace e) else None) by done.
    destruct (pn_eop e) eqn:Heop.
    + assert (Hfull : ch_full (lb_Output s) = false).
      { rewrite (proj2 (Z.eqb_eq _ _)) in Hstall by (unfold left in Hz; lia). exact Hstall. }
      unfold ch_send. rewrite Hfull. cbn [mbind option_bind]. lproj. eexists. split; [reflexivity|].
      eapply (linv_written w _ n e t' (lr_mask r)); try done; unfold with_s; lproj.
      * rewrite <- Etag. apply HP; try done. lproj. by rewrite Hr.
      * fold left. rewrite Hz. exact Hent.
      * etrans; [|exact I1]. unfold tokens, waiting. lproj. fold s. rewrite Hent. rewrite Hwf in Hom. cbn [option_list] in Hom.
        apply Permutation_app_head. rewrite <- app_assoc. apply Permutation_app_head. rewrite !app_assoc. do 2 apply Permutation_app_tail.
        change ([pn_trace e] ++ option_list (fence_ s)) with (pn_trace e :: option_list (fence_ s)). 
        rewrite <- Hom. cbn. by rewrite Permutation_middle.
      * by rewrite Hr.
    + cbn [mbind option_bind]. lproj. eexists. split; [reflexivity|]. eapply (linv_written w _ n e t' (lr_mask r)); try done; unfold with_s; lproj.
      * rewrite <- Etag. apply HP; try done. lproj. by rewrite Hr.
      * fold left. rewrite Hz. exact Hent.
      * etrans; [|exact I1]. unfold tokens, waiting. lproj. fold s. rewrite Hent. rewrite Hwf in Hom. cbn [option_list app] in Hom. by rewrite Hom.
      * by rewrite Hr.
  - cbn [mbind option_bind]. lproj. eexists. split; [reflexivity|]. eapply (linv_written w _ n e t' (lr_mask r)); try done; unfold with_s; lproj.
    + rewrite <- Etag. apply HP; try done. lproj. by rewrite Hr.
    + by eapply ht_put_ok.
    + fold left. rewrite (proj2 (Z.eqb_neq left 0)) by done. unfold ht_put. cbv [set const]. cbn [ht_entries]. by rewrite Nat2Z.id.
    + etrans; [|exact I1]. unfold tokens, waiting. lproj. fold s. unfold ht_put. cbv [set const]. cbn [ht_entries]. rewrite Nat2Z.id.
      pose proof (omap_insert_perm waits_for (ht_entries (pending_reqs s)) n (Some e) (Some {| pn_trace := pn_trace e; pn_count := left; pn_eop := pn_eop e; pn_lanes := pn_lanes e; pn_width := pn_width e |}) Hn) as Hom.
      unfold waits_for in Hom at 1 3. cbn [mbind option_bind pn_eop pn_trace] in Hom. apply Permutation_app_inv_l in Hom. by rewrite Hom.
    + by rewrite Hr.
Qed.

(** ** The beats of a trace *)

Lemma trim_sub l e : e ∈ trim_holes l -> e ∈ l.
Proof.
  induction l as [|x l IH]; [done|]. unfold trim_holes. cbn [foldr]. fold (trim_holes l). destruct (trim_holes l) as [|y k] eqn:E.
  - case_match; [by intros ?%elem_of_nil|]. intros ->%list_elem_of_singleton. by left.
  - intros [->|H]%elem_of_cons; [by left|]. right. by apply IH.
Qed.

(** The list ends with an active thread. *)
Lemma trim_last l : trim_holes l = [] \/ exists k e, trim_holes l = k ++ [e] /\ as_size e <> 0.
Proof.
  induction l as [|x l IH]; [by left|]. unfold trim_holes. cbn [foldr]. fold (trim_holes l). destruct IH as [->|(k & e & -> & He)].
  - destruct (Z.eqb_spec (as_size x) 0); [by left|]. right. by exists [], x.
  - right. exists (x :: k), e. split; [by destruct k|done].
Qed.

Lemma trim_nonempty l e : e ∈ l -> as_size e <> 0 -> trim_holes l <> [].
Proof.
  induction l as [|x l IH]; [by intros ?%elem_of_nil|]. unfold trim_holes. cbn [foldr]. fold (trim_holes l). intros [->|H]%elem_of_cons He.
  - destruct (trim_holes l); [|done]. by rewrite (proj2 (Z.eqb_neq _ _)).
  - destruct (trim_holes l); [|done]. by specialize (IH H He).
Qed.

Lemma compute_addrs_spec t l e : compute_addrs c t = Some l -> e ∈ l ->
  exists o tid, lsu_op_of t = Some o /\ (tid < VX_CFG_NUM_THREADS c)%nat /\ e = thread_access c t o tid.
Proof.
  unfold compute_addrs. destruct (lsu_op_of t) as [o|]; [|done]. cbn. intros [= <-] H%trim_sub. apply list_elem_of_fmap in H as (tid & -> & Ht%elem_of_seq).
  exists o, tid. split_and!; [done|lia|done].
Qed.

Definition beat_of (l : list mem_addr_size_t) (remain : nat) : list mem_addr_size_t := take (Nat.min (VX_CFG_NUM_LSU_LANES c) remain) (drop (length l - remain) l).

Lemma skip_beats_spec fuel l remain : (remain < fuel)%nat -> (remain <= length l)%nat ->
  let r := skip_beats c fuel l remain in
  (r <= remain)%nat /\ (r <> 0%nat -> exists e, e ∈ beat_of l r /\ as_size e <> 0) /\ (r = 0%nat -> forall e, e ∈ drop (length l - remain) l -> as_size e = 0).
Proof using Hlanes.
  revert remain. induction fuel as [|fuel IH]; intros remain Hf Hr; [lia|]. cbn [skip_beats]. destruct (Nat.eqb_spec remain 0) as [->|Hne].
  { split_and!; [done|done|]. intros _ e He. rewrite drop_ge in He by lia. by apply elem_of_nil in He. }
  fold (beat_of l remain). set (n := Nat.min (VX_CFG_NUM_LSU_LANES c) remain). destruct (existsb _ (beat_of l remain)) eqn:E.
  - split_and!; [done| |done]. intros _. apply existsb_exists in E as (e & He%list_elem_of_In & Hs). apply negb_true_iff, Z.eqb_neq in Hs. eauto.
  - destruct (IH (remain - n)%nat) as (I1 & I2 & I3); [lia|lia|]. split_and!; [lia|exact I2|]. intros Hz e He.
    rewrite <- (take_drop n (drop (length l - remain) l)) in He. apply elem_of_app in He as [He|He].
    + destruct (Z.eqb_spec (as_size e) 0) as [|Hs]; [done|]. exfalso. apply not_true_iff_false in E. apply E, existsb_exists. exists e.
      split; [by apply list_elem_of_In|]. apply negb_true_iff. by apply Z.eqb_neq.
    + apply (I3 Hz). rewrite drop_drop in He. replace (length l - (remain - n))%nat with (length l - remain + n)%nat by lia. exact He.
Qed.

(** The operation the queue's head is dispatched as. *)
Definition kind_ok (t : lsu_trace) (is_amo is_write : bool) : Prop :=
  match lt_op_type t with
  | OpAmo _ => is_amo = true /\ is_write = false
  | OpLsu LSU_LOAD => is_amo = false /\ is_write = false
  | OpLsu LSU_STORE => is_amo = false /\ is_write = true
  | _ => False
  end.

(** An active access of a trace the unit accepts. *)
Lemma access_info t is_amo is_write l e : trace_ok c t -> kind_ok t is_amo is_write -> compute_addrs c t = Some l -> e ∈ l -> as_size e <> 0 ->
  exists width, entry_width t = Some width /\ 0 <= width <= 6 /\ info_ok c width e.
Proof.
  intros [_ Ht] Hk Hl He Hs. destruct (compute_addrs_spec t l e Hl He) as (o & tid & Ho & Htid & ->).
  assert (Hact : test (lt_tmask t) tid = true). { unfold thread_access in Hs. by destruct (test (lt_tmask t) tid). }
  assert (Hfields : as_size (thread_access c t o tid) = op_bytes o /\ as_tid (thread_access c t o tid) = tid) by (unfold thread_access; rewrite Hact; done).
  destruct Hfields as [Hsz Htd]. unfold kind_ok in Hk. unfold lsu_op_of in Ho. unfold entry_width, info_ok. rewrite Hsz, Htd.
  destruct (lt_op_type t) as [| | |[]|a| | | | | |] eqn:Eop; try done.
  1,2: destruct Ht as (o' & w & st & f & Ea & Ho' & Hw & Hfit); unfold lsu_op_of in Ho'; rewrite Eop, Ea in Ho'; rewrite Ea in Ho |- *; rewrite Ho in Ho'; injection Ho' as <-;
    exists w; split; [done|split; [done|split; [|split; [by apply Hfit|done]]]]; destruct (_ && _); try done; by injection Ho as <-.
  destruct Ht as (_ & o' & w & aq & rl & Ea & Ho' & Hw & _ & Hfit). unfold lsu_op_of in Ho'. rewrite Eop, Ea in Ho'. rewrite Ea in Ho |- *. rewrite Ho in Ho'. injection Ho' as <-.
  injection Ho as <-. exists (Z.land w 3). cbn [op_bytes]. unfold access_bytes. rewrite <- Z.land_assoc. change (Z.land 3 3) with 3.
  assert (0 <= Z.land w 3 <= 6) by (change 3 with (Z.ones 2); rewrite Z.land_ones by lia; pose proof (Z.mod_pos_bound w (2 ^ 2) ltac:(lia)); lia).
  split; [done|split; [done|split; [done|split; [by apply Hfit|done]]]].
Qed.

(** ** Issuing a beat *)

Record sent (s s1 : LsuBlock) (p : nat) (needs : bool) (q : LsuReq) : Prop := {
  se_same : lb_Input s1 = lb_Input s /\ lb_Output s1 = lb_Output s /\ sw_rsp s1 = sw_rsp s /\ req_queue s1 = req_queue s /\ fence_ s1 = fence_ s /\
            lb_heap s1 = lb_heap s /\ addr_list s1 = addr_list s;
  se_remain : remain_addrs s1 = (remain_addrs s - Nat.min (VX_CFG_NUM_LSU_LANES c) (remain_addrs s))%nat;
  se_req : ch_q (sw_req s1) = ch_q (sw_req s) ++ [q];
  se_mask : any (lq_mask q) = true /\ mask_count (lq_mask q) <= Z.of_nat (VX_CFG_NUM_LSU_LANES c);
  se_needs : needs_rsp (lq_op q) = needs;
  se_entry : if needs then exists n e, ht_entries (pending_reqs s) !! n = Some None /\ lq_tag q = Z.of_nat n /\ ht_ok (pending_reqs s1) /\
      ht_entries (pending_reqs s1) = <[n := Some e]> (ht_entries (pending_reqs s)) /\ pn_trace e = p /\ pn_count e = mask_count (lq_mask q) /\
      pn_eop e = (remain_addrs s1 =? 0)%nat /\ 0 <= pn_width e <= 6 /\
      forall i, test (lq_mask q) i = true -> exists info, pn_lanes e !! i = Some info /\ info_ok c (pn_width e) info
    else pending_reqs s1 = pending_reqs s
}.

Lemma beat_length l r : (length (beat_of l r) <= VX_CFG_NUM_LSU_LANES c)%nat.
Proof. unfold beat_of. rewrite length_take. lia. Qed.

Lemma beat_sub l r e : e ∈ beat_of l r -> e ∈ l.
Proof.
  unfold beat_of. intros [i Hi]%list_elem_of_lookup. apply lookup_take_Some in Hi as [Hi _]. rewrite lookup_drop in Hi. by eapply list_elem_of_lookup_2.
Qed.

Lemma pack_beat_packed t is_amo is_write l r : trace_ok c t -> kind_ok t is_amo is_write -> compute_addrs c t = Some l ->
  exists q0 q lanes, pack_beat c t is_amo is_write (beat_of l r) = Some (q, lanes) /\ packed (VX_CFG_NUM_LSU_LANES c) (is_write || is_amo) q0 (beat_of l r) q lanes /\
  needs_rsp (lq_op q0) = negb is_write || is_amo.
Proof.
  intros Ht Hk Hl. unfold pack_beat. qproj. match goal with |- context [fold_left _ _ (Some (?x, _))] => set (q0 := x) end.
  destruct (pack_fold (VX_CFG_NUM_LSU_LANES c) (is_write || is_amo) q0 (beat_of l r)) as (q & lanes & Hq & Hp);
    try (unfold q0; qproj; cbn; unfold zeros; by rewrite ?length_replicate).
  - intros j. apply test_zeros.
  - apply beat_length.
  - intros _. apply list.Forall_forall. intros e He Hs. destruct (access_info t is_amo is_write l e Ht Hk Hl (beat_sub _ _ _ He) Hs) as (w & _ & _ & _ & Hf & _). exact Hf.
  - exists q0, q, lanes. split_and!; [done|done|]. unfold q0. qproj. unfold kind_ok in Hk. destruct (lt_op_type t) as [| | |[]|a| | | | | |]; try done; destruct Hk as [-> ->]; try done. by destruct a.
Qed.

Lemma send_beat_ok s p t is_amo is_write : trace_ok c t -> kind_ok t is_amo is_write -> compute_addrs c t = Some (addr_list s) ->
  (exists e, e ∈ beat_of (addr_list s) (remain_addrs s) /\ as_size e <> 0) -> ch_full (sw_req s) = false -> ht_ok (pending_reqs s) ->
  (negb is_write || is_amo = true -> ht_full (pending_reqs s) = false) ->
  exists s1 q, send_beat c s p t is_amo is_write = Some s1 /\ sent s s1 p (negb is_write || is_amo) q.
Proof.
  intros Ht Hk Hl (e0 & He0 & Hs0) Hfull Htab Hroom. set (beat := beat_of (addr_list s) (remain_addrs s)) in *.
  destruct (pack_beat_packed t is_amo is_write (addr_list s) (remain_addrs s) Ht Hk Hl) as (q0 & q & lanes & Hq & Hp & Hneeds). fold beat in Hq, Hp.
  pose proof Hp as [(L1 & _) (Hop & _) Hlane].
  destruct (access_info t is_amo is_write _ e0 Ht Hk Hl (beat_sub _ _ _ He0) Hs0) as (width & Hwd & Hw & _).
  assert (Hany : any (lq_mask q) = true).
  { apply any_spec. apply list_elem_of_lookup in He0 as [i Hi]. exists i. rewrite (proj1 (Hlane i)). unfold active. rewrite Hi. by apply negb_true_iff, Z.eqb_neq. }
  assert (Hinfo : forall i, test (lq_mask q) i = true -> exists info, lanes !! i = Some info /\ info_ok c width info).
  { intros i Hi. rewrite (proj1 (Hlane i)) in Hi. unfold active in Hi. destruct (beat !! i) as [e|] eqn:Ei; [|done]. apply negb_true_iff, Z.eqb_neq in Hi.
    destruct (proj2 (Hlane i) e Ei Hi) as (_ & _ & Hli & _). exists e. split; [done|]. apply list_elem_of_lookup_2 in Ei.
    destruct (access_info t is_amo is_write _ e Ht Hk Hl (beat_sub _ _ _ Ei) Hi) as (w' & Hw' & _ & H). congruence. }
  assert (Hcount : mask_count (lq_mask q) <= Z.of_nat (VX_CFG_NUM_LSU_LANES c)) by (rewrite <- L1; apply mask_count_le).
  unfold send_beat. fold (beat_of (addr_list s) (remain_addrs s)). fold beat. rewrite Hq. cbn [mbind option_bind]. unfold ch_send.
  destruct (negb is_write || is_amo) eqn:En.
  - rewrite Hwd. cbn [mbind option_bind]. lproj.
    destruct (ht_allocate_ok (pending_reqs s) {| pn_trace := p; pn_count := mask_count (lq_mask q); pn_eop := (remain_addrs s - Nat.min (VX_CFG_NUM_LSU_LANES c) (remain_addrs s) =? 0)%nat; pn_lanes := lanes; pn_width := width |} Htab (Hroom eq_refl))
      as (n & table & -> & Htab' & Hfree & Hent). cbn [mbind option_bind]. lproj. rewrite Hfull. cbn [mbind option_bind].
    eexists _, _. split; [reflexivity|]. assert (is_write = false) as ->.
    { destruct is_write; [|done]. unfold kind_ok in Hk. destruct (lt_op_type t) as [| | |[]|a| | | | | |]; try done; destruct Hk as [-> ?]; done. }
    constructor; lproj; try done; qproj; try done; [by rewrite Hop|]. exists n. eexists. split; [done|split; [done|split; [done|split; [done|split; [done|split; [done|split; [done|split; [done|exact Hinfo]]]]]]]].
  - cbn [mbind option_bind]. lproj. rewrite Hfull. cbn [mbind option_bind]. eexists _, _. split; [reflexivity|].
    destruct is_write; [|done]. constructor; lproj; try done; qproj; try done. by rewrite Hop.
Qed.

(** The state after a beat: a store leaves no packet, a load or an atomic
    operation leaves one under a new tag. *)
Lemma linv_issued w w' s1 p t needs q : linv c w -> sent (lw_s w) s1 p needs q -> lb_heap (lw_s w) !! p = Some t -> trace_ok c t ->
  lw_in w' = lw_in w -> lw_mem w' = lw_mem w -> sw_req (lw_s w') = sw_req s1 -> sw_rsp (lw_s w') = sw_rsp s1 -> pending_reqs (lw_s w') = pending_reqs s1 ->
  lb_heap (lw_s w') = lb_heap s1 -> tokens w' ≡ₚ lw_in w -> head_addrs c (lw_s w') -> linv c w'.
Proof.
  intros I [(_ & _ & E3 & _ & _ & E6 & _) _ Hreq [Hany Hle] Hneed Hent] Hp Hok Ein Em Eq Er Ep Eh Htok Haddr. pose proof I as [I1 I2 I3 I0 I4 I5 I6 I7].
  assert (HP : packets w' ≡ₚ (if needs then [(lq_tag q, lq_mask q)] else []) ++ packets w).
  { unfold packets. rewrite Eq, Er, Em, E3, Hreq. unfold req_packets. rewrite list.filter_app, map_app, filter_cons, Hneed. destruct needs.
    - rewrite decide_True by done. cbn [map filter app]. rewrite <- app_assoc. cbn [app]. by rewrite <- Permutation_middle.
    - rewrite decide_False by done. cbn [map filter app]. by rewrite app_nil_r. }
  assert (Hh : forall x, lb_heap (lw_s w') !! x = lb_heap (lw_s w) !! x) by (intros x; by rewrite Eh, E6).
  destruct needs.
  - destruct Hent as (n & e & Hfree & Htag & Htab & Hent & Hpt & Hcnt & Heop & Hw & Hinfo).
    assert (Hnl : (n < length (ht_entries (pending_reqs (lw_s w))))%nat) by (by eapply lookup_lt_Some).
    assert (Hfresh : forall m, (Z.of_nat n, m) ∉ packets w).
    { intros m Hm. rewrite list.Forall_forall in I6. destruct (I6 _ Hm) as (n' & e' & H1 & H2 & _). cbn [fst] in H1. assert (n' = n) as -> by lia. congruence. }
    constructor; try done.
    + by rewrite Ein.
    + by rewrite Ep.
    + rewrite Ein. intros x Hx'. rewrite Hh. by apply I3.
    + by rewrite Eh, E6.
    + rewrite Ep, Hent. intros k e' Hk. unfold entry_ok. rewrite (lanes_out_perm _ _ _ HP), Hh, Htag. cbn [app lanes_out]. destruct (decide (k = n)) as [->|Hne].
      * rewrite list_lookup_insert_eq in Hk by done. injection Hk as <-. rewrite Z.eqb_refl, (lanes_out_fresh _ _ Hfresh), Hcnt, Hpt. pose proof (mask_count_pos _ Hany).
        split; [lia|split; [lia|split; [done|eauto]]].
      * rewrite list_lookup_insert_ne in Hk by done. rewrite (proj2 (Z.eqb_neq _ _)) by lia. rewrite Z.add_0_l. by apply I5.
    + rewrite HP. cbn [app]. constructor.
      * exists n, e. rewrite Ep, Hent, list_lookup_insert_eq by done. done.
      * eapply Forall_impl; [|exact I6]. intros x (k & e' & H1 & H2 & H3). exists k, e'. rewrite Ep, Hent. destruct (decide (k = n)) as [->|]; [congruence|]. by rewrite list_lookup_insert_ne.
    + by rewrite Er, E3.
  - constructor; try done.
    + by rewrite Ein.
    + by rewrite Ep, Hent.
    + rewrite Ein. intros x Hx'. rewrite Hh. by apply I3.
    + by rewrite Eh, E6.
    + rewrite Ep, Hent. intros k e' Hk. unfold entry_ok. rewrite (lanes_out_perm _ _ _ HP), Hh. by apply I5.
    + rewrite HP. eapply Forall_impl; [|exact I6]. intros x (k & e' & H). exists k, e'. by rewrite Ep, Hent.
    + by rewrite Er, E3.
Qed.

Lemma sent_waiting s s1 p needs q : sent s s1 p needs q ->
  waiting s1 ≡ₚ (if needs && (remain_addrs s1 =? 0)%nat then [p] else []) ++ waiting s.
Proof.
  intros [_ _ _ _ _ Hent]. unfold waiting. destruct needs; [|by rewrite Hent]. destruct Hent as (n & e & Hfree & _ & _ & -> & Hp & _ & Heop & _).
  pose proof (omap_insert_perm waits_for (ht_entries (pending_reqs s)) n None (Some e) Hfree) as Hom. cbn [option_list app waits_for mbind option_bind] in Hom.
  rewrite Hom. cbn [andb]. rewrite Heop. by destruct (remain_addrs s1 =? 0)%nat; rewrite ?Hp.
Qed.

Lemma trace_op t is_amo is_write : trace_ok c t -> kind_ok t is_amo is_write -> exists o, lsu_op_of t = Some o.
Proof.
  intros [_ Ht] Hk. unfold kind_ok in Hk. destruct (lt_op_type t) as [| | |[]|a| | | | | |]; try done.
  1,2: destruct Ht as (o & ? & ? & ? & _ & H & _); eauto. destruct Ht as (_ & o & ? & ? & ? & _ & H & _). eauto.
Qed.

(** An atomic operation has an access. *)
Lemma amo_addrs t is_write l : trace_ok c t -> kind_ok t true is_write -> compute_addrs c t = Some l -> l <> [].
Proof.
  intros [_ Ht] Hk Hl. unfold kind_ok in Hk. destruct (lt_op_type t) as [| | |[]|a| | | | | |] eqn:Eop; try done; try (by destruct Hk as [[=] _]).
  destruct Ht as (_ & o & w & aq & rl & Ea & Ho & Hw & (tid & Htid & Hact) & Hfit). unfold compute_addrs in Hl. rewrite Ho in Hl. cbn in Hl. injection Hl as <-.
  apply (trim_nonempty _ (thread_access c t o tid)).
  - apply list_elem_of_fmap. exists tid. split; [done|]. apply elem_of_seq. lia.
  - unfold thread_access. rewrite Hact. cbn. unfold lsu_op_of in Ho. rewrite Eop, Ea in Ho. injection Ho as <-. cbn [op_bytes]. rewrite Z.shiftl_1_l.
    apply Z.pow_nonzero; [lia|]. apply Z.land_nonneg. lia.
Qed.

(** Skipping the inactive beats of a list that ends with an active thread
    stops before its end. *)
Lemma skip_stops t l r : compute_addrs c t = Some l -> (r <= length l)%nat -> r <> 0%nat -> skip_beats c (S r) l r <> 0%nat.
Proof using Hx Hlanes.
  intros Hl Hr Hne Hz. destruct (skip_beats_spec (S r) l r ltac:(lia) Hr) as (_ & _ & H). specialize (H Hz).
  unfold compute_addrs in Hl. destruct (lsu_op_of t) as [o|]; [|done]. injection Hl as Hl. destruct (trim_last (map (thread_access c t o) (seq 0 (VX_CFG_NUM_THREADS c)))) as [E|(k & e & E & He)].
  - rewrite E in Hl. subst l. cbn in Hr. lia.
  - rewrite E in Hl. subst l. rewrite length_app in *. cbn [length] in *. apply He, H. rewrite drop_app_le by lia. set_solver.
Qed.

Lemma perm_move (p : nat) a b r : p :: a ++ b ++ r ≡ₚ a ++ b ++ p :: r.
Proof. rewrite !(app_assoc a). by rewrite <- Permutation_middle. Qed.

Lemma lsu_step_dispatch w p rest t is_amo is_write : linv c w -> req_queue (lw_s w) = p :: rest -> lb_heap (lw_s w) !! p = Some t -> trace_ok c t -> kind_ok t is_amo is_write ->
  exists s', dispatch_head c (lw_s w) p t is_amo is_write rest = Some s' /\ linv c (with_s w s').
Proof using Hx Hlanes.
  intros I Hq Hp Hok Hk. pose proof I as [I1 I2 I3 I0 I4 I5 I6 I7]. set (s := lw_s w) in *. unfold dispatch_head.
  destruct ((negb is_write || is_amo) && ht_full (pending_reqs s)) eqn:Hfull; [exists s; split; [done|]; unfold s; by rewrite with_s_self|].
  assert (Hroom : negb is_write || is_amo = true -> ht_full (pending_reqs s) = false) by (intros E; rewrite E in Hfull; exact Hfull).
  assert (Hnf : is_fence_trace t = false) by (unfold kind_ok in Hk; unfold is_fence_trace; by destruct (lt_op_type t) as [| | |[]| | | | | | |]).
  destruct (trace_op t is_amo is_write Hok Hk) as [o Ho].
  assert (H1 : exists l r, (if (remain_addrs s =? 0)%nat then l ← compute_addrs c t; Some (s <| addr_list := l |> <| remain_addrs := length l |>) else Some s) =
      Some (s <| addr_list := l |> <| remain_addrs := r |>) /\ compute_addrs c t = Some l /\ (r <= length l)%nat /\ (l <> [] -> r <> 0%nat)).
  { destruct (Nat.eqb_spec (remain_addrs s) 0) as [E|E].
    - destruct (compute_addrs c t) as [l|] eqn:El; [|unfold compute_addrs in El; by rewrite Ho in El]. exists l, (length l). split; [done|split; [done|split; [lia|by destruct l]]].
    - destruct I4 as [?|(p' & rest' & t' & Q1 & Q2 & _ & Q3 & Q4)]; [done|]. rewrite Hq in Q1. injection Q1 as <- <-. rewrite Hp in Q2. injection Q2 as <-. exists (addr_list s), (remain_addrs s).
      split; [clear; unfold s; by destruct (lw_s w)|done]. }
  destruct H1 as (l & r & -> & Hl & Hr & Hlr). cbn [mbind option_bind]. lproj.
  set (r2 := skip_beats c (S r) l r). destruct (skip_beats_spec (S r) l r ltac:(lia) Hr) as (K1 & K2 & _). fold r2 in K1, K2.
  assert (Hr2 : l <> [] -> r2 <> 0%nat) by (intros E; apply (skip_stops t l r Hl Hr); by apply Hlr).
  set (s2 := s <| addr_list := l |> <| remain_addrs := r2 |>). set (direct := (is_write || (length l =? 0)%nat) && negb is_amo).
  change (Build_LsuBlock _ _ _ _ _ _ _ l r2 _ _ _ _) with s2 in *.
  assert (I2' : linv c (with_s w s2)).
  { constructor; try done. unfold head_addrs, with_s, s2. lproj. right. exists p, rest, t. split_and!; try done. lia. }
  assert (Hself : exists s', Some s2 = Some s' /\ linv c (with_s w s')) by (by exists s2).
  destruct (direct && (r2 <=? VX_CFG_NUM_LSU_LANES c)%nat && ch_full (lb_Output s)) eqn:Hst1; [exact Hself|].
  destruct (negb (r2 =? 0)%nat && ch_full (sw_req s)) eqn:Hst2; [exact Hself|].
  destruct (Nat.eqb_spec r2 0) as [Ez|Ez].
  - cbn [mbind option_bind]. assert (l = []) as -> by (destruct l; [done|]; by specialize (Hr2 ltac:(done))).
    assert (is_amo = false) as -> by (destruct is_amo; [|done]; exfalso; by apply (amo_addrs t is_write [] Hok Hk Hl)).
    assert (Hdir : direct = true) by (unfold direct; cbn; by rewrite orb_true_r). change (remain_addrs s2) with r2. rewrite Ez, Nat.eqb_refl.
    rewrite Hdir in Hst1 |- *. rewrite (proj2 (Nat.leb_le r2 _)) in Hst1 by lia. cbn [andb] in Hst1. unfold ch_send. change (lb_Output s2) with (lb_Output s). rewrite Hst1.
    cbn [mbind option_bind]. lproj. eexists. split; [reflexivity|]. constructor; try done.
    + etrans; [|exact I1]. unfold tokens, waiting, with_s, s2. lproj. fold s. rewrite Hq. rewrite <- !app_assoc. do 2 apply Permutation_app_head. cbn [app]. apply perm_move.
    + unfold head_addrs, with_s, s2. lproj. by left.
  - cbn [negb andb] in Hst2. destruct (send_beat_ok s2 p t is_amo is_write Hok Hk Hl (K2 Ez) Hst2 I2 Hroom) as (s3 & q & Hsend & Hsent).
    rewrite Hsend. cbn [mbind option_bind].
    pose proof Hsent as [(E1 & E2 & E3 & E4 & E5 & E6 & E7) Hrem _ _ _ _]. change (remain_addrs s2) with r2 in Hrem. pose proof (sent_waiting _ _ _ _ _ Hsent) as Hwait.
    change (waiting s2) with (waiting s) in Hwait. change (lb_Input s2) with (lb_Input s) in E1. change (lb_Output s2) with (lb_Output s) in E2. change (req_queue s2) with (req_queue s) in E4.
    change (fence_ s2) with (fence_ s) in E5. change (lb_heap s2) with (lb_heap s) in E6. change (addr_list s2) with l in E7.
    assert (Hne : l <> []) by (intros ->; cbn in Hr; lia).
    assert (Hdir : direct = is_write && negb is_amo). { unfold direct. destruct l; [done|]. cbn. by rewrite orb_false_r. }
    destruct (Nat.eqb_spec (remain_addrs s3) 0) as [Ez3|Ez3].
    + assert (Hle : (r2 <= VX_CFG_NUM_LSU_LANES c)%nat) by lia. rewrite (proj2 (Nat.leb_le _ _) Hle), andb_true_r in Hst1. rewrite andb_true_r in Hwait.
      destruct direct eqn:Ed.
      * cbn [andb] in Hst1. assert (is_write = true /\ is_amo = false) as [-> ->] by (destruct is_write, is_amo; done). cbn [negb orb andb app] in Hwait, Hsent.
        unfold ch_send. rewrite E2, Hst1. cbn [mbind option_bind]. eexists. split; [reflexivity|].
        eapply (linv_issued (with_s w s2) _ s3 p t _ q I2' Hsent); try done; unfold with_s; lproj; try done; [|by left].
        etrans; [|exact I1]. unfold tokens. lproj. fold s. change (waiting (Build_LsuBlock _ _ _ _ _ (pending_reqs s3) _ _ _ _ _ _ _)) with (waiting s3).
        rewrite E5, Hwait, E1, Hq. rewrite <- !app_assoc. do 2 apply Permutation_app_head. cbn [app]. apply perm_move.
      * assert (Hn : negb is_write || is_amo = true) by (destruct is_write, is_amo; done). rewrite Hn in Hwait. cbn [app] in Hwait.
        cbn [mbind option_bind]. eexists. split; [reflexivity|].
        eapply (linv_issued (with_s w s2) _ s3 p t _ q I2' Hsent); try done; unfold with_s; lproj; try done; [|by left].
        etrans; [|exact I1]. unfold tokens. lproj. fold s. change (waiting (Build_LsuBlock _ _ _ _ _ (pending_reqs s3) _ _ _ _ _ _ _)) with (waiting s3).
        rewrite E2, E5, Hwait, E1, Hq. do 3 apply Permutation_app_head. cbn [app]. by rewrite <- Permutation_middle.
    + eexists. split; [reflexivity|]. rewrite andb_false_r in Hwait. cbn [app] in Hwait.
      eapply (linv_issued (with_s w s2) _ s3 p t _ q I2' Hsent); try done; unfold with_s; lproj; try done.
      * etrans; [|exact I1]. unfold tokens. lproj. fold s. by rewrite E2, E5, Hwait, E4, E1.
      * right. exists p, rest, t. rewrite E4, E6, E7. split_and!; try done. lia.
Qed.

(** ** A cycle *)

Lemma queue_trace w p : linv c w -> p ∈ req_queue (lw_s w) \/ p ∈ ch_q (lb_Input (lw_s w)) -> exists t, lb_heap (lw_s w) !! p = Some t /\ trace_ok c t.
Proof. intros I Hp. apply (li_heap _ _ I). rewrite <- (li_tokens _ _ I). unfold tokens. rewrite !elem_of_app. clear -Hp. tauto. Qed.

Lemma lsu_step_request w : linv c w -> exists s', process_request_step c (lw_s w) = Some s' /\ linv c (with_s w s').
Proof using Hx Hlanes.
  intros I. pose proof I as [I1 I2 I3 I0 I4 I5 I6 I7]. set (s := lw_s w) in *.
  assert (Hself : exists s', Some s = Some s' /\ linv c (with_s w s')) by (exists s; split; [done|]; unfold s; by rewrite with_s_self).
  unfold process_request_step. destruct (fence_ s) as [p|] eqn:Hf.
  - unfold try_release. rewrite Hf. case_match; [|exact Hself]. eexists. split; [reflexivity|]. constructor; try done. etrans; [|exact I1]. unfold tokens, waiting, with_s. lproj. fold s.
    rewrite Hf. cbn [option_list app]. by rewrite <- !app_assoc.
  - destruct (req_queue s) as [|p rest] eqn:Hq; [exact Hself|].
    destruct (queue_trace w p I ltac:(left; fold s; rewrite Hq; by left)) as (t & Ht & Hok). fold s in Ht. rewrite Ht. cbn [mbind option_bind].
    destruct (lt_op_type t) as [| | |k|a| | | | | |] eqn:Eop; try (exfalso; destruct Hok as [_ Hok]; by rewrite Eop in Hok).
    + destruct k.
      1,2: apply (lsu_step_dispatch w p rest t); try done; unfold kind_ok; by rewrite Eop.
      eexists. split; [reflexivity|]. constructor; try done.
      * etrans; [|exact I1]. unfold tokens, waiting, with_s. lproj. fold s. rewrite Hf, Hq. cbn [option_list app]. do 2 apply Permutation_app_head. by rewrite <- Permutation_middle.
      * unfold head_addrs, with_s. lproj. left. destruct I4 as [?|(p' & rest' & t' & Q1 & Q2 & Q3 & _)]; [done|]. rewrite Hq in Q1. injection Q1 as <- <-. rewrite Ht in Q2. injection Q2 as <-.
        unfold is_fence_trace in Q3. by rewrite Eop in Q3.
    + assert (HA : VX_CFG_EXT_A_ENABLED c = true) by (destruct Hok as [_ Hok]; rewrite Eop in Hok; by destruct Hok). rewrite HA.
      apply (lsu_step_dispatch w p rest t); try done. unfold kind_ok. by rewrite Eop.
Qed.

Lemma step_ingest w : linv c w -> exists s', ingest_inputs c (lw_s w) = Some s' /\ linv c (with_s w s').
Proof.
  intros I. pose proof I as [I1 I2 I3 I0 I4 I5 I6 I7]. set (s := lw_s w) in *.
  assert (Hself : exists s', Some s = Some s' /\ linv c (with_s w s')) by (exists s; split; [done|]; unfold s; by rewrite with_s_self).
  unfold ingest_inputs. destruct (ch_q (lb_Input s)) as [|p l] eqn:Hq; [exact Hself|]. case_match; [exact Hself|].
  destruct (queue_trace w p I ltac:(right; fold s; rewrite Hq; by left)) as (t & Ht & Hok). fold s in Ht. rewrite Ht. cbn [mbind option_bind]. case_match; [exact Hself|].
  eexists. split; [reflexivity|]. constructor; try done.
  - etrans; [|exact I1]. unfold tokens, waiting, with_s. lproj. fold s. rewrite Hq. cbn [tail]. by rewrite <- !app_assoc.
  - unfold head_addrs, with_s in *. lproj. destruct I4 as [?|(p' & rest' & t' & Q1 & Q)]; [by left|]. right. exists p', (rest' ++ [p]), t'. split; [by rewrite Q1|exact Q].
Qed.

Lemma lsu_step_tick w : linv c w -> exists s', lsu_on_tick c (lw_s w) = Some s' /\ linv c (with_s w s').
Proof using Hx Hlanes.
  intros I. unfold lsu_on_tick. destruct (lsu_step_response w I) as (s1 & -> & I1). destruct (lsu_step_request _ I1) as (s2 & H2 & I2). destruct (step_ingest _ I2) as (s3 & H3 & I3).
  cbn [mbind option_bind]. unfold with_s in *. cbn [lw_s lw_in lw_out lw_mem] in *. rewrite H2. cbn [mbind option_bind]. rewrite H3. eauto.
Qed.

Lemma step_levent w ev : linv c w -> exists w', lworld_step c w ev = Some w' /\ linv c w'.
Proof using Hx Hlanes.
  intros I. assert (Hself : exists w', Some w = Some w' /\ linv c w') by eauto. destruct ev as [p| |k frag data| |]; cbn [lworld_step].
  - destruct (ch_full _ || _) eqn:E; [exact Hself|]. apply orb_false_iff in E as [_ E%Nat.leb_gt]. destruct (lookup_lt_is_Some_2 _ _ E) as [t Ht].
    pose proof (li_all _ _ I) as HA. rewrite list.Forall_forall in HA. eexists. split; [reflexivity|]. eapply step_in; [done|exact Ht|]. apply HA. by eapply list_elem_of_lookup_2.
  - destruct (ch_q (sw_req (lw_s w))) as [|q l] eqn:E; [exact Hself|]. eexists. split; [reflexivity|]. by eapply step_take.
  - destruct (lw_mem w !! k) as [[t m]|] eqn:E; [|exact Hself]. destruct (frag_ok m frag data) eqn:Ef; [|exact Hself]. cbn [andb]. destruct (ch_full _); [exact Hself|]. cbn [negb].
    eexists. split; [reflexivity|]. by apply (step_frag w k t m frag data).
  - destruct (lsu_step_tick w I) as (s' & -> & I'). cbn [mbind option_bind]. by exists (with_s w s').
  - destruct (ch_q (lb_Output (lw_s w))) as [|p l] eqn:E; [exact Hself|]. eexists. split; [reflexivity|]. by eapply step_out.
Qed.

Lemma linv_init cap heap : Forall (trace_ok c) heap -> linv c (lworld_init c cap heap).
Proof.
  intros Hh. constructor; try done; cbn [lworld_init LsuBlock_init lw_s lw_in lb_heap pending_reqs].
  - unfold tokens, waiting. cbn. induction (VX_CFG_LSU_PENDING_SIZE c); [done|]. done.
  - apply ht_init_ok.
  - intros p Hp. by apply elem_of_nil in Hp.
  - by left.
  - intros n e Hn. apply lookup_replicate in Hn as [? _]. done.
Qed.

Lemma run_linv w evs : linv c w -> exists w', lworld_run c w evs = Some w' /\ linv c w'.
Proof using Hx Hlanes.
  unfold lworld_run. revert w. induction evs as [|ev evs IH]; intros w I; [by exists w|].
  destruct (step_levent w ev I) as (w' & E & I'). cbn [fold_left]. cbn [mbind option_bind]. rewrite E. by apply IH.
Qed.

Lemma table_empty w : linv c w -> ht_empty (pending_reqs (lw_s w)) = true \/ packets w = [] -> waiting (lw_s w) = [].
Proof.
  intros I H. unfold waiting. assert (Hno : forall n e, ht_entries (pending_reqs (lw_s w)) !! n = Some (Some e) -> False).
  { intros n e Hn. destruct H as [H|H].
    - unfold ht_empty in H. apply Nat.eqb_eq in H. pose proof (li_table _ _ I) as Ht. unfold ht_ok, ht_live in Ht. rewrite H in Ht. symmetry in Ht. apply nil_length_inv in Ht.
      apply list_elem_of_lookup_2 in Hn. assert (Hin : e ∈ omap id (ht_entries (pending_reqs (lw_s w)))) by (apply list_elem_of_omap; eauto). rewrite Ht in Hin. by apply elem_of_nil in Hin.
    - destruct (li_entries _ _ I n e Hn) as (Hc & Hp & _). rewrite H in Hc. cbn in Hc. clear -Hc Hp. lia. }
  clear -Hno. induction (ht_entries (pending_reqs (lw_s w))) as [|[e|] l IH]; [done| |].
  - exfalso. by apply (Hno 0%nat e).
  - cbn. apply IH. intros n e. apply (Hno (S n) e).
Qed.


End Steps.

Module LsuDemo.

(** A load, a fence and an atomic addition of a warp of four threads on two lanes. *)
Definition lsu_c : lsu_config :=
  {| VX_CFG_NUM_THREADS := 4; VX_CFG_NUM_LSU_LANES := 2; xlen := 64; VX_CFG_EXT_A_ENABLED := true; VX_CFG_LSU_QUEUE_IN_SIZE := 4; VX_CFG_LSU_PENDING_SIZE := 2 |}.
Definition load_t : lsu_trace :=
  {| lt_op_type := OpLsu LSU_LOAD; lt_args := LsuArgs 2 0 4; lt_tmask := [true; true; false; false]; lt_src0 := [0x1000; 0x1040; 0; 0]; lt_src1 := [0; 0; 0; 0];
     lt_wid := 1; lt_cid := 0; lt_uuid := 1; lt_dst_float := false; lt_dst_bytesel := 0xFF; lt_dst_data := [0; 0; 0; 0] |}.
Definition fence_t : lsu_trace := load_t <| lt_op_type := OpLsu LSU_FENCE |> <| lt_args := LsuArgs 0 0 0 |>.
Definition amo_t : lsu_trace := load_t <| lt_op_type := OpAmo AMO_ADD |> <| lt_args := AmoArgs 3 0 0 |> <| lt_tmask := [false; false; true; false] |>.
Definition lsu_heap : list lsu_trace := [load_t; fence_t; amo_t].

Lemma lsu_heap_ok : Forall (trace_ok lsu_c) lsu_heap.
Proof.
  assert (Hfit : forall (t : lsu_trace) o, (forall tid, (tid < 4)%nat -> fits (thread_access lsu_c t o tid)) -> length (lt_tmask t) = 4%nat ->
    forall tid, test (lt_tmask t) tid = true -> fits (thread_access lsu_c t o tid)).
  { intros t o H Hl tid Ht. apply H. apply test_lt in Ht. lia. }
  constructor; [|constructor; [|constructor; [|constructor]]].
  - split; [done|]. eexists _, 2, 0, 4. split; [done|]. split; [reflexivity|]. split; [lia|]. apply Hfit; [|done].
    intros tid Ht. do 4 (destruct tid as [|tid]; [vm_compute; discriminate|]). lia.
  - split; done.
  - split; [done|]. split; [done|]. eexists _, 3, 0, 0. split; [done|]. split; [reflexivity|]. split; [lia|]. split; [exists 2%nat; split; [cbn; lia|done]|]. apply Hfit; [|done].
    intros tid Ht. do 4 (destruct tid as [|tid]; [vm_compute; discriminate|]). lia.
Qed.

Definition blk (x : Z) : option block := Some (replicate 64 x).

(** The lanes of the load are answered in two fragments, the second first. *)
Definition lsu_evs : list levent :=
  [LIn 0; LIn 1; LIn 2; LTick; LTick; LTake; LTick; LTick; LRsp 0 [false; true] [None; blk 7]; LTick; LRsp 0 [true; false] [blk 0x81; None]; LTick; LTick; LOut; LOut;
   LTick; LTick; LTake; LRsp 0 [true; false] [blk 5; None]; LTick; LOut].

Example lsu_demo : (fun w => (lw_out w, map lt_dst_data (lb_heap (lw_s w)))) <$> lworld_run lsu_c (lworld_init lsu_c 4 lsu_heap) lsu_evs =
  Some ([0%nat; 1%nat; 2%nat], [[0xFFFFFFFF81818181; 0x07070707; 0; 0]; [0; 0; 0; 0]; [0; 0; 0x0505050505050505; 0]]).
Proof. vm_compute. reflexivity. Qed.


End LsuDemo.
