(* ===== verification/Operands.v ===== *)
(** * Register files, operand collectors and micro-ops

    [sim/simx/operands.cpp] and [opc_unit.{h,cpp}]: the integer and float
    registers of the warps of one issue lane, split over its operand
    collectors, with the reading of source operands at issue and the
    byte-selected write at commit; [sequencer.{h,cpp}] with [LsuUopGen] of
    [lsu_unit.cpp]: the expansion of packed loads into ordinary loads.  The
    other generators belong to optional units; a macro-op of such a unit is
    [None], as is a failed assertion, an abort or an index out of range. *)

From S2P Require Import Prelude MemTypes Decode Scoreboard Sched LsuTypes Coalescer.

Record opc_config := {
  oc_ISSUE_WIDTH : nat; oc_NUM_OPCS : nat; oc_NUM_WARPS : nat; oc_NUM_THREADS : nat; oc_XLEN : Z; oc_NUM_GPR_BANKS : Z
}.

Definition MAX_NUM_REGS : nat := 32.
Definition NUM_SRC_REGS : nat := 3.

(** The fields of [instr_trace_t] used between decode and commit; [tr_instr]
    is the instruction behind [instr_ptr].  Registers are 64-bit unions. *)
Record op_trace := {
  tr_uuid : Z; tr_cid : Z; tr_wid : nat; tr_PC : Z; tr_tmask : list bool; tr_wb : bool; tr_instr : Instr; tr_dst : RegOpd;
  tr_src_regs : list RegOpd; tr_src_data : list (list Z); tr_dst_data : list Z; tr_dst_bytesel : Z
}.

(** [instr_trace_t::instr_trace_t] *)
Definition op_trace_init (c : opc_config) (uuid : Z) : op_trace := {|
  tr_uuid := uuid; tr_cid := 0; tr_wid := 0; tr_PC := 0; tr_tmask := zeros (oc_NUM_THREADS c); tr_wb := false; tr_instr := Instr_init;
  tr_dst := no_reg; tr_src_regs := replicate NUM_SRC_REGS no_reg; tr_src_data := replicate NUM_SRC_REGS (replicate (oc_NUM_THREADS c) 0);
  tr_dst_data := replicate (oc_NUM_THREADS c) 0; tr_dst_bytesel := 0xFF |}.

(** ** Register files *)

Record warp_regs_t := { ireg_file : list (list Z); freg_file : list (list Z) }.

Record OpcUnit := {
  regs_ : list warp_regs_t; opc_Input : chan op_trace; opc_Output : chan op_trace;
  total_stalls_ : Z; cur_trace_ : option op_trace; release_cycle_ : Z
}.

Section Opc.
Context (c : opc_config).

Definition warp_regs_init : warp_regs_t :=
  {| ireg_file := replicate MAX_NUM_REGS (replicate (oc_NUM_THREADS c) 0); freg_file := replicate MAX_NUM_REGS (replicate (oc_NUM_THREADS c) 0) |}.

Definition OpcUnit_init (num_warp_slots cap : nat) : OpcUnit := {|
  regs_ := replicate num_warp_slots warp_regs_init; opc_Input := ch_init cap; opc_Output := ch_init cap; total_stalls_ := 0; cur_trace_ := None; release_cycle_ := 0 |}.

(** [warp_regs_t::reset] *)
Definition warp_regs_reset (w : warp_regs_t) : warp_regs_t :=
  {| ireg_file := map (map (fun _ => 0)) (ireg_file w); freg_file := map (map (fun _ => 0)) (freg_file w) |}.

Definition opc_on_reset (s : OpcUnit) : OpcUnit :=
  s <| total_stalls_ := 0 |> <| cur_trace_ := None |> <| release_cycle_ := 0 |> <| regs_ := map warp_regs_reset (regs_ s) |>.

Definition wid_to_opc_idx (wid : nat) : nat := ((wid / oc_ISSUE_WIDTH c) mod oc_NUM_OPCS c)%nat.
Definition wid_to_slot (wid : nat) : nat := (wid / oc_ISSUE_WIDTH c / oc_NUM_OPCS c)%nat.

Definition is_x0 (r : RegOpd) : bool := match rtype r with RegInteger => reg_id_of r =? 0 | _ => false end.
Definition is_none (r : RegOpd) : bool := match rtype r with RegNone => true | _ => false end.

(** One pair of source registers in [compute_bank_conflicts]. *)
Definition pair_conflict (ri rj : RegOpd) : Z :=
  if is_none ri || is_none rj then 0
  else if is_x0 ri || is_x0 rj then 0
  else b2z (ridx ri mod oc_NUM_GPR_BANKS c =? ridx rj mod oc_NUM_GPR_BANKS c).

Fixpoint compute_bank_conflicts (l : list RegOpd) : Z :=
  match l with
  | [] => 0
  | r :: l => foldr Z.add 0 (map (pair_conflict r) l) + compute_bank_conflicts l
  end.

Definition opc_on_tick (cur_cycle : Z) (s : OpcUnit) : OpcUnit :=
  let accept (s : OpcUnit) :=
    match cur_trace_ s, ch_q (opc_Input s) with
    | None, t :: _ =>
        let stalls := compute_bank_conflicts (tr_src_regs t) in
        s <| total_stalls_ := u32 (total_stalls_ s + stalls) |> <| cur_trace_ := Some t |>
          <| release_cycle_ := u64 (cur_cycle + 1 + stalls) |> <| opc_Input := ch_pop (opc_Input s) |>
    | _, _ => s
    end in
  match cur_trace_ s with
  | Some t =>
      if release_cycle_ s <=? cur_cycle then
        if ch_full (opc_Output s) then s
        else accept (s <| opc_Output := ch_push (opc_Output s) t |> <| cur_trace_ := None |>)
      else accept s
  | None => accept s
  end.

(** [out[t].u = src[t]]: the word at the low end of the union. *)
Definition set_word (old v : Z) : Z := Z.lor (Z.land old (u64 (Z.lnot (Z.ones (oc_XLEN c))))) v.

(** [OpcUnit::read_src], the new contents of [out]. *)
Definition read_src (s : OpcUnit) (wid : nat) (reg : RegOpd) (out : list Z) : option (list Z) :=
  slot ← regs_ s !! wid_to_slot wid;
  match rtype reg with
  | RegInteger => src ← ireg_file slot !! Z.to_nat (ridx reg); Some (zip_with set_word out (take (oc_NUM_THREADS c) src))
  | RegFloat => src ← freg_file slot !! Z.to_nat (ridx reg); Some (take (oc_NUM_THREADS c) src)
  | RegNone => Some out
  end.

Definition expand_bytesel64 (bs : Z) : Z :=
  fold_left (fun m b => if Z.testbit bs b then Z.lor m (u64 (Z.shiftl 0xFF (8 * b))) else m) [0; 1; 2; 3; 4; 5; 6; 7] 0.

(** [(cur & ~mask) | (incoming & mask)] on words of [w] bits. *)
Definition merge_word (w mask cur incoming : Z) : Z :=
  Z.lor (Z.land cur (wrap w (Z.lnot (wrap w mask)))) (Z.land (wrap w incoming) (wrap w mask)).

(** One thread of the loops of [writeback]. *)
Definition write_thread (w mask : Z) (t : op_trace) (bank : option (list Z)) (tid : nat) : option (list Z) :=
  bank ← bank;
  if test (tr_tmask t) tid then
    cur ← bank !! tid;
    v ← tr_dst_data t !! tid;
    Some (<[tid := merge_word w mask cur v]> bank)
  else Some bank.

Definition opc_writeback (s : OpcUnit) (t : op_trace) (wid : nat) : option OpcUnit :=
  if (length (tr_dst_data t) =? 0)%nat then Some s else
  let mask := expand_bytesel64 (tr_dst_bytesel t) in
  let threads := seq 0 (oc_NUM_THREADS c) in
  let slot := wid_to_slot wid in
  match rtype (tr_dst t) with
  | RegNone => Some s
  | RegInteger =>
      w ← regs_ s !! slot;
      bank ← ireg_file w !! Z.to_nat (ridx (tr_dst t));
      bank ← fold_left (write_thread (oc_XLEN c) mask t) threads (Some bank);
      Some (s <| regs_ := <[slot := w <| ireg_file := <[Z.to_nat (ridx (tr_dst t)) := bank]> (ireg_file w) |>]> (regs_ s) |>)
  | RegFloat =>
      w ← regs_ s !! slot;
      bank ← freg_file w !! Z.to_nat (ridx (tr_dst t));
      bank ← fold_left (write_thread 64 mask t) threads (Some bank);
      Some (s <| regs_ := <[slot := w <| freg_file := <[Z.to_nat (ridx (tr_dst t)) := bank]> (freg_file w) |>]> (regs_ s) |>)
  end.

(** ** Operand stage of an issue lane *)

Record Operands := { op_Input : chan op_trace; opc_units_ : list OpcUnit }.

Definition per_opc_warps : nat :=
  ((oc_NUM_WARPS c + oc_ISSUE_WIDTH c * oc_NUM_OPCS c - 1) / (oc_ISSUE_WIDTH c * oc_NUM_OPCS c))%nat.

Definition Operands_init (cap : nat) : Operands :=
  {| op_Input := ch_init cap; opc_units_ := replicate (oc_NUM_OPCS c) (OpcUnit_init per_opc_warps cap) |}.

(** [Operands::on_tick]; with one collector the input is bound to it. *)
Definition op_on_tick (s : Operands) : option Operands :=
  if (oc_NUM_OPCS c <? 2)%nat then Some s else
  match ch_q (op_Input s) with
  | [] => Some s
  | t :: _ =>
      let i := wid_to_opc_idx (tr_wid t) in
      u ← opc_units_ s !! i;
      if ch_full (opc_Input u) then Some s
      else Some (s <| opc_units_ := <[i := u <| opc_Input := ch_push (opc_Input u) t |>]> (opc_units_ s) |> <| op_Input := ch_pop (op_Input s) |>)
  end.

(** One source of [fetch_operands]. *)
Definition fetch_src (u : OpcUnit) (st : option op_trace) (i : nat) : option op_trace :=
  t ← st;
  r ← tr_src_regs t !! i;
  if is_none r then Some t else
  out ← tr_src_data t !! i;
  out ← read_src u (tr_wid t) r out;
  Some (t <| tr_src_data := <[i := out]> (tr_src_data t) |>).

Definition fetch_operands (s : Operands) (t : op_trace) : option op_trace :=
  u ← opc_units_ s !! wid_to_opc_idx (tr_wid t);
  fold_left (fetch_src u) (seq 0 NUM_SRC_REGS) (Some t).

Definition op_writeback (s : Operands) (t : op_trace) : option Operands :=
  let i := wid_to_opc_idx (tr_wid t) in
  u ← opc_units_ s !! i;
  u ← opc_writeback u t (tr_wid t);
  Some (s <| opc_units_ := <[i := u]> (opc_units_ s) |>).

(** [Operands::get_exit_code]: x3 of thread 0 of warp 0. *)
Definition get_exit_code (s : Operands) : option Z :=
  u ← opc_units_ s !! O; w ← regs_ u !! O; bank ← ireg_file w !! 3%nat; v ← bank !! O; Some (sint 32 v).

(** ** What the stages of the core do with a trace *)

(** The fields [Core::decode] fills in from the instruction. *)
Definition decode_trace (t : op_trace) (i : Instr) : op_trace :=
  t <| tr_instr := i |> <| tr_dst := rdest i |> <| tr_dst_bytesel := 0xFF |> <| tr_src_regs := [rsrc0 i; rsrc1 i; rsrc2 i] |>
    <| tr_wb := negb (is_none (rdest i)) && negb (match rtype (rdest i) with RegInteger => ridx (rdest i) =? 0 | _ => false end) |>.

(** The register write of [Core::commit]. *)
Definition commit_regs (s : Operands) (t : op_trace) : option Operands := if tr_wb t then op_writeback s t else Some s.

(** ** Micro-ops *)

(** An instruction with the identifiers and the byte select of a micro-op. *)
Record uop_t := { uo_instr : Instr; uo_uuid : Z; uo_parent_uuid : Z; uo_bytesel : Z }.

(** [LsuUopGen::uop_count] *)
Definition uop_count (i : Instr) : option Z :=
  match args i with LsuArgs width _ _ => Some (if width =? 0 then 4 else 2) | _ => None end.

(** [LsuUopGen::get] *)
Definition uop_get (parent_uuid : Z) (macro : Instr) (uop_index : Z) : option uop_t :=
  total ← uop_count macro;
  match args macro with
  | LsuArgs width _ _ =>
      let uuid_hi := Z.land (Z.shiftr parent_uuid 32) 0xffffffff in
      let uuid_lo := Z.land parent_uuid 0xffffffff in
      let steps_shift := if 1 <? total then 32 - Z.log2_up total else 0 in
      let elem_bytes := u32 (Z.shiftl 1 width) in
      let byte_off := u32 (uop_index * elem_bytes) in
      let data_mask := wrap 8 (u32 (Z.shiftl (u32 (u32 (Z.shiftl 1 elem_bytes) - 1)) byte_off)) in
      let dst_float := match rtype (rdest macro) with RegFloat => true | _ => false end in
      Some {| uo_instr := Instr_init <| fu_type := FU_LSU |> <| op_type := OpLsu LSU_LOAD |> <| rdest := rdest macro |>
                            <| rsrc0 := xreg (ridx (rsrc0 macro)) |> <| rsrc1 := xreg (ridx (rsrc1 macro)) |> <| args := LsuArgs (u32 (width + 4)) uop_index 0 |>;
              uo_uuid := Z.lor (Z.shiftl uuid_hi 32) (Z.lor (u32 (Z.shiftl uop_index steps_shift)) uuid_lo); uo_parent_uuid := parent_uuid;
              uo_bytesel := Z.lor data_mask (if dst_float then 0xF0 else 0) |}
  | _ => None
  end.

Record Sequencer := { sq_active : bool; sq_uop_index : Z; sq_uop_count : Z; sq_current_uop : option op_trace }.
Definition Sequencer_init : Sequencer := {| sq_active := false; sq_uop_index := 0; sq_uop_count := 0; sq_current_uop := None |}.

(** The trace of a micro-op. *)
Definition uop_trace (t : op_trace) (u : uop_t) : op_trace :=
  (op_trace_init c (uo_uuid u)) <| tr_cid := tr_cid t |> <| tr_wid := tr_wid t |> <| tr_PC := tr_PC t |> <| tr_tmask := tr_tmask t |>
    <| tr_instr := uo_instr u |> <| tr_dst := rdest (uo_instr u) |> <| tr_dst_bytesel := uo_bytesel u |>
    <| tr_src_regs := [rsrc0 (uo_instr u); rsrc1 (uo_instr u); rsrc2 (uo_instr u)] |> <| tr_wb := negb (is_none (rdest (uo_instr u))) |>.

(** [Sequencer::get] *)
Definition sq_get (s : Sequencer) (t : op_trace) : option (Sequencer * op_trace) :=
  match sq_current_uop s with
  | Some u => Some (s, u)
  | None =>
      s ← (if negb (sq_active s) && is_macro_op (tr_instr t) then
             match fu_type (tr_instr t) with
             | FU_LSU => n ← uop_count (tr_instr t); Some (s <| sq_active := true |> <| sq_uop_index := 0 |> <| sq_uop_count := n |>)
             | _ => None
             end
           else Some s);
      if sq_active s then
        u ← uop_get (tr_uuid t) (tr_instr t) (sq_uop_index s);
        let ut := uop_trace t u in
        Some (s <| sq_current_uop := Some ut |>, ut)
      else Some (s <| sq_current_uop := Some t |>, t)
  end.

(** [Sequencer::advance] *)
Definition sq_advance (s : Sequencer) : Sequencer * bool :=
  let s := s <| sq_current_uop := None |> in
  let s := if sq_active s then
             let s := s <| sq_uop_index := u32 (sq_uop_index s + 1) |> in
             if (sq_uop_count s <=? sq_uop_index s) || (255 <=? sq_uop_index s) then s <| sq_active := false |> else s
           else s in
  (s, negb (sq_active s)).

End Opc.
