(* ===== verification/OperandsProofs.v ===== *)
(** * The registers of an issue lane

    The split register files implement one table of registers per warp, type,
    number and thread; x0 stays zero under commits of decoded instructions. *)

From S2P Require Import Prelude MemTypes Decode Scoreboard Sched LsuTypes Coalescer Operands.

Ltac oproj := cbv [set const]; cbn [opc_units_ op_Input regs_ opc_Input opc_Output ireg_file freg_file].

(** Registers by warp, type, number and thread. *)
Abbreviation regmap := (nat -> RegType -> Z -> nat -> Z).

(** ** Routing of warps to collectors and slots *)

Section Regs.
Context (c : opc_config) (lane : nat).

Definition in_lane (wid : nat) : Prop := (wid < oc_NUM_WARPS c)%nat /\ (wid mod oc_ISSUE_WIDTH c = lane)%nat.

Hypothesis Hw : (0 < oc_ISSUE_WIDTH c)%nat.
Hypothesis Ho : (0 < oc_NUM_OPCS c)%nat.
#[local] Set Default Proof Using "All".

Lemma route_inj w w' : in_lane w -> in_lane w' -> wid_to_opc_idx c w = wid_to_opc_idx c w' -> wid_to_slot c w = wid_to_slot c w' -> w = w'.
Proof.
  intros [_ H1] [_ H2] E1 E2. unfold wid_to_opc_idx, wid_to_slot in *.
  pose proof (Nat.div_mod w (oc_ISSUE_WIDTH c) ltac:(lia)). pose proof (Nat.div_mod w' (oc_ISSUE_WIDTH c) ltac:(lia)).
  pose proof (Nat.div_mod (w / oc_ISSUE_WIDTH c) (oc_NUM_OPCS c) ltac:(lia)). pose proof (Nat.div_mod (w' / oc_ISSUE_WIDTH c) (oc_NUM_OPCS c) ltac:(lia)).
  assert (w / oc_ISSUE_WIDTH c = w' / oc_ISSUE_WIDTH c)%nat by congruence. congruence.
Qed.

Lemma route_opc w : (wid_to_opc_idx c w < oc_NUM_OPCS c)%nat.
Proof. apply Nat.mod_upper_bound. lia. Qed.

Lemma route_slot w : in_lane w -> (wid_to_slot c w < per_opc_warps c)%nat.
Proof.
  intros [H _]. unfold wid_to_slot, per_opc_warps. rewrite Nat.Div0.div_div. set (k := (oc_ISSUE_WIDTH c * oc_NUM_OPCS c)%nat).
  assert (0 < k)%nat by (apply Nat.mul_pos_pos; lia). apply Nat.Div0.div_lt_upper_bound.
  pose proof (Nat.div_mod (oc_NUM_WARPS c + k - 1) k ltac:(lia)). pose proof (Nat.mod_upper_bound (oc_NUM_WARPS c + k - 1) k ltac:(lia)). lia.
Qed.

(** ** The abstract registers *)

Definition reg_width (ty : RegType) : Z := match ty with RegInteger => oc_XLEN c | _ => 64 end.

(** The register of a thread, as the files hold it. *)
Definition reg_of (s : Operands) (wid : nat) (ty : RegType) (idx : Z) (tid : nat) : option Z :=
  u ← opc_units_ s !! wid_to_opc_idx c wid;
  w ← regs_ u !! wid_to_slot c wid;
  bank ← match ty with RegInteger => ireg_file w !! Z.to_nat idx | RegFloat => freg_file w !! Z.to_nat idx | RegNone => None end;
  bank !! tid.

(** A committed trace writes the selected bytes of its destination, in the
    active threads of its warp. *)
Definition writes (t : op_trace) (wid : nat) (ty : RegType) (idx : Z) (tid : nat) : bool :=
  tr_wb t && bool_decide (wid = tr_wid t /\ ty = rtype (tr_dst t) /\ idx = ridx (tr_dst t)) && test (tr_tmask t) tid.

Definition abs_commit (R : regmap) (t : op_trace) : regmap := fun wid ty idx tid =>
  if writes t wid ty idx tid
  then merge_word (reg_width ty) (expand_bytesel64 (tr_dst_bytesel t)) (R wid ty idx tid) (default 0 (tr_dst_data t !! tid))
  else R wid ty idx tid.

Definition abs_regs (ts : list op_trace) : regmap := fold_left abs_commit ts (fun _ _ _ _ => 0).

Definition valid_reg (ty : RegType) (idx : Z) : Prop := ty <> RegNone /\ 0 <= idx < 32.

Definition commit_ok (t : op_trace) : Prop :=
  in_lane (tr_wid t) /\ length (tr_dst_data t) = oc_NUM_THREADS c /\ (rtype (tr_dst t) <> RegNone -> 0 <= ridx (tr_dst t) < 32).

(** The shape of the files. *)
Definition file_ok (f : list (list Z)) : Prop := length f = MAX_NUM_REGS /\ Forall (fun b => length b = oc_NUM_THREADS c) f.
Definition regs_ok (w : warp_regs_t) : Prop := file_ok (ireg_file w) /\ file_ok (freg_file w).
Definition opc_ok (u : OpcUnit) : Prop := length (regs_ u) = per_opc_warps c /\ Forall regs_ok (regs_ u).
Definition ops_ok (s : Operands) : Prop := length (opc_units_ s) = oc_NUM_OPCS c /\ Forall opc_ok (opc_units_ s).

Lemma file_lookup f idx : file_ok f -> 0 <= idx < 32 -> exists b, f !! Z.to_nat idx = Some b /\ length b = oc_NUM_THREADS c.
Proof.
  intros [L F] Hi. destruct (lookup_lt_is_Some_2 f (Z.to_nat idx)) as [b Hb]; [rewrite L; unfold MAX_NUM_REGS; lia|].
  exists b. split; [done|]. rewrite list.Forall_forall in F. apply F. by eapply list_elem_of_lookup_2.
Qed.

Lemma file_insert f i b : file_ok f -> length b = oc_NUM_THREADS c -> file_ok (<[i := b]> f).
Proof. intros [L F] Hb. split; [by rewrite length_insert|by apply Forall_insert]. Qed.

Lemma ops_lookup s wid : ops_ok s -> in_lane wid ->
  exists u w, opc_units_ s !! wid_to_opc_idx c wid = Some u /\ regs_ u !! wid_to_slot c wid = Some w /\ opc_ok u /\ regs_ok w.
Proof.
  intros [L F] Hl. destruct (lookup_lt_is_Some_2 (opc_units_ s) (wid_to_opc_idx c wid)) as [u Hu]; [rewrite L; apply route_opc|].
  assert (Hou : opc_ok u) by (rewrite list.Forall_forall in F; apply F; by eapply list_elem_of_lookup_2). destruct Hou as [Lu Fu].
  destruct (lookup_lt_is_Some_2 (regs_ u) (wid_to_slot c wid)) as [w Hr]; [rewrite Lu; by apply route_slot|].
  exists u, w. split_and!; try done. rewrite list.Forall_forall in Fu. apply Fu. by eapply list_elem_of_lookup_2.
Qed.

(** ** Writing a bank *)

Lemma write_threads w mask t n : forall bank, length bank = oc_NUM_THREADS c -> length (tr_dst_data t) = oc_NUM_THREADS c -> (n <= oc_NUM_THREADS c)%nat ->
  exists bank', fold_left (write_thread w mask t) (seq 0 n) (Some bank) = Some bank' /\ length bank' = oc_NUM_THREADS c /\
  forall j, bank' !! j = if (j <? n)%nat && test (tr_tmask t) j then (fun cur => merge_word w mask cur (default 0 (tr_dst_data t !! j))) <$> bank !! j else bank !! j.
Proof.
  induction n as [|n IH]; intros bank Lb Ld Hn; [by exists bank|]. destruct (IH bank Lb Ld ltac:(lia)) as (b & Hb & Lb' & Hj).
  rewrite seq_S, fold_left_app, Hb. cbn [fold_left Nat.add]. unfold write_thread. cbn [mbind option_bind]. destruct (test (tr_tmask t) n) eqn:Et.
  - destruct (lookup_lt_is_Some_2 b n) as [cur Hcur]; [lia|]. destruct (lookup_lt_is_Some_2 (tr_dst_data t) n) as [v Hv]; [lia|].
    rewrite Hcur. cbn [mbind option_bind]. rewrite Hv. cbn [mbind option_bind]. eexists. split; [done|]. split; [by rewrite length_insert|].
    intros j. destruct (decide (j = n)) as [->|Hne].
    + rewrite list_lookup_insert_eq by lia. rewrite (proj2 (Nat.ltb_lt n (S n))), Et by lia. rewrite Hj in Hcur. rewrite Nat.ltb_irrefl in Hcur. cbn in Hcur.
      rewrite Hcur, Hv. done.
    + rewrite list_lookup_insert_ne, Hj by done. destruct (Nat.ltb_spec j n), (Nat.ltb_spec j (S n)); lia || done.
  - exists b. split; [done|]. split; [done|]. intros j. rewrite Hj. destruct (decide (j = n)) as [->|Hne].
    + rewrite Et, !andb_false_r. done.
    + destruct (Nat.ltb_spec j n), (Nat.ltb_spec j (S n)); lia || done.
Qed.

(** ** One commit *)

(** Replacing the registers of the warp of [wid] keeps the shape of the stage. *)
Lemma ops_ok_insert s wid u w' : ops_ok s -> opc_units_ s !! wid_to_opc_idx c wid = Some u -> opc_ok u -> regs_ok w' ->
  ops_ok (s <| opc_units_ := <[wid_to_opc_idx c wid := u <| regs_ := <[wid_to_slot c wid := w']> (regs_ u) |>]> (opc_units_ s) |>).
Proof.
  intros [L F] _ [Lu Fu] Hw'. split; oproj; [by rewrite length_insert|]. apply Forall_insert; [done|]. split; oproj; [by rewrite length_insert|by apply Forall_insert].
Qed.

(** The registers of another warp are not touched. *)
Lemma reg_of_insert s wid u w w' wid' ty idx tid : ops_ok s -> in_lane wid -> in_lane wid' ->
  opc_units_ s !! wid_to_opc_idx c wid = Some u -> regs_ u !! wid_to_slot c wid = Some w ->
  reg_of (s <| opc_units_ := <[wid_to_opc_idx c wid := u <| regs_ := <[wid_to_slot c wid := w']> (regs_ u) |>]> (opc_units_ s) |>) wid' ty idx tid =
  if bool_decide (wid' = wid) then
    bank ← match ty with RegInteger => ireg_file w' !! Z.to_nat idx | RegFloat => freg_file w' !! Z.to_nat idx | RegNone => None end; bank !! tid
  else reg_of s wid' ty idx tid.
Proof.
  intros Hs Hl Hl' Hu Hr. unfold reg_of. oproj. case_bool_decide as E.
  - subst wid'. rewrite list_lookup_insert_eq by (by eapply lookup_lt_Some). cbn [mbind option_bind]. oproj.
    rewrite list_lookup_insert_eq by (by eapply lookup_lt_Some). done.
  - destruct (decide (wid_to_opc_idx c wid' = wid_to_opc_idx c wid)) as [Eo|Eo].
    + rewrite Eo, list_lookup_insert_eq by (by eapply lookup_lt_Some). rewrite Hu. cbn [mbind option_bind]. oproj. rewrite list_lookup_insert_ne; [done|].
      intros Es. apply E. symmetry. by apply route_inj.
    + by rewrite list_lookup_insert_ne by congruence.
Qed.

Definition agrees (s : Operands) (R : regmap) : Prop :=
  forall wid ty idx tid, in_lane wid -> valid_reg ty idx -> (tid < oc_NUM_THREADS c)%nat -> reg_of s wid ty idx tid = Some (R wid ty idx tid).

(** The value a bank holds after its threads are written. *)
Lemma bank_merge (b b' : list Z) w mask t tid v : length b = oc_NUM_THREADS c -> (tid < oc_NUM_THREADS c)%nat -> b !! tid = Some v ->
  (forall j, b' !! j = if (j <? oc_NUM_THREADS c)%nat && test (tr_tmask t) j then (fun cur => merge_word w mask cur (default 0 (tr_dst_data t !! j))) <$> b !! j else b !! j) ->
  b' !! tid = Some (if test (tr_tmask t) tid then merge_word w mask v (default 0 (tr_dst_data t !! tid)) else v).
Proof. intros _ Ht Hv H. rewrite H, (proj2 (Nat.ltb_lt _ _)), Hv by done. cbn. by destruct (test _ _). Qed.

Lemma lookup_bank (f : list (list Z)) i j (b : list Z) : (i < length f)%nat -> <[i := b]> f !! j = if (j =? i)%nat then Some b else f !! j.
Proof. intros H. destruct (Nat.eqb_spec j i) as [->|]; [by rewrite list_lookup_insert_eq|by rewrite list_lookup_insert_ne]. Qed.

(** The file of a register type. *)
Definition file_of (w : warp_regs_t) (ty : RegType) : option (list (list Z)) :=
  match ty with RegInteger => Some (ireg_file w) | RegFloat => Some (freg_file w) | RegNone => None end.
Definition set_file (w : warp_regs_t) (ty : RegType) (f : list (list Z)) : warp_regs_t :=
  match ty with RegInteger => w <| ireg_file := f |> | RegFloat => w <| freg_file := f |> | RegNone => w end.

Lemma opc_writeback_file u t wid : opc_writeback c u t wid =
  if (length (tr_dst_data t) =? 0)%nat then Some u else
  match rtype (tr_dst t) with
  | RegNone => Some u
  | ty => w ← regs_ u !! wid_to_slot c wid; f ← file_of w ty; bank ← f !! Z.to_nat (ridx (tr_dst t));
      bank ← fold_left (write_thread (reg_width ty) (expand_bytesel64 (tr_dst_bytesel t)) t) (seq 0 (oc_NUM_THREADS c)) (Some bank);
      Some (u <| regs_ := <[wid_to_slot c wid := set_file w ty (<[Z.to_nat (ridx (tr_dst t)) := bank]> f)]> (regs_ u) |>)
  end.
Proof. unfold opc_writeback. by destruct (length _ =? 0)%nat, (rtype (tr_dst t)). Qed.

Lemma file_of_ok w ty f : regs_ok w -> file_of w ty = Some f -> file_ok f.
Proof. intros [? ?]. destruct ty; cbn; [done|intros [= <-]; done..]. Qed.

Lemma set_file_ok w ty f : regs_ok w -> file_ok f -> regs_ok (set_file w ty f).
Proof. intros [? ?] ?. by destruct ty. Qed.

Lemma file_set w ty ty' f : file_of (set_file w ty f) ty' = if bool_decide (ty' = ty /\ ty <> RegNone) then Some f else file_of w ty'.
Proof. by destruct ty, ty'. Qed.

(** A commit changes the destination of the trace in its active threads and
    nothing else. *)
Lemma commit_step s R t : ops_ok s -> agrees s R -> commit_ok t -> exists s', commit_regs c s t = Some s' /\ ops_ok s' /\ agrees s' (abs_commit R t).
Proof.
  intros Hs HR (Hl & Ld & Hd). unfold commit_regs. destruct (tr_wb t) eqn:Ewb.
  2:{ exists s. split_and!; try done. intros wid ty idx tid. unfold abs_commit, writes. rewrite Ewb. apply HR. }
  destruct (ops_lookup s (tr_wid t) Hs Hl) as (u & w & Hu & Hr & Ou & Ow). unfold op_writeback. rewrite Hu. cbn [mbind option_bind]. rewrite opc_writeback_file.
  destruct (Nat.eqb_spec (length (tr_dst_data t)) 0) as [E0|E0].
  { exists s. cbn [mbind option_bind]. rewrite list_insert_id by done. split; [by destruct s|]. split; [done|]. intros wid ty idx tid _ _ Ht. lia. }
  destruct (decide (rtype (tr_dst t) = RegNone)) as [En|En].
  { exists s. rewrite En. cbn [mbind option_bind]. rewrite list_insert_id by done. split; [by destruct s|]. split; [done|]. intros wid ty idx tid Hi Hv Ht. unfold abs_commit, writes.
    rewrite bool_decide_false, andb_false_r by (rewrite En; unfold valid_reg in Hv; tauto). by apply HR. }
  destruct (file_of w (rtype (tr_dst t))) as [f|] eqn:Ef; [|by destruct (rtype (tr_dst t))]. pose proof (file_of_ok w _ f Ow Ef) as Fo. specialize (Hd En).
  destruct (file_lookup f _ Fo Hd) as (b & Hb & Lb).
  destruct (write_threads (reg_width (rtype (tr_dst t))) (expand_bytesel64 (tr_dst_bytesel t)) t (oc_NUM_THREADS c) b Lb Ld ltac:(lia)) as (b' & Hf & Lb' & Hb').
  set (w' := set_file w (rtype (tr_dst t)) (<[Z.to_nat (ridx (tr_dst t)) := b']> f)).
  exists (s <| opc_units_ := <[wid_to_opc_idx c (tr_wid t) := u <| regs_ := <[wid_to_slot c (tr_wid t) := w']> (regs_ u) |>]> (opc_units_ s) |>). split_and!.
  - destruct (rtype (tr_dst t)) eqn:Ety; [done|..]; rewrite Hr; cbn [mbind option_bind]; rewrite Ef; cbn [mbind option_bind]; rewrite Hb; cbn [mbind option_bind]; rewrite Hf; done.
  - apply ops_ok_insert; try done. apply set_file_ok; [done|]. by apply file_insert.
  - intros wid ty idx tid Hi Hv Ht. rewrite (reg_of_insert s (tr_wid t) u w w') by done. unfold abs_commit, writes. rewrite Ewb. cbn [andb].
    pose proof (HR wid ty idx tid Hi Hv Ht) as Hold. case_bool_decide as Ewid; [|rewrite bool_decide_false by tauto; done].
    assert (Efile : forall w0, match ty with RegInteger => ireg_file w0 !! Z.to_nat idx | RegFloat => freg_file w0 !! Z.to_nat idx | RegNone => None end = file_of w0 ty ≫= (.!! Z.to_nat idx)) by (by destruct ty).
    unfold reg_of in Hold. subst wid. rewrite Hu in Hold. cbn [mbind option_bind] in Hold. rewrite Hr in Hold. cbn [mbind option_bind] in Hold. rewrite Efile in Hold |- *.
    unfold w'. rewrite file_set. case_bool_decide as Et.
    + destruct Et as [-> _]. rewrite Ef in Hold. cbn [mbind option_bind] in Hold |- *. rewrite lookup_bank by (by eapply lookup_lt_Some).
      destruct (Nat.eqb_spec (Z.to_nat idx) (Z.to_nat (ridx (tr_dst t)))) as [Ei|Ei].
      * assert (idx = ridx (tr_dst t)) as -> by (unfold valid_reg in Hv; lia). rewrite bool_decide_true by done. rewrite Hb in Hold. cbn [mbind option_bind] in Hold |- *.
        rewrite (bank_merge b b' _ _ t tid _ Lb Ht Hold Hb'). by destruct (test _ _).
      * rewrite bool_decide_false by (intros (_ & _ & ->); done). exact Hold.
    + rewrite bool_decide_false by tauto. exact Hold.
Qed.

Lemma init_ok cap : ops_ok (Operands_init c cap) /\ agrees (Operands_init c cap) (fun _ _ _ _ => 0).
Proof.
  assert (Hf : file_ok (replicate MAX_NUM_REGS (replicate (oc_NUM_THREADS c) 0))).
  { split; [by rewrite length_replicate|]. apply Forall_replicate. by rewrite length_replicate. }
  split.
  - split; cbn; [by rewrite length_replicate|]. apply Forall_replicate. split; cbn; [by rewrite length_replicate|]. by apply Forall_replicate.
  - intros wid ty idx tid Hi [Hv Hx] Ht. unfold reg_of, Operands_init. cbn [opc_units_]. rewrite lookup_replicate_2 by apply route_opc. cbn [mbind option_bind OpcUnit_init regs_].
    rewrite lookup_replicate_2 by (by apply route_slot). cbn [mbind option_bind warp_regs_init ireg_file freg_file]. 
    assert (E : replicate MAX_NUM_REGS (replicate (oc_NUM_THREADS c) 0) !! Z.to_nat idx = Some (replicate (oc_NUM_THREADS c) 0)) by (apply lookup_replicate_2; unfold MAX_NUM_REGS; lia).
    destruct ty; [done|..]; rewrite E; cbn [mbind option_bind]; by apply lookup_replicate_2.
Qed.

(** ** Any sequence of commits *)

Definition commits (s : option Operands) (ts : list op_trace) : option Operands := fold_left (fun s t => s ← s; commit_regs c s t) ts s.

Lemma commits_ok ts : forall s R, ops_ok s -> agrees s R -> Forall commit_ok ts ->
  exists s', commits (Some s) ts = Some s' /\ ops_ok s' /\ agrees s' (fold_left abs_commit ts R).
Proof.
  induction ts as [|t ts IH]; intros s R Hs HR Hok; [by exists s|]. apply list.Forall_cons in Hok as [Ht Hts].
  destruct (commit_step s R t Hs HR Ht) as (s1 & E1 & Hs1 & HR1). unfold commits. cbn [fold_left mbind option_bind]. rewrite E1. by apply IH.
Qed.

(** *** Operands *)

(** A trace as decode leaves it: source registers named, no data yet. *)
Definition fetch_ok (t : op_trace) : Prop :=
  in_lane (tr_wid t) /\ length (tr_src_regs t) = NUM_SRC_REGS /\ Forall (fun r => rtype r <> RegNone -> 0 <= ridx r < 32) (tr_src_regs t) /\
  tr_src_data t = replicate NUM_SRC_REGS (replicate (oc_NUM_THREADS c) 0).

Lemma set_word_zero v : set_word c 0 v = v.
Proof. unfold set_word. by rewrite Z.land_0_l. Qed.

Lemma read_src_zero s R u wid r : ops_ok s -> agrees s R -> in_lane wid -> opc_units_ s !! wid_to_opc_idx c wid = Some u -> valid_reg (rtype r) (ridx r) ->
  exists d, read_src c u wid r (replicate (oc_NUM_THREADS c) 0) = Some d /\
  forall tid, (tid < oc_NUM_THREADS c)%nat -> d !! tid = Some (R wid (rtype r) (ridx r) tid).
Proof.
  intros Hs HR Hl Hu Hv. destruct (ops_lookup s wid Hs Hl) as (u' & w & Hu' & Hr & Ou & Oi & Of). rewrite Hu in Hu'. injection Hu' as <-.
  assert (Hreg : forall tid, (tid < oc_NUM_THREADS c)%nat -> reg_of s wid (rtype r) (ridx r) tid = Some (R wid (rtype r) (ridx r) tid)) by (intros; by apply HR).
  unfold reg_of in Hreg. rewrite Hu in Hreg. cbn [mbind option_bind] in Hreg. rewrite Hr in Hreg. cbn [mbind option_bind] in Hreg. unfold read_src. rewrite Hr. cbn [mbind option_bind].
  destruct Hv as [Hty Hi]. destruct (rtype r); [done|..].
  - destruct (file_lookup _ _ Oi Hi) as (b & Hb & Lb). rewrite Hb in Hreg |- *. cbn [mbind option_bind] in Hreg |- *. eexists. split; [done|]. intros tid Ht.
    rewrite lookup_zip_with, lookup_replicate_2 by done. cbn [mbind option_bind]. rewrite lookup_take_lt, Hreg by done. cbn. by rewrite set_word_zero.
  - destruct (file_lookup _ _ Of Hi) as (b & Hb & Lb). rewrite Hb in Hreg |- *. cbn [mbind option_bind] in Hreg |- *. eexists. split; [done|]. intros tid Ht.
    by rewrite lookup_take_lt, Hreg by done.
Qed.

(** The sources below [n] hold the registers, the others are untouched. *)
Definition fetched (R : regmap) (t t' : op_trace) (n : nat) : Prop :=
  t' = t <| tr_src_data := tr_src_data t' |> /\ length (tr_src_data t') = NUM_SRC_REGS /\
  forall i r, tr_src_regs t !! i = Some r -> exists d, tr_src_data t' !! i = Some d /\
    if (i <? n)%nat && negb (is_none r) then forall tid, (tid < oc_NUM_THREADS c)%nat -> d !! tid = Some (R (tr_wid t) (rtype r) (ridx r) tid)
    else d = replicate (oc_NUM_THREADS c) 0.

Lemma fetch_sources s R u t n : ops_ok s -> agrees s R -> fetch_ok t -> opc_units_ s !! wid_to_opc_idx c (tr_wid t) = Some u -> (n <= NUM_SRC_REGS)%nat ->
  exists t', fold_left (fetch_src c u) (seq 0 n) (Some t) = Some t' /\ fetched R t t' n.
Proof.
  intros Hs HR (Hl & Lr & Fr & Ed) Hu. induction n as [|n IH]; intros Hn.
  - exists t. split; [done|]. split_and!; [by destruct t|by rewrite Ed, length_replicate|]. intros i r Hi. exists (replicate (oc_NUM_THREADS c) 0). split; [|done].
    rewrite Ed. apply lookup_replicate_2. rewrite <- Lr. by eapply lookup_lt_Some.
  - destruct (IH ltac:(lia)) as (t1 & E1 & Et1 & L1 & Hd1). rewrite seq_S, fold_left_app, E1. cbn [fold_left Nat.add]. unfold fetch_src. cbn [mbind option_bind].
    assert (Er : tr_src_regs t1 = tr_src_regs t /\ tr_wid t1 = tr_wid t) by (rewrite Et1; by destruct t). destruct Er as [-> ->].
    destruct (lookup_lt_is_Some_2 (tr_src_regs t) n) as [r Hr]; [lia|]. rewrite Hr. cbn [mbind option_bind]. destruct (is_none r) eqn:En.
    + exists t1. split; [done|]. split_and!; [done|done|]. intros i r' Hi. destruct (Hd1 i r' Hi) as (d & Hd & Hv). exists d. split; [done|].
      destruct (decide (i = n)) as [->|Hne]; [rewrite Hr in Hi; injection Hi as <-; rewrite En in Hv |- *; by rewrite andb_false_r in Hv |- *|].
      destruct (Nat.ltb_spec i n), (Nat.ltb_spec i (S n)); lia || done.
    + destruct (Hd1 n r Hr) as (d0 & Hd0 & Ev). rewrite Nat.ltb_irrefl in Ev. cbn [andb] in Ev. subst d0. rewrite Hd0. cbn [mbind option_bind].
      rewrite list.Forall_forall in Fr. assert (Hv : valid_reg (rtype r) (ridx r)).
      { assert (rtype r <> RegNone) by (unfold is_none in En; by destruct (rtype r)). split; [done|]. apply Fr; [by eapply list_elem_of_lookup_2|done]. }
      destruct (read_src_zero s R u (tr_wid t) r Hs HR Hl Hu Hv) as (d & Ed' & Hd'). rewrite Ed'. cbn [mbind option_bind]. eexists. split; [done|]. split_and!.
      * rewrite Et1. by destruct t.
      * cbv [set const]. cbn [tr_src_data]. by rewrite length_insert.
      * intros i r' Hi. cbv [set const]. cbn [tr_src_data]. destruct (decide (i = n)) as [->|Hne].
        -- rewrite Hr in Hi. injection Hi as <-. rewrite list_lookup_insert_eq by lia. exists d. split; [done|]. rewrite (proj2 (Nat.ltb_lt n (S n))), En by lia. exact Hd'.
        -- rewrite list_lookup_insert_ne by done. destruct (Hd1 i r' Hi) as (d' & ? & Hv'). exists d'. split; [done|]. destruct (Nat.ltb_spec i n), (Nat.ltb_spec i (S n)); lia || done.
Qed.

(** *** The zero register *)

(** A trace whose write flag was set by decode. *)
Definition decoded (t : op_trace) : Prop := exists i, tr_dst t = rdest i /\ tr_wb t = tr_wb (decode_trace t i).

Lemma decoded_x0 t wid tid : decoded t -> writes t wid RegInteger 0 tid = false.
Proof.
  intros (i & Hd & Hwb). unfold writes. destruct (tr_wb t) eqn:E; [|done]. cbn [andb]. case_bool_decide as Hk; [|done]. destruct Hk as (_ & Hty & Hidx).
  symmetry in Hwb. unfold decode_trace in Hwb. cbv [set const] in Hwb. cbn [tr_wb] in Hwb. rewrite <- Hd, <- Hty, <- Hidx in Hwb. cbn in Hwb. by rewrite andb_false_r in Hwb.
Qed.

Lemma abs_x0 ts wid tid : Forall decoded ts -> abs_regs ts wid RegInteger 0 tid = 0.
Proof.
  unfold abs_regs. induction ts as [|t ts IH] using rev_ind; intros Hd; [done|]. apply Forall_app in Hd as [Hd Ht]. apply list.Forall_cons in Ht as [Ht _].
  rewrite fold_left_app. cbn [fold_left]. unfold abs_commit at 1. rewrite decoded_x0 by done. by apply IH.
Qed.

(** C40 (refinement): the register files of an issue lane are one table of
    registers.  After any sequence of commits of the lane's warps, none of
    which fails, the register of every warp, type, number and thread holds
    what the commits wrote into it: the selected bytes of the destination, in
    the active threads of the warp, and nothing else; the operands fetched
    for an instruction are the values of its source registers; and x0 is
    still zero when the commits are those of decoded instructions. *)
Theorem regs_refine cap ts : Forall commit_ok ts ->
  exists s, commits (Some (Operands_init c cap)) ts = Some s /\
  (forall wid ty idx tid, in_lane wid -> valid_reg ty idx -> (tid < oc_NUM_THREADS c)%nat -> reg_of s wid ty idx tid = Some (abs_regs ts wid ty idx tid)) /\
  (forall t, fetch_ok t -> exists t', fetch_operands c s t = Some t' /\ fetched (abs_regs ts) t t' NUM_SRC_REGS) /\
  (Forall decoded ts -> forall wid tid, in_lane wid -> (tid < oc_NUM_THREADS c)%nat -> reg_of s wid RegInteger 0 tid = Some 0).
Proof.
  intros Hok. destruct (init_ok cap) as [H0 A0]. destruct (commits_ok ts _ _ H0 A0 Hok) as (s & E & Hs & HR). exists s. split; [exact E|]. split; [exact HR|]. split.
  - intros t Ht. pose proof Ht as (Hl & _). destruct (ops_lookup s (tr_wid t) Hs Hl) as (u & w & Hu & _). unfold fetch_operands. rewrite Hu. cbn [mbind option_bind].
    by apply (fetch_sources s).
  - intros Hd wid tid Hl Ht. rewrite (HR wid RegInteger 0 tid); [|done|split; [done|lia]|done]. f_equal. by apply abs_x0.
Qed.

End Regs.

(** The register file itself does not protect x0: a trace with the write flag
    set and destination x0, as the sequencer builds it for a macro-op with
    destination x0, overwrites it. *)
Lemma x0_written : exists c t s s', tr_wb (uop_trace c t {| uo_instr := Instr_init <| rdest := xreg 0 |>; uo_uuid := 0; uo_parent_uuid := 0; uo_bytesel := 0xFF |}) = true /\
  tr_wb t = true /\ tr_dst t = xreg 0 /\ s = Operands_init c 1 /\ commit_regs c s t = Some s' /\ reg_of c s' 0 RegInteger 0 0 = Some 7.
Proof.
  exists {| oc_ISSUE_WIDTH := 1; oc_NUM_OPCS := 1; oc_NUM_WARPS := 1; oc_NUM_THREADS := 1; oc_XLEN := 32; oc_NUM_GPR_BANKS := 4 |}.
  exists {| tr_uuid := 0; tr_cid := 0; tr_wid := 0; tr_PC := 0; tr_tmask := [true]; tr_wb := true; tr_instr := Instr_init; tr_dst := xreg 0; tr_src_regs := [];
            tr_src_data := []; tr_dst_data := [7]; tr_dst_bytesel := 0xFF |}.
  eexists _, _. split; [reflexivity|]. split; [reflexivity|]. split; [reflexivity|]. split; [reflexivity|]. split; vm_compute; reflexivity.
Qed.

Module OperandsDemo.

(** Two issue lanes with two collectors each and eight warps; warps 1 and 5
    share a collector of lane 1, warp 3 uses the other. *)
Definition cfg : opc_config := {| oc_ISSUE_WIDTH := 2; oc_NUM_OPCS := 2; oc_NUM_WARPS := 8; oc_NUM_THREADS := 2; oc_XLEN := 32; oc_NUM_GPR_BANKS := 4 |}.
Definition addi5 : Instr := Instr_init <| rdest := xreg 5 |> <| rsrc0 := xreg 5 |>.
Definition commit_of (wid : nat) (mask : list bool) (v bs : Z) : op_trace :=
  (decode_trace ((op_trace_init cfg 0) <| tr_wid := wid |> <| tr_tmask := mask |> <| tr_dst_data := [v; v] |>) addi5) <| tr_dst_bytesel := bs |>.
Definition demo_commits : list op_trace :=
  [commit_of 1 [true; true] 0x11111111 0xFF; commit_of 5 [true; true] 0x55555555 0xFF; commit_of 3 [true; true] 0x33333333 0xFF; commit_of 1 [false; true] 0xAABB 0x01].

(** Only the low byte of x5 in thread 1 of warp 1 is replaced by the last. *)
Lemma regs_refine_witness : exists s, commits cfg (Some (Operands_init cfg 1)) demo_commits = Some s /\
  reg_of cfg s 1 RegInteger 5 0 = Some 0x11111111 /\ reg_of cfg s 1 RegInteger 5 1 = Some 0x111111BB /\ reg_of cfg s 5 RegInteger 5 1 = Some 0x55555555.
Proof.
  destruct (regs_refine cfg 1 ltac:(cbn; lia) ltac:(cbn; lia) 1 demo_commits) as (s & Hs & Hreg & _).
  - repeat constructor; cbn; intros; lia.
  - exists s. split; [exact Hs|].
    split; [|split]; (rewrite Hreg; [vm_compute; reflexivity|split; cbn; [lia|reflexivity]|split; [discriminate|lia]|cbn; lia]).
Defined.

End OperandsDemo.
