(* ===== verification/PackedLoad.v ===== *)
(** * Packed loads

    A packed load names a base and a stride register; the sequencer expands it
    into one ordinary load per element, each of which writes its own bytes of
    the float destination.  Whatever order the loads are committed in, the
    destination holds the elements in order, boxed. *)

From S2P Require Import Prelude MemTypes Decode Scoreboard Sched Cache CacheWorld CacheAddr LsuTypes Coalescer Lsu LsuValues Operands OperandsProofs.

(** ** Issue and execution of the micro-ops *)

Section Packed.
Context (c : opc_config) (lc : lsu_config).

(** [Core::issue] on one instruction: micro-ops until the sequencer says that
    all of them have been issued. *)
Fixpoint issue_all (fuel : nat) (s : Sequencer) (t : op_trace) : option (list op_trace * Sequencer) :=
  match fuel with
  | O => None
  | S fuel =>
      '(s, u) ← sq_get c s t;
      match sq_advance s with
      | (s, true) => Some ([u], s)
      | (s, false) => '(us, s') ← issue_all fuel s t; Some (u :: us, s')
      end
  end.

(** A trace as the load/store unit sees it. *)
Definition lsu_view (R : regmap) (u : op_trace) : lsu_trace := {|
  lt_op_type := op_type (tr_instr u); lt_args := args (tr_instr u); lt_tmask := tr_tmask u;
  lt_src0 := map (R (tr_wid u) RegInteger (ridx (rsrc0 (tr_instr u)))) (seq 0 (oc_NUM_THREADS c));
  lt_src1 := map (R (tr_wid u) RegInteger (ridx (rsrc1 (tr_instr u)))) (seq 0 (oc_NUM_THREADS c));
  lt_wid := Z.of_nat (tr_wid u); lt_cid := tr_cid u; lt_uuid := tr_uuid u;
  lt_dst_float := match rtype (tr_dst u) with RegFloat => true | _ => false end; lt_dst_bytesel := tr_dst_bytesel u; lt_dst_data := tr_dst_data u |}.

(** The value a thread loads: its address, the block there, formatted. *)
Definition load_value (m : memory) (R : regmap) (u : op_trace) (tid : nat) : option Z :=
  o ← lsu_op_of (lsu_view R u);
  width ← entry_width (lsu_view R u);
  let addr := as_addr (thread_access lc (lsu_view R u) o tid) in
  lane_value lc (lsu_view R u) width addr (read_block m (block_of addr)).

(** The trace as it is committed. *)
Definition load_uop (m : memory) (R : regmap) (u : op_trace) : op_trace :=
  u <| tr_dst_data := map (fun tid => default 0 (load_value m R u tid)) (seq 0 (oc_NUM_THREADS c)) |>.

(** ** The value of a packed load *)

(** Element [k] is at the base plus [k] strides. *)
Definition elem_addr (R : regmap) (wid : nat) (rs1 rs2 : Z) (tid : nat) (k : Z) : Z :=
  wrap (xlen lc) (R wid RegInteger rs1 tid + k * R wid RegInteger rs2 tid).

Fixpoint pack_elems (w : Z) (es : list Z) : Z :=
  match es with [] => 0 | e :: es => Z.lor e (Z.shiftl (pack_elems w es) (8 * w)) end.

Definition BOX : Z := 0xFFFFFFFF00000000.

Definition packed_value (m : memory) (R : regmap) (wid : nat) (rs1 rs2 : Z) (tid : nat) (w n : Z) : Z :=
  Z.lor BOX (pack_elems w (map (fun k => load_bytes m (elem_addr R wid rs1 rs2 tid (Z.of_nat k)) w) (seq 0 (Z.to_nat n)))).

(** ** Merging bytes in any order *)

Lemma merge_word_bit mask cur v i : 0 <= i < 64 -> Z.testbit (merge_word 64 mask cur v) i = if Z.testbit mask i then Z.testbit v i else Z.testbit cur i.
Proof.
  intros Hi. unfold merge_word. testbits. repeat split_index. cbn [andb]. destruct (Z.testbit mask i), (Z.testbit v i), (Z.testbit cur i); done.
Qed.

Lemma merge_word_range mask cur v : in_u 64 cur -> in_u 64 (merge_word 64 mask cur v).
Proof. intros Hc. unfold merge_word. apply lor_in_u; [lia|apply land_in_u_l; [lia|done]|apply land_in_u_l; [lia|apply wrap_range; lia]]. Qed.

(** Every write of a bit writes [b], and there is one. *)
Lemma merges_bit (ws : list (Z * Z)) i b : 0 <= i < 64 -> (forall mv, mv ∈ ws -> Z.testbit (fst mv) i = true -> Z.testbit (snd mv) i = b) ->
  (exists mv, mv ∈ ws /\ Z.testbit (fst mv) i = true) ->
  forall cur, Z.testbit (fold_left (fun cur mv => merge_word 64 (fst mv) cur (snd mv)) ws cur) i = b.
Proof.
  intros Hi Hall. induction ws as [|mv ws IH] using rev_ind; intros (mv0 & Hin & Hbit) cur; [by apply elem_of_nil in Hin|].
  rewrite fold_left_app. cbn [fold_left]. rewrite merge_word_bit by done. destruct (Z.testbit (fst mv) i) eqn:E; [apply Hall; [set_solver|done]|].
  apply IH; [intros; apply Hall; set_solver|]. apply elem_of_app in Hin as [Hin|Hin]; [eauto|]. apply list_elem_of_singleton in Hin as ->. congruence.
Qed.

Lemma merges_range ws : forall cur, in_u 64 cur -> in_u 64 (fold_left (fun cur mv => merge_word 64 (fst mv) cur (snd mv)) ws cur).
Proof. induction ws as [|mv ws IH]; intros cur Hc; [done|]. cbn [fold_left]. by apply IH, merge_word_range. Qed.

(** ** The micro-ops *)

(** A decoded packed load of elements of [2 ^ wd] bytes. *)
Definition packld (wd rd rs1 rs2 : Z) : Instr :=
  Instr_init <| fu_type := FU_LSU |> <| op_type := OpLsu LSU_LOAD |> <| rdest := freg rd |> <| rsrc0 := xreg rs1 |> <| rsrc1 := xreg rs2 |>
    <| is_macro_op := true |> <| is_wstall := true |> <| args := LsuArgs wd 0 0 |>.

Lemma decode_packld_spec code i : decode_packld code = DecInstr i -> exists wd, (wd = 0 \/ wd = 1) /\ f_funct3 code = wd + 1 /\ i = packld wd (f_rd code) (f_rs1 code) (f_rs2 code).
Proof.
  unfold decode_packld. destruct (Z.eqb_spec (f_funct3 code) 1) as [E|E]; [intros [= <-]; exists 0; split_and!; [lia|done|done]|].
  destruct (Z.eqb_spec (f_funct3 code) 2) as [E2|E2]; [intros [= <-]; exists 1; split_and!; [lia|done|done]|done].
Qed.

Definition elem_count (wd : Z) : nat := if wd =? 0 then 4 else 2.

(** Micro-op [k] of the packed load of trace [t]. *)
Definition uop_k (t : op_trace) (k : nat) : option op_trace := u ← uop_get (tr_uuid t) (tr_instr t) (Z.of_nat k); Some (uop_trace c t u).

Lemma uop_k_some t wd rd rs1 rs2 k : tr_instr t = packld wd rd rs1 rs2 -> is_Some (uop_k t k).
Proof. intros Et. unfold uop_k, uop_get, uop_count. rewrite Et. change (args (packld wd rd rs1 rs2)) with (LsuArgs wd 0 0). cbn [mbind option_bind]. eauto. Qed.

Definition running (k n : nat) (a : bool) : Sequencer := {| sq_active := a; sq_uop_index := Z.of_nat k; sq_uop_count := Z.of_nat n; sq_current_uop := None |}.

Lemma issue_from t wd rd rs1 rs2 n : tr_instr t = packld wd rd rs1 rs2 -> (n < 255)%nat -> forall f k, (k < n)%nat -> (n - k <= f)%nat ->
  exists us, issue_all f (running k n true) t = Some (us, running n n false) /\ map Some us = map (uop_k t) (seq k (n - k)).
Proof.
  intros Et Hn. induction f as [|f IH]; intros k Hk Hf; [lia|]. destruct (uop_k_some t wd rd rs1 rs2 k Et) as [u Hu]. pose proof Hu as Hu'.
  unfold uop_k in Hu'. destruct (uop_get (tr_uuid t) (tr_instr t) (Z.of_nat k)) as [u0|] eqn:Eu; [|done]. injection Hu' as Hu'.
  cbn [issue_all running sq_get sq_current_uop sq_active negb andb mbind option_bind sq_uop_index]. rewrite Eu. cbn [mbind option_bind]. rewrite Hu'.
  cbv [sq_advance set const]. cbn [running sq_active sq_uop_index sq_uop_count sq_current_uop]. rewrite (wrap_small 32 (Z.of_nat k + 1)) by (unfold in_u; lia).
  replace (Z.of_nat k + 1) with (Z.of_nat (S k)) by lia. rewrite (proj2 (Z.leb_gt 255 _)), orb_false_r by lia.
  replace (n - k)%nat with (S (n - S k)) by lia. cbn [seq map]. destruct (Z.leb_spec (Z.of_nat n) (Z.of_nat (S k))) as [Hle|Hlt]; cbn [negb].
  - assert (S k = n) as <- by lia. exists [u]. rewrite Nat.sub_diag, Hu. done.
  - destruct (IH (S k) ltac:(lia) ltac:(lia)) as (us & E & Hus). change (issue_all f _ t) with (issue_all f (running (S k) n true) t). rewrite E. cbn [mbind option_bind]. exists (u :: us).
    cbn [map]. by rewrite Hu, Hus.
Qed.

Lemma issue_packld t wd rd rs1 rs2 : tr_instr t = packld wd rd rs1 rs2 -> wd = 0 \/ wd = 1 ->
  exists us, issue_all 4 Sequencer_init t = Some (us, running (elem_count wd) (elem_count wd) false) /\ map Some us = map (uop_k t) (seq 0 (elem_count wd)).
Proof.
  intros Et Hwd. assert (Hn : (0 < elem_count wd <= 4)%nat) by (destruct Hwd as [-> | ->]; cbn; lia).
  destruct (issue_from t wd rd rs1 rs2 (elem_count wd) Et ltac:(lia) 4 0 ltac:(lia) ltac:(lia)) as (us & E & Hus). rewrite Nat.sub_0_r in Hus. exists us. split; [|done].
  rewrite <- E. cbn [issue_all]. f_equal. unfold sq_get. cbn [Sequencer_init running sq_current_uop sq_active negb andb]. rewrite Et.
  destruct Hwd as [-> | ->]; reflexivity.
Qed.

(** The bytes micro-op [k] selects: its element and the box. *)
Definition sel_k (wd : Z) (k : nat) : Z := Z.lor (Z.shiftl (2 ^ (2 ^ wd) - 1) (Z.of_nat k * 2 ^ wd)) 0xF0.

Lemma uop_k_spec t wd rd rs1 rs2 k u : tr_instr t = packld wd rd rs1 rs2 -> wd = 0 \/ wd = 1 -> (k < elem_count wd)%nat -> uop_k t k = Some u ->
  tr_wid u = tr_wid t /\ tr_tmask u = tr_tmask t /\ tr_wb u = true /\ tr_dst u = freg rd /\ op_type (tr_instr u) = OpLsu LSU_LOAD /\
  args (tr_instr u) = LsuArgs (wd + 4) (Z.of_nat k) 0 /\ rsrc0 (tr_instr u) = xreg rs1 /\ rsrc1 (tr_instr u) = xreg rs2 /\
  tr_dst_bytesel u = sel_k wd k.
Proof.
  intros Et Hwd Hk. unfold uop_k. rewrite Et. destruct Hwd as [-> | ->]; cbn in Hk; intros [= <-]; repeat (destruct k as [|k]; [split_and!; reflexivity|]); lia.
Qed.

Lemma sel_k_bit wd k i : wd = 0 \/ wd = 1 -> (k < elem_count wd)%nat -> 0 <= i < 64 ->
  Z.testbit (expand_bytesel64 (sel_k wd k)) i = (32 <=? i) || ((8 * 2 ^ wd * Z.of_nat k <=? i) && (i <? 8 * 2 ^ wd * (Z.of_nat k + 1))).
Proof.
  intros Hwd Hk Hi.
  assert (Hall : forallb (fun i => Bool.eqb (Z.testbit (expand_bytesel64 (sel_k wd k)) (Z.of_nat i))
    ((32 <=? Z.of_nat i) || ((8 * 2 ^ wd * Z.of_nat k <=? Z.of_nat i) && (Z.of_nat i <? 8 * 2 ^ wd * (Z.of_nat k + 1))))) (seq 0 64) = true).
  { destruct Hwd as [-> | ->]; cbn in Hk; [do 4 (destruct k as [|k]; [vm_compute; reflexivity|])|do 2 (destruct k as [|k]; [vm_compute; reflexivity|])]; exfalso; clear -Hk; lia. }
  rewrite forallb_forall in Hall. specialize (Hall (Z.to_nat i) ltac:(apply in_seq; lia)). rewrite Z2Nat.id in Hall by lia. by apply eqb_prop.
Qed.

(** ** The values *)

Hypothesis Hx : xlen lc = 32 \/ xlen lc = 64.

Lemma elem_addr_ok R u o rs1 rs2 wd k tid : (tid < oc_NUM_THREADS c)%nat -> test (tr_tmask u) tid = true ->
  op_type (tr_instr u) = OpLsu LSU_LOAD -> args (tr_instr u) = LsuArgs wd k 0 -> rsrc0 (tr_instr u) = xreg rs1 -> rsrc1 (tr_instr u) = xreg rs2 ->
  lsu_op_of (lsu_view R u) = Some o -> as_addr (thread_access lc (lsu_view R u) o tid) = elem_addr R (tr_wid u) rs1 rs2 tid k.
Proof using Hx.
  intros Ht Hm Hop Ha H0 H1 Ho. unfold lsu_op_of in Ho. cbn [lsu_view lt_op_type lt_args] in Ho. rewrite Hop, Ha in Ho. injection Ho as <-.
  unfold thread_access. cbn [lsu_view lt_tmask lt_src0 lt_src1 op_stride op_offset]. rewrite Hm. cbn [as_addr]. rewrite !list_lookup_fmap, lookup_seq_lt by done. cbn [fmap option_fmap option_map default].
  rewrite H0, H1. cbn [xreg ridx Nat.add]. unfold elem_addr. rewrite Z.add_0_r.
  assert (H64 : forall z, wrap (xlen lc) (u64 z) = wrap (xlen lc) z).
  { intros z. apply Z.bits_inj'. intros i Hi. testbits. destruct Hx as [-> | ->]; repeat split_index; done. }
  rewrite H64. rewrite <- wrap_add_l, wrap_sint, wrap_add_l by lia. rewrite <- wrap_add_r, wrap_mul_r, wrap_add_r. done.
Qed.

(** What micro-op [k] writes: its element at its place, and the box. *)
Lemma load_value_k m R t wd rd rs1 rs2 k u tid : tr_instr t = packld wd rd rs1 rs2 -> wd = 0 \/ wd = 1 -> (k < elem_count wd)%nat -> uop_k t k = Some u ->
  (tid < oc_NUM_THREADS c)%nat -> test (tr_tmask t) tid = true ->
  offset_of (elem_addr R (tr_wid t) rs1 rs2 tid (Z.of_nat k)) + 2 ^ wd <= 64 ->
  load_value m R u tid = Some (Z.lor (u64 (Z.shiftl (load_bytes m (elem_addr R (tr_wid t) rs1 rs2 tid (Z.of_nat k)) (2 ^ wd)) (8 * 2 ^ wd * Z.of_nat k))) BOX).
Proof using Hx.
  intros Et Hwd Hk Hu Ht Hm Hoff. destruct (uop_k_spec t wd rd rs1 rs2 k u Et Hwd Hk Hu) as (Ewid & Etm & _ & Edst & Eop & Eargs & E0 & E1 & Ebs).
  unfold load_value. destruct (lsu_op_of (lsu_view R u)) as [o|] eqn:Eo; [|unfold lsu_op_of in Eo; cbn [lsu_view lt_op_type lt_args] in Eo; by rewrite Eop, Eargs in Eo].
  cbn [mbind option_bind]. unfold entry_width. cbn [lsu_view lt_op_type lt_args]. rewrite Eop, Eargs. cbn [mbind option_bind].
  rewrite (elem_addr_ok R u o rs1 rs2 (wd + 4) (Z.of_nat k) tid) by (done || by rewrite Etm). rewrite Ewid. set (a := elem_addr R (tr_wid t) rs1 rs2 tid (Z.of_nat k)) in *.
  assert (Ha : in_u 64 a).
  { pose proof (wrap_range (xlen lc) (R (tr_wid t) RegInteger rs1 tid + Z.of_nat k * R (tr_wid t) RegInteger rs2 tid) ltac:(lia)) as Hr. fold (elem_addr R (tr_wid t) rs1 rs2 tid (Z.of_nat k)) in Hr. fold a in Hr.
    unfold in_u in *. destruct Hx as [E|E]; rewrite E in Hr; lia. }
  unfold lane_value. fold (offset_of a). cbn [lsu_view lt_dst_bytesel lt_dst_float]. rewrite Edst, Ebs. cbn [freg rtype].
  assert (Hb : Z.shiftl 1 (Z.land (wd + 4) 3) = 2 ^ wd) by (destruct Hwd as [-> | ->]; done). rewrite Hb.
  rewrite read_data_block by (done || destruct Hwd as [-> | ->]; done || lia). cbn [mbind option_bind].
  assert (Hf : forall v, format_load lc (wd + 4) true v = Some v) by (intros v; destruct Hwd as [-> | ->]; done). rewrite Hf. cbn [mbind option_bind]. do 2 f_equal.
  - assert (Hs : (if (Z.land (sel_k wd k) 15 =? 0) || (Z.land (sel_k wd k) 15 =? 15) then 0 else ctz4 (Z.land (sel_k wd k) 15)) = 2 ^ wd * Z.of_nat k).
    { destruct Hwd as [-> | ->]; cbn in Hk; [do 4 (destruct k as [|k]; [vm_compute; reflexivity|])|do 2 (destruct k as [|k]; [vm_compute; reflexivity|])]; exfalso; clear -Hk; lia. }
    rewrite Hs. do 2 f_equal. lia.
  - destruct Hwd as [-> | ->]; done.
Qed.

Lemma pack_elems_bit w es : 0 < w -> Forall (in_u (8 * w)) es -> forall k i, (k < length es)%nat -> 8 * w * Z.of_nat k <= i < 8 * w * (Z.of_nat k + 1) ->
  Z.testbit (pack_elems w es) i = Z.testbit (default 0 (es !! k)) (i - 8 * w * Z.of_nat k).
Proof.
  intros Hw. induction es as [|e es IH]; intros He k i Hk Hi; [cbn in Hk; lia|]. apply list.Forall_cons in He as [He Hes]. cbn [pack_elems]. rewrite Z.lor_spec, Z.shiftl_spec by nia.
  destruct k as [|k].
  - rewrite (Z.testbit_neg_r _ (i - 8 * w)) by lia. rewrite orb_false_r. cbn. f_equal. lia.
  - rewrite (testbit_in_u (8 * w) e i) by (done || nia). cbn [orb]. cbn in Hk. rewrite (IH Hes k) by (lia || nia). cbn [lookup]. f_equal. lia.
Qed.

Lemma pack_elems_range w es : 0 < w -> Forall (in_u (8 * w)) es -> in_u (8 * w * Z.of_nat (length es)) (pack_elems w es).
Proof.
  intros Hw. induction es as [|e es IH]; intros He; [cbn [length pack_elems]; replace (8 * w * Z.of_nat 0) with 0 by lia; by vm_compute|].
  apply list.Forall_cons in He as [He Hes]. specialize (IH Hes). cbn [length pack_elems]. apply lor_in_u; [nia| |].
  - unfold in_u in *. assert (2 ^ (8 * w) <= 2 ^ (8 * w * Z.of_nat (S (length es)))) by (apply Z.pow_le_mono_r; nia). lia.
  - unfold in_u in *. rewrite Z.shiftl_mul_pow2 by lia. replace (8 * w * Z.of_nat (S (length es))) with (8 * w * Z.of_nat (length es) + 8 * w) by lia.
    rewrite Z.pow_add_r by nia. pose proof (pow2_pos (8 * w) ltac:(lia)). nia.
Qed.

(** The commits of the micro-ops as merges into one register. *)
Lemma commits_fold m R0 wid rd tid us : (tid < oc_NUM_THREADS c)%nat ->
  (forall u, u ∈ us -> tr_wid u = wid /\ tr_wb u = true /\ tr_dst u = freg rd /\ test (tr_tmask u) tid = true) ->
  forall R, fold_left (abs_commit c) (map (load_uop m R0) us) R wid RegFloat rd tid =
    fold_left (fun cur mv => merge_word 64 (fst mv) cur (snd mv)) (map (fun u => (expand_bytesel64 (tr_dst_bytesel u), default 0 (load_value m R0 u tid))) us) (R wid RegFloat rd tid).
Proof.
  intros Ht. induction us as [|u us IH]; intros Hall R; [done|]. destruct (Hall u ltac:(left)) as (Ew & Ewb & Ed & Em). cbn [map fold_left fst snd]. rewrite IH by (intros; apply Hall; by right).
  f_equal. unfold abs_commit, writes, load_uop. cbv [set const]. cbn [tr_wb tr_wid tr_dst tr_tmask tr_dst_bytesel tr_dst_data]. rewrite Ewb, Em, Ed, bool_decide_true by done. cbn [andb reg_width].
  by rewrite list_lookup_fmap, lookup_seq_lt by done.
Qed.

Lemma commits_other m R0 wid rd us wid' ty idx tid :
  (forall u, u ∈ us -> tr_wid u = wid /\ tr_dst u = freg rd /\ (~ (wid' = wid /\ ty = RegFloat /\ idx = rd) \/ test (tr_tmask u) tid = false)) ->
  forall R, fold_left (abs_commit c) (map (load_uop m R0) us) R wid' ty idx tid = R wid' ty idx tid.
Proof.
  induction us as [|u us IH]; intros Hall R; [done|]. destruct (Hall u ltac:(left)) as (Ew & Ed & Hn). cbn [map fold_left]. rewrite IH by (intros; apply Hall; by right).
  unfold abs_commit, writes, load_uop. cbv [set const]. cbn [tr_wb tr_wid tr_dst tr_tmask]. rewrite Ed, Ew. cbn [freg rtype ridx].
  destruct Hn as [Hn| ->]; [rewrite bool_decide_false by done|]; by rewrite ?andb_false_r.
Qed.

Lemma uops_elem t us n u : map Some us = map (uop_k t) (seq 0 n) -> u ∈ us -> exists k, (k < n)%nat /\ uop_k t k = Some u.
Proof.
  intros E Hu. apply list_elem_of_lookup in Hu as [k Hk]. assert (Hn : map Some us !! k = Some (Some u)) by (by rewrite list_lookup_fmap, Hk).
  rewrite E, list_lookup_fmap in Hn. destruct (seq 0 n !! k) as [j|] eqn:Ej; [|done]. apply lookup_seq in Ej as [-> Hj]. exists k. split; [done|]. by injection Hn.
Qed.

(** What the micro-ops write, in any order: each the bytes of its element and
    the box. *)
Lemma uop_writes m R t wd rd rs1 rs2 us us' tid : tr_instr t = packld wd rd rs1 rs2 -> wd = 0 \/ wd = 1 ->
  map Some us = map (uop_k t) (seq 0 (elem_count wd)) -> us' ≡ₚ us -> (tid < oc_NUM_THREADS c)%nat -> test (tr_tmask t) tid = true ->
  (forall k, (k < elem_count wd)%nat -> offset_of (elem_addr R (tr_wid t) rs1 rs2 tid (Z.of_nat k)) + 2 ^ wd <= 64) ->
  let ws := map (fun u => (expand_bytesel64 (tr_dst_bytesel u), default 0 (load_value m R u tid))) us' in
  let write k := (expand_bytesel64 (sel_k wd k),
    Z.lor (u64 (Z.shiftl (load_bytes m (elem_addr R (tr_wid t) rs1 rs2 tid (Z.of_nat k)) (2 ^ wd)) (8 * 2 ^ wd * Z.of_nat k))) BOX) in
  (forall mv, mv ∈ ws -> exists k, (k < elem_count wd)%nat /\ mv = write k) /\ (forall k, (k < elem_count wd)%nat -> write k ∈ ws).
Proof using Hx.
  intros Et Hwd Eus Hp Ht Htm Hoff ws write.
  assert (Hw : forall k u, (k < elem_count wd)%nat -> uop_k t k = Some u -> (expand_bytesel64 (tr_dst_bytesel u), default 0 (load_value m R u tid)) = write k).
  { intros k u Hk Huk. destruct (uop_k_spec t wd rd rs1 rs2 k u Et Hwd Hk Huk) as (_ & _ & _ & _ & _ & _ & _ & _ & ->). by rewrite (load_value_k m R t wd rd rs1 rs2 k u tid) by auto. }
  split.
  - intros mv Hin. apply list_elem_of_fmap in Hin as (u & -> & Hu). rewrite Hp in Hu. destruct (uops_elem t us _ u Eus Hu) as (k & Hk & Huk). exists k. split; [done|by apply Hw].
  - intros k Hk. destruct (uop_k_some t wd rd rs1 rs2 k Et) as [u Huk]. apply list_elem_of_fmap. exists u. rewrite Hp. split; [by rewrite (Hw k u)|].
    assert (Hs : Some u ∈ map Some us) by (rewrite Eus, <- Huk; apply list_elem_of_fmap; exists k; split; [done|apply elem_of_seq; lia]). by apply list_elem_of_fmap in Hs as (u' & [= <-] & ?).
Qed.

Lemma packed_bits m R t wd rd rs1 rs2 us us' tid : tr_instr t = packld wd rd rs1 rs2 -> wd = 0 \/ wd = 1 -> (forall a, is_byte (m a)) ->
  in_u 64 (R (tr_wid t) RegFloat rd tid) -> map Some us = map (uop_k t) (seq 0 (elem_count wd)) -> us' ≡ₚ us ->
  (tid < oc_NUM_THREADS c)%nat -> test (tr_tmask t) tid = true ->
  (forall k, (k < elem_count wd)%nat -> offset_of (elem_addr R (tr_wid t) rs1 rs2 tid (Z.of_nat k)) + 2 ^ wd <= 64) ->
  fold_left (fun cur mv => merge_word 64 (fst mv) cur (snd mv)) (map (fun u => (expand_bytesel64 (tr_dst_bytesel u), default 0 (load_value m R u tid))) us') (R (tr_wid t) RegFloat rd tid)
  = packed_value m R (tr_wid t) rs1 rs2 tid (2 ^ wd) (Z.of_nat (elem_count wd)).
Proof using Hx.
  intros Et Hwd Hm HR Eus Hp Ht Htm Hoff. set (el := fun k => load_bytes m (elem_addr R (tr_wid t) rs1 rs2 tid (Z.of_nat k)) (2 ^ wd)).
  set (ws := map _ us'). set (es := map el (seq 0 (elem_count wd))).
  assert (H2 : 0 < 2 ^ wd <= 2 /\ 2 ^ wd * Z.of_nat (elem_count wd) = 4) by (destruct Hwd as [-> | ->]; cbn; lia). destruct H2 as [H2 H4].
  assert (Hes : Forall (in_u (8 * 2 ^ wd)) es) by (apply Forall_map, Forall_true; intros k; by apply load_bytes_range; [|lia]).
  assert (Les : length es = elem_count wd) by (unfold es; by rewrite length_map, length_seq).
  destruct (uop_writes m R t wd rd rs1 rs2 us us' tid Et Hwd Eus Hp Ht Htm Hoff) as [Hws Hin]. fold ws in Hws, Hin. change (load_bytes m (elem_addr R (tr_wid t) rs1 rs2 tid (Z.of_nat ?k)) (2 ^ wd)) with (el k) in Hws, Hin.
  unfold packed_value. rewrite Nat2Z.id. fold el. fold es. pose proof (pack_elems_range (2 ^ wd) es ltac:(lia) Hes) as Hpr. rewrite Les in Hpr. replace (8 * 2 ^ wd * Z.of_nat (elem_count wd)) with 32 in Hpr by lia.
  apply Z.bits_inj'. intros i Hi. destruct (Z.ltb_spec i 64) as [H64|H64].
  2:{ rewrite !(testbit_in_u 64) by (lia || apply merges_range, HR || (apply lor_in_u; [lia|by vm_compute|unfold in_u in *; lia])). done. }
  assert (Hbox : Z.testbit BOX i = (32 <=? i)).
  { replace BOX with (Z.shiftl (Z.ones 32) 32) by reflexivity. rewrite Z.shiftl_spec by lia. destruct (Z.leb_spec 32 i); [rewrite Z.testbit_ones_nonneg by lia; apply Z.ltb_lt; lia|by rewrite Z.testbit_neg_r by lia]. }
  rewrite Z.lor_spec, Hbox. destruct (Z.leb_spec 32 i) as [H32|H32]; cbn [orb].
  - apply merges_bit; [lia| |].
    + intros mv Hmv _. destruct (Hws mv Hmv) as (k & Hk & ->). cbn [snd]. rewrite Z.lor_spec, Hbox. apply orb_true_r.
    + assert (H0 : (0 < elem_count wd)%nat) by (destruct Hwd as [-> | ->]; cbn; lia). eexists. split; [exact (Hin 0%nat H0)|]. cbn [fst]. rewrite sel_k_bit by (done || lia). by rewrite (proj2 (Z.leb_le 32 i)).
  - set (k := Z.to_nat (i / (8 * 2 ^ wd))). pose proof (Z.div_mod i (8 * 2 ^ wd) ltac:(lia)) as Hdm. pose proof (Z.mod_pos_bound i (8 * 2 ^ wd) ltac:(lia)) as Hmb.
    assert (Hk0 : 0 <= i / (8 * 2 ^ wd)) by (apply Z.div_pos; lia). assert (Hki : 8 * 2 ^ wd * Z.of_nat k <= i < 8 * 2 ^ wd * (Z.of_nat k + 1)) by (unfold k; rewrite Z2Nat.id by done; lia).
    assert (Hk : (k < elem_count wd)%nat) by nia.
    rewrite (pack_elems_bit (2 ^ wd) es ltac:(lia) Hes k i) by (lia || done). unfold es. rewrite list_lookup_fmap, lookup_seq_lt by done. cbn [fmap option_fmap option_map default Nat.add].
    assert (Hval : forall k', (k' < elem_count wd)%nat -> Z.testbit (expand_bytesel64 (sel_k wd k')) i = true -> k' = k).
    { intros k' Hk' Hb. rewrite sel_k_bit in Hb by (done || lia). rewrite (proj2 (Z.leb_gt 32 i)) in Hb by lia. cbn [orb] in Hb. apply andb_true_iff in Hb as [Hb1 Hb2]. apply Z.leb_le in Hb1. apply Z.ltb_lt in Hb2. nia. }
    apply merges_bit; [lia| |].
    + intros mv Hmv Hb. destruct (Hws mv Hmv) as (k' & Hk' & ->). cbn [fst snd] in *. rewrite (Hval k' Hk' Hb). rewrite Z.lor_spec, Hbox, orb_false_r.
      rewrite testbit_wrap by lia. rewrite (proj2 (Z.ltb_lt i 64)) by lia. cbn [andb]. by rewrite Z.shiftl_spec by lia.
    + eexists. split; [exact (Hin k Hk)|]. cbn [fst]. rewrite sel_k_bit by (done || lia). rewrite (proj2 (Z.leb_le (8 * 2 ^ wd * Z.of_nat k) i)), (proj2 (Z.ltb_lt i _)) by lia. apply orb_true_r.
Qed.

(** A packed load collects its elements.  The sequencer
    issues one load per element of a decoded packed load and is then ready
    for the next instruction; whatever order the loads are committed in, the
    float destination of every active thread then holds the elements found
    in memory at the base, the base plus one stride and so on, packed from
    the low end and boxed, and every other register is unchanged. *)
Theorem packed_load_isa t code i R m : decode_packld code = DecInstr i -> tr_instr t = i -> (forall a, is_byte (m a)) ->
  (forall tid, in_u 64 (R (tr_wid t) RegFloat (f_rd code) tid)) ->
  let wd := f_funct3 code - 1 in
  exists us s, issue_all 4 Sequencer_init t = Some (us, s) /\ sq_active s = false /\ sq_current_uop s = None /\ length us = elem_count wd /\
  forall us', us' ≡ₚ us -> let R' := fold_left (abs_commit c) (map (load_uop m R) us') R in
  (forall tid, (tid < oc_NUM_THREADS c)%nat -> test (tr_tmask t) tid = true ->
     (forall k, (k < elem_count wd)%nat -> offset_of (elem_addr R (tr_wid t) (f_rs1 code) (f_rs2 code) tid (Z.of_nat k)) + 2 ^ wd <= 64) ->
     R' (tr_wid t) RegFloat (f_rd code) tid = packed_value m R (tr_wid t) (f_rs1 code) (f_rs2 code) tid (2 ^ wd) (Z.of_nat (elem_count wd))) /\
  (forall wid ty idx tid, ~ (wid = tr_wid t /\ ty = RegFloat /\ idx = f_rd code) \/ test (tr_tmask t) tid = false -> R' wid ty idx tid = R wid ty idx tid).
Proof using Hx.
  intros Hdec Ei Hm HR wd. destruct (decode_packld_spec code i Hdec) as (wd0 & Hwd & Ef & Ei'). assert (wd0 = wd) as -> by (unfold wd; lia). rewrite Ei' in Ei. clear Ei' Hdec i Ef.
  set (rd := f_rd code) in *. set (rs1 := f_rs1 code) in *. set (rs2 := f_rs2 code) in *. clearbody rd rs1 rs2 wd.
  destruct (issue_packld t wd rd rs1 rs2 Ei Hwd) as (us & Hus & Eus). exists us, (running (elem_count wd) (elem_count wd) false). split; [done|]. split; [done|]. split; [done|].
  split. { rewrite <- (length_map Some), Eus, length_map, length_seq. done. }
  assert (Hspec : forall u, u ∈ us -> exists k, (k < elem_count wd)%nat /\ uop_k t k = Some u) by (intros u; by apply uops_elem).
  intros us' Hp R'. split.
  - intros tid Ht Hm' Hoff. unfold R'. rewrite (commits_fold m R (tr_wid t) rd tid us' Ht).
    2:{ intros u Hu. rewrite Hp in Hu. destruct (Hspec u Hu) as (k & Hk & Huk). destruct (uop_k_spec t wd rd rs1 rs2 k u Ei Hwd Hk Huk) as (-> & -> & -> & -> & _). done. }
    by apply (packed_bits m R t wd rd rs1 rs2 us).
  - intros wid ty idx tid Hn. apply (commits_other m R (tr_wid t) rd). intros u Hu. rewrite Hp in Hu. destruct (Hspec u Hu) as (k & Hk & Huk).
    destruct (uop_k_spec t wd rd rs1 rs2 k u Ei Hwd Hk Huk) as (-> & -> & _ & -> & _). done.
Qed.

End Packed.

Module PackedLoadDemo.

Definition pc : opc_config := {| oc_ISSUE_WIDTH := 1; oc_NUM_OPCS := 1; oc_NUM_WARPS := 2; oc_NUM_THREADS := 2; oc_XLEN := 32; oc_NUM_GPR_BANKS := 4 |}.
Definition plc : lsu_config :=
  {| VX_CFG_NUM_THREADS := 2; VX_CFG_NUM_LSU_LANES := 2; xlen := 32; VX_CFG_EXT_A_ENABLED := true; VX_CFG_LSU_QUEUE_IN_SIZE := 4; VX_CFG_LSU_PENDING_SIZE := 8 |}.

(** [vx_packlb_f f7, (x5), x6]: the bytes at 0x100, 0x110, 0x120 and 0x130. *)
Definition packlb : Z := 0x0862938B.
Definition packlb_instr : Instr := packld 0 7 5 6.
Definition packlb_trace : op_trace := (op_trace_init pc 9) <| tr_tmask := [true; false] |> <| tr_instr := packlb_instr |>.
Definition demo_regs : regmap := fun wid ty idx tid => match ty with RegInteger => if idx =? 5 then 0x100 else 0x10 | _ => 0 end.
Definition demo_mem : memory := fun a => Z.land (Z.shiftr a 4) 0xFF.

Lemma packed_load_isa_witness : exists us s, issue_all pc 4 Sequencer_init packlb_trace = Some (us, s) /\ length us = 4%nat /\
  fold_left (abs_commit pc) (map (load_uop pc plc demo_mem demo_regs) (rev us)) demo_regs O RegFloat 7 O = 0xFFFFFFFF13121110.
Proof.
  destruct (packed_load_isa pc plc (or_introl eq_refl) packlb_trace packlb packlb_instr demo_regs demo_mem) as (us & s & Hus & _ & _ & Hl & H).
  - reflexivity.
  - reflexivity.
  - intros a. apply land_in_u_r; [lia|]. unfold in_u. lia.
  - intros tid. unfold in_u. cbn. lia.
  - exists us, s. split; [exact Hus|]. split; [exact Hl|]. destruct (H (rev us) (Permutation_sym (Permutation_rev us))) as [H1 _].
    etrans; [apply H1|vm_compute; reflexivity]; [cbn; lia|reflexivity|].
    intros k Hk. do 4 (destruct k as [|k]; [vm_compute; discriminate|]). exfalso. change (elem_count (f_funct3 packlb - 1)) with 4%nat in Hk. lia.
Defined.

End PackedLoadDemo.
